(* ===== verification/_CoqProject ===== *)
-Q . S2P
Prelude.v
GoStr.v
Apperr.v
Json.v
RawJson.v
GoTime.v
Encoding.v
FilePath.v
Url.v
Registry.v
World.v
Agent.v
Risk.v
Matcher.v
Glob.v
Intent.v
Declare.v
Adapters.v
Scope.v
Forbidden.v
Decision.v
Gateway.v
TimeColumn.v
Lease.v
Trust.v
Approval.v
Redact.v
Response.v
Outbound.v
Execute.v
GenericHttp.v
CloudflareAdapter.v
ModelAdapter.v
Settings.v
Ledger.v
Request.v
Credential.v
Store.v
LeaseStore.v
ApprovalStore.v
TrustStore.v
LedgerStore.v
RequestStore.v
IdentityStore.v
CredentialStore.v
SettingsStore.v
AdapterStore.v
Machine.v
Crypto.v
Vault.v
Csv.v
ConsoleViews.v
Events.v
LedgerExport.v
Console.v
UnlockWait.v
CredentialRegistry.v
Commands.v
OnePassword.v
Keychain.v
Config.v
Setup.v
Serving.v
Exchange.v
AgentAuth.v
Pipeline.v
PipelineSpec.v
Orchestration.v
ConsoleApi.v
ConsoleSpec.v
ProxyFace.v
McpCalls.v
McpServer.v
Cascade.v
GatewayClient.v
CommandLine.v
Samples.v
OutsideSamples.v
VaultSamples.v
ConsoleSamples.v
