(* ===== verification/Prelude.v ===== *)
(** * OpenDelo: a verification library for the gateway's decision chain

    OpenDelo is a local gateway between software agents and outside services. An
    agent asks for an operation; the gateway resolves what is meant, which
    account it concerns and how far it reaches, rates the risk, decides - allow,
    ask the user, refuse - and only then lets a lease exist that an outgoing
    request can use. Every step is recorded in an append-only ledger. This
    library models that chain (Go, under src/internal/) and proves what it
    promises.

    ** Parts of the program and the files that model them

    - Foundations. [Prelude] has results, list and string lemmas and tactics.
      [GoStr], [GoTime], [Json], [RawJson], [Encoding], [Url], [FilePath] and
      [Glob] model what the program uses of Go's standard library: byte strings
      and UTF-8, instants and RFC 3339, encoding/json at the level of text and
      json.RawMessage, hex and base64, net/url, filepath.Clean and path.Match.
      [Apperr] is platform/apperr.
      [World] is the monad every stateful handler runs in and the column codecs of
      store/repo/repo.go; [TimeColumn] shows that comparing those columns as text
      compares the instants.
    - Pure components, one file per package of core/: [Intent] and [Declare]
      (core/intent), [Matcher] (core/matcher), [Scope] (core/scope), [Risk]
      (core/risk), [Forbidden] and [Decision] (core/decision), [Gateway]
      (core/gateway), and [Registry] (adapter/registry: what an adapter declares).
    - Stateful components, each over a repository interface: [Lease] (core/lease),
      [Trust] (core/trust), [Approval] (core/approval), [Redact] and [Ledger]
      (platform/audit), [Settings] (platform/settings). An interface is a class [Repository] of operations and a
      class [RepositoryLaws] of what they promise; the manager's theorems are
      proved from the laws alone.
    - Rows: [Agent] (core/agentauth), [Credential] (credential/registry),
      [Request] (core/pipeline/request.go).
    - Agents: [AgentAuth] is core/agentauth (service.go, session.go) - session
      keys, registration, authentication, confirmation of trust - over the tables
      of devices, workspaces and agents.
    - Adapters: [Adapters] is adapter/registry/registry.go and the capability
      tables of the four built-in services; [AdapterStore] is the enabled adapters.
    - The outgoing side: [Machine] is the state of code that reaches outside the
      process (the tables and the sequence of what was sent and answered);
      [Outbound] is the HTTP client with its redirect rule, [Response] the bounded
      reading and redacting of what comes back, [Execute] an adapter's execution
      of a capability, and [GenericHttp], [CloudflareAdapter] and [ModelAdapter]
      three adapters in full. [Exchange] is one exchange under a lease.
    - Secrets: [CredentialRegistry] is credential/registry over the credential
      tables and the tools outside, and [UnlockWait] the waiting room of requests
      for the vault to be unlocked. [Crypto] is platform/crypto, the sealed
      envelope over a cipher and a key derivation that are parameters with laws;
      [Vault] is credential/localvault, the vault's file, its lock, its idle time
      and its lockout, over a device whose writes may tear. [OnePassword] and
      [Keychain] are the two sources that ask a program of the system, with what
      both do in [Commands] (credential/registry/binary.go).
    - The database: [Store] has the fourteen tables as finite maps with a lens each
      and the shapes of the SQL statements; [LeaseStore], [ApprovalStore],
      [TrustStore], [LedgerStore], [RequestStore], [IdentityStore],
      [CredentialStore], [SettingsStore] and [AdapterStore] are the repositories of store/repo with the statements of
      store/queries and the constraints of store/migrations. The first four
      discharge the laws of the interfaces above (instances [repository_laws]).
    - The composition: [Pipeline] is core/pipeline - [Handle], [SettleApproval],
      [ExpireApprovals], [ClearTrustMemory], [DisconnectIdentity],
      [DisconnectAgent] - built from the components' own operations over the
      database; [PipelineSpec] and [Cascade] prove what a run guarantees;
      [Orchestration] is core/orchestration, which gathers what a decision needs.
    - The faces: [ProxyFace] is the proxy an agent sends a request through,
      [McpCalls] and [McpServer] the MCP tools and their two transports. The
      console's API is transport/httpapi in four files: [ConsoleViews] has what is
      shown of each row, [Events] the broker of events and the stream, [Console]
      the guard, the refusals and the reading of bodies, [ConsoleApi] the routes
      and every handler over a [Backend] - the machine, the vault and the broker.
      [ConsoleSpec] proves who may do what through them. [LedgerExport] is
      platform/audit/export.go and the export of the console, with [Csv] for
      encoding/csv.
    - The process: [Config] is platform/config - the layers of the configuration,
      its checks, the token file - over a disk whose operations may fail; [Setup]
      is cli/init.go; [Serving] is the gateway from binding its ports to closing
      its database (cli/start.go, face.go, assemble.go) as goroutines that
      interleave; [GatewayClient] is cli/gatewayclient, the commands as clients of
      [ConsoleApi]; [CommandLine] is the run command (cli/run.go, environ.go,
      agentsession.go).
    - [Samples] is a concrete world on which the chain is run by evaluation and to
      which the theorems with hypotheses are applied; [OutsideSamples],
      [VaultSamples] and [ConsoleSamples] are the same for the code that reaches
      outside, the vault, the console and the run command.

    Definitions keep the source's names; where two fields or functions of one
    file share a name the model's carries a prefix, said where it is declared.

    ** How state and failure are modelled

    A handler is a function [M D E A]: it takes a [World] - the database and how
    far the clock, the identifier generator and the statement counter have
    advanced - and gives a result and the world after. The class [Env] supplies
    the clock's readings, the identifiers, which statements fail, and SQLite's
    json_valid; every theorem holds for all of them, so "however the run ends"
    includes a disk failure at any statement, with what earlier statements did
    left in place, as in the code. A Go error is the code CodeOf gives. [wp m Q d]
    says that any run of [m] from database [d] ends in a result and a database
    that satisfy [Q]; the lemmas [wp_*] are the rules of the statements. Code that
    sends requests runs over a [Machine], whose [outside] adds the sequence of what
    was sent, so "nothing is sent before the lease
    is used" is a statement about that sequence.

    Concurrency appears where the code relies on it: conditional updates make the
    rows of leases, memories and approvals state machines ([Lease.step],
    [Trust.step], [Approval.step]), the managers are shown to move only along
    them, and the theorems about reachable rows hold for every interleaving of
    statements; [Gateway] interleaves single atomic loads and stores, [UnlockWait],
    [Events] and [Serving] the steps of goroutines at their mutexes, channels and
    selects. A theorem about "every interleaving" there is about every list of
    such steps.

    Integers: Go's int is 64-bit; [Json.int64_ok] bounds what is decoded,
    [optionalCount] and [decodeCount] the int32 range of count columns. Instants
    are nanoseconds since year 1 and [column] is their truncation to the
    millisecond of the text column.

    Recursion is structural except in the JSON parser, whose fuel [parse_fuel] is
    the length of the text plus one and is shown enough by the round trip
    [Json.parse_print], in decimal printing, with fuel of the number's
    logarithm ([GoStr.log2_fuel]), and in [Glob], bounded by the pattern's length.
    Following redirects ends by the client's own bound (redirects_end), every
    wait for the vault ends (waits_end) at its deadline at the latest, and the
    gateway comes down in a bounded number of steps (shutdown_ends).

    ** What the theorems show

    - The decision table: when a request is allowed without a person and when
      never (decide_auto_allow, decide_never_auto), that doubt refuses
      (decide_fail_closed), that modes are ordered (decide_mode_monotone), the
      forbidden list (classify_spec), the risk level and its monotonicity
      (evaluate_level, evaluate_monotone).
    - What a request is understood as: consistency of the capability table,
      soundness of resolution, the deciding level of identity matching, least
      scopes, exact and transitive covering, and the round trips of the stored
      texts.
    - Grants over time: a lease is never over-used and never changes what it
      grants; a memory never widens; an approval is settled once; opening is
      idempotent; expiry denies.
    - The ledger: append-only, redacted, pruned all or nothing.
    - Agents: what registering does on every branch, which keys authenticate, that
      an ended session stays ended and that trust comes from a confirmation only.
    - The composition: what a handled request and a confirmation leave in the
      tables on every branch, that a lease exists only after its event and - when
      asked - only after a person, and that disconnecting an identity or an agent
      takes back what it gave, up to a page of a thousand rows.
    - The outgoing side: a redirect never carries the credential elsewhere, what
      comes back is bounded and redacted, an adapter sends nothing a capability
      does not declare, and a request that failed after it was sent is not sent
      again unless it can be repeated.
    - The faces: whatever an agent sends to the proxy or calls as a tool reaches
      the outside only under a lease that covers it and with its use counted
      first; the tools offered are the declared ones.
    - The console: what its guard lets through (guard_exact), that what belongs to
      another agent cannot be told from what does not exist (foreign_hidden), that
      an agent is kept out of what belongs to a person (agents_kept_out), that
      reading changes nothing (reading_is_safe), that a lease out of a settlement
      takes a person who is there (settle_in_person); that a subscriber gets the
      events in order and the wire carries them whole (broker_in_order,
      stream_readable); that an export reads back (exports_agree).
    - The vault: it is a map that survives failures (vault_is_map), what is sealed
      is opened again (open_seal), its password cannot be guessed at speed
      (guesses_bounded) and tells nothing when wrong (no_enumeration).
    - Secrets: registering a credential keeps what the others refer to, takes over
      no coordinate of another service and empties the plaintext it checked with,
      and waiting
      for the vault wakes everyone once it is open and ends otherwise.
    - Sources: a reference names one field or one password and nothing wider, and
      only a program nobody else can replace is called (fetch_one_field,
      fetch_one_password).
    - The process: what a loaded configuration is and which layer its settings come
      from, the level of security excepted, which is fixed (load_layers), that the
      token is private and complete where it was written (token_is_private), that
      init keeps what is there (init_prepares), in which order everything is taken
      down (shutdown_order).
    - The run command: no credential of the person reaches the agent
      (environ_clean), what is seen of the agent is what the gateway registers
      (register_understood), and no session outlives its agent unseen
      (run_ends_session). [connect] cannot succeed (connect_never_connects).
    - Storage: registering a credential is one transaction; time columns sort as
      instants.

    ** Not modelled

    The ciphers and hashes themselves; opening and migrating the database; log
    lines; the wiring of the components (assemble.go hands each constructor what it
    asks for), the parsing of flags and what is printed on the terminal; the
    generator of identifiers; the console's assets and its user interface; TLS,
    sockets and timers: input and output around the chain, or third-party code.
    Contexts and their cancellation appear in [Serving] and [UnlockWait]; elsewhere
    a cancelled statement is one that fails. Error details for people (WithDetail) are kept in
    [Apperr] only. float64 formatting is a parameter ([Intent.Floats]), the tables
    of package unicode outside ASCII too ([GoStr.Unicode]). *)
From stdpp Require Export base gmap strings list sorting relations.
From Stdlib Require Export ZArith Lia.
From Stdlib Require Export Ascii.

Set Default Proof Using "Type".
Open Scope Z_scope.

(** ** Results

    A Go function with an [error] result is a function into [result E]: [Ok a]
    is [(a, nil)] and [Err e] is [(zero, e)]. *)
Inductive result (E A : Type) : Type :=
| Ok (a : A)
| Err (e : E).
Arguments Ok {E A} a.
Arguments Err {E A} e.

#[export] Instance result_ret {E} : MRet (result E) := fun A a => Ok a.
#[export] Instance result_bind {E} : MBind (result E) := fun A B f m =>
  match m with Ok a => f a | Err e => Err e end.

Definition is_Ok {E A} (m : result E A) : bool :=
  match m with Ok _ => true | Err _ => false end.

(** [if bad then return err]: the guard clause of the Go code. *)
Definition refuse_if {E} (bad : bool) (e : E) : result E unit :=
  if bad then Err e else Ok tt.

Section result_lemmas.
Context {E : Type}.

Lemma bind_Ok {A B} (m : result E A) (f : A -> result E B) b :
  m ≫= f = Ok b <-> exists a, m = Ok a /\ f a = Ok b.
Proof. destruct m; split; [eauto|intros (? & ? & ?); naive_solver|done|intros (? & ? & ?); done]. Qed.

Lemma refuse_if_Ok (bad : bool) (e : E) u : refuse_if bad e = Ok u <-> bad = false.
Proof. destruct bad, u; split; naive_solver. Qed.

Lemma refuse_if_false (e : E) : refuse_if false e = Ok tt.
Proof. reflexivity. Qed.

Lemma is_Ok_true {A} (m : result E A) : is_Ok m = true <-> exists a, m = Ok a.
Proof. destruct m; split; naive_solver. Qed.
End result_lemmas.

(** The hint database of the development: the lemmas that push facts through
    results, boolean tests and lists. *)
Create HintDb delo discriminated.
Create Rewrite HintDb delo.
#[export] Hint Rewrite @refuse_if_Ok : delo.

(** ** Booleans

    Go's [==] on strings is [bool_decide (x = y)]. *)
Notation "x '==?' y" := (bool_decide (x = y)) (at level 70, no associativity) : Z_scope.
Notation "x '!=?' y" := (negb (bool_decide (x = y))) (at level 70, no associativity) : Z_scope.

(** Turns every boolean hypothesis built from [&&], [||], [negb] and
    [bool_decide] into propositions. *)
Ltac bools :=
  repeat match goal with
  | H : (_ && _) = true |- _ => apply andb_true_iff in H; destruct H
  | H : (_ || _) = false |- _ => apply orb_false_iff in H; destruct H
  | H : negb _ = true |- _ => apply negb_true_iff in H
  | H : negb _ = false |- _ => apply negb_false_iff in H
  | H : bool_decide _ = true |- _ => apply bool_decide_eq_true in H
  | H : bool_decide _ = false |- _ => apply bool_decide_eq_false in H
  | H : (_ =? _)%Z = true |- _ => apply Z.eqb_eq in H
  | H : (_ =? _)%Z = false |- _ => apply Z.eqb_neq in H
  | H : (_ <? _)%Z = true |- _ => apply Z.ltb_lt in H
  | H : (_ <? _)%Z = false |- _ => apply Z.ltb_ge in H
  | H : (_ <=? _)%Z = true |- _ => apply Z.leb_le in H
  | H : (_ <=? _)%Z = false |- _ => apply Z.leb_gt in H
  end.

(** Follows a Go function through its guards: splits every bind, guard and
    pattern match a hypothesis is stuck on. *)
Ltac run_in H :=
  repeat first
    [ progress (autorewrite with delo in H)
    | progress simplify_eq/=
    | match type of H with
      | (_ ≫= _) = Ok _ => apply bind_Ok in H; destruct H as (? & ? & H)
      | (if ?b then _ else _) = _ => destruct b eqn:?
      | (match ?m with _ => _ end) = _ => destruct m eqn:?
      end ].

Ltac solve_by_cases :=
  repeat case_match; simplify_eq/=; try done; try lia; try naive_solver.

(** ** Lists *)

(** [for _, x := range l { if p(x) { return &x } }]. *)
Fixpoint find_first {A} (p : A -> bool) (l : list A) : option A :=
  match l with
  | [] => None
  | x :: rest => if p x then Some x else find_first p rest
  end.

Section lists.
Context {A : Type}.
Implicit Types (p : A -> bool) (l : list A).

Lemma find_first_Some p l x : find_first p l = Some x -> x ∈ l /\ p x = true.
Proof.
  induction l as [|y l IH]; simpl; [done|].
  destruct (p y) eqn:Hy; intros H; simplify_eq.
  - split; [left|done].
  - destruct (IH H). split; [by right|done].
Qed.

Lemma find_first_None p l : find_first p l = None <-> forall x, x ∈ l -> p x = false.
Proof.
  induction l as [|y l IH]; simpl.
  - split; [intros _ x Hx; by apply not_elem_of_nil in Hx | done].
  - destruct (p y) eqn:Hy; split.
    + done.
    + intros H. rewrite (H y) in Hy; [done|left].
    + intros H x [->|Hx]%elem_of_cons; [done|]. by apply IH.
    + intros H. apply IH. intros x Hx. apply H. by right.
Qed.

Lemma find_first_is_Some p l : is_Some (find_first p l) <-> existsb p l = true.
Proof.
  induction l as [|y l IH]; simpl; [by split; [intros []|]|].
  destruct (p y); simpl; [by split; eauto|done].
Qed.

(** The first hit of a longer list is the first hit of its prefix. *)
Lemma find_first_app p l k :
  find_first p (l ++ k) =
    match find_first p l with Some x => Some x | None => find_first p k end.
Proof. induction l as [|y l IH]; simpl; [done|]. destruct (p y); done. Qed.

Lemma existsb_elem_of p l : existsb p l = true <-> exists x, x ∈ l /\ p x = true.
Proof.
  rewrite existsb_exists. split; intros (x & Hx & Hp); exists x;
    (split; [by apply list_elem_of_In|done]).
Qed.

Lemma existsb_false p l : existsb p l = false <-> forall x, x ∈ l -> p x = false.
Proof.
  rewrite <- not_true_iff_false, existsb_elem_of. split.
  - intros H x Hx. destruct (p x) eqn:Hp; [|done]. exfalso. eauto.
  - intros H (x & Hx & Hp). rewrite (H x Hx) in Hp. done.
Qed.

Lemma forallb_elem_of p l : forallb p l = true <-> forall x, x ∈ l -> p x = true.
Proof.
  rewrite forallb_forall. by setoid_rewrite list_elem_of_In.
Qed.
End lists.

(** Membership of a string in a literal list, as Go's closed switch lists have
    it. *)
Definition one_of (s : string) (l : list string) : bool := existsb (fun x => x ==? s) l.

Lemma one_of_spec s l : one_of s l = true <-> s ∈ l.
Proof.
  unfold one_of. rewrite existsb_elem_of. split.
  - intros (x & Hx & He). bools. by subst.
  - intros H. exists s. split; [done|]. by apply bool_decide_eq_true.
Qed.

(** Sorting of Go string slices ([sort.Strings]). *)
Definition sort_strings (l : list string) : list string := merge_sort String.le l.

Lemma sort_strings_perm l : sort_strings l ≡ₚ l.
Proof. apply merge_sort_Permutation. Qed.

Lemma sort_strings_sorted l : Sorted String.le (sort_strings l).
Proof. apply Sorted_merge_sort. apply _. Qed.

(** A sorted slice does not depend on the order it was built in, which is why
    the code sorts what it collects from a map. *)
Lemma sort_strings_canonical l k : l ≡ₚ k -> sort_strings l = sort_strings k.
Proof.
  intros H. apply (Sorted_unique String.le).
  - apply sort_strings_sorted.
  - apply sort_strings_sorted.
  - by rewrite !sort_strings_perm.
Qed.
