(* ===== verification/GoStr.v ===== *)
(** * Go strings

    The part of Go's [strings], [unicode], [utf8] and [strconv] packages the
    gateway calls. A Go string is a byte sequence, so it is a [string] here and
    indexing is by byte; ranging over it decodes UTF-8 exactly as the language
    does, an invalid byte giving U+FFFD of width one.

    Case mapping of the ASCII range is written out. The tables of the
    [unicode] package for the other code points are an argument, the class
    [Unicode]: nothing proved here depends on their contents. *)
From stdpp Require Export pretty.
From S2P Require Import Prelude.
Open Scope Z_scope.

(** The tables of package [unicode] for runes from 128 on. *)
Class Unicode := {
  uni_upper : Z -> Z;
  uni_lower : Z -> Z;
  uni_is_upper : Z -> bool;
  (** [uni_fold r1 r2]: one of two distinct runes is at least 128 and they lie
      on one [unicode.SimpleFold] orbit. *)
  uni_fold : Z -> Z -> bool;
}.

(** A world without case outside ASCII: enough to evaluate examples. *)
Definition ascii_only : Unicode :=
  {| uni_upper := id; uni_lower := id; uni_is_upper := fun _ => false;
     uni_fold := fun _ _ => false |}.

(** ** Bytes and runes *)

Definition byte_of (c : ascii) : Z := Z.of_N (Ascii.N_of_ascii c).
Definition of_byte (b : Z) : ascii := Ascii.ascii_of_N (Z.to_N b).

Definition in_range (lo hi b : Z) : bool := (lo <=? b) && (b <=? hi).

(** [utf8.RuneError]. *)
Definition rune_error : Z := 65533.

Definition is_cont (c : ascii) : bool := in_range 128 191 (byte_of c).

(** Two-, three- and four-byte sequences the decoder accepts: shortest form
    only, no surrogates, nothing past U+10FFFF. *)
Definition valid2 (a b : ascii) : bool := in_range 194 223 (byte_of a) && is_cont b.
Definition valid3 (a b c : ascii) : bool :=
  is_cont c &&
  ((byte_of a =? 224) && in_range 160 191 (byte_of b) ||
   (in_range 225 236 (byte_of a) || in_range 238 239 (byte_of a)) && is_cont b ||
   (byte_of a =? 237) && in_range 128 159 (byte_of b)).
Definition valid4 (a b c d : ascii) : bool :=
  is_cont c && is_cont d &&
  ((byte_of a =? 240) && in_range 144 191 (byte_of b) ||
   in_range 241 243 (byte_of a) && is_cont b ||
   (byte_of a =? 244) && in_range 128 143 (byte_of b)).

Definition low6 (c : ascii) : Z := byte_of c mod 64.
Definition rune2 (a b : ascii) : Z := byte_of a mod 32 * 64 + low6 b.
Definition rune3 (a b c : ascii) : Z := byte_of a mod 16 * 4096 + low6 b * 64 + low6 c.
Definition rune4 (a b c d : ascii) : Z :=
  byte_of a mod 8 * 262144 + low6 b * 4096 + low6 c * 64 + low6 d.

(** [for _, r := range s]: the runes of [s], each with the bytes it was read
    from. *)
Fixpoint chunks (s : string) : list (Z * string) :=
  match s with
  | "" => []
  | String a r =>
      if byte_of a <? 128 then (byte_of a, String a "") :: chunks r
      else
        match r with
        | String b r1 =>
            if valid2 a b then (rune2 a b, String a (String b "")) :: chunks r1
            else
              match r1 with
              | String c r2 =>
                  if valid3 a b c
                  then (rune3 a b c, String a (String b (String c ""))) :: chunks r2
                  else
                    match r2 with
                    | String d r3 =>
                        if valid4 a b c d
                        then (rune4 a b c d,
                              String a (String b (String c (String d "")))) :: chunks r3
                        else (rune_error, String a "") :: chunks r
                    | "" => (rune_error, String a "") :: chunks r
                    end
              | "" => (rune_error, String a "") :: chunks r
              end
        | "" => (rune_error, String a "") :: chunks r
        end
  end.

Definition runes (s : string) : list Z := map fst (chunks s).

(** Width one is how an invalid byte differs from a literal U+FFFD. *)
Definition invalid_chunk (c : Z * string) : bool :=
  (c.1 =? rune_error) && (String.length c.2 =? 1)%nat.
Definition valid_utf8 (s : string) : bool := forallb (fun c => negb (invalid_chunk c)) (chunks s).

(** [utf8.AppendRune]: values that are no Unicode scalar become U+FFFD. *)
Definition encode_rune (r : Z) : string :=
  let r := if (in_range 0 55295 r || in_range 57344 1114111 r) then r else rune_error in
  if r <? 128 then String (of_byte r) ""
  else if r <? 2048 then
    String (of_byte (192 + r / 64)) (String (of_byte (128 + r mod 64)) "")
  else if r <? 65536 then
    String (of_byte (224 + r / 4096))
      (String (of_byte (128 + r / 64 mod 64))
         (String (of_byte (128 + r mod 64)) ""))
  else
    String (of_byte (240 + r / 262144))
      (String (of_byte (128 + r / 4096 mod 64))
         (String (of_byte (128 + r / 64 mod 64))
            (String (of_byte (128 + r mod 64)) ""))).

Definition concat_str (l : list string) : string := foldr String.append "" l.

(** [strings.Map]. *)
Definition map_runes (f : Z -> Z) (s : string) : string :=
  concat_str (map (fun r => encode_rune (f r)) (runes s)).

(** ** Case *)

Definition is_upper_ascii (r : Z) : bool := in_range 65 90 r.
Definition is_lower_ascii (r : Z) : bool := in_range 97 122 r.

Section case.
Context `{Unicode}.

Definition rune_upper (r : Z) : Z :=
  if r <? 128 then (if is_lower_ascii r then r - 32 else r) else uni_upper r.
Definition rune_lower (r : Z) : Z :=
  if r <? 128 then (if is_upper_ascii r then r + 32 else r) else uni_lower r.
Definition rune_is_upper (r : Z) : bool :=
  if r <? 128 then is_upper_ascii r else uni_is_upper r.

Definition to_upper (s : string) : string := map_runes rune_upper s.
Definition to_lower (s : string) : string := map_runes rune_lower s.

Definition rune_fold (a b : Z) : bool :=
  (a =? b) ||
  (if (a <? 128) && (b <? 128)
   then rune_lower a =? rune_lower b
   else uni_fold a b).

Fixpoint fold_eq (l k : list Z) : bool :=
  match l, k with
  | [], [] => true
  | a :: l, b :: k => rune_fold a b && fold_eq l k
  | _, _ => false
  end.

(** [strings.EqualFold]. *)
Definition equal_fold (s t : string) : bool := fold_eq (runes s) (runes t).

Lemma equal_fold_refl s : equal_fold s s = true.
Proof.
  unfold equal_fold. induction (runes s) as [|r l IH]; simpl; [done|].
  rewrite IH. unfold rune_fold. by rewrite Z.eqb_refl.
Qed.
End case.

(** ** Searching and cutting *)

Definition has_prefix (s pre : string) : bool := String.prefix pre s.
Definition has_suffix (s suf : string) : bool := String.prefix (String.rev suf) (String.rev s).

Fixpoint drop_str (n : nat) (s : string) : string :=
  match n, s with
  | S n, String _ r => drop_str n r
  | _, _ => s
  end.
Fixpoint take_str (n : nat) (s : string) : string :=
  match n, s with
  | S n, String c r => String c (take_str n r)
  | _, _ => ""
  end.

Definition trim_prefix (s pre : string) : string :=
  if has_prefix s pre then drop_str (String.length pre) s else s.
Definition trim_suffix (s suf : string) : string :=
  if has_suffix s suf then take_str (String.length s - String.length suf) s else s.

Fixpoint contains (s sub : string) : bool :=
  String.prefix sub s || match s with "" => false | String _ r => contains r sub end.

Fixpoint str_exists (p : ascii -> bool) (s : string) : bool :=
  match s with "" => false | String c r => p c || str_exists p r end.

Fixpoint str_filter (p : ascii -> bool) (s : string) : string :=
  match s with
  | "" => ""
  | String c r => if p c then String c (str_filter p r) else str_filter p r
  end.

Definition ascii_in (set : string) (c : ascii) : bool := str_exists (fun d => c ==? d) set.

(** [strings.ContainsAny] for an ASCII set. *)
Definition contains_any (s set : string) : bool := str_exists (ascii_in set) s.

(** [strings.NewReplacer(c1, "", c2, "", ...).Replace] for one-byte patterns. *)
Definition remove_chars (set s : string) : string :=
  str_filter (fun c => negb (ascii_in set c)) s.

(** [strings.Split] with a one-byte separator: never empty. *)
Fixpoint split_on (sep : ascii) (s : string) : list string :=
  match s with
  | "" => [""]
  | String c r =>
      if c ==? sep then "" :: split_on sep r
      else match split_on sep r with
           | [] => [String c ""]
           | w :: rest => String c w :: rest
           end
  end.

(** [strings.Join]. *)
Fixpoint join (sep : string) (l : list string) : string :=
  match l with
  | [] => ""
  | [x] => x
  | x :: rest => x +:+ sep +:+ join sep rest
  end.

(** ** White space *)

(** [unicode.IsSpace]. *)
Definition is_space (r : Z) : bool :=
  in_range 9 13 r || (r =? 32) || (r =? 133) || (r =? 160) || (r =? 5760) ||
  in_range 8192 8202 r || (r =? 8232) || (r =? 8233) || (r =? 8239) || (r =? 8287) ||
  (r =? 12288).

Fixpoint drop_spaces (l : list (Z * string)) : list (Z * string) :=
  match l with
  | [] => []
  | c :: rest => if is_space c.1 then drop_spaces rest else l
  end.

(** [strings.TrimSpace]. *)
Definition trim_space (s : string) : string :=
  concat_str (map snd (reverse (drop_spaces (reverse (drop_spaces (chunks s)))))).

(** [strings.TrimSpace(s) == ""]. *)
Definition blank (s : string) : bool := forallb is_space (runes s).

(** [strconv.Itoa]. The fuel is the number of binary digits, of which there are
    at least as many as decimal ones. *)
Fixpoint dec_digits (fuel : nat) (n : Z) (acc : string) : string :=
  match fuel with
  | O => acc
  | S fuel =>
      let acc := String (of_byte (48 + n mod 10)) acc in
      if n / 10 =? 0 then acc else dec_digits fuel (n / 10) acc
  end.
Definition utoa (n : Z) : string := dec_digits (S (Z.to_nat (Z.log2 n))) n "".
Definition itoa (n : Z) : string := if n <? 0 then "-" +:+ utoa (- n) else utoa n.

(** [strconv.Atoi] without its range check, which callers make: [None] for a
    text that is no decimal integer. *)
Definition digit_value (c : ascii) : option Z :=
  if in_range 48 57 (byte_of c) then Some (byte_of c - 48) else None.
Fixpoint dec_value (acc : Z) (s : string) : option Z :=
  match s with
  | "" => Some acc
  | String c r =>
      match digit_value c with Some d => dec_value (acc * 10 + d) r | None => None end
  end.
Definition parse_uint (s : string) : option Z := if s ==? "" then None else dec_value 0 s.
Definition parse_int (s : string) : option Z :=
  match s with
  | String c r => if byte_of c =? 45 then Z.opp <$> parse_uint r else parse_uint s
  | "" => None
  end.

(** ** Facts *)

Lemma str_app_cons c s t : String c s +:+ t = String c (s +:+ t).
Proof. reflexivity. Qed.

Lemma str_app_nil_l s : "" +:+ s = s.
Proof. reflexivity. Qed.

Lemma str_app_nil_r s : s +:+ "" = s.
Proof. induction s as [|c s IH]; [done|]. by rewrite str_app_cons, IH. Qed.

Lemma str_app_assoc s t u : s +:+ (t +:+ u) = (s +:+ t) +:+ u.
Proof. induction s as [|c s IH]; [done|]. by rewrite !str_app_cons, IH. Qed.

Lemma str_exists_false p s : str_exists p s = false <-> str_filter p s = "".
Proof. induction s as [|c s IH]; simpl; [done|]. destruct (p c); simpl; naive_solver. Qed.

Lemma str_exists_app p s t : str_exists p (s +:+ t) = str_exists p s || str_exists p t.
Proof. induction s as [|c s IH]; simpl; [done|]. by rewrite IH, orb_assoc. Qed.

Lemma str_filter_app p s t : str_filter p (s +:+ t) = str_filter p s +:+ str_filter p t.
Proof.
  induction s as [|c s IH]; [done|]. rewrite str_app_cons.
  cbn [str_filter]. destruct (p c); rewrite IH; [by rewrite str_app_cons|done].
Qed.

Lemma str_filter_idemp p s : str_filter p (str_filter p s) = str_filter p s.
Proof.
  induction s as [|c s IH]; simpl; [done|].
  destruct (p c) eqn:Hc; simpl; [by rewrite Hc, IH|done].
Qed.

Lemma prefix_refl_app s t : String.prefix s (s +:+ t) = true.
Proof.
  induction s as [|c s IH]; [by destruct t|].
  rewrite str_app_cons. simpl. by destruct (ascii_dec c c).
Qed.

Lemma prefix_spec s t : String.prefix s t = true <-> exists u, t = s +:+ u.
Proof.
  split; [|intros [u ->]; apply prefix_refl_app].
  revert t. induction s as [|c s IH]; intros t; simpl.
  - intros _. by exists t.
  - destruct t as [|d t]; simpl; [done|].
    destruct (ascii_dec c d) as [->|]; [|done]. intros [u ->]%IH. by exists u.
Qed.

(** A substring is found exactly when it occurs. *)
Lemma contains_spec s sub :
  contains s sub = true <-> exists pre post, s = pre +:+ sub +:+ post.
Proof.
  induction s as [|c s IH]; cbn [contains]; rewrite orb_true_iff, prefix_spec.
  - split.
    + intros [[u Hu]|H]; [|done]. by exists "", u.
    + intros (pre & post & H). left. destruct pre; [by exists post|done].
  - rewrite IH. split.
    + intros [[u Hu]|(pre & post & ->)]; [by exists "", u|by exists (String c pre), post].
    + intros ([|d pre] & post & H); [left; by exists post|right].
      rewrite str_app_cons in H. simplify_eq. by exists pre, post.
Qed.

(** Encoding undoes decoding for every sequence the decoder accepts. *)
Lemma byte_of_range c : 0 <= byte_of c < 256.
Proof.
  unfold byte_of. pose proof (N_ascii_bounded c) as Hb. lia.
Qed.

Lemma of_byte_of c : of_byte (byte_of c) = c.
Proof. unfold of_byte, byte_of. rewrite N2Z.id. apply ascii_N_embedding. Qed.

Lemma of_byte_is b c : b = byte_of c -> of_byte b = c.
Proof. intros ->. apply of_byte_of. Qed.

Lemma in_range_spec lo hi b : in_range lo hi b = true <-> lo <= b <= hi.
Proof. unfold in_range. rewrite andb_true_iff, !Z.leb_le. done. Qed.

Ltac rune_arith :=
  repeat match goal with
  | H : _ = true |- _ =>
      first [ apply andb_true_iff in H; destruct H
            | apply orb_true_iff in H; destruct H
            | apply in_range_spec in H
            | apply Z.eqb_eq in H ]
  end;
  repeat match goal with c : ascii |- _ => 
    lazymatch goal with
    | H : 0 <= byte_of c < 256 |- _ => fail
    | _ => pose proof (byte_of_range c)
    end end.

Ltac pick_branch b v :=
  let E := fresh in
  assert (E : b = v) by
    (first [ apply Z.ltb_lt | apply Z.ltb_ge | idtac ];
     unfold in_range; try (apply orb_true_iff; first
       [ left; apply andb_true_iff; split; apply Z.leb_le; lia
       | right; apply andb_true_iff; split; apply Z.leb_le; lia ]); lia);
  rewrite E; clear E.

Lemma encode_rune_ascii r : 0 <= r < 128 -> encode_rune r = String (of_byte r) "".
Proof.
  intros Hr. unfold encode_rune.
  pick_branch (in_range 0 55295 r || in_range 57344 1114111 r) true.
  by pick_branch (r <? 128) true.
Qed.

Lemma encode_rune2 a b :
  valid2 a b = true -> encode_rune (rune2 a b) = String a (String b "").
Proof.
  unfold valid2, is_cont. intros Hv. rune_arith. unfold encode_rune, rune2, low6.
  set (r := byte_of a mod 32 * 64 + byte_of b mod 64).
  assert (Hr : r = (byte_of a - 192) * 64 + (byte_of b - 128)) by (subst r; Z.div_mod_to_equations; lia).
  clearbody r.
  pick_branch (in_range 0 55295 r || in_range 57344 1114111 r) true.
  pick_branch (r <? 128) false. pick_branch (r <? 2048) true.
  repeat match goal with |- String _ _ = String _ _ => f_equal end; apply of_byte_is; Z.div_mod_to_equations; lia.
Qed.

Lemma encode_rune3 a b c :
  valid3 a b c = true ->
  encode_rune (rune3 a b c) = String a (String b (String c "")).
Proof.
  unfold valid3, is_cont. intros Hv. rune_arith;
    (unfold encode_rune, rune3, low6;
     set (r := byte_of a mod 16 * 4096 + byte_of b mod 64 * 64 + byte_of c mod 64);
     assert (Hr : r = (byte_of a - 224) * 4096 + (byte_of b - 128) * 64 + (byte_of c - 128))
       by (subst r; Z.div_mod_to_equations; lia);
     clearbody r;
     pick_branch (in_range 0 55295 r || in_range 57344 1114111 r) true;
     pick_branch (r <? 128) false; pick_branch (r <? 2048) false;
     pick_branch (r <? 65536) true;
     repeat match goal with |- String _ _ = String _ _ => f_equal end; apply of_byte_is; Z.div_mod_to_equations; lia).
Qed.

Lemma encode_rune4 a b c d :
  valid4 a b c d = true ->
  encode_rune (rune4 a b c d) = String a (String b (String c (String d ""))).
Proof.
  unfold valid4, is_cont. intros Hv. rune_arith;
    (unfold encode_rune, rune4, low6;
     set (r := byte_of a mod 8 * 262144 + byte_of b mod 64 * 4096 +
               byte_of c mod 64 * 64 + byte_of d mod 64);
     assert (Hr : r = (byte_of a - 240) * 262144 + (byte_of b - 128) * 4096 +
                      (byte_of c - 128) * 64 + (byte_of d - 128))
       by (subst r; Z.div_mod_to_equations; lia);
     clearbody r;
     pick_branch (in_range 0 55295 r || in_range 57344 1114111 r) true;
     pick_branch (r <? 128) false; pick_branch (r <? 2048) false;
     pick_branch (r <? 65536) false;
     repeat match goal with |- String _ _ = String _ _ => f_equal end; apply of_byte_is;
     Z.div_mod_to_equations; lia).
Qed.

(** Splitting never gives an empty list, and joining undoes it. *)
Lemma split_on_nonempty sep s : split_on sep s <> [].
Proof. destruct s as [|c s]; simpl; [done|]. repeat case_match; done. Qed.

Lemma join_split sep s : join (String sep "") (split_on sep s) = s.
Proof.
  induction s as [|c s IH]; simpl; [done|].
  destruct (split_on sep s) as [|w rest] eqn:E; [by apply split_on_nonempty in E|].
  case_bool_decide as Hc; simpl in *.
  - subst c. by rewrite IH.
  - destruct rest; simpl in *; [by rewrite IH|]. by rewrite <- IH, str_app_cons.
Qed.

Lemma split_on_no_sep sep s w :
  w ∈ split_on sep s -> str_exists (fun c => c ==? sep) w = false.
Proof.
  revert w. induction s as [|c s IH]; simpl; intros w.
  - by intros ->%list_elem_of_singleton.
  - case_bool_decide as Hc.
    + intros [->|Hw]%elem_of_cons; auto.
    + destruct (split_on sep s) as [|v rest] eqn:E; [by apply split_on_nonempty in E|].
      intros [->|Hw]%elem_of_cons; simpl.
      * rewrite bool_decide_eq_false_2 by done. simpl. apply IH. left.
      * apply IH. by right.
Qed.

(** Splitting undoes joining of parts that hold no separator. *)
Lemma split_no_sep sep w rest :
  str_exists (fun c => c ==? sep) w = false ->
  split_on sep (w +:+ rest) =
    match split_on sep rest with [] => [w] | v :: more => (w +:+ v) :: more end.
Proof.
  induction w as [|c w IH]; intros Hw.
  - rewrite str_app_nil_l. destruct (split_on sep rest) eqn:E; [|done].
    by apply split_on_nonempty in E.
  - simpl in Hw. apply orb_false_iff in Hw as [Hc Hw]. rewrite str_app_cons.
    cbn [split_on]. rewrite Hc, IH by done.
    destruct (split_on sep rest) eqn:E; [by apply split_on_nonempty in E|done].
Qed.

Lemma split_join sep l :
  l <> [] -> (forall w, w ∈ l -> str_exists (fun c => c ==? sep) w = false) ->
  split_on sep (join (String sep "") l) = l.
Proof.
  induction l as [|w l IH]; [done|]. intros _ Hl.
  assert (Hw : str_exists (fun c => c ==? sep) w = false) by (apply Hl; left).
  destruct l as [|v l].
  - simpl. rewrite <- (str_app_nil_r w) at 1. rewrite split_no_sep by done.
    simpl. by rewrite str_app_nil_r.
  - assert (E : split_on sep (join (String sep "") (v :: l)) = v :: l).
    { apply IH; [done|]. intros x Hx. apply Hl. by right. }
    change (join (String sep "") (w :: v :: l))
      with (w +:+ (String sep "" +:+ join (String sep "") (v :: l))).
    rewrite split_no_sep by done. rewrite str_app_cons, str_app_nil_l.
    cbn [split_on]. rewrite bool_decide_eq_true_2, E by done.
    by rewrite str_app_nil_r.
Qed.

(** What [chunks] reads off the front of a string: an ASCII byte, a well-formed
    multi-byte sequence (which is the encoding of its rune and is read back
    whatever follows), or one invalid byte. *)
Inductive chunk_shape : Z -> string -> Prop :=
| shape_ascii c : byte_of c < 128 -> chunk_shape (byte_of c) (String c "")
| shape_multi r b :
    128 <= r -> encode_rune r = b -> str_exists (fun c => byte_of c <? 128) b = false ->
    (forall t, chunks (b +:+ t) = (r, b) :: chunks t) ->
    (1 < String.length b)%nat ->
    chunk_shape r b
| shape_invalid c : 128 <= byte_of c -> chunk_shape rune_error (String c "").

Lemma is_cont_spec c : is_cont c = true <-> 128 <= byte_of c <= 191.
Proof. apply in_range_spec. Qed.

Lemma valid3_not_valid2 a b c : valid3 a b c = true -> valid2 a b = false.
Proof.
  intros H. destruct (valid2 a b) eqn:E; [|done]. exfalso.
  unfold valid3, valid2, is_cont in *. rune_arith; lia.
Qed.

Lemma valid4_not_valid23 a b c d :
  valid4 a b c d = true -> valid2 a b = false /\ valid3 a b c = false.
Proof.
  intros H. split.
  - destruct (valid2 a b) eqn:E; [|done]. exfalso.
    unfold valid4, valid2, is_cont in *. rune_arith; lia.
  - destruct (valid3 a b c) eqn:E; [|done]. exfalso.
    unfold valid4, valid3, is_cont in *. rune_arith; lia.
Qed.

Ltac high_bytes :=
  cbn [str_exists]; rewrite !orb_false_iff; repeat split; try done; apply Z.ltb_ge;
  lia.

Lemma valid2_bounds a b :
  valid2 a b = true ->
  (byte_of a <? 128) = false /\ 128 <= rune2 a b /\
  str_exists (fun c => byte_of c <? 128) (String a (String b "")) = false.
Proof.
  unfold valid2, is_cont, rune2, low6. intros H. rune_arith.
  split_and!; [lia|Z.div_mod_to_equations; lia|high_bytes].
Qed.

Lemma valid3_bounds a b c :
  valid3 a b c = true ->
  (byte_of a <? 128) = false /\ 128 <= rune3 a b c /\
  str_exists (fun c => byte_of c <? 128) (String a (String b (String c ""))) = false.
Proof.
  unfold valid3, is_cont, rune3, low6. intros H.
  rune_arith; (split_and!; [lia|Z.div_mod_to_equations; lia|high_bytes]).
Qed.

Lemma valid4_bounds a b c d :
  valid4 a b c d = true ->
  (byte_of a <? 128) = false /\ 128 <= rune4 a b c d /\
  str_exists (fun c => byte_of c <? 128) (String a (String b (String c (String d "")))) = false.
Proof.
  unfold valid4, is_cont, rune4, low6. intros H.
  rune_arith; (split_and!; [lia|Z.div_mod_to_equations; lia|high_bytes]).
Qed.

Lemma shape_valid2 a b : valid2 a b = true -> chunk_shape (rune2 a b) (String a (String b "")).
Proof.
  intros H. destruct (valid2_bounds a b H) as (Ha & Hr & Hb).
  apply shape_multi; [done|by apply encode_rune2|done| |simpl; lia].
  intros t. rewrite !str_app_cons, str_app_nil_l. cbn [chunks]. by rewrite Ha, H.
Qed.

Lemma shape_valid3 a b c :
  valid3 a b c = true -> chunk_shape (rune3 a b c) (String a (String b (String c ""))).
Proof.
  intros H. destruct (valid3_bounds a b c H) as (Ha & Hr & Hb).
  apply shape_multi; [done|by apply encode_rune3|done| |simpl; lia].
  intros t. rewrite !str_app_cons, str_app_nil_l. cbn [chunks].
  by rewrite Ha, (valid3_not_valid2 a b c H), H.
Qed.

Lemma shape_valid4 a b c d :
  valid4 a b c d = true ->
  chunk_shape (rune4 a b c d) (String a (String b (String c (String d "")))).
Proof.
  intros H. destruct (valid4_bounds a b c d H) as (Ha & Hr & Hb).
  destruct (valid4_not_valid23 a b c d H) as [H2 H3].
  apply shape_multi; [done|by apply encode_rune4|done| |simpl; lia].
  intros t. rewrite !str_app_cons, str_app_nil_l. cbn [chunks]. by rewrite Ha, H2, H3, H.
Qed.

Lemma chunks_cons c s :
  exists r b t, String c s = b +:+ t /\ chunks (String c s) = (r, b) :: chunks t /\
    chunk_shape r b.
Proof.
  assert (Hinv : (byte_of c <? 128) = false ->
    chunk_shape rune_error (String c "")) by (intros; apply shape_invalid; lia).
  cbn [chunks]. destruct (byte_of c <? 128) eqn:Hc.
  { exists (byte_of c), (String c ""), s. repeat split. apply shape_ascii. lia. }
  specialize (Hinv eq_refl).
  assert (Hbad : exists r b t, String c s = b +:+ t /\
     (rune_error, String c "") :: chunks s = (r, b) :: chunks t /\ chunk_shape r b)
    by (by exists rune_error, (String c ""), s).
  destruct s as [|c1 s1]; [done|].
  destruct (valid2 c c1) eqn:H2; [by eexists _, _, s1; split_and!; last apply shape_valid2|].
  destruct s1 as [|c2 s2]; [done|].
  destruct (valid3 c c1 c2) eqn:H3; [by eexists _, _, s2; split_and!; last apply shape_valid3|].
  destruct s2 as [|c3 s3]; [done|].
  destruct (valid4 c c1 c2 c3) eqn:H4; [by eexists _, _, s3; split_and!; last apply shape_valid4|].
  done.
Qed.

Lemma str_length_app s t : String.length (s +:+ t) = (String.length s + String.length t)%nat.
Proof. induction s as [|c s IH]; [done|]. rewrite str_app_cons. simpl. by rewrite IH. Qed.

(** Induction over a string rune by rune. *)
Lemma chunks_induction (P : string -> Prop) :
  P "" ->
  (forall r b t, chunk_shape r b -> chunks (b +:+ t) = (r, b) :: chunks t -> P t -> P (b +:+ t)) ->
  forall s, P s.
Proof.
  intros Hnil Hstep s. remember (String.length s) as n eqn:Hn.
  revert s Hn. induction n as [n IH] using lt_wf_ind. intros s ->.
  destruct s as [|c s]; [done|].
  destruct (chunks_cons c s) as (r & b & t & Heq & Hch & Hsh).
  rewrite Heq in Hch |- *. apply (Hstep r b t Hsh Hch).
  apply (IH (String.length t)); [|done].
  rewrite Heq, str_length_app. destruct Hsh; simpl; lia.
Qed.

(** ** Decimal integers *)

Lemma byte_of_of b : 0 <= b < 256 -> byte_of (of_byte b) = b.
Proof.
  intros Hb. unfold byte_of, of_byte. rewrite N_ascii_embedding by lia. lia.
Qed.

Lemma dec_value_digits fuel n acc v :
  0 <= n -> n < 2 ^ Z.of_nat fuel -> 
  dec_value v (dec_digits fuel n acc) =
    match dec_value v (dec_digits fuel n "") with Some w => dec_value w acc | None => None end.
Proof.
  revert n acc v. induction fuel as [|fuel IH]; intros n acc v Hn Hlt; [done|].
  assert (Hd : 0 <= n mod 10 < 10) by (apply Z.mod_pos_bound; lia).
  assert (digit : digit_value (of_byte (48 + n mod 10)) = Some (n mod 10)).
  { unfold digit_value. rewrite byte_of_of by lia.
    assert (E : in_range 48 57 (48 + n mod 10) = true) by (apply in_range_spec; lia).
    rewrite E. f_equal. lia. }
  cbn [dec_digits]. destruct (n / 10 =? 0) eqn:E.
  - cbn [dec_value]. by rewrite digit.
  - assert (n / 10 < 2 ^ Z.of_nat fuel).
    { rewrite Nat2Z.inj_succ, Z.pow_succ_r in Hlt by lia. Z.div_mod_to_equations; lia. }
    assert (0 <= n / 10) by (Z.div_mod_to_equations; lia).
    rewrite (IH _ (String _ acc)), (IH _ (String _ "")) by done.
    destruct (dec_value v (dec_digits fuel (n / 10) "")); [|done].
    cbn [dec_value]. by rewrite digit.
Qed.

Lemma dec_value_dec fuel n :
  0 <= n -> n < 2 ^ Z.of_nat fuel -> (fuel <> 0)%nat ->
  dec_value 0 (dec_digits fuel n "") = Some n.
Proof.
  revert n. induction fuel as [|fuel IH]; intros n Hn Hlt Hf; [done|].
  assert (Hd : 0 <= n mod 10 < 10) by (apply Z.mod_pos_bound; lia).
  assert (digit : digit_value (of_byte (48 + n mod 10)) = Some (n mod 10)).
  { unfold digit_value. rewrite byte_of_of by lia.
    assert (E : in_range 48 57 (48 + n mod 10) = true) by (apply in_range_spec; lia).
    rewrite E. f_equal. lia. }
  cbn [dec_digits]. destruct (n / 10 =? 0) eqn:E.
  - apply Z.eqb_eq in E. cbn [dec_value]. rewrite digit. f_equal. Z.div_mod_to_equations; lia.
  - apply Z.eqb_neq in E. assert (n / 10 < 2 ^ Z.of_nat fuel).
    { rewrite Nat2Z.inj_succ, Z.pow_succ_r in Hlt by lia. Z.div_mod_to_equations; lia. }
    assert (0 <= n / 10) by (Z.div_mod_to_equations; lia).
    rewrite dec_value_digits, IH by first [done | intros ->; simpl in *; lia].
    cbn [dec_value]. rewrite digit. f_equal. Z.div_mod_to_equations; lia.
Qed.

Lemma dec_digits_nonempty fuel n acc : (fuel <> 0)%nat -> dec_digits fuel n acc <> "".
Proof.
  revert n acc. induction fuel as [|fuel IH]; intros n acc Hf; [done|]. cbn [dec_digits].
  destruct (n / 10 =? 0); [done|]. destruct fuel as [|fuel]; [done|]. by apply IH.
Qed.

Lemma log2_fuel n : 0 <= n -> n < 2 ^ Z.of_nat (S (Z.to_nat (Z.log2 n))).
Proof.
  intros Hn. rewrite Nat2Z.inj_succ, Z2Nat.id by apply Z.log2_nonneg.
  destruct (decide (n = 0)) as [->|]; [done|]. apply Z.log2_spec. lia.
Qed.

Lemma parse_uint_utoa n : 0 <= n -> parse_uint (utoa n) = Some n.
Proof.
  intros Hn. unfold parse_uint, utoa. rewrite bool_decide_eq_false_2.
  - by rewrite dec_value_dec by (by try apply log2_fuel).
  - by apply dec_digits_nonempty.
Qed.

(** The digits of a number are digits. *)
Fixpoint all_digits (s : string) : bool :=
  match s with "" => true | String c r => in_range 48 57 (byte_of c) && all_digits r end.

Lemma dec_value_all_digits s v w : dec_value v s = Some w -> all_digits s = true.
Proof.
  revert v. induction s as [|c s IH]; intros v; simpl; [done|].
  unfold digit_value. destruct (in_range 48 57 (byte_of c)); [|done]. apply IH.
Qed.

Lemma utoa_digits n : 0 <= n -> all_digits (utoa n) = true.
Proof.
  intros Hn. eapply (dec_value_all_digits _ 0 n). apply dec_value_dec; [done| |done].
  by apply log2_fuel.
Qed.

Lemma parse_int_itoa n : parse_int (itoa n) = Some n.
Proof.
  unfold itoa. destruct (n <? 0) eqn:E.
  - apply Z.ltb_lt in E. rewrite str_app_cons, str_app_nil_l. simpl parse_int.
    rewrite parse_uint_utoa by lia. simpl. f_equal. lia.
  - apply Z.ltb_ge in E. pose proof (utoa_digits n E) as Hd.
    pose proof (parse_uint_utoa n E) as Hp. destruct (utoa n) as [|c r]; [done|].
    simpl in Hd. apply andb_true_iff in Hd as [Hc _]. apply in_range_spec in Hc.
    unfold parse_int. assert (H45 : (byte_of c =? 45) = false) by (apply Z.eqb_neq; lia).
    by rewrite H45.
Qed.

(** ** Trimming *)

Lemma drop_str_app p u : drop_str (String.length p) (p +:+ u) = u.
Proof. induction p as [|c p IH]; [by destruct u|done]. Qed.

Lemma trim_prefix_app p u : trim_prefix (p +:+ u) p = u.
Proof. unfold trim_prefix, has_prefix. by rewrite prefix_refl_app, drop_str_app. Qed.

(** ** Valid UTF-8 *)

(** A valid string is read to its end whatever follows it. *)
Lemma chunks_app a b : valid_utf8 a = true -> chunks (a +:+ b) = chunks a ++ chunks b.
Proof.
  unfold valid_utf8. induction a as [|r w t Hs Hch IH] using chunks_induction; [done|].
  rewrite Hch. cbn [forallb]. intros [Hi Hv]%andb_true_iff. rewrite <- str_app_assoc.
  simpl. rewrite <- IH by done. destruct Hs as [c Hc|r w Hr He Hh Hall Hl|c Hc].
  - rewrite str_app_cons, str_app_nil_l. cbn [chunks]. apply Z.ltb_lt in Hc. by rewrite Hc.
  - apply Hall.
  - done.
Qed.

Lemma valid_utf8_app a b :
  valid_utf8 a = true -> valid_utf8 (a +:+ b) = valid_utf8 b.
Proof.
  intros Ha. unfold valid_utf8 in *. rewrite chunks_app by done. rewrite forallb_app. by rewrite Ha.
Qed.

Lemma valid_utf8_app_2 a b :
  valid_utf8 a = true -> valid_utf8 b = true -> valid_utf8 (a +:+ b) = true.
Proof. intros Ha Hb. by rewrite valid_utf8_app. Qed.

Lemma no_ascii_prefix b t a c d :
  str_exists (fun c => byte_of c <? 128) b = false -> byte_of c < 128 ->
  b +:+ t = a +:+ String c d -> exists a', a = b +:+ a' /\ t = a' +:+ String c d.
Proof.
  intros Hb Hc. revert a Hb. induction b as [|x b IH]; intros a Hb E; [by exists a|].
  simpl in Hb. apply orb_false_iff in Hb as [Hx Hb]. destruct a as [|y a].
  - injection E as -> _. lia.
  - injection E as -> E. destruct (IH a Hb E) as (a' & -> & ->). by exists a'.
Qed.

(** Cutting a valid string at an ASCII byte. *)
Lemma valid_utf8_cut a c b :
  (byte_of c <? 128) = true -> valid_utf8 (a +:+ String c b) = true ->
  valid_utf8 a = true /\ valid_utf8 b = true.
Proof.
  intros Hc%Z.ltb_lt. remember (a +:+ String c b) as s eqn:Es. revert a Es.
  induction s as [|r w t Hs Hch IH] using chunks_induction; intros a Es; [by destruct a|].
  unfold valid_utf8. rewrite Hch. cbn [forallb]. intros [Hi Hv]%andb_true_iff.
  destruct Hs as [x Hx|r w Hr He Hh Hall Hl|x Hx].
  - destruct a as [|y a]; injection Es as -> Et.
    + split; [done|]. by rewrite <- Et.
    + destruct (IH a Et Hv) as [Ha Hb]. split; [|done].
      cbn [chunks]. apply Z.ltb_lt in Hx. rewrite Hx. cbn [forallb]. by rewrite Hi.
  - destruct (no_ascii_prefix _ _ _ _ _ Hh Hc Es) as (a' & -> & Et).
    destruct (IH a' Et Hv) as [Ha Hb]. split; [|done]. rewrite Hall. cbn [forallb]. by rewrite Hi.
  - done.
Qed.

Lemma valid_utf8_ascii s : str_exists (fun c => negb (byte_of c <? 128)) s = false -> valid_utf8 s = true.
Proof.
  unfold valid_utf8. induction s as [|c s IH]; [done|]. simpl. rewrite orb_false_iff, negb_false_iff.
  intros [Hc Hs]. rewrite Hc. cbn [forallb]. rewrite IH by done. unfold invalid_chunk, rune_error. cbn.
  apply Z.ltb_lt in Hc. rewrite (proj2 (Z.eqb_neq _ _)) by lia. done.
Qed.

(** What [utf8.AppendRune] writes is valid. *)
Lemma encode_rune_valid r : valid_utf8 (encode_rune r) = true.
Proof.
  unfold encode_rune.
  set (r' := if in_range 0 55295 r || in_range 57344 1114111 r then r else rune_error).
  assert (Hr : 0 <= r' <= 55295 \/ 57344 <= r' <= 1114111).
  { subst r'. destruct (in_range 0 55295 r) eqn:E1; [apply in_range_spec in E1; simpl; lia|].
    destruct (in_range 57344 1114111 r) eqn:E2; [apply in_range_spec in E2; simpl; lia|].
    unfold rune_error. simpl. lia. }
  clearbody r'. clear r. unfold valid_utf8.
  destruct (r' <? 128) eqn:H1; bools.
  { cbn [chunks]. rewrite byte_of_of by lia. assert (E : (r' <? 128) = true) by lia. rewrite E.
    unfold invalid_chunk, rune_error. simpl. assert (E2 : (r' =? 65533) = false) by lia. by rewrite E2. }
  assert (Hcont : forall b, 128 <= b <= 191 -> is_cont (of_byte b) = true).
  { intros b Hb. unfold is_cont. rewrite byte_of_of by lia. by apply in_range_spec. }
  destruct (r' <? 2048) eqn:H2; bools.
  { set (a := 192 + r' / 64). set (b := 128 + r' mod 64).
    assert (Ha : 194 <= a <= 223) by (subst a; Z.div_mod_to_equations; lia).
    assert (Hb : 128 <= b <= 191) by (subst b; Z.div_mod_to_equations; lia).
    assert (V : valid2 (of_byte a) (of_byte b) = true).
    { unfold valid2. rewrite Hcont by done. rewrite byte_of_of by lia. rewrite andb_true_r.
      by apply in_range_spec. }
    cbn [chunks]. rewrite V, byte_of_of by lia. assert (E : (a <? 128) = false) by lia. rewrite E.
    cbn [forallb chunks]. unfold invalid_chunk. simpl. by rewrite andb_false_r. }
  destruct (r' <? 65536) eqn:H3; bools.
  { set (a := 224 + r' / 4096). set (b := 128 + r' / 64 mod 64). set (c := 128 + r' mod 64).
    assert (Hb : 128 <= b <= 191) by (subst b; Z.div_mod_to_equations; lia).
    assert (Hc : 128 <= c <= 191) by (subst c; Z.div_mod_to_equations; lia).
    assert (Ha : 224 <= a <= 239) by (subst a; Z.div_mod_to_equations; lia).
    assert (V : valid3 (of_byte a) (of_byte b) (of_byte c) = true).
    { unfold valid3. rewrite !Hcont, !byte_of_of by lia. subst a b. clear c Hc Ha Hb.
      unfold in_range. Z.div_mod_to_equations; lia. }
    assert (N2 : valid2 (of_byte a) (of_byte b) = false) by by eapply valid3_not_valid2.
    cbn [chunks]. rewrite N2, V, byte_of_of by lia. assert (E : (a <? 128) = false) by lia. rewrite E.
    cbn [forallb chunks]. unfold invalid_chunk. simpl. by rewrite andb_false_r. }
  set (a := 240 + r' / 262144). set (b := 128 + r' / 4096 mod 64).
  set (c := 128 + r' / 64 mod 64). set (d := 128 + r' mod 64).
  assert (Hb : 128 <= b <= 191) by (subst b; Z.div_mod_to_equations; lia).
  assert (Hc : 128 <= c <= 191) by (subst c; Z.div_mod_to_equations; lia).
  assert (Hd : 128 <= d <= 191) by (subst d; Z.div_mod_to_equations; lia).
  assert (Ha : 240 <= a <= 244) by (subst a; Z.div_mod_to_equations; lia).
  assert (V : valid4 (of_byte a) (of_byte b) (of_byte c) (of_byte d) = true).
  { unfold valid4. rewrite !Hcont, !byte_of_of by lia. subst a b. clear c d Hc Hd Ha Hb.
    unfold in_range. Z.div_mod_to_equations; lia. }
  destruct (valid4_not_valid23 _ _ _ _ V) as [N2 N3].
  cbn [chunks]. rewrite N2, N3, V, byte_of_of by lia. assert (E : (a <? 128) = false) by lia. rewrite E.
  cbn [forallb chunks]. unfold invalid_chunk. simpl. by rewrite andb_false_r.
Qed.

(** ** Byte order *)

Lemma compare_refl s : String.compare s s = Eq.
Proof.
  induction s as [|c s IH]; [done|]. cbn [String.compare].
  unfold Ascii.compare. by rewrite N.compare_refl.
Qed.

Lemma compare_sym s s' : String.compare s s' = CompOpp (String.compare s' s).
Proof.
  revert s'. induction s as [|c s IH]; intros [|c' s']; [done..|]. cbn [String.compare].
  unfold Ascii.compare. rewrite N.compare_antisym.
  destruct (N.compare (N_of_ascii c') (N_of_ascii c)); simpl; auto.
Qed.

Lemma compare_eq s s' : String.compare s s' = Eq -> s = s'.
Proof. apply String.compare_eq_iff. Qed.

Lemma compare_trans s t u :
  String.compare s t = Lt -> String.compare t u = Lt -> String.compare s u = Lt.
Proof.
  revert t u. induction s as [|a s IH]; intros [|b t] [|c u]; simpl; try done.
  unfold Ascii.compare.
  destruct (N.compare_spec (N_of_ascii a) (N_of_ascii b)) as [E1|E1|E1];
  destruct (N.compare_spec (N_of_ascii b) (N_of_ascii c)) as [E2|E2|E2];
  destruct (N.compare_spec (N_of_ascii a) (N_of_ascii c)) as [E3|E3|E3];
  try done; try lia. apply IH.
Qed.
