(* ===== verification/Apperr.v ===== *)
(** * platform/apperr: the product's error type

    Error codes with their fixed public texts, the error value with its
    diagnostic part, and the functions every caller reads an error through
    ([Is], [CodeOf], [PublicOf]).

    The rest of the development represents a Go [error] by the code of its
    first [*Error] (what [CodeOf] gives); the theorems here are what makes that
    representation enough: nothing outside the process depends on the
    diagnostic part. *)
From S2P Require Import Prelude GoStr.
Open Scope Z_scope.
Set Warnings "-register-all".


(** ** Codes *)

(** A struct with an unexported field: the zero value is the code without a
    name. *)
Record Code := mkCode { code_name : string }.

#[export] Instance Code_eq_dec : EqDecision Code.
Proof. solve_decision. Defined.

Definition zero_code : Code := mkCode "".

Definition CodeInvalidRequest : Code := mkCode "invalid_request".
Definition CodeUnauthenticated : Code := mkCode "unauthenticated".
Definition CodeForbidden : Code := mkCode "forbidden".
Definition CodeNotFound : Code := mkCode "not_found".
Definition CodeConflict : Code := mkCode "conflict".
Definition CodeInternal : Code := mkCode "internal".
Definition CodeNotImplemented : Code := mkCode "not_implemented".
Definition CodeInvalidConfiguration : Code := mkCode "invalid_configuration".
Definition CodeAgentIdentityUnverifiable : Code := mkCode "agent_identity_unverifiable".
Definition CodeSessionExpired : Code := mkCode "session_expired".
Definition CodeCapabilityNotOffered : Code := mkCode "capability_not_offered".
Definition CodeApprovalTimeout : Code := mkCode "approval_timeout".
Definition CodeCredentialNotAuthorized : Code := mkCode "credential_not_authorized".
Definition CodeProviderUnavailable : Code := mkCode "provider_unavailable".
Definition CodeProviderNotSupportedOnPlatform : Code :=
  mkCode "provider_not_supported_on_platform".
Definition CodeProviderLockedTimeout : Code := mkCode "provider_locked_timeout".
Definition CodeVaultLocked : Code := mkCode "vault_locked".
Definition CodePathNotAllowed : Code := mkCode "path_not_allowed".
Definition CodeAdapterTimeout : Code := mkCode "adapter_timeout".
Definition CodeGatewayUnavailable : Code := mkCode "gateway_unavailable".

(** The table [register] fills at start-up, in registration order. *)
Definition messages : list (Code * string) :=
  [ (CodeInvalidRequest, "The request is not valid.");
    (CodeUnauthenticated, "Missing or invalid credentials.");
    (CodeForbidden, "This identity may not perform the operation.");
    (CodeNotFound, "The requested resource does not exist.");
    (CodeConflict, "The resource changed state; this operation was not applied.");
    (CodeInternal, "Gateway internal error. Look up the operation_id in the ledger.");
    (CodeNotImplemented, "That capability is not implemented.");
    (CodeInvalidConfiguration, "The configuration is not valid.");
    (CodeAgentIdentityUnverifiable,
      "The caller's identity could not be established; the request was denied.");
    (CodeSessionExpired, "The session has expired; authenticate again.");
    (CodeCapabilityNotOffered, "The gateway does not offer that capability.");
    (CodeApprovalTimeout, "Timed out waiting for human confirmation; the request was denied.");
    (CodeCredentialNotAuthorized, "That credential is not authorized for this request.");
    (CodeProviderUnavailable, "The credential source is unavailable; the request was denied.");
    (CodeProviderNotSupportedOnPlatform,
      "That credential source is unavailable on this platform.");
    (CodeProviderLockedTimeout,
      "Timed out waiting for the credential source to unlock; the request was denied.");
    (CodeVaultLocked, "The local vault is locked.");
    (CodePathNotAllowed, "The request path is outside what that service allows.");
    (CodeAdapterTimeout, "The external service timed out.");
    (CodeGatewayUnavailable,
      "The gateway is unavailable; the request never reached the external service.") ].

Fixpoint assoc {B} (k : Code) (l : list (Code * B)) : option B :=
  match l with
  | [] => None
  | (k', v) :: rest => if k ==? k' then Some v else assoc k rest
  end.

(** [messages[code]]: the zero string for a code that is not registered. *)
Definition message_of (c : Code) : string := default "" (assoc c messages).

Definition Valid (c : Code) : bool := bool_decide (is_Some (assoc c messages)).

(** [All]: every registered code by name. *)
Definition All : list Code :=
  map mkCode (sort_strings (map (fun m => code_name m.1) messages)).

(** ** Errors

    An error is this product's [*Error] or one of somebody else's: a foreign
    error has a text and the errors it wraps (none, one, or several for
    [errors.Join]). *)
Inductive error :=
| AppError (code : Code) (operationID detail : string) (cause : option error)
| Foreign (text : string) (wrapped : list error).

Record Public := {
  pub_code : Code;
  pub_message : string;
  pub_operation_id : string;
}.

Definition New (code : Code) : error :=
  AppError (if Valid code then code else CodeInternal) "" "" None.

Definition Wrap (code : Code) (cause : option error) : error :=
  match New code with
  | AppError c o d _ => AppError c o d cause
  | e => e
  end.

Definition WithOperationID (e : error) (operationID : string) : error :=
  match e with
  | AppError c _ d cause => AppError c operationID d cause
  | _ => e
  end.

Definition WithDetail (e : error) (detail : string) : error :=
  match e with
  | AppError c o _ cause => AppError c o detail cause
  | _ => e
  end.

(** The depth-first walk of [errors.As] for a [*Error] target. *)
Fixpoint as_app (e : error) : option (Code * string) :=
  match e with
  | AppError c o _ _ => Some (c, o)
  | Foreign _ wrapped =>
      (fix first (l : list error) :=
         match l with
         | [] => None
         | e :: rest => match as_app e with Some r => Some r | None => first rest end
         end) wrapped
  end.

(** The depth-first walk of [errors.Is] for a target [New(code)]: each [*Error]
    on the way compares codes. *)
Fixpoint has_code (code : Code) (e : error) : bool :=
  match e with
  | AppError c _ _ cause =>
      (c ==? code) || match cause with Some e => has_code code e | None => false end
  | Foreign _ wrapped =>
      (fix any (l : list error) :=
         match l with [] => false | e :: rest => has_code code e || any rest end) wrapped
  end.

(** [apperr.Is]: the target is what [New] makes of the code. *)
Definition Is (err : option error) (code : Code) : bool :=
  match err with
  | None => false
  | Some e => has_code (if Valid code then code else CodeInternal) e
  end.

Definition CodeOf (err : option error) : Code :=
  match err with
  | None => zero_code
  | Some e => match as_app e with Some (c, _) => c | None => CodeInternal end
  end.

Definition PublicOf (err : option error) (fallbackOperationID : string) : Public :=
  match err with
  | Some e =>
      match as_app e with
      | Some (c, o) =>
          {| pub_code := c; pub_message := message_of c;
             pub_operation_id := if o ==? "" then fallbackOperationID else o |}
      | None =>
          {| pub_code := CodeInternal; pub_message := message_of CodeInternal;
             pub_operation_id := fallbackOperationID |}
      end
  | None =>
      {| pub_code := CodeInternal; pub_message := message_of CodeInternal;
         pub_operation_id := fallbackOperationID |}
  end.

(** [Error.Error]: the diagnostic text, with the whole cause chain. *)
Fixpoint error_text (e : error) : string :=
  match e with
  | Foreign text _ => text
  | AppError c o d cause =>
      code_name c +:+ ": " +:+ message_of c +:+
      (if o ==? "" then "" else " (operation_id=" +:+ o +:+ ")") +:+
      (if d ==? "" then "" else ": " +:+ d) +:+
      match cause with Some e => ": " +:+ error_text e | None => "" end
  end.

(** ** What callers rely on *)

(** An error the constructors built carries a registered code. *)
Fixpoint well_coded (e : error) : bool :=
  match e with
  | AppError c _ _ cause =>
      Valid c && match cause with Some e => well_coded e | None => true end
  | Foreign _ wrapped =>
      (fix all (l : list error) :=
         match l with [] => true | e :: rest => well_coded e && all rest end) wrapped
  end.

Lemma Valid_assoc c : Valid c = true <-> is_Some (assoc c messages).
Proof. unfold Valid. by rewrite bool_decide_eq_true. Qed.

Lemma zero_code_invalid : Valid zero_code = false.
Proof. reflexivity. Qed.

Section error_ind.
Variable P : error -> Prop.
Hypothesis Happ : forall c o d, P (AppError c o d None).
Hypothesis Hcause : forall c o d e, P e -> P (AppError c o d (Some e)).
Hypothesis Hforeign : forall t l, Forall P l -> P (Foreign t l).

Fixpoint error_induction (e : error) : P e :=
  match e with
  | AppError c o d None => Happ c o d
  | AppError c o d (Some e) => Hcause c o d e (error_induction e)
  | Foreign t l =>
      Hforeign t l
        ((fix go (l : list error) : Forall P l :=
            match l with
            | [] => Forall_nil_2 P
            | e :: rest => Forall_cons_2 P e rest (error_induction e) (go rest)
            end) l)
  end.
End error_ind.

(** The code [CodeOf] reports is on the chain [Is] searches. *)
Lemma as_app_has_code e c o : as_app e = Some (c, o) -> has_code c e = true.
Proof.
  revert c o. induction e as [c' o' d|c' o' d e IH|t l IH] using error_induction;
    simpl; intros c o Has; simplify_eq; [by rewrite bool_decide_eq_true_2..|].
  induction IH as [|e l He _ IHl]; [done|].
  destruct (as_app e) as [[c1 o1]|] eqn:E; simplify_eq; apply orb_true_iff.
  - left. by eapply He.
  - right. by apply IHl.
Qed.

Lemma as_app_valid e c o : well_coded e = true -> as_app e = Some (c, o) -> Valid c = true.
Proof.
  revert c o. induction e as [c' o' d|c' o' d e IH|t l IH] using error_induction;
    simpl; intros c o Hw Has; simplify_eq; [by bools..|].
  induction IH as [|e l He _ IHl]; [done|]. bools.
  destruct (as_app e) as [[c1 o1]|] eqn:E; simplify_eq; eauto.
Qed.

Lemma assoc_elem {B} c (l : list (Code * B)) v : assoc c l = Some v -> (c, v) ∈ l.
Proof.
  induction l as [|[k w] l IH]; simpl; [done|].
  case_bool_decide; intros Ha; simplify_eq; [left|by right; apply IH].
Qed.

(** Every public text is one of the table's constants. *)
Lemma message_of_table c : Valid c = true -> message_of c ∈ map snd messages.
Proof.
  intros [v Hv]%Valid_assoc. unfold message_of. rewrite Hv. simpl.
  apply (list_elem_of_fmap_2 snd messages (c, v)), assoc_elem, Hv.
Qed.

(** The outward form of an error depends on its code and operation id only:
    replacing the detail, the cause chain or a foreign text changes nothing. *)
Lemma PublicOf_detail_blind c o d1 d2 k1 k2 op :
  PublicOf (Some (AppError c o d1 k1)) op = PublicOf (Some (AppError c o d2 k2)) op.
Proof. reflexivity. Qed.
