(* ===== verification/Json.v ===== *)
(** * encoding/json

    The text level of Go's [encoding/json] as far as the gateway uses it:
    [Valid] and the scanner behind [Unmarshal], string literals with their
    escapes in both directions, and the printer of [Marshal].

    A parsed text keeps its literals as they were written ([JStr] and the keys
    of [JObj] hold the raw text between the quotes, [JNum] the digits), because
    Go decodes a literal only when it knows the target type. [unquote] is the
    decoding of a string literal and [quote] is the encoding. *)
From S2P Require Import Prelude GoStr.
Open Scope Z_scope.
Set Warnings "-register-all".

Inductive json :=
| JNull
| JBool (b : bool)
| JNum (lit : string)
| JStr (raw : string)
| JArr (items : list json)
| JObj (fields : list (string * json)).

(** ** Characters *)

Definition c_quote : ascii := of_byte 34.
Definition c_back : ascii := of_byte 92.
Definition s_quote : string := String c_quote "".
Definition s_back : string := String c_back "".

Definition is_ws (c : ascii) : bool :=
  let b := byte_of c in (b =? 32) || (b =? 9) || (b =? 10) || (b =? 13).

Fixpoint skip_ws (s : string) : string :=
  match s with String c r => if is_ws c then skip_ws r else s | "" => "" end.

Definition is_digit (c : ascii) : bool := in_range 48 57 (byte_of c).

Definition hex_value (b : Z) : option Z :=
  if in_range 48 57 b then Some (b - 48)
  else if in_range 97 102 b then Some (b - 87)
  else if in_range 65 70 b then Some (b - 55)
  else None.

Definition is_hex (c : ascii) : bool := bool_decide (is_Some (hex_value (byte_of c))).

Definition hex_digit (n : Z) : ascii := of_byte (if n <? 10 then 48 + n else 87 + n).

(** ** String literals *)

(** Characters an escape may name: quote, backslash, slash, b, f, n, r, t. *)
Definition simple_escape (c : ascii) : bool :=
  let b := byte_of c in
  (b =? 34) || (b =? 92) || (b =? 47) || (b =? 98) || (b =? 102) || (b =? 110) ||
  (b =? 114) || (b =? 116).

Definition lcons (c : ascii) (r : option (string * string)) : option (string * string) :=
  match r with Some (w, rest) => Some (String c w, rest) | None => None end.

(** The scanner inside a string: the raw text up to the closing quote. *)
Fixpoint lex_str (s : string) : option (string * string) :=
  match s with
  | "" => None
  | String c r =>
      if byte_of c =? 34 then Some ("", r)
      else if byte_of c =? 92 then
        match r with
        | "" => None
        | String e r1 =>
            if simple_escape e then lcons c (lcons e (lex_str r1))
            else if byte_of e =? 117 then
              match r1 with
              | String h1 (String h2 (String h3 (String h4 r2))) =>
                  if is_hex h1 && is_hex h2 && is_hex h3 && is_hex h4
                  then lcons c (lcons e (lcons h1 (lcons h2 (lcons h3 (lcons h4 (lex_str r2))))))
                  else None
              | _ => None
              end
            else None
        end
      else if byte_of c <? 32 then None
      else lcons c (lex_str r)
  end.

Definition hex4 (a b c d : Z) : option Z :=
  match hex_value a, hex_value b, hex_value c, hex_value d with
  | Some a, Some b, Some c, Some d => Some (a * 4096 + b * 256 + c * 16 + d)
  | _, _, _, _ => None
  end.

Definition escape_byte (b : Z) : option string :=
  if b =? 34 then Some s_quote
  else if b =? 92 then Some s_back
  else if b =? 47 then Some "/"
  else if b =? 98 then Some (String (of_byte 8) "")
  else if b =? 102 then Some (String (of_byte 12) "")
  else if b =? 110 then Some (String (of_byte 10) "")
  else if b =? 114 then Some (String (of_byte 13) "")
  else if b =? 116 then Some (String (of_byte 9) "")
  else None.

Definition oapp (w : string) (o : option string) : option string :=
  match o with Some s => Some (w +:+ s) | None => None end.

Definition is_high_surrogate (u : Z) : bool := in_range 55296 56319 u.
Definition is_low_surrogate (u : Z) : bool := in_range 56320 57343 u.
Definition combine_surrogates (h l : Z) : Z := (h - 55296) * 1024 + (l - 56320) + 65536.

(** [unquoteBytes]: invalid UTF-8 and lone surrogates become U+FFFD; a high
    surrogate escape followed by a low one is one rune. *)
Fixpoint unquote_chunks (l : list (Z * string)) : option string :=
  match l with
  | [] => Some ""
  | (r, b) :: rest =>
      if r =? 92 then
        match rest with
        | [] => None
        | (e, _) :: rest1 =>
            if e =? 117 then
              match rest1 with
              | (h1, _) :: (h2, _) :: (h3, _) :: (h4, _) :: rest2 =>
                  match hex4 h1 h2 h3 h4 with
                  | None => None
                  | Some u =>
                      if is_high_surrogate u then
                        match rest2 with
                        | (b1, _) :: (u1, _) :: (k1, _) :: (k2, _) :: (k3, _) :: (k4, _) :: rest3 =>
                            match (if (b1 =? 92) && (u1 =? 117) then hex4 k1 k2 k3 k4 else None) with
                            | Some v =>
                                if is_low_surrogate v
                                then oapp (encode_rune (combine_surrogates u v)) (unquote_chunks rest3)
                                else oapp (encode_rune rune_error) (unquote_chunks rest2)
                            | None => oapp (encode_rune rune_error) (unquote_chunks rest2)
                            end
                        | _ => oapp (encode_rune rune_error) (unquote_chunks rest2)
                        end
                      else oapp (encode_rune u) (unquote_chunks rest2)
                  end
              | _ => None
              end
            else
              match escape_byte e with
              | Some w => oapp w (unquote_chunks rest1)
              | None => None
              end
        end
      else oapp (encode_rune r) (unquote_chunks rest)
  end.

Definition unquote (raw : string) : option string := unquote_chunks (chunks raw).

(** [appendString] with HTML escaping, one rune at a time. *)
Definition quote_chunk (c : Z * string) : string :=
  let '(r, b) := c in
  if r <? 128 then
    if (r =? 34) || (r =? 92) then s_back +:+ b
    else if r =? 8 then s_back +:+ "b"
    else if r =? 12 then s_back +:+ "f"
    else if r =? 10 then s_back +:+ "n"
    else if r =? 13 then s_back +:+ "r"
    else if r =? 9 then s_back +:+ "t"
    else if (r <? 32) || (r =? 60) || (r =? 62) || (r =? 38) then
      s_back +:+ "u00" +:+ String (hex_digit (r / 16)) (String (hex_digit (r mod 16)) "")
    else b
  else if invalid_chunk c then s_back +:+ "ufffd"
  else if (r =? 8232) || (r =? 8233) then
    s_back +:+ "u202" +:+ String (hex_digit (r mod 16)) ""
  else b.

Definition quote_body (s : string) : string := concat_str (map quote_chunk (chunks s)).

(** [json.Marshal] of a string. *)
Definition quote (s : string) : string := s_quote +:+ quote_body s +:+ s_quote.

(** ** The scanner *)

Fixpoint lex_digits (s : string) : string * string :=
  match s with
  | String c r => if is_digit c then let '(w, rest) := lex_digits r in (String c w, rest) else ("", s)
  | "" => ("", "")
  end.

(** At least one digit. *)
Definition lex_digits1 (s : string) : option (string * string) :=
  match lex_digits s with ("", _) => None | r => Some r end.

Definition lex_int (s : string) : option (string * string) :=
  match s with
  | String c r => if byte_of c =? 48 then Some (String c "", r) else lex_digits1 s
  | "" => None
  end.

Definition lex_frac (s : string) : option (string * string) :=
  match s with
  | String c r =>
      if byte_of c =? 46
      then match lex_digits1 r with Some (w, rest) => Some (String c w, rest) | None => None end
      else Some ("", s)
  | "" => Some ("", "")
  end.

Definition lex_exp (s : string) : option (string * string) :=
  match s with
  | String c r =>
      if (byte_of c =? 101) || (byte_of c =? 69) then
        let '(sign, r1) :=
          match r with
          | String d r1 =>
              if (byte_of d =? 43) || (byte_of d =? 45) then (String d "", r1) else ("", r)
          | "" => ("", "")
          end in
        match lex_digits1 r1 with
        | Some (w, rest) => Some (String c (sign +:+ w), rest)
        | None => None
        end
      else Some ("", s)
  | "" => Some ("", "")
  end.

Definition lex_num (s : string) : option (string * string) :=
  let '(sign, s0) :=
    match s with
    | String c r => if byte_of c =? 45 then (String c "", r) else ("", s)
    | "" => ("", "")
    end in
  match lex_int s0 with
  | None => None
  | Some (i, s1) =>
      match lex_frac s1 with
      | None => None
      | Some (f, s2) =>
          match lex_exp s2 with
          | None => None
          | Some (e, s3) => Some (sign +:+ i +:+ f +:+ e, s3)
          end
      end
  end.

(** [maxNestingDepth]. *)
Definition max_nesting : Z := 10000.

Definition lex_word (w : string) (v : json) (s : string) : option (json * string) :=
  if has_prefix s w then Some (v, drop_str (String.length w) s) else None.

(** One value, and the elements of an array or the members of an object up to
    its closing bracket. Each call spends one unit of fuel; no two consecutive
    calls are at the same place twice, so twice the length of the text is
    enough. *)
Fixpoint parse_value (n : nat) (depth : Z) (s : string) {struct n} : option (json * string) :=
  match n with
  | O => None
  | S n =>
      match skip_ws s with
      | "" => None
      | String c r =>
          let b := byte_of c in
          if b =? 34 then
            match lex_str r with Some (w, rest) => Some (JStr w, rest) | None => None end
          else if b =? 91 then
            if max_nesting <=? depth then None
            else match skip_ws r with
                 | String d rest =>
                     if byte_of d =? 93 then Some (JArr [], rest)
                     else match parse_items n (depth + 1) r with
                          | Some (l, rest) => Some (JArr l, rest)
                          | None => None
                          end
                 | "" => None
                 end
          else if b =? 123 then
            if max_nesting <=? depth then None
            else match skip_ws r with
                 | String d rest =>
                     if byte_of d =? 125 then Some (JObj [], rest)
                     else match parse_fields n (depth + 1) r with
                          | Some (l, rest) => Some (JObj l, rest)
                          | None => None
                          end
                 | "" => None
                 end
          else if b =? 116 then lex_word "true" (JBool true) (String c r)
          else if b =? 102 then lex_word "false" (JBool false) (String c r)
          else if b =? 110 then lex_word "null" JNull (String c r)
          else match lex_num (String c r) with
               | Some (w, rest) => Some (JNum w, rest)
               | None => None
               end
      end
  end
with parse_items (n : nat) (depth : Z) (s : string) {struct n} : option (list json * string) :=
  match n with
  | O => None
  | S n =>
      match parse_value n depth s with
      | None => None
      | Some (v, rest) =>
          match skip_ws rest with
          | String c rest =>
              if byte_of c =? 93 then Some ([v], rest)
              else if byte_of c =? 44 then
                match parse_items n depth rest with
                | Some (l, rest) => Some (v :: l, rest)
                | None => None
                end
              else None
          | "" => None
          end
      end
  end
with parse_fields (n : nat) (depth : Z) (s : string) {struct n}
    : option (list (string * json) * string) :=
  match n with
  | O => None
  | S n =>
      match skip_ws s with
      | String q r =>
          if byte_of q =? 34 then
            match lex_str r with
            | None => None
            | Some (key, rest) =>
                match skip_ws rest with
                | String k rest =>
                    if byte_of k =? 58 then
                      match parse_value n depth rest with
                      | None => None
                      | Some (v, rest) =>
                          match skip_ws rest with
                          | String c rest =>
                              if byte_of c =? 125 then Some ([(key, v)], rest)
                              else if byte_of c =? 44 then
                                match parse_fields n depth rest with
                                | Some (l, rest) => Some ((key, v) :: l, rest)
                                | None => None
                                end
                              else None
                          | "" => None
                          end
                      end
                    else None
                | "" => None
                end
            end
          else None
      | "" => None
      end
  end.

Definition parse_fuel (s : string) : nat := 2 * String.length s + 2.

(** [checkValid] and the syntax tree behind it: one value and nothing else. *)
Definition parse (s : string) : option json :=
  match parse_value (parse_fuel s) 0 s with
  | Some (v, rest) => if skip_ws rest ==? "" then Some v else None
  | None => None
  end.

(** [json.Valid]. *)
Definition Valid (s : string) : bool := bool_decide (is_Some (parse s)).

(** ** Printing *)

Fixpoint print (v : json) : string :=
  match v with
  | JNull => "null"
  | JBool true => "true"
  | JBool false => "false"
  | JNum lit => lit
  | JStr raw => s_quote +:+ raw +:+ s_quote
  | JArr l => "[" +:+ join "," (map print l) +:+ "]"
  | JObj l =>
      "{" +:+ join "," (map (fun kv => s_quote +:+ kv.1 +:+ s_quote +:+ ":" +:+ print kv.2) l)
      +:+ "}"
  end.

(** ** String literals round-trip *)

Lemma lcons_Some c o w r :
  lcons c o = Some (w, r) -> exists w', w = String c w' /\ o = Some (w', r).
Proof. destruct o as [[w' r']|]; simpl; naive_solver. Qed.

(** What the scanner read does not depend on what follows. *)
Lemma lex_str_app s w r t : lex_str s = Some (w, r) -> lex_str (s +:+ t) = Some (w, r +:+ t).
Proof.
  remember (String.length s) as n eqn:Hn. revert s w r Hn.
  induction n as [n IH] using lt_wf_ind. intros [|c s] w r -> H; [done|].
  rewrite str_app_cons. cbn [lex_str] in H |- *.
  destruct (byte_of c =? 34); [by simplify_eq|].
  destruct (byte_of c =? 92).
  - destruct s as [|e s]; [done|]. rewrite str_app_cons.
    destruct (simple_escape e).
    { apply lcons_Some in H as (w1 & -> & H). apply lcons_Some in H as (w2 & -> & H).
      by rewrite (IH (String.length s)) with (w := w2) (r := r) by (simpl; try lia; done). }
    destruct (byte_of e =? 117); [|done].
    do 4 (destruct s as [|? s]; [done|]; rewrite str_app_cons).
    destruct (_ && _ && _ && _); [|done].
    do 6 (apply lcons_Some in H as (? & -> & H)).
    by erewrite (IH (String.length s)) by (simpl; try lia; done).
  - destruct (byte_of c <? 32); [done|]. apply lcons_Some in H as (w1 & -> & H).
    by rewrite (IH (String.length s)) with (w := w1) (r := r) by (simpl; try lia; done).
Qed.

Definition lapp (b : string) (o : option (string * string)) : option (string * string) :=
  match o with Some (w, r) => Some (b +:+ w, r) | None => None end.

(** A character that needs no escape is copied. *)
Lemma lex_str_high b t :
  str_exists (fun c => byte_of c <? 128) b = false -> lex_str (b +:+ t) = lapp b (lex_str t).
Proof.
  induction b as [|c b IH]; intros Hb.
  - rewrite str_app_nil_l. by destruct (lex_str t) as [[]|].
  - simpl in Hb. apply orb_false_iff in Hb as [Hc Hb]. apply Z.ltb_ge in Hc.
    rewrite str_app_cons. cbn [lex_str].
    assert (E1 : (byte_of c =? 34) = false) by lia.
    assert (E2 : (byte_of c =? 92) = false) by lia.
    assert (E3 : (byte_of c <? 32) = false) by lia.
    rewrite E1, E2, E3, (IH Hb). by destruct (lex_str t) as [[]|].
Qed.

(** The three facts about the encoding of one ASCII character, by evaluation
    at each of the 128: it scans, it splits into ASCII chunks and it decodes to
    the character. *)
Lemma ascii_cases (P : ascii -> Prop) :
  (forall n, (n < 128)%nat -> P (of_byte (Z.of_nat n))) ->
  forall c, byte_of c < 128 -> P c.
Proof.
  intros H c Hc. pose proof (byte_of_range c). rewrite <- (of_byte_of c).
  rewrite <- (Z2Nat.id (byte_of c)) by lia. apply H. lia.
Qed.

(** A literal the scanner accepts as a whole is skipped as a whole. *)
Definition raw_ok (w : string) : Prop := lex_str (w +:+ s_quote) = Some (w, "").

Lemma lex_raw w t : raw_ok w -> lex_str (w +:+ t) = lapp w (lex_str t).
Proof.
  unfold raw_ok. remember (String.length w) as n eqn:Hn. revert w Hn.
  induction n as [n IH] using lt_wf_ind. intros [|c s] -> H.
  { rewrite str_app_nil_l. by destruct (lex_str t) as [[]|]. }
  rewrite str_app_cons in H |- *. cbn [lex_str] in H |- *.
  destruct (byte_of c =? 34); [by simplify_eq|].
  assert (Hq : simple_escape c_quote = true) by reflexivity.
  destruct (byte_of c =? 92).
  - destruct s as [|e s]; rewrite ?str_app_cons in H |- *; rewrite ?str_app_nil_l in H |- *.
    { unfold s_quote in H. rewrite Hq in H. done. }
    destruct (simple_escape e).
    { apply lcons_Some in H as (w1 & ? & H). apply lcons_Some in H as (w2 & ? & H).
      simplify_eq. rewrite (IH (String.length w2)) by (simpl; try lia; done).
      by destruct (lex_str t) as [[]|]. }
    destruct (byte_of e =? 117); [|done].
    destruct s as [|h1 s]; [done|]. destruct s as [|h2 s]; [done|].
    destruct s as [|h3 s]; [done|]. destruct s as [|h4 s].
    { rewrite !str_app_cons, str_app_nil_l in H. unfold s_quote in H.
      assert (Hh : is_hex c_quote = false) by reflexivity.
      rewrite Hh, !andb_false_r in H. done. }
    rewrite !str_app_cons in H |- *.
    destruct (_ && _ && _ && _); [|done].
    do 6 (apply lcons_Some in H as (? & ? & H); simplify_eq).
    match goal with |- context [lex_str (?v +:+ t)] =>
      rewrite (IH (String.length v)) by (simpl; try lia; done) end.
    by destruct (lex_str t) as [[]|].
  - destruct (byte_of c <? 32); [done|]. apply lcons_Some in H as (w1 & ? & H).
    simplify_eq. rewrite (IH (String.length w1)) by (simpl; try lia; done).
    by destruct (lex_str t) as [[]|].
Qed.

Lemma lex_raw_quote w t : raw_ok w -> lex_str (w +:+ s_quote +:+ t) = Some (w, t).
Proof.
  intros H. rewrite (lex_raw w _ H).
  assert (Hq : lex_str (s_quote +:+ t) = Some ("", t)) by reflexivity.
  rewrite Hq. simpl. by rewrite str_app_nil_r.
Qed.

Lemma quote_ascii_raw c : byte_of c < 128 -> raw_ok (quote_chunk (byte_of c, String c "")).
Proof.
  revert c. apply ascii_cases. intros n Hn. unfold raw_ok.
  (do 128 (destruct n as [|n]; [vm_compute; reflexivity|])); lia.
Qed.

Lemma chunks_ascii a t :
  byte_of a < 128 -> chunks (String a t) = (byte_of a, String a "") :: chunks t.
Proof. intros Ha. cbn [chunks]. apply Z.ltb_lt in Ha. by rewrite Ha. Qed.

(** The three forms an encoded ASCII character takes: itself, a backslash and
    a letter, a [\u] escape with four digits. *)
Definition low_byte (c : ascii) : bool := byte_of c <? 128.

Definition quoted_form (c : ascii) (q : string) : bool :=
  match q with
  | String a "" => (a ==? c) && (byte_of a !=? 92)
  | String a (String e "") =>
      (byte_of a =? 92) && low_byte e && (byte_of e !=? 117) &&
      (escape_byte (byte_of e) ==? Some (String c ""))
  | String a (String e (String h1 (String h2 (String h3 (String h4 ""))))) =>
      (byte_of a =? 92) && (byte_of e =? 117) &&
      (low_byte h1 && low_byte h2 && low_byte h3 && low_byte h4) &&
      match hex4 (byte_of h1) (byte_of h2) (byte_of h3) (byte_of h4) with
      | Some u => negb (is_high_surrogate u) && (encode_rune u ==? String c "")
      | None => false
      end
  | _ => false
  end.

Lemma quote_ascii_forms c :
  byte_of c < 128 -> quoted_form c (quote_chunk (byte_of c, String c "")) = true.
Proof.
  revert c. apply ascii_cases. intros n Hn.
  do 128 (destruct n as [|n]; [vm_compute; reflexivity|]); lia.
Qed.

Lemma quoted_form_unquote c q t :
  quoted_form c q = true ->
  byte_of c < 128 ->
  unquote_chunks (chunks (q +:+ t)) = oapp (String c "") (unquote_chunks (chunks t)).
Proof.
  unfold quoted_form, low_byte. intros Hq Hc. pose proof (byte_of_range c).
  repeat case_match; simplify_eq; bools; simplify_eq;
    rewrite ?str_app_cons, str_app_nil_l, !chunks_ascii by lia; cbn [unquote_chunks].
  - assert (E : (byte_of c =? 92) = false) by lia.
    by rewrite E, encode_rune_ascii, of_byte_of by lia.
  - assert (E : (byte_of a0 =? 117) = false) by lia.
    match goal with Ha : byte_of _ = 92 |- _ => rewrite Ha end.
    rewrite E. change (92 =? 92) with true. cbn iota.
    match goal with He : escape_byte _ = _ |- _ => by rewrite He end.
  - repeat match goal with Ha : byte_of _ = _ |- _ => rewrite Ha; clear Ha end.
    change (92 =? 92) with true. change (117 =? 117) with true. cbn iota.
    match goal with Hh : hex4 _ _ _ _ = _ |- _ => rewrite Hh end.
    match goal with Hs : is_high_surrogate _ = _ |- _ => rewrite Hs end.
    by match goal with Hw : encode_rune _ = _ |- _ => rewrite Hw end.
Qed.

Lemma unquote_quote_ascii t c :
  byte_of c < 128 ->
  unquote_chunks (chunks (quote_chunk (byte_of c, String c "") +:+ t)) =
    oapp (String c "") (unquote_chunks (chunks t)).
Proof. intros Hc. apply quoted_form_unquote; [by apply quote_ascii_forms|done]. Qed.

Definition is_separator (r : Z) : bool := (r =? 8232) || (r =? 8233).

Lemma quote_multi r b :
  128 <= r -> (1 < String.length b)%nat -> is_separator r = false ->
  quote_chunk (r, b) = b.
Proof.
  intros Hr Hb Hs. unfold quote_chunk, invalid_chunk. cbn [fst snd].
  assert (E : (r <? 128) = false) by lia.
  assert (E1 : (String.length b =? 1)%nat = false) by (apply Nat.eqb_neq; lia).
  unfold is_separator in Hs. by rewrite E, E1, andb_false_r, Hs.
Qed.

Lemma quote_separator r b :
  (1 < String.length b)%nat -> is_separator r = true ->
  exists d, quote_chunk (r, b) = s_back +:+ "u202" +:+ String d "" /\
    (d = "8"%char /\ r = 8232 \/ d = "9"%char /\ r = 8233).
Proof.
  intros Hb Hs. unfold quote_chunk, invalid_chunk. cbn [fst snd].
  unfold is_separator in Hs.
  assert (E1 : (String.length b =? 1)%nat = false) by (apply Nat.eqb_neq; lia).
  apply orb_true_iff in Hs as [->%Z.eqb_eq| ->%Z.eqb_eq]; rewrite E1;
    eexists; (split; [reflexivity|]); [left|right]; done.
Qed.

Lemma oapp_app a b o : oapp (a +:+ b) o = oapp a (oapp b o).
Proof. destruct o; simpl; [by rewrite str_app_assoc|done]. Qed.

(** Every chunk of a string is encoded as a literal the scanner skips and the
    decoder gives back. *)
Lemma quote_chunk_raw r b : chunk_shape r b -> raw_ok (quote_chunk (r, b)).
Proof.
  intros Hs. destruct Hs as [c Hc|r b Hr He Hh Hch Hl|c Hc].
  - by apply quote_ascii_raw.
  - destruct (is_separator r) eqn:E.
    + destruct (quote_separator r b Hl E) as (d & -> & [[-> _]|[-> _]]); reflexivity.
    + rewrite quote_multi by done. unfold raw_ok. rewrite (lex_str_high b _ Hh).
      simpl. by rewrite str_app_nil_r.
  - reflexivity.
Qed.

Lemma raw_ok_app v w : raw_ok v -> raw_ok w -> raw_ok (v +:+ w).
Proof.
  intros Hv Hw. unfold raw_ok. rewrite <- str_app_assoc, (lex_raw v _ Hv), Hw. done.
Qed.

Lemma quote_body_raw s : raw_ok (quote_body s).
Proof.
  induction s as [|r b t Hs Hch IH] using chunks_induction; [done|].
  unfold quote_body. rewrite Hch. simpl. apply raw_ok_app; [by apply quote_chunk_raw|done].
Qed.

Lemma chunk_unquote r b t :
  chunk_shape r b -> invalid_chunk (r, b) = false ->
  unquote_chunks (chunks (quote_chunk (r, b) +:+ t)) = oapp b (unquote_chunks (chunks t)).
Proof.
  intros Hs Hi. destruct Hs as [c Hc|r b Hr He Hh Hch Hl|c Hc].
  - by apply unquote_quote_ascii.
  - destruct (is_separator r) eqn:E.
    + destruct (quote_separator r b Hl E) as (d & -> & Hd).
      destruct Hd as [[-> ->]|[-> ->]]; rewrite <- He; vm_compute (encode_rune _);
        unfold s_back; rewrite <- !str_app_assoc, !str_app_cons, !str_app_nil_l,
          !chunks_ascii by done; reflexivity.
    + rewrite quote_multi, Hch by done. cbn [unquote_chunks].
      assert (E2 : (r =? 92) = false) by lia. by rewrite E2, He.
  - done.
Qed.

(** Decoding an encoded string gives the string back when it is valid UTF-8. *)
Lemma unquote_quote s : valid_utf8 s = true -> unquote (quote_body s) = Some s.
Proof.
  unfold unquote, valid_utf8, quote_body.
  induction s as [|r b t Hs Hch IH] using chunks_induction; [done|].
  rewrite Hch. cbn [map forallb]. intros Hv. apply andb_true_iff in Hv as [Hi Hv].
  apply negb_true_iff in Hi. unfold concat_str in *. cbn [foldr].
  by rewrite chunk_unquote, IH by done.
Qed.

(** ** The printed text parses back *)

(** Fuel a value needs, and how deep it nests. *)
Fixpoint jsize (v : json) : nat :=
  match v with
  | JArr l => S (list_sum (map (fun v => S (jsize v)) l))
  | JObj l => S (list_sum (map (fun kv => S (jsize kv.2)) l))
  | _ => 1
  end.

Fixpoint jdepth (v : json) : Z :=
  match v with
  | JArr l => 1 + foldr Z.max 0 (map jdepth l)
  | JObj l => 1 + foldr Z.max 0 (map (fun kv => jdepth kv.2) l)
  | _ => 0
  end.

(** A value whose literals are literals. *)
Definition num_ok (lit : string) : Prop := lex_num lit = Some (lit, "").

Fixpoint wf (v : json) : Prop :=
  match v with
  | JNum lit => num_ok lit
  | JStr raw => raw_ok raw
  | JArr l => foldr and True (map wf l)
  | JObj l => foldr and True (map (fun kv => raw_ok kv.1 /\ wf kv.2) l)
  | _ => True
  end.

Section json_induction.
Variable P : json -> Prop.
Hypothesis Hnull : P JNull.
Hypothesis Hbool : forall b, P (JBool b).
Hypothesis Hnum : forall l, P (JNum l).
Hypothesis Hstr : forall r, P (JStr r).
Hypothesis Harr : forall l, Forall P l -> P (JArr l).
Hypothesis Hobj : forall l, Forall (fun kv => P kv.2) l -> P (JObj l).

Fixpoint json_induction (v : json) : P v :=
  match v with
  | JNull => Hnull
  | JBool b => Hbool b
  | JNum l => Hnum l
  | JStr r => Hstr r
  | JArr l =>
      Harr l ((fix go l : Forall P l :=
                 match l with
                 | [] => Forall_nil_2 P
                 | v :: r => Forall_cons_2 P v r (json_induction v) (go r)
                 end) l)
  | JObj l =>
      Hobj l ((fix go l : Forall (fun kv => P kv.2) l :=
                 match l with
                 | [] => Forall_nil_2 _
                 | kv :: r => Forall_cons_2 _ kv r (json_induction kv.2) (go r)
                 end) l)
  end.
End json_induction.

(** The next character cannot continue a number. *)
Definition num_end (s : string) : bool :=
  match s with
  | "" => true
  | String c _ =>
      negb (is_digit c || (byte_of c =? 46) || (byte_of c =? 101) || (byte_of c =? 69))
  end.

Ltac no_num_char H :=
  apply negb_true_iff in H; rewrite !orb_false_iff in H; destruct H as [[[? ?] ?] ?].

Lemma lex_digits_app s w r t :
  num_end t = true -> lex_digits s = (w, r) -> lex_digits (s +:+ t) = (w, r +:+ t).
Proof.
  intros Ht. revert w r. induction s as [|c s IH]; intros w r H; simpl in H.
  - simplify_eq. rewrite !str_app_nil_l. destruct t as [|c t]; [done|].
    simpl in Ht |- *. no_num_char Ht. by case_match.
  - rewrite str_app_cons. cbn [lex_digits]. destruct (is_digit c); [|by simplify_eq].
    destruct (lex_digits s) as [w' r']. simplify_eq. by rewrite (IH w' r).
Qed.

Lemma lex_digits1_app s w r t :
  num_end t = true -> lex_digits1 s = Some (w, r) -> lex_digits1 (s +:+ t) = Some (w, r +:+ t).
Proof.
  unfold lex_digits1. intros Ht H. destruct (lex_digits s) as [w' r'] eqn:E.
  rewrite (lex_digits_app _ _ _ _ Ht E). destruct w'; simplify_eq; done.
Qed.

Lemma lex_int_app s w r t :
  num_end t = true -> lex_int s = Some (w, r) -> lex_int (s +:+ t) = Some (w, r +:+ t).
Proof.
  intros Ht. destruct s as [|c s]; [done|]. rewrite str_app_cons. unfold lex_int.
  destruct (byte_of c =? 48); [by intros; simplify_eq|].
  rewrite <- str_app_cons. by apply lex_digits1_app.
Qed.

Lemma lex_frac_app s w r t :
  num_end t = true -> lex_frac s = Some (w, r) -> lex_frac (s +:+ t) = Some (w, r +:+ t).
Proof.
  intros Ht. destruct s as [|c s]; unfold lex_frac.
  - intros H. simplify_eq. rewrite !str_app_nil_l. destruct t as [|c t]; [done|].
    simpl in Ht. no_num_char Ht. by case_match.
  - rewrite str_app_cons. destruct (byte_of c =? 46); [|by intros; simplify_eq].
    destruct (lex_digits1 s) as [[w' r']|] eqn:E; [|done]. intros. simplify_eq.
    by rewrite (lex_digits1_app _ _ _ _ Ht E).
Qed.

Lemma lex_exp_app s w r t :
  num_end t = true -> lex_exp s = Some (w, r) -> lex_exp (s +:+ t) = Some (w, r +:+ t).
Proof.
  intros Ht. destruct s as [|c s]; unfold lex_exp.
  - intros H. simplify_eq. rewrite !str_app_nil_l. destruct t as [|c t]; [done|].
    simpl in Ht. no_num_char Ht.
    by repeat match goal with E : _ = false |- _ => rewrite E end.
  - rewrite str_app_cons. destruct ((byte_of c =? 101) || (byte_of c =? 69));
      [|by intros; simplify_eq].
    destruct s as [|d s]; [done|]. rewrite str_app_cons.
    destruct ((byte_of d =? 43) || (byte_of d =? 45)).
    + destruct (lex_digits1 s) as [[w' r']|] eqn:E; [|done]. intros. simplify_eq.
      by rewrite (lex_digits1_app _ _ _ _ Ht E).
    + destruct (lex_digits1 (String d s)) as [[w' r']|] eqn:E; [|done]. intros. simplify_eq.
      rewrite <- str_app_cons. by rewrite (lex_digits1_app _ _ _ _ Ht E).
Qed.

(** A number is read to its end whatever follows it. *)
Lemma lex_num_app lit w r t :
  num_end t = true -> lex_num lit = Some (w, r) -> lex_num (lit +:+ t) = Some (w, r +:+ t).
Proof.
  intros Ht. unfold lex_num. destruct lit as [|c s]; [done|]. rewrite str_app_cons.
  assert (Hrest : forall (sign s0 : string),
    match lex_int s0 with
    | Some (i, s1) =>
        match lex_frac s1 with
        | Some (f, s2) =>
            match lex_exp s2 with
            | Some (e, s3) => Some (sign +:+ i +:+ f +:+ e, s3) | None => None end
        | None => None end
    | None => None end = Some (w, r) ->
    match lex_int (s0 +:+ t) with
    | Some (i, s1) =>
        match lex_frac s1 with
        | Some (f, s2) =>
            match lex_exp s2 with
            | Some (e, s3) => Some (sign +:+ i +:+ f +:+ e, s3) | None => None end
        | None => None end
    | None => None end = Some (w, r +:+ t)).
  { intros sign s0 H.
    destruct (lex_int s0) as [[i s1]|] eqn:Ei; [|done].
    destruct (lex_frac s1) as [[f s2]|] eqn:Ef; [|done].
    destruct (lex_exp s2) as [[e s3]|] eqn:Ee; [|done]. simplify_eq.
    by rewrite (lex_int_app _ _ _ _ Ht Ei), (lex_frac_app _ _ _ _ Ht Ef),
      (lex_exp_app _ _ _ _ Ht Ee). }
  destruct (byte_of c =? 45); [apply (Hrest (String c ""))|].
  rewrite <- str_app_cons. apply (Hrest "").
Qed.

(** The first character of a number tells it from every other value. *)
Lemma lex_num_head lit :
  num_ok lit -> exists c s, lit = String c s /\ (byte_of c = 45 \/ 48 <= byte_of c <= 57).
Proof.
  unfold num_ok, lex_num. destruct lit as [|c s]; [done|]. intros H. exists c, s.
  split; [done|]. destruct (byte_of c =? 45) eqn:E; [left; by apply Z.eqb_eq|right].
  unfold lex_int in H. destruct (byte_of c =? 48) eqn:E0; [apply Z.eqb_eq in E0; lia|].
  unfold lex_digits1 in H. cbn [lex_digits] in H.
  destruct (is_digit c) eqn:Ed; [by apply in_range_spec in Ed|done].
Qed.

Lemma skip_ws_cons c s : is_ws c = false -> skip_ws (String c s) = String c s.
Proof. intros H. simpl. by rewrite H. Qed.

(** [v] parses back wherever its text stands. *)
Definition reads_back (v : json) : Prop :=
  wf v -> forall n depth rest,
    (jsize v <= n)%nat -> depth + jdepth v <= max_nesting -> num_end rest = true ->
    parse_value n depth (print v +:+ rest) = Some (v, rest).

Lemma reads_back_num lit : reads_back (JNum lit).
Proof.
  intros Hn [|n] depth rest Hsz _ Hend; [simpl in Hsz; lia|].
  destruct (lex_num_head lit Hn) as (c & s & -> & Hc). cbn [print].
  pose proof (lex_num_app _ _ _ rest Hend Hn) as Hl. rewrite str_app_nil_l in Hl.
  rewrite str_app_cons in *. cbn [parse_value].
  rewrite skip_ws_cons by (unfold is_ws; lia).
  repeat (match goal with |- context [byte_of c =? ?k] =>
    let E := fresh in assert (E : (byte_of c =? k) = false) by lia; rewrite E; clear E end).
  by rewrite Hl.
Qed.

Lemma reads_back_str raw : reads_back (JStr raw).
Proof.
  intros Hr [|n] depth rest Hsz _ _; [simpl in Hsz; lia|].
  cbn [print parse_value]. unfold s_quote at 1. rewrite !str_app_cons, !str_app_nil_l.
  rewrite skip_ws_cons by reflexivity. change (byte_of c_quote =? 34) with true. cbn iota.
  rewrite <- str_app_assoc. by rewrite lex_raw_quote.
Qed.

Definition items_text (l : list json) : string := join "," (map print l).

Lemma items_cons v w l : items_text (v :: w :: l) = print v +:+ "," +:+ items_text (w :: l).
Proof. reflexivity. Qed.

Lemma parse_items_print l n depth rest :
  Forall reads_back l -> foldr and True (map wf l) -> l <> [] ->
  (list_sum (map (fun v => S (jsize v)) l) <= n)%nat ->
  depth + foldr Z.max 0 (map jdepth l) <= max_nesting ->
  parse_items n depth (items_text l +:+ "]" +:+ rest) = Some (l, rest).
Proof.
  intros Hl. revert n. induction Hl as [|v l Hv Hl IH]; [done|].
  intros [|n] [Hwf Hwfs] _ Hn Hd; [simpl in Hn; lia|]. simpl in Hn, Hd. cbn [parse_items].
  destruct l as [|w l].
  - unfold items_text. cbn [map join]. rewrite (Hv Hwf n depth ("]" +:+ rest)) by (done || lia).
    reflexivity.
  - rewrite items_cons, <- !str_app_assoc.
    rewrite (Hv Hwf n depth) by (done || lia).
    rewrite str_app_cons, skip_ws_cons by reflexivity.
    change (byte_of "," =? 93) with false. change (byte_of "," =? 44) with true. cbn iota.
    rewrite str_app_nil_l, IH by (done || (simpl in *; lia)). done.
Qed.

Definition field_text (kv : string * json) : string :=
  s_quote +:+ kv.1 +:+ s_quote +:+ ":" +:+ print kv.2.
Definition fields_text (l : list (string * json)) : string := join "," (map field_text l).

Lemma fields_cons v w l :
  fields_text (v :: w :: l) = field_text v +:+ "," +:+ fields_text (w :: l).
Proof. reflexivity. Qed.

(** One member and what follows its value. *)
Lemma parse_field_print key v n depth rest :
  reads_back v -> raw_ok key -> wf v -> (jsize v <= n)%nat ->
  depth + jdepth v <= max_nesting -> num_end rest = true ->
  parse_fields (S n) depth (field_text (key, v) +:+ rest) =
    match skip_ws rest with
    | String c rest =>
        if byte_of c =? 125 then Some ([(key, v)], rest)
        else if byte_of c =? 44 then
          match parse_fields n depth rest with
          | Some (l, rest) => Some ((key, v) :: l, rest)
          | None => None
          end
        else None
    | "" => None
    end.
Proof.
  intros Hv Hk Hwf Hn Hd He. unfold field_text. cbn [fst snd].
  rewrite <- !str_app_assoc. unfold s_quote at 1. rewrite str_app_cons, str_app_nil_l.
  cbn [parse_fields]. rewrite skip_ws_cons by reflexivity.
  change (byte_of c_quote =? 34) with true. cbn iota.
  rewrite lex_raw_quote by done. rewrite str_app_cons, skip_ws_cons by reflexivity.
  change (byte_of ":" =? 58) with true. cbn iota.
  by rewrite str_app_nil_l, (Hv Hwf n depth).
Qed.

Lemma parse_fields_print l n depth rest :
  Forall (fun kv => reads_back kv.2) l ->
  foldr and True (map (fun kv => raw_ok kv.1 /\ wf kv.2) l) -> l <> [] ->
  (list_sum (map (fun kv => S (jsize kv.2)) l) <= n)%nat ->
  depth + foldr Z.max 0 (map (fun kv => jdepth kv.2) l) <= max_nesting ->
  parse_fields n depth (fields_text l +:+ "}" +:+ rest) = Some (l, rest).
Proof.
  intros Hl. revert n. induction Hl as [|[key v] l Hv Hl IH]; [done|].
  intros [|n] [[Hk Hwf] Hwfs] _ Hn Hd; [simpl in Hn; lia|]. simpl in Hn, Hd, Hk, Hwf, Hv.
  destruct l as [|w l].
  - unfold fields_text. cbn [map join].
    rewrite parse_field_print by (done || lia). reflexivity.
  - rewrite fields_cons, <- !str_app_assoc.
    rewrite parse_field_print by (done || lia).
    rewrite str_app_cons, skip_ws_cons by reflexivity.
    change (byte_of "," =? 125) with false. change (byte_of "," =? 44) with true. cbn iota.
    rewrite str_app_nil_l, IH by (done || (simpl in *; lia)). done.
Qed.

Lemma skip_ws_print v rest :
  wf v -> exists c s, print v +:+ rest = String c s /\ is_ws c = false /\
    (byte_of c =? 93) = false /\ (byte_of c =? 125) = false.
Proof.
  intros Hwf. destruct v as [|[]|lit|raw|l|l]; cbn [print]; try (by eexists _, _).
  destruct (lex_num_head lit Hwf) as (c & s & -> & Hc). rewrite str_app_cons.
  eexists _, _. split_and!; [done|unfold is_ws; lia|lia|lia].
Qed.

Lemma reads_back_word w v :
  print v = w -> (jsize v = 1)%nat ->
  (exists c s, w = String c s /\ is_ws c = false) ->
  (forall n depth rest, parse_value (S n) depth (w +:+ rest) =
     lex_word w v (w +:+ rest)) ->
  reads_back v.
Proof.
  intros Hp Hs _ Hw _ [|n] depth rest Hn _ _; [lia|]. rewrite Hp, Hw.
  unfold lex_word, has_prefix. rewrite prefix_refl_app. do 2 f_equal.
  clear. induction w as [|c w IH]; [done|]. by rewrite str_app_cons.
Qed.

Lemma reads_back_arr l : Forall reads_back l -> reads_back (JArr l).
Proof.
  intros Hl Hwf [|n] depth rest Hn Hd _; simpl in Hn, Hd, Hwf; [lia|].
  change (print (JArr l)) with ("[" +:+ items_text l +:+ "]").
  rewrite <- !str_app_assoc, str_app_cons, str_app_nil_l. cbn [parse_value].
  rewrite skip_ws_cons by reflexivity.
  change (byte_of "[" =? 34) with false. change (byte_of "[" =? 91) with true. cbn iota.
  assert (Hmax : (max_nesting <=? depth) = false).
  { assert (0 <= foldr Z.max 0 (map jdepth l)) by (clear; induction l; simpl; lia). lia. }
  rewrite Hmax. destruct l as [|v l]; [done|].
  assert (Hhead : exists c s, items_text (v :: l) +:+ "]" +:+ rest = String c s /\
    is_ws c = false /\ (byte_of c =? 93) = false).
  { destruct Hwf as [Hwf _].
    destruct l as [|w l]; [unfold items_text; cbn [map join]|rewrite items_cons, <- str_app_assoc];
      edestruct (skip_ws_print v) as (c & s & E & ? & ? & _); eauto. }
  destruct Hhead as (c & s & Hcs & Hws & Hnb).
  rewrite Hcs, skip_ws_cons, Hnb, <- Hcs by done.
  rewrite parse_items_print by (done || lia). done.
Qed.

Lemma reads_back_obj l : Forall (fun kv => reads_back kv.2) l -> reads_back (JObj l).
Proof.
  intros Hl Hwf [|n] depth rest Hn Hd _; simpl in Hn, Hd, Hwf; [lia|].
  change (print (JObj l)) with ("{" +:+ fields_text l +:+ "}").
  rewrite <- !str_app_assoc, str_app_cons, str_app_nil_l. cbn [parse_value].
  rewrite skip_ws_cons by reflexivity.
  change (byte_of "{" =? 34) with false. change (byte_of "{" =? 91) with false.
  change (byte_of "{" =? 123) with true. cbn iota.
  assert (Hmax : (max_nesting <=? depth) = false).
  { assert (0 <= foldr Z.max 0 (map (fun kv : string * json => jdepth kv.2) l))
      by (clear; induction l; simpl; lia). lia. }
  rewrite Hmax. destruct l as [|v l]; [done|].
  assert (Hhead : exists s, fields_text (v :: l) +:+ "}" +:+ rest = String c_quote s).
  { destruct l as [|w l]; [unfold fields_text; cbn [map join]|rewrite fields_cons];
      unfold field_text, s_quote at 1; eexists; rewrite !str_app_cons; reflexivity. }
  destruct Hhead as (s & Hs). rewrite Hs, skip_ws_cons by reflexivity.
  change (byte_of c_quote =? 125) with false. cbn iota. rewrite <- Hs.
  rewrite parse_fields_print by (done || lia). done.
Qed.

Lemma reads_back_all v : reads_back v.
Proof.
  induction v as [|b|lit|raw|l IH|l IH] using json_induction.
  - by apply (reads_back_word "null"); [..|exists "n"%char, "ull"|].
  - destruct b; [by apply (reads_back_word "true"); [..|exists "t"%char, "rue"|]|].
    by apply (reads_back_word "false"); [..|exists "f"%char, "alse"|].
  - apply reads_back_num.
  - apply reads_back_str.
  - by apply reads_back_arr.
  - by apply reads_back_obj.
Qed.

(** The fuel [parse] gives is enough for what it is given. *)
Lemma jsize_print v : wf v -> (jsize v + 1 <= 2 * String.length (print v))%nat.
Proof.
  induction v as [|b|lit|raw|l IH|l IH] using json_induction; intros Hwf.
  - simpl. lia.
  - destruct b; simpl; lia.
  - destruct (lex_num_head lit Hwf) as (c & s & -> & _). simpl. lia.
  - cbn [print jsize]. rewrite !str_length_app. simpl. lia.
  - change (print (JArr l)) with ("[" +:+ items_text l +:+ "]").
    rewrite !str_length_app. cbn [jsize]. simpl in Hwf.
    assert (list_sum (map (fun v => S (jsize v)) l) <= 2 * String.length (items_text l))%nat;
      [|simpl; lia].
    induction IH as [|v l Hv _ IHl]; [simpl; lia|]. destruct Hwf as [H1 H2].
    specialize (Hv H1). specialize (IHl H2). destruct l as [|w l].
    + unfold items_text. simpl in *. lia.
    + rewrite items_cons, !str_length_app. simpl map in *. simpl list_sum in *.
      simpl String.length in *. lia.
  - change (print (JObj l)) with ("{" +:+ fields_text l +:+ "}").
    rewrite !str_length_app. cbn [jsize]. simpl in Hwf.
    assert (list_sum (map (fun kv => S (jsize kv.2)) l) <=
              2 * String.length (fields_text l))%nat; [|simpl; lia].
    induction IH as [|v l Hv _ IHl]; [simpl; lia|]. destruct Hwf as [[_ H1] H2].
    specialize (Hv H1). specialize (IHl H2).
    assert (2 * String.length (print v.2) <= 2 * String.length (field_text v))%nat.
    { unfold field_text. rewrite !str_length_app. lia. }
    destruct l as [|w l].
    + unfold fields_text. simpl in *. lia.
    + rewrite fields_cons, !str_length_app. simpl map in *. simpl list_sum in *.
      simpl String.length in *. lia.
Qed.

(** Every value with well-formed literals that nests at most 10000 deep parses
    back from its own text. *)
Lemma parse_print v : wf v -> jdepth v <= max_nesting -> parse (print v) = Some v.
Proof.
  intros Hwf Hd. unfold parse. pose proof (reads_back_all v Hwf) as H.
  specialize (H (parse_fuel (print v)) 0 ""). rewrite str_app_nil_r in H.
  rewrite H; [done| |lia|done]. unfold parse_fuel. pose proof (jsize_print v Hwf). lia.
Qed.

(** ** Decoding into Go values

    [Unmarshal] into a value of a known type, as a function of the value the
    target holds and the parsed text; [None] is the [UnmarshalTypeError] that
    makes the call fail. A JSON [null] leaves strings and numbers alone and
    empties pointers, slices and maps. *)

Definition as_string (old : string) (v : json) : option string :=
  match v with JStr raw => unquote raw | JNull => Some old | _ => None end.

Definition as_bool_ptr (v : json) : option (option bool) :=
  match v with JBool b => Some (Some b) | JNull => Some None | _ => None end.

(** [int]: an integer literal that fits 64 bits. *)
Definition int64_ok (n : Z) : bool := in_range (- 2 ^ 63) (2 ^ 63 - 1) n.
Definition as_int (old : Z) (v : json) : option Z :=
  match v with
  | JNum lit => n ← parse_int lit; if int64_ok n then Some n else None
  | JNull => Some old
  | _ => None
  end.

(** [[]string]: the elements are decoded over those already there. *)
Fixpoint decode_items (old : list string) (items : list json) : option (list string) :=
  match items with
  | [] => Some []
  | v :: rest =>
      s ← as_string (default "" (head old)) v;
      l ← decode_items (tail old) rest;
      Some (s :: l)
  end.
Definition as_strings (old : option (list string)) (v : json) : option (option (list string)) :=
  match v with
  | JArr items => Some <$> decode_items (default [] old) items
  | JNull => Some None
  | _ => None
  end.

(** [map[string]string]: members are added to the map there is; [nil] is
    [None]. *)
Fixpoint decode_members (m : gmap string string) (fields : list (string * json))
    : option (gmap string string) :=
  match fields with
  | [] => Some m
  | (key, v) :: rest =>
      k ← unquote key;
      s ← as_string "" v;
      decode_members (<[k := s]> m) rest
  end.
Definition as_string_map (old : option (gmap string string)) (v : json)
    : option (option (gmap string string)) :=
  match v with
  | JObj fields => Some <$> decode_members (default ∅ old) fields
  | JNull => Some None
  | _ => None
  end.

Section structs.
Context `{Unicode} {S : Type}.

(** A struct field: its JSON name and what decoding a value into it does. *)
Definition setter := (string * (json -> S -> option S))%type.

(** The field a key selects: the exact name first, else the first name equal
    under case folding. *)
Definition field_for (setters : list setter) (key : string) : option setter :=
  match find_first (fun f => f.1 ==? key) setters with
  | Some f => Some f
  | None => find_first (fun f => equal_fold f.1 key) setters
  end.

Fixpoint decode_struct_fields (setters : list setter) (fields : list (string * json)) (s : S)
    : option S :=
  match fields with
  | [] => Some s
  | (raw, v) :: rest =>
      key ← unquote raw;
      s ← match field_for setters key with
          | Some f => f.2 v s
          | None => Some s
          end;
      decode_struct_fields setters rest s
  end.

Definition decode_struct (setters : list setter) (v : json) (s : S) : option S :=
  match v with
  | JObj fields => decode_struct_fields setters fields s
  | JNull => Some s
  | _ => None
  end.
End structs.

(** ** Raw values

    [json.RawMessage] keeps the bytes of a value as they stand. The elements of an
    array and the members of an object as such texts; to be used on texts that
    [parse] accepts. *)

(** The value at the start of a text, and what follows it. *)
Definition raw_value (n : nat) (s : string) : option (string * string) :=
  let s := skip_ws s in
  '(_, rest) ← parse_value n 1 s;
  Some (take_str (String.length s - String.length rest) s, rest).

Fixpoint raw_items (n : nat) (s : string) : option (list string) :=
  match n with
  | O => None
  | S m =>
      '(raw, rest) ← raw_value n s;
      match skip_ws rest with
      | String c rest =>
          if byte_of c =? 93 then Some [raw]
          else l ← raw_items m rest; Some (raw :: l)
      | "" => None
      end
  end.

Fixpoint raw_fields (n : nat) (s : string) : option (list (string * string)) :=
  match n with
  | O => None
  | S m =>
      match skip_ws s with
      | String _ r =>
          '(key, rest) ← lex_str r;
          match skip_ws rest with
          | String _ rest =>
              '(raw, rest) ← raw_value n rest;
              match skip_ws rest with
              | String c rest =>
                  if byte_of c =? 125 then Some [(key, raw)]
                  else l ← raw_fields m rest; Some ((key, raw) :: l)
              | "" => None
              end
          | "" => None
          end
      | "" => None
      end
  end.

(** [[]json.RawMessage]. *)
Definition raw_elements (s : string) : option (list string) :=
  v ← parse s;
  match v, skip_ws s with
  | JArr [], _ | JNull, _ => Some []
  | JArr _, String _ r => raw_items (parse_fuel s) r
  | _, _ => None
  end.

Definition raw_members (s : string) : option (list (string * string)) :=
  v ← parse s;
  match v, skip_ws s with
  | JObj [], _ | JNull, _ => Some []
  | JObj _, String _ r => raw_fields (parse_fuel s) r
  | _, _ => None
  end.

Example raw_sample :
  raw_members " {'a': [1,  2 ] ,'b':'x'}" = None /\
  (let q := fun s => map_runes (fun r => if r =? 39 then 34 else r) s in
   raw_members (q " {'a': [1,  2 ] ,'b':'x'}") = Some [("a", "[1,  2 ]"); ("b", q "'x'")] /\
   raw_elements "[1 , {} ]" = Some ["1"; "{}"]).
Proof. by split_and!; vm_compute. Qed.

(** Decoding into a struct of which some fields are raw: each field reads its own
    text. *)
Section raw_structs.
Context `{Unicode} {S : Type}.

Definition raw_setter := (string * (string -> S -> option S))%type.

Definition raw_field_for (setters : list raw_setter) (key : string) : option raw_setter :=
  match find_first (fun f => f.1 ==? key) setters with
  | Some f => Some f
  | None => find_first (fun f => equal_fold f.1 key) setters
  end.

Fixpoint decode_raw (setters : list raw_setter) (fields : list (string * string)) (s : S) : option S :=
  match fields with
  | [] => Some s
  | (raw, v) :: rest =>
      key ← unquote raw;
      s ← match raw_field_for setters key with Some f => f.2 v s | None => Some s end;
      decode_raw setters rest s
  end.

Definition unmarshal_raw (setters : list raw_setter) (source : string) (zero : S) : option S :=
  fields ← raw_members source; decode_raw setters fields zero.
End raw_structs.

(** ** Encoding Go values *)

Definition of_string (s : string) : json := JStr (quote_body s).
Definition of_int (n : Z) : json := JNum (itoa n).
Definition of_bool_ptr (b : option bool) : json :=
  match b with Some b => JBool b | None => JNull end.
Definition of_strings (l : option (list string)) : json :=
  match l with Some l => JArr (map of_string l) | None => JNull end.

(** Members of a map, by key. *)
Definition sorted_keys (m : gmap string string) : list string :=
  sort_strings (map fst (map_to_list m)).
Definition of_string_map (m : option (gmap string string)) : json :=
  match m with
  | Some m =>
      JObj (map (fun k => (quote_body k, of_string (default "" (m !! k)))) (sorted_keys m))
  | None => JNull
  end.

(** ** Decoding what was encoded *)

Lemma as_of_string old s : valid_utf8 s = true -> as_string old (of_string s) = Some s.
Proof. apply unquote_quote. Qed.

Lemma as_of_int old n : int64_ok n = true -> as_int old (of_int n) = Some n.
Proof. intros H. unfold as_int, of_int. rewrite parse_int_itoa. simpl. by rewrite H. Qed.

Lemma as_of_bool_ptr b : as_bool_ptr (of_bool_ptr b) = Some b.
Proof. by destruct b. Qed.

Lemma decode_of_strings old l :
  forallb valid_utf8 l = true -> decode_items old (map of_string l) = Some l.
Proof.
  revert old. induction l as [|s l IH]; intros old H; [done|]. simpl in H. bools.
  cbn [map decode_items]. rewrite as_of_string by done. cbn [mbind option_bind].
  by rewrite IH.
Qed.

Lemma as_of_strings old l :
  (forall k, l = Some k -> forallb valid_utf8 k = true) ->
  as_strings old (of_strings l) = Some l.
Proof.
  intros H. destruct l as [l|]; [|done]. simpl. by rewrite decode_of_strings by auto.
Qed.

Definition utf8_map (m : gmap string string) : Prop :=
  forall k v, m !! k = Some v -> valid_utf8 k = true /\ valid_utf8 v = true.

Lemma elem_of_sorted_keys m k : k ∈ sorted_keys m <-> is_Some (m !! k).
Proof.
  unfold sorted_keys. rewrite sort_strings_perm. split.
  - intros ([k' v] & -> & Hin)%list_elem_of_fmap. apply elem_of_map_to_list in Hin. by exists v.
  - intros [v Hv]. apply (list_elem_of_fmap_2 fst _ (k, v)). by apply elem_of_map_to_list.
Qed.

Lemma decode_encoded_members m keys acc :
  utf8_map m -> (forall k, k ∈ keys -> is_Some (m !! k)) ->
  decode_members acc (map (fun k => (quote_body k, of_string (default "" (m !! k)))) keys) =
    Some (foldl (fun a k => <[k := default "" (m !! k)]> a) acc keys).
Proof.
  intros Hu. revert acc. induction keys as [|k keys IH]; intros acc Hk; [done|].
  destruct (Hk k) as [v Hv]; [left|]. destruct (Hu k v Hv) as [Hk8 Hv8].
  cbn [map decode_members]. rewrite unquote_quote by done. cbn [mbind option_bind].
  rewrite Hv. cbn [default from_option id]. rewrite as_of_string by done.
  cbn [mbind option_bind]. rewrite IH by (intros; apply Hk; by right).
  simpl. by rewrite Hv.
Qed.

Lemma foldl_insert_lookup (m acc : gmap string string) keys k :
  foldl (fun a k => <[k := default "" (m !! k)]> a) acc keys !! k =
    if decide (k ∈ keys) then Some (default "" (m !! k)) else acc !! k.
Proof.
  revert acc. induction keys as [|x keys IH]; intros acc; simpl; [done|].
  rewrite IH. destruct (decide (k ∈ keys)) as [Hin|Hn].
  - by rewrite decide_True by (by right).
  - destruct (decide (k = x)) as [->|Hne].
    + rewrite lookup_insert_eq, decide_True by (left). done.
    + rewrite lookup_insert_ne, decide_False by first [congruence|rewrite elem_of_cons; tauto].
      done.
Qed.

Lemma as_of_string_map m :
  utf8_map m -> as_string_map None (of_string_map (Some m)) = Some (Some m).
Proof.
  intros Hu. unfold as_string_map, of_string_map.
  rewrite decode_encoded_members by (done || intros; by apply elem_of_sorted_keys).
  cbn. do 2 f_equal. apply map_eq. intros k. rewrite foldl_insert_lookup.
  destruct (decide (k ∈ sorted_keys m)) as [Hk|Hk]; rewrite elem_of_sorted_keys in Hk.
  - destruct Hk as [v Hv]. by rewrite Hv.
  - rewrite lookup_empty. symmetry. by apply eq_None_not_Some.
Qed.

(** Encoded values have well-formed literals. *)
Lemma wf_of_string s : wf (of_string s).
Proof. apply quote_body_raw. Qed.

Lemma num_ok_digits c s :
  all_digits (String c s) = true -> (byte_of c <> 48 \/ s = "") ->
  lex_int (String c s) = Some (String c s, "").
Proof.
  intros Hd Hz. unfold lex_int. destruct (byte_of c =? 48) eqn:E.
  - apply Z.eqb_eq in E. destruct Hz as [?| ->]; done.
  - unfold lex_digits1. assert (Hl : lex_digits (String c s) = (String c s, "")).
    { clear E Hz. revert Hd. generalize (String c s). clear.
      intros t. induction t as [|c t IH]; intros H; [done|]. cbn [all_digits] in H.
      apply andb_true_iff in H as [H1 H2]. cbn [lex_digits]. unfold is_digit. rewrite H1.
      by rewrite IH. }
    by rewrite Hl.
Qed.

Lemma dec_digits_head fuel n acc c s :
  0 < n -> n < 2 ^ Z.of_nat fuel -> dec_digits fuel n acc = String c s -> byte_of c <> 48.
Proof.
  revert n acc. induction fuel as [|fuel IH]; intros n acc Hn Hlt Hs.
  { simpl in Hlt. lia. }
  cbn [dec_digits] in Hs. destruct (n / 10 =? 0) eqn:E.
  - apply Z.eqb_eq in E. injection Hs as <- _. rewrite byte_of_of by (Z.div_mod_to_equations; lia).
    Z.div_mod_to_equations; lia.
  - apply Z.eqb_neq in E. eapply IH; [|..|exact Hs].
    + Z.div_mod_to_equations; lia.
    + rewrite Nat2Z.inj_succ, Z.pow_succ_r in Hlt by lia. Z.div_mod_to_equations; lia.
Qed.

Lemma lex_int_utoa n : 0 <= n -> lex_int (utoa n) = Some (utoa n, "").
Proof.
  intros Hn. pose proof (utoa_digits n Hn) as Hd. destruct (decide (n = 0)) as [->|Hne]; [done|].
  destruct (utoa n) as [|c s] eqn:E; [by apply dec_digits_nonempty in E|].
  apply num_ok_digits; [done|]. left.
  eapply (dec_digits_head _ n ""); [lia| |exact E]. by apply log2_fuel.
Qed.

Lemma wf_of_int n : wf (of_int n).
Proof.
  unfold of_int, wf, num_ok, lex_num, itoa. destruct (n <? 0) eqn:E.
  - apply Z.ltb_lt in E. rewrite str_app_cons, str_app_nil_l.
    change (byte_of "-" =? 45) with true. cbn iota. rewrite lex_int_utoa by lia. cbn.
    by rewrite !str_app_nil_r.
  - apply Z.ltb_ge in E. pose proof (lex_int_utoa n E) as Hl. pose proof (utoa_digits n E) as Hd.
    destruct (utoa n) as [|c s]; [done|]. cbn [all_digits] in Hd.
    apply andb_true_iff in Hd as [Hc _]. apply in_range_spec in Hc.
    assert (E45 : (byte_of c =? 45) = false) by lia. rewrite E45, Hl. cbn.
    by rewrite !str_app_nil_r.
Qed.

Lemma wf_arr l : (forall v, v ∈ l -> wf v) -> wf (JArr l).
Proof.
  intros Hl. cbn [wf]. induction l as [|v l IH]; [done|]. split; [apply Hl; left|].
  apply IH. intros w Hw. apply Hl. by right.
Qed.

Lemma wf_obj l : (forall k v, (k, v) ∈ l -> raw_ok k /\ wf v) -> wf (JObj l).
Proof.
  intros Hl. cbn [wf]. induction l as [|[k v] l IH]; [done|]. split; [apply Hl; left|].
  apply IH. intros k' w Hw. apply Hl. by right.
Qed.

Lemma wf_of_strings l : wf (of_strings l).
Proof.
  destruct l as [l|]; [|done]. apply wf_arr. intros v (s & -> & _)%list_elem_of_fmap.
  apply wf_of_string.
Qed.

Lemma wf_of_string_map m : wf (of_string_map m).
Proof.
  destruct m as [m|]; [|done]. apply wf_obj. intros k v (x & Heq & _)%list_elem_of_fmap.
  simplify_eq. split; [apply quote_body_raw|apply wf_of_string].
Qed.

Lemma wf_of_bool_ptr b : wf (of_bool_ptr b).
Proof. by destruct b. Qed.

(** Flat containers nest one deep. *)
Lemma jdepth_pos v : 0 <= jdepth v.
Proof.
  induction v as [| | | |l IH|l IH] using json_induction; simpl; try lia.
  - clear IH. induction l; simpl; lia.
  - clear IH. induction l; simpl; lia.
Qed.

Lemma jdepth_of_strings l : jdepth (of_strings l) <= 1.
Proof. destruct l as [l|]; [|done]. simpl. induction l; simpl in *; lia. Qed.

Lemma jdepth_of_string_map m : jdepth (of_string_map m) <= 1.
Proof.
  destruct m as [m|]; [|done]. simpl. induction (sorted_keys m); simpl in *; lia.
Qed.

#[export] Hint Resolve wf_of_string wf_of_int wf_of_strings wf_of_string_map wf_of_bool_ptr : delo.

(** A field is found by its own name. *)
Lemma field_for_own `{Unicode} {S : Type} (setters : list (setter (S := S))) i name f :
  NoDup (map fst setters) -> setters !! i = Some (name, f) ->
  field_for setters name = Some (name, f).
Proof.
  intros Hn Hi. unfold field_for.
  match goal with |- context [find_first ?p setters] =>
    enough (Hf : find_first p setters = Some (name, f)) by (by rewrite Hf) end.
  revert i Hi. induction setters as [|[n g] l IH]; intros i Hi; [done|].
  simpl in Hn. apply NoDup_cons in Hn as [Hni Hn]. simpl.
  destruct i as [|i]; simpl in Hi; [simplify_eq; by rewrite bool_decide_eq_true_2|].
  rewrite bool_decide_eq_false_2; [by eapply IH|].
  intros ->. apply Hni. apply list_elem_of_lookup_2 in Hi.
  by apply (list_elem_of_fmap_2 fst l (name, f)).
Qed.

(** Decoding an object member by member, each setting its own field. *)
Lemma decode_step `{Unicode} {S : Type} (setters : list (setter (S := S))) i name f v rest s s' :
  NoDup (map fst setters) -> unquote name = Some name ->
  setters !! i = Some (name, f) -> f v s = Some s' ->
  decode_struct_fields setters ((name, v) :: rest) s = decode_struct_fields setters rest s'.
Proof.
  intros Hn Hu Hi Hf. cbn [decode_struct_fields]. rewrite Hu. cbn [mbind option_bind].
  rewrite (field_for_own _ _ _ _ Hn Hi). cbn [snd]. by rewrite Hf.
Qed.

(** ** What decoding gives *)

(** A decoded string is valid UTF-8. *)
Lemma unquote_valid raw s : unquote raw = Some s -> valid_utf8 s = true.
Proof.
  unfold unquote. generalize (chunks raw). intros l. remember (length l) as n eqn:Hn.
  revert l s Hn. induction n as [n IH] using lt_wf_ind. intros l s -> H.
  assert (Happ : forall (r : Z) (l' : list (Z * string)) (s' : string), (length l' < length l)%nat ->
    oapp (encode_rune r) (unquote_chunks l') = Some s' -> valid_utf8 s' = true).
  { intros r l' s' Hl H'. destruct (unquote_chunks l') eqn:E; [|done]. injection H' as <-.
    apply valid_utf8_app_2; [apply encode_rune_valid|]. by eapply IH. }
  destruct l as [|[r b] rest]; [by injection H as <-|]. cbn [unquote_chunks] in H.
  destruct (r =? 92); [|eapply Happ; [|exact H]; simpl; lia].
  destruct rest as [|[e b1] rest1]; [done|]. destruct (e =? 117).
  - destruct rest1 as [|[h1 ?] [|[h2 ?] [|[h3 ?] [|[h4 ?] rest2]]]]; try done.
    destruct (hex4 h1 h2 h3 h4) as [u|]; [|done].
    destruct (is_high_surrogate u); [|eapply Happ; [|exact H]; simpl; lia].
    destruct rest2 as [|[b3 ?] [|[u1 ?] [|[k1 ?] [|[k2 ?] [|[k3 ?] [|[k4 ?] rest3]]]]]];
      try (eapply Happ; [|exact H]; simpl; lia).
    repeat match type of H with
    | (match ?x with Some _ => _ | None => _ end) = _ => destruct x
    | (if is_low_surrogate ?v then _ else _) = _ => destruct (is_low_surrogate v)
    end; (eapply Happ; [|exact H]; simpl; lia).
  - destruct (escape_byte e) as [w|] eqn:Ee; [|done].
    destruct (unquote_chunks rest1) eqn:E; [|done]. injection H as <-.
    apply valid_utf8_app_2; [|eapply (IH (length rest1)); [simpl; lia|reflexivity|exact E]].
    unfold escape_byte in Ee.
    repeat match type of Ee with (if ?b then _ else _) = _ => destruct b; [by injection Ee as <-|] end.
    done.
Qed.

(** A parsed value nests no deeper than the limit. *)
Lemma parse_depth n :
  (forall depth s v r, depth <= max_nesting -> parse_value n depth s = Some (v, r) ->
     depth + jdepth v <= max_nesting) /\
  (forall depth s l r, depth <= max_nesting -> parse_items n depth s = Some (l, r) ->
     depth + foldr Z.max 0 (map jdepth l) <= max_nesting) /\
  (forall depth s l r, depth <= max_nesting -> parse_fields n depth s = Some (l, r) ->
     depth + foldr Z.max 0 (map (fun kv => jdepth kv.2) l) <= max_nesting).
Proof.
  induction n as [|n (IHv & IHi & IHf)]; [done|]. split_and!; intros depth s v r Hd H.
  - cbn [parse_value] in H. destruct (skip_ws s) as [|c t]; [done|]. cbv zeta in H.
    destruct (byte_of c =? 34).
    { destruct (lex_str t) as [[w rest]|]; simplify_eq. simpl. lia. }
    destruct (byte_of c =? 91).
    { destruct (max_nesting <=? depth) eqn:E; bools; [done|].
      destruct (skip_ws t) as [|d rest]; [done|]. destruct (byte_of d =? 93).
      { simplify_eq. simpl. lia. }
      destruct (parse_items n (depth + 1) t) as [[l rest1]|] eqn:Ei; simplify_eq.
      apply IHi in Ei; [|lia]. cbn [jdepth]. lia. }
    destruct (byte_of c =? 123).
    { destruct (max_nesting <=? depth) eqn:E; bools; [done|].
      destruct (skip_ws t) as [|d rest]; [done|]. destruct (byte_of d =? 125).
      { simplify_eq. simpl. lia. }
      destruct (parse_fields n (depth + 1) t) as [[l rest1]|] eqn:Ei; simplify_eq.
      apply IHf in Ei; [|lia]. cbn [jdepth]. lia. }
    unfold lex_word in H. destruct (byte_of c =? 116); [case_match; simplify_eq; simpl; lia|].
    destruct (byte_of c =? 102); [case_match; simplify_eq; simpl; lia|].
    destruct (byte_of c =? 110); [case_match; simplify_eq; simpl; lia|].
    destruct (lex_num _) as [[w rest]|]; simplify_eq. simpl. lia.
  - cbn [parse_items] in H. destruct (parse_value n depth s) as [[x rest]|] eqn:Ev; [|done].
    apply IHv in Ev; [|done]. destruct (skip_ws rest) as [|c t]; [done|].
    destruct (byte_of c =? 93); [simplify_eq; simpl; lia|].
    destruct (byte_of c =? 44); [|done].
    destruct (parse_items n depth t) as [[l rest1]|] eqn:Ei; simplify_eq.
    apply IHi in Ei; [|done]. simpl. lia.
  - cbn [parse_fields] in H. destruct (skip_ws s) as [|q t]; [done|].
    destruct (byte_of q =? 34); [|done]. destruct (lex_str t) as [[key rest]|]; [|done].
    destruct (skip_ws rest) as [|k t1]; [done|]. destruct (byte_of k =? 58); [|done].
    destruct (parse_value n depth t1) as [[x rest1]|] eqn:Ev; [|done].
    apply IHv in Ev; [|done]. destruct (skip_ws rest1) as [|c t2]; [done|].
    destruct (byte_of c =? 125); [simplify_eq; simpl; lia|].
    destruct (byte_of c =? 44); [|done].
    destruct (parse_fields n depth t2) as [[l rest2]|] eqn:Ei; simplify_eq.
    apply IHf in Ei; [|done]. simpl. lia.
Qed.

Lemma parse_shallow s v : parse s = Some v -> jdepth v <= max_nesting.
Proof.
  unfold parse. destruct (parse_value _ _ _) as [[w rest]|] eqn:E; [|done].
  case_bool_decide; [|done]. intros. simplify_eq.
  apply (proj1 (parse_depth _)) in E; unfold max_nesting in *; lia.
Qed.
