(* ===== verification/RawJson.v ===== *)
(** * encoding/json: raw messages

    A [json.RawMessage] keeps the text of a value as it was read; written again it
    is compacted. Maps of raw messages, as the tool arguments of an agent are
    taken apart and put together. *)
From S2P Require Import Prelude GoStr Json.
Open Scope Z_scope.

(** What [compact] replaces inside of a text: the characters of HTML, and the two
    line separators of Unicode. *)
Fixpoint escape_html (s : string) : string :=
  match s with
  | "" => ""
  | String a r =>
      if bool_decide (byte_of a ∈ [38; 60; 62])
      then s_back +:+ "u00" +:+ String (hex_digit (byte_of a / 16)) (String (hex_digit (byte_of a mod 16)) (escape_html r))
      else match r with
           | String b (String c r') =>
               if (byte_of a =? 226) && (byte_of b =? 128) && in_range 168 169 (byte_of c)
               then s_back +:+ "u202" +:+ String (hex_digit (byte_of c mod 16)) (escape_html r')
               else String a (escape_html r)
           | _ => String a (escape_html r)
           end
  end.

(** [RawMessage.MarshalJSON], compacted; [""] is the nil message. *)
Definition marshal_raw (raw : string) : option string :=
  if raw ==? "" then Some "null" else v ← parse raw; Some (escape_html (print v)).

(** [Unmarshal] into a [RawMessage]. *)
Definition unmarshal_message (s : string) : option string :=
  _ ← parse s; '(raw, _) ← raw_value (parse_fuel s) s; Some raw.

(** Decoding an object into a map, a later member over an earlier one. *)
Fixpoint raw_map_of (fields : list (string * string)) (m : gmap string string) : option (gmap string string) :=
  match fields with
  | [] => Some m
  | (key, raw) :: fields => key ← unquote key; raw_map_of fields (<[key := raw]> m)
  end.

(** [Unmarshal] into a [map[string]json.RawMessage] that is not nil before; [None]
    inside for the nil map of a null. *)
Definition unmarshal_raw_map (s : string) : option (option (gmap string string)) :=
  v ← parse s;
  match v with
  | JNull => Some None
  | JObj _ => fields ← raw_members s; m ← raw_map_of fields ∅; Some (Some m)
  | _ => None
  end.

Fixpoint marshal_members (m : gmap string string) (keys : list string) : option (list string) :=
  match keys with
  | [] => Some []
  | key :: keys =>
      value ← marshal_raw (default "" (m !! key));
      rest ← marshal_members m keys;
      Some ((quote key +:+ ":" +:+ value) :: rest)
  end.

(** [Marshal] of such a map, by key. *)
Definition marshal_raw_map (m : option (gmap string string)) : option string :=
  match m with
  | None => Some "null"
  | Some m => members ← marshal_members m (sorted_keys m); Some ("{" +:+ join "," members +:+ "}")
  end.

(** Single quotes for double ones. *)
Definition quoted (s : string) : string := map_runes (fun r => if r =? 39 then 34 else r) s.

Example raw_map_sample :
  (m ← unmarshal_raw_map (quoted " {'b': [1,  '<'] ,'a':{} , 'b': 'x&y'}"); marshal_raw_map m) =
    Some (quoted "{'a':{},'b':'x\u0026y'}") /\
  (m ← unmarshal_raw_map "null"; marshal_raw_map m) = Some "null" /\
  unmarshal_raw_map "[1]" = None /\ unmarshal_message (quoted " {'a' : 1} ") = Some (quoted "{'a' : 1}").
Proof. by split_and!; vm_compute. Qed.
