(* ===== verification/GoTime.v ===== *)
(** * Go instants

    A [time.Time] is the number of nanoseconds since 0001-01-01T00:00:00Z, so
    the zero value is 0 ([IsZero]), [Before]/[After]/[Equal] compare numbers and
    [Add] adds a [time.Duration] in nanoseconds. Locations do not appear: every
    clock of the program returns UTC.

    Dates, the RFC 3339 text [time.Time] marshals to, and the fixed-width text
    of the database columns, with the two facts the stores rely on: parsing
    undoes formatting, and the column text sorts as the instants do. *)
From S2P Require Import Prelude GoStr.
Open Scope Z_scope.

Definition Nanosecond : Z := 1.
Definition Millisecond : Z := 1000000.
Definition Second : Z := 1000000000.
Definition Minute : Z := 60 * Second.
Definition Hour : Z := 60 * Minute.
Definition Day : Z := 24 * Hour.

Definition IsZero (t : Z) : bool := t =? 0.
Definition Before (t u : Z) : bool := t <? u.
Definition After (t u : Z) : bool := u <? t.

(** ** Civil dates *)

Definition is_leap (y : Z) : bool :=
  (y mod 4 =? 0) && (negb (y mod 100 =? 0) || (y mod 400 =? 0)).

(** Days before each month of a common year, month 13 being the next year. *)
Definition month_start (leap : bool) (m : Z) : Z :=
  let base :=
    match m with
    | 1 => 0 | 2 => 31 | 3 => 59 | 4 => 90 | 5 => 120 | 6 => 151 | 7 => 181
    | 8 => 212 | 9 => 243 | 10 => 273 | 11 => 304 | 12 => 334 | _ => 365
    end in
  if leap && (2 <? m) then base + 1 else base.

Definition year_start (y : Z) : Z :=
  let p := y - 1 in 365 * p + p / 4 - p / 100 + p / 400.

(** Days since 0001-01-01. *)
Definition days_of (y m d : Z) : Z := year_start y + month_start (is_leap y) m + (d - 1).

Definition month_length (leap : bool) (m : Z) : Z :=
  month_start leap (m + 1) - month_start leap m.

(** The year and the day of it, by cycles of 400, 100, 4 and 1 years. *)
Definition year_of (days : Z) : Z * Z :=
  let n400 := days / 146097 in
  let r := days mod 146097 in
  let n100 := Z.min (r / 36524) 3 in
  let r := r - 36524 * n100 in
  let n4 := r / 1461 in
  let r := r mod 1461 in
  let n1 := Z.min (r / 365) 3 in
  (400 * n400 + 100 * n100 + 4 * n4 + n1 + 1, r - 365 * n1).

Fixpoint find_month (leap : bool) (fuel : nat) (m yday : Z) : Z :=
  match fuel with
  | O => m
  | S fuel => if yday <? month_start leap (m + 1) then m else find_month leap fuel (m + 1) yday
  end.

Definition civil_of (days : Z) : Z * Z * Z :=
  let '(y, yday) := year_of days in
  let m := find_month (is_leap y) 11 1 yday in
  (y, m, yday - month_start (is_leap y) m + 1).

Lemma year_of_spec days y yday :
  year_of days = (y, yday) ->
  days = year_start y + yday /\ 0 <= yday < (if is_leap y then 366 else 365).
Proof.
  unfold year_of. intros H. injection H as Hy Hd.
  set (n400 := days / 146097) in *. set (r1 := days mod 146097) in *.
  set (n100 := Z.min (r1 / 36524) 3) in *.
  assert (E2 : 0 <= n100 <= 3 /\ 0 <= r1 - 36524 * n100 /\
    (r1 - 36524 * n100 < 36524 \/ n100 = 3 /\ r1 - 36524 * n100 <= 36524))
    by (subst n100 r1; Z.div_mod_to_equations; lia).
  remember (r1 - 36524 * n100) as r2 eqn:Hr2.
  set (n4 := r2 / 1461) in *. set (r3 := r2 mod 1461) in *.
  set (n1 := Z.min (r3 / 365) 3) in *.
  assert (E1 : days = 146097 * n400 + r1)
    by (subst n400 r1; Z.div_mod_to_equations; lia).
  assert (E3 : r2 = 1461 * n4 + r3 /\ 0 <= r3 < 1461 /\ 0 <= n4 <= 24)
    by (subst n4 r3; Z.div_mod_to_equations; lia).
  assert (E4 : 0 <= n1 <= 3 /\ 0 <= r3 - 365 * n1 /\
    (r3 - 365 * n1 < 365 \/ n1 = 3 /\ r3 - 365 * n1 <= 365))
    by (subst n1; Z.div_mod_to_equations; lia).
  clearbody n400 r1 n100 n4 r3 n1.
  assert (Hp : y - 1 = 400 * n400 + 100 * n100 + 4 * n4 + n1) by lia.
  assert (D4 : (y - 1) / 4 = 100 * n400 + 25 * n100 + n4) by (Z.div_mod_to_equations; lia).
  assert (D100 : (y - 1) / 100 = 4 * n400 + n100) by (Z.div_mod_to_equations; lia).
  assert (D400 : (y - 1) / 400 = n400) by (Z.div_mod_to_equations; lia).
  split; [unfold year_start; rewrite D4, D100, D400; lia|].
  rewrite <- Hd. split; [lia|].
  destruct (is_leap y) eqn:Hl; [lia|]. unfold is_leap in Hl.
  destruct (decide (n1 = 3)) as [->|]; [|lia].
  assert (M4 : y mod 4 = 0) by (Z.div_mod_to_equations; lia).
  rewrite M4 in Hl. cbn in Hl. apply orb_false_iff in Hl as [Hc H400].
  apply negb_false_iff, Z.eqb_eq in Hc. apply Z.eqb_neq in H400.
  assert (n4 = 24) by (Z.div_mod_to_equations; lia).
  assert (n100 <> 3) by (intros ->; apply H400; Z.div_mod_to_equations; lia).
  lia.
Qed.

Lemma find_month_spec (leap : bool) yday :
  0 <= yday < (if leap then 366 else 365) ->
  let m := find_month leap 11 1 yday in
  1 <= m <= 12 /\ month_start leap m <= yday < month_start leap (m + 1).
Proof.
  intros Hy. cbv zeta. cbn [find_month].
  destruct leap;
  (repeat match goal with |- context [yday <? ?k] =>
     let v := eval vm_compute in k in change k with v;
     destruct (Z.ltb_spec yday v) end);
  vm_compute Z.add; (split; [lia|]);
  (repeat match goal with |- context [month_start ?l ?k] =>
     let v := eval vm_compute in (month_start l k) in change (month_start l k) with v end);
  lia.
Qed.

(** A valid date. *)
Definition date_ok (y m d : Z) : Prop :=
  1 <= m <= 12 /\ 1 <= d <= month_length (is_leap y) m.

Lemma civil_of_spec days y m d :
  civil_of days = (y, m, d) -> days = days_of y m d /\ date_ok y m d.
Proof.
  unfold civil_of. destruct (year_of days) as [y' yday] eqn:E. intros H.
  destruct (year_of_spec _ _ _ E) as [-> Hy].
  pose proof (find_month_spec (is_leap y') yday Hy) as Hm. cbv zeta in Hm.
  remember (find_month (is_leap y') 11 1 yday) as m' eqn:Em. clear Em. simplify_eq.
  unfold days_of, date_ok, month_length. lia.
Qed.

Lemma month_start_bounds (leap : bool) m :
  1 <= m <= 12 -> 0 <= month_start leap m /\ month_start leap m < month_start leap (m + 1) /\
  month_start leap (m + 1) <= if leap then 366 else 365.
Proof.
  intros Hm.
  assert (m = 1 \/ m = 2 \/ m = 3 \/ m = 4 \/ m = 5 \/ m = 6 \/ m = 7 \/ m = 8 \/ m = 9 \/
    m = 10 \/ m = 11 \/ m = 12) as Hc by lia.
  destruct leap; repeat (destruct Hc as [->|Hc]; [vm_compute; intuition discriminate|]);
    subst m; vm_compute; intuition discriminate.
Qed.

Lemma month_start_mono leap m n :
  1 <= m < n -> n <= 12 -> month_start leap (m + 1) <= month_start leap n.
Proof.
  intros Hm Hn. assert (exists k : nat, n = m + 1 + Z.of_nat k) as [k ->]
    by (exists (Z.to_nat (n - m - 1)); lia).
  induction k as [|k IH]; [rewrite Z.add_0_r; lia|].
  destruct (month_start_bounds leap (m + 1 + Z.of_nat k)) as (_ & H & _); [lia|].
  rewrite Nat2Z.inj_succ. replace (m + 1 + Z.succ (Z.of_nat k)) with (m + 1 + Z.of_nat k + 1) by lia.
  lia.
Qed.

Lemma year_start_next y :
  year_start (y + 1) = year_start y + if is_leap y then 366 else 365.
Proof.
  unfold year_start, is_leap.
  destruct (Z.eqb_spec (y mod 4) 0); destruct (Z.eqb_spec (y mod 100) 0);
    destruct (Z.eqb_spec (y mod 400) 0); cbn [negb andb orb];
    Z.div_mod_to_equations; lia.
Qed.

Lemma year_start_mono y z : y <= z -> year_start y <= year_start z.
Proof. unfold year_start. intros. Z.div_mod_to_equations; lia. Qed.

(** Later dates are later days. *)
Lemma days_of_lt y1 m1 d1 y2 m2 d2 :
  date_ok y1 m1 d1 -> date_ok y2 m2 d2 ->
  y1 < y2 \/ y1 = y2 /\ (m1 < m2 \/ m1 = m2 /\ d1 < d2) ->
  days_of y1 m1 d1 < days_of y2 m2 d2.
Proof.
  unfold date_ok, month_length, days_of. intros [Hm1 Hd1] [Hm2 Hd2] H.
  pose proof (month_start_bounds (is_leap y1) m1 Hm1) as B1.
  pose proof (month_start_bounds (is_leap y2) m2 Hm2) as B2.
  destruct H as [H|[-> [H|[-> H]]]]; [| |lia].
  - pose proof (year_start_next y1). pose proof (year_start_mono (y1 + 1) y2 ltac:(lia)). lia.
  - pose proof (month_start_mono (is_leap y2) m1 m2 ltac:(lia) ltac:(lia)). lia.
Qed.

(** ** Fields *)

(** An instant as its date, second of the day and nanosecond. *)
Definition days_part (t : Z) : Z := t / Day.
Definition sec_part (t : Z) : Z := t mod Day / Second.
Definition nsec_part (t : Z) : Z := t mod Second.

Lemma parts_sum t : t = days_part t * Day + sec_part t * Second + nsec_part t.
Proof.
  unfold days_part, sec_part, nsec_part, Day, Hour, Minute, Second.
  Z.div_mod_to_equations; lia.
Qed.

(** [n] in [k] decimal digits. *)
Fixpoint pad (k : nat) (n : Z) : string :=
  match k with
  | O => ""
  | S k => String (of_byte (48 + n / 10 ^ Z.of_nat k mod 10)) (pad k n)
  end.

(** [k] digits and what follows them. *)
Fixpoint take_digits (k : nat) (acc : Z) (s : string) : option (Z * string) :=
  match k with
  | O => Some (acc, s)
  | S k =>
      match s with
      | "" => None
      | String c r =>
          match digit_value c with Some d => take_digits k (acc * 10 + d) r | None => None end
      end
  end.

Lemma digit_value_digit d : 0 <= d < 10 -> digit_value (of_byte (48 + d)) = Some d.
Proof.
  intros Hd. unfold digit_value. rewrite byte_of_of by lia.
  assert (E : in_range 48 57 (48 + d) = true) by (apply in_range_spec; lia).
  rewrite E. f_equal. lia.
Qed.

Lemma take_pad k n acc rest :
  0 <= n ->
  take_digits k acc (pad k n +:+ rest) =
    Some (acc * 10 ^ Z.of_nat k + n mod 10 ^ Z.of_nat k, rest).
Proof.
  intros Hn. revert acc. induction k as [|k IH]; intros acc.
  - simpl. rewrite Z.mod_1_r. f_equal. f_equal. lia.
  - cbn [pad take_digits]. rewrite str_app_cons.
    rewrite digit_value_digit by (apply Z.mod_pos_bound; lia). rewrite IH. do 2 f_equal.
    rewrite Nat2Z.inj_succ, Z.pow_succ_r by lia.
    set (p := 10 ^ Z.of_nat k). assert (0 < p) by (apply Z.pow_pos_nonneg; lia).
    rewrite (Z.mul_comm 10 p), (Z.rem_mul_r n p 10) by lia. lia.
Qed.

(** ** Texts *)

(** [appendInt(b, year, 4)]. *)
Definition year_text (y : Z) : string :=
  if y <? 0 then "-" +:+ (if - y <? 10000 then pad 4 (- y) else utoa (- y))
  else if y <? 10000 then pad 4 y else utoa y.

Definition clock_text (sec : Z) : string :=
  pad 2 (sec / 3600) +:+ ":" +:+ pad 2 (sec / 60 mod 60) +:+ ":" +:+ pad 2 (sec mod 60).

(** The date and time of day, to the second. *)
Definition seconds_text (t : Z) : string :=
  let '(y, m, d) := civil_of (days_part t) in
  year_text y +:+ "-" +:+ pad 2 m +:+ "-" +:+ pad 2 d +:+ "T" +:+ clock_text (sec_part t).

(** The fraction [.999999999]: trailing zeros dropped. *)
Fixpoint frac_digits (k : nat) (n : Z) : string :=
  if n =? 0 then ""
  else match k with
       | O => ""
       | S k => String (of_byte (48 + n / 10 ^ Z.of_nat k))
                  (frac_digits k (n mod 10 ^ Z.of_nat k))
       end.
Definition frac_text (ns : Z) : string := if ns =? 0 then "" else "." +:+ frac_digits 9 ns.

(** [time.RFC3339Nano] in UTC. *)
Definition rfc3339_nano (t : Z) : string :=
  seconds_text t +:+ frac_text (nsec_part t) +:+ "Z".

Definition year_of_instant (t : Z) : Z := (year_of (days_part t)).1.

(** [Time.MarshalJSON]: refuses a year outside 0000-9999. *)
Definition marshal_time (t : Z) : option string :=
  if in_range 0 9999 (year_of_instant t) then Some (rfc3339_nano t) else None.

Definition take_char (b : Z) (s : string) : option string :=
  match s with String c r => if byte_of c =? b then Some r else None | "" => None end.

(** [k] digits in a range. *)
Definition take_range (k : nat) (lo hi : Z) (s : string) : option (Z * string) :=
  match take_digits k 0 s with
  | Some (v, r) => if in_range lo hi v then Some (v, r) else None
  | None => None
  end.

Fixpoint parse_frac (k : nat) (s : string) : Z * string :=
  match s with
  | String c r =>
      match digit_value c with
      | Some d =>
          let '(v, rest) := parse_frac (pred k) r in
          (match k with O => 0 | S k => d * 10 ^ Z.of_nat k end + v, rest)
      | None => (0, s)
      end
  | "" => (0, "")
  end.

(** A dot counts only before a digit. *)
Definition take_frac (s : string) : Z * string :=
  match s with
  | String c (String d r) =>
      if (byte_of c =? 46) && bool_decide (is_Some (digit_value d))
      then parse_frac 9 (String d r) else (0, s)
  | _ => (0, s)
  end.

(** The zone: [Z] or a signed offset, in seconds; nothing may follow. *)
Definition parse_zone (s : string) : option Z :=
  match s with
  | String c r =>
      if (byte_of c =? 90) && (r ==? "") then Some 0
      else if (byte_of c =? 43) || (byte_of c =? 45) then
        '(hh, r) ← take_range 2 0 23 r;
        r ← take_char 58 r;
        '(mm, r) ← take_range 2 0 59 r;
        if r ==? "" then Some ((if byte_of c =? 45 then -1 else 1) * (hh * 3600 + mm * 60))
        else None
      else None
  | "" => None
  end.

(** [parseStrictRFC3339]. *)
Definition parse_rfc3339 (s : string) : option Z :=
  '(y, s) ← take_range 4 0 9999 s;
  s ← take_char 45 s;
  '(m, s) ← take_range 2 1 12 s;
  s ← take_char 45 s;
  '(d, s) ← take_range 2 1 (month_length (is_leap y) m) s;
  s ← take_char 84 s;
  '(hh, s) ← take_range 2 0 23 s;
  s ← take_char 58 s;
  '(mi, s) ← take_range 2 0 59 s;
  s ← take_char 58 s;
  '(se, s) ← take_range 2 0 59 s;
  let '(ns, s) := take_frac s in
  off ← parse_zone s;
  Some (days_of y m d * Day + (hh * 3600 + mi * 60 + se - off) * Second + ns).

Lemma take_range_pad k lo hi n rest :
  0 <= n < 10 ^ Z.of_nat k -> lo <= n <= hi ->
  take_range k lo hi (pad k n +:+ rest) = Some (n, rest).
Proof.
  intros Hn Hr. unfold take_range. rewrite take_pad by lia.
  rewrite Z.mod_small, Z.mul_0_l, Z.add_0_l by lia.
  assert (E : in_range lo hi n = true) by by apply in_range_spec. by rewrite E.
Qed.

Lemma take_char_cons b c s : byte_of c = b -> take_char b (String c s) = Some s.
Proof. intros <-. simpl. by rewrite Z.eqb_refl. Qed.

Lemma parse_frac_digits k n rest :
  0 <= n < 10 ^ Z.of_nat k ->
  (forall c r, rest = String c r -> digit_value c = None) ->
  parse_frac k (frac_digits k n +:+ rest) = (n, rest).
Proof.
  intros Hn Hrest. revert n Hn. induction k as [|k IH]; intros n Hn; cbn [frac_digits].
  - assert (n = 0) as -> by (simpl in Hn; lia). rewrite Z.eqb_refl, str_app_nil_l.
    destruct rest as [|c r]; [done|]. simpl. by rewrite (Hrest c r).
  - rewrite Nat2Z.inj_succ, Z.pow_succ_r in Hn by lia.
    set (p := 10 ^ Z.of_nat k) in *. assert (0 < p) by (apply Z.pow_pos_nonneg; lia).
    destruct (n =? 0) eqn:E.
    + apply Z.eqb_eq in E as ->. rewrite str_app_nil_l.
      destruct rest as [|c r]; [done|]. simpl. by rewrite (Hrest c r).
    + rewrite str_app_cons. cbn [parse_frac pred].
      assert (0 <= n / p < 10) by (split; [apply Z.div_pos; lia|apply Z.div_lt_upper_bound; lia]).
      rewrite digit_value_digit by done.
      rewrite IH by (apply Z.mod_pos_bound; lia). fold p.
      f_equal. rewrite (Z.div_mod n p) at 3 by lia. lia.
Qed.

Lemma take_frac_text ns rest :
  0 <= ns < Second ->
  (forall c r, rest = String c r -> digit_value c = None /\ byte_of c <> 46) ->
  take_frac (frac_text ns +:+ rest) = (ns, rest).
Proof.
  intros Hn Hrest. unfold frac_text. destruct (ns =? 0) eqn:E.
  - apply Z.eqb_eq in E as ->. rewrite str_app_nil_l. unfold take_frac.
    destruct rest as [|c [|d r]]; [done..|]. destruct (Hrest _ _ eq_refl) as [_ Hc].
    apply Z.eqb_neq in Hc. by rewrite Hc.
  - rewrite str_app_cons, str_app_nil_l.
    assert (Hp : parse_frac 9 (frac_digits 9 ns +:+ rest) = (ns, rest)).
    { apply parse_frac_digits; [done|]. intros c r Hr. by apply (Hrest c r). }
    unfold take_frac. destruct (frac_digits 9 ns) as [|c s] eqn:Ef.
    { cbn in Ef. by rewrite E in Ef. }
    change (String "." (String c s) +:+ rest) with (String "." (String c (s +:+ rest))).
    cbn iota beta. change (byte_of "." =? 46) with true.
    cbn [andb]. destruct (digit_value c) eqn:Ed; [exact Hp|]. clear Hp.
    exfalso. cbn [frac_digits] in Ef. rewrite E in Ef. injection Ef as <- _.
    rewrite digit_value_digit in Ed; [done|].
    split; [apply Z.div_pos; lia|apply Z.div_lt_upper_bound; [lia|]].
    unfold Second in Hn. simpl. lia.
Qed.

(** Reading back a marshalled instant gives the instant. *)
Lemma parse_rfc3339_nano t :
  0 <= year_of_instant t <= 9999 -> parse_rfc3339 (rfc3339_nano t) = Some t.
Proof.
  unfold year_of_instant, rfc3339_nano, seconds_text, parse_rfc3339. intros Hy.
  destruct (civil_of (days_part t)) as [[y m] d] eqn:Ec.
  destruct (civil_of_spec _ _ _ _ Ec) as [Hd [Hm Hdd]].
  assert (Hy0 : (year_of (days_part t)).1 = y).
  { unfold civil_of in Ec. destruct (year_of (days_part t)). by simplify_eq/=. }
  rewrite Hy0 in Hy. unfold year_text.
  assert (E1 : (y <? 0) = false) by lia. assert (E2 : (y <? 10000) = true) by lia.
  rewrite E1, E2. clear E1 E2.
  assert (Hml : month_length (is_leap y) m <= 31).
  { unfold month_length.
    assert (m = 1 \/ m = 2 \/ m = 3 \/ m = 4 \/ m = 5 \/ m = 6 \/ m = 7 \/ m = 8 \/ m = 9 \/
      m = 10 \/ m = 11 \/ m = 12) as Hc by lia.
    destruct (is_leap y); repeat (destruct Hc as [->|Hc]; [done|]); by subst m. }
  assert (Hs : 0 <= sec_part t < 86400).
  { unfold sec_part, Day, Hour, Minute, Second. Z.div_mod_to_equations; lia. }
  assert (Hn : 0 <= nsec_part t < Second) by (apply Z.mod_pos_bound; done).
  rewrite <- !str_app_assoc. rewrite take_range_pad by (simpl; lia). cbn [mbind option_bind].
  rewrite str_app_cons, take_char_cons, str_app_nil_l by done. cbn [mbind option_bind].
  rewrite take_range_pad by (simpl; lia). cbn [mbind option_bind].
  rewrite str_app_cons, take_char_cons, str_app_nil_l by done. cbn [mbind option_bind].
  rewrite take_range_pad by (simpl; lia). cbn [mbind option_bind].
  rewrite str_app_cons, take_char_cons, str_app_nil_l by done. cbn [mbind option_bind].
  unfold clock_text. rewrite <- !str_app_assoc.
  rewrite take_range_pad by (simpl; Z.div_mod_to_equations; lia). cbn [mbind option_bind].
  rewrite str_app_cons, take_char_cons, str_app_nil_l by done. cbn [mbind option_bind].
  rewrite take_range_pad by (simpl; Z.div_mod_to_equations; lia). cbn [mbind option_bind].
  rewrite str_app_cons, take_char_cons, str_app_nil_l by done. cbn [mbind option_bind].
  rewrite take_range_pad by (simpl; Z.div_mod_to_equations; lia). cbn [mbind option_bind].
  rewrite take_frac_text; [|done|intros c r Hr; by simplify_eq]. change (parse_zone "Z") with (Some 0).
  cbn [mbind option_bind]. f_equal. rewrite <- Hd. etrans; [|symmetry; apply parts_sum].
  do 3 f_equal. Z.div_mod_to_equations; lia.
Qed.
