(* ===== verification/Encoding.v ===== *)
(** * Go's digests and byte encodings

    What session keys are made with: crypto/sha256, encoding/hex and the unpadded
    URL alphabet of encoding/base64; its standard alphabet holds the entries of the
    vault. Bytes are numbers below 256; the digest is
    FIPS 180-4 on 32-bit words with their wrap-around written out. *)
From S2P Require Import Prelude GoStr.
Open Scope Z_scope.

Definition bytes_of (s : string) : list Z := map byte_of (String.list_ascii_of_string s).

Definition is_byte (b : Z) : bool := (0 <=? b) && (b <? 256).

(** ** Hexadecimal *)

(** The character at a position of an alphabet. *)
Definition char_at (alphabet : string) (i : Z) : ascii :=
  default "?"%char (String.get (Z.to_nat i) alphabet).

Definition hex_alphabet : string := "0123456789abcdef".

Fixpoint hex_encode (l : list Z) : string :=
  match l with
  | [] => ""
  | b :: l => String (char_at hex_alphabet (b / 16)) (String (char_at hex_alphabet (b mod 16)) (hex_encode l))
  end.

(** ** base64.RawURLEncoding *)

Definition url_alphabet : string :=
  "ABCDEFGHIJKLMNOPQRSTUVWXYZabcdefghijklmnopqrstuvwxyz0123456789-_".

Definition six (b : Z) : ascii := char_at url_alphabet (b mod 64).

Fixpoint raw_url_encode (l : list Z) : string :=
  match l with
  | a :: b :: c :: l =>
      String (six (a / 4)) (String (six (a * 16 + b / 16)) (String (six (b * 4 + c / 64))
        (String (six c) (raw_url_encode l))))
  | [a; b] => String (six (a / 4)) (String (six (a * 16 + b / 16)) (String (six (b * 4)) ""))
  | [a] => String (six (a / 4)) (String (six (a * 16)) "")
  | [] => ""
  end.

(** ** SHA-256 *)

Definition w32 (x : Z) : Z := x mod 2 ^ 32.
Definition rotr (n x : Z) : Z := Z.lor (Z.shiftr x n) (w32 (Z.shiftl x (32 - n))).

Definition Ch (x y z : Z) : Z := Z.lxor (Z.land x y) (Z.land (Z.lxor x (2 ^ 32 - 1)) z).
Definition Maj (x y z : Z) : Z := Z.lxor (Z.lxor (Z.land x y) (Z.land x z)) (Z.land y z).
Definition Sigma0 (x : Z) : Z := Z.lxor (Z.lxor (rotr 2 x) (rotr 13 x)) (rotr 22 x).
Definition Sigma1 (x : Z) : Z := Z.lxor (Z.lxor (rotr 6 x) (rotr 11 x)) (rotr 25 x).
Definition sigma0 (x : Z) : Z := Z.lxor (Z.lxor (rotr 7 x) (rotr 18 x)) (Z.shiftr x 3).
Definition sigma1 (x : Z) : Z := Z.lxor (Z.lxor (rotr 17 x) (rotr 19 x)) (Z.shiftr x 10).

(** The constants are the first 32 bits of the fractional parts of the cube
    roots (rounds) and square roots (initial value) of the first primes. *)
Definition is_prime (n : Z) : bool :=
  forallb (fun k => negb (n mod Z.of_nat k =? 0)) (seq 2 (Z.to_nat n - 2)).

Definition primes : list Z :=
  Eval vm_compute in List.filter is_prime (map Z.of_nat (seq 2 310)).

(** The cube root rounded down, bit by bit from bit [n - 1]. *)
Fixpoint cube_root (n : nat) (acc x : Z) : Z :=
  match n with
  | O => acc
  | S n =>
      let r := acc + 2 ^ Z.of_nat n in
      cube_root n (if r * r * r <=? x then r else acc) x
  end.

Definition round_constants : list Z :=
  Eval vm_compute in map (fun p => w32 (cube_root 36 0 (p * 2 ^ 96))) (take 64 primes).

Definition initial_hash : list Z :=
  Eval vm_compute in map (fun p => w32 (Z.sqrt (p * 2 ^ 64))) (take 8 primes).

(** A number as [n] big-endian bytes, and back. *)
Fixpoint big_endian (n : nat) (x : Z) : list Z :=
  match n with O => [] | S n => big_endian n (x / 256) ++ [x mod 256] end.

Definition of_big_endian (l : list Z) : Z := foldl (fun acc b => acc * 256 + b) 0 l.

(** The message, a one bit, zeros up to a block less eight bytes, its length. *)
Definition padded (l : list Z) : list Z :=
  let n := Z.of_nat (length l) in
  l ++ [128] ++ replicate (Z.to_nat ((55 - n) mod 64)) 0 ++ big_endian 8 (8 * n).

(** The schedule of a block, latest word first. *)
Definition next_word (ws : list Z) : Z :=
  w32 (sigma1 (nth 1 ws 0) + nth 6 ws 0 + sigma0 (nth 14 ws 0) + nth 15 ws 0).

Fixpoint extend (n : nat) (ws : list Z) : list Z :=
  match n with O => ws | S n => extend n (next_word ws :: ws) end.

Fixpoint words (n : nat) (l : list Z) : list Z :=
  match n with O => [] | S n => of_big_endian (take 4 l) :: words n (drop 4 l) end.

Definition schedule (block : list Z) : list Z := reverse (extend 48 (reverse (words 16 block))).

Definition sha_round (s : list Z) (kw : Z * Z) : list Z :=
  match s with
  | [a; b; c; d; e; f; g; h] =>
      let t1 := h + Sigma1 e + Ch e f g + kw.1 + kw.2 in
      let t2 := Sigma0 a + Maj a b c in
      [w32 (t1 + t2); a; b; c; w32 (d + t1); e; f; g]
  | _ => s
  end.

Definition compress (h block : list Z) : list Z :=
  zip_with (fun x y => w32 (x + y)) h (foldl sha_round h (zip round_constants (schedule block))).

Fixpoint digest_blocks (n : nat) (h l : list Z) : list Z :=
  match n with O => h | S n => digest_blocks n (compress h (take 64 l)) (drop 64 l) end.

(** [sha256.Sum256]. *)
Definition sum256 (l : list Z) : list Z :=
  let p := padded l in
  digest_blocks (length p / 64) initial_hash p ≫= big_endian 4.

Example sum256_empty :
  hex_encode (sum256 []) = "e3b0c44298fc1c149afbf4c8996fb92427ae41e4649b934ca495991b7852b855".
Proof. vm_compute. reflexivity. Qed.

Example sum256_abc :
  hex_encode (sum256 (bytes_of "abc")) =
    "ba7816bf8f01cfea414140de5dae2223b00361a396177a9cb410ff61f20015ad".
Proof. vm_compute. reflexivity. Qed.

Example sum256_two_blocks :
  hex_encode (sum256 (bytes_of "abcdbcdecdefdefgefghfghighijhijkijkljklmklmnlmnomnopnopq")) =
    "248d6a61d20638b8e5c026930c3e6039a33ce45964ff2167f6ecedd419db06c1".
Proof. vm_compute. reflexivity. Qed.

Example raw_url_sample :
  raw_url_encode (bytes_of "f") = "Zg" /\ raw_url_encode (bytes_of "fo") = "Zm8" /\
  raw_url_encode (bytes_of "foo") = "Zm9v" /\ raw_url_encode [251; 255] = "-_8".
Proof. vm_compute. repeat split. Qed.

(** ** Both encodings are injective *)

(** Distinct positions of an alphabet have distinct characters. *)
Definition alphabet_ok (alphabet : string) (n : nat) : bool :=
  forallb (fun i => forallb (fun j =>
    bool_decide (i = j) || negb (bool_decide (char_at alphabet (Z.of_nat i) = char_at alphabet (Z.of_nat j))))
    (seq 0 n)) (seq 0 n).

Lemma char_at_inj alphabet n x y :
  alphabet_ok alphabet n = true -> 0 <= x < Z.of_nat n -> 0 <= y < Z.of_nat n ->
  char_at alphabet x = char_at alphabet y -> x = y.
Proof.
  unfold alphabet_ok. intros Ha Hx Hy He. rewrite forallb_elem_of in Ha.
  specialize (Ha (Z.to_nat x)). rewrite elem_of_seq, forallb_elem_of in Ha.
  specialize (Ha ltac:(lia) (Z.to_nat y)). rewrite elem_of_seq in Ha. specialize (Ha ltac:(lia)).
  rewrite !Z2Nat.id in Ha by lia. apply orb_true_iff in Ha as [Ha|Ha]; bools; [lia|done].
Qed.

Lemma six_inj x y : six x = six y -> x mod 64 = y mod 64.
Proof.
  intros He. apply (char_at_inj url_alphabet 64); [by vm_compute| | |exact He];
    pose proof (Z.mod_pos_bound x 64); pose proof (Z.mod_pos_bound y 64); lia.
Qed.

Lemma hex_char_inj x y : 0 <= x < 16 -> 0 <= y < 16 ->
  char_at hex_alphabet x = char_at hex_alphabet y -> x = y.
Proof. intros. by apply (char_at_inj hex_alphabet 16); [vm_compute| | |]. Qed.

Definition bytes (l : list Z) : Prop := Forall (fun b => 0 <= b < 256) l.

Lemma bytes_cons b l : bytes (b :: l) <-> 0 <= b < 256 /\ bytes l.
Proof. unfold bytes. by rewrite Forall_cons. Qed.

Lemma hex_encode_inj l k : bytes l -> bytes k -> hex_encode l = hex_encode k -> l = k.
Proof.
  revert k. induction l as [|a l IH]; intros [|b k]; [done..|].
  rewrite !bytes_cons. intros [Ha Hl] [Hb Hk]. cbn [hex_encode]. intros [= H1 H2 H3].
  apply hex_char_inj in H1; [|Z.div_mod_to_equations; lia..].
  apply hex_char_inj in H2; [|Z.div_mod_to_equations; lia..].
  f_equal; [Z.div_mod_to_equations; lia|by apply IH].
Qed.

Lemma raw_url_encode_inj l k : bytes l -> bytes k -> length l = length k ->
  raw_url_encode l = raw_url_encode k -> l = k.
Proof.
  revert k. remember (length l) as n eqn:Hn. revert l Hn.
  induction (lt_wf n) as [n _ IH]. intros l Hn k Hl Hk Hlen He.
  destruct l as [|a1 [|a2 [|a3 l]]], k as [|b1 [|b2 [|b3 k]]]; simpl in Hn, Hlen; try lia; [done|..].
  - cbn [raw_url_encode] in He. injection He as H1 H2.
    apply bytes_cons in Hl as [? _], Hk as [? _].
    apply six_inj in H1, H2. f_equal. Z.div_mod_to_equations; lia.
  - cbn [raw_url_encode] in He. injection He as H1 H2 H3.
    apply bytes_cons in Hl as [? [? _]%bytes_cons], Hk as [? [? _]%bytes_cons].
    apply six_inj in H1, H2, H3.
    assert (a1 = b1) as -> by (Z.div_mod_to_equations; lia). do 2 f_equal. Z.div_mod_to_equations; lia.
  - cbn [raw_url_encode] in He. injection He as H1 H2 H3 H4 H5.
    apply bytes_cons in Hl as [? [? [? Hl]%bytes_cons]%bytes_cons].
    apply bytes_cons in Hk as [? [? [? Hk]%bytes_cons]%bytes_cons].
    apply six_inj in H1, H2, H3, H4.
    assert (a1 = b1) as -> by (Z.div_mod_to_equations; lia).
    assert (a2 = b2) as -> by (Z.div_mod_to_equations; lia).
    assert (a3 = b3) as -> by (Z.div_mod_to_equations; lia).
    do 3 f_equal. apply (IH (length l)); [lia|done|done|done|lia|done].
Qed.

Lemma raw_url_encode_nonempty b l : raw_url_encode (b :: l) <> "".
Proof. by destruct l as [|? [|]]. Qed.

(** ** base64.StdEncoding *)

Definition std_char (v : Z) : ascii :=
  of_byte (if v <? 26 then v + 65 else if v <? 52 then v + 71 else if v <? 62 then v - 4 else if v =? 62 then 43 else 47).

Definition std_value (c : ascii) : option Z :=
  let b := byte_of c in
  if in_range 65 90 b then Some (b - 65)
  else if in_range 97 122 b then Some (b - 71)
  else if in_range 48 57 b then Some (b + 4)
  else if b =? 43 then Some 62
  else if b =? 47 then Some 63
  else None.

Definition std_pad : ascii := of_byte 61.

Fixpoint std_encode (l : list Z) : string :=
  match l with
  | a :: b :: c :: l =>
      String (std_char (a / 4)) (String (std_char (a mod 4 * 16 + b / 16))
        (String (std_char (b mod 16 * 4 + c / 64)) (String (std_char (c mod 64)) (std_encode l))))
  | [a; b] =>
      String (std_char (a / 4)) (String (std_char (a mod 4 * 16 + b / 16)) (String (std_char (b mod 16 * 4)) (String std_pad "")))
  | [a] => String (std_char (a / 4)) (String (std_char (a mod 4 * 16)) (String std_pad (String std_pad "")))
  | [] => ""
  end.

(** Groups of four characters; padding ends the text, and the bits it leaves over
    are not looked at. *)
Fixpoint std_groups (s : string) : option (list Z) :=
  match s with
  | "" => Some []
  | String a (String b (String c (String d r))) =>
      va ← std_value a; vb ← std_value b;
      let first := va * 4 + vb / 16 in
      if c ==? std_pad then if (d ==? std_pad) && (r ==? "") then Some [first] else None
      else
        vc ← std_value c;
        let second := vb mod 16 * 16 + vc / 4 in
        if d ==? std_pad then if r ==? "" then Some [first; second] else None
        else vd ← std_value d; rest ← std_groups r; Some (first :: second :: vc mod 4 * 64 + vd :: rest)
  | _ => None
  end.

Definition line_break (c : ascii) : bool := (byte_of c =? 10) || (byte_of c =? 13).

(** Line breaks are ignored wherever they are. *)
Definition std_decode (s : string) : option (list Z) := std_groups (str_filter (fun c => negb (line_break c)) s).

Definition string_of (l : list Z) : string := String.string_of_list_ascii (map of_byte l).

Lemma string_of_bytes s : string_of (bytes_of s) = s.
Proof. unfold string_of, bytes_of. induction s as [|c s IH]; [done|]. cbn. by rewrite of_byte_of, IH. Qed.

Lemma bytes_of_bytes s : bytes (bytes_of s).
Proof. unfold bytes, bytes_of. induction s as [|c s IH]; [by constructor|]. constructor; [apply byte_of_range|exact IH]. Qed.

(** The characters of the alphabet, one by one. *)
Lemma std_char_ok v : 0 <= v < 64 ->
  std_value (std_char v) = Some v /\ (std_char v ==? std_pad) = false /\ line_break (std_char v) = false.
Proof.
  intros Hv. assert (forallb (fun n => let v := Z.of_nat n in
    (match std_value (std_char v) with Some w => w =? v | None => false end) && negb (std_char v ==? std_pad) &&
    negb (line_break (std_char v))) (seq 0 64) = true) as Hall by by vm_compute.
  rewrite forallb_forall in Hall. specialize (Hall (Z.to_nat v)). rewrite Z2Nat.id in Hall by lia.
  cbn beta zeta in Hall. destruct (andb_prop _ _ (Hall ltac:(apply in_seq; lia))) as [H1 H2].
  apply andb_prop in H1 as [H1 H3]. destruct (std_value (std_char v)); [|done]. apply Z.eqb_eq in H1 as ->.
  split_and!; [done|by apply negb_true_iff|by apply negb_true_iff].
Qed.

Lemma std_encode_clean l : bytes l -> str_filter (fun c => negb (line_break c)) (std_encode l) = std_encode l.
Proof.
  assert (line_break std_pad = false) as Hp by by vm_compute.
  assert (forall v, 0 <= v < 64 -> line_break (std_char v) = false) as Hc by (intros; by apply std_char_ok).
  revert l. fix IH 1. intros [|a [|b [|c l]]]; rewrite ?bytes_cons; cbn [std_encode str_filter]; [done| | |];
    intros Hl; rewrite ?Hp; rewrite ?Hc by (Z.div_mod_to_equations; lia); cbn [negb]; [done..|].
  do 4 f_equal. apply IH. tauto.
Qed.

Lemma std_groups_encode l : bytes l -> std_groups (std_encode l) = Some l.
Proof.
  assert (forall v, 0 <= v < 64 -> std_value (std_char v) = Some v) as Hv by (intros; by apply std_char_ok).
  assert (forall v, 0 <= v < 64 -> (std_char v ==? std_pad) = false) as Hn by (intros; by apply std_char_ok).
  assert ((std_pad ==? std_pad) = true) as Hp by by apply bool_decide_true.
  revert l. fix IH 1. intros [|a [|b [|c l]]]; rewrite ?bytes_cons; cbn [std_encode std_groups]; [done| | |];
    intros Hl; rewrite ?Hv by (Z.div_mod_to_equations; lia); cbn [mbind option_bind].
  - rewrite Hp. cbn. do 2 f_equal. Z.div_mod_to_equations; lia.
  - rewrite Hn by (Z.div_mod_to_equations; lia). rewrite Hp. cbn. repeat f_equal; Z.div_mod_to_equations; lia.
  - rewrite !Hn by (Z.div_mod_to_equations; lia). rewrite IH by tauto. cbn. repeat f_equal; Z.div_mod_to_equations; lia.
Qed.

(** Decoding gives back the bytes that were encoded. *)
Lemma std_decode_encode l : bytes l -> std_decode (std_encode l) = Some l.
Proof.
  intros Hl. unfold std_decode. rewrite std_encode_clean by done. by apply std_groups_encode.
Qed.

Example std_samples :
  std_encode (bytes_of "any carnal pleas") = "YW55IGNhcm5hbCBwbGVhcw==" /\
  std_decode "YW55IGNhcm5hbCBwbGVhcw==" = Some (bytes_of "any carnal pleas") /\
  std_decode "YQ=" = None /\ std_decode "YQ==YQ==" = None /\ std_decode "Y*==" = None.
Proof. by split_and!; vm_compute. Qed.

Lemma std_encode_ascii l : bytes l -> str_exists (fun c => negb (byte_of c <? 128)) (std_encode l) = false.
Proof.
  assert (forall v, 0 <= v < 64 -> (byte_of (std_char v) <? 128) = true) as Hc.
  { intros v Hv. unfold std_char. rewrite byte_of_of; repeat case_match; bools; lia. }
  revert l. fix IH 1. intros [|a [|b [|c l]]]; rewrite ?bytes_cons; cbn [std_encode str_exists]; [done| | |];
    intros Hl; rewrite ?Hc by (Z.div_mod_to_equations; lia); cbn [negb orb]; [done..|]. apply IH. tauto.
Qed.
