(* ===== verification/FilePath.v ===== *)
(** * Go's path/filepath on Unix

    [Clean] and [IsAbs], segment by segment: the byte loop of [Clean] writes a
    stack of segments, from which ".." takes the last one back. *)
From S2P Require Import Prelude GoStr.

Definition slash : ascii := "/"%char.

Definition IsAbs (path : string) : bool := has_prefix path "/".

(** One segment, on the segments written so far, last one first. A ".." with
    nothing to take back is dropped below the root and kept in a relative path. *)
Definition clean_segment (rooted : bool) (written : list string) (segment : string) : list string :=
  if (segment ==? "") || (segment ==? ".") then written
  else if segment ==? ".." then
    match written with
    | last :: rest => if last ==? ".." then segment :: written else rest
    | [] => if rooted then [] else [segment]
    end
  else segment :: written.

Definition clean_segments (rooted : bool) (path : string) : list string :=
  reverse (foldl (clean_segment rooted) [] (split_on slash path)).

Definition unsplit (rooted : bool) (segments : list string) : string :=
  if rooted then "/" +:+ join "/" segments
  else match segments with [] => "." | _ => join "/" segments end.

Definition Clean (path : string) : string := unsplit (IsAbs path) (clean_segments (IsAbs path) path).

Example clean_samples :
  map Clean [""; "/"; "a/./b"; "/a//b/../c/"; "/../x"; "../../a/.."; "/a/b/../.."; "a/.."]
  = ["."; "/"; "a/b"; "/a/c"; "/x"; "../.."; "/"; "."].
Proof. reflexivity. Qed.

(** ** Splitting undoes joining *)

Definition no_slash (s : string) : bool := negb (str_exists (fun c => c ==? slash) s).

Lemma split_on_no_slash s : forallb no_slash (split_on slash s) = true.
Proof.
  induction s as [|c s IH]; [done|]. cbn [split_on]. destruct (c ==? slash) eqn:Hc; [done|].
  destruct (split_on slash s) as [|w rest]; cbn in *.
  - unfold no_slash. simpl. by rewrite Hc.
  - apply andb_true_iff in IH as [Hw Hr]. apply andb_true_iff. split; [|done].
    unfold no_slash in *. simpl. by rewrite Hc.
Qed.

Lemma split_join_path segments :
  segments <> [] -> forallb no_slash segments = true -> split_on slash (join "/" segments) = segments.
Proof.
  intros Hn Hs. apply split_join; [done|]. intros w Hw. rewrite forallb_elem_of in Hs.
  by apply negb_true_iff, Hs.
Qed.

(** ** Clean paths *)

(** A stack the segments of a clean path give, last one first: names, above
    which only a relative path has leading ".."s. *)
Definition name (s : string) : bool :=
  no_slash s && (s !=? "") && (s !=? ".") && (s !=? "..").

Fixpoint settled (rooted : bool) (written : list string) : bool :=
  match written with
  | [] => true
  | s :: rest =>
      if s ==? ".." then negb rooted && forallb (fun x => x ==? "..") rest
      else name s && settled rooted rest
  end.

Lemma clean_segment_settled rooted written s :
  settled rooted written = true -> no_slash s = true ->
  settled rooted (clean_segment rooted written s) = true.
Proof.
  intros Hw Hs. unfold clean_segment. destruct ((s ==? "") || (s ==? ".")) eqn:E1; [done|].
  destruct (s ==? "..") eqn:E2; bools.
  - subst s. destruct written as [|l rest]; [by destruct rooted|]. cbn [settled] in *.
    destruct (l ==? "..") eqn:El; [|by bools].
    cbn. by rewrite El.
  - cbn [settled]. rewrite bool_decide_eq_false_2 by done. unfold name.
    rewrite Hs, !bool_decide_eq_false_2 by done. done.
Qed.

Lemma clean_settled rooted l written :
  settled rooted written = true -> forallb no_slash l = true ->
  settled rooted (foldl (clean_segment rooted) written l) = true.
Proof.
  revert written. induction l as [|s l IH]; intros written Hw Hl; [done|]. cbn in *. bools.
  by apply IH; [apply clean_segment_settled|].
Qed.

Lemma settled_step rooted s written :
  settled rooted (s :: written) = true ->
  settled rooted written = true /\ clean_segment rooted written s = s :: written /\ no_slash s = true /\ s <> "".
Proof.
  cbn [settled]. unfold clean_segment. destruct (s ==? "..") eqn:E; intros H; bools.
  - subst s. destruct rooted; [done|].
    destruct written as [|l rest]; [done|]. cbn [forallb] in *. bools. subst l.
    split; [cbn; by apply forallb_true_iff || done|]. done.
  - unfold name in *. bools. rewrite !bool_decide_eq_false_2 by done. done.
Qed.

(** Cleaning a clean stack writes it again. *)
Lemma clean_again rooted written :
  settled rooted written = true -> foldl (clean_segment rooted) [] (reverse written) = written.
Proof.
  induction written as [|s written IH]; [done|]. intros H.
  destruct (settled_step _ _ _ H) as (Hw & Hs & _). rewrite reverse_cons, foldl_app, IH by done.
  exact Hs.
Qed.

Lemma settled_no_slash rooted written :
  settled rooted written = true -> forallb no_slash written = true /\ "" ∉ written.
Proof.
  induction written as [|s written IH]; intros H; [split; [done|apply not_elem_of_nil]|].
  destruct (settled_step _ _ _ H) as (Hw & _ & Hs & Hn). destruct (IH Hw). cbn.
  rewrite Hs. split; [done|]. by apply not_elem_of_cons.
Qed.

Lemma clean_segments_settled rooted path : settled rooted (reverse (clean_segments rooted path)) = true.
Proof.
  unfold clean_segments. rewrite reverse_involutive. apply clean_settled; [done|].
  apply split_on_no_slash.
Qed.

Lemma clean_segments_unsplit rooted written :
  settled rooted written = true ->
  IsAbs (unsplit rooted (reverse written)) = rooted /\
  clean_segments rooted (unsplit rooted (reverse written)) = reverse written.
Proof.
  intros H. destruct (settled_no_slash _ _ H) as [Hf Hne].
  assert (Hr : forallb no_slash (reverse written) = true).
  { apply forallb_elem_of. intros x Hx. rewrite forallb_elem_of in Hf. apply Hf.
    by apply elem_of_reverse. }
  pose proof (clean_again _ _ H) as Ha. rewrite <- elem_of_reverse in Hne.
  unfold clean_segments, unsplit, IsAbs, has_prefix.
  destruct (reverse written) as [|s l] eqn:E.
  { destruct rooted; split; reflexivity. }
  destruct rooted.
  - split; [apply prefix_refl_app|]. change ("/" +:+ ?x) with (String slash x). cbn [split_on].
    rewrite bool_decide_eq_true_2 by done. rewrite split_join_path by done. cbn [foldl].
    change (clean_segment true [] "") with (@nil string). cbn [foldl] in Ha. by rewrite Ha, E.
  - rewrite split_join_path by done. split; [|by rewrite Ha, E].
    cbn [forallb] in Hr. apply andb_true_iff in Hr as [Hs _].
    apply not_elem_of_cons in Hne as [Hs0 _].
    destruct s as [|c s]; [done|]. unfold no_slash in Hs. cbn in Hs.
    assert (exists r, join "/" (String c s :: l) = String c r) as [r ->].
    { destruct l; [by exists s|]. cbn. eexists. by rewrite str_app_cons. }
    cbn [String.prefix]. destruct (ascii_dec "/" c) as [<-|]; [|done].
    by rewrite bool_decide_eq_true_2 in Hs.
Qed.

(** Cleaning twice is cleaning once, and does not change whether a path is
    absolute. *)
Lemma Clean_IsAbs path : IsAbs (Clean path) = IsAbs path.
Proof.
  unfold Clean. rewrite <- (reverse_involutive (clean_segments _ _)).
  by apply clean_segments_unsplit, clean_segments_settled.
Qed.

Lemma Clean_idem path : Clean (Clean path) = Clean path.
Proof.
  unfold Clean at 1. rewrite Clean_IsAbs. unfold Clean.
  pose proof (clean_segments_unsplit _ _ (clean_segments_settled (IsAbs path) path)) as [_ E].
  rewrite reverse_involutive in E. by rewrite E.
Qed.

(** An absolute clean path is the root or names below it. *)
Lemma Clean_absolute path :
  IsAbs path = true ->
  exists names, Clean path = "/" +:+ join "/" names /\ forallb name names = true.
Proof.
  intros H. exists (clean_segments true path). unfold Clean. rewrite H. split; [done|].
  pose proof (clean_segments_settled true path) as Hs. apply forallb_elem_of. intros x Hx.
  apply elem_of_reverse in Hx. induction (reverse (clean_segments true path)) as [|s l IH].
  { by apply not_elem_of_nil in Hx. }
  cbn [settled] in Hs. destruct (s ==? ".."); [done|]. bools.
  apply elem_of_cons in Hx as [->|Hx]; auto.
Qed.
