(* ===== verification/Url.v ===== *)
(** * net/url: what the program uses of it

    [Parse], [String_], [Query] and [Values.Encode] of Go's package net/url, on
    byte strings. What a host in square brackets is - an address of net/netip -
    is a parameter. *)
From S2P Require Import Prelude GoStr.
Open Scope Z_scope.

Class Addresses := {
  (** What [parseHost] makes of a host with a bracket; [None] when it is refused. *)
  ip_literal : string -> option string;
}.

(** No address in brackets: enough to evaluate examples. *)
Definition no_addresses : Addresses := {| ip_literal := fun _ => None |}.

(** ** Escaping *)

Inductive encoding :=
| encodePath
| encodeHost
| encodeUserPassword
| encodeQueryComponent
| encodeFragment.

Definition alphanumeric (c : ascii) : bool :=
  let b := byte_of c in is_lower_ascii b || is_upper_ascii b || in_range 48 57 b.

Definition shouldEscape (c : ascii) (mode : encoding) : bool :=
  if alphanumeric c then false
  else if ascii_in "-_.~" c then false
  else match mode with
  | encodeHost => negb (ascii_in "!$&'()*+,;=:[]<>" c || (byte_of c =? 34))
  | encodePath => if ascii_in "$&+,/:;=@" c then false else true
  | encodeUserPassword => if ascii_in "$&+,;=" c then false else true
  | encodeQueryComponent => true
  | encodeFragment => if ascii_in "$&+,/:;=?@!()*" c then false else true
  end.

Definition hex_digit (n : Z) : ascii := of_byte (if n <? 10 then 48 + n else 55 + n).

Definition unhex (c : ascii) : option Z :=
  let b := byte_of c in
  if in_range 48 57 b then Some (b - 48)
  else if in_range 97 102 b then Some (b - 87)
  else if in_range 65 70 b then Some (b - 55)
  else None.

Fixpoint escape (s : string) (mode : encoding) : string :=
  match s with
  | "" => ""
  | String c r =>
      if shouldEscape c mode then
        match mode, (byte_of c =? 32)%Z with
        | encodeQueryComponent, true => String "+"%char (escape r mode)
        | _, _ => String "%"%char (String (hex_digit (byte_of c / 16)%Z)
                    (String (hex_digit (byte_of c mod 16)%Z) (escape r mode)))
        end
      else String c (escape r mode)
  end.

(** [None] is an error: a percent sign without two hexadecimal digits, or in a
    host an escaped ASCII byte other than the percent sign or a byte that is not
    allowed there. *)
Fixpoint unescape (s : string) (mode : encoding) : option string :=
  match s with
  | "" => Some ""
  | String c r =>
      if c ==? "%"%char then
        match r with
        | String h (String l rest) =>
            match unhex h, unhex l with
            | Some a, Some b =>
                let refused := match mode with
                  | encodeHost => (a <? 8) && negb ((a =? 2) && (b =? 5))
                  | _ => false end in
                if refused then None
                else String (of_byte (16 * a + b)) <$> unescape rest mode
            | _, _ => None
            end
        | _ => None
        end
      else
        let decoded := match mode with
          | encodeQueryComponent => Some (if c ==? "+"%char then " "%char else c)
          | encodeHost => if (byte_of c <? 128) && shouldEscape c mode then None else Some c
          | _ => Some c end in
        match decoded with Some d => String d <$> unescape r mode | None => None end
  end.

(** [validEncoded]: an encoding of the given kind that may be left as it is. *)
Definition validEncoded (s : string) (mode : encoding) : bool :=
  negb (str_exists (fun c => negb (ascii_in "!$&'()*+,;=:@[]%" c) && shouldEscape c mode) s).

(** ** Cutting *)

(** [strings.Cut] at a byte. *)
Fixpoint cut (sep : ascii) (s : string) : string * string * bool :=
  match s with
  | "" => ("", "", false)
  | String c r =>
      if c ==? sep then ("", r, true)
      else let '(before, after, found) := cut sep r in (String c before, after, found)
  end.

(** The same at the last occurrence. *)
Definition cut_last (sep : ascii) (s : string) : option (string * string) :=
  let '(after, before, found) := cut sep (String.rev s) in
  if found : bool then Some (String.rev before, String.rev after) else None.

Definition count (sep : ascii) (s : string) : Z := Z.of_nat (String.length (str_filter (fun c => c ==? sep) s)).

Definition has_byte (c : ascii) (s : string) : bool := str_exists (fun d => d ==? c) s.

(** ** URLs *)

Record Userinfo := { username : string; password : option string }.

Record URL := {
  Scheme : string;
  Opaque_ : string;
  User : option Userinfo;
  Host : string;
  Path : string;
  RawPath : string;
  OmitHost : bool;
  ForceQuery : bool;
  RawQuery : string;
  Fragment : string;
  RawFragment : string;
}.

Definition with_raw_query (u : URL) (query : string) : URL :=
  {| Scheme := Scheme u; Opaque_ := Opaque_ u; User := User u; Host := Host u; Path := Path u;
     RawPath := RawPath u; OmitHost := OmitHost u; ForceQuery := ForceQuery u; RawQuery := query;
     Fragment := Fragment u; RawFragment := RawFragment u |}.

Definition with_path (u : URL) (path : string) : URL :=
  {| Scheme := Scheme u; Opaque_ := Opaque_ u; User := User u; Host := Host u; Path := path;
     RawPath := RawPath u; OmitHost := OmitHost u; ForceQuery := ForceQuery u;
     RawQuery := RawQuery u; Fragment := Fragment u; RawFragment := RawFragment u |}.

(** Without a scheme the whole text is the rest; [None] is a text that starts
    with a colon. *)
Fixpoint getScheme_from (first : bool) (s whole : string) (seen : string) : option (string * string) :=
  match s with
  | "" => Some ("", whole)
  | String c r =>
      let b := byte_of c in
      if is_lower_ascii b || is_upper_ascii b then getScheme_from false r whole (seen +:+ String c "")
      else if in_range 48 57 b || ascii_in "+-." c then
        if first then Some ("", whole) else getScheme_from false r whole (seen +:+ String c "")
      else if c ==? ":"%char then if first then None else Some (seen, r)
      else Some ("", whole)
  end.

Definition getScheme (s : string) : option (string * string) := getScheme_from true s s "".

(** The bytes of a scheme are ASCII, so [strings.ToLower] is this. *)
Fixpoint lower_ascii (s : string) : string :=
  match s with
  | "" => ""
  | String c r => String (if is_upper_ascii (byte_of c) then of_byte (byte_of c + 32) else c) (lower_ascii r)
  end.

Definition validOptionalPort (port : string) : bool :=
  match port with
  | "" => true
  | String c r => (c ==? ":"%char) && negb (str_exists (fun d => negb (in_range 48 57 (byte_of d))) r)
  end.

(** The bytes of [validUserinfo]; those outside ASCII are refused. *)
Definition validUserinfo (s : string) : bool :=
  negb (str_exists (fun c => negb (alphanumeric c || ascii_in "-._:~!$&'()*+,;=%@" c)) s).

Section parsing.
Context `{Addresses}.

Definition parseHost (host : string) : option string :=
  if has_byte "[" host then ip_literal host
  else
    let port_ok := match cut_last ":" host with
      | Some (_, port) => validOptionalPort (String ":" port)
      | None => true end in
    if port_ok then unescape host encodeHost else None.

Definition parseUserinfo (s : string) : option Userinfo :=
  if negb (validUserinfo s) then None
  else
    let '(name, secret, found) := cut ":" s in
    name ← unescape name encodeUserPassword;
    if found : bool then
      secret ← unescape secret encodeUserPassword;
      Some {| username := name; password := Some secret |}
    else Some {| username := name; password := None |}.

Definition parseAuthority (authority : string) : option (option Userinfo * string) :=
  match cut_last "@" authority with
  | None => host ← parseHost authority; Some (None, host)
  | Some (user, host) =>
      host ← parseHost host; user ← parseUserinfo user; Some (Some user, host)
  end.

(** [setPath] and [setFragment]: the decoded text, and the text as given when it
    is not the default encoding. *)
Definition decoded_pair (s : string) (mode : encoding) : option (string * string) :=
  decoded ← unescape s mode;
  Some (decoded, if escape decoded mode ==? s then "" else s).

Definition control (c : ascii) : bool := (byte_of c <? 32) || (byte_of c =? 127).

Definition has_authority (rest : string) : bool := has_prefix rest "//".

(** [parse] without [viaRequest], which does not cut the fragment. *)
Definition parse_rest (scheme rest : string) (force : bool) (query : string) : option URL :=
  let url user host omit path raw := {| Scheme := scheme; Opaque_ := ""; User := user; Host := host;
    Path := path; RawPath := raw; OmitHost := omit; ForceQuery := force; RawQuery := query;
    Fragment := ""; RawFragment := "" |} in
  if negb (has_prefix rest "/") && (scheme !=? "") then
    Some {| Scheme := scheme; Opaque_ := rest; User := None; Host := ""; Path := ""; RawPath := "";
      OmitHost := false; ForceQuery := force; RawQuery := query; Fragment := ""; RawFragment := "" |}
  else if negb (has_prefix rest "/") && has_byte ":" (cut "/" rest).1.1 then None
  else if has_prefix rest "//" && ((scheme !=? "") || negb (has_prefix rest "///")) then
    let '(authority, path, found) := cut "/" (drop_str 2 rest) in
    '(user, host) ← parseAuthority authority;
    '(path, raw) ← decoded_pair (if found : bool then String "/" path else "") encodePath;
    Some (url user host false path raw)
  else
    '(path, raw) ← decoded_pair rest encodePath;
    Some (url None "" ((scheme !=? "") && has_prefix rest "/") path raw).

Definition parse (s : string) : option URL :=
  if str_exists control s then None
  else if s ==? "*" then
    Some {| Scheme := ""; Opaque_ := ""; User := None; Host := ""; Path := "*"; RawPath := "";
      OmitHost := false; ForceQuery := false; RawQuery := ""; Fragment := ""; RawFragment := "" |}
  else
    '(scheme, rest) ← getScheme s;
    let '(before, query, found) := cut "?" rest in
    let force := found && (query ==? "") in
    parse_rest (lower_ascii scheme) before force query.

Definition Parse (s : string) : option URL :=
  let '(before, fragment, _) := cut "#" s in
  url ← parse before;
  if fragment ==? "" then Some url
  else
    '(decoded, raw) ← decoded_pair fragment encodeFragment;
    Some {| Scheme := Scheme url; Opaque_ := Opaque_ url; User := User url; Host := Host url;
      Path := Path url; RawPath := RawPath url; OmitHost := OmitHost url;
      ForceQuery := ForceQuery url; RawQuery := RawQuery url; Fragment := decoded;
      RawFragment := raw |}.
End parsing.

(** ** Printing *)

(** [EscapedPath] and [EscapedFragment]. *)
Definition escaped (decoded raw : string) (mode : encoding) : string :=
  if (raw !=? "") && validEncoded raw mode && bool_decide (unescape raw mode = Some decoded) then raw
  else escape decoded mode.

Definition EscapedPath (u : URL) : string :=
  if (RawPath u ==? "") && (Path u ==? "*") then "*" else escaped (Path u) (RawPath u) encodePath.

Definition user_text (u : Userinfo) : string :=
  escape (username u) encodeUserPassword +:+
  match password u with Some p => ":" +:+ escape p encodeUserPassword | None => "" end.

Definition authority_text (u : URL) : string :=
  if ((Scheme u !=? "") || (Host u !=? "") || bool_decide (is_Some (User u))) &&
     negb (OmitHost u && (Host u ==? "") && bool_decide (User u = None)) then
    (if (Host u !=? "") || (Path u !=? "") || bool_decide (is_Some (User u)) then "//" else "") +:+
    match User u with Some user => user_text user +:+ "@" | None => "" end +:+
    escape (Host u) encodeHost
  else "".

Definition path_text (before : string) (u : URL) : string :=
  let path := EscapedPath u in
  (if (path !=? "") && negb (has_prefix path "/") && (Host u !=? "") then "/" else
   if (before ==? "") && has_byte ":" (cut "/" path).1.1 then "./" else "") +:+ path.

(** Everything before the query. *)
Definition head_text (u : URL) : string :=
  let scheme := if Scheme u !=? "" then Scheme u +:+ ":" else "" in
  if Opaque_ u !=? "" then scheme +:+ Opaque_ u
  else let before := scheme +:+ authority_text u in before +:+ path_text before u.

Definition query_text (u : URL) : string :=
  if ForceQuery u || (RawQuery u !=? "") then "?" +:+ RawQuery u else "".

Definition fragment_text (u : URL) : string :=
  if Fragment u !=? "" then "#" +:+ escaped (Fragment u) (RawFragment u) encodeFragment else "".

Definition String_ (u : URL) : string := head_text u +:+ query_text u +:+ fragment_text u.

(** ** Queries *)

Definition maxQueryParams : Z := 10000.

(** One setting of a query: [None] where [parseQuery] skips it. *)
Definition setting (s : string) : option (string * string) :=
  if has_byte ";" s || (s ==? "") then None
  else
    let '(key, value, _) := cut "=" s in
    key ← unescape key encodeQueryComponent;
    value ← unescape value encodeQueryComponent;
    Some (key, value).

(** [Query], as the list of its settings. *)
Definition Query (u : URL) : list (string * string) :=
  if maxQueryParams <? count "&" (RawQuery u) + 1 then []
  else omap setting (split_on "&" (RawQuery u)).

(** [Values.Encode] of settings sorted by key. *)
Definition Encode (values : list (string * list string)) : string :=
  join "&" (flat_map (fun kv => map (fun v =>
    escape kv.1 encodeQueryComponent +:+ "=" +:+ escape v encodeQueryComponent) kv.2) values).

Example url_samples :
  let p s := match @Parse no_addresses s with Some u => Some (Host u, Path u, RawQuery u, String_ u) | None => None end in
  p "HTTPS://u:p@api.github.com:443/a%2Fb/c?x=1&token=2#f" =
    Some ("api.github.com:443", "/a/b/c", "x=1&token=2", "https://u:p@api.github.com:443/a%2Fb/c?x=1&token=2#f") /\
  p "https://h/%zz?token=1" = None /\ p "//h/p?" = Some ("h", "/p", "", "//h/p?") /\
  p "mailto:a?b=c" = Some ("", "", "b=c", "mailto:a?b=c") /\ p "a b/c" = Some ("", "a b/c", "", "a%20b/c") /\
  p "a:b" = Some ("", "", "", "a:b") /\ p "1:b" = None /\ p ":b" = None /\ p "http://h:x/" = None.
Proof. by split_and!; vm_compute. Qed.

(** ** A URL without its query *)

Definition all (p : ascii -> bool) (s : string) : bool := negb (str_exists (fun c => negb (p c)) s).

Lemma all_cons p c s : all p (String c s) = p c && all p s.
Proof. unfold all. simpl. by rewrite negb_orb, negb_involutive. Qed.

Lemma all_app p s t : all p (s +:+ t) = all p s && all p t.
Proof. induction s as [|c s IH]; [done|]. rewrite str_app_cons, !all_cons, IH. apply andb_assoc. Qed.

Lemma all_impl (p q : ascii -> bool) s : (forall c, p c = true -> q c = true) -> all p s = true -> all q s = true.
Proof. intros Hpq. induction s as [|c s IH]; [done|]. rewrite !all_cons. intros ?. bools. auto using andb_true_intro. Qed.

Definition low (c : ascii) : bool := byte_of c <? 128.
(** ASCII, and no question mark. *)
Definition plain (c : ascii) : bool := low c && negb (c ==? "?"%char).

Ltac every_byte c := destruct c as [[] [] [] [] [] [] [] []].

Definition kept (mode : encoding) : ascii -> bool := match mode with encodeFragment => low | _ => plain end.

Lemma kept_low mode c : kept mode c = true -> low c = true.
Proof. destruct mode; [..|done]; unfold kept, plain; by intros [? _]%andb_true_iff. Qed.

Lemma shouldEscape_kept mode c : shouldEscape c mode || kept mode c = true.
Proof. every_byte c; by destruct mode. Qed.

Lemma hex_kept mode c :
  kept mode (hex_digit (byte_of c / 16)) && kept mode (hex_digit (byte_of c mod 16)) = true.
Proof. every_byte c; by destruct mode. Qed.

Lemma escape_kept s mode : all (kept mode) (escape s mode) = true.
Proof.
  induction s as [|c s IH]; [done|]. cbn [escape]. pose proof (shouldEscape_kept mode c) as Hk.
  pose proof (hex_kept mode c) as Hh. destruct (shouldEscape c mode); [|by rewrite all_cons, IH, andb_true_r].
  assert (all (kept mode) (String "%"%char (String (hex_digit (byte_of c / 16)%Z)
    (String (hex_digit (byte_of c mod 16)%Z) (escape s mode)))) = true).
  { rewrite !all_cons, IH, andb_true_r, Hh. by destruct mode. }
  destruct mode; try done. destruct (byte_of c =? 32)%Z; [|done]. by rewrite all_cons, IH.
Qed.

Lemma validEncoded_kept s mode : validEncoded s mode = true -> all (kept mode) s = true.
Proof.
  induction s as [|c s IH]; [done|]. unfold validEncoded. cbn [str_exists].
  rewrite negb_orb, all_cons. intros [Hc Hs]%andb_true_iff. rewrite IH by done. rewrite andb_true_r.
  revert Hc. every_byte c; by destruct mode.
Qed.

Lemma escaped_kept decoded raw mode : all (kept mode) (escaped decoded raw mode) = true.
Proof.
  unfold escaped. destruct (_ && _) eqn:E; [|apply escape_kept]. bools. by apply validEncoded_kept.
Qed.

(** Valid text without a question mark. *)
Definition unasked (s : string) : Prop := has_byte "?" s = false /\ valid_utf8 s = true.

Lemma has_byte_app c s t : has_byte c (s +:+ t) = has_byte c s || has_byte c t.
Proof. unfold has_byte. induction s as [|d s IH]; [done|]. rewrite str_app_cons. simpl. by rewrite IH, orb_assoc. Qed.

Lemma unasked_app s t : unasked s -> unasked t -> unasked (s +:+ t).
Proof. intros [H1 H2] [H3 H4]. split; [by rewrite has_byte_app, H1|by apply valid_utf8_app_2]. Qed.

Lemma low_valid s : all low s = true -> valid_utf8 s = true.
Proof. intros Hs. apply valid_utf8_ascii. by apply negb_true_iff in Hs. Qed.

Lemma plain_unasked s : all plain s = true -> unasked s.
Proof.
  intros Hs. split; [|apply low_valid; by apply (all_impl plain low s (kept_low encodePath))].
  induction s as [|c s IH]; [done|]. rewrite all_cons in Hs. bools. unfold has_byte in *. simpl.
  rewrite IH by done. rewrite orb_false_r. unfold plain in *. bools. by apply bool_decide_eq_false_2.
Qed.

Lemma cut_spec sep s a b f :
  cut sep s = (a, b, f) ->
  has_byte sep a = false /\ if f then s = a +:+ String sep b else s = a /\ b = "".
Proof.
  revert a b f. induction s as [|c s IH]; intros a b f; cbn [cut]; [by intros [= <- <- <-]|].
  destruct (c ==? sep) eqn:Hc.
  { apply bool_decide_eq_true in Hc as ->. intros [= <- <- <-]. by split. }
  destruct (cut sep s) as [[a' b'] f'] eqn:E. intros [= <- <- <-].
  destruct (IH _ _ _ eq_refl) as [Ha Hf]. split; [unfold has_byte in *; simpl; by rewrite Hc|].
  destruct f'; [by rewrite Hf|]. by destruct Hf as [-> ->].
Qed.

Lemma cut_absent sep s : has_byte sep s = false -> cut sep s = (s, "", false).
Proof.
  induction s as [|c s IH]; [done|]. unfold has_byte in *. simpl. intros [Hc Hs]%orb_false_iff.
  by rewrite Hc, IH.
Qed.

Lemma contains_byte s c : contains s (String c "") = has_byte c s.
Proof.
  unfold has_byte. induction s as [|d s IH]; [done|]. cbn [contains str_exists String.prefix]. rewrite IH.
  destruct (Ascii.ascii_dec c d) as [->|Hn]; [by rewrite bool_decide_eq_true_2; destruct s|].
  by rewrite bool_decide_eq_false_2 by congruence.
Qed.

(** A scheme is letters, digits and three signs, and stands before the rest. *)
Lemma getScheme_from_spec first s whole seen scheme rest :
  getScheme_from first s whole seen = Some (scheme, rest) -> whole = seen +:+ s -> all plain seen = true ->
  all plain scheme = true /\ exists pre, all plain pre = true /\ whole = pre +:+ rest.
Proof.
  revert first seen. induction s as [|c s IH]; intros first seen; cbn [getScheme_from];
    [intros [= <- <-] _ _; split; [done|by exists ""]|].
  intros Hg Hw Hs. assert (all plain (seen +:+ String c "") = plain c) as Hc
    by (by rewrite all_app, all_cons, Hs, andb_true_r).
  assert (whole = (seen +:+ String c "") +:+ s) as Hw' by (by rewrite <- str_app_assoc).
  assert (Hnone : forall r, Some ("", whole) = Some (scheme, r) -> rest = r ->
    all plain scheme = true /\ exists pre, all plain pre = true /\ whole = pre +:+ rest).
  { intros r [= <- <-] ->. split; [done|by exists ""]. }
  destruct (is_lower_ascii _ || is_upper_ascii _) eqn:E1.
  { apply (IH _ _ Hg Hw'). rewrite Hc. clear -E1. revert E1. by every_byte c. }
  destruct (in_range 48 57 _ || ascii_in "+-." c) eqn:E2.
  { destruct first; [injection Hg as <- <-; by eapply Hnone|]. apply (IH _ _ Hg Hw'). rewrite Hc.
    clear -E2. revert E2. by every_byte c. }
  destruct (c ==? ":"%char) eqn:E3; [|injection Hg as <- <-; by eapply Hnone].
  destruct first; [done|]. apply bool_decide_eq_true in E3 as ->. injection Hg as <- <-. split; [done|].
  exists (seen +:+ ":"). rewrite all_app, Hs, Hw'. done.
Qed.

Lemma lower_ascii_plain s : all plain s = true -> all plain (lower_ascii s) = true.
Proof.
  induction s as [|c s IH]; [done|]. cbn [lower_ascii]. rewrite !all_cons. intros [Hc Hs]%andb_true_iff.
  rewrite IH by done. rewrite andb_true_r. revert Hc. by every_byte c.
Qed.

(** What parsing gives, for the parts that are printed before the query. *)
Record parsed (s : string) (u : URL) : Prop := {
  p_Scheme : all plain (Scheme u) = true;
  p_Opaque : has_byte "?" (Opaque_ u) = false;
  p_Valid : valid_utf8 s = true -> valid_utf8 (Opaque_ u) = true;
  p_Force : RawQuery u <> "" -> ForceQuery u = false;
  p_RawQuery : has_byte "?" s = false -> RawQuery u = "";
}.

Section parsed.
Context `{Addresses}.

Lemma parse_rest_parts scheme rest force query u :
  parse_rest scheme rest force query = Some u ->
  Scheme u = scheme /\ (Opaque_ u = rest \/ Opaque_ u = "") /\ ForceQuery u = force /\ RawQuery u = query.
Proof.
  unfold parse_rest. destruct (negb _ && (scheme !=? "")); [intros [= <-]; cbn; auto|].
  destruct (negb _ && has_byte _ _); [done|]. destruct (_ && (_ || _)).
  - destruct (cut "/" (drop_str 2 rest)) as [[authority path] found].
    intros ([user host] & _ & Hu)%bind_Some. apply bind_Some in Hu as ([path' raw] & _ & [= <-]). cbn. auto.
  - intros ([path raw] & _ & [= <-])%bind_Some. cbn. auto.
Qed.

Lemma parse_parsed s u : parse s = Some u -> parsed s u.
Proof.
  unfold parse. destruct (str_exists control s); [done|].
  destruct (s ==? "*"); [intros [= <-]; by split; cbn|]. intros ([scheme rest] & Hg & Hu)%bind_Some.
  unfold getScheme in Hg. apply getScheme_from_spec in Hg as (Hs & pre & Hpre & ->); [|done..].
  destruct (cut "?" rest) as [[before query] found] eqn:Ec. apply cut_spec in Ec as [Hb Hc].
  apply parse_rest_parts in Hu as (Hsu & Ho & Hf & Hr). split; rewrite ?Hsu, ?Hf, ?Hr.
  - by apply lower_ascii_plain.
  - by destruct Ho as [-> | ->].
  - intros Hv. rewrite valid_utf8_app in Hv by (apply (plain_unasked _ Hpre)).
    destruct Ho as [-> | ->]; [|done]. destruct found; [|by destruct Hc as [<- _]].
    rewrite Hc in Hv. exact (proj1 (valid_utf8_cut _ "?"%char _ eq_refl Hv)).
  - intros Hq. destruct (query ==? "") eqn:E; [|by rewrite andb_false_r]. bools. done.
  - clear Hr. rewrite has_byte_app. intros [_ Hr]%orb_false_iff. destruct found; [|by destruct Hc].
    rewrite Hc, has_byte_app in Hr. unfold has_byte in Hr at 2. simpl in Hr. bools. done.
Qed.

Lemma Parse_parsed s u : Parse s = Some u -> parsed (cut "#" s).1.1 u.
Proof.
  unfold Parse. destruct (cut "#" s) as [[before fragment] found].
  intros (url & Hp & Hu)%bind_Some. apply parse_parsed in Hp. cbn [fst].
  destruct (fragment ==? ""); [by injection Hu as <-|].
  apply bind_Some in Hu as ([decoded raw] & _ & [= <-]). destruct Hp. by split.
Qed.

Lemma cut_valid s : valid_utf8 s = true -> valid_utf8 (cut "#" s).1.1 = true.
Proof.
  destruct (cut "#" s) as [[a b] f] eqn:E. apply cut_spec in E as [_ Hf]. cbn [fst].
  destruct f; [intros Hv; rewrite Hf in Hv; exact (proj1 (valid_utf8_cut _ "#"%char _ eq_refl Hv))|by destruct Hf as [-> _]].
Qed.

Lemma authority_plain u : all plain (authority_text u) = true.
Proof.
  unfold authority_text. destruct (_ && _); [|done]. rewrite !all_app, !andb_true_iff.
  split_and!; [by destruct (_ || _)| |apply (escape_kept _ encodeHost)].
  destruct (User u) as [user|]; [|done]. unfold user_text. rewrite !all_app, !andb_true_iff.
  split_and!; [apply (escape_kept _ encodeUserPassword)| |done].
  destruct (password user); [|done]. by apply (escape_kept _ encodeUserPassword).
Qed.

Lemma path_plain before u : all plain (path_text before u) = true.
Proof.
  unfold path_text. rewrite all_app, andb_true_iff. split; [by repeat case_match|].
  unfold EscapedPath. case_match; [done|]. apply (escaped_kept _ _ encodePath).
Qed.

(** The text before the query has no question mark. *)
Lemma head_parts s u : Parse s = Some u ->
  has_byte "?" (head_text u) = false /\ (valid_utf8 s = true -> valid_utf8 (head_text u) = true).
Proof.
  intros Hp. apply Parse_parsed in Hp as [Hs Ho Hov _ _].
  assert (all plain (if Scheme u !=? "" then Scheme u +:+ ":" else "") = true) as Hscheme
    by (destruct (_ !=? _); [by rewrite all_app, Hs|done]).
  unfold head_text. destruct (Opaque_ u !=? "").
  - apply plain_unasked in Hscheme as [H1 H2]. split; [by rewrite has_byte_app, H1|].
    intros Hv. apply valid_utf8_app_2; [done|]. by apply Hov, cut_valid.
  - assert (unasked ((if Scheme u !=? "" then Scheme u +:+ ":" else "") +:+ authority_text u +:+
      path_text ((if Scheme u !=? "" then Scheme u +:+ ":" else "") +:+ authority_text u) u)) as [H1 H2].
    { apply plain_unasked. rewrite !all_app, Hscheme, authority_plain. apply path_plain. }
    rewrite <- str_app_assoc. by split.
Qed.

Lemma fragment_valid u : valid_utf8 (fragment_text u) = true.
Proof.
  unfold fragment_text. destruct (_ !=? _); [|done]. apply valid_utf8_app_2; [done|].
  apply low_valid, (escaped_kept _ _ encodeFragment).
Qed.

Lemma Query_none u : RawQuery u = "" -> Query u = [].
Proof. unfold Query. intros ->. reflexivity. Qed.

Lemma has_byte_before sep pre post : has_byte "?" pre = false ->
  has_byte "?" (cut sep (pre +:+ String sep post)).1.1 = false.
Proof.
  unfold has_byte. induction pre as [|c pre IH].
  - intros _. rewrite str_app_nil_l. cbn [cut]. by rewrite bool_decide_eq_true_2.
  - cbn [str_exists]. intros [Hc Hp]%orb_false_iff. specialize (IH Hp). rewrite str_app_cons. cbn [cut].
    destruct (c ==? sep); [done|]. destruct (cut sep (pre +:+ String sep post)) as [[a b] f].
    cbn [fst str_exists] in *. by rewrite Hc.
Qed.

Lemma has_byte_cut sep s : has_byte "?" s = false -> has_byte "?" (cut sep s).1.1 = false.
Proof.
  intros Hs. destruct (cut sep s) as [[a b] f] eqn:E. apply cut_spec in E as [_ E]. cbn [fst].
  destruct f; [|by destruct E as [<- _]]. rewrite E, has_byte_app in Hs. by apply orb_false_iff in Hs as [? _].
Qed.

Lemma Parse_no_query s u : has_byte "?" s = false -> Parse s = Some u -> RawQuery u = "".
Proof. intros Hs Hp. apply Parse_parsed in Hp as [_ _ _ _ Hr]. by apply Hr, has_byte_cut. Qed.

(** Printed without its query a URL is valid text and has no query. *)
Lemma without_query s u :
  Parse s = Some u -> RawQuery u <> "" ->
  let t := String_ (with_raw_query u "") in
  (valid_utf8 s = true -> valid_utf8 t = true) /\ forall u', Parse t = Some u' -> RawQuery u' = "".
Proof.
  intros Hp Hq t. destruct (head_parts _ _ Hp) as [Hh Hhv].
  pose proof (Parse_parsed _ _ Hp) as [_ _ _ Hf _]. specialize (Hf Hq).
  assert (t = head_text u +:+ fragment_text u) as ->.
  { unfold t, String_, query_text. cbn. by rewrite Hf. }
  split; [intros Hv; apply valid_utf8_app_2; [by apply Hhv|apply fragment_valid]|].
  intros u' Hu'. apply Parse_parsed in Hu' as [_ _ _ _ Hr]. apply Hr. unfold fragment_text.
  destruct (_ !=? _); [by apply has_byte_before|]. rewrite str_app_nil_r. by apply has_byte_cut.
Qed.
End parsed.
