(* ===== verification/Registry.v ===== *)
(** * adapter/registry: what an adapter declares

    The compile-time contract of an operation ([Capability]), its validation at
    registration, and the translation of an outgoing request (method and path)
    back to a declared operation.

    [Validate] is what lets the risk engine trust the declared label; [MatchPath]
    is the path white list of the proxy. *)
From S2P Require Import Prelude GoStr Apperr.
From S2P Require Json.
Open Scope Z_scope.

(** ** Declarations (declaration.go, capability.go) *)

Definition RiskLabelLow : string := "low".
Definition RiskLabelMedium : string := "medium".
Definition RiskLabelHigh : string := "high".

Definition RollbackNone : string := "none".
Definition RollbackManual : string := "manual".
Definition RollbackAutomatic : string := "automatic".

Definition Idempotent : string := "idempotent".
Definition NonIdempotent : string := "non_idempotent".

Definition KindGitHub : string := "github".
Definition KindCloudflare : string := "cloudflare".
Definition KindModel : string := "model".
Definition KindGenericHTTP : string := "generic-http".

Definition AuthNone : string := "none".
Definition AuthBearer : string := "bearer".
Definition AuthHeader : string := "header".

Definition StatusEnabled : string := "enabled".
Definition StatusDisabled : string := "disabled".

(** The row of [service_adapters]. *)
Record Declaration := {
  d_ID : string;
  d_Service : string;
  d_Kind : string;
  d_DisplayName : string;
  d_BaseURL : string;
  d_AuthScheme : string;
  d_Capabilities : string;
  d_AllowedPaths : string;
  d_AllowedMethods : string;
  d_RedactionRules : string;
  d_DefaultRiskLevel : string;
  d_Status : string;
  d_CreatedAt : Z;
  d_UpdatedAt : Z;
}.

Record Nature := {
  Destructive : bool;
  PermissionChange : bool;
  SecretAccess : bool;
  Billing : bool;
  ExternalCommunication : bool;
}.

Record MinimumScope := {
  ResourceKeys : list string;
  RequiresAccount : bool;
}.

(** [RedactionRules] is an option: a nil slice means "not declared" and an
    empty one "no rules". *)
Record Capability := {
  Operation : string;
  InputSchema : string;
  c_MinimumScope : MinimumScope;
  RiskLabel : string;
  Method : string;
  Path : string;
  RedactionRules : option (list string);
  ResponseFields : list string;
  Rollback : string;
  Idempotency : string;
  c_Nature : Nature;
}.

Section capability.
Context `{Unicode}.

Definition Write (c : Capability) : bool :=
  negb (one_of (to_upper (Method c)) ["GET"; "HEAD"]).

Definition validRiskLabel (label : string) : bool :=
  one_of label [RiskLabelLow; RiskLabelMedium; RiskLabelHigh].
Definition validRollback (rollback : string) : bool :=
  one_of rollback [RollbackNone; RollbackManual; RollbackAutomatic].
Definition validIdempotency (idempotency : string) : bool :=
  one_of idempotency [Idempotent; NonIdempotent].
Definition validMethod (method : string) : bool :=
  one_of method ["GET"; "HEAD"; "POST"; "PUT"; "PATCH"; "DELETE"].

Definition validatePresence (c : Capability) : result Code unit :=
  if trim_space (Operation c) ==? "" then Err CodeInvalidConfiguration
  else if trim_space (InputSchema c) ==? "" then Err CodeInvalidConfiguration
  else if negb (Json.Valid (InputSchema c)) then Err CodeInvalidConfiguration
  else if (length (ResourceKeys (c_MinimumScope c)) =? 0)%nat then Err CodeInvalidConfiguration
  else if negb (validRiskLabel (RiskLabel c)) then Err CodeInvalidConfiguration
  else if negb (validMethod (Method c)) then Err CodeInvalidConfiguration
  else if negb (has_prefix (Path c) "/") then Err CodeInvalidConfiguration
  else if RedactionRules c ==? None then Err CodeInvalidConfiguration
  else if (length (ResponseFields c) =? 0)%nat then Err CodeInvalidConfiguration
  else if negb (validRollback (Rollback c)) then Err CodeInvalidConfiguration
  else if negb (validIdempotency (Idempotency c)) then Err CodeInvalidConfiguration
  else Ok tt.

(** The name between the braces of a path segment, for a placeholder. *)
Definition placeholder (segment : string) : option string :=
  if has_prefix segment "{" && has_suffix segment "}"
  then Some (trim_suffix (trim_prefix segment "{") "}")
  else None.

Definition segments (path : string) : list string := split_on "/" (trim_prefix path "/").

Definition validatePlaceholders (c : Capability) : result Code unit :=
  if existsb
       (fun segment =>
          match placeholder segment with
          | None => false
          | Some key => negb (one_of key (ResourceKeys (c_MinimumScope c)))
          end) (segments (Path c))
  then Err CodeInvalidConfiguration
  else Ok tt.

Definition validateConsistency (c : Capability) : result Code unit :=
  let n := c_Nature c in
  if Destructive n && (RiskLabel c !=? RiskLabelHigh) then Err CodeInvalidConfiguration
  else if PermissionChange n && (RiskLabel c !=? RiskLabelHigh) then Err CodeInvalidConfiguration
  else if SecretAccess n && (RiskLabel c !=? RiskLabelHigh) then Err CodeInvalidConfiguration
  else if Billing n && (RiskLabel c !=? RiskLabelHigh) then Err CodeInvalidConfiguration
  else if Write c && (Rollback c ==? RollbackNone) && (RiskLabel c !=? RiskLabelHigh)
    then Err CodeInvalidConfiguration
  else if Write c && ExternalCommunication n && (RiskLabel c ==? RiskLabelLow)
    then Err CodeInvalidConfiguration
  else if negb (Write c) && (Idempotency c !=? Idempotent) then Err CodeInvalidConfiguration
  else if negb (Write c) && Destructive n then Err CodeInvalidConfiguration
  else validatePlaceholders c.

Definition Validate (c : Capability) : result Code unit :=
  _ ← validatePresence c; validateConsistency c.
End capability.

(** ** Path templates (resolve.go) *)

Definition captures := list (string * string).

(** Later captures of one name overwrite earlier ones, as in a Go map. *)
Fixpoint set_capture (key value : string) (l : captures) : captures :=
  match l with
  | [] => [(key, value)]
  | (k, v) :: rest =>
      if k ==? key then (k, value) :: rest else (k, v) :: set_capture key value rest
  end.

Fixpoint get_capture (key : string) (l : captures) : option string :=
  match l with
  | [] => None
  | (k, v) :: rest => if k ==? key then Some v else get_capture key rest
  end.

(** The loop of [MatchPath] over both segment lists. *)
Fixpoint match_segments (expected actual : list string) (captured : captures)
    : option captures :=
  match expected, actual with
  | e :: expected, got :: actual =>
      if got ==? "" then None
      else
        match placeholder e with
        | Some key => match_segments expected actual (set_capture key got captured)
        | None => if e ==? got then match_segments expected actual captured else None
        end
  | [], [] => Some captured
  | _, _ => None
  end.

Definition MatchPath (template actual : string) : option captures :=
  if negb (has_prefix actual "/") || contains actual ".." then None
  else
    let templateSegments := segments template in
    let actualSegments := segments actual in
    if negb (length templateSegments =? length actualSegments)%nat then None
    else match_segments templateSegments actualSegments [].

(** [Registry.Resolve]: [operations] lists the service's capabilities in the
    order the Go map happens to be walked. *)
Definition Resolve `{Unicode} (operations : list Capability) (method path : string)
    : result Code (Capability * captures) :=
  let try capability :=
    if equal_fold (Method capability) method then MatchPath (Path capability) path else None in
  match find_first (fun c => bool_decide (is_Some (try c))) operations with
  | Some c => match try c with Some r => Ok (c, r) | None => Err CodeCapabilityNotOffered end
  | None => Err CodeCapabilityNotOffered
  end.

(** ** Facts *)

(** A validated declaration labels every dangerous operation [high]. *)
Lemma Validate_label `{Unicode} c :
  Validate c = Ok tt ->
  (Destructive (c_Nature c) || PermissionChange (c_Nature c) || SecretAccess (c_Nature c) ||
   Billing (c_Nature c) || (Write c && (Rollback c ==? RollbackNone))) = true ->
  RiskLabel c = RiskLabelHigh.
Proof.
  unfold Validate, validateConsistency. intros Hv Hd. apply bind_Ok in Hv as (u & _ & Hv).
  destruct (decide (RiskLabel c = RiskLabelHigh)) as [|Hn]; [done|]. exfalso.
  rewrite (bool_decide_eq_false_2 _ Hn) in Hv. cbn [negb] in Hv.
  rewrite !andb_true_r in Hv. rewrite !orb_true_iff in Hd.
  repeat case_match; try discriminate; intuition congruence.
Qed.

(** What a validated declaration has. *)
Lemma Validate_presence `{Unicode} c :
  Validate c = Ok tt ->
  ResourceKeys (c_MinimumScope c) <> [] /\ validRiskLabel (RiskLabel c) = true /\
  validMethod (Method c) = true /\ has_prefix (Path c) "/" = true.
Proof.
  unfold Validate, validatePresence. intros Hv. apply bind_Ok in Hv as (u & Hv & _).
  repeat (case_match; [discriminate|]). bools. split_and!; try done.
  intros E. by rewrite E in *.
Qed.

(** Every placeholder of a validated path is a declared resource key. *)
Lemma Validate_placeholders `{Unicode} c segment key :
  Validate c = Ok tt -> segment ∈ segments (Path c) -> placeholder segment = Some key ->
  key ∈ ResourceKeys (c_MinimumScope c).
Proof.
  unfold Validate, validateConsistency, validatePlaceholders. intros Hv Hs Hp.
  apply bind_Ok in Hv as (u & _ & Hv). repeat (case_match; [discriminate|]).
  match goal with E : existsb _ _ = false |- _ => rewrite existsb_false in E;
    specialize (E segment Hs); rewrite Hp in E; apply negb_false_iff in E;
    by apply one_of_spec in E end.
Qed.

(** *** Captures *)

Lemma get_set_capture key k v l :
  get_capture key (set_capture k v l) = if decide (k = key) then Some v else get_capture key l.
Proof.
  induction l as [|[k' v'] l IH]; simpl.
  - case_bool_decide; destruct (decide (k = key)); congruence.
  - case_bool_decide as E1; simpl.
    + subst k'. case_bool_decide; destruct (decide (k = key)); congruence.
    + case_bool_decide as E2; [|by rewrite IH].
      subst. destruct (decide (k = key)); congruence.
Qed.

Definition placeholders (template : list string) : list string := omap placeholder template.

(** A template with its placeholders filled in. *)
Definition fill_segment (l : captures) (segment : string) : string :=
  match placeholder segment with Some key => default "" (get_capture key l) | None => segment end.

Definition fill (template : string) (l : captures) : string :=
  "/" +:+ join "/" (map (fill_segment l) (segments template)).

(** Names no later segment mentions keep their value. *)
Lemma match_segments_keep e a c0 caps key :
  match_segments e a c0 = Some caps -> key ∉ placeholders e ->
  get_capture key caps = get_capture key c0.
Proof.
  revert a c0. induction e as [|x e IH]; intros [|y a] c0; simpl; try done.
  { by intros [= ->]. }
  destruct (y ==? ""); [done|]. unfold placeholders. simpl.
  destruct (placeholder x) as [k|] eqn:Ek.
  - intros Hm Hn. rewrite not_elem_of_cons in Hn. destruct Hn as [Hk Hn].
    rewrite (IH _ _ Hm Hn), get_set_capture, decide_False by congruence. done.
  - destruct (x ==? y); [|done]. apply IH.
Qed.

Lemma match_segments_fill e a c0 caps :
  match_segments e a c0 = Some caps -> NoDup (placeholders e) ->
  map (fill_segment caps) e = a.
Proof.
  revert a c0. induction e as [|x e IH]; intros [|y a] c0; simpl; try done.
  destruct (y ==? ""); [done|]. unfold placeholders. simpl. unfold fill_segment at 1.
  destruct (placeholder x) as [k|] eqn:Ek; simpl.
  - intros Hm [Hn Hd]%NoDup_cons. f_equal; [|by eapply IH].
    rewrite (match_segments_keep _ _ _ _ k Hm Hn), get_set_capture, decide_True by done. done.
  - destruct (x ==? y) eqn:E; [|done]. bools. subst y. intros Hm Hd. f_equal. by eapply IH.
Qed.

(** Every capture is a non-empty segment of the path, or was there before. *)
Lemma match_segments_captured e a c0 caps key v :
  match_segments e a c0 = Some caps -> get_capture key caps = Some v ->
  get_capture key c0 = Some v \/ v ∈ a /\ v <> "".
Proof.
  revert a c0. induction e as [|x e IH]; intros [|y a] c0; simpl; try done.
  { intros [= ->]. by left. }
  destruct (y ==? "") eqn:Ey; [done|]. bools.
  destruct (placeholder x) as [k|] eqn:Ek.
  - intros Hm Hg. destruct (IH _ _ Hm Hg) as [H|[H Hne]].
    + rewrite get_set_capture in H. destruct (decide (k = key)); [|by left].
      simplify_eq. right. split; [left|done].
    + right. split; [by right|done].
  - destruct (x ==? y); [|done]. intros Hm Hg.
    destruct (IH _ _ Hm Hg) as [H|[H Hne]]; [by left|]. right. split; [by right|done].
Qed.

(** Matching succeeds on every filling of the template with non-empty values. *)
Lemma match_segments_complete e l c0 :
  (forall x, x ∈ e -> fill_segment l x <> "") ->
  is_Some (match_segments e (map (fill_segment l) e) c0).
Proof.
  revert c0. induction e as [|x e IH]; intros c0 Hne; simpl; [done|].
  assert (Hx : fill_segment l x <> "") by (apply Hne; left).
  rewrite bool_decide_eq_false_2 by done.
  assert (He : forall y, y ∈ e -> fill_segment l y <> "") by (intros; apply Hne; by right).
  destruct (placeholder x) as [k|] eqn:Ek; [by apply IH|].
  rewrite bool_decide_eq_true_2; [by apply IH|]. unfold fill_segment. by rewrite Ek.
Qed.

Lemma segments_join s : has_prefix s "/" = true -> "/" +:+ join "/" (segments s) = s.
Proof.
  unfold segments, trim_prefix. intros Hp. rewrite Hp.
  rewrite (join_split "/" (drop_str (String.length "/") s)).
  apply prefix_spec in Hp as [u ->]. done.
Qed.

Lemma contains_segment s w sub : w ∈ segments s -> contains w sub = true -> contains s sub = true.
Proof.
  intros Hw (pre & post & ->)%contains_spec. apply contains_spec.
  assert (Hin : exists p q, trim_prefix s "/" = p +:+ (pre +:+ sub +:+ post) +:+ q).
  { unfold segments in Hw. rewrite <- (join_split "/" (trim_prefix s "/")).
    revert Hw. induction (split_on "/" (trim_prefix s "/")) as [|x l IH]; intros Hw.
    { by apply not_elem_of_nil in Hw. }
    apply elem_of_cons in Hw as [<-|Hw].
    - destruct l as [|y l]; [by exists "", ""; rewrite str_app_nil_r|].
      by exists "", ("/" +:+ join "/" (y :: l)).
    - destruct l as [|y l]; [by apply not_elem_of_nil in Hw|].
      destruct (IH Hw) as (p & q & E). exists (x +:+ "/" +:+ p), q.
      change (join "/" (x :: y :: l)) with (x +:+ "/" +:+ join "/" (y :: l)).
      rewrite E. by rewrite <- !str_app_assoc. }
  destruct Hin as (p & q & E). unfold trim_prefix in E.
  destruct (has_prefix s "/") eqn:Hp.
  - apply prefix_spec in Hp as [u ->]. change (drop_str _ _) with u in E. rewrite E.
    exists ("/" +:+ p +:+ pre), (post +:+ q). by rewrite <- !str_app_assoc.
  - rewrite E. exists (p +:+ pre), (post +:+ q). by rewrite <- !str_app_assoc.
Qed.
