(* ===== verification/World.v ===== *)
(** * The world a handler runs in

    A handler of the program reads the clock, draws identifiers and runs SQL
    statements. [M D E A] is such a computation over a database [D]: it takes the
    world and gives a result and the world after it; an error keeps what earlier
    statements did, as in the code. [Env] is what the outside supplies: the
    clock's readings, the identifiers, which statements fail, and SQLite's
    [json_valid]. The file also has store/repo/repo.go: the column encodings
    the repositories share and the translation of SQL errors to codes. *)
From S2P Require Import Prelude GoStr Apperr.
From S2P Require Import GoTime.
Open Scope Z_scope.

(** The n-th reading of the clock, the n-th draw of an identifier ([None] when
    the random source fails), whether the n-th SQL statement fails. *)
Class Env := {
  clock_at : nat -> Z;
  id_at : nat -> option string;
  io_fails : nat -> bool;
  json_valid : string -> bool;
}.

Record World (D : Type) := mkWorld {
  db : D;
  ticks : nat;
  ids : nat;
  stmts : nat;
}.
Arguments mkWorld {D} db ticks ids stmts.
Arguments db {D} w.
Arguments ticks {D} w.
Arguments ids {D} w.
Arguments stmts {D} w.

Definition M (D E A : Type) : Type := World D -> result E A * World D.

#[export] Instance M_ret {D E} : MRet (M D E) := fun A a w => (Ok a, w).
#[export] Instance M_bind {D E} : MBind (M D E) := fun A B f m w =>
  match m w with
  | (Ok a, w') => f a w'
  | (Err e, w') => (Err e, w')
  end.

Definition throw {D E A} (e : E) : M D E A := fun w => (Err e, w).

Definition of_result {D E A} (r : result E A) : M D E A := fun w => (r, w).

(** [if bad { return err }] inside a handler. *)
Definition refuse {D E} (bad : bool) (e : E) : M D E unit := of_result (refuse_if bad e).

(** [x, err := m]: the error as a value, for code that looks at it. *)
Definition try_ {D E E' A} (m : M D E A) : M D E' (result E A) := fun w =>
  let '(r, w') := m w in (Ok r, w').

Definition map_err {D E E' A} (f : E -> E') (m : M D E A) : M D E' A := fun w =>
  let '(r, w') := m w in
  (match r with Ok a => Ok a | Err e => Err (f e) end, w').

(** ** Time and identifiers *)

Section env.
Context `{Env} {D : Type}.

Definition Now {E} : M D E Z := fun w =>
  (Ok (clock_at (ticks w)), mkWorld (db w) (S (ticks w)) (ids w) (stmts w)).

(** platform/ulid: the timestamp comes from the same clock. The failure is not
    one of the coded errors, which makes it [internal] wherever it is shown. *)
Definition NewID : M D Code string := fun w =>
  (match id_at (ids w) with Some id => Ok id | None => Err CodeInternal end,
   mkWorld (db w) (S (ticks w)) (S (ids w)) (stmts w)).
End env.

(** ** SQL statements *)

Inductive sql_error :=
| NoRows
| UniqueViolation
| ReferenceViolation
| StillReferencedViolation
| ValueViolation
| Fault.

Definition readError (e : sql_error) : Code :=
  match e with NoRows => CodeNotFound | _ => CodeInternal end.

Definition writeError (e : sql_error) : Code :=
  match e with
  | UniqueViolation | StillReferencedViolation => CodeConflict
  | ReferenceViolation | ValueViolation => CodeInvalidRequest
  | _ => readError e
  end.

(** What the code does with [errors.Is(err, sql.ErrNoRows)] after an UPDATE. *)
Definition writeErrorOr (none : Code) (e : sql_error) : Code :=
  match e with NoRows => none | _ => writeError e end.

(** One statement. It fails as a whole: a statement that fails, by itself or for
    a reason outside the database, changes nothing. *)
Definition stmt `{Env} {D A} (f : D -> result sql_error (A * D)) : M D sql_error A := fun w =>
  let next d := mkWorld d (ticks w) (ids w) (S (stmts w)) in
  if io_fails (stmts w) then (Err Fault, next (db w))
  else match f (db w) with
       | Ok (a, d) => (Ok a, next d)
       | Err e => (Err e, next (db w))
       end.

Definition query `{Env} {D A} (f : D -> result sql_error A) : M D sql_error A :=
  stmt (fun d => match f d with Ok a => Ok (a, d) | Err e => Err e end).

(** ** Columns (store/repo/repo.go)

    A time column holds UTC text with milliseconds; [encodeTime] is that text.
    The tables keep the instant it denotes, [column]: by [encodeTime_order] in
    the file [TimeColumn] comparing the texts, which is what the SQL does, is
    comparing those instants. *)
Definition column (instant : Z) : Z := instant / Millisecond * Millisecond.

Definition encodeTime (instant : Z) : string :=
  let '(y, m, d) := civil_of (days_part instant) in
  year_text y +:+ "-" +:+ pad 2 m +:+ "-" +:+ pad 2 d +:+ "T" +:+ clock_text (sec_part instant) +:+
  "." +:+ pad 3 (nsec_part instant / Millisecond) +:+ "Z".

(** [optionalTime] and [decodeOptionalTime]: the zero time is NULL. *)
Definition optionalTime (instant : Z) : Z := if IsZero instant then 0 else column instant.

Definition MaxInt32 : Z := 2 ^ 31 - 1.

(** [optionalCount] followed by [decodeOptionalCount]: NULL is 0. *)
Definition optionalCount (value : Z) : Z := if value <=? 0 then 0 else value.

Definition decodeCount (value : Z) : result Code Z :=
  if (value <? 0) || (MaxInt32 <? value) then Err CodeInternal else Ok value.

Definition invalidLimit (limit : Z) : bool := limit <=? 0.

(** Rows in the order of an ORDER BY over one key, at most [limit] of them. *)
Definition by_key {A} (key : A -> Z) : relation A := fun x y => key x <= key y.

#[export] Instance by_key_dec {A} (key : A -> Z) : RelDecision (by_key key).
Proof. intros x y. unfold by_key. apply _. Defined.

#[export] Instance by_key_total {A} (key : A -> Z) : Total (by_key key).
Proof. intros x y. unfold by_key. lia. Qed.

Definition by_text {A} (key : A -> string) : relation A := fun x y => String.le (key x) (key y).

#[export] Instance by_text_dec {A} (key : A -> string) : RelDecision (by_text key).
Proof. intros x y. unfold by_text. apply _. Defined.

Definition rows_of {A} (t : gmap string A) : list A := map snd (map_to_list t).

Definition select {A} (p : A -> bool) (order : relation A) `{!RelDecision order} (limit : Z)
    (t : gmap string A) : list A :=
  take (Z.to_nat limit) (merge_sort order (filter (fun x => p x = true) (rows_of t))).

(** ** Reasoning about handlers

    [wp m Q d]: started on a database [d], whatever the outside supplies, [m]
    ends with a result and a database that satisfy [Q]. *)
Definition wp {D E A} (m : M D E A) (Q : result E A -> D -> Prop) (d : D) : Prop :=
  forall w, db w = d -> Q (m w).1 (db (m w).2).

Section wp.
Context {D : Type}.
Implicit Types d : D.

Lemma wp_use {E A} (m : M D E A) Q w r w' : wp m Q (db w) -> m w = (r, w') -> Q r (db w').
Proof. intros H Hm. specialize (H w eq_refl). by rewrite Hm in H. Qed.

Lemma wp_mono {E A} (m : M D E A) (P Q : result E A -> D -> Prop) d :
  wp m P d -> (forall r d', P r d' -> Q r d') -> wp m Q d.
Proof. intros H HPQ w Hw. auto. Qed.

Lemma wp_and {E A} (m : M D E A) (P Q : result E A -> D -> Prop) d :
  wp m P d -> wp m Q d -> wp m (fun r d' => P r d' /\ Q r d') d.
Proof. intros HP HQ w Hw. split; [by apply HP|by apply HQ]. Qed.

Lemma wp_ret {E A} (a : A) (Q : result E A -> D -> Prop) d : Q (Ok a) d -> wp (mret a) Q d.
Proof. intros H w <-. done. Qed.

Lemma wp_throw {E A} (e : E) (Q : result E A -> D -> Prop) d : Q (Err e) d -> wp (throw e) Q d.
Proof. intros H w <-. done. Qed.

Lemma wp_bind {E A B} (m : M D E A) (f : A -> M D E B) Q d :
  wp m (fun r d' => match r with Ok a => wp (f a) Q d' | Err e => Q (Err e) d' end) d ->
  wp (m ≫= f) Q d.
Proof.
  intros H w Hw. specialize (H w Hw). unfold mbind, M_bind.
  destruct (m w) as [[a|e] w1]; simpl in *; auto.
Qed.

Lemma wp_of_result {E A} (r : result E A) (Q : result E A -> D -> Prop) d :
  Q r d -> wp (of_result r) Q d.
Proof. intros H w <-. done. Qed.

Lemma wp_refuse {E} (bad : bool) (e : E) (Q : result E unit -> D -> Prop) d :
  (if bad then Q (Err e) d else Q (Ok tt) d) -> wp (refuse bad e) Q d.
Proof. intros H w <-. unfold refuse, refuse_if, of_result. by destruct bad. Qed.

Lemma wp_try {E E' A} (m : M D E A) (Q : result E' (result E A) -> D -> Prop) d :
  wp m (fun r => Q (Ok r)) d -> wp (try_ m) Q d.
Proof.
  intros H w Hw. specialize (H w Hw). unfold try_. destruct (m w). done.
Qed.

Lemma wp_map_err {E E' A} (f : E -> E') (m : M D E A) (Q : result E' A -> D -> Prop) d :
  wp m (fun r => Q (match r with Ok a => Ok a | Err e => Err (f e) end)) d ->
  wp (map_err f m) Q d.
Proof.
  intros H w Hw. specialize (H w Hw). unfold map_err. destruct (m w). done.
Qed.

Context `{Env}.

Lemma wp_Now {E} (Q : result E Z -> D -> Prop) d :
  (forall n, Q (Ok (clock_at n)) d) -> wp Now Q d.
Proof. intros HQ w <-. simpl. auto. Qed.

Lemma wp_NewID (Q : result Code string -> D -> Prop) d :
  (forall n id, id_at n = Some id -> Q (Ok id) d) -> Q (Err CodeInternal) d -> wp NewID Q d.
Proof.
  intros Hok Herr w <-. unfold NewID. simpl. destruct (id_at (ids w)) eqn:E; eauto.
Qed.

Lemma wp_stmt {A} (f : D -> result sql_error (A * D)) Q d :
  Q (Err Fault) d ->
  (forall a d', f d = Ok (a, d') -> Q (Ok a) d') ->
  (forall e, f d = Err e -> Q (Err e) d) ->
  wp (stmt f) Q d.
Proof.
  intros Hf Ha He w <-. unfold stmt. destruct (io_fails (stmts w)); [done|].
  destruct (f (db w)) as [[a d']|e] eqn:E; simpl; auto.
Qed.

Lemma wp_query {A} (f : D -> result sql_error A) Q d :
  Q (Err Fault) d ->
  (forall a, f d = Ok a -> Q (Ok a) d) ->
  (forall e, f d = Err e -> Q (Err e) d) ->
  wp (query f) Q d.
Proof.
  intros Hf Ha He. apply wp_stmt; [done|intros a d'|intros e]; destruct (f d) eqn:E;
    intros ?; simplify_eq; auto.
Qed.
End wp.

(** One symbolic step through a handler. *)
Ltac wp_step :=
  lazymatch goal with
  | |- wp (mret _) _ _ => apply wp_ret
  | |- wp (throw _) _ _ => apply wp_throw
  | |- wp (_ ≫= _) _ _ => apply wp_bind
  | |- wp (of_result _) _ _ => apply wp_of_result
  | |- wp (refuse _ _) _ _ => apply wp_refuse
  | |- wp (try_ _) _ _ => apply wp_try
  | |- wp (map_err _ _) _ _ => apply wp_map_err
  | |- wp Now _ _ => apply wp_Now; intros ?
  | |- wp NewID _ _ => apply wp_NewID; [intros ? ? ?|]
  end.
Ltac wp_steps := repeat (wp_step; cbn beta iota).

(** [BeginTx], the statements, [Commit], with the deferred [Rollback]: an error
    anywhere, the commit included, leaves the database as it was at the start. *)
Section transaction.
Context `{Env} {D : Type}.

Definition boundary : M D Code unit := map_err writeError (stmt (fun d => Ok ((), d))).

Definition rollback (before after : World D) : World D :=
  mkWorld (db before) (ticks after) (ids after) (stmts after).

Definition transaction {A} (body : M D Code A) : M D Code A := fun w =>
  match (_ ← boundary; a ← body; _ ← boundary; mret a) w with
  | (Ok a, w') => (Ok a, w')
  | (Err e, w') => (Err e, rollback w w')
  end.

Lemma wp_boundary (Q : result Code unit -> D -> Prop) d :
  Q (Ok ()) d -> Q (Err CodeInternal) d -> wp boundary Q d.
Proof.
  intros Hok Herr. apply wp_map_err, wp_stmt; [done| |done]. by intros a d' [= <- <-].
Qed.

Lemma wp_transaction {A} (body : M D Code A) (Q : result Code A -> D -> Prop) d :
  Q (Err CodeInternal) d ->
  wp body (fun r d' => match r with Ok a => Q (Ok a) d' | Err e => Q (Err e) d end) d ->
  wp (transaction body) Q d.
Proof.
  intros Herr Hbody w Hw. unfold transaction.
  assert (wp (_ ← boundary; a ← body; _ ← boundary; mret a)
    (fun r d' => match r with Ok a => Q (Ok a) d' | Err e => Q (Err e) d end) d) as Hrun.
  { wp_steps. apply wp_boundary; [|done]. wp_steps. eapply wp_mono; [exact Hbody|].
    intros [a|e] d' Hq; [|done].
    wp_steps. apply wp_boundary; [by wp_steps|done]. }
  specialize (Hrun w Hw). revert Hrun.
  generalize ((_ ← boundary; a ← body; _ ← boundary; mret a) w). intros [[a|e] w'] Hrun; simpl in *; [done|by rewrite Hw].
Qed.
End transaction.

(** [for _, x := range l { r, err := f(x); if err != nil { return done, err }; done =
    append(done, r) }]: an error carries what was done before it. *)
Section each.
Context {D A B : Type} (f : A -> M D Code B).

Fixpoint each_from (acc : list B) (l : list A) : M D (list B * Code) (list B) :=
  match l with
  | [] => mret acc
  | x :: l => fun w =>
      match f x w with
      | (Ok b, w') => each_from (acc ++ [b]) l w'
      | (Err e, w') => (Err (acc, e), w')
      end
  end.

Definition each (l : list A) : M D (list B * Code) (list B) := each_from [] l.

(** The loop keeps [I done rest]: what has been done, what is left. *)
Lemma wp_each_from (I : list B -> list A -> D -> Prop) Q acc l d :
  I acc l d ->
  (forall acc d, I acc [] d -> Q (Ok acc) d) ->
  (forall acc x l d, I acc (x :: l) d ->
    wp (f x) (fun r d' => match r with
      | Ok b => I (acc ++ [b]) l d'
      | Err e => Q (Err (acc, e)) d' end) d) ->
  wp (each_from acc l) Q d.
Proof.
  intros HI Hend Hstep. revert acc d HI. induction l as [|x l IH]; intros acc d HI; simpl.
  - apply wp_ret. auto.
  - intros w Hw. specialize (Hstep acc x l d HI w Hw).
    destruct (f x w) as [[b|e] w1]; simpl in *; [|done]. exact (IH _ _ Hstep w1 eq_refl).
Qed.

Lemma wp_each (I : list B -> list A -> D -> Prop) Q l d :
  I [] l d ->
  (forall acc d, I acc [] d -> Q (Ok acc) d) ->
  (forall acc x l d, I acc (x :: l) d ->
    wp (f x) (fun r d' => match r with
      | Ok b => I (acc ++ [b]) l d'
      | Err e => Q (Err (acc, e)) d' end) d) ->
  wp (each l) Q d.
Proof. apply wp_each_from. Qed.
End each.

(** A call that failed with one of these codes and changed nothing. *)
Definition refused {D A} (d : D) (codes : list Code) (r : result Code A) (d' : D) : Prop :=
  d' = d /\ exists e, r = Err e /\ e ∈ codes.

(** A part of the database a component owns. *)
Class Lens (D V : Type) := {
  view : D -> V;
  put : V -> D -> D;
  view_put v d : view (put v d) = v;
  put_view d : put (view d) d = d;
  put_put v v' d : put v (put v' d) = put v d;
}.

(** ** Listings *)

Lemma elem_of_rows {A} (t : gmap string A) x : x ∈ rows_of t <-> exists id, t !! id = Some x.
Proof.
  unfold rows_of. rewrite list_elem_of_fmap. split.
  - intros ([id y] & -> & H). exists id. by apply elem_of_map_to_list.
  - intros [id H]. exists (id, x). split; [done|]. by apply elem_of_map_to_list.
Qed.

(** What a bounded list query promises: rows of the table that satisfy its
    condition, in order, no more than the limit, and all of them when there are
    fewer than the limit. *)
Record listing {A} (p : A -> bool) (order : relation A) (limit : Z) (t : gmap string A)
    (l : list A) : Prop := {
  listing_sound x : x ∈ l -> p x = true /\ exists id, t !! id = Some x;
  listing_sorted : Sorted order l;
  listing_bounded : Z.of_nat (length l) <= limit;
  listing_complete x id :
    Z.of_nat (length l) < limit -> t !! id = Some x -> p x = true -> x ∈ l;
}.

Lemma Sorted_take {A} (R : relation A) n l : Sorted R l -> Sorted R (take n l).
Proof.
  intros H. revert n. induction H as [|x l Hs IH Hd]; intros [|n]; simpl; constructor; auto.
  destruct l, n; simpl; constructor. by inversion Hd.
Qed.

Lemma select_listing {A} (p : A -> bool) (order : relation A) `{!RelDecision order, !Total order}
    limit (t : gmap string A) :
  0 < limit -> listing p order limit t (select p order limit t).
Proof.
  intros Hl. unfold select.
  assert (Hin : forall x, x ∈ merge_sort order (filter (fun x => p x = true) (rows_of t)) <->
    p x = true /\ exists id, t !! id = Some x).
  { intros x. rewrite merge_sort_Permutation, list_elem_of_filter, elem_of_rows. done. }
  constructor.
  - intros x Hx. apply Hin. by eapply elem_of_take in Hx as (? & ? & _); eapply list_elem_of_lookup_2.
  - apply Sorted_take. by apply Sorted_merge_sort.
  - rewrite length_take. lia.
  - intros x id Hlen Hx Hp. rewrite take_ge; [apply Hin; eauto|].
    rewrite length_take in Hlen. lia.
Qed.
