(* ===== verification/Agent.v ===== *)
(** * core/agentauth: the data of identities

    The closed value sets and records of [identity.go]. The session protocol
    over them is in [AgentAuth]. *)
From S2P Require Import Prelude GoStr World.
Open Scope Z_scope.

Definition TypeClaudeCode : string := "claude-code".
Definition TypeCodex : string := "codex".
Definition TypeGeminiCLI : string := "gemini-cli".
Definition TypeOpenCode : string := "opencode".
Definition TypeGeneric : string := "generic".

Definition TrustUnverified : string := "unverified".
Definition TrustKnown : string := "known".
Definition TrustTrusted : string := "trusted".

Definition StatusActive : string := "active".
Definition StatusDisconnected : string := "disconnected".

Definition DeviceTrusted : string := "trusted".
Definition DeviceUntrusted : string := "untrusted".

Record Device := {
  dev_ID : string;
  Fingerprint : string;
  dev_Name : string;
  TrustStatus : string;
  dev_CreatedAt : Z;
  dev_UpdatedAt : Z;
}.

Record Workspace := {
  ws_ID : string;
  ws_Path : string;
  ProjectFingerprint : string;
  ws_CreatedAt : Z;
  ws_UpdatedAt : Z;
}.

Record Agent := {
  ID : string;
  Name : string;
  Type_ : string;
  Version : string;
  ExecutableHash : string;
  ExecutablePath : string;
  PID : Z;
  ParentPID : Z;
  OSUser : string;
  DeviceID : string;
  WorkspaceID : string;
  StartedAt : Z;
  SessionKeyHash : string;
  SessionExpiresAt : Z;
  TrustLevel : string;
  Status : string;
  LastSeenAt : Z;
  CreatedAt : Z;
  UpdatedAt : Z;
}.

#[export] Instance Device_eq_dec : EqDecision Device.
Proof. solve_decision. Defined.
#[export] Instance Workspace_eq_dec : EqDecision Workspace.
Proof. solve_decision. Defined.
#[export] Instance Agent_eq_dec : EqDecision Agent.
Proof. solve_decision. Defined.

(** ** Rows and their updates *)

Definition agentTypes : list string :=
  [TypeClaudeCode; TypeCodex; TypeGeminiCLI; TypeOpenCode; TypeGeneric].
Definition trustLevels : list string := [TrustUnverified; TrustKnown; TrustTrusted].
Definition agentStatuses : list string := [StatusActive; StatusDisconnected].
Definition deviceTrusts : list string := [DeviceTrusted; DeviceUntrusted].

Definition stored_device (d : Device) : Device :=
  {| dev_ID := dev_ID d; Fingerprint := Fingerprint d; dev_Name := dev_Name d;
     TrustStatus := TrustStatus d; dev_CreatedAt := column (dev_CreatedAt d);
     dev_UpdatedAt := column (dev_UpdatedAt d) |}.

Definition with_trust_status (d : Device) (status : string) (at_ : Z) : Device :=
  {| dev_ID := dev_ID d; Fingerprint := Fingerprint d; dev_Name := dev_Name d;
     TrustStatus := status; dev_CreatedAt := dev_CreatedAt d; dev_UpdatedAt := column at_ |}.

Definition stored_workspace (w : Workspace) : Workspace :=
  {| ws_ID := ws_ID w; ws_Path := ws_Path w; ProjectFingerprint := ProjectFingerprint w;
     ws_CreatedAt := column (ws_CreatedAt w); ws_UpdatedAt := column (ws_UpdatedAt w) |}.

Definition with_fingerprint (w : Workspace) (fingerprint : string) (at_ : Z) : Workspace :=
  {| ws_ID := ws_ID w; ws_Path := ws_Path w; ProjectFingerprint := fingerprint;
     ws_CreatedAt := ws_CreatedAt w; ws_UpdatedAt := column at_ |}.

Definition stored_agent (a : Agent) : Agent :=
  {| ID := ID a; Name := Name a; Type_ := Type_ a; Version := Version a;
     ExecutableHash := ExecutableHash a; ExecutablePath := ExecutablePath a; PID := PID a;
     ParentPID := ParentPID a; OSUser := OSUser a; DeviceID := DeviceID a;
     WorkspaceID := WorkspaceID a; StartedAt := column (StartedAt a);
     SessionKeyHash := SessionKeyHash a; SessionExpiresAt := column (SessionExpiresAt a);
     TrustLevel := TrustLevel a; Status := Status a; LastSeenAt := column (LastSeenAt a);
     CreatedAt := column (CreatedAt a); UpdatedAt := column (UpdatedAt a) |}.

(** The process and session of an agent, what a registration may change. *)
Record Rebind := {
  b_PID : Z;
  b_ParentPID : Z;
  b_StartedAt : Z;
  b_SessionKeyHash : string;
  b_SessionExpiresAt : Z;
  b_At : Z;
}.

Definition with_state (a : Agent) (trustLevel status : string) (lastSeenAt at_ : Z) : Agent :=
  {| ID := ID a; Name := Name a; Type_ := Type_ a; Version := Version a;
     ExecutableHash := ExecutableHash a; ExecutablePath := ExecutablePath a; PID := PID a;
     ParentPID := ParentPID a; OSUser := OSUser a; DeviceID := DeviceID a;
     WorkspaceID := WorkspaceID a; StartedAt := StartedAt a; SessionKeyHash := SessionKeyHash a;
     SessionExpiresAt := SessionExpiresAt a; TrustLevel := trustLevel; Status := status;
     LastSeenAt := lastSeenAt; CreatedAt := CreatedAt a; UpdatedAt := column at_ |}.

Definition rebound (a : Agent) (r : Rebind) : Agent :=
  {| ID := ID a; Name := Name a; Type_ := Type_ a; Version := Version a;
     ExecutableHash := ExecutableHash a; ExecutablePath := ExecutablePath a; PID := b_PID r;
     ParentPID := b_ParentPID r; OSUser := OSUser a; DeviceID := DeviceID a;
     WorkspaceID := WorkspaceID a; StartedAt := column (b_StartedAt r);
     SessionKeyHash := b_SessionKeyHash r; SessionExpiresAt := column (b_SessionExpiresAt r);
     TrustLevel := TrustLevel a; Status := StatusActive; LastSeenAt := column (b_At r);
     CreatedAt := CreatedAt a; UpdatedAt := column (b_At r) |}.

Definition with_trust (a : Agent) (level : string) (at_ : Z) : Agent :=
  with_state a level (Status a) (LastSeenAt a) at_.
Definition with_status (a : Agent) (status : string) (at_ : Z) : Agent :=
  with_state a (TrustLevel a) status (LastSeenAt a) at_.
Definition seen (a : Agent) (at_ : Z) : Agent :=
  with_state a (TrustLevel a) (Status a) (column at_) at_.

(** [decodeProcessID]: a row whose process ids are ones. *)
Definition validProcessID (value : Z) : bool := (0 <=? value) && (value <=? MaxInt32).

Definition readable (a : Agent) : bool := validProcessID (PID a) && validProcessID (ParentPID a).

(** The columns an agent is found again by. *)
Record Binding := {
  bind_DeviceID : string;
  bind_WorkspaceID : string;
  bind_ExecutablePath : string;
  bind_OSUser : string;
  bind_ExecutableHash : string;
}.

Definition bound (b : Binding) (a : Agent) : bool :=
  (DeviceID a ==? bind_DeviceID b) && (WorkspaceID a ==? bind_WorkspaceID b) &&
  (ExecutablePath a ==? bind_ExecutablePath b) && (OSUser a ==? bind_OSUser b) &&
  (ExecutableHash a ==? bind_ExecutableHash b).
