(* ===== verification/Risk.v ===== *)
(** * core/risk: the risk engine

    Thirteen factors and a declared label give a level and the list of reasons.
    The rules are a literal table; each raises the level relative to the
    declared baseline, never relative to what an earlier rule gave, so the
    table's order cannot change the level. *)
From S2P Require Import Prelude GoStr Apperr.
From S2P Require Agent Registry.
Open Scope Z_scope.

(** ** Levels and factors (level.go, factors.go) *)

Definition LevelLow : string := "low".
Definition LevelMedium : string := "medium".
Definition LevelHigh : string := "high".

Record Factors := {
  Write : bool;
  Production : bool;
  Reversible : bool;
  ResourceCount : Z;
  Destructive : bool;
  PermissionChange : bool;
  SecretAccess : bool;
  Billing : bool;
  ExternalCommunication : bool;
  FirstSeen : bool;
  BeyondHistory : bool;
  AgentTrust : string;
  DeviceTrust : string;
  DeclaredLabel : string;
}.

Definition levelOf (label : string) : string :=
  if label ==? Registry.RiskLabelLow then LevelLow
  else if label ==? Registry.RiskLabelMedium then LevelMedium
  else if label ==? Registry.RiskLabelHigh then LevelHigh
  else "".

Definition validTrustLevel (level : string) : bool :=
  one_of level [Agent.TrustUnverified; Agent.TrustKnown; Agent.TrustTrusted].
Definition validDeviceTrust (trust : string) : bool :=
  one_of trust [Agent.DeviceTrusted; Agent.DeviceUntrusted].

Definition validate (f : Factors) : result Code unit :=
  if levelOf (DeclaredLabel f) ==? "" then Err CodeInvalidRequest
  else if negb (validTrustLevel (AgentTrust f)) then Err CodeInvalidRequest
  else if negb (validDeviceTrust (DeviceTrust f)) then Err CodeInvalidRequest
  else if ResourceCount f <? 0 then Err CodeInvalidRequest
  else Ok tt.

(** ** Rules (engine.go) *)

Definition FactorDeclaredLabel : string := "adapter_declared_label".
Definition FactorReadOnly : string := "read_only".
Definition FactorDestructive : string := "destructive".
Definition FactorIrreversible : string := "irreversible".
Definition FactorPermissionChange : string := "permission_change".
Definition FactorSecretAccess : string := "secret_access".
Definition FactorBilling : string := "billing".
Definition FactorBulkChange : string := "bulk_change".
Definition FactorProductionWrite : string := "production_write".
Definition FactorBeyondHistory : string := "beyond_history".
Definition FactorFirstSeen : string := "first_seen".
Definition FactorAgentUnverified : string := "agent_unverified".
Definition FactorUntrustedDevice : string := "untrusted_device".
Definition FactorExternalCommunication : string := "external_communication".

Record Assessment := { Level : string; Reasons : list string }.

Definition rank (level : string) : Z :=
  if level ==? LevelLow then 1
  else if level ==? LevelMedium then 2
  else if level ==? LevelHigh then 3
  else 0.

Record rule := Rule {
  factor : string;
  triggered : Factors -> bool;
  raise : string -> string;
}.

Definition toHigh (baseline : string) : string := LevelHigh.
Definition atLeastMedium (baseline : string) : string :=
  if rank LevelMedium <? rank baseline then baseline else LevelMedium.
Definition oneLevelUp (baseline : string) : string :=
  if baseline ==? LevelLow then LevelMedium else LevelHigh.

Definition rules : list rule :=
  [ Rule FactorDestructive Destructive toHigh;
    Rule FactorIrreversible (fun f => Write f && negb (Reversible f)) toHigh;
    Rule FactorPermissionChange PermissionChange toHigh;
    Rule FactorSecretAccess SecretAccess toHigh;
    Rule FactorBilling Billing toHigh;
    Rule FactorBulkChange (fun f => Write f && negb (ResourceCount f =? 1)) toHigh;
    Rule FactorProductionWrite (fun f => Write f && Production f) atLeastMedium;
    Rule FactorBeyondHistory (fun f => Write f && BeyondHistory f) oneLevelUp;
    Rule FactorFirstSeen (fun f => Write f && FirstSeen f) atLeastMedium;
    Rule FactorAgentUnverified
      (fun f => Write f && (AgentTrust f ==? Agent.TrustUnverified)) atLeastMedium;
    Rule FactorUntrustedDevice
      (fun f => Write f && (DeviceTrust f ==? Agent.DeviceUntrusted)) atLeastMedium;
    Rule FactorExternalCommunication
      (fun f => Write f && ExternalCommunication f) atLeastMedium ].

(** One turn of the loop over the rules. *)
Definition apply_rule (f : Factors) (baseline : string) (a : Assessment) (r : rule) : Assessment :=
  if triggered r f then
    {| Level := if rank (Level a) <? rank (raise r baseline) then raise r baseline else Level a;
       Reasons := Reasons a ++ [factor r] |}
  else a.

Definition assess (rs : list rule) (f : Factors) : Assessment :=
  let baseline := levelOf (DeclaredLabel f) in
  foldl (apply_rule f baseline)
    {| Level := baseline;
       Reasons := [FactorDeclaredLabel] ++ (if Write f then [] else [FactorReadOnly]) |} rs.

Definition Evaluate (f : Factors) : result Code Assessment :=
  _ ← validate f; Ok (assess rules f).

(** ** The level as a number *)

Definition rule_rank (f : Factors) (r : rule) : Z :=
  if triggered r f then rank (raise r (levelOf (DeclaredLabel f))) else 0.

(** The rank of the conclusion is the highest of the baseline's and of every
    triggered rule's. *)
Lemma fold_rank f b rs a :
  rank (Level (foldl (apply_rule f b) a rs)) =
    foldr (fun r m => Z.max (if triggered r f then rank (raise r b) else 0) m)
      (rank (Level a)) rs.
Proof.
  assert (Hnn : forall l, 0 <= rank l) by (intros l; unfold rank; repeat case_match; lia).
  revert a. induction rs as [|r rs IH]; intros a; simpl; [done|].
  rewrite IH. unfold apply_rule. destruct (triggered r f).
  - simpl. destruct (Z.ltb_spec (rank (Level a)) (rank (raise r b))).
    + clear IH. induction rs as [|r' rs IH]; simpl; lia.
    + assert (Hge : rank (raise r b) <=
        foldr (fun r m => Z.max (if triggered r f then rank (raise r b) else 0) m)
          (rank (Level a)) rs) by (clear IH; induction rs as [|r' rs IH]; simpl; lia).
      lia.
  - assert (0 <= foldr (fun r m => Z.max (if triggered r f then rank (raise r b) else 0) m)
      (rank (Level a)) rs).
    { clear IH. pose proof (Hnn (Level a)). induction rs as [|r' rs IH]; simpl; lia. }
    lia.
Qed.

Lemma assess_rank rs f :
  rank (Level (assess rs f)) =
    foldr (fun r m => Z.max (rule_rank f r) m) (rank (levelOf (DeclaredLabel f))) rs.
Proof. unfold assess. by rewrite fold_rank. Qed.

Lemma rank_cases l :
  l = LevelLow /\ rank l = 1 \/ l = LevelMedium /\ rank l = 2 \/ l = LevelHigh /\ rank l = 3 \/
  rank l = 0.
Proof. unfold rank. repeat case_bool_decide; auto. Qed.

Lemma rank_inj l k : 0 < rank l -> rank l = rank k -> l = k.
Proof.
  intros Hl Hlk. destruct (rank_cases l) as [[-> E]|[[-> E]|[[-> E]|E]]];
    destruct (rank_cases k) as [[-> F]|[[-> F]|[[-> F]|F]]]; done || lia.
Qed.

Lemma levelOf_rank label : levelOf label <> "" -> 1 <= rank (levelOf label) <= 3.
Proof. unfold levelOf. repeat case_bool_decide; intros; vm_compute; intuition discriminate. Qed.

Lemma validate_ok f :
  validate f = Ok tt <->
    levelOf (DeclaredLabel f) <> "" /\ validTrustLevel (AgentTrust f) = true /\
    validDeviceTrust (DeviceTrust f) = true /\ 0 <= ResourceCount f.
Proof.
  unfold validate. case_bool_decide; [naive_solver|].
  destruct (validTrustLevel _); [|naive_solver]. destruct (validDeviceTrust _); [|naive_solver].
  simpl. destruct (Z.ltb_spec (ResourceCount f) 0); naive_solver lia.
Qed.

Lemma Evaluate_ok f a : Evaluate f = Ok a <-> validate f = Ok tt /\ a = assess rules f.
Proof.
  unfold Evaluate. rewrite bind_Ok. split; [intros ([] & Hv & H); by simplify_eq|].
  intros [Hv ->]. by exists tt.
Qed.

Lemma rank_level_in l : 0 < rank l -> l ∈ [LevelLow; LevelMedium; LevelHigh].
Proof. intros H. destruct (rank_cases l) as [[-> _]|[[-> _]|[[-> _]|E]]]; set_solver || lia. Qed.

(** ** What the level is *)

(** The factors that cap at [high] whatever the baseline. *)
Definition high_factor (f : Factors) : bool :=
  Destructive f || (Write f && negb (Reversible f)) || PermissionChange f || SecretAccess f ||
  Billing f || (Write f && negb (ResourceCount f =? 1)).

(** The factors that make a write at least [medium]. *)
Definition medium_factor (f : Factors) : bool :=
  Write f && (Production f || BeyondHistory f || FirstSeen f ||
    (AgentTrust f ==? Agent.TrustUnverified) || (DeviceTrust f ==? Agent.DeviceUntrusted) ||
    ExternalCommunication f).

Definition level_spec (f : Factors) : string :=
  let baseline := levelOf (DeclaredLabel f) in
  if high_factor f || (baseline ==? LevelHigh) ||
     (Write f && BeyondHistory f && (baseline ==? LevelMedium))
  then LevelHigh
  else if medium_factor f || (baseline ==? LevelMedium) then LevelMedium
  else LevelLow.

Lemma assess_floor rs f : rank (levelOf (DeclaredLabel f)) <= rank (Level (assess rs f)).
Proof. rewrite assess_rank. induction rs as [|r rs IH]; simpl; lia. Qed.

Lemma levelOf_cases label :
  levelOf label <> "" ->
  levelOf label = LevelLow \/ levelOf label = LevelMedium \/ levelOf label = LevelHigh.
Proof. unfold levelOf. repeat case_bool_decide; auto. done. Qed.

(** Equal contributions of two rules merge. *)
Lemma max_if (a b : bool) k x :
  0 <= k ->
  Z.max (if a then k else 0) (Z.max (if b then k else 0) x) =
    Z.max (if a || b then k else 0) x.
Proof. intros. destruct a, b; simpl; lia. Qed.

Ltac is_ground_level x :=
  lazymatch x with LevelLow => idtac | LevelMedium => idtac | LevelHigh => idtac end.

Ltac case_levels :=
  rewrite ?andb_true_r, ?andb_false_r, ?orb_true_r, ?orb_false_r, ?orb_true_l;
  repeat match goal with |- context [if ?b then _ else _] => destruct b eqn:? end;
  bools; try done.

Lemma assess_spec f : validate f = Ok tt -> Level (assess rules f) = level_spec f.
Proof.
  intros (Hl & _)%validate_ok. pose proof (assess_rank rules f) as Hr.
  apply rank_inj; rewrite Hr; clear Hr.
  - pose proof (levelOf_rank _ Hl). pose proof (assess_floor rules f) as Hf.
    rewrite assess_rank in Hf. lia.
  - unfold level_spec, high_factor, medium_factor, rules. cbn [foldr].
    unfold rule_rank. cbn [triggered raise]. rewrite !andb_orb_distrib_r.
    destruct (levelOf_cases _ Hl) as [->|[->| ->]];
      repeat match goal with |- context [rank (?g ?b)] =>
        let v := eval vm_compute in (rank (g b)) in change (rank (g b)) with v end;
      rewrite !max_if by lia; repeat match goal with |- context [?x ==? ?y] =>
        is_ground_level x; is_ground_level y;
        let v := eval vm_compute in (x ==? y) in change (x ==? y) with v end;
      case_levels.
Qed.

(** C34. The engine computes exactly the documented level: [high] for every
    capping factor, whatever the label; one level up for a write beyond what was
    granted before; [medium] for a write with any contextual factor; the declared
    label otherwise. An assessment is produced exactly when every input is
    recognised, and the error is [invalid_request]. *)
Theorem evaluate_level f :
  match Evaluate f with
  | Ok a => Level a = level_spec f
  | Err e =>
      e = CodeInvalidRequest /\
      (levelOf (DeclaredLabel f) = "" \/ validTrustLevel (AgentTrust f) = false \/
       validDeviceTrust (DeviceTrust f) = false \/ ResourceCount f < 0)
  end.
Proof.
  unfold Evaluate. destruct (validate f) as [[]|e] eqn:E; simpl.
  - by apply assess_spec.
  - unfold validate in E. repeat case_match; simplify_eq; bools; auto.
Qed.

(** ** Reasons *)

Lemma fold_reasons f b rs a :
  Reasons (foldl (apply_rule f b) a rs) =
    Reasons a ++ map factor (filter (fun r => triggered r f = true) rs).
Proof.
  revert a. induction rs as [|r rs IH]; intros a; simpl; [by rewrite app_nil_r|].
  rewrite IH, filter_cons. unfold apply_rule. destruct (triggered r f) eqn:E.
  - rewrite decide_True by done. simpl. by rewrite <- app_assoc.
  - by rewrite decide_False by done.
Qed.

Lemma fold_level_explained f b rs a :
  Level (foldl (apply_rule f b) a rs) = Level a \/
  exists r, r ∈ rs /\ triggered r f = true /\ raise r b = Level (foldl (apply_rule f b) a rs).
Proof.
  revert a. induction rs as [|r rs IH]; intros a; simpl; [by left|].
  destruct (IH (apply_rule f b a r)) as [H|(r' & Hin & Ht & Hr)].
  - rewrite H. unfold apply_rule. destruct (triggered r f) eqn:E; [|by left]. simpl.
    destruct (_ <? _); [|by left]. right. exists r. split; [left|done].
  - right. exists r'. split; [by right|done].
Qed.

(** Every assessment says why: the declared label comes first, then
    [read_only] for a read, then the factors of the triggered rules in table
    order; and a level above the declared one is the level some listed factor's
    rule asks for. *)
Theorem evaluate_reasons f a :
  Evaluate f = Ok a ->
  Reasons a = FactorDeclaredLabel :: (if Write f then [] else [FactorReadOnly]) ++
    map factor (filter (fun r => triggered r f = true) rules) /\
  (Level a <> levelOf (DeclaredLabel f) ->
   exists r, r ∈ rules /\ factor r ∈ Reasons a /\ raise r (levelOf (DeclaredLabel f)) = Level a).
Proof.
  intros [_ ->]%Evaluate_ok.
  assert (Hr : Reasons (assess rules f) = FactorDeclaredLabel ::
    (if Write f then [] else [FactorReadOnly]) ++
    map factor (filter (fun r => triggered r f = true) rules))
    by (unfold assess; by rewrite fold_reasons).
  split; [done|]. intros Hne.
  destruct (fold_level_explained f (levelOf (DeclaredLabel f)) rules
    {| Level := levelOf (DeclaredLabel f);
       Reasons := [FactorDeclaredLabel] ++ (if Write f then [] else [FactorReadOnly]) |})
    as [H|(r & Hin & Ht & H)]; [by contradict Hne|].
  exists r. split_and!; [done| |done]. rewrite Hr. right. apply elem_of_app. right.
  apply (list_elem_of_fmap_2 factor), list_elem_of_filter. done.
Qed.

(** ** Order and monotonicity *)

(** The order of the rule table decides only the order of the reasons: any
    permutation of it gives the same level. *)
Theorem evaluate_order rs f :
  validate f = Ok tt -> rs ≡ₚ rules -> Level (assess rs f) = Level (assess rules f).
Proof.
  intros Hv Hp. apply rank_inj.
  - apply validate_ok in Hv as (Hl & _). pose proof (levelOf_rank _ Hl).
    pose proof (assess_floor rs f). lia.
  - rewrite !assess_rank. induction Hp as [|r l k Hp IH|r r' l|l k m _ IH1 _ IH2]; simpl; lia.
Qed.

(** Every danger of [f] is a danger of [g]. *)
Record at_least_as_dangerous (f g : Factors) : Prop := {
  le_label : rank (levelOf (DeclaredLabel f)) <= rank (levelOf (DeclaredLabel g));
  le_write : Write f = true -> Write g = true;
  le_destructive : Destructive f = true -> Destructive g = true;
  le_permission : PermissionChange f = true -> PermissionChange g = true;
  le_secret : SecretAccess f = true -> SecretAccess g = true;
  le_billing : Billing f = true -> Billing g = true;
  le_external : ExternalCommunication f = true -> ExternalCommunication g = true;
  le_production : Production f = true -> Production g = true;
  le_first : FirstSeen f = true -> FirstSeen g = true;
  le_beyond : BeyondHistory f = true -> BeyondHistory g = true;
  le_reversible : Reversible g = true -> Reversible f = true;
  le_count : ResourceCount g = 1 -> ResourceCount f = 1;
  le_agent : AgentTrust f = Agent.TrustUnverified -> AgentTrust g = Agent.TrustUnverified;
  le_device : DeviceTrust f = Agent.DeviceUntrusted -> DeviceTrust g = Agent.DeviceUntrusted;
}.

Lemma triggered_mono f g r :
  at_least_as_dangerous f g -> r ∈ rules -> triggered r f = true -> triggered r g = true.
Proof.
  intros [] Hr. unfold rules in Hr. rewrite !elem_of_cons in Hr.
  destruct_or!; subst; simpl; intros Ht; bools; rewrite ?andb_true_iff; auto;
    try (split; [auto|]); try (apply bool_decide_eq_true; auto); auto.
  - apply negb_true_iff. match goal with H : Reversible f = false |- _ => 
      destruct (Reversible g); [|done]; exfalso; rewrite le_reversible0 in H; done end.
  - apply negb_true_iff, Z.eqb_neq. eauto.
  - by apply not_elem_of_nil in Hr.
Qed.

Lemma raise_mono r b c :
  r ∈ rules -> 1 <= rank b <= rank c -> rank (raise r b) <= rank (raise r c).
Proof.
  intros Hr H. assert (Hc : rank c <= 3) by (unfold rank; repeat case_match; lia).
  assert (Hb : b = LevelLow \/ b = LevelMedium \/ b = LevelHigh)
    by (destruct (rank_cases b) as [[? ?]|[[? ?]|[[? ?]|?]]]; auto; lia).
  assert (Hc' : c = LevelLow \/ c = LevelMedium \/ c = LevelHigh)
    by (destruct (rank_cases c) as [[? ?]|[[? ?]|[[? ?]|?]]]; auto; lia).
  unfold rules in Hr. rewrite !elem_of_cons in Hr.
  destruct_or!; subst; try (by apply not_elem_of_nil in Hr);
    vm_compute in H; vm_compute; intuition discriminate.
Qed.

(** More danger never gives a lower level: raising any factor or the
    declared label, with everything else at least as dangerous, cannot lower the
    assessment. *)
Theorem evaluate_monotone f g a b :
  at_least_as_dangerous f g -> Evaluate f = Ok a -> Evaluate g = Ok b ->
  rank (Level a) <= rank (Level b).
Proof.
  intros Hd [Hf ->]%Evaluate_ok [Hg ->]%Evaluate_ok. rewrite !assess_rank.
  apply validate_ok in Hf as (Hl & _). pose proof (levelOf_rank _ Hl).
  assert (Hsub : forall r, r ∈ rules -> r ∈ rules) by done. revert Hsub.
  generalize rules at 1 3 4 as rs. intros rs Hsub.
  induction rs as [|r rs IH]; simpl; [apply le_label; done|].
  assert (rule_rank f r <= rule_rank g r).
  { unfold rule_rank. destruct (triggered r f) eqn:E.
    - rewrite (triggered_mono f g r) by (done || (apply Hsub; left)).
      apply raise_mono; [apply Hsub; left|]. split; [lia|]. by apply le_label.
    - destruct (triggered r g); [|done]. unfold rank. repeat case_match; lia. }
  assert (forall x, x ∈ rs -> x ∈ rules) by (intros; apply Hsub; by right).
  specialize (IH ltac:(done)). lia.
Qed.

(** ** Witnesses *)

(** A first write of one record by an unconfirmed agent, declared [low]. *)
Definition sample_write : Factors :=
  {| Write := true; Production := false; Reversible := true; ResourceCount := 1;
     Destructive := false; PermissionChange := false; SecretAccess := false; Billing := false;
     ExternalCommunication := false; FirstSeen := true; BeyondHistory := false;
     AgentTrust := Agent.TrustUnverified; DeviceTrust := Agent.DeviceTrusted;
     DeclaredLabel := Registry.RiskLabelLow |}.

(** The same as a deletion in production. *)
Definition sample_delete : Factors :=
  {| Write := true; Production := true; Reversible := false; ResourceCount := 1;
     Destructive := true; PermissionChange := false; SecretAccess := false; Billing := false;
     ExternalCommunication := false; FirstSeen := true; BeyondHistory := false;
     AgentTrust := Agent.TrustUnverified; DeviceTrust := Agent.DeviceTrusted;
     DeclaredLabel := Registry.RiskLabelHigh |}.

Lemma evaluate_reasons_witness :
  exists a, Evaluate sample_write = Ok a /\ Level a = LevelMedium /\
    Reasons a = [FactorDeclaredLabel; FactorFirstSeen; FactorAgentUnverified] /\
    exists r, r ∈ rules /\ factor r ∈ Reasons a.
Proof.
  eexists. split; [reflexivity|].
  destruct (evaluate_reasons sample_write _ eq_refl) as [H1 H2].
  split; [reflexivity|]. split; [reflexivity|].
  destruct H2 as (r & Hr & Hf & _); [discriminate|]. exists r. by split.
Defined.

Lemma evaluate_order_witness :
  Level (assess (reverse rules) sample_write) = LevelMedium.
Proof.
  transitivity (Level (assess rules sample_write)); [|reflexivity].
  apply evaluate_order; [reflexivity|apply reverse_Permutation].
Defined.

Lemma evaluate_monotone_witness :
  exists a b, Evaluate sample_write = Ok a /\ Evaluate sample_delete = Ok b /\
    rank (Level a) <= rank (Level b).
Proof.
  do 2 eexists. split; [reflexivity|]. split; [reflexivity|].
  apply (evaluate_monotone sample_write sample_delete); [|reflexivity|reflexivity].
  constructor; simpl; try done; vm_compute; discriminate.
Defined.
