(* ===== verification/Matcher.v ===== *)
(** * core/matcher: from a request to one identity

    Five levels in a fixed order; the first level that names an available
    identity decides, and a level that names several stops the search and asks
    the user. *)
From S2P Require Import Prelude GoStr Apperr.
Open Scope Z_scope.

(** ** Data (match.go, binding.go, identity.go, matcher.go) *)

Definition MatchWorkspaceBinding : string := "workspace_binding".
Definition MatchResourceBinding : string := "resource_binding".
Definition MatchTrustMemory : string := "trust_memory".
Definition MatchSoleIdentity : string := "sole_identity".
Definition MatchManualSelection : string := "manual_selection".

Definition BindingWorkspace : string := "workspace".
Definition BindingResource : string := "resource".

Record Binding := {
  b_ID : string;
  b_Kind : string;
  b_Service : string;
  b_WorkspaceID : string;
  b_ResourceKey : string;
  b_IdentityID : string;
  b_CreatedAt : Z;
}.

Definition EnvironmentProduction : string := "production".
Definition EnvironmentNonProduction : string := "non-production".

Definition StatusOK : string := "ok".
Definition StatusNeedsReview : string := "needs_review".

Record Identity := {
  ID : string;
  Service : string;
  AccountLabel : string;
  Environment : string;
  IsDefault : bool;
  Status : string;
  CredentialReferenceID : string;
  CreatedAt : Z;
  UpdatedAt : Z;
}.

#[export] Instance Identity_eq_dec : EqDecision Identity.
Proof. solve_decision. Defined.
#[export] Instance Binding_eq_dec : EqDecision Binding.
Proof. solve_decision. Defined.

(** [Identity{}]. *)
Definition zero_identity : Identity :=
  {| ID := ""; Service := ""; AccountLabel := ""; Environment := ""; IsDefault := false;
     Status := ""; CredentialReferenceID := ""; CreatedAt := 0; UpdatedAt := 0 |}.

Record Request := {
  r_Service : string;
  r_WorkspaceID : string;
  r_ResourceKey : string;
}.

Record Inputs := {
  WorkspaceBindings : list Binding;
  ResourceBindings : list Binding;
  MemoryIdentityIDs : list string;
  Identities : list Identity;
  ManualSelection : string;
}.

Record Result := {
  r_Identity : Identity;
  Level : string;
  Ambiguous : bool;
  Candidates : list Identity;
  NeedsReview : bool;
}.

(** [Result{}]. *)
Definition zero_result : Result :=
  {| r_Identity := zero_identity; Level := ""; Ambiguous := false; Candidates := [];
     NeedsReview := false |}.

(** ** Matching *)

Definition hit (identity : Identity) (level : string) : Result :=
  {| r_Identity := identity; Level := level; Ambiguous := false; Candidates := [];
     NeedsReview := Status identity ==? StatusNeedsReview |}.

Definition ambiguous (candidates : list Identity) : Result :=
  {| r_Identity := zero_identity; Level := ""; Ambiguous := true; Candidates := candidates;
     NeedsReview := false |}.

Definition manualOrAmbiguous (candidates : list Identity) (selection : string) : Result :=
  if selection !=? "" then
    match find_first (fun candidate => ID candidate ==? selection) candidates with
    | Some candidate => hit candidate MatchManualSelection
    | None => ambiguous candidates
    end
  else ambiguous candidates.

(** The loop stops at the first identity of another service or without a key;
    both are the caller's mistake. *)
Definition availableIdentities (service : string) (identities : list Identity)
    : result Code (list Identity) :=
  if existsb (fun i => (Service i !=? service) || (ID i ==? "")) identities
  then Err CodeInternal
  else Ok identities.

Definition workspaceCandidates (request : Request) (bindings : list Binding) : list string :=
  if r_WorkspaceID request ==? "" then []
  else map b_IdentityID
         (filter (fun b => ((b_Kind b ==? BindingWorkspace) &&
                            ((b_Service b ==? r_Service request) &&
                             (b_WorkspaceID b ==? r_WorkspaceID request))) = true) bindings).

Definition resourceCandidates (request : Request) (bindings : list Binding) : list string :=
  if r_ResourceKey request ==? "" then []
  else map b_IdentityID
         (filter (fun b => ((b_Kind b ==? BindingResource) &&
                            ((b_Service b ==? r_Service request) &&
                             (b_ResourceKey b ==? r_ResourceKey request))) = true) bindings).

Definition identityIDs (identities : list Identity) : list string := map ID identities.

(** [byID]: of two identities with one key the later one is in the map. *)
Definition byID (available : list Identity) (id : string) : option Identity :=
  find_first (fun i => ID i ==? id) (reverse available).

(** The loop over the candidates with its [seen] set. *)
Fixpoint pick (available : list Identity) (seen : list string) (candidateIDs : list string)
    : list Identity :=
  match candidateIDs with
  | [] => []
  | id :: rest =>
      match byID available id with
      | Some found =>
          if one_of id seen then pick available seen rest
          else found :: pick available (id :: seen) rest
      | None => pick available seen rest
      end
  end.

Definition by_id (i j : Identity) : Prop := String.le (ID i) (ID j).
#[export] Instance by_id_dec : RelDecision by_id := fun i j => decide (String.le (ID i) (ID j)).

Definition selectIdentities (candidateIDs : list string) (available : list Identity)
    : list Identity :=
  merge_sort by_id (pick available [] candidateIDs).

(** The loop over the levels. *)
Fixpoint match_levels (levels : list (string * list string)) (available : list Identity)
    (selection : string) : result Code Result :=
  match levels with
  | [] => Err CodeInternal
  | (level, candidates) :: rest =>
      match selectIdentities candidates available with
      | [] => match_levels rest available selection
      | [found] => Ok (hit found level)
      | matched => Ok (manualOrAmbiguous matched selection)
      end
  end.

Definition match_order (request : Request) (inputs : Inputs) (available : list Identity)
    : list (string * list string) :=
  [ (MatchWorkspaceBinding, workspaceCandidates request (WorkspaceBindings inputs));
    (MatchResourceBinding, resourceCandidates request (ResourceBindings inputs));
    (MatchTrustMemory, MemoryIdentityIDs inputs);
    (MatchSoleIdentity, identityIDs available) ].

Definition Match (request : Request) (inputs : Inputs) : result Code Result :=
  if r_Service request ==? "" then Err CodeInvalidRequest
  else
    available ← availableIdentities (r_Service request) (Identities inputs);
    if (length available =? 0)%nat then Err CodeCredentialNotAuthorized
    else match_levels (match_order request inputs available) available (ManualSelection inputs).

(** ** Selection *)

Lemma byID_ID available id i : byID available id = Some i -> ID i = id /\ i ∈ available.
Proof.
  unfold byID. intros [Hin He]%find_first_Some. bools. split; [done|].
  by apply elem_of_reverse.
Qed.

Lemma byID_is_Some available id : is_Some (byID available id) <-> id ∈ identityIDs available.
Proof.
  unfold byID, identityIDs. rewrite find_first_is_Some, existsb_elem_of, list_elem_of_fmap.
  split.
  - intros (i & Hi & He). bools. exists i. split; [done|]. by apply elem_of_reverse.
  - intros (i & -> & Hi). exists i. split; [by apply elem_of_reverse|].
    by apply bool_decide_eq_true.
Qed.

Lemma elem_of_pick available seen cands i :
  i ∈ pick available seen cands <->
    byID available (ID i) = Some i /\ ID i ∈ cands /\ ID i ∉ seen.
Proof.
  revert seen. induction cands as [|c cands IH]; intros seen; simpl.
  - split; [by intros ?%not_elem_of_nil|intros (_ & H & _); by apply not_elem_of_nil in H].
  - destruct (byID available c) as [j|] eqn:Ej.
    + pose proof (byID_ID _ _ _ Ej) as [Hj _].
      destruct (one_of c seen) eqn:Es.
      * apply one_of_spec in Es. rewrite IH, elem_of_cons.
        split; [tauto|]. intros (H1 & [->|H2] & H3); tauto.
      * assert (c ∉ seen) by (intros Hc%one_of_spec; congruence).
        rewrite elem_of_cons, IH, !elem_of_cons. split.
        -- intros [->|?]; [rewrite Hj; tauto|tauto].
        -- intros (H1 & [H2|H2] & H3); [left; congruence|].
           destruct (decide (ID i = c)); [left; congruence|right; tauto].
    + rewrite IH, elem_of_cons. split; [tauto|]. intros (H1 & [H2|H2] & H3); [|tauto].
      congruence.
Qed.

Lemma NoDup_pick available seen cands : NoDup (map ID (pick available seen cands)).
Proof.
  revert seen. induction cands as [|c cands IH]; intros seen; simpl; [constructor|].
  destruct (byID available c) as [j|] eqn:Ej; [|done].
  destruct (one_of c seen); [done|]. simpl. apply NoDup_cons_2; [|done].
  intros (i & Hi & Hin)%list_elem_of_fmap. apply elem_of_pick in Hin as (_ & _ & Hn).
  pose proof (byID_ID _ _ _ Ej) as [Hj _]. apply Hn. rewrite <- Hi, Hj. left.
Qed.

(** Exactly the available identities the candidate list names, once each. *)
Lemma elem_of_selectIdentities cands available i :
  i ∈ selectIdentities cands available <->
    byID available (ID i) = Some i /\ ID i ∈ cands.
Proof.
  unfold selectIdentities. rewrite merge_sort_Permutation, elem_of_pick.
  split; [naive_solver|]. intros [H1 H2]. split_and!; [done..|]. apply not_elem_of_nil.
Qed.

Lemma NoDup_selectIdentities cands available :
  NoDup (map ID (selectIdentities cands available)).
Proof.
  unfold selectIdentities. rewrite (merge_sort_Permutation by_id). apply NoDup_pick.
Qed.

(** A candidate list that names nobody selects nobody. *)
Lemma selectIdentities_nil cands available :
  selectIdentities cands available = [] <->
    forall id, id ∈ cands -> id ∉ identityIDs available.
Proof.
  split.
  - intros H id Hid Hin. apply byID_is_Some in Hin as [i Hi].
    pose proof (byID_ID _ _ _ Hi) as [<- _].
    apply (not_elem_of_nil i). rewrite <- H. by apply elem_of_selectIdentities.
  - intros H. destruct (selectIdentities cands available) as [|i l] eqn:E; [done|].
    exfalso. assert (Hi : i ∈ selectIdentities cands available) by (rewrite E; left).
    apply elem_of_selectIdentities in Hi as [Hb Hc]. apply (H _ Hc), byID_is_Some. by eexists.
Qed.

Lemma selectIdentities_all available :
  available <> [] -> selectIdentities (identityIDs available) available <> [].
Proof.
  destruct available as [|i l]; [done|]. intros _. rewrite selectIdentities_nil.
  intros H. apply (H (ID i)); left.
Qed.

(** ** The deciding level *)

(** [c] is the first entry of [levels] that names an available identity. *)
Definition decides (levels : list (string * list string)) (available : list Identity)
    (c : string * list string) : Prop :=
  exists before after, levels = before ++ c :: after /\
    (forall b, b ∈ before -> selectIdentities b.2 available = []) /\
    selectIdentities c.2 available <> [].

Lemma match_levels_decides levels available sel r :
  match_levels levels available sel = Ok r ->
  exists c, decides levels available c /\
    match selectIdentities c.2 available with
    | [i] => r = hit i c.1
    | l => r = manualOrAmbiguous l sel
    end.
Proof.
  induction levels as [|[level cands] levels IH]; cbn [match_levels]; [done|].
  destruct (selectIdentities cands available) as [|i [|j l]] eqn:E; intros H.
  - destruct (IH H) as (c & (before & after & -> & Hb & Hc) & Hr). exists c. split; [|done].
    exists ((level, cands) :: before), after. split_and!; [done| |done].
    intros b [->|Hin]%elem_of_cons; auto.
  - simplify_eq. exists (level, cands). split; [|by simpl; rewrite E].
    exists [], levels. split_and!; [done| |simpl; by rewrite E].
    by intros b ?%not_elem_of_nil.
  - simplify_eq. exists (level, cands). split; [|by simpl; rewrite E].
    exists [], levels. split_and!; [done| |simpl; by rewrite E].
    by intros b ?%not_elem_of_nil.
Qed.

Lemma match_levels_total levels available sel :
  (exists c, c ∈ levels /\ selectIdentities c.2 available <> []) ->
  is_Ok (match_levels levels available sel) = true.
Proof.
  intros (c & Hc & Hne). induction levels as [|[level cands] levels IH];
    [by apply not_elem_of_nil in Hc|]. cbn [match_levels].
  destruct (selectIdentities cands available) as [|i [|j l]] eqn:E; [|done..].
  apply IH. by apply elem_of_cons in Hc as [->|Hc].
Qed.

Lemma availableIdentities_ok service ids l :
  availableIdentities service ids = Ok l <->
    l = ids /\ forall i, i ∈ ids -> Service i = service /\ ID i <> "".
Proof.
  unfold availableIdentities. destruct (existsb _ ids) eqn:E.
  - split; [done|]. intros [_ H]. apply existsb_elem_of in E as (i & Hi & Hbad).
    destruct (H i Hi). apply orb_true_iff in Hbad as [Hb|Hb]; bools; done.
  - rewrite existsb_false in E. split; [|by intros [-> _]]. intros. simplify_eq.
    split; [done|]. intros i Hi. specialize (E i Hi). bools. done.
Qed.

(** Matching is the five-level search and nothing else: the first of the
    four lists - project binding, resource binding, remembered choice, all of the
    service's identities - that names an available identity decides. One name is
    a hit at that level. Several names are never resolved by going on or by the
    default mark: the result is the user's own selection when it is one of them,
    otherwise no identity and exactly those candidates. *)
Theorem match_deciding_level request inputs r :
  Match request inputs = Ok r ->
  let available := Identities inputs in
  exists level cands,
    decides (match_order request inputs available) available (level, cands) /\
    let named := selectIdentities cands available in
    (forall i, i ∈ named <-> byID available (ID i) = Some i /\ ID i ∈ cands) /\
    NoDup (map ID named) /\
    ((exists i, named = [i] /\ r = hit i level) \/
     (2 <= length named)%nat /\
       ((exists i, i ∈ named /\ ID i = ManualSelection inputs /\
           r = hit i MatchManualSelection) \/
        (ManualSelection inputs = "" \/ ManualSelection inputs ∉ map ID named) /\
        r_Identity r = zero_identity /\ Ambiguous r = true /\ Candidates r = named)).
Proof.
  unfold Match. intros H. case_bool_decide; [done|].
  apply bind_Ok in H as (l & Hl & H). apply availableIdentities_ok in Hl as [-> _].
  destruct (length _ =? 0)%nat; [done|].
  destruct (match_levels_decides _ _ _ _ H) as ([level cands] & Hd & Hr). simpl in Hr.
  exists level, cands. split; [done|]. cbv zeta. split; [apply elem_of_selectIdentities|].
  split; [apply NoDup_selectIdentities|].
  destruct (selectIdentities cands (Identities inputs)) as [|i [|j rest]] eqn:E.
  - destruct Hd as (? & ? & _ & _ & Hne). by contradict Hne.
  - left. by exists i.
  - right. split; [simpl; lia|]. rewrite Hr. unfold manualOrAmbiguous.
    destruct (find_first _ _) as [k|] eqn:Ek; case_bool_decide as Hs; simpl.
    + right. split_and!; auto.
    + left. apply find_first_Some in Ek as [Hk He]. bools. by exists k.
    + right. split_and!; auto.
    + right. split_and!; try done. right. change (ID i :: _) with (ID <$> (i :: j :: rest)).
      intros (k & Hk & Hin)%list_elem_of_fmap. rewrite find_first_None in Ek. specialize (Ek k Hin). bools. congruence.
Qed.

(** With well-formed inputs the search always concludes: [Match] fails only
    for an empty service, for identities of another service or without a key, and
    for a service with no identity; the fall-through error after the last level is
    unreachable. *)
Theorem match_total request inputs :
  match Match request inputs with
  | Ok r => r_Service request <> "" /\ Identities inputs <> []
  | Err e =>
      (e = CodeInvalidRequest /\ r_Service request = "") \/
      (e = CodeInternal /\ exists i, i ∈ Identities inputs /\
         (Service i <> r_Service request \/ ID i = "")) \/
      (e = CodeCredentialNotAuthorized /\ Identities inputs = [])
  end.
Proof.
  unfold Match. case_bool_decide as Hs; [by left|].
  destruct (availableIdentities _ _) as [l|e] eqn:El; cbn [mbind result_bind].
  - apply availableIdentities_ok in El as [-> _].
    destruct (Identities inputs) as [|i l] eqn:Ei; [by right; right|].
    cbn [length Nat.eqb].
    pose proof (match_levels_total (match_order request inputs (i :: l)) (i :: l)
      (ManualSelection inputs)) as Ht.
    destruct (match_levels _ _ _) eqn:Em; [by split|]. exfalso.
    enough (Hf : false = true) by done. apply Ht.
    exists (MatchSoleIdentity, identityIDs (i :: l)). split.
    + unfold match_order. set_solver.
    + by apply selectIdentities_all.
  - right; left. unfold availableIdentities in El.
    destruct (existsb _ _) eqn:Ex; simplify_eq. split; [done|].
    apply existsb_elem_of in Ex as (i & Hi & Hb). exists i. split; [done|].
    apply orb_true_iff in Hb as [Hb|Hb]; bools; auto.
Qed.

(** ** Witness *)

Definition sample_identity (id : string) (isDefault : bool) : Identity :=
  {| ID := id; Service := "github"; AccountLabel := id; Environment := EnvironmentProduction;
     IsDefault := isDefault; Status := StatusOK; CredentialReferenceID := "c";
     CreatedAt := 0; UpdatedAt := 0 |}.

(** Two identities, no binding and no memory: the user is asked. *)
Definition sample_request : Request :=
  {| r_Service := "github"; r_WorkspaceID := "w"; r_ResourceKey := "repo=a" |}.
Definition sample_inputs : Inputs :=
  {| WorkspaceBindings := []; ResourceBindings := []; MemoryIdentityIDs := [];
     Identities := [sample_identity "work" true; sample_identity "home" false];
     ManualSelection := "" |}.

Lemma match_deciding_level_witness :
  exists r, Match sample_request sample_inputs = Ok r /\ Ambiguous r = true /\
    exists level cands,
      decides (match_order sample_request sample_inputs (Identities sample_inputs))
        (Identities sample_inputs) (level, cands).
Proof.
  eexists. split; [reflexivity|]. split; [reflexivity|].
  destruct (match_deciding_level sample_request sample_inputs _ eq_refl)
    as (level & cands & Hd & _). exists level, cands. exact Hd.
Defined.
