(* ===== verification/Glob.v ===== *)
(** * path.Match

    Go's glob matcher as the standard library runs it: the pattern is cut at its
    stars into chunks, each chunk is matched at the first place it fits (the
    last one must reach the end of the name), and no star crosses a slash.
    [None] is [ErrBadPattern], which a malformed pattern gives whatever the
    name. *)
From S2P Require Import Prelude GoStr.
Open Scope Z_scope.

Inductive token :=
| Any
| Byte (c : ascii)
| Class (negated : bool) (ranges : list (Z * Z)).

(** The first rune, with what follows it. *)
Definition decode_first (s : string) : option (Z * string * string) :=
  match chunks s with
  | (r, b) :: _ => Some (r, b, drop_str (String.length b) s)
  | [] => None
  end.

(** [getEsc]: one, possibly escaped, character of a class, which never ends the
    pattern. *)
Definition get_esc (chunk : string) : option (Z * string) :=
  let decode s :=
    '(r, b, rest) ← decode_first s;
    if invalid_chunk (r, b) || (rest ==? "") then None else Some (r, rest) in
  match chunk with
  | "" => None
  | String c r =>
      if (byte_of c =? 45) || (byte_of c =? 93) then None
      else if byte_of c =? 92 then decode r
      else decode chunk
  end.

(** The ranges of a class up to its closing bracket. *)
Fixpoint parse_ranges (fuel : nat) (seen : bool) (chunk : string)
    : option (list (Z * Z) * string) :=
  match fuel with
  | O => None
  | S fuel =>
      let more :=
        '(lo, rest) ← get_esc chunk;
        match rest with
        | String c r =>
            if byte_of c =? 45 then
              '(hi, rest) ← get_esc r;
              '(l, rest) ← parse_ranges fuel true rest;
              Some ((lo, hi) :: l, rest)
            else
              '(l, rest) ← parse_ranges fuel true rest;
              Some ((lo, lo) :: l, rest)
        | "" => None
        end in
      match chunk with
      | String c r => if (byte_of c =? 93) && seen then Some ([], r) else more
      | "" => more
      end
  end.

Fixpoint parse_chunk (fuel : nat) (chunk : string) : option (list token) :=
  match fuel with
  | O => None
  | S fuel =>
      match chunk with
      | "" => Some []
      | String c r =>
          if byte_of c =? 91 then
            let '(negated, body) :=
              match r with
              | String d r1 => if byte_of d =? 94 then (true, r1) else (false, r)
              | "" => (false, r)
              end in
            '(ranges, rest) ← parse_ranges (S (String.length body)) false body;
            l ← parse_chunk fuel rest;
            Some (Class negated ranges :: l)
          else if byte_of c =? 63 then l ← parse_chunk fuel r; Some (Any :: l)
          else if byte_of c =? 92 then
            match r with
            | "" => None
            | String d r => l ← parse_chunk fuel r; Some (Byte d :: l)
            end
          else l ← parse_chunk fuel r; Some (Byte c :: l)
      end
  end.

Fixpoint skip_stars (s : string) : bool * string :=
  match s with
  | String c r => if byte_of c =? 42 then (true, (skip_stars r).2) else (false, s)
  | "" => (false, "")
  end.

(** [scanChunk] after the stars: up to the next star outside brackets. *)
Fixpoint scan_chunk (inrange : bool) (s : string) : string * string :=
  match s with
  | "" => ("", "")
  | String c r =>
      if byte_of c =? 92 then
        match r with
        | "" => (String c "", "")
        | String d r => let '(w, rest) := scan_chunk inrange r in (String c (String d w), rest)
        end
      else if byte_of c =? 91 then let '(w, rest) := scan_chunk true r in (String c w, rest)
      else if byte_of c =? 93 then let '(w, rest) := scan_chunk false r in (String c w, rest)
      else if (byte_of c =? 42) && negb inrange then ("", s)
      else let '(w, rest) := scan_chunk inrange r in (String c w, rest)
  end.

(** The pattern as chunks, each with whether a star precedes it. *)
Fixpoint parse_pattern (fuel : nat) (pattern : string) : option (list (bool * list token)) :=
  match fuel with
  | O => None
  | S fuel =>
      if pattern ==? "" then Some []
      else
        let '(star, body) := skip_stars pattern in
        let '(chunk, rest) := scan_chunk false body in
        tokens ← parse_chunk (S (String.length chunk)) chunk;
        l ← parse_pattern fuel rest;
        Some ((star, tokens) :: l)
  end.

(** [matchChunk]: what is left of the name after the chunk. *)
Fixpoint match_chunk (tokens : list token) (s : string) : option string :=
  match tokens with
  | [] => Some s
  | t :: tokens =>
      match s with
      | "" => None
      | String c r =>
          match t with
          | Byte d => if c ==? d then match_chunk tokens r else None
          | Any =>
              if byte_of c =? 47 then None
              else match decode_first s with
                   | Some (_, _, rest) => match_chunk tokens rest
                   | None => None
                   end
          | Class negated ranges =>
              match decode_first s with
              | Some (r, _, rest) =>
                  if eqb (existsb (fun '(lo, hi) => in_range lo hi r) ranges) negated
                  then None
                  else match_chunk tokens rest
              | None => None
              end
          end
      end
  end.

(** Try the chunk after skipping one, two, ... bytes, none of them a slash. *)
Fixpoint seek (last : bool) (tokens : list token) (name : string) : option string :=
  match name with
  | "" => None
  | String c r =>
      if byte_of c =? 47 then None
      else
        match match_chunk tokens r with
        | Some t => if last && (t !=? "") then seek last tokens r else Some t
        | None => seek last tokens r
        end
  end.

Fixpoint match_pattern (l : list (bool * list token)) (name : string) : bool :=
  match l with
  | [] => name ==? ""
  | (star, tokens) :: rest =>
      if star && (match tokens with [] => true | _ => false end)
      then negb (str_exists (fun c => byte_of c =? 47) name)
      else
        let last := match rest with [] => true | _ => false end in
        let here :=
          match match_chunk tokens name with
          | Some t => if (t ==? "") || negb last then Some t else None
          | None => None
          end in
        match here with
        | Some t => match_pattern rest t
        | None =>
            if star then
              match seek last tokens name with
              | Some t => match_pattern rest t
              | None => false
              end
            else false
        end
  end.

(** [path.Match]. *)
Definition Match (pattern name : string) : option bool :=
  l ← parse_pattern (S (String.length pattern)) pattern;
  Some (match_pattern l name).

Example match_star : Match "prod-*" "prod-eu" = Some true.
Proof. reflexivity. Qed.
Example match_star_slash : Match "*" "a/b" = Some false.
Proof. reflexivity. Qed.
Example match_middle : Match "*a?c[x-z]" "baabcy" = Some true.
Proof. reflexivity. Qed.
Example match_bad : Match "a[" "a" = None.
Proof. reflexivity. Qed.
