(* ===== verification/Intent.v ===== *)
(** * core/intent: from a call to a structured intent

    The capability table built from the adapters' stored declarations
    (capability.go), the encoding that writes those declarations (declare.go),
    and the resolver that turns one call into an [Intent] (resolver.go). The
    resolver can only produce operations of the table: it has nowhere else to
    take one from. *)
From S2P Require Import Prelude GoStr Apperr.
From S2P Require Json Glob Registry Matcher.
Open Scope Z_scope.

(** [encoding/json] reads every number of an untyped document as a float64;
    this is the part of it that fails. [float_text lit] is the text the number
    prints as, [None] when the literal is out of range. *)
Class Floats := { float_text : string -> option string }.

(** Integers and short decimals print as they were written. *)
Definition literal_floats : Floats := {| float_text := Some |}.

(** ** Intent (intent.go) *)

Record Intent := {
  Service : string;
  Operation : string;
  Resource : gmap string string;
  ResourceKey : string;
  IgnoredFields : list string;
  Environment : string;
  EnvironmentAssumed : bool;
  DesiredChange : string;
  Reversible : bool;
  SensitiveData : bool;
  Idempotent : bool;
  RiskLabel : string;
  ResourceAmbiguous : bool;
}.

Definition validRiskLabel (label : string) : bool :=
  one_of label [Registry.RiskLabelLow; Registry.RiskLabelMedium; Registry.RiskLabelHigh].

Definition validate (i : Intent) : result Code unit :=
  if Service i ==? "" then Err CodeCapabilityNotOffered
  else if Operation i ==? "" then Err CodeCapabilityNotOffered
  else if bool_decide (Resource i = ∅) || (ResourceKey i ==? "") then Err CodeCapabilityNotOffered
  else if (Environment i !=? Matcher.EnvironmentProduction) &&
          (Environment i !=? Matcher.EnvironmentNonProduction) then Err CodeCapabilityNotOffered
  else if negb (validRiskLabel (RiskLabel i)) then Err CodeCapabilityNotOffered
  else Ok tt.

Definition resource_part (resource : gmap string string) (key : string) : string :=
  key +:+ "=" +:+ default "" (resource !! key).

(** Keys in order, so the map's walk order cannot show. *)
Definition ResourceKeyOf (resource : gmap string string) : string :=
  join ";" (map (resource_part resource) (Json.sorted_keys resource)).

(** ** The capability table (capability.go) *)

Record Capability := {
  Tool : string;
  c_Operation : string;
  Method : string;
  Path : string;
  Risk : string;
  c_Idempotent : option bool;
  c_Reversible : option bool;
  c_SensitiveData : option bool;
  ResourceKeys : option (list string);
}.

#[export] Instance Capability_eq_dec : EqDecision Capability.
Proof. solve_decision. Defined.

(** [Capability{}], the value the decoder starts from. *)
Definition zero_capability : Capability :=
  {| Tool := ""; c_Operation := ""; Method := ""; Path := ""; Risk := "";
     c_Idempotent := None; c_Reversible := None; c_SensitiveData := None;
     ResourceKeys := None |}.

Definition resource_keys (c : Capability) : list string := default [] (ResourceKeys c).

Definition capability_validate (c : Capability) : result Code unit :=
  if Tool c ==? "" then Err CodeInvalidConfiguration
  else if c_Operation c ==? "" then Err CodeInvalidConfiguration
  else if Method c ==? "" then Err CodeInvalidConfiguration
  else if Path c ==? "" then Err CodeInvalidConfiguration
  else if negb (validRiskLabel (Risk c)) then Err CodeInvalidConfiguration
  else if c_Idempotent c ==? None then Err CodeInvalidConfiguration
  else if c_Reversible c ==? None then Err CodeInvalidConfiguration
  else if c_SensitiveData c ==? None then Err CodeInvalidConfiguration
  else if (length (resource_keys c) =? 0)%nat then Err CodeInvalidConfiguration
  else if one_of "" (resource_keys c) then Err CodeInvalidConfiguration
  else Ok tt.

(** The [json] tags of [Capability]. *)
Definition capability_setters : list (Json.setter (S := Capability)) :=
  [ ("tool", fun v c => s ← Json.as_string (Tool c) v;
      Some {| Tool := s; c_Operation := c_Operation c; Method := Method c; Path := Path c;
              Risk := Risk c; c_Idempotent := c_Idempotent c; c_Reversible := c_Reversible c;
              c_SensitiveData := c_SensitiveData c; ResourceKeys := ResourceKeys c |});
    ("operation", fun v c => s ← Json.as_string (c_Operation c) v;
      Some {| Tool := Tool c; c_Operation := s; Method := Method c; Path := Path c;
              Risk := Risk c; c_Idempotent := c_Idempotent c; c_Reversible := c_Reversible c;
              c_SensitiveData := c_SensitiveData c; ResourceKeys := ResourceKeys c |});
    ("method", fun v c => s ← Json.as_string (Method c) v;
      Some {| Tool := Tool c; c_Operation := c_Operation c; Method := s; Path := Path c;
              Risk := Risk c; c_Idempotent := c_Idempotent c; c_Reversible := c_Reversible c;
              c_SensitiveData := c_SensitiveData c; ResourceKeys := ResourceKeys c |});
    ("path", fun v c => s ← Json.as_string (Path c) v;
      Some {| Tool := Tool c; c_Operation := c_Operation c; Method := Method c; Path := s;
              Risk := Risk c; c_Idempotent := c_Idempotent c; c_Reversible := c_Reversible c;
              c_SensitiveData := c_SensitiveData c; ResourceKeys := ResourceKeys c |});
    ("risk", fun v c => s ← Json.as_string (Risk c) v;
      Some {| Tool := Tool c; c_Operation := c_Operation c; Method := Method c; Path := Path c;
              Risk := s; c_Idempotent := c_Idempotent c; c_Reversible := c_Reversible c;
              c_SensitiveData := c_SensitiveData c; ResourceKeys := ResourceKeys c |});
    ("idempotent", fun v c => b ← Json.as_bool_ptr v;
      Some {| Tool := Tool c; c_Operation := c_Operation c; Method := Method c; Path := Path c;
              Risk := Risk c; c_Idempotent := b; c_Reversible := c_Reversible c;
              c_SensitiveData := c_SensitiveData c; ResourceKeys := ResourceKeys c |});
    ("reversible", fun v c => b ← Json.as_bool_ptr v;
      Some {| Tool := Tool c; c_Operation := c_Operation c; Method := Method c; Path := Path c;
              Risk := Risk c; c_Idempotent := c_Idempotent c; c_Reversible := b;
              c_SensitiveData := c_SensitiveData c; ResourceKeys := ResourceKeys c |});
    ("sensitive_data", fun v c => b ← Json.as_bool_ptr v;
      Some {| Tool := Tool c; c_Operation := c_Operation c; Method := Method c; Path := Path c;
              Risk := Risk c; c_Idempotent := c_Idempotent c; c_Reversible := c_Reversible c;
              c_SensitiveData := b; ResourceKeys := ResourceKeys c |});
    ("resource_keys", fun v c => l ← Json.as_strings (ResourceKeys c) v;
      Some {| Tool := Tool c; c_Operation := c_Operation c; Method := Method c; Path := Path c;
              Risk := Risk c; c_Idempotent := c_Idempotent c; c_Reversible := c_Reversible c;
              c_SensitiveData := c_SensitiveData c; ResourceKeys := l |}) ].

Definition capability_json (c : Capability) : Json.json :=
  Json.JObj
    [ ("tool", Json.of_string (Tool c)); ("operation", Json.of_string (c_Operation c));
      ("method", Json.of_string (Method c)); ("path", Json.of_string (Path c));
      ("risk", Json.of_string (Risk c)); ("idempotent", Json.of_bool_ptr (c_Idempotent c));
      ("reversible", Json.of_bool_ptr (c_Reversible c));
      ("sensitive_data", Json.of_bool_ptr (c_SensitiveData c));
      ("resource_keys", Json.of_strings (ResourceKeys c)) ].

Record entry := {
  service : string;
  capability : Capability;
  e_segments : list string;
}.

Record Catalog := {
  byTool : gmap string entry;
  byOperation : gmap string entry;
  byRoute : list entry;
}.

Definition empty_catalog : Catalog := {| byTool := ∅; byOperation := ∅; byRoute := [] |}.

(** Every element of a list through a fallible step, stopping at the first
    error. *)
Fixpoint fold_result {A B} (f : B -> A -> result Code B) (b : B) (l : list A) : result Code B :=
  match l with [] => Ok b | x :: rest => b' ← f b x; fold_result f b' rest end.

Definition splitPath (path : string) : list string :=
  filter (fun segment => segment <> "") (split_on "/" path).

Fixpoint matchSegments (template actual : list string) : bool :=
  match template, actual with
  | [], [] => true
  | t :: template, a :: actual =>
      ((has_prefix t "{" && has_suffix t "}") || (t ==? a)) && matchSegments template actual
  | _, _ => false
  end.

Definition nul : string := String (of_byte 0) "".
Definition operationKeyOf (service operation : string) : string := service +:+ nul +:+ operation.

Section resolver.
Context `{Unicode}.

Fixpoint decode_capabilities (items : list Json.json) : option (list Capability) :=
  match items with
  | [] => Some []
  | v :: rest =>
      c ← Json.decode_struct capability_setters v zero_capability;
      l ← decode_capabilities rest;
      Some (c :: l)
  end.

Definition unmarshal_capabilities (text : string) : option (list Capability) :=
  match Json.parse text with
  | Some (Json.JArr items) => decode_capabilities items
  | Some Json.JNull => Some []
  | _ => None
  end.

Definition parseCapabilities (declaration : Registry.Declaration)
    : result Code (list Capability) :=
  match unmarshal_capabilities (Registry.d_Capabilities declaration) with
  | None => Err CodeInvalidConfiguration
  | Some capabilities =>
      if (length capabilities =? 0)%nat then Err CodeInvalidConfiguration
      else
        _ ← fold_result (fun _ c => capability_validate c) tt capabilities;
        Ok capabilities
  end.

Definition add_capability (service : string) (catalog : Catalog) (c : Capability)
    : result Code Catalog :=
  let added := {| service := service; capability := c; e_segments := splitPath (Path c) |} in
  let operationKey := operationKeyOf service (c_Operation c) in
  match byTool catalog !! Tool c, byOperation catalog !! operationKey with
  | None, None =>
      Ok {| byTool := <[Tool c := added]> (byTool catalog);
            byOperation := <[operationKey := added]> (byOperation catalog);
            byRoute := byRoute catalog ++ [added] |}
  | _, _ => Err CodeInvalidConfiguration
  end.

Definition add_declaration (catalog : Catalog) (declaration : Registry.Declaration)
    : result Code Catalog :=
  if Registry.d_Status declaration !=? Registry.StatusEnabled then Ok catalog
  else
    capabilities ← parseCapabilities declaration;
    fold_result (add_capability (Registry.d_Service declaration)) catalog capabilities.

Definition NewCatalog (declarations : list Registry.Declaration) : result Code Catalog :=
  fold_result add_declaration empty_catalog declarations.

Definition ToolFor (c : Catalog) (service operation : string) : option string :=
  e ← byOperation c !! operationKeyOf service operation; Some (Tool (capability e)).

Definition lookupTool (c : Catalog) (tool : string) : option entry := byTool c !! tool.

(** [None]: no template fits; two that fit are an error. *)
Definition lookupRoute (c : Catalog) (method path : string) : result Code (option entry) :=
  let wanted := splitPath path in
  let normalizedMethod := to_upper method in
  match filter (fun e => ((Method (capability e) ==? normalizedMethod) &&
                          matchSegments (e_segments e) wanted) = true) (byRoute c) with
  | [] => Ok None
  | [found] => Ok (Some found)
  | _ => Err CodeCapabilityNotOffered
  end.

(** ** The resolver (resolver.go) *)

Record Call := {
  call_Tool : string;
  call_Method : string;
  call_Path : string;
  call_Resource : string;
  call_DesiredChange : string;
  IdentityEnvironment : string;
}.

Record Resolver := { production : list string; nonProduction : list string }.

Definition validatePatterns (patterns : list string) : result Code unit :=
  if existsb (fun p => (p ==? "") || (Glob.Match p "" ==? None)) patterns
  then Err CodeInvalidConfiguration
  else Ok tt.

Definition NewResolver (productionPatterns nonProductionPatterns : list string)
    : result Code Resolver :=
  _ ← validatePatterns productionPatterns;
  _ ← validatePatterns nonProductionPatterns;
  Ok {| production := productionPatterns; nonProduction := nonProductionPatterns |}.

Definition lookup_call (catalog : Catalog) (call : Call) : result Code entry :=
  if call_Tool call !=? "" then
    match lookupTool catalog (call_Tool call) with
    | Some found => Ok found
    | None => Err CodeCapabilityNotOffered
    end
  else if (call_Method call ==? "") || (call_Path call ==? "") then Err CodeInvalidRequest
  else
    found ← lookupRoute catalog (call_Method call) (call_Path call);
    match found with Some e => Ok e | None => Err CodeCapabilityNotOffered end.

Context `{Floats}.

(** Every number of the document is a float64. *)
Fixpoint numbers_ok (v : Json.json) : bool :=
  match v with
  | Json.JNum lit => bool_decide (is_Some (float_text lit))
  | Json.JArr l => forallb numbers_ok l
  | Json.JObj l => forallb (fun kv => numbers_ok kv.2) l
  | _ => true
  end.

(** [Unmarshal] into a [map[string]any]: the members, in textual order. *)
Definition unmarshal_object (raw : string) : option (list (string * Json.json)) :=
  match Json.parse raw with
  | Some (Json.JObj fields) => if numbers_ok (Json.JObj fields) then Some fields else None
  | Some Json.JNull => Some []
  | _ => None
  end.

(** [fields[key]]: of two members with one key the later one counts. *)
Definition field_value (fields : list (string * Json.json)) (key : string) : option Json.json :=
  snd <$> find_first (fun kv => Json.unquote kv.1 ==? Some key) (reverse fields).

Definition field_keys (fields : list (string * Json.json)) : list string :=
  omap (fun kv => Json.unquote kv.1) fields.

Fixpoint take_fields (fields : list (string * Json.json)) (keys : list string)
    (resource : gmap string string) (ambiguous : bool)
    : result Code (gmap string string * bool) :=
  match keys with
  | [] => Ok (resource, ambiguous)
  | key :: rest =>
      match field_value fields key with
      | Some (Json.JStr raw) =>
          match Json.unquote raw with
          | Some text =>
              if text ==? "" then Err CodeInvalidRequest
              else take_fields fields rest (<[key := text]> resource)
                     (ambiguous || contains_any text "*?")
          | None => Err CodeInvalidRequest
          end
      | _ => Err CodeInvalidRequest
      end
  end.

Definition extractResource (raw : string) (keys : list string)
    : result Code (gmap string string * list string * bool) :=
  if trim_space raw ==? "" then Err CodeInvalidRequest
  else
    match unmarshal_object raw with
    | None => Err CodeInvalidRequest
    | Some fields =>
        '(resource, ambiguous) ← take_fields fields keys ∅ false;
        let ignored :=
          sort_strings (remove_dups (filter (fun k => k ∉ keys) (field_keys fields))) in
        Ok (resource, ignored, ambiguous)
    end.

Definition matchesAny (patterns : list string) (resource : gmap string string) : bool :=
  existsb (fun pattern =>
    existsb (fun kv => Glob.Match pattern kv.2 ==? Some true) (map_to_list resource)) patterns.

Definition resolveEnvironment (r : Resolver) (declared : string) (resource : gmap string string)
    : string * bool :=
  if one_of declared [Matcher.EnvironmentProduction; Matcher.EnvironmentNonProduction]
  then (declared, false)
  else if matchesAny (production r) resource then (Matcher.EnvironmentProduction, false)
  else if matchesAny (nonProduction r) resource then (Matcher.EnvironmentNonProduction, false)
  else (Matcher.EnvironmentProduction, true).

(** [*found.capability.Reversible] and its like: a table entry always has
    them, so the dereference does not fail. *)
Definition deref (b : option bool) : bool := default false b.

Definition Resolve (r : Resolver) (catalog : option Catalog) (call : Call)
    : result Code Intent :=
  match catalog with
  | None => Err CodeCapabilityNotOffered
  | Some catalog =>
      found ← lookup_call catalog call;
      '(resource, ignored, ambiguous) ←
        extractResource (call_Resource call) (resource_keys (capability found));
      let '(environment, assumed) :=
        resolveEnvironment r (IdentityEnvironment call) resource in
      let resolved :=
        {| Service := service found;
           Operation := c_Operation (capability found);
           Resource := resource;
           ResourceKey := ResourceKeyOf resource;
           IgnoredFields := ignored;
           Environment := environment;
           EnvironmentAssumed := assumed;
           DesiredChange := call_DesiredChange call;
           Reversible := deref (c_Reversible (capability found));
           SensitiveData := deref (c_SensitiveData (capability found));
           Idempotent := deref (c_Idempotent (capability found));
           RiskLabel := Risk (capability found);
           ResourceAmbiguous := ambiguous |} in
      _ ← validate resolved;
      Ok resolved
  end.
End resolver.

(** ** The catalog's invariant *)

(** A capability the table may hold: validated, every pointer set. *)
Record complete (c : Capability) : Prop := {
  has_tool : Tool c <> "";
  has_operation : c_Operation c <> "";
  has_method : Method c <> "";
  has_path : Path c <> "";
  has_risk : validRiskLabel (Risk c) = true;
  has_idempotent : is_Some (c_Idempotent c);
  has_reversible : is_Some (c_Reversible c);
  has_sensitive : is_Some (c_SensitiveData c);
  has_keys : resource_keys c <> [];
  keys_named : "" ∉ resource_keys c;
}.

Lemma capability_validate_ok c : capability_validate c = Ok tt <-> complete c.
Proof.
  unfold capability_validate. split.
  - repeat (case_match; [discriminate|]). bools. intros _.
    constructor; try done; try (by apply not_eq_None_Some).
    + intros E. by rewrite E in *.
    + intros Hin. apply one_of_spec in Hin. congruence.
  - intros []. rewrite !bool_decide_eq_false_2 by first [done | by apply not_eq_None_Some].
    rewrite has_risk0. destruct (resource_keys c) eqn:E; [done|].
    simpl negb. cbn iota. destruct (one_of "" _) eqn:E1; [|done].
    by apply one_of_spec in E1.
Qed.

Lemma fold_result_ok {A B} (f : B -> A -> result Code B) (P : B -> Prop) b l b' :
  P b -> (forall b x b', x ∈ l -> P b -> f b x = Ok b' -> P b') ->
  fold_result f b l = Ok b' -> P b'.
Proof.
  revert b. induction l as [|x l IH]; simpl; intros b Hb Hf H; [by simplify_eq|].
  apply bind_Ok in H as (b1 & H1 & H2). eapply IH; [|..|exact H2].
  - eapply Hf; [left|done|done].
  - intros ? y ? Hy. apply Hf. by right.
Qed.

Lemma fold_result_all {A} (f : A -> result Code unit) l u :
  fold_result (fun _ x => f x) u l = Ok tt -> forall x, x ∈ l -> f x = Ok tt.
Proof.
  revert u. induction l as [|y l IH]; intros u H x Hx; [by apply not_elem_of_nil in Hx|].
  simpl in H. apply bind_Ok in H as ([] & H1 & H2).
  apply elem_of_cons in Hx as [->|Hx]; [done|]. by eapply IH.
Qed.

(** An entry of the table, and the two maps being indexes of the route list. *)
Record catalog_ok (c : Catalog) : Prop := {
  tool_indexed : forall tool e, byTool c !! tool = Some e ->
    Tool (capability e) = tool /\ e ∈ byRoute c;
  operation_indexed : forall key e, byOperation c !! key = Some e ->
    operationKeyOf (service e) (c_Operation (capability e)) = key /\ e ∈ byRoute c;
  routes_indexed : forall e, e ∈ byRoute c ->
    byTool c !! Tool (capability e) = Some e /\
    byOperation c !! operationKeyOf (service e) (c_Operation (capability e)) = Some e /\
    complete (capability e) /\ e_segments e = splitPath (Path (capability e));
  routes_nodup : NoDup (byRoute c);
}.

Lemma empty_catalog_ok : catalog_ok empty_catalog.
Proof.
  split; simpl.
  - intros ? ?. by rewrite lookup_empty.
  - intros ? ?. by rewrite lookup_empty.
  - by intros ? ?%not_elem_of_nil.
  - constructor.
Qed.

Lemma add_capability_ok svc c cap c' :
  catalog_ok c -> complete cap -> add_capability svc c cap = Ok c' -> catalog_ok c'.
Proof.
  intros [Ht Ho Hr Hn] Hc. unfold add_capability.
  set (added := {| service := svc; capability := cap; e_segments := splitPath (Path cap) |}).
  destruct (byTool c !! Tool cap) eqn:E1; [done|].
  destruct (byOperation c !! _) eqn:E2; [done|]. intros [= <-].
  assert (Hnew : added ∉ byRoute c).
  { intros (H & _)%Hr. simpl in H. congruence. }
  split; simpl.
  - intros tool e. rewrite lookup_insert_Some. intros [[<- <-]|[Hne He]].
    + split; [done|]. set_solver.
    + destruct (Ht _ _ He). split; [done|]. set_solver.
  - intros key e. rewrite lookup_insert_Some. intros [[<- <-]|[Hne He]].
    + split; [done|]. set_solver.
    + destruct (Ho _ _ He). split; [done|]. set_solver.
  - intros e. rewrite elem_of_app, list_elem_of_singleton. intros [He| ->].
    + destruct (Hr e He) as (H1 & H2 & H3 & H4).
      rewrite !lookup_insert_ne by congruence. done.
    + by rewrite !lookup_insert_eq.
  - apply NoDup_app. split_and!; [done| |apply NoDup_singleton].
    intros e He ->%list_elem_of_singleton. done.
Qed.

Lemma NewCatalog_ok `{Unicode} declarations c :
  NewCatalog declarations = Ok c -> catalog_ok c.
Proof.
  apply fold_result_ok; [apply empty_catalog_ok|]. intros b d b' _ Hb Hd.
  unfold add_declaration in Hd. destruct (_ !=? _); [by simplify_eq|].
  apply bind_Ok in Hd as (caps & Hcaps & Hd). unfold parseCapabilities in Hcaps.
  destruct (unmarshal_capabilities _) as [l|]; [|done]. destruct (_ =? 0)%nat; [done|].
  apply bind_Ok in Hcaps as ([] & Hall & Hcaps). simplify_eq.
  eapply (fold_result_ok _ catalog_ok); [exact Hb| |exact Hd].
  intros c1 cap c2 Hin Hc1 Hadd. eapply add_capability_ok; [done| |done].
  by apply capability_validate_ok, (fold_result_all capability_validate caps tt).
Qed.

(** The table built from stored declarations is a consistent index: every
    entry is a complete declaration (no missing risk, reversibility, idempotency
    or resource key), a tool name and a (service, operation) pair each name at
    most one entry, and the three views hold the same entries. *)
Theorem catalog_consistent `{Unicode} declarations c :
  NewCatalog declarations = Ok c ->
  (forall e, e ∈ byRoute c -> complete (capability e)) /\
  (forall e e', e ∈ byRoute c -> e' ∈ byRoute c ->
     Tool (capability e) = Tool (capability e') -> e = e') /\
  (forall e e', e ∈ byRoute c -> e' ∈ byRoute c ->
     service e = service e' -> c_Operation (capability e) = c_Operation (capability e') -> e = e') /\
  (forall tool e, lookupTool c tool = Some e <-> e ∈ byRoute c /\ Tool (capability e) = tool).
Proof.
  intros Hok%NewCatalog_ok. destruct Hok as [Ht Ho Hr Hn]. split_and!.
  - intros e He. by destruct (Hr e He) as (_ & _ & ? & _).
  - intros e e' He He' Heq. destruct (Hr e He) as (H1 & _). destruct (Hr e' He') as (H2 & _).
    congruence.
  - intros e e' He He' Hs Hop. destruct (Hr e He) as (_ & H1 & _).
    destruct (Hr e' He') as (_ & H2 & _). congruence.
  - intros tool e. unfold lookupTool. split.
    + intros He. by destruct (Ht _ _ He).
    + intros [He <-]. by destruct (Hr e He).
Qed.

(** ** Resolution *)

Section resolution.
Context `{Unicode} `{Floats}.

(** The text of a request field: a non-empty JSON string under that name. *)
Definition field_text (fields : list (string * Json.json)) (key text : string) : Prop :=
  exists raw, field_value fields key = Some (Json.JStr raw) /\ Json.unquote raw = Some text /\
    text <> "".

Lemma field_text_inj fields key t1 t2 :
  field_text fields key t1 -> field_text fields key t2 -> t1 = t2.
Proof. intros (r1 & H1 & H2 & _) (r2 & H3 & H4 & _). congruence. Qed.

Lemma take_fields_ok fields keys r0 a0 r a :
  take_fields fields keys r0 a0 = Ok (r, a) ->
  (forall k, k ∈ keys -> exists t, r !! k = Some t /\ field_text fields k t) /\
  (forall k, k ∉ keys -> r !! k = r0 !! k) /\
  (a = true <-> a0 = true \/
     exists k t, k ∈ keys /\ field_text fields k t /\ contains_any t "*?" = true).
Proof.
  revert r0 a0. induction keys as [|key keys IH]; simpl; intros r0 a0 Ht.
  - simplify_eq. split_and!; [by intros ? ?%not_elem_of_nil|done|].
    split; [by left|]. by intros [?|(? & ? & ?%not_elem_of_nil & _)].
  - destruct (field_value fields key) as [[| | |raw| |]|] eqn:Ev; try done.
    destruct (Json.unquote raw) as [text|] eqn:Eu; [|done].
    destruct (text ==? "") eqn:Ee; [done|]. bools.
    assert (Hft : field_text fields key text) by (by exists raw).
    destruct (IH _ _ Ht) as (H1 & H2 & H3). split_and!.
    + intros k Hk. destruct (decide (k ∈ keys)) as [Hin|Hn]; [by apply H1|].
      apply elem_of_cons in Hk as [->|Hk]; [|done].
      exists text. split; [|done]. by rewrite H2, lookup_insert_eq.
    + intros k Hk. apply not_elem_of_cons in Hk as [Hne Hk].
      by rewrite H2, lookup_insert_ne.
    + rewrite H3, orb_true_iff. split.
      * intros [[Ha|Hw]|(k & t & Hk & Hf & Hc)]; [by left| |].
        -- right. exists key, text. split_and!; [left|done|done].
        -- right. exists k, t. split_and!; [by right|done|done].
      * intros [Ha|(k & t & Hk & Hf & Hc)]; [by left; left|].
        apply elem_of_cons in Hk as [->|Hk].
        -- left. right. by rewrite (field_text_inj _ _ _ _ Hft Hf).
        -- right. exists k, t. by split_and!.
Qed.

(** A resolved intent is exactly a declared operation applied to the
    declared resource fields of the request. The operation, labels and flags
    are those of one complete table entry - the one the tool name spells
    letter for letter, or the single one whose method and template fit. The
    resource holds every declared key with the non-empty text the request gave
    for it and nothing else; the undeclared field names are reported, in order;
    a wildcard in a value marks the intent ambiguous. *)
Theorem resolve_sound r declarations catalog call i :
  NewCatalog declarations = Ok catalog ->
  Resolve r (Some catalog) call = Ok i ->
  exists e fields,
    e ∈ byRoute catalog /\ complete (capability e) /\
    (call_Tool call <> "" -> Tool (capability e) = call_Tool call) /\
    (call_Tool call = "" -> forall e', e' ∈ byRoute catalog ->
       Method (capability e') = to_upper (call_Method call) ->
       matchSegments (e_segments e') (splitPath (call_Path call)) = true -> e' = e) /\
    unmarshal_object (call_Resource call) = Some fields /\
    Service i = service e /\ Operation i = c_Operation (capability e) /\
    RiskLabel i = Risk (capability e) /\
    Some (Reversible i) = c_Reversible (capability e) /\
    Some (SensitiveData i) = c_SensitiveData (capability e) /\
    Some (Idempotent i) = c_Idempotent (capability e) /\
    (forall k v, Resource i !! k = Some v <->
       k ∈ resource_keys (capability e) /\ field_text fields k v) /\
    ResourceKey i = ResourceKeyOf (Resource i) /\
    (forall k, k ∈ IgnoredFields i <->
       k ∈ field_keys fields /\ k ∉ resource_keys (capability e)) /\
    (ResourceAmbiguous i = true <->
       exists k v, Resource i !! k = Some v /\ contains_any v "*?" = true).
Proof.
  intros Hcat Hres. pose proof (NewCatalog_ok _ _ Hcat) as [Ht Ho Hr Hn].
  unfold Resolve in Hres. apply bind_Ok in Hres as (e & Hl & Hres).
  apply bind_Ok in Hres as ([[resource ignored] amb] & Hx & Hres).
  destruct (resolveEnvironment _ _ _) as [env assumed].
  apply bind_Ok in Hres as ([] & Hv & Hres). simplify_eq.
  assert (He : e ∈ byRoute catalog /\
    (call_Tool call <> "" -> Tool (capability e) = call_Tool call) /\
    (call_Tool call = "" -> forall e', e' ∈ byRoute catalog ->
       Method (capability e') = to_upper (call_Method call) ->
       matchSegments (e_segments e') (splitPath (call_Path call)) = true -> e' = e)).
  { clear Hx. unfold lookup_call in Hl. case_bool_decide as Htool; simpl in Hl.
    - destruct (_ || _); [done|]. apply bind_Ok in Hl as ([x|] & Hl & Hx); [|done]. simplify_eq.
      unfold lookupRoute in Hl.
      destruct (filter _ _) as [|x [|y l]] eqn:Ef; simplify_eq.
      assert (Hin : e ∈ filter (fun e => ((Method (capability e) ==? to_upper (call_Method call)) &&
        matchSegments (e_segments e) (splitPath (call_Path call))) = true) (byRoute catalog))
        by (rewrite Ef; left).
      apply list_elem_of_filter in Hin as [_ Hin]. split; [done|]. split; [done|].
      intros _ e' He' Hm Hs.
      apply list_elem_of_singleton. rewrite <- Ef. apply list_elem_of_filter.
      split; [|done]. rewrite Hs, andb_true_r. by apply bool_decide_eq_true.
    - unfold lookupTool in Hl. destruct (byTool catalog !! _) as [x|] eqn:Eb; simplify_eq.
      destruct (Ht _ _ Eb). done. }
  destruct He as (Hin & Htool & Hroute). destruct (Hr e Hin) as (_ & _ & Hc & _).
  unfold extractResource in Hx. destruct (_ ==? _); [done|].
  destruct (unmarshal_object _) as [fields|] eqn:Eu; [|done].
  apply bind_Ok in Hx as ([res amb'] & Htk & Hx). simplify_eq.
  destruct (take_fields_ok _ _ _ _ _ _ Htk) as (H1 & H2 & H3).
  assert (Hlook : forall k v, resource !! k = Some v <->
    k ∈ resource_keys (capability e) /\ field_text fields k v).
  { intros k v. destruct (decide (k ∈ resource_keys (capability e))) as [Hk|Hk].
    - destruct (H1 k Hk) as (t & Hrk & Hf). rewrite Hrk. split.
      + intros. by simplify_eq.
      + intros [_ Hf2]. by rewrite (field_text_inj _ _ _ _ Hf Hf2).
    - rewrite (H2 k Hk), lookup_empty. naive_solver. }
  exists e, fields. simpl. pose proof Hc as [].
  destruct has_idempotent0 as [b1 Hb1], has_reversible0 as [b2 Hb2],
    has_sensitive0 as [b3 Hb3].
  split_and!; try done; try (by rewrite ?Hb1, ?Hb2, ?Hb3).
  - intros k. rewrite sort_strings_perm, elem_of_remove_dups, list_elem_of_filter. tauto.
  - rewrite H3. split; [intros [?|(k & t & Hk & Hf & Hw)]; [done|]|].
    + exists k, t. by rewrite Hlook.
    + intros (k & v & Hk & Hw). right. apply Hlook in Hk as [Hk Hf]. by exists k, v.
Qed.

(** The environment follows the three-level rule: the mark on the matched
    identity, then the naming patterns with production first, then production
    marked as assumed. Nothing but an explicit mark or a non-production pattern
    with no production pattern can make it non-production. *)
Theorem environment_priority r declared resource :
  let '(environment, assumed) := resolveEnvironment r declared resource in
  (environment = Matcher.EnvironmentProduction \/
   environment = Matcher.EnvironmentNonProduction) /\
  (assumed = true <->
     declared <> Matcher.EnvironmentProduction /\
     declared <> Matcher.EnvironmentNonProduction /\
     matchesAny (production r) resource = false /\
     matchesAny (nonProduction r) resource = false) /\
  (environment = Matcher.EnvironmentNonProduction <->
     declared = Matcher.EnvironmentNonProduction \/
     declared <> Matcher.EnvironmentProduction /\
     matchesAny (production r) resource = false /\
     matchesAny (nonProduction r) resource = true).
Proof.
  unfold resolveEnvironment.
  destruct (one_of declared _) eqn:E.
  - apply one_of_spec in E. rewrite !elem_of_cons in E.
    destruct E as [->|[->|E%not_elem_of_nil]]; [| |done]; split_and!; naive_solver.
  - assert (Hn : declared <> Matcher.EnvironmentProduction /\
      declared <> Matcher.EnvironmentNonProduction).
    { split; intros ->; by vm_compute in E. }
    destruct Hn. destruct (matchesAny (production r) _); [split_and!; naive_solver|].
    destruct (matchesAny (nonProduction r) _); split_and!; naive_solver.
Qed.
End resolution.

(** ** The resource key *)

(** No separator inside a key or a value. *)
Definition separator_free (resource : gmap string string) : Prop :=
  forall k v, resource !! k = Some v ->
    contains_any k "=;" = false /\ contains_any v ";" = false.

Lemma str_exists_ext (p q : ascii -> bool) s :
  (forall c, q c = true -> p c = true) -> str_exists p s = false -> str_exists q s = false.
Proof.
  intros Hpq. induction s as [|c s IH]; simpl; [done|]. intros [Hp Hs]%orb_false_iff.
  apply orb_false_iff. split; [|auto]. destruct (q c) eqn:E; [|done]. apply Hpq in E. congruence.
Qed.

Lemma no_char (set s : string) (c : ascii) :
  ascii_in set c = true -> contains_any s set = false ->
  str_exists (fun d => d ==? c) s = false.
Proof.
  intros Hc. apply str_exists_ext. intros d Hd. bools. by subst.
Qed.

Lemma cut_inj k1 k2 v1 v2 :
  str_exists (fun c => c ==? "="%char) k1 = false ->
  str_exists (fun c => c ==? "="%char) k2 = false ->
  k1 +:+ "=" +:+ v1 = k2 +:+ "=" +:+ v2 -> k1 = k2 /\ v1 = v2.
Proof.
  revert k2. induction k1 as [|c k1 IH]; intros [|d k2] H1 H2 H.
  - split; [done|]. by injection H.
  - rewrite str_app_cons, str_app_nil_l in H. injection H as <- _. done.
  - rewrite str_app_cons, str_app_nil_l in H. injection H as -> _. done.
  - rewrite !str_app_cons in H. injection H as -> H. simpl in H1, H2.
    apply orb_false_iff in H1 as [_ H1]. apply orb_false_iff in H2 as [_ H2].
    by destruct (IH k2 H1 H2 H) as [-> ->].
Qed.

Lemma join_nonempty c l x : x ∈ l -> x <> "" -> join (String c "") l <> "".
Proof.
  destruct l as [|y [|z l]]; intros Hx Hne; [by apply not_elem_of_nil in Hx| |].
  - by apply list_elem_of_singleton in Hx as ->.
  - change (join _ (y :: z :: l)) with (y +:+ String c "" +:+ join (String c "") (z :: l)).
    by destruct y.
Qed.

Lemma resource_part_no_semicolon r k :
  separator_free r -> is_Some (r !! k) ->
  str_exists (fun c => c ==? ";"%char) (resource_part r k) = false.
Proof.
  intros Hr [v Hv]. destruct (Hr k v Hv) as [Hk Hvv]. unfold resource_part. rewrite Hv. simpl.
  rewrite !str_exists_app, (no_char "=;" k), (no_char ";" v) by done. done.
Qed.

(** On resources without separators the normalised text identifies the
    resource: two of them have the same key only when they are the same map. It
    is the comparison resource bindings and leases rely on. *)
Theorem ResourceKeyOf_injective r1 r2 :
  separator_free r1 -> separator_free r2 -> ResourceKeyOf r1 = ResourceKeyOf r2 -> r1 = r2.
Proof.
  intros H1 H2 Heq. unfold ResourceKeyOf in Heq.
  assert (Hparts : map (resource_part r1) (Json.sorted_keys r1) =
                   map (resource_part r2) (Json.sorted_keys r2)).
  { assert (Hn : forall r x l, x ∈ map (resource_part r) l -> x <> "").
    { intros r x l (k & -> & _)%list_elem_of_fmap. unfold resource_part. by destruct k. }
    assert (Hs : forall r, separator_free r -> forall w,
      w ∈ map (resource_part r) (Json.sorted_keys r) ->
      str_exists (fun c => c ==? ";"%char) w = false).
    { intros r Hr w (k & -> & Hk)%list_elem_of_fmap. apply Json.elem_of_sorted_keys in Hk.
      by apply resource_part_no_semicolon. }
    pose proof (Hs r1 H1) as S1. pose proof (Hs r2 H2) as S2.
    pose proof (fun x => Hn r1 x (Json.sorted_keys r1)) as N1.
    pose proof (fun x => Hn r2 x (Json.sorted_keys r2)) as N2.
    destruct (map (resource_part r1) _) as [|x l1] eqn:E1;
      destruct (map (resource_part r2) _) as [|y l2] eqn:E2; [done|..].
    - symmetry in Heq. apply (join_nonempty ";"%char (y :: l2) y) in Heq; [done|left|].
      apply N2. left.
    - apply (join_nonempty ";"%char (x :: l1) x) in Heq; [done|left|]. apply N1. left.
    - rewrite <- (split_join ";"%char (x :: l1)), <- (split_join ";"%char (y :: l2)) by done.
      by f_equal. }
  assert (Hpairs : forall r k v, separator_free r ->
    r !! k = Some v <-> k ∈ Json.sorted_keys r /\ resource_part r k = k +:+ "=" +:+ v).
  { intros r k v Hr. rewrite Json.elem_of_sorted_keys. unfold resource_part. split.
    - intros Hv. rewrite Hv. split; [by eexists|done].
    - intros [[w Hw] E]. rewrite Hw in *. simpl in E. f_equal.
      apply (inj (String.append k)) in E. by apply (inj (String.append "=")) in E. }
  assert (Hsub : forall a b, separator_free a -> separator_free b ->
    map (resource_part a) (Json.sorted_keys a) = map (resource_part b) (Json.sorted_keys b) ->
    forall k v, a !! k = Some v -> b !! k = Some v).
  { intros a b Ha Hb E k v Hk. pose proof (Ha _ _ Hk) as [Hkc _].
    apply Hpairs in Hk as [Hin Hp]; [|done].
    assert (Hx : resource_part a k ∈ map (resource_part b) (Json.sorted_keys b))
      by (rewrite <- E; by apply (list_elem_of_fmap_2 (resource_part a))).
    apply list_elem_of_fmap in Hx as (k' & Hkk & Hin').
    apply Json.elem_of_sorted_keys in Hin' as [v' Hv']. pose proof (Hb _ _ Hv') as [Hkc' _].
    unfold resource_part in Hkk at 2. rewrite Hp, Hv' in Hkk.
    apply cut_inj in Hkk as [-> ->]; [done| |]; eapply (no_char "=;"); done. }
  apply map_eq. intros k. apply option_eq. intros v. split; by apply Hsub.
Qed.

(** Without that restriction it does not: separators inside values are not
    escaped, so two different resources of one operation can share a key. *)
Theorem ResourceKeyOf_collision :
  let r1 := <["a" := "1;b=2"]> (<["b" := "3"]> ∅) : gmap string string in
  let r2 := <["a" := "1"]> (<["b" := "2;b=3"]> ∅) : gmap string string in
  r1 <> r2 /\ dom r1 = dom r2 /\ ResourceKeyOf r1 = ResourceKeyOf r2.
Proof.
  cbv zeta. split_and!.
  - intros E. apply (f_equal (lookup "a")) in E. by vm_compute in E.
  - vm_compute. reflexivity.
  - vm_compute. reflexivity.
Qed.
