(* ===== verification/Declare.v ===== *)
(** * core/intent: encoding adapter declarations (declare.go)

    How the compile-time contract of an adapter becomes the stored text the
    capability table is parsed from, and the names its operations get as tools.
    Writer and reader live in one package in the source; here the round trip
    between them is a theorem. *)
From S2P Require Import Prelude GoStr Apperr.
From S2P Require Json Registry.
From S2P Require Import Intent.
Open Scope Z_scope.

Definition verbs : list string :=
  ["bulk_update"; "create"; "delete"; "manage"; "merge"; "purge"; "read"; "update"].

(** The loop over the verbs. *)
Fixpoint tool_name (vs : list string) (service operation : string) : result Code string :=
  match vs with
  | [] => Err CodeInvalidConfiguration
  | verb :: rest =>
      if operation ==? verb then Err CodeInvalidConfiguration
      else if negb (has_prefix operation (verb +:+ "_")) then tool_name rest service operation
      else
        let resource := trim_prefix operation (verb +:+ "_") in
        if resource ==? "" then Err CodeInvalidConfiguration
        else Ok (service +:+ "." +:+ resource +:+ "." +:+ verb)
  end.

Definition ToolName (service operation : string) : result Code string :=
  tool_name verbs service operation.

Section encode.
Context `{Unicode}.

(** What one declaration is encoded as. *)
Definition encode_one (tool : string) (c : Registry.Capability) : Capability :=
  {| Tool := tool;
     c_Operation := Registry.Operation c;
     Method := Registry.Method c;
     Path := Registry.Path c;
     Risk := Registry.RiskLabel c;
     c_Idempotent := Some (Registry.Idempotency c ==? Registry.Idempotent);
     c_Reversible := Some (Registry.Rollback c !=? Registry.RollbackNone);
     c_SensitiveData := Some (Registry.SecretAccess (Registry.c_Nature c));
     ResourceKeys := Some (Registry.ResourceKeys (Registry.c_MinimumScope c)) |}.

Fixpoint encode_all (service : string) (declared : list Registry.Capability)
    : result Code (list Capability) :=
  match declared with
  | [] => Ok []
  | c :: rest =>
      _ ← Registry.Validate c;
      tool ← ToolName service (Registry.Operation c);
      l ← encode_all service rest;
      Ok (encode_one tool c :: l)
  end.

Definition capabilities_text (l : list Capability) : string :=
  Json.print (Json.JArr (map capability_json l)).

Definition EncodeCapabilities (service : string) (declared : list Registry.Capability)
    : result Code string :=
  if (length declared =? 0)%nat then Err CodeInvalidConfiguration
  else
    encoded ← encode_all service declared;
    Ok (capabilities_text encoded).

(** A set of strings as a sorted JSON list. *)
Definition encodeSet (values : list string) : string :=
  Json.print (Json.of_strings (Some (sort_strings (remove_dups values)))).

Definition encodeSorted (declared : list Registry.Capability)
    (pick : Registry.Capability -> string) : string :=
  encodeSet (map pick declared).

Definition EncodePaths (declared : list Registry.Capability) : string :=
  encodeSorted declared Registry.Path.
Definition EncodeMethods (declared : list Registry.Capability) : string :=
  encodeSorted declared (fun c => to_upper (Registry.Method c)).
Definition EncodeRedactionRules (declared : list Registry.Capability) : string :=
  encodeSet (concat (map (fun c => default [] (Registry.RedactionRules c)) declared)).
End encode.

Fixpoint default_risk (highest : string) (declared : list Registry.Capability) : string :=
  match declared with
  | [] => highest
  | c :: rest =>
      if Registry.RiskLabel c ==? Registry.RiskLabelHigh then Registry.RiskLabelHigh
      else if Registry.RiskLabel c ==? Registry.RiskLabelMedium
      then default_risk Registry.RiskLabelMedium rest
      else default_risk highest rest
  end.

Definition DefaultRiskOf (declared : list Registry.Capability) : string :=
  default_risk Registry.RiskLabelLow declared.

(** ** Tool names *)

Lemma tool_name_shape vs service operation tool :
  tool_name vs service operation = Ok tool ->
  exists verb resource, verb ∈ vs /\ resource <> "" /\ operation = verb +:+ "_" +:+ resource /\
    tool = service +:+ "." +:+ resource +:+ "." +:+ verb.
Proof.
  induction vs as [|v vs IH]; simpl; [done|]. case_bool_decide; [done|].
  destruct (has_prefix operation (v +:+ "_")) eqn:Ep; simpl.
  - case_bool_decide as Hr; [done|]. intros [= <-].
    exists v, (trim_prefix operation (v +:+ "_")). split_and!; [left|done| |done].
    apply prefix_spec in Ep as [u ->]. rewrite trim_prefix_app. by rewrite str_app_assoc.
  - intros H1. destruct (IH H1) as (verb & r & Hv & ?). exists verb, r. split; [by right|done].
Qed.

(** A verb holds no dot, so the last dot of a tool name separates it. *)
Lemma verb_no_dot verb : verb ∈ verbs -> str_exists (fun c => c ==? "."%char) verb = false.
Proof.
  unfold verbs. rewrite !elem_of_cons. intros Hv. destruct_or!; subst; try reflexivity.
  by apply not_elem_of_nil in Hv.
Qed.

Lemma str_rev_app_acc s t : String.rev_app s t = String.rev s +:+ t.
Proof.
  unfold String.rev. revert t. induction s as [|c s IH]; intros t; [done|]. simpl.
  rewrite (IH (String c t)), (IH (String c "")), <- str_app_assoc. done.
Qed.

Lemma app_inv_tail_str (a b t : string) : a +:+ t = b +:+ t -> a = b.
Proof.
  revert b. induction a as [|c a IH]; intros [|d b] Hab; [done|..].
  - apply (f_equal String.length) in Hab. rewrite !str_length_app in Hab. simpl in Hab. lia.
  - apply (f_equal String.length) in Hab. rewrite !str_length_app in Hab. simpl in Hab. lia.
  - rewrite !str_app_cons in Hab. injection Hab as -> Hab. by rewrite (IH b).
Qed.

Lemma last_dot_inj r1 r2 v1 v2 :
  str_exists (fun c => c ==? "."%char) v1 = false ->
  str_exists (fun c => c ==? "."%char) v2 = false ->
  r1 +:+ "." +:+ v1 = r2 +:+ "." +:+ v2 -> r1 = r2 /\ v1 = v2.
Proof.
  assert (Hin : forall r v w, r +:+ "." +:+ v = w ->
    str_exists (fun c => c ==? "."%char) w = true).
  { intros r v w <-. rewrite !str_exists_app. simpl. by rewrite orb_true_r. }
  revert r2. induction r1 as [|c r1 IH]; intros [|d r2] H1 H2 Heq.
  - split; [done|]. by apply (inj (String.append ".")) in Heq.
  - rewrite str_app_nil_l, !str_app_cons, str_app_nil_l in Heq. injection Heq as _ Heq.
    symmetry in Heq. apply Hin in Heq. by destruct (eq_true_false_abs _ Heq H1).
  - rewrite str_app_nil_l, !str_app_cons, str_app_nil_l in Heq. injection Heq as _ Heq.
    apply Hin in Heq. by destruct (eq_true_false_abs _ Heq H2).
  - rewrite !str_app_cons in Heq. injection Heq as -> Heq.
    by destruct (IH r2 H1 H2 Heq) as [-> ->].
Qed.

(** Within a service no two operations share a tool name: what an agent
    calls determines the operation, and its name always has the shape
    service.resource.verb with a known verb and a non-empty resource. *)
Theorem ToolName_injective service op1 op2 tool :
  ToolName service op1 = Ok tool -> ToolName service op2 = Ok tool ->
  op1 = op2 /\
  exists verb resource, verb ∈ verbs /\ resource <> "" /\ op1 = verb +:+ "_" +:+ resource /\
    tool = service +:+ "." +:+ resource +:+ "." +:+ verb.
Proof.
  intros H1 H2. pose proof (tool_name_shape _ _ _ _ H1) as Hs1.
  apply tool_name_shape in H2 as (v2 & r2 & Hv2 & _ & -> & ->).
  split; [|done]. destruct Hs1 as (v1 & r1 & Hv1 & _ & -> & Heq).
  apply (inj (String.append service)), (inj (String.append ".")) in Heq.
  symmetry in Heq. apply last_dot_inj in Heq as [-> ->]; auto using verb_no_dot.
Qed.

Lemma ToolName_injective_witness :
  ToolName "github" "create_issue" = Ok "github.issue.create" /\
  exists verb resource, verb ∈ verbs /\ resource <> "" /\
    "create_issue" = verb +:+ "_" +:+ resource.
Proof.
  split; [reflexivity|].
  destruct (ToolName_injective "github" "create_issue" "create_issue" "github.issue.create"
    eq_refl eq_refl) as (_ & v & r & Hv & Hr & Ho & _).
  exists v, r. by split_and!.
Defined.

(** ** The round trip *)

Section roundtrip.
Context `{Unicode}.

(** The declared texts are UTF-8, as Go source literals are. *)
Definition utf8_capability (c : Registry.Capability) : Prop :=
  valid_utf8 (Registry.Operation c) = true /\ valid_utf8 (Registry.Path c) = true /\
  forallb valid_utf8 (Registry.ResourceKeys (Registry.c_MinimumScope c)) = true.

Record utf8_encoded (c : Capability) : Prop := {
  utf8_tool : valid_utf8 (Tool c) = true;
  utf8_operation : valid_utf8 (c_Operation c) = true;
  utf8_method : valid_utf8 (Method c) = true;
  utf8_path : valid_utf8 (Path c) = true;
  utf8_risk : valid_utf8 (Risk c) = true;
  utf8_keys : forall l, ResourceKeys c = Some l -> forallb valid_utf8 l = true;
}.

Lemma capability_names : NoDup (map fst capability_setters).
Proof.
  cbn [map fst capability_setters].
  apply (bool_decide_eq_true (NoDup _)). vm_compute. reflexivity.
Qed.

Ltac step i lemma :=
  erewrite (Json.decode_step _ i);
    [|apply capability_names|vm_compute; reflexivity|reflexivity|cbn beta; rewrite lemma by auto;
     cbn [mbind option_bind Tool c_Operation Method Path Risk c_Idempotent c_Reversible
          c_SensitiveData ResourceKeys]; reflexivity].

Lemma decode_capability c :
  utf8_encoded c ->
  Json.decode_struct capability_setters (capability_json c) zero_capability = Some c.
Proof.
  intros []. unfold Json.decode_struct, capability_json.
  step 0%nat Json.as_of_string. step 1%nat Json.as_of_string. step 2%nat Json.as_of_string.
  step 3%nat Json.as_of_string. step 4%nat Json.as_of_string. step 5%nat Json.as_of_bool_ptr.
  step 6%nat Json.as_of_bool_ptr. step 7%nat Json.as_of_bool_ptr. step 8%nat Json.as_of_strings.
  by destruct c.
Qed.

Lemma encode_all_spec service declared l :
  encode_all service declared = Ok l ->
  Forall2 (fun c e => Registry.Validate c = Ok tt /\
    exists tool, ToolName service (Registry.Operation c) = Ok tool /\ e = encode_one tool c)
    declared l.
Proof.
  revert l. induction declared as [|c cs IH]; simpl; intros l Hl; [by simplify_eq|].
  apply bind_Ok in Hl as ([] & Hv & Hl). apply bind_Ok in Hl as (tool & Ht & Hl).
  apply bind_Ok in Hl as (l' & Hl' & Hl). simplify_eq. constructor; [|by apply IH].
  split; [done|]. by exists tool.
Qed.

Lemma one_of_utf8 x l : forallb valid_utf8 l = true -> one_of x l = true -> valid_utf8 x = true.
Proof. rewrite forallb_elem_of, one_of_spec. auto. Qed.

Lemma encode_one_utf8 service c tool :
  valid_utf8 service = true -> utf8_capability c -> Registry.Validate c = Ok tt ->
  ToolName service (Registry.Operation c) = Ok tool -> utf8_encoded (encode_one tool c).
Proof.
  intros Hs (Ho & Hp & Hk) Hv Ht.
  pose proof (Registry.Validate_presence c Hv) as (_ & Hr & Hm & _).
  apply tool_name_shape in Ht as (verb & resource & Hverb & _ & Hop & ->).
  assert (Hverb8 : valid_utf8 verb = true) by (by apply (one_of_utf8 verb verbs), one_of_spec).
  rewrite Hop in Ho. rewrite !valid_utf8_app in Ho by done.
  constructor; simpl; rewrite ?Hop; try done.
  - by repeat apply valid_utf8_app_2.
  - by repeat apply valid_utf8_app_2.
  - by apply (one_of_utf8 _ ["GET"; "HEAD"; "POST"; "PUT"; "PATCH"; "DELETE"]).
  - by apply (one_of_utf8 _
      [Registry.RiskLabelLow; Registry.RiskLabelMedium; Registry.RiskLabelHigh]).
  - intros l. by intros [= <-].
Qed.

Lemma decode_encoded l :
  (forall e, e ∈ l -> utf8_encoded e) -> decode_capabilities (map capability_json l) = Some l.
Proof.
  induction l as [|e l IH]; intros Hl; [done|]. cbn [map decode_capabilities].
  rewrite decode_capability by (apply Hl; left). cbn [mbind option_bind].
  rewrite IH by (intros; apply Hl; by right). done.
Qed.

Lemma wf_capability_json c : Json.wf (capability_json c).
Proof.
  apply Json.wf_obj. intros k v. rewrite !elem_of_cons. intros Hin.
  destruct_or!; try (by apply not_elem_of_nil in Hin); simplify_eq;
    (split; [reflexivity|
      auto using Json.wf_of_string, Json.wf_of_bool_ptr, Json.wf_of_strings]).
Qed.

Lemma jdepth_capability_json c : Json.jdepth (capability_json c) <= 2.
Proof.
  unfold capability_json. simpl. destruct (c_Idempotent c), (c_Reversible c),
    (c_SensitiveData c); simpl; pose proof (Json.jdepth_of_strings (ResourceKeys c)); lia.
Qed.

Lemma parse_capabilities_text l :
  Json.parse (capabilities_text l) = Some (Json.JArr (map capability_json l)).
Proof.
  apply Json.parse_print.
  - apply Json.wf_arr. intros v (c & -> & _)%list_elem_of_fmap. apply wf_capability_json.
  - assert (foldr Z.max 0 (map Json.jdepth (map capability_json l)) <= 2).
    { induction l as [|c l IH]; cbn [map foldr]; [lia|].
      pose proof (jdepth_capability_json c). lia. }
    cbn [Json.jdepth]. unfold Json.max_nesting. lia.
Qed.

(** What the start-up code stores, the resolver reads back: the text
    encoded from validated declarations parses to exactly those capabilities,
    each with its generated tool name, and passes the reader's own validation.
    Nothing of a declaration the decision chain needs is lost or altered on the
    way through the database. *)
Theorem capabilities_roundtrip service declared text d :
  EncodeCapabilities service declared = Ok text ->
  Registry.d_Capabilities d = text ->
  valid_utf8 service = true ->
  (forall c, c ∈ declared -> utf8_capability c /\
     "" ∉ Registry.ResourceKeys (Registry.c_MinimumScope c)) ->
  exists parsed,
    parseCapabilities d = Ok parsed /\
    Forall2 (fun c e => exists tool,
      ToolName service (Registry.Operation c) = Ok tool /\ e = encode_one tool c) declared parsed.
Proof.
  unfold EncodeCapabilities. destruct (length declared =? 0)%nat eqn:El; [done|].
  intros He Hd Hs Hc. apply bind_Ok in He as (l & Hl & He).
  injection He as <-.
  apply encode_all_spec in Hl. exists l.
  split; [|eapply Forall2_impl; [exact Hl|by intros c e [_ ?]]].
  assert (Hgood : forall e, e ∈ l -> utf8_encoded e /\ complete e).
  { intros e Hin. apply list_elem_of_lookup in Hin as [i Hi].
    destruct (Forall2_lookup_r _ _ _ _ _ Hl Hi) as (c & Hci & Hv & tool & Ht & ->).
    apply list_elem_of_lookup_2 in Hci. destruct (Hc c Hci) as [Hu Hk].
    split; [by eapply encode_one_utf8|].
    pose proof (Registry.Validate_presence c Hv) as (Hkeys & Hr & Hm & Hp).
    pose proof (tool_name_shape _ _ _ _ Ht) as (verb & res & Hverb & Hres & Hop & Htool).
    constructor; simpl; try done; try (by eexists).
    - rewrite Htool. by destruct service.
    - rewrite Hop. destruct verb; [|done]. by vm_compute in Hverb.
    - intros E. by rewrite E in Hm.
    - intros E. by rewrite E in Hp. }
  unfold parseCapabilities, unmarshal_capabilities. rewrite Hd, parse_capabilities_text.
  rewrite decode_encoded by (intros; by apply Hgood).
  assert (Hlen : (length l =? 0)%nat = false).
  { rewrite <- (Forall2_length _ _ _ Hl). done. }
  rewrite Hlen.
  assert (Hval : fold_result (fun _ c => capability_validate c) tt l = Ok tt).
  { clear - Hgood. induction l as [|e l IH]; [done|]. simpl.
    rewrite (proj2 (capability_validate_ok e)) by (apply Hgood; left). simpl.
    apply IH. intros; apply Hgood; by right. }
  by rewrite Hval.
Qed.
End roundtrip.

(** ** Witnesses

    One GitHub operation, encoded, stored, loaded and resolved. *)
#[local] Existing Instance ascii_only.
#[local] Existing Instance literal_floats.

Definition sample_capability : Registry.Capability :=
  {| Registry.Operation := "create_issue";
     Registry.InputSchema := "{}";
     Registry.c_MinimumScope :=
       {| Registry.ResourceKeys := ["owner"; "repo"]; Registry.RequiresAccount := true |};
     Registry.RiskLabel := "medium";
     Registry.Method := "POST";
     Registry.Path := "/repos/{owner}/{repo}/issues";
     Registry.RedactionRules := Some [];
     Registry.ResponseFields := ["number"];
     Registry.Rollback := "manual";
     Registry.Idempotency := "non_idempotent";
     Registry.c_Nature :=
       {| Registry.Destructive := false; Registry.PermissionChange := false;
          Registry.SecretAccess := false; Registry.Billing := false;
          Registry.ExternalCommunication := true |} |}.

Definition sample_text : string :=
  match EncodeCapabilities "github" [sample_capability] with Ok t => t | Err _ => "" end.

Definition sample_declaration : Registry.Declaration :=
  {| Registry.d_ID := "1"; Registry.d_Service := "github"; Registry.d_Kind := "github";
     Registry.d_DisplayName := "GitHub"; Registry.d_BaseURL := "https://api.github.com";
     Registry.d_AuthScheme := "bearer"; Registry.d_Capabilities := sample_text;
     Registry.d_AllowedPaths := EncodePaths [sample_capability];
     Registry.d_AllowedMethods := EncodeMethods [sample_capability];
     Registry.d_RedactionRules := EncodeRedactionRules [sample_capability];
     Registry.d_DefaultRiskLevel := DefaultRiskOf [sample_capability];
     Registry.d_Status := Registry.StatusEnabled; Registry.d_CreatedAt := 0;
     Registry.d_UpdatedAt := 0 |}.

Definition sample_catalog : Catalog :=
  match NewCatalog [sample_declaration] with Ok c => c | Err _ => empty_catalog end.

(** The request names owner and repo, and a field nobody declared. *)
Definition sample_call : Call :=
  {| call_Tool := "github.issue.create"; call_Method := ""; call_Path := "";
     call_Resource := Json.print (Json.JObj
       [("owner", Json.of_string "acme"); ("repo", Json.of_string "app");
        ("admin", Json.JBool true)]);
     call_DesiredChange := "open"; IdentityEnvironment := "" |}.

Definition sample_resolver : Resolver := {| production := ["prod-*"]; nonProduction := ["app"] |}.

Definition sample_intent : result Code Intent :=
  Resolve sample_resolver (Some sample_catalog) sample_call.

Example sample_resolves :
  match sample_intent with
  | Ok i => Operation i = "create_issue" /\ ResourceKey i = "owner=acme;repo=app" /\
      IgnoredFields i = ["admin"] /\ Environment i = Matcher.EnvironmentNonProduction
  | Err _ => False
  end.
Proof. vm_compute. repeat split. Qed.

Lemma capabilities_roundtrip_witness :
  exists parsed, parseCapabilities sample_declaration = Ok parsed /\ length parsed = 1%nat.
Proof.
  destruct (capabilities_roundtrip "github" [sample_capability] sample_text sample_declaration)
    as (parsed & Hp & Hl).
  - vm_compute. reflexivity.
  - reflexivity.
  - reflexivity.
  - intros c ->%list_elem_of_singleton. split; [by vm_compute|].
    intros Hin%one_of_spec. by vm_compute in Hin.
  - exists parsed. split; [exact Hp|]. by rewrite <- (Forall2_length _ _ _ Hl).
Defined.

Lemma sample_catalog_built : NewCatalog [sample_declaration] = Ok sample_catalog.
Proof. vm_compute. reflexivity. Qed.

Lemma catalog_consistent_witness :
  length (byRoute sample_catalog) = 1%nat /\
  forall e, e ∈ byRoute sample_catalog -> complete (capability e).
Proof.
  split; [by vm_compute|].
  destruct (catalog_consistent [sample_declaration] sample_catalog sample_catalog_built)
    as (H & _). exact H.
Defined.

Lemma resolve_sound_witness :
  exists i e, sample_intent = Ok i /\ e ∈ byRoute sample_catalog /\
    Service i = service e /\ Operation i = c_Operation (capability e).
Proof.
  unfold sample_intent.
  destruct (Resolve sample_resolver (Some sample_catalog) sample_call) as [i|e] eqn:E;
    [|by vm_compute in E].
  destruct (resolve_sound sample_resolver [sample_declaration] sample_catalog sample_call i
    sample_catalog_built E) as (e & fields & He & _ & _ & _ & _ & Hs & Ho & _).
  exists i, e. exact (conj eq_refl (conj He (conj Hs Ho))).
Defined.

Lemma ResourceKeyOf_injective_witness :
  let r := <["owner" := "acme"]> (<["repo" := "app"]> ∅) : gmap string string in
  ResourceKeyOf r = "owner=acme;repo=app" /\
  forall r', separator_free r' -> ResourceKeyOf r' = "owner=acme;repo=app" -> r' = r.
Proof.
  cbv zeta. split; [by vm_compute|]. intros r' Hr' E.
  apply (ResourceKeyOf_injective r'); [done| |rewrite E; by vm_compute].
  intros k v Hk. apply lookup_insert_Some in Hk as [[<- <-]|[_ Hk]]; [by vm_compute|].
  apply lookup_insert_Some in Hk as [[<- <-]|[_ Hk]]; [by vm_compute|].
  by rewrite lookup_empty in Hk.
Defined.
