(* ===== verification/Adapters.v ===== *)
(** * adapter: the registry and the built-in declarations

    registry.go collects adapters and answers which operations they declare;
    github, cloudflare and model each declare theirs in one literal table
    (capabilities.go), given here entry by entry. *)
From S2P Require Import Prelude GoStr Apperr.
From S2P Require Json.
From S2P Require Import Registry.
Open Scope Z_scope.

(** ** The registry (registry.go) *)

(** The methods of [Adapter] return constants of the adapter. *)
Record Adapter := {
  a_Service : string;
  Kind : string;
  Capabilities : list Capability;
  BaseURL : string;
  AuthScheme : string;
}.

Record Registry := {
  adapters : gmap string Adapter;
  capabilities : gmap string (gmap string Capability);
}.

Definition validKind (kind : string) : bool :=
  one_of kind [KindGitHub; KindCloudflare; KindModel; KindGenericHTTP].

(** [byOperation[capability.Operation] = capability] over a table. *)
Definition byOperation (declared : list Capability) : gmap string Capability :=
  foldl (fun m c => <[Operation c := c]> m) ∅ declared.

Section registry.
Context `{Unicode}.

(** The loop of [add]: every declaration valid, no operation twice. *)
Fixpoint add_operations (operations : gmap string Capability) (declared : list Capability)
    : result Code (gmap string Capability) :=
  match declared with
  | [] => Ok operations
  | c :: declared =>
      _ ← Validate c;
      _ ← refuse_if (bool_decide (is_Some (operations !! Operation c))) CodeInvalidConfiguration;
      add_operations (<[Operation c := c]> operations) declared
  end.

(** [None] is the nil adapter. *)
Definition add (r : Registry) (adapter : option Adapter) : result Code Registry :=
  match adapter with
  | None => Err CodeInvalidConfiguration
  | Some a =>
      let service := trim_space (a_Service a) in
      _ ← refuse_if (service ==? "") CodeInvalidConfiguration;
      _ ← refuse_if (bool_decide (is_Some (adapters r !! service))) CodeInvalidConfiguration;
      _ ← refuse_if (negb (validKind (Kind a))) CodeInvalidConfiguration;
      _ ← refuse_if (length (Capabilities a) =? 0)%nat CodeInvalidConfiguration;
      operations ← add_operations ∅ (Capabilities a);
      Ok {| adapters := <[service := a]> (adapters r);
            capabilities := <[service := operations]> (capabilities r) |}
  end.

Fixpoint add_all (r : Registry) (l : list (option Adapter)) : result Code Registry :=
  match l with [] => Ok r | a :: l => r ← add r a; add_all r l end.

Definition New (l : list (option Adapter)) : result Code Registry :=
  add_all {| adapters := ∅; capabilities := ∅ |} l.

Definition adapter_of (r : Registry) (service : string) : result Code Adapter :=
  match adapters r !! service with Some a => Ok a | None => Err CodeCapabilityNotOffered end.

Definition capability_of (r : Registry) (service operation : string) : result Code Capability :=
  match capabilities r !! service with
  | None => Err CodeCapabilityNotOffered
  | Some operations =>
      match operations !! operation with
      | Some c => Ok c
      | None => Err CodeCapabilityNotOffered
      end
  end.

Definition Operations (r : Registry) (service : string) : list string :=
  sort_strings (map fst (map_to_list (default ∅ (capabilities r !! service)))).

Definition Services (r : Registry) : list string := sort_strings (map fst (map_to_list (adapters r))).
End registry.

(** ** The built-in tables *)

(** The tables below are written with single quotes where the source's raw
    strings have double ones. *)
Definition double_quoted : string -> string :=
  map_runes (fun r => if r =? 39 then 34 else r).

Definition nothing_special : Nature :=
  {| Destructive := false; PermissionChange := false; SecretAccess := false; Billing := false;
     ExternalCommunication := false |}.
Definition destructive : Nature :=
  {| Destructive := true; PermissionChange := false; SecretAccess := false; Billing := false;
     ExternalCommunication := false |}.
Definition permission_change : Nature :=
  {| Destructive := false; PermissionChange := true; SecretAccess := false; Billing := false;
     ExternalCommunication := false |}.
Definition secret_access : Nature :=
  {| Destructive := false; PermissionChange := false; SecretAccess := true; Billing := false;
     ExternalCommunication := false |}.
Definition external_communication : Nature :=
  {| Destructive := false; PermissionChange := false; SecretAccess := false; Billing := false;
     ExternalCommunication := true |}.

(** One entry: operation, input schema, minimum scope, risk, method, path,
    redaction rules, response fields, rollback, idempotency, nature. *)
Definition declare : string -> string -> MinimumScope -> string -> string -> string ->
  option (list string) -> list string -> string -> string -> Nature -> Capability := Build_Capability.

Module Github.

Definition OpReadRepository : string := "read_repository".
Definition OpReadIssue : string := "read_issue".
Definition OpReadPullRequest : string := "read_pull_request".
Definition OpReadActionsRun : string := "read_actions_run".
Definition OpReadActionsLogs : string := "read_actions_logs".
Definition OpCreateIssue : string := "create_issue".
Definition OpCreatePullReques : string := "create_pull_request".
Definition OpCreateComment : string := "create_comment".
Definition OpCreateBranch : string := "create_branch".
Definition OpMergeDefaultBranch : string := "merge_default_branch".
Definition OpDeleteRepository : string := "delete_repository".
Definition OpUpdateCollaborator : string := "update_collaborator".
Definition OpUpdateSecret : string := "update_secret".
Definition OpUpdateActionsPermission : string := "update_actions_permissions".

Definition schemaNoInput : string := double_quoted ("{'type':'object','additionalProperties':false}").
Definition schemaCreateIssue : string := double_quoted ("{'type':'object','required':['title']," +:+
  "'properties':{'title':{'type':'string'},'body':{'type':'string'}}," +:+
  "'additionalProperties':false}").
Definition schemaCreatePullRequest : string := double_quoted ("{'type':'object','required':['title','head','base']," +:+
  "'properties':{'title':{'type':'string'},'head':{'type':'string'}," +:+
  "'base':{'type':'string'},'body':{'type':'string'}},'additionalProperties':false}").
Definition schemaCreateComment : string := double_quoted ("{'type':'object','required':['body']," +:+
  "'properties':{'body':{'type':'string'}},'additionalProperties':false}").
Definition schemaCreateBranch : string := double_quoted ("{'type':'object','required':['ref','sha']," +:+
  "'properties':{'ref':{'type':'string'},'sha':{'type':'string'}}," +:+
  "'additionalProperties':false}").
Definition schemaMerge : string := double_quoted ("{'type':'object','properties':{'commit_title':{'type':'string'}}," +:+
  "'additionalProperties':false}").

Definition Service : string := "github".
Definition fieldLogs : string := "logs".

Definition repositoryScope (extra : list string) : MinimumScope :=
  {| ResourceKeys := ["owner"; "repo"] ++ extra; RequiresAccount := true |}.

Definition capabilities : list Capability :=
    [ declare OpReadRepository schemaNoInput (repositoryScope []) RiskLabelLow "GET"
        "/repos/{owner}/{repo}" (Some []) ["id"; "name"; "full_name"; "private"; "description";
        "default_branch"; "html_url"; "visibility"; "archived"] RollbackNone Idempotent nothing_special;
      declare OpReadIssue schemaNoInput (repositoryScope ["number"]) RiskLabelLow "GET"
        "/repos/{owner}/{repo}/issues/{number}" (Some []) ["id"; "number"; "title"; "body"; "state";
        "html_url"; "labels"] RollbackNone Idempotent nothing_special;
      declare OpReadPullRequest schemaNoInput (repositoryScope ["number"]) RiskLabelLow "GET"
        "/repos/{owner}/{repo}/pulls/{number}" (Some []) ["id"; "number"; "title"; "body"; "state";
        "merged"; "html_url"; "head"; "base"] RollbackNone Idempotent nothing_special;
      declare OpReadActionsRun schemaNoInput (repositoryScope ["run_id"]) RiskLabelLow "GET"
        "/repos/{owner}/{repo}/actions/runs/{run_id}" (Some []) ["id"; "name"; "status"; "conclusion";
        "run_number"; "head_branch"; "head_sha"; "html_url"; "created_at"; "updated_at"] RollbackNone
        Idempotent nothing_special;
      declare OpReadActionsLogs schemaNoInput (repositoryScope ["run_id"]) RiskLabelLow "GET"
        "/repos/{owner}/{repo}/actions/runs/{run_id}/logs" (Some ["webhook"; "signature"]) [fieldLogs]
        RollbackNone Idempotent nothing_special;
      declare OpCreateIssue schemaCreateIssue (repositoryScope []) RiskLabelMedium "POST"
        "/repos/{owner}/{repo}/issues" (Some []) ["id"; "number"; "title"; "state"; "html_url"]
        RollbackManual NonIdempotent nothing_special;
      declare OpCreatePullReques schemaCreatePullRequest (repositoryScope []) RiskLabelMedium "POST"
        "/repos/{owner}/{repo}/pulls" (Some []) ["id"; "number"; "title"; "state"; "html_url"; "head";
        "base"] RollbackManual NonIdempotent nothing_special;
      declare OpCreateComment schemaCreateComment (repositoryScope ["number"]) RiskLabelMedium "POST"
        "/repos/{owner}/{repo}/issues/{number}/comments" (Some []) ["id"; "body"; "html_url"]
        RollbackManual NonIdempotent external_communication;
      declare OpCreateBranch schemaCreateBranch (repositoryScope []) RiskLabelMedium "POST"
        "/repos/{owner}/{repo}/git/refs" (Some []) ["ref"; "node_id"; "url"; "object"] RollbackManual
        NonIdempotent nothing_special;
      declare OpMergeDefaultBranch schemaMerge (repositoryScope ["number"]) RiskLabelHigh "PUT"
        "/repos/{owner}/{repo}/pulls/{number}/merge" (Some []) ["sha"; "merged"; "message"]
        RollbackNone NonIdempotent nothing_special;
      declare OpDeleteRepository schemaNoInput (repositoryScope []) RiskLabelHigh "DELETE"
        "/repos/{owner}/{repo}" (Some []) ["message"] RollbackNone NonIdempotent destructive;
      declare OpUpdateCollaborator schemaNoInput (repositoryScope ["username"]) RiskLabelHigh "PUT"
        "/repos/{owner}/{repo}/collaborators/{username}" (Some []) ["id"; "permissions"] RollbackManual
        NonIdempotent permission_change;
      declare OpUpdateSecret schemaNoInput (repositoryScope ["secret_name"]) RiskLabelHigh "PUT"
        "/repos/{owner}/{repo}/actions/secrets/{secret_name}" (Some []) ["message"] RollbackNone
        NonIdempotent secret_access;
      declare OpUpdateActionsPermission schemaNoInput (repositoryScope []) RiskLabelHigh "PUT"
        "/repos/{owner}/{repo}/actions/permissions" (Some []) ["enabled"; "allowed_actions"]
        RollbackManual NonIdempotent permission_change ].

Definition executable (operation : string) : bool := one_of operation [OpReadRepository; OpReadIssue;
  OpReadPullRequest; OpReadActionsRun; OpReadActionsLogs; OpCreateIssue; OpCreatePullReques;
  OpCreateComment; OpCreateBranch].

End Github.

Module Cloudflare.

Definition OpReadZone : string := "read_zone".
Definition OpReadDNSRecords : string := "read_dns_records".
Definition OpReadDNSRecord : string := "read_dns_record".
Definition OpCreateDNSRecord : string := "create_dns_record".
Definition OpUpdateDNSRecord : string := "update_dns_record".
Definition OpDeleteDNSRecord : string := "delete_dns_record".
Definition OpReadTunnel : string := "read_tunnel".
Definition OpPurgeCache : string := "purge_cache".
Definition OpDeleteZone : string := "delete_zone".
Definition OpManageToken : string := "manage_token".
Definition OpManageMember : string := "manage_member".
Definition OpBulkUpdateDNS : string := "bulk_update_dns".
Definition OpUpdateSecurityRules : string := "update_security_rules".

Definition schemaNoInput : string := double_quoted ("{'type':'object','additionalProperties':false}").
Definition schemaDNSRecord : string := double_quoted ("{'type':'object','required':['type','name','content']," +:+
  "'properties':{'type':{'type':'string'},'name':{'type':'string'}," +:+
  "'content':{'type':'string'},'ttl':{'type':'integer'}," +:+
  "'proxied':{'type':'boolean'}},'additionalProperties':false}").
Definition schemaPurgeCache : string := double_quoted ("{'type':'object'," +:+
  "'properties':{'files':{'type':'array','items':{'type':'string'}}," +:+
  "'purge_everything':{'type':'boolean'}},'additionalProperties':false}").

Definition Service : string := "cloudflare".

Definition dnsResponseFields : list string :=
  ["id"; "type"; "name"; "content"; "ttl"; "proxied"; "zone_id"; "zone_name"].

Definition zoneScope (extra : list string) : MinimumScope :=
  {| ResourceKeys := ["zone_id"] ++ extra; RequiresAccount := true |}.

Definition capabilities : list Capability :=
    [ declare OpReadZone schemaNoInput (zoneScope []) RiskLabelLow "GET" "/zones/{zone_id}" (Some [])
        ["id"; "name"; "status"; "paused"; "type"; "name_servers"] RollbackNone Idempotent
        nothing_special;
      declare OpReadDNSRecords schemaNoInput (zoneScope []) RiskLabelLow "GET"
        "/zones/{zone_id}/dns_records" (Some []) dnsResponseFields RollbackNone Idempotent
        nothing_special;
      declare OpReadDNSRecord schemaNoInput (zoneScope ["record_id"]) RiskLabelLow "GET"
        "/zones/{zone_id}/dns_records/{record_id}" (Some []) dnsResponseFields RollbackNone Idempotent
        nothing_special;
      declare OpCreateDNSRecord schemaDNSRecord (zoneScope []) RiskLabelMedium "POST"
        "/zones/{zone_id}/dns_records" (Some []) dnsResponseFields RollbackManual NonIdempotent
        nothing_special;
      declare OpUpdateDNSRecord schemaDNSRecord (zoneScope ["record_id"]) RiskLabelMedium "PUT"
        "/zones/{zone_id}/dns_records/{record_id}" (Some []) dnsResponseFields RollbackManual
        Idempotent nothing_special;
      declare OpDeleteDNSRecord schemaNoInput (zoneScope ["record_id"]) RiskLabelHigh "DELETE"
        "/zones/{zone_id}/dns_records/{record_id}" (Some []) ["id"] RollbackManual NonIdempotent
        destructive;
      declare OpReadTunnel schemaNoInput {| ResourceKeys := ["account_id"; "tunnel_id"];
        RequiresAccount := true |} RiskLabelLow "GET" "/accounts/{account_id}/cfd_tunnel/{tunnel_id}"
        (Some []) ["id"; "name"; "status"; "created_at"] RollbackNone Idempotent nothing_special;
      declare OpPurgeCache schemaPurgeCache (zoneScope []) RiskLabelMedium "POST"
        "/zones/{zone_id}/purge_cache" (Some []) ["id"] RollbackAutomatic Idempotent nothing_special;
      declare OpDeleteZone schemaNoInput (zoneScope []) RiskLabelHigh "DELETE" "/zones/{zone_id}"
        (Some []) ["id"] RollbackNone NonIdempotent destructive;
      declare OpManageToken schemaNoInput {| ResourceKeys := ["token_id"]; RequiresAccount := true |}
        RiskLabelHigh "PUT" "/user/tokens/{token_id}" (Some []) ["id"] RollbackNone NonIdempotent
        secret_access;
      declare OpManageMember schemaNoInput {| ResourceKeys := ["account_id"; "member_id"];
        RequiresAccount := true |} RiskLabelHigh "PUT" "/accounts/{account_id}/members/{member_id}"
        (Some []) ["id"] RollbackManual NonIdempotent permission_change;
      declare OpBulkUpdateDNS schemaNoInput (zoneScope []) RiskLabelHigh "PATCH"
        "/zones/{zone_id}/dns_records" (Some []) ["id"] RollbackNone NonIdempotent nothing_special;
      declare OpUpdateSecurityRules schemaNoInput (zoneScope ["rule_id"]) RiskLabelHigh "PUT"
        "/zones/{zone_id}/firewall/rules/{rule_id}" (Some []) ["id"] RollbackManual NonIdempotent
        permission_change ].

Definition executable (operation : string) : bool := one_of operation [OpReadZone; OpReadDNSRecords;
  OpReadDNSRecord; OpCreateDNSRecord; OpUpdateDNSRecord; OpDeleteDNSRecord; OpReadTunnel;
  OpPurgeCache].

Definition changesBefore (operation : string) : bool := one_of operation [OpUpdateDNSRecord; OpDeleteDNSRecord].

End Cloudflare.

Module Model.

Definition OpCreateCompletion : string := "create_completion".
Definition OpReadModels : string := "read_models".

Definition schemaNoInput : string := double_quoted ("{'type':'object','additionalProperties':false}").
Definition schemaCompletion : string := double_quoted ("{'type':'object','required':['model','messages','max_tokens']," +:+
  "'properties':{'model':{'type':'string'},'max_tokens':{'type':'integer'}," +:+
  "'messages':{'type':'array','items':{'type':'object'}}," +:+
  "'temperature':{'type':'number'}},'additionalProperties':false}").

Definition ProviderOpenAI : string := "openai".
Definition ProviderAnthropic : string := "anthropic".

(** The white list of end points, a table per provider. *)
Record endpoint_table := { completion : string; models : string }.

Definition endpoints (provider : string) : option endpoint_table :=
  if provider ==? ProviderOpenAI then Some {| completion := "/chat/completions"; models := "/models" |}
  else if provider ==? ProviderAnthropic then Some {| completion := "/messages"; models := "/models" |}
  else None.

Definition completionResponseFields : list string :=
  ["id"; "model"; "choices"; "content"; "stop_reason"; "finish_reason"; "usage"; "role"].

Definition capabilities (provider : string) : list Capability :=
  let endpoint := default {| completion := ""; models := "" |} (endpoints provider) in
    [ declare OpCreateCompletion schemaCompletion {| ResourceKeys := ["model"]; RequiresAccount :=
        true |} RiskLabelMedium "POST" (completion endpoint) (Some []) completionResponseFields
        RollbackAutomatic NonIdempotent external_communication;
      declare OpReadModels schemaNoInput {| ResourceKeys := ["account"]; RequiresAccount := true |}
        RiskLabelLow "GET" (models endpoint) (Some []) ["data"; "id"; "object"; "owned_by"; "created"]
        RollbackNone Idempotent nothing_special ].


End Model.

(** ** The built-in adapters (adapter.go of each package) *)

Definition github_adapter (baseURL : string) : Adapter :=
  {| a_Service := Github.Service; Kind := KindGitHub; Capabilities := Github.capabilities;
     BaseURL := baseURL; AuthScheme := AuthBearer |}.

Definition cloudflare_adapter (baseURL : string) : Adapter :=
  {| a_Service := Cloudflare.Service; Kind := KindCloudflare; Capabilities := Cloudflare.capabilities;
     BaseURL := baseURL; AuthScheme := AuthBearer |}.

Definition model_auth (provider : string) : string :=
  if provider ==? Model.ProviderAnthropic then AuthHeader else AuthBearer.

Definition model_adapter (provider baseURL : string) : Adapter :=
  {| a_Service := provider; Kind := KindModel; Capabilities := Model.capabilities provider;
     BaseURL := baseURL; AuthScheme := model_auth provider |}.

Definition builtins : list (option Adapter) :=
  [ Some (github_adapter "https://api.github.com");
    Some (cloudflare_adapter "https://api.cloudflare.com/client/v4");
    Some (model_adapter Model.ProviderOpenAI "https://api.openai.com/v1");
    Some (model_adapter Model.ProviderAnthropic "https://api.anthropic.com/v1") ].

(** ** What a registry holds *)

Section registry_facts.
Context `{Unicode}.

Lemma add_operations_spec declared operations operations' :
  add_operations operations declared = Ok operations' <->
  Forall (fun c => Validate c = Ok tt) declared /\ NoDup (map Operation declared) /\
  (forall c, c ∈ declared -> operations !! Operation c = None) /\
  operations' = foldl (fun m c => <[Operation c := c]> m) operations declared.
Proof.
  revert operations. induction declared as [|c declared IH]; intros operations; cbn [add_operations].
  { split; [intros [= ->]|by intros (_ & _ & _ & ->)].
    split_and!; [done|constructor|intros c Hc; by apply not_elem_of_nil in Hc|done]. }
  rewrite bind_Ok, Forall_cons. cbn [map]. rewrite NoDup_cons. split.
  - intros ([] & Hv & Ho). apply bind_Ok in Ho as ([] & Hf & Ho). apply refuse_if_Ok in Hf. bools.
    apply IH in Ho as (Hall & Hd & Hn & ->).
    assert (Hfresh : forall x, x ∈ declared -> Operation x <> Operation c).
    { intros x Hx E. specialize (Hn x Hx). by rewrite E, lookup_insert_eq in Hn. }
    split_and!; try done.
    + intros (x & Hx & Hx')%list_elem_of_fmap. by destruct (Hfresh x Hx').
    + intros x [->|Hx]%elem_of_cons; [by apply eq_None_not_Some|].
      specialize (Hn x Hx). rewrite lookup_insert_ne in Hn; [done|]. intros E. by destruct (Hfresh x Hx).
  - intros ([Hv Hall] & [Hc Hd] & Hn & ->). exists tt. split; [done|]. apply bind_Ok. exists tt.
    rewrite refuse_if_Ok. split.
    { apply bool_decide_eq_false, eq_None_not_Some, Hn. left. }
    apply IH. split_and!; try done. intros x Hx. rewrite lookup_insert_ne; [apply Hn; by right|].
    intros E. apply Hc. rewrite E. by apply list_elem_of_fmap_2.
Qed.

(** A table whose operations are distinct is looked up by operation. *)
Lemma byOperation_lookup declared op c :
  NoDup (map Operation declared) ->
  byOperation declared !! op = Some c <-> c ∈ declared /\ Operation c = op.
Proof.
  unfold byOperation.
  assert (forall m : gmap string Capability, (forall x, x ∈ declared -> m !! Operation x = None) -> NoDup (map Operation declared) ->
    foldl (fun m c => <[Operation c := c]> m) m declared !! op = Some c <->
    m !! op = Some c \/ (c ∈ declared /\ Operation c = op)) as Hgen.
  { induction declared as [|x declared IH]; intros m Hm Hd; cbn [foldl].
    { split; [by left|intros [?|[Hx _]]; [done|by apply not_elem_of_nil in Hx]]. }
    cbn [map] in Hd. apply NoDup_cons in Hd as [Hx Hd]. rewrite IH; [|..|done].
    - rewrite lookup_insert_Some, elem_of_cons. pose proof (Hm x ltac:(left)) as Hmx.
      split; [intros [[[<- <-]|[_ ?]]|[? ?]]; auto|].
      intros [Hc|[[->|Hc] <-]]; [left; right; split; [|done]; congruence|by left; left|by right].
    - intros y Hy. rewrite lookup_insert_ne; [apply Hm; by right|].
      intros E. apply Hx. rewrite E. by apply list_elem_of_fmap_2. }
  intros Hd. rewrite Hgen, lookup_empty; [|done|done]. naive_solver.
Qed.

(** An adapter the registry accepts. *)
Record well_declared (a : Adapter) : Prop := {
  wd_service : trim_space (a_Service a) <> "";
  wd_kind : validKind (Kind a) = true;
  wd_some : Capabilities a <> [];
  wd_valid : Forall (fun c => Validate c = Ok tt) (Capabilities a);
  wd_distinct : NoDup (map Operation (Capabilities a));
}.

Definition service_of (a : Adapter) : string := trim_space (a_Service a).

Lemma add_spec r o r' :
  add r o = Ok r' <-> exists a, o = Some a /\ well_declared a /\ adapters r !! service_of a = None /\
    r' = {| adapters := <[service_of a := a]> (adapters r);
            capabilities := <[service_of a := byOperation (Capabilities a)]> (capabilities r) |}.
Proof.
  destruct o as [a|]; cbn [add]; [|split; [done|by intros (? & ? & _)]]. fold (service_of a). split.
  - intros Ha. repeat (apply bind_Ok in Ha as (? & Hg & Ha); try apply refuse_if_Ok in Hg; revert Hg).
    intros (Hv & Hd & _ & ->)%add_operations_spec. injection Ha as <-. intros. bools. exists a.
    split_and!; [done| |by apply eq_None_not_Some|done]. split; try done.
    intros E. by rewrite E in *.
  - intros (x & [= <-] & [] & Hn & ->). unfold service_of in *.
    assert (Hguard : forall (b : bool) (k : unit -> result Code Registry) v, b = false -> k tt = v ->
      (refuse_if b CodeInvalidConfiguration ≫= k) = v) by (by intros ? ? ? ->).
    apply Hguard; [by apply bool_decide_eq_false|].
    apply Hguard; [by apply bool_decide_eq_false, eq_None_not_Some|].
    apply Hguard; [by rewrite wd_kind0|]. apply Hguard; [by destruct (Capabilities a)|].
    apply bind_Ok. exists (byOperation (Capabilities a)). split; [|done]. apply add_operations_spec.
    by split_and!; [..|intros; apply lookup_empty|].
Qed.

Definition registered (r : Registry) (l : list (option Adapter)) : Prop :=
  (forall a, Some a ∈ l -> well_declared a) /\
  (forall s a, adapters r !! s = Some a <-> Some a ∈ l /\ service_of a = s) /\
  forall s, capabilities r !! s = (fun a => byOperation (Capabilities a)) <$> adapters r !! s.

Lemma registered_add r done_ a :
  registered r done_ -> well_declared a -> adapters r !! service_of a = None ->
  registered {| adapters := <[service_of a := a]> (adapters r);
                capabilities := <[service_of a := byOperation (Capabilities a)]> (capabilities r) |}
    (done_ ++ [Some a]).
Proof.
  intros (Hw & Ha & Hc) Hwa Hn. split_and!; cbn.
  - intros x [Hx|[= ->]%list_elem_of_singleton]%elem_of_app; auto.
  - intros s x. rewrite lookup_insert_Some, Ha, elem_of_app, list_elem_of_singleton. split.
    + intros [[<- <-]|[_ [? ?]]]; auto.
    + intros [[Hx|[= ->]] <-]; [|by left]. right. split; [|done]. intros E.
      assert (adapters r !! service_of a = Some x) by (by apply Ha). congruence.
  - intros s. destruct (decide (service_of a = s)) as [<-|]; [by rewrite !lookup_insert_eq|].
    by rewrite !lookup_insert_ne.
Qed.

Definition services_distinct (l : list (option Adapter)) : Prop :=
  NoDup (omap (fun o => service_of <$> o) l).

Lemma add_all_spec r done_ l r' :
  registered r done_ -> add_all r l = Ok r' -> registered r' (done_ ++ l).
Proof.
  revert r done_. induction l as [|o l IH]; intros r done_ Hr; cbn [add_all].
  { intros [= <-]. by rewrite app_nil_r. }
  intros (r1 & (a & -> & Hw & Hn & ->)%add_spec & H')%bind_Ok.
  replace (done_ ++ Some a :: l) with ((done_ ++ [Some a]) ++ l) by (by rewrite <- app_assoc).
  eapply IH; [by apply registered_add|exact H'].
Qed.

Lemma add_all_ok r done_ l :
  registered r done_ -> (forall o, o ∈ l -> exists a, o = Some a /\ well_declared a) ->
  services_distinct (done_ ++ l) -> exists r', add_all r l = Ok r'.
Proof.
  revert r done_. induction l as [|o l IH]; intros r done_ Hr Hl Hd; [by exists r|].
  destruct (Hl o ltac:(left)) as (a & -> & Hw).
  assert (adapters r !! service_of a = None) as Hn.
  { destruct (adapters r !! service_of a) as [x|] eqn:E; [|done]. exfalso.
    apply (proj1 (proj2 Hr)) in E as [Hx Hs]. unfold services_distinct in Hd.
    rewrite omap_app in Hd. apply NoDup_app in Hd as (_ & Hd & _). apply (Hd (service_of a)).
    - apply list_elem_of_omap. exists (Some x). split; [done|]. cbn. congruence.
    - cbn. by left. }
  destruct (IH {| adapters := <[service_of a := a]> (adapters r);
                  capabilities := <[service_of a := byOperation (Capabilities a)]> (capabilities r) |}
    (done_ ++ [Some a])) as [r' Hr'].
  - by apply registered_add.
  - intros o Ho. apply Hl. by right.
  - by rewrite <- app_assoc.
  - exists r'. cbn [add_all]. apply bind_Ok. eexists. split; [|exact Hr']. apply add_spec. eauto.
Qed.

Lemma registered_empty : registered {| adapters := ∅; capabilities := ∅ |} [].
Proof.
  split_and!; cbn.
  - intros a Ha. by apply not_elem_of_nil in Ha.
  - intros s a. rewrite lookup_empty. split; [done|by intros [?%not_elem_of_nil _]].
  - done.
Qed.

Lemma New_distinct l r done_ r0 :
  registered r0 done_ -> services_distinct done_ -> add_all r0 l = Ok r -> services_distinct (done_ ++ l).
Proof.
  revert r0 done_. induction l as [|o l IH]; intros r0 done_ Hr Hd; cbn [add_all].
  { intros _. by rewrite app_nil_r. }
  intros (r1 & (a & -> & Hw & Hn & ->)%add_spec & H')%bind_Ok.
  replace (done_ ++ Some a :: l) with ((done_ ++ [Some a]) ++ l) by (by rewrite <- app_assoc).
  eapply IH; [by apply registered_add| |exact H'].
  unfold services_distinct. rewrite omap_app. apply NoDup_app. split_and!; [done| |apply NoDup_singleton].
  intros s Hs. cbn. rewrite list_elem_of_singleton. intros ->.
  apply list_elem_of_omap in Hs as ([x|] & Hx & [= Hs]).
  assert (adapters r0 !! service_of a = Some x) by (by apply (proj1 (proj2 Hr))). congruence.
Qed.

(** The registry. Registration succeeds exactly when every adapter is well
    declared - a service, a known kind, at least one operation, each valid, none
    twice - and no two are for one service. It then offers exactly the declared
    operations: nothing that was not declared can be looked up, and everything
    that can be has been validated. *)
Theorem registry_exact l :
  (is_Ok (New l) = true <->
   (forall o, o ∈ l -> exists a, o = Some a /\ well_declared a) /\ services_distinct l) /\
  forall r, New l = Ok r ->
    (forall s a, adapter_of r s = Ok a <-> Some a ∈ l /\ service_of a = s) /\
    forall s op c, capability_of r s op = Ok c <->
      exists a, Some a ∈ l /\ service_of a = s /\ c ∈ Capabilities a /\ Operation c = op /\
        Validate c = Ok tt.
Proof.
  assert (Hreg : forall r, New l = Ok r -> registered r l)
    by (intros r Hr; exact (add_all_spec _ [] _ _ registered_empty Hr)).
  split; [|intros r (Hw & Ha & Hc)%Hreg; split].
  - rewrite is_Ok_true. split.
    + intros [r Hr]. split; [|exact (New_distinct _ _ [] _ registered_empty ltac:(constructor) Hr)].
      intros o Ho. clear Hreg. unfold New in Hr. revert Hr. generalize {| adapters := ∅; capabilities := ∅ |}.
      induction l as [|x l IH]; intros r0; [by apply not_elem_of_nil in Ho|].
      cbn [add_all]. intros (r1 & (a & -> & Hwa & _)%add_spec & Hr)%bind_Ok.
      apply elem_of_cons in Ho as [->|Ho]; [eauto|by eapply IH].
    + intros [Hl Hd]. exact (add_all_ok _ [] l registered_empty Hl Hd).
  - intros s a. unfold adapter_of. rewrite <- Ha. destruct (adapters r !! s); naive_solver.
  - intros s op c. unfold capability_of. rewrite Hc. split.
    + destruct (adapters r !! s) as [a|] eqn:Es; [|done]. cbn. apply Ha in Es as [Hl Hs].
      destruct (byOperation (Capabilities a) !! op) as [c'|] eqn:Ec; [|done]. intros [= ->].
      apply byOperation_lookup in Ec as [Hin Hop]; [|by destruct (Hw _ Hl)].
      exists a. split_and!; try done. destruct (Hw _ Hl) as [_ _ _ Hv _]. rewrite Forall_forall in Hv. by apply Hv.
    + intros (a & Hl & Hs & Hin & Hop & _).
      assert (adapters r !! s = Some a) as -> by (by apply Ha). cbn.
      rewrite (proj2 (byOperation_lookup (Capabilities a) op c (wd_distinct _ (Hw _ Hl)))); done.
Qed.
End registry_facts.

(** ** Which operation an outgoing request is *)

(** Templates no path can match both of. *)
Fixpoint disjoint_segments (e1 e2 : list string) : bool :=
  match e1, e2 with
  | [], [] => false
  | x :: e1, y :: e2 =>
      bool_decide (placeholder x = None) && bool_decide (placeholder y = None) && (x !=? y) ||
      disjoint_segments e1 e2
  | _, _ => true
  end.

Lemma disjoint_segments_spec e1 e2 a c1 c2 r1 r2 :
  disjoint_segments e1 e2 = true -> match_segments e1 a c1 = Some r1 -> match_segments e2 a c2 = Some r2 -> False.
Proof.
  revert e2 a c1 c2. induction e1 as [|x e1 IH]; intros [|y e2] [|g a] c1 c2; simpl; try done.
  destruct (g ==? "") eqn:Eg; [done|]. intros [Hd|Hd]%orb_true_iff.
  - bools. destruct (placeholder x); [done|]. destruct (placeholder y); [done|].
    destruct (x ==? g) eqn:E1; [|done]. destruct (y ==? g) eqn:E2; [|done]. bools. congruence.
  - intros H1 H2.
    assert (exists c1', match_segments e1 a c1' = Some r1) as [c1' H1'].
    { destruct (placeholder x); [eauto|]. destruct (x ==? g); [eauto|done]. }
    assert (exists c2', match_segments e2 a c2' = Some r2) as [c2' H2'].
    { destruct (placeholder y); [eauto|]. destruct (y ==? g); [eauto|done]. }
    by eapply IH.
Qed.

Lemma find_first_unique {A} (p : A -> bool) (l k : list A) :
  (forall x y, x ∈ l -> y ∈ l -> p x = true -> p y = true -> x = y) -> l ≡ₚ k ->
  find_first p l = find_first p k.
Proof.
  intros Hu Hp. destruct (find_first p l) as [x|] eqn:El, (find_first p k) as [y|] eqn:Ek; [..|done].
  - apply find_first_Some in El as [Hx Px], Ek as [Hy Py]. f_equal. apply Hu; try done. by rewrite Hp.
  - apply find_first_Some in El as [Hx Px]. rewrite find_first_None in Ek. rewrite Hp in Hx.
    by rewrite (Ek x Hx) in Px.
  - apply find_first_Some in Ek as [Hy Py]. rewrite find_first_None in El. rewrite <- Hp in Hy.
    by rewrite (El y Hy) in Py.
Qed.

Definition ascii_text (s : string) : Prop := Forall (fun r => r < 128) (runes s).

Section resolution.
Context `{Unicode}.

Lemma fold_eq_ascii l k :
  Forall (fun r => r < 128) l -> Forall (fun r => r < 128) k -> fold_eq l k = true ->
  map rune_lower l = map rune_lower k.
Proof.
  intros Hl. revert k. induction Hl as [|a l Ha Hl IH]; intros k [|b k' Hb Hk]; simpl; try done.
  intros Hf. bools. f_equal; [|by apply IH]. unfold rune_fold in *.
  destruct (Z.ltb_spec a 128); [|lia]. destruct (Z.ltb_spec b 128); [|lia].
  cbn [andb] in *. match goal with H : (_ || _) = true |- _ => apply orb_true_iff in H as [?|?] end;
    bools; congruence.
Qed.

(** Operations of one table that a request cannot tell apart. *)
Definition distinguishable (c1 c2 : Capability) : bool :=
  (Operation c1 ==? Operation c2) ||
  negb (bool_decide (map rune_lower (runes (Method c1)) = map rune_lower (runes (Method c2)))) ||
  disjoint_segments (segments (Path c1)) (segments (Path c2)).

Definition unambiguous (l : list Capability) : bool :=
  forallb (fun c1 => forallb (fun r => r <? 128) (runes (Method c1)) && forallb (distinguishable c1) l) l.

Lemma resolve_unambiguous l k method path :
  unambiguous l = true -> NoDup (map Operation l) -> ascii_text method -> l ≡ₚ k ->
  Resolve k method path = Resolve l method path.
Proof.
  intros Hu Hd Hm Hp. unfold Resolve. rewrite (find_first_unique _ l k); [done| |done].
  intros x y Hx Hy. rewrite !bool_decide_eq_true.
  destruct (equal_fold (Method x) method) eqn:Ex; [|by intros []].
  destruct (equal_fold (Method y) method) eqn:Ey; [|by intros _ []].
  unfold MatchPath. destruct (_ || _); [by intros []|].
  destruct (negb (length (segments (Path x)) =? _)%nat); [by intros []|].
  destruct (negb (length (segments (Path y)) =? _)%nat); [by intros _ []|].
  intros [r1 H1] [r2 H2]. unfold unambiguous in Hu. rewrite forallb_elem_of in Hu.
  assert (Hasc : forall c, c ∈ l -> Forall (fun r => r < 128) (runes (Method c))).
  { intros c Hc. specialize (Hu c Hc). bools. apply Forall_forall. intros r Hr.
    match goal with H : forallb _ (runes _) = true |- _ => rewrite forallb_elem_of in H; specialize (H r Hr) end.
    by bools. }
  pose proof (Hu x Hx) as Hux. bools. match goal with H : forallb (distinguishable x) l = true |- _ =>
    rewrite forallb_elem_of in H; specialize (H y Hy); rename H into Hxy end.
  unfold distinguishable in Hxy. rewrite !orb_true_iff in Hxy. destruct Hxy as [[Hop|Hme]|Hdis].
  - bools. apply list_elem_of_lookup in Hx as [i Hi], Hy as [j Hj].
    assert (i = j) as ->; [|congruence]. apply (NoDup_lookup _ i j (Operation x) Hd).
    + rewrite list_lookup_fmap, Hi. done.
    + rewrite list_lookup_fmap, Hj. cbn. by f_equal.
  - bools. exfalso. match goal with H : _ <> _ |- _ => apply H end.
    rewrite (fold_eq_ascii _ _ (Hasc x Hx) Hm Ex). symmetry. exact (fold_eq_ascii _ _ (Hasc y Hy) Hm Ey).
  - exfalso. by eapply disjoint_segments_spec.
Qed.

Lemma is_Ok_unit {E} (r : result E unit) : is_Ok r = true -> r = Ok tt.
Proof. by destruct r as [[]|]. Qed.

Definition builtin_ok (o : option Adapter) : bool :=
  match o with
  | None => false
  | Some a =>
      (trim_space (a_Service a) !=? "") && validKind (Kind a) &&
      negb (length (Capabilities a) =? 0)%nat &&
      forallb (fun c => is_Ok (Validate c)) (Capabilities a) &&
      bool_decide (NoDup (map Operation (Capabilities a))) && unambiguous (Capabilities a)
  end.

Lemma builtin_ok_spec o :
  builtin_ok o = true -> exists a, o = Some a /\ well_declared a /\ unambiguous (Capabilities a) = true.
Proof.
  destruct o as [a|]; [|done]. cbn. intros Hb. bools. exists a. split_and!; [done| |done]. split; try done.
  - intros E. by rewrite E in *.
  - apply Forall_forall. intros c Hc. apply is_Ok_unit.
    match goal with H : forallb _ _ = true |- _ => rewrite forallb_elem_of in H; by apply H end.
Qed.

Lemma builtins_ok : forallb builtin_ok builtins = true.
Proof. vm_compute. reflexivity. Qed.

(** The built-in adapters start, and what a request of theirs is does not
    depend on chance: however the table of a built-in adapter happens to be
    walked, a method and a path resolve to the same operation and resource. *)
Theorem builtins_resolve :
  is_Ok (New builtins) = true /\
  forall a operations method path, Some a ∈ builtins -> operations ≡ₚ Capabilities a ->
    ascii_text method -> Resolve operations method path = Resolve (Capabilities a) method path.
Proof.
  split; [vm_compute; reflexivity|]. intros a l method path Ha Hp Hm.
  pose proof builtins_ok as Hb. rewrite forallb_elem_of in Hb.
  destruct (builtin_ok_spec _ (Hb _ Ha)) as (x & [= <-] & Hw & Hu).
  apply resolve_unambiguous; [done|apply Hw|done|by symmetry].
Qed.
End resolution.

(** ** At the built-in adapters *)

Lemma builtins_resolve_witness :
  @Resolve ascii_only (rev Github.capabilities) "get" "/repos/leazoot/OpenDelo/issues/7" =
  @Resolve ascii_only Github.capabilities "get" "/repos/leazoot/OpenDelo/issues/7" /\
  match @Resolve ascii_only Github.capabilities "get" "/repos/leazoot/OpenDelo/issues/7" with
  | Ok (c, _) => Operation c = "read_issue"
  | Err _ => False
  end.
Proof.
  split; [|vm_compute; reflexivity].
  apply (proj2 (@builtins_resolve ascii_only) (github_adapter "https://api.github.com")).
  - apply elem_of_cons. by left.
  - symmetry. apply Permutation_rev.
  - vm_compute. repeat constructor.
Defined.

Lemma registry_exact_witness :
  exists r c, @New ascii_only builtins = Ok r /\ capability_of r "github" "create_issue" = Ok c /\
    @Validate ascii_only c = Ok tt /\ is_Ok (capability_of r "github" "create_completion") = false.
Proof.
  assert (match @New ascii_only builtins with
    | Ok r => is_Ok (capability_of r "github" "create_issue") &&
              negb (is_Ok (capability_of r "github" "create_completion"))
    | Err _ => false end = true) as H by (vm_compute; reflexivity).
  destruct (@New ascii_only builtins) as [r|] eqn:Er; [|done]. apply andb_true_iff in H as [Hc Hno].
  apply is_Ok_true in Hc as [c Hc]. apply negb_true_iff in Hno.
  exists r, c. split_and!; [done|done| |done].
  destruct (proj2 (@registry_exact ascii_only builtins) r Er) as [_ Hcap].
  by destruct (proj1 (Hcap _ _ _) Hc) as (a & _ & _ & _ & _ & ?).
Defined.
