(* ===== verification/Scope.v ===== *)
(** * core/scope: the ten dimensions of an authorization

    The scope record with its validity and covering relations (scope.go), the
    resolver that narrows an intent to a scope (resolver.go), and the JSON text
    scopes are stored as in [decisions.resolved_scope] and
    [leases.resource_scope].

    A Go map that is nil and one that is empty are the same value here: only
    scopes that pass [Validate], whose resource is not empty, are ever encoded. *)
From S2P Require Import Prelude GoStr Apperr GoTime.
From S2P Require Json Registry Risk Matcher Intent.
Open Scope Z_scope.

(** ** The record (scope.go) *)

Record Scope := {
  AgentID : string;
  WorkspaceID : string;
  Service : string;
  IdentityID : string;
  Account : string;
  Resource : gmap string string;
  ResourceKey : string;
  Operation : string;
  NotBefore : Z;
  ExpiresAt : Z;
  RequestLimit : Z;
  Environment : string;
  RiskCeiling : string;
}.

#[export] Instance Scope_eq_dec : EqDecision Scope.
Proof. solve_decision. Defined.

(** [Scope{}]. *)
Definition zero_scope : Scope :=
  {| AgentID := ""; WorkspaceID := ""; Service := ""; IdentityID := ""; Account := "";
     Resource := ∅; ResourceKey := ""; Operation := ""; NotBefore := 0; ExpiresAt := 0;
     RequestLimit := 0; Environment := ""; RiskCeiling := "" |}.

Definition DimensionAgent : string := "agent".
Definition DimensionWorkspace : string := "workspace".
Definition DimensionService : string := "service".
Definition DimensionAccount : string := "account".
Definition DimensionResource : string := "resource".
Definition DimensionOperation : string := "operation".
Definition DimensionTime : string := "time".
Definition DimensionRequestCount : string := "request_count".
Definition DimensionEnvironment : string := "environment".
Definition DimensionRisk : string := "risk_level".

Definition levelRank (level : string) : Z :=
  if level ==? Risk.LevelLow then 1
  else if level ==? Risk.LevelMedium then 2
  else if level ==? Risk.LevelHigh then 3
  else 0.

Definition validEnvironment (environment : string) : bool :=
  one_of environment [Matcher.EnvironmentProduction; Matcher.EnvironmentNonProduction].
Definition validLevel (level : string) : bool := 0 <? levelRank level.

Definition dimensionChecks (s : Scope) : list (string * bool) :=
  [ (DimensionAgent, AgentID s !=? "");
    (DimensionWorkspace, WorkspaceID s !=? "");
    (DimensionService, Service s !=? "");
    (DimensionAccount, (IdentityID s !=? "") && (Account s !=? ""));
    (DimensionResource, (Resource s !=? ∅) && (ResourceKey s !=? ""));
    (DimensionOperation, Operation s !=? "");
    (DimensionTime, negb (IsZero (NotBefore s)) && After (ExpiresAt s) (NotBefore s));
    (DimensionRequestCount, 0 <? RequestLimit s);
    (DimensionEnvironment, validEnvironment (Environment s));
    (DimensionRisk, validLevel (RiskCeiling s)) ].

Definition Dimensions : list string := map fst (dimensionChecks zero_scope).

Definition Validate (s : Scope) : result Code unit :=
  if existsb (fun check => negb check.2) (dimensionChecks s) then Err CodeInvalidRequest else Ok tt.

(** [right[key]] is the empty string for a key that is not there. *)
Definition sameResource (left right : gmap string string) : bool :=
  (size left =? size right)%nat &&
  forallb (fun kv => default "" (right !! kv.1) ==? kv.2) (map_to_list left).

Definition hasWildcard (resource : gmap string string) : bool :=
  existsb (fun kv => contains_any kv.2 "*?") (map_to_list resource).

Definition Covers (s other : Scope) : bool :=
  if negb (is_Ok (Validate s)) || negb (is_Ok (Validate other)) then false
  else if hasWildcard (Resource s) || hasWildcard (Resource other) then false
  else if (AgentID s !=? AgentID other) || (WorkspaceID s !=? WorkspaceID other) ||
          (Service s !=? Service other) || (IdentityID s !=? IdentityID other) ||
          (Account s !=? Account other) || (Operation s !=? Operation other) ||
          (Environment s !=? Environment other) then false
  else if negb (sameResource (Resource s) (Resource other)) then false
  else if Before (NotBefore other) (NotBefore s) || After (ExpiresAt other) (ExpiresAt s)
    then false
  else if RequestLimit s <? RequestLimit other then false
  else levelRank (RiskCeiling other) <=? levelRank (RiskCeiling s).

(** A scope with another window. *)
Definition with_window (s : Scope) (notBefore expiresAt : Z) : Scope :=
  {| AgentID := AgentID s; WorkspaceID := WorkspaceID s; Service := Service s;
     IdentityID := IdentityID s; Account := Account s; Resource := Resource s;
     ResourceKey := ResourceKey s; Operation := Operation s; NotBefore := notBefore;
     ExpiresAt := expiresAt; RequestLimit := RequestLimit s; Environment := Environment s;
     RiskCeiling := RiskCeiling s |}.

Definition CoversIgnoringWindow (s other : Scope) : bool :=
  Covers s (with_window other (NotBefore s) (ExpiresAt s)).

(** ** The resolver (resolver.go) *)

Definition DefaultDuration : Z := 15 * Minute.
Definition DefaultRequestLimit : Z := 1.
Definition TaskRequestLimit : Z := 20.

Record Input := {
  in_Intent : Intent.Intent;
  in_AgentID : string;
  in_WorkspaceID : string;
  in_Identity : Matcher.Identity;
  in_Duration : Z;
  in_RequestLimit : Z;
}.

Record Result := {
  r_Scope : Scope;
  Injection : list string;
  IgnoredFields : list string;
  Ambiguous : bool;
  EnvironmentAssumed : bool;
}.

(** [Result{}]. *)
Definition zero_result : Result :=
  {| r_Scope := zero_scope; Injection := []; IgnoredFields := []; Ambiguous := false;
     EnvironmentAssumed := false |}.

Definition ceilingOf (label : string) : string :=
  if label ==? Registry.RiskLabelLow then Risk.LevelLow
  else if label ==? Registry.RiskLabelMedium then Risk.LevelMedium
  else if label ==? Registry.RiskLabelHigh then Risk.LevelHigh
  else "".

Definition checkInput (input : Input) : result Code unit :=
  let identity := in_Identity input in
  let intent := in_Intent input in
  if (Matcher.ID identity !=? "") && (Intent.Service intent !=? "") &&
     (Matcher.Service identity !=? Intent.Service intent) then Err CodeInternal
  else if (Matcher.Environment identity !=? "") &&
          (Matcher.Environment identity !=? Intent.Environment intent) then Err CodeInternal
  else if in_Duration input <? 0 then Err CodeInvalidRequest
  else if in_RequestLimit input <? 0 then Err CodeInvalidRequest
  else Ok tt.

Definition injectionWords : list string :=
  ["scope"; "permission"; "privilege"; "grant"; "role"; "policy"; "risklevel"; "lease";
   "expires"; "ttl"; "requestlimit"; "environment"; "approval"; "approve"; "autoallow";
   "allow"; "deny"; "trust"; "bypass"; "override"; "elevate"; "escalate"].

Section resolver.
Context `{Unicode}.

Definition normalizeField (field : string) : string := remove_chars "-_. " (to_lower field).

Definition isInjection (field : string) : bool :=
  existsb (contains (normalizeField field)) injectionWords.

Definition injectionFields (ignored : list string) : list string :=
  filter (fun field => isInjection field = true) ignored.

(** [Resolver.Resolve] with the clock's reading. *)
Definition Resolve (now : Z) (input : Input) : result Code Result :=
  _ ← checkInput input;
  let duration := if in_Duration input =? 0 then DefaultDuration else in_Duration input in
  let limit :=
    if in_RequestLimit input =? 0 then DefaultRequestLimit else in_RequestLimit input in
  let intent := in_Intent input in
  let resolved :=
    {| AgentID := in_AgentID input;
       WorkspaceID := in_WorkspaceID input;
       Service := Intent.Service intent;
       IdentityID := Matcher.ID (in_Identity input);
       Account := Matcher.AccountLabel (in_Identity input);
       Resource := Intent.Resource intent;
       ResourceKey := Intent.ResourceKey intent;
       Operation := Intent.Operation intent;
       NotBefore := now;
       ExpiresAt := now + duration;
       RequestLimit := limit;
       Environment := Intent.Environment intent;
       RiskCeiling := ceilingOf (Intent.RiskLabel intent) |} in
  _ ← Validate resolved;
  let ignored := sort_strings (Intent.IgnoredFields intent) in
  Ok {| r_Scope := resolved;
        Injection := injectionFields ignored;
        IgnoredFields := ignored;
        Ambiguous := Intent.ResourceAmbiguous intent;
        EnvironmentAssumed := Intent.EnvironmentAssumed intent |}.
End resolver.

(** ** Stored text *)

(** [Time.UnmarshalJSON]: the raw text between the quotes is parsed. *)
Definition as_time (old : Z) (v : Json.json) : option Z :=
  match v with
  | Json.JStr raw => parse_rfc3339 raw
  | Json.JNull => Some old
  | _ => None
  end.

Definition of_time (t : Z) : option Json.json := Json.JStr <$> marshal_time t.

Definition as_resource (old : gmap string string) (v : Json.json)
    : option (gmap string string) :=
  m ← Json.as_string_map (Some old) v; Some (default ∅ m).

Definition scope_json (s : Scope) : option Json.json :=
  notBefore ← of_time (NotBefore s);
  expiresAt ← of_time (ExpiresAt s);
  Some (Json.JObj
    [ ("agent_id", Json.of_string (AgentID s));
      ("workspace_id", Json.of_string (WorkspaceID s));
      ("service", Json.of_string (Service s));
      ("identity_id", Json.of_string (IdentityID s));
      ("account", Json.of_string (Account s));
      ("resource", Json.of_string_map (Some (Resource s)));
      ("resource_key", Json.of_string (ResourceKey s));
      ("operation", Json.of_string (Operation s));
      ("not_before", notBefore);
      ("expires_at", expiresAt);
      ("request_limit", Json.of_int (RequestLimit s));
      ("environment", Json.of_string (Environment s));
      ("risk_ceiling", Json.of_string (RiskCeiling s)) ]).

(** [json.Marshal] of a scope: fails on an instant outside years 0 to 9999. *)
Definition marshal (s : Scope) : option string := Json.print <$> scope_json s.

(** The [json] tags of [Scope]: each decodes into its own field. *)
Definition scope_setters : list (Json.setter (S := Scope)) :=
  [ ("agent_id", fun v '(Build_Scope a w sv i ac r rk o nb ea rl e rc) =>
      a ← Json.as_string a v; Some (Build_Scope a w sv i ac r rk o nb ea rl e rc));
    ("workspace_id", fun v '(Build_Scope a w sv i ac r rk o nb ea rl e rc) =>
      w ← Json.as_string w v; Some (Build_Scope a w sv i ac r rk o nb ea rl e rc));
    ("service", fun v '(Build_Scope a w sv i ac r rk o nb ea rl e rc) =>
      sv ← Json.as_string sv v; Some (Build_Scope a w sv i ac r rk o nb ea rl e rc));
    ("identity_id", fun v '(Build_Scope a w sv i ac r rk o nb ea rl e rc) =>
      i ← Json.as_string i v; Some (Build_Scope a w sv i ac r rk o nb ea rl e rc));
    ("account", fun v '(Build_Scope a w sv i ac r rk o nb ea rl e rc) =>
      ac ← Json.as_string ac v; Some (Build_Scope a w sv i ac r rk o nb ea rl e rc));
    ("resource", fun v '(Build_Scope a w sv i ac r rk o nb ea rl e rc) =>
      r ← as_resource r v; Some (Build_Scope a w sv i ac r rk o nb ea rl e rc));
    ("resource_key", fun v '(Build_Scope a w sv i ac r rk o nb ea rl e rc) =>
      rk ← Json.as_string rk v; Some (Build_Scope a w sv i ac r rk o nb ea rl e rc));
    ("operation", fun v '(Build_Scope a w sv i ac r rk o nb ea rl e rc) =>
      o ← Json.as_string o v; Some (Build_Scope a w sv i ac r rk o nb ea rl e rc));
    ("not_before", fun v '(Build_Scope a w sv i ac r rk o nb ea rl e rc) =>
      nb ← as_time nb v; Some (Build_Scope a w sv i ac r rk o nb ea rl e rc));
    ("expires_at", fun v '(Build_Scope a w sv i ac r rk o nb ea rl e rc) =>
      ea ← as_time ea v; Some (Build_Scope a w sv i ac r rk o nb ea rl e rc));
    ("request_limit", fun v '(Build_Scope a w sv i ac r rk o nb ea rl e rc) =>
      rl ← Json.as_int rl v; Some (Build_Scope a w sv i ac r rk o nb ea rl e rc));
    ("environment", fun v '(Build_Scope a w sv i ac r rk o nb ea rl e rc) =>
      e ← Json.as_string e v; Some (Build_Scope a w sv i ac r rk o nb ea rl e rc));
    ("risk_ceiling", fun v '(Build_Scope a w sv i ac r rk o nb ea rl e rc) =>
      rc ← Json.as_string rc v; Some (Build_Scope a w sv i ac r rk o nb ea rl e rc)) ].

(** [json.Unmarshal] into a zero scope. *)
Definition unmarshal `{Unicode} (text : string) : option Scope :=
  v ← Json.parse text; Json.decode_struct scope_setters v zero_scope.

(** ** Validity *)

(** All ten dimensions are determined. *)
Record valid (s : Scope) : Prop := {
  valid_agent : AgentID s <> "";
  valid_workspace : WorkspaceID s <> "";
  valid_service : Service s <> "";
  valid_account : IdentityID s <> "" /\ Account s <> "";
  valid_resource : Resource s <> ∅ /\ ResourceKey s <> "";
  valid_operation : Operation s <> "";
  valid_time : NotBefore s <> 0 /\ NotBefore s < ExpiresAt s;
  valid_count : 0 < RequestLimit s;
  valid_environment : validEnvironment (Environment s) = true;
  valid_risk : 0 < levelRank (RiskCeiling s);
}.

Lemma Validate_ok s : Validate s = Ok tt <-> valid s.
Proof.
  unfold Validate. destruct (existsb _ _) eqn:E.
  - split; [done|]. intros []. exfalso. revert E. apply not_true_iff_false.
    apply existsb_false. intros [n b] Hin. unfold dimensionChecks in Hin.
    rewrite !elem_of_cons in Hin. apply negb_false_iff.
    destruct_or!; simplify_eq/=; rewrite ?andb_true_iff, ?negb_true_iff;
      try (by apply not_elem_of_nil in Hin);
      try (by apply bool_decide_eq_false_2);
      try (by destruct_and!; split; apply bool_decide_eq_false_2);
      try done.
    + destruct valid_time0. split; [by apply Z.eqb_neq|by apply Z.ltb_lt].
    + by apply Z.ltb_lt.
    + by apply Z.ltb_lt.
  - split; [|done]. intros _. rewrite existsb_false in E.
    assert (H : forall n b, (n, b) ∈ dimensionChecks s -> b = true).
    { intros n b Hin. specialize (E (n, b) Hin). by apply negb_false_iff in E. }
    unfold dimensionChecks in H.
    split.
    + assert (B : (AgentID s !=? "") = true) by (eapply H; left). by bools.
    + assert (B : (WorkspaceID s !=? "") = true) by (eapply H; do 1 right; left). by bools.
    + assert (B : (Service s !=? "") = true) by (eapply H; do 2 right; left). by bools.
    + assert (B : (IdentityID s !=? "") && (Account s !=? "") = true)
        by (eapply H; do 3 right; left). by bools.
    + assert (B : (Resource s !=? ∅) && (ResourceKey s !=? "") = true)
        by (eapply H; do 4 right; left). by bools.
    + assert (B : (Operation s !=? "") = true) by (eapply H; do 5 right; left). by bools.
    + assert (B : negb (IsZero (NotBefore s)) && After (ExpiresAt s) (NotBefore s) = true)
        by (eapply H; do 6 right; left). unfold IsZero, After in B. by bools.
    + assert (B : (0 <? RequestLimit s) = true) by (eapply H; do 7 right; left). by bools.
    + eapply H; do 8 right; left.
    + assert (B : validLevel (RiskCeiling s) = true) by (eapply H; do 9 right; left).
      unfold validLevel in B. by bools.
Qed.

Lemma Validate_valid s : is_Ok (Validate s) = true <-> valid s.
Proof.
  rewrite <- Validate_ok. unfold Validate. destruct (existsb _ _); done.
Qed.

(** ** Covering *)

Lemma sameResource_spec left right :
  sameResource left right = true <->
    size left = size right /\ forall k v, left !! k = Some v -> default "" (right !! k) = v.
Proof.
  unfold sameResource. rewrite andb_true_iff, Nat.eqb_eq, forallb_elem_of.
  split; intros [Hs H]; split; try done.
  - intros k v Hk. specialize (H (k, v)). simpl in H.
    eapply bool_decide_eq_true_1, H. by apply elem_of_map_to_list.
  - intros [k v] Hkv%elem_of_map_to_list. by apply bool_decide_eq_true_2, H.
Qed.

(** Without empty values it is equality of maps. *)
Definition no_blank (resource : gmap string string) : Prop :=
  forall k v, resource !! k = Some v -> v <> "".

Lemma sameResource_eq left right :
  no_blank left -> sameResource left right = true <-> left = right.
Proof.
  intros Hb. rewrite sameResource_spec. split.
  - intros [Hs H]. apply map_subseteq_size_eq; [|lia].
    intros k. destruct (left !! k) as [v|] eqn:E; simpl.
    + specialize (H k v E). destruct (right !! k) as [w|] eqn:E2; simpl in *; [done|].
      by destruct (Hb k v E).
    + by destruct (right !! k).
  - intros ->. split; [done|]. intros k v Hk. by rewrite Hk.
Qed.

(** Same authority in everything but extent. *)
Record same_target (s other : Scope) : Prop := {
  same_agent : AgentID s = AgentID other;
  same_workspace : WorkspaceID s = WorkspaceID other;
  same_service : Service s = Service other;
  same_identity : IdentityID s = IdentityID other;
  same_account : Account s = Account other;
  same_operation : Operation s = Operation other;
  same_environment : Environment s = Environment other;
  same_resource : sameResource (Resource s) (Resource other) = true;
}.

Lemma Covers_spec s other :
  Covers s other = true <->
    valid s /\ valid other /\ hasWildcard (Resource s) = false /\
    hasWildcard (Resource other) = false /\ same_target s other /\
    NotBefore s <= NotBefore other /\ ExpiresAt other <= ExpiresAt s /\
    RequestLimit other <= RequestLimit s /\
    levelRank (RiskCeiling other) <= levelRank (RiskCeiling s).
Proof.
  unfold Covers, Before, After. split.
  - intros H. repeat case_match; try done. bools.
    rewrite !Validate_valid in *. by split_and!.
  - intros (H1 & H2 & H3 & H4 & [] & H6 & H7 & H8 & H9).
    apply Validate_valid in H1, H2. rewrite H1, H2, H3, H4. simpl.
    rewrite !bool_decide_eq_true_2 by done. simpl. rewrite same_resource0. simpl.
    apply Z.leb_le in H9. rewrite H9.
    repeat match goal with |- context [?a <? ?b] => destruct (Z.ltb_spec a b); try lia end.
    done.
Qed.

(** Everything a scope authorizes apart from its extent. *)
Definition target (s : Scope) :=
  (AgentID s, WorkspaceID s, Service s, IdentityID s, Account s, Operation s, Environment s,
   Resource s).

Lemma same_target_eq s other :
  no_blank (Resource s) -> same_target s other <-> target s = target other.
Proof.
  intros Hb. unfold target. split.
  - intros []. apply sameResource_eq in same_resource0; [|done]. congruence.
  - intros E. injection E as ????????. split; try done. by apply sameResource_eq.
Qed.

(** Covering, dimension by dimension. *)
Lemma Covers_iff s other :
  no_blank (Resource s) ->
  Covers s other = true <->
    valid s /\ valid other /\ hasWildcard (Resource s) = false /\ target s = target other /\
    NotBefore s <= NotBefore other /\ ExpiresAt other <= ExpiresAt s /\
    RequestLimit other <= RequestLimit s /\
    levelRank (RiskCeiling other) <= levelRank (RiskCeiling s).
Proof.
  intros Hb. rewrite Covers_spec, same_target_eq by done. split; [tauto|].
  intros (H1 & H2 & H3 & H4 & H5). split_and!; try tauto.
  unfold target in H4. by replace (Resource other) with (Resource s) by congruence.
Qed.

(** C33. Covering is exact: between scopes whose resource values are not empty,
    one covers another only if both are fully determined, neither names a
    resource by wildcard, agent, project, service, account, operation,
    environment and every resource field are identical, and window, request count
    and risk ceiling do not exceed it. There is no approximate match. *)
Theorem Covers_exact s other :
  no_blank (Resource s) ->
  Covers s other = true <->
    valid s /\ valid other /\ hasWildcard (Resource s) = false /\ target s = target other /\
    NotBefore s <= NotBefore other /\ ExpiresAt other <= ExpiresAt s /\
    RequestLimit other <= RequestLimit s /\
    levelRank (RiskCeiling other) <= levelRank (RiskCeiling s).
Proof. exact (Covers_iff s other). Qed.

(** Covering is a preorder on determined scopes without wildcards or empty
    resource values: a scope covers itself, and what a covered scope covers is
    covered, so a chain of learned or issued grants cannot widen. *)
Theorem Covers_preorder a b c :
  (forall s, valid s -> hasWildcard (Resource s) = false -> Covers s s = true) /\
  (no_blank (Resource a) -> Covers a b = true -> Covers b c = true -> Covers a c = true).
Proof.
  split.
  - intros s Hv Hw. apply Covers_spec. split_and!; try done. split; try done.
    apply sameResource_spec. split; [done|]. intros k v Hk. by rewrite Hk.
  - intros Ha. rewrite (Covers_iff a b), (Covers_iff a c) by done.
    intros (Ha1 & Hb1 & Hw & Ht & H1 & H2 & H3 & H4) Hbc.
    assert (Hb : no_blank (Resource b)).
    { unfold target in Ht. by replace (Resource b) with (Resource a) by congruence. }
    rewrite (Covers_iff b c) in Hbc by done. destruct Hbc as (? & ? & ? & ? & ? & ? & ? & ?).
    split_and!; try done; try lia. congruence.
Qed.

(** A grant already issued is compared without its window, and only the
    window is left out: the answer does not depend on the request's window, it agrees
    with the other nine dimensions of the exact relation, and covering with the
    window implies it. *)
Theorem CoversIgnoringWindow_spec s other notBefore expiresAt :
  CoversIgnoringWindow s (with_window other notBefore expiresAt) = CoversIgnoringWindow s other /\
  (Covers s other = true -> CoversIgnoringWindow s other = true) /\
  (CoversIgnoringWindow s other = true ->
     valid s /\ same_target s other /\ RequestLimit other <= RequestLimit s /\
     levelRank (RiskCeiling other) <= levelRank (RiskCeiling s)).
Proof.
  unfold CoversIgnoringWindow. split; [done|]. rewrite !Covers_spec. simpl. split.
  - intros (Hs & Ho & H3 & H4 & H5 & H6 & H7 & H8 & H9). split_and!; try done; try lia.
    + destruct Ho, Hs. by split.
    + destruct H5. by split.
  - intros (Hs & Ho & H3 & H4 & H5 & H6 & H7 & H8 & H9). split_and!; try done.
    destruct H5. by split.
Qed.

(** The comparison of resources reads a missing field as an empty one, so
    with an empty value it accepts another resource of the same size. *)
Theorem sameResource_gap :
  let left := <["a" := ""]> ∅ : gmap string string in
  let right := <["b" := "x"]> ∅ : gmap string string in
  sameResource left right = true /\ sameResource right left = false.
Proof. split; reflexivity. Qed.

(** ** Resolution *)

Lemma ceilingOf_valid label :
  Intent.validRiskLabel label = true -> levelRank (ceilingOf label) = levelRank label /\
    ceilingOf label = label.
Proof.
  intros Hl%one_of_spec. rewrite !elem_of_cons in Hl.
  destruct Hl as [->|[->|[->|Hl%not_elem_of_nil]]]; done.
Qed.

(** A resolved scope is the least one: fully determined, one operation, the
    resource exactly as the intent has it, the account of the matched identity,
    starting now, for the default fifteen minutes and one request unless the
    gateway asked otherwise. Nothing of the request widens it: undeclared fields
    are only reported, those that speak of authority as injection. *)
Theorem resolve_minimal `{Unicode} now input r :
  Resolve now input = Ok r ->
  let s := r_Scope r in let intent := in_Intent input in
  valid s /\
  AgentID s = in_AgentID input /\ WorkspaceID s = in_WorkspaceID input /\
  Service s = Intent.Service intent /\ Operation s = Intent.Operation intent /\
  Resource s = Intent.Resource intent /\ ResourceKey s = Intent.ResourceKey intent /\
  Environment s = Intent.Environment intent /\
  IdentityID s = Matcher.ID (in_Identity input) /\
  Account s = Matcher.AccountLabel (in_Identity input) /\
  Matcher.Service (in_Identity input) = Service s /\
  NotBefore s = now /\
  ExpiresAt s = now + (if in_Duration input =? 0 then 15 * Minute else in_Duration input) /\
  RequestLimit s = (if in_RequestLimit input =? 0 then 1 else in_RequestLimit input) /\
  IgnoredFields r ≡ₚ Intent.IgnoredFields intent /\
  (forall f, f ∈ Injection r <-> f ∈ Intent.IgnoredFields intent /\ isInjection f = true).
Proof.
  unfold Resolve. intros Hr. apply bind_Ok in Hr as ([] & Hc & Hr).
  apply bind_Ok in Hr as ([] & Hv & Hr). simplify_eq. simpl. apply Validate_ok in Hv.
  unfold checkInput in Hc. destruct (_ && _ && _) eqn:Esvc; [done|]. clear Hc.
  split_and!; try done.
  - destruct Hv. simpl in *. destruct valid_account0 as [Hid _].
    rewrite (bool_decide_eq_false_2 _ Hid), (bool_decide_eq_false_2 _ valid_service0) in Esvc.
    simpl in Esvc. by bools.
  - apply sort_strings_perm.
  - intros f. unfold injectionFields. rewrite list_elem_of_filter, sort_strings_perm. tauto.
Qed.

(** ** Stored scopes read back *)

Definition utf8_scope (s : Scope) : Prop :=
  valid_utf8 (AgentID s) = true /\ valid_utf8 (WorkspaceID s) = true /\
  valid_utf8 (Service s) = true /\ valid_utf8 (IdentityID s) = true /\
  valid_utf8 (Account s) = true /\ Json.utf8_map (Resource s) /\
  valid_utf8 (ResourceKey s) = true /\ valid_utf8 (Operation s) = true /\
  valid_utf8 (Environment s) = true /\ valid_utf8 (RiskCeiling s) = true.

Definition storable_time (t : Z) : Prop := 0 <= year_of_instant t <= 9999.

Lemma marshal_time_some t : storable_time t -> marshal_time t = Some (rfc3339_nano t).
Proof.
  intros Ht. unfold marshal_time. assert (E : in_range 0 9999 (year_of_instant t) = true)
    by by apply in_range_spec. by rewrite E.
Qed.

Lemma as_of_time old t :
  storable_time t -> as_time old (Json.JStr (rfc3339_nano t)) = Some t.
Proof. apply parse_rfc3339_nano. Qed.

(** The texts of instants hold nothing a JSON string would escape. *)
Definition plain (c : ascii) : bool :=
  in_range 32 127 (byte_of c) && negb (byte_of c =? 34) && negb (byte_of c =? 92).
Definition all_plain (s : string) : bool := negb (str_exists (fun c => negb (plain c)) s).

Lemma all_plain_app s t : all_plain (s +:+ t) = all_plain s && all_plain t.
Proof. unfold all_plain. rewrite str_exists_app. by rewrite negb_orb. Qed.

Lemma plain_raw s : all_plain s = true -> Json.raw_ok s.
Proof.
  unfold Json.raw_ok, all_plain. induction s as [|c s IH]; intros Hs; [done|].
  simpl in Hs. rewrite negb_orb, negb_involutive in Hs. apply andb_true_iff in Hs as [Hc Hs].
  unfold plain in Hc. rewrite !andb_true_iff, !negb_true_iff in Hc.
  destruct Hc as [[Hr H34] H92]. apply in_range_spec in Hr.
  rewrite str_app_cons. cbn [Json.lex_str]. rewrite H34, H92.
  assert (E : (byte_of c <? 32) = false) by lia. by rewrite E, IH.
Qed.

Lemma plain_digit d : 0 <= d < 10 -> plain (of_byte (48 + d)) = true.
Proof.
  intros Hd. unfold plain. rewrite byte_of_of by lia.
  assert (E : in_range 32 127 (48 + d) = true) by (apply in_range_spec; lia). rewrite E.
  assert (E1 : (48 + d =? 34) = false) by lia. assert (E2 : (48 + d =? 92) = false) by lia.
  by rewrite E1, E2.
Qed.

Lemma pad_plain k n : 0 <= n -> all_plain (pad k n) = true.
Proof.
  intros Hn. unfold all_plain. induction k as [|k IH]; [done|]. cbn [pad str_exists].
  rewrite plain_digit by (apply Z.mod_pos_bound; lia). exact IH.
Qed.

Lemma frac_digits_plain k n :
  0 <= n < 10 ^ Z.of_nat k -> all_plain (frac_digits k n) = true.
Proof.
  revert n. induction k as [|k IH]; intros n Hn; cbn [frac_digits]; destruct (n =? 0); try done.
  rewrite Nat2Z.inj_succ, Z.pow_succ_r in Hn by lia.
  assert (0 < 10 ^ Z.of_nat k) by (apply Z.pow_pos_nonneg; lia).
  specialize (IH (n mod 10 ^ Z.of_nat k) ltac:(apply Z.mod_pos_bound; lia)).
  unfold all_plain in *. cbn [str_exists]. rewrite plain_digit; [exact IH|].
  split; [apply Z.div_pos; lia|apply Z.div_lt_upper_bound; lia].
Qed.

Lemma rfc3339_nano_plain t : storable_time t -> all_plain (rfc3339_nano t) = true.
Proof.
  unfold storable_time, year_of_instant, rfc3339_nano, seconds_text. intros Hy.
  destruct (civil_of (days_part t)) as [[y m] d] eqn:Ec.
  destruct (civil_of_spec _ _ _ _ Ec) as [_ [Hm Hd]].
  assert (Hy0 : (year_of (days_part t)).1 = y).
  { unfold civil_of in Ec. destruct (year_of (days_part t)). by simplify_eq/=. }
  rewrite Hy0 in Hy. unfold year_text.
  assert (E1 : (y <? 0) = false) by lia. assert (E2 : (y <? 10000) = true) by lia.
  rewrite E1, E2. unfold clock_text.
  assert (Hs : 0 <= sec_part t).
  { unfold sec_part, Day, Hour, Minute, Second. Z.div_mod_to_equations; lia. }
  rewrite !all_plain_app, !pad_plain by (first [lia | Z.div_mod_to_equations; lia]).
  unfold frac_text. destruct (nsec_part t =? 0); [done|].
  rewrite all_plain_app, frac_digits_plain; [done|].
  unfold nsec_part, Second. simpl. apply Z.mod_pos_bound. lia.
Qed.

Section stored.
Context `{Unicode}.

Lemma scope_names : NoDup (map fst scope_setters).
Proof.
  cbn [map fst scope_setters].
  apply (bool_decide_eq_true (NoDup _)). vm_compute. reflexivity.
Qed.

Lemma as_of_resource (m : gmap string string) :
  Json.utf8_map m -> as_resource ∅ (Json.of_string_map (Some m)) = Some m.
Proof.
  intros Hm. unfold as_resource.
  change (Json.as_string_map (Some ∅)) with (Json.as_string_map None).
  by rewrite Json.as_of_string_map.
Qed.

Ltac step i lemma :=
  erewrite (Json.decode_step _ i);
    [|apply scope_names|vm_compute; reflexivity|reflexivity
     |cbn beta iota zeta; rewrite lemma by done; cbn [mbind option_bind]; reflexivity].

Lemma scope_reads_back s :
  utf8_scope s -> storable_time (NotBefore s) -> storable_time (ExpiresAt s) ->
  Json.int64_ok (RequestLimit s) = true ->
  exists text, marshal s = Some text /\ unmarshal text = Some s.
Proof.
  intros (?&?&?&?&?&?&?&?&?&?) Hnb Hea Hlim. unfold marshal, scope_json, of_time.
  rewrite !marshal_time_some by done. cbn [fmap option_fmap option_map mbind option_bind].
  eexists. split; [reflexivity|]. unfold unmarshal. rewrite Json.parse_print.
  - destruct s. cbn [mbind option_bind Json.decode_struct]. unfold zero_scope.
    cbn [AgentID WorkspaceID Service IdentityID Account Resource ResourceKey Operation
      NotBefore ExpiresAt RequestLimit Environment RiskCeiling] in *.
    step 0%nat Json.as_of_string. step 1%nat Json.as_of_string. step 2%nat Json.as_of_string.
    step 3%nat Json.as_of_string. step 4%nat Json.as_of_string. step 5%nat as_of_resource.
    step 6%nat Json.as_of_string. step 7%nat Json.as_of_string. step 8%nat as_of_time.
    step 9%nat as_of_time. step 10%nat Json.as_of_int. step 11%nat Json.as_of_string.
    step 12%nat Json.as_of_string. reflexivity.
  - apply Json.wf_obj. intros k v. rewrite !elem_of_cons. intros Hin.
    destruct_or!; try (by apply not_elem_of_nil in Hin); simplify_eq;
      (split; [reflexivity|]);
      auto using Json.wf_of_string, Json.wf_of_string_map, Json.wf_of_int;
      apply plain_raw, rfc3339_nano_plain; done.
  - pose proof (Json.jdepth_of_string_map (Some (Resource s))) as Hd.
    remember (Json.of_string_map (Some (Resource s))) as jr eqn:Ejr. clear Ejr.
    simpl. unfold Json.max_nesting. lia.
Qed.

(** A scope written to the database is read back as the same scope - every
    dimension, the resource map and both instants, to the nanosecond - so two
    scopes that are stored as one text are one scope. *)
Theorem scope_roundtrip s s' :
  utf8_scope s -> storable_time (NotBefore s) -> storable_time (ExpiresAt s) ->
  Json.int64_ok (RequestLimit s) = true ->
  utf8_scope s' -> storable_time (NotBefore s') -> storable_time (ExpiresAt s') ->
  Json.int64_ok (RequestLimit s') = true ->
  (exists text, marshal s = Some text /\ unmarshal text = Some s) /\
  (marshal s = marshal s' -> s = s').
Proof.
  intros Hu Hn He Hl Hu' Hn' He' Hl'.
  destruct (scope_reads_back s) as (text & Hm & Hr); [done..|].
  destruct (scope_reads_back s') as (text' & Hm' & Hr'); [done..|].
  split; [by exists text|]. rewrite Hm, Hm'. intros [= ->]. congruence.
Qed.
End stored.

(** ** Witnesses *)

(** 2025-06-01T12:00:00.25Z and a quarter of an hour later. *)
Definition sample_now : Z := days_of 2025 6 1 * Day + 12 * Hour + 250 * Millisecond.

Definition sample_scope : Scope :=
  {| AgentID := "agent"; WorkspaceID := "work"; Service := "github"; IdentityID := "id";
     Account := "acme"; Resource := <["owner" := "acme"]> (<["repo" := "app"]> ∅);
     ResourceKey := "owner=acme;repo=app"; Operation := "create_issue";
     NotBefore := sample_now; ExpiresAt := sample_now + DefaultDuration; RequestLimit := 20;
     Environment := Matcher.EnvironmentProduction; RiskCeiling := Risk.LevelMedium |}.

Definition sample_narrow : Scope :=
  {| AgentID := "agent"; WorkspaceID := "work"; Service := "github"; IdentityID := "id";
     Account := "acme"; Resource := <["owner" := "acme"]> (<["repo" := "app"]> ∅);
     ResourceKey := "owner=acme;repo=app"; Operation := "create_issue";
     NotBefore := sample_now + Minute; ExpiresAt := sample_now + 2 * Minute; RequestLimit := 1;
     Environment := Matcher.EnvironmentProduction; RiskCeiling := Risk.LevelLow |}.

Lemma sample_no_blank : no_blank (Resource sample_scope).
Proof.
  intros k v. simpl. rewrite !lookup_insert_Some, lookup_empty. naive_solver.
Qed.

Lemma sample_valid : valid sample_scope.
Proof. apply Validate_ok. vm_compute. reflexivity. Qed.

Lemma Covers_exact_witness :
  Covers sample_scope sample_narrow = true /\ target sample_scope = target sample_narrow.
Proof.
  assert (Hc : Covers sample_scope sample_narrow = true) by (vm_compute; reflexivity).
  split; [exact Hc|].
  apply (proj1 (Covers_exact sample_scope sample_narrow sample_no_blank) Hc).
Defined.

Lemma Covers_preorder_witness : Covers sample_scope sample_scope = true.
Proof.
  apply (proj1 (Covers_preorder sample_scope sample_scope sample_scope)).
  - apply sample_valid.
  - vm_compute. reflexivity.
Defined.

#[local] Existing Instance ascii_only.

Lemma sample_utf8 : utf8_scope sample_scope.
Proof.
  unfold utf8_scope. split_and!; try reflexivity. intros k v. simpl.
  rewrite !lookup_insert_Some, lookup_empty.
  intros [[<- <-]|[_ [[<- <-]|[_ Hk]]]]; [by split..|done].
Qed.

Lemma sample_storable : storable_time (NotBefore sample_scope) /\ storable_time (ExpiresAt sample_scope).
Proof. unfold storable_time. vm_compute. split_and!; discriminate. Qed.

Lemma scope_roundtrip_witness :
  exists text, marshal sample_scope = Some text /\ unmarshal text = Some sample_scope.
Proof.
  destruct sample_storable as [Hn He].
  destruct (scope_roundtrip sample_scope sample_scope sample_utf8 Hn He eq_refl sample_utf8 Hn He eq_refl)
    as [H _]. exact H.
Defined.

Definition sample_intent : Intent.Intent :=
  {| Intent.Service := "github"; Intent.Operation := "create_issue";
     Intent.Resource := Resource sample_scope; Intent.ResourceKey := "owner=acme;repo=app";
     Intent.IgnoredFields := ["requested_scope"; "assignee"];
     Intent.Environment := Matcher.EnvironmentProduction;
     Intent.EnvironmentAssumed := true; Intent.DesiredChange := "open";
     Intent.Reversible := true; Intent.SensitiveData := false; Intent.Idempotent := false;
     Intent.RiskLabel := Registry.RiskLabelMedium; Intent.ResourceAmbiguous := false |}.

Definition sample_input : Input :=
  {| in_Intent := sample_intent; in_AgentID := "agent"; in_WorkspaceID := "work";
     in_Identity := Matcher.sample_identity "id" true; in_Duration := 0;
     in_RequestLimit := 0 |}.

Lemma resolve_minimal_witness :
  exists r, Resolve sample_now sample_input = Ok r /\ Injection r = ["requested_scope"] /\
    RequestLimit (r_Scope r) = 1 /\ valid (r_Scope r).
Proof.
  destruct (Resolve sample_now sample_input) as [r|e] eqn:E; [|by vm_compute in E].
  pose proof (resolve_minimal sample_now sample_input r E) as H. cbv zeta in H.
  destruct H as (Hv & _ & _ & _ & _ & _ & _ & _ & _ & _ & _ & _ & _ & Hl & _).
  exists r. split; [reflexivity|]. split; [|split; [exact Hl|exact Hv]].
  vm_compute in E. injection E as <-. reflexivity.
Defined.
