(* ===== verification/Forbidden.v ===== *)
(** * core/decision: the forbidden list (forbidden.go)

    Five categories are refused for ever, with no approval. Operation names are
    cut into words and a keyword counts only as one word or as several
    neighbouring words put together. *)
From S2P Require Import Prelude GoStr.
Open Scope Z_scope.

Definition ForbiddenCredentialRequest : string := "credential_request".
Definition ForbiddenVaultExport : string := "vault_export".
Definition ForbiddenPrivilegeEscalation : string := "privilege_escalation".
Definition ForbiddenAuditDisable : string := "audit_disable".
Definition ForbiddenSelfConfiguration : string := "self_configuration".

Definition SelfService : string := "opendelo".

Definition credentialNouns : list string :=
  ["credential"; "secret"; "token"; "apikey"; "password"; "privatekey"; "passphrase"].
Definition vaultNouns : list string := ["vault"; "keychain"; "keyring"].
Definition readVerbs : list string :=
  ["read"; "get"; "export"; "reveal"; "show"; "dump"; "fetch"; "download"; "list"; "unlock"].
Definition auditWords : list string := ["audit"; "ledger"].
Definition privilegeWords : list string :=
  ["scope"; "permission"; "privilege"; "grant"; "role"; "policy"; "lease"; "trust";
   "approval"; "automation"].

Definition longestKeyword : nat := String.length "privatekey".

(** The inner loop of [mentionsAny]: [joined] is what the words before [words]
    were put together to. *)
Fixpoint joins (keywords : list string) (joined : string) (words : list string) : bool :=
  match words with
  | [] => false
  | word :: rest =>
      let joined := joined +:+ word in
      if one_of joined keywords then true
      else if (longestKeyword <? String.length joined)%nat then false
      else joins keywords joined rest
  end.

Fixpoint mentionsAny (words keywords : list string) : bool :=
  match words with
  | [] => false
  | _ :: rest => joins keywords "" words || mentionsAny rest keywords
  end.

(** The separators of operation names. *)
Definition is_separator (letter : Z) : bool :=
  (letter =? 45) || (letter =? 95) || (letter =? 46) || (letter =? 47) || (letter =? 32).

Section segments.
Context `{Unicode}.

(** One flushed word, in lower case and without a plural s. *)
Definition finish_word (current : list Z) : string :=
  let word := to_lower (concat_str (map encode_rune current)) in
  if (3 <? String.length word)%nat && has_suffix word "s" then trim_suffix word "s" else word.

Definition flush (current : list Z) : list string :=
  match current with [] => [] | _ => [finish_word current] end.

(** The loop over the runes of the name. *)
Fixpoint segments (current letters : list Z) : list string :=
  match letters with
  | [] => flush current
  | letter :: rest =>
      if is_separator letter then flush current ++ segments [] rest
      else if rune_is_upper letter then flush current ++ segments [letter] rest
      else segments (current ++ [letter]) rest
  end.

Definition segmentsOf (operation : string) : list string := segments [] (runes operation).

Definition classifyForbidden (service operation : string) : option string :=
  let words := segmentsOf operation in
  let reading := mentionsAny words readVerbs in
  if reading && mentionsAny words vaultNouns then Some ForbiddenVaultExport
  else if reading && mentionsAny words credentialNouns then Some ForbiddenCredentialRequest
  else if negb (equal_fold service SelfService) then None
  else if mentionsAny words auditWords then Some ForbiddenAuditDisable
  else if mentionsAny words privilegeWords then Some ForbiddenPrivilegeEscalation
  else Some ForbiddenSelfConfiguration.

Definition Classify (service operation : string) : option string :=
  classifyForbidden service operation.
End segments.

(** ** The bound loses nothing *)

(** The specification of a mention: some neighbouring words put together are a
    keyword. *)
Definition mentions (words keywords : list string) : Prop :=
  exists before run after, words = before ++ run ++ after /\ run <> [] /\
    concat_str run ∈ keywords.

Lemma concat_str_app l k : concat_str (l ++ k) = concat_str l +:+ concat_str k.
Proof.
  unfold concat_str. induction l as [|x l IH]; [done|]. simpl. by rewrite IH, str_app_assoc.
Qed.

Lemma joins_spec keywords joined words :
  (forall k, k ∈ keywords -> (String.length k <= longestKeyword)%nat) ->
  joins keywords joined words = true <->
    exists run after, words = run ++ after /\ run <> [] /\
      joined +:+ concat_str run ∈ keywords.
Proof.
  intros Hlen. revert joined. induction words as [|w words IH]; intros joined; cbn [joins].
  - split; [done|]. intros (run & after & E & Hne & _). by destruct run.
  - destruct (one_of (joined +:+ w) keywords) eqn:Eo.
    + split; [|done]. intros _. exists [w], words. split_and!; [done|done|].
      unfold concat_str. simpl. rewrite str_app_nil_r. by apply one_of_spec.
    + assert (Hno : joined +:+ w ∉ keywords) by (intros Hin%one_of_spec; congruence).
      assert (Hstep : (exists run after, w :: words = run ++ after /\ run <> [] /\
          joined +:+ concat_str run ∈ keywords) <->
        exists run after, words = run ++ after /\ run <> [] /\
          (joined +:+ w) +:+ concat_str run ∈ keywords).
      { split.
        - intros ([|x [|y run]] & after & E & Hne & Hin); [done| |].
          + simplify_eq/=. unfold concat_str in Hin. simpl in Hin. by rewrite str_app_nil_r in Hin.
          + simplify_eq/=. exists (y :: run), after. split_and!; [done|done|].
            by rewrite <- str_app_assoc.
        - intros (run & after & -> & Hne & Hin). exists (w :: run), after.
          split_and!; [done|done|]. unfold concat_str in *. simpl. by rewrite str_app_assoc. }
      rewrite Hstep. destruct (longestKeyword <? String.length (joined +:+ w))%nat eqn:El; [|apply IH].
      split; [done|]. intros (run & after & _ & _ & Hin). exfalso.
      apply Hlen in Hin. rewrite str_length_app in Hin. apply Nat.ltb_lt in El. lia.
Qed.

Lemma mentionsAny_spec words keywords :
  (forall k, k ∈ keywords -> (String.length k <= longestKeyword)%nat) ->
  mentionsAny words keywords = true <-> mentions words keywords.
Proof.
  intros Hlen. induction words as [|w words IH]; cbn [mentionsAny].
  - split; [done|]. intros (before & run & after & E & Hne & _).
    by destruct before, run.
  - rewrite orb_true_iff, (joins_spec keywords "" (w :: words) Hlen), IH. split.
    + intros [(run & after & E & Hne & Hin)|(before & run & after & E & Hne & Hin)].
      * exists [], run, after. by split_and!.
      * exists (w :: before), run, after. rewrite E. by split_and!.
    + intros ([|x before] & run & after & E & Hne & Hin); simplify_eq/=.
      * left. exists run, after. by split_and!.
      * right. exists before, run, after. by split_and!.
Qed.

Definition all_keywords : list string :=
  credentialNouns ++ vaultNouns ++ readVerbs ++ auditWords ++ privilegeWords.

(** No keyword is longer than the bound. *)
Lemma keywords_bounded k : k ∈ all_keywords -> (String.length k <= longestKeyword)%nat.
Proof.
  intros Hk. apply Nat.leb_le. revert k Hk. apply forallb_elem_of. vm_compute. reflexivity.
Qed.

Lemma mentions_spec words keywords :
  keywords ⊆ all_keywords -> mentionsAny words keywords = true <-> mentions words keywords.
Proof. intros Hsub. apply mentionsAny_spec. intros k Hk. by apply keywords_bounded, Hsub. Qed.

Lemma sublist_keywords :
  credentialNouns ⊆ all_keywords /\ vaultNouns ⊆ all_keywords /\ readVerbs ⊆ all_keywords /\
  auditWords ⊆ all_keywords /\ privilegeWords ⊆ all_keywords.
Proof. unfold all_keywords. split_and!; set_solver. Qed.

(** The forbidden list means what it says: an operation is refused as vault
    export or credential request exactly when a reading verb and such a noun
    occur in its name as words or runs of neighbouring words, on any service; on
    the gateway's own service, under any spelling of its name, everything is
    refused; nothing else is. The cut-off in the word loop never misses a
    keyword. *)
Theorem classify_spec `{Unicode} service operation :
  let words := segmentsOf operation in
  let reading := mentions words readVerbs in
  let self := equal_fold service SelfService = true in
  (Classify service operation = Some ForbiddenVaultExport <->
     reading /\ mentions words vaultNouns) /\
  (Classify service operation = Some ForbiddenCredentialRequest <->
     reading /\ mentions words credentialNouns /\ ~ mentions words vaultNouns) /\
  (Classify service operation = None <->
     ~ self /\ ~ (reading /\ (mentions words vaultNouns \/ mentions words credentialNouns))) /\
  (Classify service operation = Some ForbiddenAuditDisable ->
     self /\ mentions words auditWords) /\
  (Classify service operation = Some ForbiddenPrivilegeEscalation ->
     self /\ mentions words privilegeWords).
Proof.
  cbv zeta. unfold Classify, classifyForbidden.
  destruct sublist_keywords as (H1 & H2 & H3 & H4 & H5).
  rewrite <- !mentions_spec by done.
  destruct (mentionsAny _ readVerbs), (mentionsAny _ vaultNouns), (mentionsAny _ credentialNouns),
    (equal_fold _ _), (mentionsAny _ auditWords), (mentionsAny _ privilegeWords); simpl;
    split_and!; intuition discriminate.
Qed.
