(* ===== verification/Decision.v ===== *)
(** * core/decision: the decision engine

    Fail-closed checks (failclosed.go), then the forbidden list, then a table of
    branches tried in order, and confirmation by a person when nothing else
    applies (engine.go). A nil function call is the one panic the code could
    reach: a branch that would make it is [None], and [Decide] turns it into a
    refusal the way the deferred recover does. *)
From S2P Require Import Prelude GoStr Apperr.
From S2P Require Agent Risk Matcher Scope Forbidden.
Open Scope Z_scope.

(** ** Verdicts (decision.go) *)

Definition VerdictAutoAllow : string := "auto_allow".
Definition VerdictRequireApproval : string := "require_approval".
Definition VerdictDeny : string := "deny".

Definition ApprovalNone : string := "none".
Definition ApprovalStandard : string := "standard".
Definition ApprovalStrongAuth : string := "strong_auth".

(** The stored record. *)
Record Decision := {
  ID : string;
  CapabilityRequestID : string;
  d_Verdict : string;
  RiskLevel : string;
  RiskFactors : string;
  d_IdentityID : string;
  d_MatchLevel : string;
  ResolvedScope : string;
  d_ApprovalRequirement : string;
  ReasonCode : string;
  TrustMemoryID : string;
  CreatedAt : Z;
}.

#[export] Instance Decision_eq_dec : EqDecision Decision.
Proof. solve_decision. Defined.

(** ** Fail closed (failclosed.go) *)

Definition BlockerAgentUnidentified : string := "agent_unidentified".
Definition BlockerServiceUndetermined : string := "service_undetermined".
Definition BlockerIdentityAmbiguityUnresolvable : string := "identity_ambiguity_unresolvable".
Definition BlockerScopeUndeterminable : string := "scope_undeterminable".
Definition BlockerCapabilityNotOffered : string := "capability_not_offered".
Definition BlockerRiskUnknown : string := "risk_unknown".
Definition BlockerPolicyEngineFailure : string := "policy_engine_failure".
Definition BlockerGatewayOffline : string := "gateway_offline".
Definition BlockerCredentialSourceUnavailable : string := "credential_source_unavailable".
Definition BlockerAuditWriteFailed : string := "audit_write_failed".

Definition blockers : list string :=
  [ BlockerAgentUnidentified; BlockerServiceUndetermined; BlockerIdentityAmbiguityUnresolvable;
    BlockerScopeUndeterminable; BlockerCapabilityNotOffered; BlockerRiskUnknown;
    BlockerPolicyEngineFailure; BlockerGatewayOffline; BlockerCredentialSourceUnavailable;
    BlockerAuditWriteFailed ].

Definition validBlocker (blocker : string) : bool := one_of blocker blockers.

(** ** Inputs and outcomes (engine.go) *)

Definition ModeCautious : string := "cautious".
Definition ModeBalanced : string := "balanced".
Definition ModeAutomatic : string := "automatic".
Definition modes : list string := [ModeCautious; ModeBalanced; ModeAutomatic].
Definition ValidMode (mode : string) : bool := one_of mode modes.

Definition ReasonFailClosed : string := "fail_closed".
Definition ReasonForbidden : string := "forbidden".
Definition ReasonHighRisk : string := "high_risk".
Definition ReasonBeyondLearnedScope : string := "beyond_learned_scope".
Definition ReasonIdentityAmbiguous : string := "identity_ambiguous".
Definition ReasonLowRisk : string := "low_risk".
Definition ReasonTrustMemoryMatch : string := "trust_memory_match".
Definition ReasonActiveLease : string := "active_lease".
Definition ReasonRequiresConfirmation : string := "requires_confirmation".

Record Grant := {
  MemoryID : string;
  g_Scope : Scope.Scope;
  AlwaysAsk : bool;
}.

Record ActiveLease := {
  LeaseID : string;
  l_Scope : Scope.Scope;
}.

Record Input := {
  Mode : string;
  AgentID : string;
  AgentTrust : string;
  Write : bool;
  Match : Matcher.Result;
  i_Scope : Scope.Result;
  i_Assessment : Risk.Assessment;
  ReadOnlyAutoAllow : bool;
  NewService : bool;
  IdentityChanged : bool;
  NewIdentity : bool;
  NewResource : bool;
  Learned : list Grant;
  Active : list ActiveLease;
  Blockers : list string;
}.

Record Outcome := {
  Verdict : string;
  ApprovalRequirement : string;
  Reason : string;
  Confirmations : Z;
  Blocker : string;
  OForbidden : string;
  MatchedMemoryID : string;
  MatchedLeaseID : string;
}.

(** The scope under decision. *)
Definition scope_of (i : Input) : Scope.Scope := Scope.r_Scope (i_Scope i).
Definition level_of (i : Input) : string := Risk.Level (i_Assessment i).

Definition resolvableMatch (r : Matcher.Result) : bool :=
  if Matcher.Ambiguous r then
    (2 <=? length (Matcher.Candidates r))%nat &&
    (Matcher.ID (Matcher.r_Identity r) ==? "") && (Matcher.Level r ==? "")
  else (Matcher.ID (Matcher.r_Identity r) !=? "") && (Matcher.Level r !=? "").

Definition validAssessment (a : Risk.Assessment) : bool :=
  negb (length (Risk.Reasons a) =? 0)%nat &&
  one_of (Risk.Level a) [Risk.LevelLow; Risk.LevelMedium; Risk.LevelHigh].

Definition selfDetected (i : Input) : option string :=
  fst <$> find_first snd
    [ (BlockerAgentUnidentified, AgentID i ==? "");
      (BlockerServiceUndetermined, Scope.Service (scope_of i) ==? "");
      (BlockerScopeUndeterminable, negb (is_Ok (Scope.Validate (scope_of i))));
      (BlockerIdentityAmbiguityUnresolvable, negb (resolvableMatch (Match i)));
      (BlockerRiskUnknown, negb (validAssessment (i_Assessment i))) ].

(** ** Modes *)

(** A nil field is [None]. *)
Record modeRule := {
  lowRisk : option (Input -> bool);
  learnedMedium : option (Input -> bool);
  doubleConfirmation : bool;
}.

Definition cautiousAutoAllow (i : Input) : bool :=
  negb (Write i) && ReadOnlyAutoAllow i && negb (NewService i) && negb (IdentityChanged i).

Definition modeRules (mode : string) : option modeRule :=
  if mode ==? ModeCautious then
    Some {| lowRisk := Some cautiousAutoAllow; learnedMedium := Some cautiousAutoAllow;
            doubleConfirmation := true |}
  else if mode ==? ModeBalanced then
    Some {| lowRisk := Some (fun i => negb (Write i)); learnedMedium := Some (fun _ => true);
            doubleConfirmation := false |}
  else if mode ==? ModeAutomatic then
    Some {| lowRisk := Some (fun i => negb (Write i) || (negb (NewIdentity i) && negb (NewResource i)));
            learnedMedium := Some (fun _ => true);
            doubleConfirmation := false |}
  else None.

(** [modeRules[i.Mode]]: the zero rule for an unknown mode. *)
Definition rule (i : Input) : modeRule :=
  default {| lowRisk := None; learnedMedium := None; doubleConfirmation := false |}
    (modeRules (Mode i)).

(** ** Grants *)

Definition asksAlways (i : Input) : bool :=
  existsb (fun g => AlwaysAsk g && Scope.CoversIgnoringWindow (g_Scope g) (scope_of i)) (Learned i).

Definition matchedGrant (i : Input) : option Grant :=
  find_first (fun g => Scope.CoversIgnoringWindow (g_Scope g) (scope_of i)) (Learned i).

Definition matchedLease (i : Input) : option ActiveLease :=
  find_first (fun l => Scope.CoversIgnoringWindow (l_Scope l) (scope_of i)) (Active i).

Definition is_nil {A} (o : option A) : bool := match o with None => true | Some _ => false end.

Definition automatable (i : Input) : bool :=
  negb (Matcher.NeedsReview (Match i) || Scope.Ambiguous (i_Scope i) ||
        (Write i && (AgentTrust i ==? Agent.TrustUnverified)) || asksAlways i).

(** ** Branches *)

Record branch := Branch {
  reason : string;
  hits : Input -> bool -> option bool;
  verdict : string;
}.

(** [guard && call()] with a function that may be nil. *)
Definition and_call (guard : bool) (f : option (Input -> bool)) (i : Input) : option bool :=
  if guard then match f with Some f => Some (f i) | None => None end else Some false.

Definition branches : list branch :=
  [ Branch ReasonHighRisk (fun i _ => Some (level_of i ==? Risk.LevelHigh)) VerdictRequireApproval;
    Branch ReasonBeyondLearnedScope
      (fun i _ => Some ((0 <? length (Learned i))%nat && is_nil (matchedGrant i)))
      VerdictRequireApproval;
    Branch ReasonIdentityAmbiguous (fun i _ => Some (Matcher.Ambiguous (Match i)))
      VerdictRequireApproval;
    Branch ReasonActiveLease
      (fun i automatable =>
         Some (automatable && (level_of i !=? Risk.LevelHigh) && negb (is_nil (matchedLease i))))
      VerdictAutoAllow;
    Branch ReasonLowRisk
      (fun i automatable =>
         and_call (automatable && (level_of i ==? Risk.LevelLow)) (lowRisk (rule i)) i)
      VerdictAutoAllow;
    Branch ReasonTrustMemoryMatch
      (fun i automatable =>
         and_call (automatable && (level_of i ==? Risk.LevelMedium) && negb (is_nil (matchedGrant i)))
           (learnedMedium (rule i)) i)
      VerdictAutoAllow ].

Definition RequiredConfirmations (mode level : string) : Z :=
  if level !=? Risk.LevelHigh then 1
  else match modeRules mode with
       | None => 2
       | Some rule => if doubleConfirmation rule then 2 else 1
       end.

Definition failClosed (blocker : string) : Outcome :=
  {| Verdict := VerdictDeny; ApprovalRequirement := ApprovalNone; Reason := ReasonFailClosed;
     Confirmations := 0; Blocker := blocker; OForbidden := ""; MatchedMemoryID := "";
     MatchedLeaseID := "" |}.

Definition forbidden_outcome (category : string) : Outcome :=
  {| Verdict := VerdictDeny; ApprovalRequirement := ApprovalNone; Reason := ReasonForbidden;
     Confirmations := 0; Blocker := ""; OForbidden := category; MatchedMemoryID := "";
     MatchedLeaseID := "" |}.

Definition conclude (i : Input) (verdict reason : string) : Outcome :=
  let asked := verdict ==? VerdictRequireApproval in
  {| Verdict := verdict;
     ApprovalRequirement :=
       if negb asked then ApprovalNone
       else if level_of i ==? Risk.LevelHigh then ApprovalStrongAuth else ApprovalStandard;
     Reason := reason;
     Confirmations := if asked then RequiredConfirmations (Mode i) (level_of i) else 0;
     Blocker := ""; OForbidden := "";
     MatchedMemoryID := match matchedGrant i with Some g => MemoryID g | None => "" end;
     MatchedLeaseID :=
       if reason ==? ReasonActiveLease
       then match matchedLease i with Some l => LeaseID l | None => "" end
       else "" |}.

Definition blocked (i : Input) : option string :=
  match modeRules (Mode i) with
  | None => Some BlockerPolicyEngineFailure
  | Some _ =>
      if existsb (fun b => negb (validBlocker b)) (Blockers i)
      then Some BlockerPolicyEngineFailure
      else match Blockers i with b :: _ => Some b | [] => selfDetected i end
  end.

(** The loop over the branches; [None] is a panic. *)
Fixpoint first_branch (bs : list branch) (i : Input) (auto : bool) : option Outcome :=
  match bs with
  | [] => Some (conclude i VerdictRequireApproval ReasonRequiresConfirmation)
  | b :: rest =>
      match hits b i auto with
      | None => None
      | Some true => Some (conclude i (verdict b) (reason b))
      | Some false => first_branch rest i auto
      end
  end.

(** [Decide] for a given branch table. *)
Definition decide_with `{Unicode} (bs : list branch) (i : Input) : Outcome :=
  match blocked i with
  | Some b => failClosed b
  | None =>
      match Forbidden.classifyForbidden (Scope.Service (scope_of i)) (Scope.Operation (scope_of i)) with
      | Some category => forbidden_outcome category
      | None =>
          match first_branch bs i (automatable i) with
          | Some outcome => outcome
          | None => failClosed BlockerPolicyEngineFailure
          end
      end
  end.

Definition Decide `{Unicode} (i : Input) : Outcome := decide_with branches i.

(** ** The table as a condition *)

(** The condition a mode puts on each of the two automatic branches. *)
Definition mode_low (i : Input) : bool :=
  match lowRisk (rule i) with Some f => f i | None => false end.
Definition mode_medium (i : Input) : bool :=
  match learnedMedium (rule i) with Some f => f i | None => false end.

Definition asked_first (i : Input) : option string :=
  if level_of i ==? Risk.LevelHigh then Some ReasonHighRisk
  else if (0 <? length (Learned i))%nat && is_nil (matchedGrant i)
    then Some ReasonBeyondLearnedScope
  else if Matcher.Ambiguous (Match i) then Some ReasonIdentityAmbiguous
  else None.

Definition allowed_by (i : Input) : option string :=
  if negb (automatable i) then None
  else if negb (is_nil (matchedLease i)) then Some ReasonActiveLease
  else if (level_of i ==? Risk.LevelLow) && mode_low i then Some ReasonLowRisk
  else if (level_of i ==? Risk.LevelMedium) && negb (is_nil (matchedGrant i)) && mode_medium i
    then Some ReasonTrustMemoryMatch
  else None.

Lemma known_mode i : is_Some (modeRules (Mode i)) <-> ValidMode (Mode i) = true.
Proof.
  unfold ValidMode. rewrite one_of_spec. unfold modes, modeRules.
  rewrite !elem_of_cons, elem_of_nil.
  repeat case_bool_decide; split; intros; eauto; try tauto.
  match goal with E : is_Some None |- _ => by destruct E end.
Qed.

Lemma rule_functions i :
  is_Some (modeRules (Mode i)) -> is_Some (lowRisk (rule i)) /\ is_Some (learnedMedium (rule i)).
Proof.
  intros [r Hr]. unfold rule. rewrite Hr. simpl. unfold modeRules in Hr.
  repeat case_bool_decide; simplify_eq/=; split; by eexists.
Qed.

(** With a known mode the table never panics and computes this. *)
Lemma first_branch_spec i :
  is_Some (modeRules (Mode i)) ->
  first_branch branches i (automatable i) =
    Some (match asked_first i with
          | Some r => conclude i VerdictRequireApproval r
          | None =>
              match allowed_by i with
              | Some r => conclude i VerdictAutoAllow r
              | None => conclude i VerdictRequireApproval ReasonRequiresConfirmation
              end
          end).
Proof.
  intros Hm. destruct (rule_functions i Hm) as [[f Hf] [g Hg]].
  unfold asked_first, allowed_by, mode_low, mode_medium, branches. cbn [first_branch hits].
  unfold and_call. rewrite Hf, Hg.
  destruct (level_of i ==? Risk.LevelHigh); [done|].
  destruct (_ && is_nil (matchedGrant i)); [done|].
  destruct (Matcher.Ambiguous (Match i)); [done|].
  destruct (automatable i); [|done]. simpl.
  destruct (matchedLease i); [done|]. simpl.
  destruct (level_of i ==? Risk.LevelLow); simpl.
  - destruct (f i); [done|].
    destruct (level_of i ==? Risk.LevelMedium); simpl; [|done].
    destruct (is_nil (matchedGrant i)); simpl; [done|]. by destruct (g i).
  - destruct (level_of i ==? Risk.LevelMedium); simpl; [|done].
    destruct (is_nil (matchedGrant i)); simpl; [done|]. by destruct (g i).
Qed.

Lemma blocked_mode i : blocked i = None -> is_Some (modeRules (Mode i)).
Proof. unfold blocked. destruct (modeRules (Mode i)); [by eexists|done]. Qed.

(** [Decide] as one equation. *)
Lemma Decide_eq `{Unicode} i :
  Decide i =
    match blocked i with
    | Some b => failClosed b
    | None =>
        match Forbidden.classifyForbidden (Scope.Service (scope_of i)) (Scope.Operation (scope_of i)) with
        | Some category => forbidden_outcome category
        | None =>
            match asked_first i with
            | Some r => conclude i VerdictRequireApproval r
            | None =>
                match allowed_by i with
                | Some r => conclude i VerdictAutoAllow r
                | None => conclude i VerdictRequireApproval ReasonRequiresConfirmation
                end
            end
        end
    end.
Proof.
  unfold Decide, decide_with. destruct (blocked i) eqn:Eb; [done|].
  destruct (Forbidden.classifyForbidden _ _); [done|].
  rewrite first_branch_spec by (by apply blocked_mode). by repeat case_match.
Qed.

Lemma automatable_spec i :
  automatable i = true <->
    Matcher.NeedsReview (Match i) = false /\ Scope.Ambiguous (i_Scope i) = false /\
    ~ (Write i = true /\ AgentTrust i = Agent.TrustUnverified) /\
    (forall g, g ∈ Learned i -> AlwaysAsk g = true ->
       Scope.CoversIgnoringWindow (g_Scope g) (scope_of i) = false).
Proof.
  unfold automatable. rewrite negb_true_iff, !orb_false_iff, andb_false_iff.
  assert (Ha : asksAlways i = false <-> forall g, g ∈ Learned i -> AlwaysAsk g = true ->
    Scope.CoversIgnoringWindow (g_Scope g) (scope_of i) = false).
  { unfold asksAlways. rewrite existsb_false. split; intros Hall g Hg.
    - intros Ht. specialize (Hall g Hg). by rewrite Ht in Hall.
    - destruct (AlwaysAsk g) eqn:E; [by apply Hall|done]. }
  rewrite Ha. split.
  - intros (((H1 & H2) & H3) & H4). split_and!; try done. intros [Hw Ht].
    destruct H3 as [H3|H3]; [congruence|]. by apply bool_decide_eq_false in H3.
  - intros (H1 & H2 & H3 & H4). split_and!; try done.
    destruct (Write i); [right|by left]. apply bool_decide_eq_false_2. naive_solver.
Qed.

(** Facts about an unblocked input. *)
Lemma blocked_none i :
  blocked i = None ->
  ValidMode (Mode i) = true /\ Blockers i = [] /\ AgentID i <> "" /\ Scope.valid (scope_of i) /\
  resolvableMatch (Match i) = true /\ validAssessment (i_Assessment i) = true.
Proof.
  intros Hb. pose proof (blocked_mode i Hb) as Hm. split; [by apply known_mode|].
  unfold blocked in Hb. destruct Hm as [r Hr]. rewrite Hr in Hb.
  destruct (existsb _ _); [done|]. destruct (Blockers i); [|done]. split; [done|].
  unfold selfDetected in Hb. apply fmap_None in Hb. rewrite find_first_None in Hb.
  assert (Hc : forall n b, (n, b) ∈
    [ (BlockerAgentUnidentified, AgentID i ==? "");
      (BlockerServiceUndetermined, Scope.Service (scope_of i) ==? "");
      (BlockerScopeUndeterminable, negb (is_Ok (Scope.Validate (scope_of i))));
      (BlockerIdentityAmbiguityUnresolvable, negb (resolvableMatch (Match i)));
      (BlockerRiskUnknown, negb (validAssessment (i_Assessment i))) ] -> b = false)
    by (intros n b Hin; exact (Hb (n, b) Hin)).
  split_and!.
  - eapply bool_decide_eq_false_1, Hc. left.
  - apply Scope.Validate_valid. apply negb_false_iff. eapply Hc. do 2 right. left.
  - apply negb_false_iff. eapply Hc. do 3 right. left.
  - apply negb_false_iff. eapply Hc. do 4 right. left.
Qed.

Lemma is_nil_false {A} (o : option A) : is_nil o = false <-> is_Some o.
Proof. destruct o; simpl; split; intros; done. Qed.

Lemma matchedGrant_some i :
  is_Some (matchedGrant i) <->
    exists g, g ∈ Learned i /\ Scope.CoversIgnoringWindow (g_Scope g) (scope_of i) = true.
Proof. unfold matchedGrant. by rewrite find_first_is_Some, existsb_elem_of. Qed.

Lemma matchedLease_some i :
  is_Some (matchedLease i) <->
    exists l, l ∈ Active i /\ Scope.CoversIgnoringWindow (l_Scope l) (scope_of i) = true.
Proof. unfold matchedLease. by rewrite find_first_is_Some, existsb_elem_of. Qed.

(** Why an unblocked, permitted request may skip the question. *)
Definition ground (i : Input) : Prop :=
  is_Some (matchedLease i) \/
  level_of i = Risk.LevelLow /\ mode_low i = true \/
  level_of i = Risk.LevelMedium /\ is_Some (matchedGrant i) /\ mode_medium i = true.

Lemma allowed_by_spec i :
  is_Some (allowed_by i) <-> automatable i = true /\ ground i.
Proof.
  unfold allowed_by, ground. rewrite <- !is_nil_false.
  assert (Hn : ~ is_Some (None : option string)) by (by intros []).
  destruct (automatable i); simpl; [|naive_solver].
  destruct (is_nil (matchedLease i)); simpl; [|naive_solver].
  destruct (decide (level_of i = Risk.LevelLow)) as [E|E].
  - rewrite bool_decide_eq_true_2 by done. simpl. rewrite E.
    rewrite (bool_decide_eq_false_2 (Risk.LevelLow = Risk.LevelMedium)) by done. simpl.
    assert (Risk.LevelLow <> Risk.LevelMedium) by done.
    destruct (mode_low i); naive_solver.
  - rewrite bool_decide_eq_false_2 by done. simpl.
    destruct (decide (level_of i = Risk.LevelMedium)) as [E2|E2].
    + rewrite bool_decide_eq_true_2 by done. simpl.
      destruct (is_nil (matchedGrant i)), (mode_medium i); naive_solver.
    + rewrite bool_decide_eq_false_2 by done. simpl. naive_solver.
Qed.

Lemma asked_first_none i :
  asked_first i = None <->
    level_of i <> Risk.LevelHigh /\ (Learned i = [] \/ is_Some (matchedGrant i)) /\
    Matcher.Ambiguous (Match i) = false.
Proof.
  unfold asked_first. case_bool_decide; [naive_solver|].
  destruct (Learned i) as [|g l] eqn:El; simpl.
  - destruct (Matcher.Ambiguous (Match i)); naive_solver.
  - destruct (is_nil (matchedGrant i)) eqn:En.
    + split; [done|]. intros (_ & [?|Hs%is_nil_false] & _); [done|congruence].
    + apply is_nil_false in En. destruct (Matcher.Ambiguous (Match i)); naive_solver.
Qed.

(** When the table allows without asking. *)
Lemma auto_allow_iff `{Unicode} i :
  Verdict (Decide i) = VerdictAutoAllow <->
    blocked i = None /\
    Forbidden.Classify (Scope.Service (scope_of i)) (Scope.Operation (scope_of i)) = None /\
    level_of i <> Risk.LevelHigh /\
    (Learned i = [] \/ is_Some (matchedGrant i)) /\
    Matcher.Ambiguous (Match i) = false /\
    automatable i = true /\ ground i.
Proof.
  rewrite Decide_eq. unfold Forbidden.Classify.
  destruct (blocked i); [naive_solver|].
  destruct (Forbidden.classifyForbidden _ _); [naive_solver|].
  pose proof (asked_first_none i) as Ha. pose proof (allowed_by_spec i) as Hb.
  destruct (asked_first i) as [r|].
  - split; [done|]. intros (_ & _ & H1 & H2 & H3 & _).
    exfalso. assert (Hn : Some r = None) by (apply Ha; done). done.
  - destruct (proj1 Ha eq_refl) as (H1 & H2 & H3). destruct (allowed_by i) as [r|].
    + destruct (proj1 Hb (mk_is_Some _ _ eq_refl)). naive_solver.
    + split; [done|]. intros (_ & _ & _ & _ & _ & H4 & H5). exfalso.
      destruct (proj2 Hb (conj H4 H5)). done.
Qed.

(** C1. The one door. A request is allowed without asking exactly when nothing
    blocks it, it is not on the forbidden list, its level is not high, no learned
    grant it exceeds exists, its identity is settled, nothing suspends automation
    (identity under review, resource naming several targets, unconfirmed agent
    writing, a covering always-ask memory), and one of three grounds holds: an
    issued lease covers it, its level is low and the mode admits it, or its level
    is medium, a learned grant covers it and the mode admits it. *)
Theorem decide_auto_allow `{Unicode} i :
  Verdict (Decide i) = VerdictAutoAllow <->
    blocked i = None /\
    Forbidden.Classify (Scope.Service (scope_of i)) (Scope.Operation (scope_of i)) = None /\
    level_of i <> Risk.LevelHigh /\
    (Learned i = [] \/ is_Some (matchedGrant i)) /\
    Matcher.Ambiguous (Match i) = false /\
    automatable i = true /\ ground i.
Proof. exact (auto_allow_iff i). Qed.

(** High risk, an unconfirmed agent's write, an identity under review, an
    ambiguous target and a memory the user marked always-ask are never allowed
    without a person, whatever the mode, the memories and the leases. *)
Theorem decide_never_auto `{Unicode} i :
  level_of i = Risk.LevelHigh \/
  Write i = true /\ AgentTrust i = Agent.TrustUnverified \/
  Matcher.NeedsReview (Match i) = true \/
  Matcher.Ambiguous (Match i) = true \/
  Scope.Ambiguous (i_Scope i) = true \/
  (exists g, g ∈ Learned i /\ AlwaysAsk g = true /\
     Scope.CoversIgnoringWindow (g_Scope g) (scope_of i) = true) ->
  Verdict (Decide i) <> VerdictAutoAllow.
Proof.
  intros Hcase (_ & _ & Hl & _ & Ham & Hau & _)%auto_allow_iff.
  apply automatable_spec in Hau as (H1 & H2 & H3 & H4).
  destruct Hcase as [?|[?|[?|[?|[?|(g & Hg & Ht & Hc)]]]]]; try congruence; try done.
  specialize (H4 g Hg Ht). congruence.
Qed.

(** Every conclusion is one of the three verdicts with a reason and is
    internally consistent: a refusal names its blocker or its forbidden category
    and offers no approval; a question asks for one or two confirmations, and for
    strong authentication exactly when the level is high; only an allowance on
    the ground of an issued lease names a lease, and it is one that covers the
    request. *)
Theorem decide_outcome `{Unicode} i :
  let o := Decide i in
  (Verdict o = VerdictDeny /\ ApprovalRequirement o = ApprovalNone /\ Confirmations o = 0 /\
     (Reason o = ReasonFailClosed /\ Blocker o <> "" \/
      Reason o = ReasonForbidden /\ OForbidden o <> "")) \/
  (Verdict o = VerdictRequireApproval /\ 1 <= Confirmations o <= 2 /\
     Reason o ∈ [ReasonHighRisk; ReasonBeyondLearnedScope; ReasonIdentityAmbiguous;
                 ReasonRequiresConfirmation] /\
     (ApprovalRequirement o = ApprovalStrongAuth <-> level_of i = Risk.LevelHigh) /\
     (ApprovalRequirement o = ApprovalStandard <-> level_of i <> Risk.LevelHigh) /\
     MatchedLeaseID o = "") \/
  (Verdict o = VerdictAutoAllow /\ ApprovalRequirement o = ApprovalNone /\ Confirmations o = 0 /\
     Reason o ∈ [ReasonActiveLease; ReasonLowRisk; ReasonTrustMemoryMatch] /\
     (Reason o = ReasonActiveLease ->
        exists l, l ∈ Active i /\ MatchedLeaseID o = LeaseID l /\
          Scope.CoversIgnoringWindow (l_Scope l) (scope_of i) = true) /\
     (Reason o <> ReasonActiveLease -> MatchedLeaseID o = "")).
Proof.
  cbv zeta. rewrite Decide_eq.
  destruct (blocked i) as [b|] eqn:Eb.
  { left. split_and!; try done. left. split; [done|]. simpl. intros ->.
    unfold blocked in Eb. destruct (modeRules _); [|done].
    destruct (existsb _ _) eqn:Ex; [done|]. rewrite existsb_false in Ex.
    destruct (Blockers i) as [|b l].
    - unfold selfDetected in Eb. apply fmap_Some in Eb as ([n t] & Hf & Hn).
      apply find_first_Some in Hf as [Hin _]. simpl in Hn. subst n.
      repeat (apply elem_of_cons in Hin as [Hin|Hin]; [done|]). by apply not_elem_of_nil in Hin.
    - simplify_eq. specialize (Ex "" ltac:(left)). by vm_compute in Ex. }
  destruct (Forbidden.classifyForbidden _ _) as [c|] eqn:Ec.
  { left. split_and!; try done. right. split; [done|]. simpl. intros ->.
    unfold Forbidden.classifyForbidden in Ec. by repeat case_match. }
  assert (Hask : forall r, r ∈ [ReasonHighRisk; ReasonBeyondLearnedScope; ReasonIdentityAmbiguous;
                 ReasonRequiresConfirmation] ->
    let o := conclude i VerdictRequireApproval r in
    Verdict o = VerdictRequireApproval /\ 1 <= Confirmations o <= 2 /\
     Reason o ∈ [ReasonHighRisk; ReasonBeyondLearnedScope; ReasonIdentityAmbiguous;
                 ReasonRequiresConfirmation] /\
     (ApprovalRequirement o = ApprovalStrongAuth <-> level_of i = Risk.LevelHigh) /\
     (ApprovalRequirement o = ApprovalStandard <-> level_of i <> Risk.LevelHigh) /\
     MatchedLeaseID o = "").
  { intros r Hr. simpl. split_and!; try done.
    - unfold RequiredConfirmations. repeat case_match; lia.
    - unfold RequiredConfirmations. repeat case_match; lia.
    - case_bool_decide; naive_solver.
    - case_bool_decide; naive_solver.
    - rewrite bool_decide_eq_false_2; [done|]. intros ->.
      apply one_of_spec in Hr. by vm_compute in Hr. }
  destruct (asked_first i) as [r|] eqn:Ea.
  { right; left. apply Hask. unfold asked_first in Ea. repeat case_match; simplify_eq; set_solver. }
  destruct (allowed_by i) as [r|] eqn:Er; [|right; left; apply Hask; set_solver].
  right; right. unfold allowed_by in Er.
  assert (Hr : r ∈ [ReasonActiveLease; ReasonLowRisk; ReasonTrustMemoryMatch])
    by (repeat case_match; simplify_eq; set_solver).
  split_and!; try done.
  - intros Hre. simpl in *. subst r. rewrite bool_decide_eq_true_2 by done.
    destruct (matchedLease i) as [l|] eqn:El.
    + unfold matchedLease in El. apply find_first_Some in El as [Hin Hc]. by exists l.
    + simpl in Er. by repeat case_match.
  - intros Hne. simpl in *. by rewrite bool_decide_eq_false_2.
Qed.

(** C35. An engine that cannot tell refuses, and it never fails to answer: with a
    recognised mode and recognised blockers the table always reaches a conclusion
    (the recover path is dead code), and a refusal other than the forbidden list
    happens exactly when the caller reported a blocker, the mode is unknown, or
    one of agent, service, scope, identity and risk is undetermined. *)
Theorem decide_fail_closed `{Unicode} i :
  (Reason (Decide i) = ReasonFailClosed <-> is_Some (blocked i)) /\
  (blocked i = None <->
     ValidMode (Mode i) = true /\ Blockers i = [] /\ AgentID i <> "" /\
     Scope.valid (scope_of i) /\ resolvableMatch (Match i) = true /\
     validAssessment (i_Assessment i) = true) /\
  (Blocker (Decide i) = BlockerPolicyEngineFailure <->
     ValidMode (Mode i) = false \/ (exists b, b ∈ Blockers i /\ validBlocker b = false) \/
     head (Blockers i) = Some BlockerPolicyEngineFailure).
Proof.
  assert (Hnone : blocked i = None <->
     ValidMode (Mode i) = true /\ Blockers i = [] /\ AgentID i <> "" /\
     Scope.valid (scope_of i) /\ resolvableMatch (Match i) = true /\
     validAssessment (i_Assessment i) = true).
  { split; [apply blocked_none|]. intros (Hm & Hb & Ha & Hs & Hr & Hv).
    unfold blocked. apply known_mode in Hm as [r ->]. rewrite Hb. simpl.
    unfold selfDetected. rewrite (bool_decide_eq_false_2 _ Ha).
    rewrite (bool_decide_eq_false_2 (Scope.Service _ = "")) by (by apply Hs).
    rewrite (proj2 (Scope.Validate_valid _) Hs), Hr, Hv. done. }
  split; [|split; [done|]].
  - rewrite Decide_eq. destruct (blocked i); [split; [by eexists|done]|].
    split; [|by intros []]. intros Hr. exfalso.
    destruct (Forbidden.classifyForbidden _ _); [done|].
    destruct (asked_first i) as [r|] eqn:Ea.
    + unfold asked_first in Ea. simpl in Hr. repeat case_match; simplify_eq.
    + destruct (allowed_by i) as [r|] eqn:Er; [|done].
      unfold allowed_by in Er. simpl in Hr. repeat case_match; simplify_eq.
  - rewrite Decide_eq. unfold blocked.
    destruct (modeRules (Mode i)) as [r|] eqn:Em.
    + assert (Hv : ValidMode (Mode i) = true) by (apply known_mode; by eexists). rewrite Hv.
      destruct (existsb _ _) eqn:Ex.
      * split; [|done]. intros _. right; left. apply existsb_elem_of in Ex as (b & Hb & Hn).
        exists b. split; [done|]. by apply negb_true_iff.
      * rewrite existsb_false in Ex.
        assert (Hno : ~ exists b, b ∈ Blockers i /\ validBlocker b = false).
        { intros (b & Hb & Hn). specialize (Ex b Hb). by rewrite Hn in Ex. }
        destruct (Blockers i) as [|b l]; simpl; [|naive_solver].
        assert (Hgoal : forall o, Blocker o <> BlockerPolicyEngineFailure ->
          Blocker o = BlockerPolicyEngineFailure <-> true = false \/
            (exists b, b ∈ [] /\ validBlocker b = false) \/
            None = Some BlockerPolicyEngineFailure) by naive_solver.
        apply Hgoal. destruct (selfDetected i) as [b|] eqn:Es; simpl.
        -- unfold selfDetected in Es. apply fmap_Some in Es as ([n t] & Hf & Hn).
           apply find_first_Some in Hf as [Hin _]. simpl in Hn. subst n.
           repeat (apply elem_of_cons in Hin as [Hin|Hin]; [by simplify_eq|]).
           by apply not_elem_of_nil in Hin.
        -- by repeat case_match.
    + split; [|done]. intros _. left. apply not_true_iff_false.
      intros [r Hr]%known_mode. congruence.
Qed.

(** ** Modes *)

Definition with_mode (mode : string) (i : Input) : Input :=
  {| Mode := mode; AgentID := AgentID i; AgentTrust := AgentTrust i; Write := Write i;
     Match := Match i; i_Scope := i_Scope i; i_Assessment := i_Assessment i;
     ReadOnlyAutoAllow := ReadOnlyAutoAllow i; NewService := NewService i;
     IdentityChanged := IdentityChanged i; NewIdentity := NewIdentity i;
     NewResource := NewResource i; Learned := Learned i; Active := Active i;
     Blockers := Blockers i |}.

Lemma blocked_mode_irrelevant m i :
  ValidMode m = true -> blocked i = None -> blocked (with_mode m i) = None.
Proof.
  intros Hm Hb. unfold blocked in *. change (Mode (with_mode m i)) with m.
  assert (Hs : is_Some (modeRules m)) by (by apply (known_mode (with_mode m i))).
  destruct Hs as [r ->]. by destruct (modeRules (Mode i)).
Qed.

(** The three modes are ordered: whatever the cautious mode allows without
    asking the balanced mode allows too, and whatever the balanced one allows the
    automatic one does; and no mode changes what is refused. *)
Theorem decide_mode_monotone `{Unicode} i m :
  ValidMode (Mode i) = true -> ValidMode m = true ->
  (Verdict (Decide (with_mode ModeCautious i)) = VerdictAutoAllow ->
   Verdict (Decide (with_mode ModeBalanced i)) = VerdictAutoAllow) /\
  (Verdict (Decide (with_mode ModeBalanced i)) = VerdictAutoAllow ->
   Verdict (Decide (with_mode ModeAutomatic i)) = VerdictAutoAllow) /\
  (Verdict (Decide i) = VerdictDeny <-> Verdict (Decide (with_mode m i)) = VerdictDeny).
Proof.
  intros Hi Hm. split_and!.
  - rewrite !auto_allow_iff. intros (Hb & Hf & H1 & H2 & H3 & H4 & Hg).
    split_and!; try done.
    destruct Hg as [?|[[? Hl]|(? & ? & _)]]; [by left| |by right; right].
    right; left. split; [done|]. unfold mode_low in *. simpl in *.
    unfold cautiousAutoAllow in Hl. simpl in Hl. by destruct (Write i).
  - rewrite !auto_allow_iff. intros (Hb & Hf & H1 & H2 & H3 & H4 & Hg).
    split_and!; try done.
    destruct Hg as [?|[[? Hl]|(? & ? & _)]]; [by left| |by right; right].
    right; left. split; [done|]. unfold mode_low in *. simpl in *. by rewrite Hl.
  - assert (Hden : forall j, Verdict (Decide j) = VerdictDeny <->
      is_Some (blocked j) \/ is_Some (Forbidden.classifyForbidden
        (Scope.Service (scope_of j)) (Scope.Operation (scope_of j)))).
    { intros j. rewrite Decide_eq. destruct (blocked j); [split; eauto; done|].
      destruct (Forbidden.classifyForbidden _ _); [split; eauto; done|].
      split; [by repeat case_match|]. by intros [[]|[]]. }
    rewrite !Hden. change (scope_of (with_mode m i)) with (scope_of i).
    assert (Hbl : is_Some (blocked i) <-> is_Some (blocked (with_mode m i))).
    { rewrite <- !not_eq_None_Some. split; intros Hne E; apply Hne.
      - apply (blocked_mode_irrelevant (Mode i)) in E; [|done]. by destruct i.
      - by apply blocked_mode_irrelevant. }
    by rewrite Hbl.
Qed.

(** ** Witnesses *)

#[local] Existing Instance ascii_only.

(** A read of one repository by a confirmed agent, low risk, nothing learned. *)
Definition sample_read (mode : string) (level : string) : Input :=
  {| Mode := mode; AgentID := "agent"; AgentTrust := Agent.TrustKnown; Write := false;
     Match := Matcher.hit (Matcher.sample_identity "id" true) Matcher.MatchSoleIdentity;
     i_Scope := {| Scope.r_Scope := Scope.sample_scope; Scope.Injection := [];
                   Scope.IgnoredFields := []; Scope.Ambiguous := false;
                   Scope.EnvironmentAssumed := false |};
     i_Assessment := {| Risk.Level := level; Risk.Reasons := [Risk.FactorDeclaredLabel] |};
     ReadOnlyAutoAllow := false; NewService := false; IdentityChanged := false;
     NewIdentity := false; NewResource := false; Learned := []; Active := []; Blockers := [] |}.

Lemma decide_never_auto_witness :
  Verdict (Decide (sample_read ModeAutomatic Risk.LevelLow)) = VerdictAutoAllow /\
  Verdict (Decide (sample_read ModeAutomatic Risk.LevelHigh)) <> VerdictAutoAllow.
Proof.
  split; [vm_compute; reflexivity|]. apply decide_never_auto. left. reflexivity.
Defined.

Lemma decide_mode_monotone_witness :
  Verdict (Decide (sample_read ModeCautious Risk.LevelLow)) = VerdictRequireApproval /\
  Verdict (Decide (sample_read ModeAutomatic Risk.LevelLow)) = VerdictAutoAllow.
Proof.
  split; [vm_compute; reflexivity|].
  pose proof (decide_mode_monotone (sample_read ModeBalanced Risk.LevelLow) ModeCautious
    eq_refl eq_refl) as (_ & H & _).
  apply H. vm_compute. reflexivity.
Defined.
