(* ===== verification/Gateway.v ===== *)
(** * core/gateway: is the gateway serving (availability.go)

    [Availability] is two atomic booleans. The operations are modelled twice:
    as functions on the pair, for callers that do not overlap, and as programs
    of single atomic loads and stores whose interleavings are a step relation,
    because [Serve] is a load followed by a store and [Stop] two stores. *)
From S2P Require Import Prelude Apperr.
From S2P Require Decision.
Open Scope Z_scope.

Record Availability := {
  serving : bool;
  stopped : bool;
}.

(** The zero value: not serving. *)
Definition New : Availability := {| serving := false; stopped := false |}.

(** ** Calls that do not overlap *)

Definition Serve (a : Availability) : bool * Availability :=
  if stopped a then (false, a)
  else (true, {| serving := true; stopped := stopped a |}).

Definition Stop (a : Availability) : Availability := {| serving := false; stopped := true |}.

Definition Serving (a : Availability) : bool := serving a.

Definition Check (a : Availability) : result Code unit :=
  if Serving a then Ok tt else Err CodeGatewayUnavailable.

Definition Blocker (a : Availability) : option string :=
  if Serving a then None else Some Decision.BlockerGatewayOffline.

(** The calls an embedding program makes, in order. *)
Inductive call := CallServe | CallStop.

Definition run_call (a : Availability) (c : call) : Availability :=
  match c with CallServe => (Serve a).2 | CallStop => Stop a end.

Definition run_calls (a : Availability) (l : list call) : Availability := foldl run_call a l.

(** ** Calls that overlap: one atomic access at a time *)

Inductive thread :=
| ServeLoad              (** about to run [a.stopped.Load()] *)
| ServeStore             (** loaded false, about to run [a.serving.Store(true)] *)
| StopStopped            (** about to run [a.stopped.Store(true)] *)
| StopServing            (** about to run [a.serving.Store(false)] *)
| Returned (served : bool).

Definition thread_step (a : Availability) (t : thread) : option (Availability * thread) :=
  match t with
  | ServeLoad => Some (a, if stopped a then Returned false else ServeStore)
  | ServeStore => Some ({| serving := true; stopped := stopped a |}, Returned true)
  | StopStopped => Some ({| serving := serving a; stopped := true |}, StopServing)
  | StopServing => Some ({| serving := false; stopped := stopped a |}, Returned true)
  | Returned _ => None
  end.

Definition pool : Type := Availability * list thread.

(** One thread makes one access; a caller may also start a new call. *)
Inductive step : pool -> pool -> Prop :=
| step_thread a l i t a' t' :
    l !! i = Some t -> thread_step a t = Some (a', t') -> step (a, l) (a', <[i := t']> l)
| step_call a l t :
    t = ServeLoad \/ t = StopStopped -> step (a, l) (a, l ++ [t]).

Definition steps : pool -> pool -> Prop := rtc step.

(** No call to [Serve] is past its load. *)
Definition no_pending_serve (l : list thread) : Prop := ServeStore ∉ l.

Definition settled (p : pool) : Prop :=
  stopped p.1 = true /\ serving p.1 = false /\ no_pending_serve p.2.

Lemma thread_step_settled a t a' t' :
  thread_step a t = Some (a', t') -> stopped a = true -> serving a = false -> t <> ServeStore ->
  stopped a' = true /\ serving a' = false /\ t' <> ServeStore.
Proof. destruct t; simpl; intros; simplify_eq/=; rewrite ?H0; done. Qed.

Lemma step_settled p q : step p q -> settled p -> settled q.
Proof.
  intros H (Hs & Hv & Hp). destruct H as [a l i t a' t' Hi Ht|a l t Ht]; simpl in *.
  - assert (t <> ServeStore) as Hne by (intros ->; apply Hp; by eapply list_elem_of_lookup_2).
    destruct (thread_step_settled _ _ _ _ Ht Hs Hv Hne) as (H1 & H2 & H3).
    split_and!; [done..|]. intros [j Hj]%list_elem_of_lookup.
    destruct (decide (i = j)) as [<-|Hij].
    + apply list_lookup_insert_Some in Hj as [(_ & ? & _)|[? _]]; done.
    + apply list_lookup_insert_Some in Hj as [(? & _)|[_ Hj]]; [done|]. apply Hp. by eapply list_elem_of_lookup_2.
  - split_and!; [done..|]. unfold no_pending_serve in *. simpl. rewrite elem_of_app, list_elem_of_singleton.
    intros [?|<-]; [done|]. by destruct Ht.
Qed.

(** One access of the i-th thread, with the resulting pool computed. *)
Lemma steps_thread a l i t a' t' l' q :
  l !! i = Some t -> thread_step a t = Some (a', t') -> <[i := t']> l = l' ->
  steps (a', l') q -> steps (a, l) q.
Proof. intros Hi Ht <- Hq. eapply rtc_l; [by eapply step_thread|done]. Qed.

(** ** Properties *)

(** One way: whatever calls to [Serve] and [Stop] have been made before and
    are made after it, once [Stop] has run the gateway never serves again, every
    later [Serve] says so, every request is refused with gateway_unavailable and
    the decision chain is given the gateway_offline blocker; a gateway nobody
    called [Serve] on refuses as well. *)
Theorem stop_is_final before after :
  let a := run_calls New (before ++ [CallStop] ++ after) in
  Serving a = false /\ (Serve a).1 = false /\
  Check a = Err CodeGatewayUnavailable /\ Blocker a = Some Decision.BlockerGatewayOffline /\
  (CallServe ∉ before -> Serving (run_calls New before) = false).
Proof.
  assert (forall a, stopped a = true -> serving a = false ->
    let b := run_calls a after in stopped b = true /\ serving b = false) as Hkeep.
  { unfold run_calls. clear before. induction after as [|c l IH]; intros a Hs Hv; simpl; [done|].
    apply IH; destruct c; simpl; unfold Serve; rewrite ?Hs; done. }
  unfold run_calls. rewrite foldl_app. simpl.
  destruct (Hkeep (Stop (run_calls New before)) eq_refl eq_refl) as [Hs Hv].
  unfold run_calls in Hs, Hv. unfold Serve, Check, Blocker, Serving. rewrite Hs, Hv.
  split_and!; [done..|]. intros Hb.
  assert (forall a, serving a = false -> serving (foldl run_call a before) = false) as Hno; [|by apply Hno].
  clear Hs Hv. induction before as [|c l IH]; intros a Ha; simpl; [done|].
  apply not_elem_of_cons in Hb as [Hc Hb]. apply IH; [done|]. by destruct c.
Qed.

(** Overlapping calls: once [Stop] has returned and no [Serve] is between
    its load and its store, no interleaving of calls already running or started
    later ever serves again. *)
Theorem stop_final_interleaved p q : settled p -> steps p q -> Serving q.1 = false.
Proof.
  intros Hp Hsteps. assert (settled q) as (_ & Hv & _); [|done].
  induction Hsteps as [|p r q Hstep _ IH]; [done|]. apply IH. by eapply step_settled.
Qed.

Definition sample_pool : pool := (Stop New, [ServeLoad; StopStopped]).

Lemma stop_final_interleaved_witness :
  settled sample_pool /\ steps sample_pool (Stop New, [Returned false; StopStopped]) /\
  Serving (Stop New) = false.
Proof.
  assert (settled sample_pool) as Hs.
  { split_and!; [done..|]. intros H. repeat (apply elem_of_cons in H as [?|H]; [done|]).
    by apply not_elem_of_nil in H. }
  assert (steps sample_pool (Stop New, [Returned false; StopStopped])) as Hrun.
  { eapply (steps_thread _ _ 0%nat); [reflexivity..|]. apply rtc_refl. }
  split_and!; [done..|]. exact (stop_final_interleaved _ _ Hs Hrun).
Defined.

(** The race the atomics leave open: starting from a fresh gateway with one
    [Serve] and one [Stop] running, there is an interleaving after which both
    calls have returned, the gateway is stopped, and it serves: [Check] lets
    requests through and no later call to [Serve] would report it. *)
Theorem serve_stop_race :
  exists a, steps (New, [ServeLoad; StopStopped]) (a, [Returned true; Returned true]) /\
    stopped a = true /\ Serving a = true /\ Check a = Ok tt /\ Blocker a = None /\
    (Serve a).1 = false.
Proof.
  exists {| serving := true; stopped := true |}. split; [|done].
  eapply (steps_thread _ _ 0%nat); [reflexivity..|].
  eapply (steps_thread _ _ 1%nat); [reflexivity..|].
  eapply (steps_thread _ _ 1%nat); [reflexivity..|].
  eapply (steps_thread _ _ 0%nat); [reflexivity..|]. apply rtc_refl.
Qed.
