(* ===== verification/TimeColumn.v ===== *)
(** * store/repo/repo.go: why time columns may be compared as text

    The SQL of the repositories compares and sorts time columns as text. The
    model's tables keep instants; here the two orders are shown to be one, for
    the years the fixed-width format has. *)
From S2P Require Import Prelude GoStr GoTime World.
Open Scope Z_scope.

Lemma compare_app x s s' : String.compare (x +:+ s) (x +:+ s') = String.compare s s'.
Proof.
  induction x as [|c x IH]; [done|]. rewrite !str_app_cons. cbn [String.compare].
  unfold Ascii.compare. by rewrite N.compare_refl.
Qed.

Lemma compare_head b c s s' :
  0 <= b < 256 -> 0 <= c < 256 -> b < c ->
  String.compare (String (of_byte b) s) (String (of_byte c) s') = Lt.
Proof.
  intros Hb Hc H. cbn [String.compare]. unfold Ascii.compare.
  pose proof (byte_of_of b Hb) as E1. pose proof (byte_of_of c Hc) as E2.
  unfold byte_of in E1, E2.
  assert (N.compare (N_of_ascii (of_byte b)) (N_of_ascii (of_byte c)) = Lt) as ->; [|done].
  apply N.compare_lt_iff. lia.
Qed.

(** Numbers of one width compare as their digits do. *)
Lemma compare_pad k n m s s' :
  0 <= n < 10 ^ Z.of_nat k -> 0 <= m < 10 ^ Z.of_nat k -> n < m ->
  String.compare (pad k n +:+ s) (pad k m +:+ s') = Lt.
Proof.
  revert n m. induction k as [|k IH]; intros n m Hn Hm H; [simpl in *; lia|].
  rewrite Nat2Z.inj_succ, Z.pow_succ_r in Hn, Hm by lia. cbn [pad].
  set (p := 10 ^ Z.of_nat k) in *. assert (0 < p) by (apply Z.pow_pos_nonneg; lia).
  assert (Hlow : forall q, pad k q = pad k (q mod p)).
  { intros q. clear. subst p. revert q.
    assert (forall j q, (j <= k)%nat -> pad j q = pad j (q mod 10 ^ Z.of_nat k)) as Hj; [|auto].
    induction j as [|j IHj]; intros q Hj; [done|]. cbn [pad]. f_equal; [|by apply IHj; lia].
    do 2 f_equal. replace (Z.of_nat k) with (Z.of_nat j + 1 + Z.of_nat (k - S j)) by lia.
    rewrite !Z.pow_add_r by lia.
    assert (0 < 10 ^ Z.of_nat j) by (apply Z.pow_pos_nonneg; lia).
    assert (0 < 10 ^ Z.of_nat (k - S j)) by (apply Z.pow_pos_nonneg; lia).
    rewrite <- Z.mul_assoc, (Z.rem_mul_r q (10 ^ Z.of_nat j)) by lia.
    rewrite (Z.mul_comm (10 ^ Z.of_nat j) (_ mod _)), Z.div_add by lia.
    rewrite (Z.div_small (q mod _)) by (apply Z.mod_pos_bound; lia). rewrite Z.add_0_l.
    change (10 ^ 1) with 10.
    rewrite (Z.rem_mul_r (q / 10 ^ Z.of_nat j) 10) by lia.
    rewrite Z.mul_comm, Z.mod_add by lia. by rewrite Z.mod_mod by lia. }
  assert (0 <= n / p < 10) by (split; [apply Z.div_pos; lia|apply Z.div_lt_upper_bound; lia]).
  assert (0 <= m / p < 10) by (split; [apply Z.div_pos; lia|apply Z.div_lt_upper_bound; lia]).
  rewrite !(Z.mod_small (_ / p) 10) by lia. rewrite !str_app_cons.
  pose proof (Z.div_mod n p ltac:(lia)). pose proof (Z.div_mod m p ltac:(lia)).
  pose proof (Z.mod_pos_bound n p ltac:(lia)). pose proof (Z.mod_pos_bound m p ltac:(lia)).
  destruct (Z.lt_ge_cases (n / p) (m / p)) as [Hd|Hd].
  - apply compare_head; lia.
  - pose proof (Z.div_le_mono n m p ltac:(lia) ltac:(lia)). assert (n / p = m / p) as E by lia. rewrite E.
    change (String ?c ?x) with (String c "" +:+ x). rewrite compare_app.
    rewrite (Hlow n), (Hlow m). apply IH; lia.
Qed.

Definition storable (t : Z) : Prop := 0 <= year_of_instant t <= 9999.

Lemma column_parts t :
  column t = days_part t * Day + sec_part t * Second + nsec_part t / Millisecond * Millisecond.
Proof.
  unfold column, days_part, sec_part, nsec_part, Day, Hour, Minute, Second, Millisecond.
  Z.div_mod_to_equations; lia.
Qed.

Lemma clock_text_lt sec sec' s s' :
  0 <= sec -> sec < sec' -> sec' < 86400 ->
  String.compare (clock_text sec +:+ s) (clock_text sec' +:+ s') = Lt.
Proof.
  intros H0 H H1. unfold clock_text. rewrite <- !str_app_assoc.
  destruct (Z.lt_ge_cases (sec / 3600) (sec' / 3600)) as [Hh|Hh].
  { apply compare_pad; simpl; Z.div_mod_to_equations; lia. }
  assert (sec / 3600 = sec' / 3600) as -> by (Z.div_mod_to_equations; lia). rewrite !compare_app.
  destruct (Z.lt_ge_cases (sec / 60 mod 60) (sec' / 60 mod 60)) as [Hm|Hm].
  { apply compare_pad; simpl; Z.div_mod_to_equations; lia. }
  assert (sec / 60 mod 60 = sec' / 60 mod 60) as -> by (Z.div_mod_to_equations; lia).
  rewrite !compare_app. apply compare_pad; simpl; Z.div_mod_to_equations; lia.
Qed.

Lemma date_text_lt y m d y' m' d' s s' :
  0 <= y <= 9999 -> 0 <= y' <= 9999 -> date_ok y m d -> date_ok y' m' d' ->
  days_of y m d < days_of y' m' d' ->
  String.compare (year_text y +:+ "-" +:+ pad 2 m +:+ "-" +:+ pad 2 d +:+ s)
    (year_text y' +:+ "-" +:+ pad 2 m' +:+ "-" +:+ pad 2 d' +:+ s') = Lt.
Proof.
  intros Hy Hy' Hok Hok' Hlt.
  assert (Hml : forall l k, 1 <= k <= 12 -> month_length l k <= 31).
  { intros l k Hk. unfold month_length. pose proof (month_start_bounds l k Hk).
    assert (k = 1 \/ k = 2 \/ k = 3 \/ k = 4 \/ k = 5 \/ k = 6 \/ k = 7 \/ k = 8 \/ k = 9 \/
      k = 10 \/ k = 11 \/ k = 12) as Hc by lia.
    destruct l; repeat (destruct Hc as [->|Hc]; [done|]); by subst k. }
  pose proof Hok as [Hm Hd]. pose proof Hok' as [Hm' Hd'].
  pose proof (Hml (is_leap y) m Hm). pose proof (Hml (is_leap y') m' Hm').
  unfold year_text.
  destruct (Z.ltb_spec y 0); [lia|]. destruct (Z.ltb_spec y 10000); [|lia].
  destruct (Z.ltb_spec y' 0); [lia|]. destruct (Z.ltb_spec y' 10000); [|lia].
  destruct (Z.lt_trichotomy y y') as [Hl|[->|Hg]].
  { apply compare_pad; simpl; lia. }
  2: { pose proof (days_of_lt y' m' d' y m d Hok' Hok ltac:(lia)). lia. }
  rewrite !compare_app. destruct (Z.lt_trichotomy m m') as [Hl|[->|Hg]].
  { apply compare_pad; simpl; lia. }
  2: { pose proof (days_of_lt y' m' d' y' m d Hok' Hok ltac:(lia)). lia. }
  rewrite !compare_app. destruct (Z.lt_trichotomy d d') as [Hl|[->|Hg]].
  { apply compare_pad; simpl; lia. }
  { lia. }
  pose proof (days_of_lt y' m' d' y' m' d Hok' Hok ltac:(lia)). lia.
Qed.

Lemma civil_of_year days y m d : civil_of days = (y, m, d) -> (year_of days).1 = y.
Proof. unfold civil_of. destruct (year_of days). intros. by simplify_eq/=. Qed.

Lemma encodeTime_lt t u :
  storable t -> storable u -> column t < column u ->
  String.compare (encodeTime t) (encodeTime u) = Lt.
Proof.
  unfold storable, year_of_instant, encodeTime. intros Ht Hu Hlt.
  rewrite !column_parts in Hlt.
  destruct (civil_of (days_part t)) as [[y m] d] eqn:Et.
  destruct (civil_of (days_part u)) as [[y' m'] d'] eqn:Eu.
  rewrite (civil_of_year _ _ _ _ Et) in Ht. rewrite (civil_of_year _ _ _ _ Eu) in Hu.
  destruct (civil_of_spec _ _ _ _ Et) as [Hd Hok]. destruct (civil_of_spec _ _ _ _ Eu) as [Hd' Hok'].
  assert (Hsec : forall x, 0 <= sec_part x < 86400).
  { intros x. unfold sec_part, Day, Hour, Minute, Second. Z.div_mod_to_equations; lia. }
  assert (Hns : forall x, 0 <= nsec_part x / Millisecond < 1000).
  { intros x. unfold nsec_part, Second, Millisecond. Z.div_mod_to_equations; lia. }
  pose proof (Hsec t). pose proof (Hsec u). pose proof (Hns t). pose proof (Hns u).
  unfold Day, Hour, Minute, Second, Millisecond in *.
  destruct (Z.lt_ge_cases (days_part t) (days_part u)) as [Hdd|Hdd].
  { apply date_text_lt; try done. lia. }
  assert (days_part t = days_part u) as Hde by lia. rewrite Hde in Et. rewrite Et in Eu.
  injection Eu as -> -> ->. rewrite !compare_app.
  destruct (Z.lt_ge_cases (sec_part t) (sec_part u)) as [Hs|Hs].
  { apply clock_text_lt; lia. }
  assert (sec_part t = sec_part u) as -> by lia. rewrite !compare_app.
  apply compare_pad; simpl; lia.
Qed.

Lemma encodeTime_column t u : column t = column u -> encodeTime t = encodeTime u.
Proof.
  rewrite !column_parts. unfold encodeTime. intros H.
  assert (Hsec : forall x, 0 <= sec_part x < 86400).
  { intros x. unfold sec_part, Day, Hour, Minute, Second. Z.div_mod_to_equations; lia. }
  assert (Hns : forall x, 0 <= nsec_part x / Millisecond < 1000).
  { intros x. unfold nsec_part, Second, Millisecond. Z.div_mod_to_equations; lia. }
  pose proof (Hsec t). pose proof (Hsec u). pose proof (Hns t). pose proof (Hns u).
  unfold Day, Hour, Minute, Second, Millisecond in *.
  assert (days_part t = days_part u /\ sec_part t = sec_part u /\
    nsec_part t / 1000000 = nsec_part u / 1000000) as (-> & -> & ->) by lia. done.
Qed.

(** ** Properties *)

(** For the years 0 to 9999 the text of a time column orders exactly as the
    instant it stands for, to the millisecond: comparing two columns as text,
    which is what every expiry test and every ORDER BY of the store does, is
    comparing the instants, and equal texts are equal instants to the
    millisecond. *)
Theorem encodeTime_order t u :
  storable t -> storable u ->
  String.compare (encodeTime t) (encodeTime u) = (column t ?= column u).
Proof.
  intros Ht Hu. destruct (Z.compare_spec (column t) (column u)) as [He|Hl|Hg].
  - rewrite (encodeTime_column _ _ He). apply compare_refl.
  - by apply encodeTime_lt.
  - rewrite compare_sym. by rewrite encodeTime_lt.
Qed.

Definition sample_instant : Z := days_of 2025 12 31 * Day + 23 * Hour + 59 * Minute + 999 * Millisecond.

Lemma encodeTime_order_witness :
  encodeTime sample_instant = "2025-12-31T23:59:00.999Z" /\
  String.compare (encodeTime sample_instant) (encodeTime (sample_instant + Day)) = Lt.
Proof.
  split; [by vm_compute|].
  rewrite (encodeTime_order sample_instant (sample_instant + Day));
    [by vm_compute|by vm_compute; split; discriminate|by vm_compute; split; discriminate].
Defined.
