(* ===== verification/Lease.v ===== *)
(** * core/lease: temporary grants

    The record and its lifecycle (lease.go), the promises the repository makes
    to the manager as an interface ([Repository] and its laws), and the manager
    (manager.go): issue, use, revoke, shorten, sweep. What the repository's
    conditional updates amount to is the state machine [step]; the manager is
    shown to refine it, and the guarantees about leases are theorems about its
    runs, so they hold however the calls of concurrent handlers interleave. *)
From S2P Require Import Prelude GoStr Apperr GoTime World.
From S2P Require Json Scope.
Open Scope Z_scope.

Definition StatusActive : string := "active".
Definition StatusExpired : string := "expired".
Definition StatusExhausted : string := "exhausted".
Definition StatusRevoked : string := "revoked".
Definition statuses : list string := [StatusActive; StatusExpired; StatusExhausted; StatusRevoked].

Definition Unlimited : Z := 0.

Record Lease := {
  ID : string;
  AgentID : string;
  IdentityID : string;
  Service : string;
  ResourceScope : string;
  Capabilities : string;
  ExpiresAt : Z;
  RequestLimit : Z;
  UsedRequests : Z;
  Status : string;
  ApprovalID : string;
  IsSessionBound : bool;
  SourceMemoryID : string;
  CreatedAt : Z;
  UpdatedAt : Z;
}.

#[export] Instance Lease_eq_dec : EqDecision Lease.
Proof. solve_decision. Defined.

Abbreviation table := (gmap string Lease).

(** ** Updates of a row *)

Definition consumed (l : Lease) (now : Z) : Lease :=
  {| ID := ID l; AgentID := AgentID l; IdentityID := IdentityID l; Service := Service l;
     ResourceScope := ResourceScope l; Capabilities := Capabilities l;
     ExpiresAt := ExpiresAt l; RequestLimit := RequestLimit l;
     UsedRequests := UsedRequests l + 1; Status := Status l; ApprovalID := ApprovalID l;
     IsSessionBound := IsSessionBound l; SourceMemoryID := SourceMemoryID l;
     CreatedAt := CreatedAt l; UpdatedAt := column now |}.

Definition closed (l : Lease) (status : string) (at_ : Z) : Lease :=
  {| ID := ID l; AgentID := AgentID l; IdentityID := IdentityID l; Service := Service l;
     ResourceScope := ResourceScope l; Capabilities := Capabilities l;
     ExpiresAt := ExpiresAt l; RequestLimit := RequestLimit l;
     UsedRequests := UsedRequests l; Status := status; ApprovalID := ApprovalID l;
     IsSessionBound := IsSessionBound l; SourceMemoryID := SourceMemoryID l;
     CreatedAt := CreatedAt l; UpdatedAt := column at_ |}.

Definition shortened (l : Lease) (expiresAt at_ : Z) : Lease :=
  {| ID := ID l; AgentID := AgentID l; IdentityID := IdentityID l; Service := Service l;
     ResourceScope := ResourceScope l; Capabilities := Capabilities l;
     ExpiresAt := column expiresAt; RequestLimit := RequestLimit l;
     UsedRequests := UsedRequests l; Status := Status l; ApprovalID := ApprovalID l;
     IsSessionBound := IsSessionBound l; SourceMemoryID := SourceMemoryID l;
     CreatedAt := CreatedAt l; UpdatedAt := column at_ |}.

(** The row an issued lease becomes. *)
Definition stored (l : Lease) : Lease :=
  {| ID := ID l; AgentID := AgentID l; IdentityID := IdentityID l; Service := Service l;
     ResourceScope := ResourceScope l; Capabilities := Capabilities l;
     ExpiresAt := column (ExpiresAt l); RequestLimit := optionalCount (RequestLimit l);
     UsedRequests := UsedRequests l; Status := Status l; ApprovalID := ApprovalID l;
     IsSessionBound := IsSessionBound l; SourceMemoryID := SourceMemoryID l;
     CreatedAt := column (CreatedAt l); UpdatedAt := column (UpdatedAt l) |}.

(** A row the code can read back: its counters fit. *)
Definition toLease (l : Lease) : result Code Lease :=
  _ ← decodeCount (RequestLimit l);
  _ ← decodeCount (UsedRequests l);
  mret l.

Definition readable (l : Lease) : bool :=
  is_Ok (decodeCount (RequestLimit l)) && is_Ok (decodeCount (UsedRequests l)).

Lemma toLease_readable l : toLease l = if readable l then Ok l else Err CodeInternal.
Proof.
  unfold readable, toLease, decodeCount, mbind, result_bind.
  destruct (_ || _); [done|]. by destruct (_ || _).
Qed.

(** WHERE of the conditional updates. *)
Definition isActive (l : Lease) : bool := Status l ==? StatusActive.

Definition below_limit (l : Lease) : bool :=
  (RequestLimit l =? Unlimited) || (UsedRequests l <? RequestLimit l).

Definition consumable (l : Lease) (now : Z) : bool :=
  isActive l && (column now <? ExpiresAt l) && below_limit l.

(** ** The state machine of the table *)

Inductive label := LIssue (id : string) | LConsume (id : string) | LClose (id : string) | LShorten (id : string).

Inductive step : label -> table -> table -> Prop :=
| step_issue t l :
    t !! ID l = None ->
    (forall id l', t !! id = Some l' -> ApprovalID l' = ApprovalID l -> ApprovalID l = "") ->
    step (LIssue (ID l)) t (<[ID l := stored l]> t)
| step_consume t id l now :
    t !! id = Some l -> consumable l now = true ->
    step (LConsume id) t (<[id := consumed l now]> t)
| step_close t id l status at_ :
    t !! id = Some l -> isActive l = true -> status <> StatusActive ->
    step (LClose id) t (<[id := closed l status at_]> t)
| step_shorten t id l expiresAt at_ :
    t !! id = Some l -> isActive l = true -> column expiresAt < ExpiresAt l ->
    step (LShorten id) t (<[id := shortened l expiresAt at_]> t).

Inductive steps : list label -> table -> table -> Prop :=
| steps_nil t : steps [] t t
| steps_cons a ls t t1 t2 : step a t t1 -> steps ls t1 t2 -> steps (a :: ls) t t2.

Lemma steps_one a t t' : step a t t' -> steps [a] t t'.
Proof. intros. econstructor; [done|constructor]. Qed.

Lemma steps_app ls ls' t t1 t2 : steps ls t t1 -> steps ls' t1 t2 -> steps (ls ++ ls') t t2.
Proof. induction 1; simpl; [done|]. intros. econstructor; eauto. Qed.

(** How many times the lease [id] was consumed. *)
Fixpoint uses (id : string) (ls : list label) : Z :=
  match ls with
  | [] => 0
  | LConsume id' :: ls => (if id ==? id' then 1 else 0) + uses id ls
  | _ :: ls => uses id ls
  end.

Lemma uses_app id ls ls' : uses id (ls ++ ls') = uses id ls + uses id ls'.
Proof. induction ls as [|[] ls IH]; simpl; lia. Qed.

(** What never changes about an issued lease. *)
Definition grant_of (l : Lease) :=
  (ID l, AgentID l, IdentityID l, Service l, (ResourceScope l, Capabilities l, RequestLimit l),
   ApprovalID l, IsSessionBound l, SourceMemoryID l, CreatedAt l).

(** [l'] is a later state of the lease [l], after [n] uses. *)
Record evolved (n : Z) (l l' : Lease) : Prop := {
  ev_grant : grant_of l' = grant_of l;
  ev_expiry : ExpiresAt l' <= ExpiresAt l;
  ev_used : UsedRequests l' = UsedRequests l + n;
  ev_final : isActive l = false -> l' = l;
  ev_limit : RequestLimit l <> Unlimited -> UsedRequests l <= RequestLimit l ->
             UsedRequests l' <= RequestLimit l;
}.

Lemma evolved_refl l : evolved 0 l l.
Proof. constructor; try done; lia. Qed.

Lemma evolved_limit n l l' : evolved n l l' -> RequestLimit l' = RequestLimit l.
Proof. intros [Hg _ _ _ _]. unfold grant_of in Hg. by simplify_eq. Qed.

Lemma evolved_trans n m l l' l'' : evolved n l l' -> evolved m l' l'' -> evolved (n + m) l l''.
Proof.
  intros H1 H2. pose proof (evolved_limit _ _ _ H1) as Hl. destruct H1, H2. constructor.
  - congruence.
  - lia.
  - lia.
  - intros Ha. assert (l' = l) as -> by auto. auto.
  - rewrite <- Hl. intros. apply ev_limit1; [done|]. rewrite Hl. apply ev_limit0; congruence.
Qed.

Lemma step_evolved a t t' id l :
  step a t t' -> t !! id = Some l -> exists l', t' !! id = Some l' /\ evolved (uses id [a]) l l'.
Proof.
  intros H Hl. destruct H as [t l0 Hn Hu|t id0 l0 now H0 Hc|t id0 l0 s at_ H0 Ha Hs|t id0 l0 e at_ H0 Ha He].
  - assert (id <> ID l0) by congruence. exists l. rewrite lookup_insert_ne by done.
    split; [done|apply evolved_refl].
  - cbn [uses]. destruct (decide (id = id0)) as [->|Hne].
    + simplify_eq. rewrite lookup_insert_eq, bool_decide_eq_true_2 by done. eexists; split; [done|].
      unfold consumable, below_limit in Hc. bools. constructor; simpl; try done; try lia.
      intros. congruence.
    + rewrite bool_decide_eq_false_2 by done. rewrite lookup_insert_ne by done. exists l.
      split; [done|]. apply evolved_refl.
  - cbn [uses]. destruct (decide (id = id0)) as [->|Hne].
    + simplify_eq. rewrite lookup_insert_eq. eexists; split; [done|].
      constructor; simpl; try done; try lia. intros. congruence.
    + rewrite lookup_insert_ne by done. exists l. split; [done|]. apply evolved_refl.
  - cbn [uses]. destruct (decide (id = id0)) as [->|Hne].
    + simplify_eq. rewrite lookup_insert_eq. eexists; split; [done|].
      constructor; simpl; try done; try lia. intros. congruence.
    + rewrite lookup_insert_ne by done. exists l. split; [done|]. apply evolved_refl.
Qed.

Lemma steps_evolved ls t t' id l :
  steps ls t t' -> t !! id = Some l -> exists l', t' !! id = Some l' /\ evolved (uses id ls) l l'.
Proof.
  intros H. revert l. induction H as [t|a ls t t1 t2 Ha _ IH]; intros l Hl.
  - exists l. split; [done|apply evolved_refl].
  - destruct (step_evolved _ _ _ _ _ Ha Hl) as (l1 & H1 & E1).
    destruct (IH _ H1) as (l2 & H2 & E2). exists l2. split; [done|].
    change (a :: ls) with ([a] ++ ls). rewrite uses_app. by eapply evolved_trans.
Qed.

(** ** The repository *)

Class Repository (D : Type) := {
  IssueLease : Lease -> M D Code Lease;
  LeaseByID : string -> M D Code Lease;
  LeaseByApprovalID : string -> M D Code Lease;
  LeasesByStatus : string -> Z -> M D Code (list Lease);
  ActiveLeasesByIdentity : string -> Z -> M D Code (list Lease);
  ActiveSessionBoundLeasesByAgent : string -> Z -> M D Code (list Lease);
  ActiveLeasesDueBefore : Z -> Z -> M D Code (list Lease);
  Consume : string -> Z -> M D Code Lease;
  Close : string -> string -> Z -> M D Code Lease;
  Shorten : string -> Z -> Z -> M D Code Lease;
}.

(** A write either leaves the database as it was, with an error, or puts the new
    row; the row comes back unless a counter in it does not fit an int32. *)
Definition wrote {D} `{Lens D table} (d : D) (id : string) (row : Lease) (r : result Code Lease)
    (d' : D) : Prop :=
  d' = put (<[id := row]> (view d)) d /\ r = toLease row.

(** What the manager may rely on. *)
Class RepositoryLaws (D : Type) `{Env} `{Lens D table} `{Repository D} := {
  IssueLease_law l d :
    wp (IssueLease l) (fun r d' =>
      refused d [CodeInvalidRequest; CodeConflict; CodeInternal] r d' \/
      (view d !! ID l = None /\
       (forall id l', view d !! id = Some l' -> ApprovalID l' = ApprovalID l -> ApprovalID l = "") /\
       wrote d (ID l) (stored l) r d')) d;
  LeaseByID_law id d :
    wp (LeaseByID id) (fun r d' => d' = d /\ match r with
      | Ok l => view d !! id = Some l
      | Err e => e = CodeInternal \/ (e = CodeNotFound /\ view d !! id = None) end) d;
  LeaseByApprovalID_law a d :
    wp (LeaseByApprovalID a) (fun r d' => d' = d /\ match r with
      | Ok l => (exists id, view d !! id = Some l) /\ ApprovalID l = a /\ a <> ""
      | Err e => e = CodeInternal \/ (e = CodeNotFound /\
          (a = "" \/ forall id l, view d !! id = Some l -> ApprovalID l <> a)) end) d;
  LeasesByStatus_law s n d :
    wp (LeasesByStatus s n) (fun r d' => d' = d /\ match r with
      | Ok l => listing (fun x => Status x ==? s) (by_key ExpiresAt) n (view d) l
      | Err e => e = CodeInternal \/ (e = CodeInvalidRequest /\ n <= 0) end) d;
  ActiveLeasesByIdentity_law i n d :
    wp (ActiveLeasesByIdentity i n) (fun r d' => d' = d /\ match r with
      | Ok l => listing (fun x => isActive x && (IdentityID x ==? i)) (by_key ExpiresAt) n (view d) l
      | Err e => e = CodeInternal \/ (e = CodeInvalidRequest /\ n <= 0) end) d;
  ActiveSessionBoundLeasesByAgent_law a n d :
    wp (ActiveSessionBoundLeasesByAgent a n) (fun r d' => d' = d /\ match r with
      | Ok l => listing (fun x => isActive x && IsSessionBound x && (AgentID x ==? a))
                  (by_key ExpiresAt) n (view d) l
      | Err e => e = CodeInternal \/ (e = CodeInvalidRequest /\ n <= 0) end) d;
  ActiveLeasesDueBefore_law t n d :
    wp (ActiveLeasesDueBefore t n) (fun r d' => d' = d /\ match r with
      | Ok l => listing (fun x => isActive x && (ExpiresAt x <=? column t)) (by_key ExpiresAt) n (view d) l
      | Err e => e = CodeInternal \/ (e = CodeInvalidRequest /\ n <= 0) end) d;
  Consume_law id now d :
    wp (Consume id now) (fun r d' =>
      refused d [CodeInvalidRequest; CodeConflict; CodeInternal] r d' \/
      exists l, view d !! id = Some l /\ consumable l now = true /\
        wrote d id (consumed l now) r d') d;
  Close_law id status at_ d :
    wp (Close id status at_) (fun r d' =>
      refused d [CodeInvalidRequest; CodeConflict; CodeInternal] r d' \/
      exists l, view d !! id = Some l /\ isActive l = true /\ status <> StatusActive /\
        wrote d id (closed l status at_) r d') d;
  Shorten_law id expiresAt at_ d :
    wp (Shorten id expiresAt at_) (fun r d' =>
      refused d [CodeInvalidRequest; CodeInternal] r d' \/
      exists l, view d !! id = Some l /\ isActive l = true /\ column expiresAt < ExpiresAt l /\
        wrote d id (shortened l expiresAt at_) r d') d;
}.

(** ** The manager (manager.go) *)

Record IssueRequest := {
  Granted : Scope.Scope;
  i_ApprovalID : string;
  i_SourceMemoryID : string;
  i_IsSessionBound : bool;
}.

(** [json.Marshal] of the scope and of the one operation. *)
Definition encodeGrant (granted : Scope.Scope) : result Code (string * string) :=
  match Scope.marshal granted with
  | Some s => Ok (s, Json.print (Json.of_strings (Some [Scope.Operation granted])))
  | None => Err CodeInternal
  end.

Definition decodeGrant `{Unicode} (resourceScope : string) : result Code Scope.Scope :=
  match Scope.unmarshal resourceScope with
  | None => Err CodeInternal
  | Some granted => _ ← Scope.Validate granted; mret granted
  end.

Definition ScopeOf `{Unicode} (granted : Lease) : result Code Scope.Scope :=
  decodeGrant (ResourceScope granted).

(** The lease an issue asks the repository for. *)
Definition new_lease (request : IssueRequest) (id : string) (now : Z) (encoded : string * string) : Lease :=
  {| ID := id; AgentID := Scope.AgentID (Granted request);
     IdentityID := Scope.IdentityID (Granted request); Service := Scope.Service (Granted request);
     ResourceScope := fst encoded; Capabilities := snd encoded;
     ExpiresAt := Scope.ExpiresAt (Granted request);
     RequestLimit := Scope.RequestLimit (Granted request); UsedRequests := 0;
     Status := StatusActive; ApprovalID := i_ApprovalID request;
     IsSessionBound := i_IsSessionBound request; SourceMemoryID := i_SourceMemoryID request;
     CreatedAt := now; UpdatedAt := now |}.

Module Manager.
Section manager.
Context {D : Type} `{Env} `{Unicode} `{!Repository D}.

Definition Issue (request : IssueRequest) : M D Code Lease :=
  _ ← of_result (Scope.Validate (Granted request));
  now ← Now;
  _ ← refuse (negb (After (Scope.ExpiresAt (Granted request)) now)) CodeInvalidRequest;
  id ← NewID;
  encoded ← of_result (encodeGrant (Granted request));
  IssueLease (new_lease request id now encoded).

Definition Use (id : string) (requested : Scope.Scope) : M D Code Lease :=
  _ ← of_result (Scope.Validate requested);
  current ← LeaseByID id;
  granted ← of_result (decodeGrant (ResourceScope current));
  _ ← refuse (negb (Scope.CoversIgnoringWindow granted requested)) CodeCredentialNotAuthorized;
  now ← Now;
  used ← Consume id now;
  if negb (RequestLimit used =? Unlimited) && (RequestLimit used <=? UsedRequests used) then
    now' ← Now;
    Close id StatusExhausted now'
  else mret used.

Definition Revoke (id : string) : M D Code Lease :=
  now ← Now; Close id StatusRevoked now.

Definition Shorten (id : string) (expiresAt : Z) : M D Code Lease :=
  _ ← refuse (IsZero expiresAt) CodeInvalidRequest;
  now ← Now; Shorten id expiresAt now.

(** An error carries the leases closed before it. *)
Definition Sweep (limit : Z) : M D (list Lease * Code) (list Lease) :=
  now ← Now;
  due ← map_err (fun e => ([], e)) (ActiveLeasesDueBefore now limit);
  each (fun expiring => Close (ID expiring) StatusExpired now) due.

Definition ByID : string -> M D Code Lease := LeaseByID.
Definition IssuedFor : string -> M D Code Lease := LeaseByApprovalID.
Definition IssuedTo : string -> Z -> M D Code (list Lease) := ActiveLeasesByIdentity.
Definition BoundToSessionOf : string -> Z -> M D Code (list Lease) := ActiveSessionBoundLeasesByAgent.
Definition Active : Z -> M D Code (list Lease) := LeasesByStatus StatusActive.
End manager.
End Manager.

(** A call of the manager, and whether it went through. *)
Inductive call :=
| CIssue (request : IssueRequest)
| CUse (id : string) (requested : Scope.Scope)
| CRevoke (id : string)
| CShorten (id : string) (expiresAt : Z)
| CSweep (limit : Z).

Section runs.
Context {D : Type} `{Env} `{Unicode} `{!Repository D}.

Definition went_through {E A} (m : M D E A) : M D Code bool := fun w =>
  let '(r, w') := m w in (Ok (is_Ok r), w').

Definition run_call (c : call) : M D Code bool :=
  match c with
  | CIssue request => went_through (Manager.Issue request)
  | CUse id requested => went_through (Manager.Use id requested)
  | CRevoke id => went_through (Manager.Revoke id)
  | CShorten id expiresAt => went_through (Manager.Shorten id expiresAt)
  | CSweep limit => went_through (Manager.Sweep limit)
  end.

(** The calls in order, with the successful uses counted per lease. *)
Fixpoint run_calls (cs : list call) (w : World D) : list string * World D :=
  match cs with
  | [] => ([], w)
  | c :: cs =>
      let '(r, w1) := run_call c w in
      let '(used, w2) := run_calls cs w1 in
      (match c, r with CUse id _, Ok true => [id] | _, _ => [] end ++ used, w2)
  end.
End runs.

Definition count (id : string) (l : list string) : Z :=
  Z.of_nat (length (filter (fun x => x = id) l)).

(** ** The manager refines the state machine *)

(** From [d], the run of some labels; [n id] uses of each lease at least. *)
Definition moved {D} `{Lens D table} (n : string -> Z) (d d' : D) : Prop :=
  exists ls t', steps ls (view d) t' /\ d' = put t' d /\ forall id, n id <= uses id ls.

Section moved.
Context {D : Type} `{Lens D table}.

Lemma uses_nonneg id ls : 0 <= uses id ls.
Proof. induction ls as [|[] ls IH]; simpl; try case_bool_decide; lia. Qed.

Lemma moved_refl (d : D) : moved (fun _ => 0) d d.
Proof. exists [], (view d). split_and!; [constructor|by rewrite put_view|done]. Qed.

Lemma moved_weaken n m (d d' : D) : (forall id, m id <= n id) -> moved n d d' -> moved m d d'.
Proof. intros Hm (ls & t & Hs & -> & Hn). exists ls, t. split_and!; [done..|]. intros id. specialize (Hm id). specialize (Hn id). lia. Qed.

Lemma moved_trans n m (d d1 d2 : D) : moved n d d1 -> moved m d1 d2 -> moved (fun id => n id + m id) d d2.
Proof.
  intros (ls & t & Hs & -> & Hn) (ls' & t' & Hs' & -> & Hm). exists (ls ++ ls'), t'.
  rewrite view_put in Hs'. split_and!.
  - by eapply steps_app.
  - by rewrite put_put.
  - intros id. rewrite uses_app. specialize (Hn id). specialize (Hm id). lia.
Qed.

Lemma moved_then n (d d1 d2 : D) : moved (fun _ => 0) d d1 -> moved n d1 d2 -> moved n d d2.
Proof. intros H1 H2. eapply moved_weaken; [|by eapply moved_trans]. intros; simpl; lia. Qed.

Lemma moved_step a t' n (d : D) :
  step a (view d) t' -> (forall id, n id <= uses id [a]) -> moved n d (put t' d).
Proof. intros Ha Hn. exists [a], t'. split_and!; [by apply steps_one|done..]. Qed.

Lemma moved_refused {A} (d d' : D) codes (r : result Code A) :
  refused d codes r d' -> moved (fun _ => 0) d d'.
Proof. intros [-> _]. apply moved_refl. Qed.
End moved.

Section refinement.
Context {D : Type} `{Env} `{Unicode} `{!Lens D table} `{!Repository D} `{!RepositoryLaws D}.

Lemma IssueLease_moves l (d : D) : wp (IssueLease l) (fun _ d' => moved (fun _ => 0) d d') d.
Proof.
  eapply wp_mono; [apply IssueLease_law|]. intros r d' [Hr|(Hn & Hu & -> & _)].
  - by eapply moved_refused.
  - eapply moved_step; [exact (step_issue _ _ Hn Hu)|done].
Qed.

Lemma Close_moves id status at_ (d : D) :
  wp (Close id status at_) (fun _ d' => moved (fun _ => 0) d d') d.
Proof.
  eapply wp_mono; [apply Close_law|]. intros r d' [Hr|(l & Hl & Ha & Hs & -> & _)].
  - by eapply moved_refused.
  - eapply moved_step; [exact (step_close _ _ _ _ at_ Hl Ha Hs)|done].
Qed.

Lemma Shorten_moves id expiresAt at_ (d : D) :
  wp (Shorten id expiresAt at_) (fun _ d' => moved (fun _ => 0) d d') d.
Proof.
  eapply wp_mono; [apply Shorten_law|]. intros r d' [Hr|(l & Hl & Ha & Hs & -> & _)].
  - by eapply moved_refused.
  - eapply moved_step; [exact (step_shorten _ _ _ _ at_ Hl Ha Hs)|done].
Qed.

(** A use: nothing, or the one consumption. *)
Lemma Consume_moves id now (d : D) :
  wp (Consume id now) (fun r d' =>
    moved (fun id' => if is_Ok r && (id' ==? id) then 1 else 0) d d') d.
Proof.
  eapply wp_mono; [apply Consume_law|]. intros r d' [[-> (e & -> & _)]|(l & Hl & Hc & -> & _)].
  - eapply moved_weaken; [|apply moved_refl]. done.
  - eapply moved_step; [exact (step_consume _ _ _ _ Hl Hc)|]. intros id'. simpl.
    destruct (is_Ok r); simpl; case_bool_decide; lia.
Qed.

Lemma went_through_wp {E A} (m : M D E A) Q (d : D) :
  wp m (fun r => Q (Ok (is_Ok r))) d -> wp (went_through m) Q d.
Proof. intros Hm w Hw. specialize (Hm w Hw). unfold went_through. by destruct (m w). Qed.

(** An issue as one step: nothing, or one fresh row. *)
Lemma wp_Issue request (Q : result Code Lease -> D -> Prop) d :
  (forall c, Q (Err c) d) ->
  (forall id n encoded, let l := new_lease request id (clock_at n) encoded in
    Scope.Validate (Granted request) = Ok tt -> clock_at n < Scope.ExpiresAt (Granted request) ->
    encodeGrant (Granted request) = Ok encoded -> view d !! id = None ->
    (forall id l', view d !! id = Some l' -> ApprovalID l' = i_ApprovalID request -> i_ApprovalID request = "") ->
    Q (toLease (stored l)) (put (<[id := stored l]> (view d)) d)) ->
  wp (Manager.Issue request) Q d.
Proof.
  intros Herr Hok. unfold Manager.Issue. wp_steps.
  destruct (Scope.Validate _) as [[]|] eqn:Hv; [|apply Herr].
  wp_steps. destruct (After _ _) eqn:Ha; simpl; [|apply Herr]. wp_steps; [|apply Herr].
  destruct (encodeGrant _) as [encoded|] eqn:He; [|apply Herr].
  eapply wp_mono; [apply IssueLease_law|].
  intros r d' [[-> (e & -> & _)]|(Hn & Hua & -> & ->)]; [apply Herr|].
  unfold After in Ha. bools. by apply Hok.
Qed.

Lemma Issue_moves q (d : D) : wp (Manager.Issue q) (fun _ d' => moved (fun _ => 0) d d') d.
Proof.
  unfold Manager.Issue. wp_steps. destruct (Scope.Validate _); [|apply moved_refl].
  wp_steps. destruct (negb _); [apply moved_refl|]. wp_steps; [|apply moved_refl].
  destruct (encodeGrant _); [|apply moved_refl]. apply IssueLease_moves.
Qed.

Lemma Use_moves id s (d : D) :
  wp (Manager.Use id s) (fun r d' =>
    moved (fun id' => if is_Ok r && (id' ==? id) then 1 else 0) d d') d.
Proof.
  assert (Hnone : forall e : Code, moved (fun id' =>
    if is_Ok (Err (A := Lease) e) && (id' ==? id) then 1 else 0) d d) by (intros; apply moved_refl).
  unfold Manager.Use. wp_steps. destruct (Scope.Validate _); [|apply Hnone].
  wp_steps. eapply wp_mono; [apply LeaseByID_law|]. intros r d' [-> Hr].
  destruct r as [current|e]; [|apply Hnone]. wp_steps.
  destruct (decodeGrant _); [|apply Hnone]. wp_steps. destruct (negb _); [apply Hnone|].
  wp_steps. eapply wp_mono; [apply Consume_moves|]. intros r d' Hm.
  destruct r as [used|e]; [|done]. case_match; [|by wp_steps]. wp_steps.
  eapply wp_mono; [apply Close_moves|]. intros r d2 Hm2.
  eapply moved_weaken; [|eapply moved_trans; [exact Hm|exact Hm2]]. intros id'. simpl.
  destruct (is_Ok r); simpl; [|case_bool_decide]; lia.
Qed.

Lemma Revoke_moves id (d : D) : wp (Manager.Revoke id) (fun _ d' => moved (fun _ => 0) d d') d.
Proof. unfold Manager.Revoke. wp_steps. apply Close_moves. Qed.

Lemma ManagerShorten_moves id e (d : D) :
  wp (Manager.Shorten id e) (fun _ d' => moved (fun _ => 0) d d') d.
Proof.
  unfold Manager.Shorten. wp_steps. destruct (IsZero e); [apply moved_refl|]. wp_steps.
  apply Shorten_moves.
Qed.

Lemma Sweep_moves limit (d : D) : wp (Manager.Sweep limit) (fun _ d' => moved (fun _ => 0) d d') d.
Proof.
  unfold Manager.Sweep. wp_steps. eapply wp_mono; [apply ActiveLeasesDueBefore_law|].
  intros r d' [-> _]. destruct r as [due|e]; [|apply moved_refl].
  apply (wp_each _ (fun _ _ d' => moved (fun _ => 0) d d')); [apply moved_refl|done|].
  intros acc x l d' Hd. eapply wp_mono; [apply Close_moves|]. intros r d2 Hm.
  assert (moved (fun _ => 0) d d2) by (eapply moved_then; [exact Hd|exact Hm]). by destruct r.
Qed.

Lemma run_call_moves c (d : D) :
  wp (run_call c) (fun r d' =>
    moved (fun id => match c, r with CUse id' _, Ok true => if id ==? id' then 1 else 0 | _, _ => 0 end) d d') d.
Proof.
  destruct c; simpl; apply went_through_wp.
  - eapply wp_mono; [apply Issue_moves|]. intros r d' Hm. exact Hm.
  - eapply wp_mono; [apply Use_moves|]. intros r d' Hm. simpl. by destruct r.
  - eapply wp_mono; [apply Revoke_moves|]. intros r d' Hm. exact Hm.
  - eapply wp_mono; [apply ManagerShorten_moves|]. intros r d' Hm. exact Hm.
  - eapply wp_mono; [apply Sweep_moves|]. intros r d' Hm. exact Hm.
Qed.

Lemma count_app id l k : count id (l ++ k) = count id l + count id k.
Proof. unfold count. rewrite filter_app, length_app. lia. Qed.

Lemma run_calls_moves cs w used w' :
  run_calls cs w = (used, w') -> moved (fun id => count id used) (db w) (db w').
Proof.
  revert w used w'. induction cs as [|c cs IH]; intros w used w'; simpl.
  - intros. simplify_eq. eapply moved_weaken; [|apply moved_refl]. done.
  - destruct (run_call c w) as [r w1] eqn:E. destruct (run_calls cs w1) as [used1 w2] eqn:E2.
    intros. simplify_eq. pose proof (wp_use _ _ _ _ _ (run_call_moves c (db w)) E) as H1.
    eapply moved_weaken; [|eapply moved_trans; [exact H1|by eapply IH]].
    intros id. rewrite count_app. simpl.
    assert (count id (match c, r with CUse id0 _, Ok true => [id0] | _, _ => [] end) =
      match c, r with CUse id' _, Ok true => if id ==? id' then 1 else 0 | _, _ => 0 end) as ->; [|lia].
    destruct c; try done. destruct r as [[]|]; try done. unfold count.
    rewrite filter_cons. case_bool_decide; case_decide; simpl; first [done|congruence].
Qed.
End refinement.

(** ** Properties *)

(** C26. The life of a lease, whatever handlers do and however their statements
    interleave: once issued, its agent, identity, service, scope, capabilities,
    request limit, approval and session binding never change; its expiry only
    moves earlier; its counter goes up by exactly the successful uses; a lease
    that has left [active] never changes again; and a counter that is within a
    limit stays within it. *)
Theorem lifecycle ls t t' id l :
  steps ls t t' -> t !! id = Some l ->
  exists l', t' !! id = Some l' /\ grant_of l' = grant_of l /\ ExpiresAt l' <= ExpiresAt l /\
    UsedRequests l' = UsedRequests l + uses id ls /\
    (Status l <> StatusActive -> l' = l) /\
    (RequestLimit l <> Unlimited -> UsedRequests l <= RequestLimit l ->
     UsedRequests l' <= RequestLimit l).
Proof.
  intros H Hl. destruct (steps_evolved _ _ _ _ _ H Hl) as (l' & Hl' & []).
  exists l'. split_and!; try done. intros Hs. apply ev_final0. unfold isActive.
  by apply bool_decide_eq_false.
Qed.

(** C5. No over-use: in any sequence of calls to the manager - issues, uses,
    revocations, shortenings, sweeps, with any of them failing half way - the
    uses of one lease that succeed never exceed what its request limit had
    left. *)
Theorem uses_within_limit {D} `{Env} `{Unicode} `{!Lens D table} `{!Repository D} `{!RepositoryLaws D}
    (cs : list call) (w : World D) used w' id l :
  run_calls cs w = (used, w') -> view (db w) !! id = Some l ->
  RequestLimit l <> Unlimited -> UsedRequests l <= RequestLimit l ->
  count id used <= RequestLimit l - UsedRequests l.
Proof.
  intros Hrun Hl Hn Hle. destruct (run_calls_moves _ _ _ _ Hrun) as (ls & t' & Hs & _ & Hc).
  destruct (steps_evolved _ _ _ _ _ Hs Hl) as (l' & _ & []).
  specialize (Hc id). specialize (ev_limit0 Hn Hle). lia.
Qed.

Lemma wp_Manager_Use {D} `{Env} `{Unicode} `{!Lens D table} `{!Repository D} `{!RepositoryLaws D}
    id requested (d : D) :
  wp (Manager.Use id requested) (fun r d' =>
    match r with
    | Ok l' => exists l granted n,
        view d !! id = Some l /\ ScopeOf l = Ok granted /\
        Scope.CoversIgnoringWindow granted requested = true /\
        Scope.Validate requested = Ok tt /\
        Status l = StatusActive /\ column (clock_at n) < ExpiresAt l /\
        (RequestLimit l = Unlimited \/ UsedRequests l < RequestLimit l) /\
        grant_of l' = grant_of l /\ UsedRequests l' = UsedRequests l + 1 /\
        Status l' = (if negb (RequestLimit l =? Unlimited) && (RequestLimit l <=? UsedRequests l + 1)
                     then StatusExhausted else StatusActive) /\
        view d' = <[id := l']> (view d)
    | Err e => d' = d \/ exists l n, view d !! id = Some l /\
        view d' = <[id := consumed l (clock_at n)]> (view d)
    end) d.
Proof.
  unfold Manager.Use. wp_steps. destruct (Scope.Validate requested) as [[]|] eqn:Hv; [|by left].
  wp_steps. eapply wp_mono; [apply LeaseByID_law|]. intros r d' [-> Hr].
  destruct r as [current|e]; [|by left]. rename Hr into Hl. wp_steps.
  destruct (decodeGrant _) as [granted|] eqn:Hg; [|by left]. wp_steps.
  destruct (Scope.CoversIgnoringWindow granted requested) eqn:Hcov; simpl; [|by left].
  wp_steps. eapply wp_mono; [apply Consume_law|].
  intros r d' [[-> (e & -> & _)]|(l & Hl2 & Hc & -> & ->)]; [by left|].
  assert (l = current) as -> by congruence.
  rewrite toLease_readable. destruct (readable _) eqn:Hd;
    [|right; exists current, n; by rewrite view_put].
  pose proof Hc as Hc2. unfold consumable, isActive, below_limit in Hc2. bools.
  apply orb_true_iff in H2. destruct (negb _ && _) eqn:Hx; cbn [consumed RequestLimit UsedRequests] in Hx.
  - wp_steps. eapply wp_mono; [apply Close_law|]. rewrite !view_put.
    intros r d' [[-> (e & -> & _)]|(l & Hl3 & _ & _ & -> & ->)].
    { right. exists current, n. by rewrite view_put. }
    rewrite lookup_insert_eq in Hl3. injection Hl3 as <-. rewrite toLease_readable.
    change (readable (closed _ _ _)) with (readable (consumed current (clock_at n))). rewrite Hd.
    exists current, granted, n. rewrite Hx, view_put. simpl.
    split_and!; try done; [destruct H2; bools; auto|]. by rewrite view_put, insert_insert_eq.
  - wp_steps. exists current, granted, n. rewrite Hx, view_put. simpl.
    split_and!; try done. destruct H2; bools; auto.
Qed.

(** C27. A use that succeeds was allowed to: the lease was there and active, had
    not expired at the reading of the clock taken for the check, had uses left,
    and the scope it was issued for covers the request in every dimension but
    time; it has one use more, and is exhausted exactly when that was the last.
    A use that fails leaves the lease alone, or has counted the use and then
    failed to mark the lease exhausted. *)
Theorem use_checked {D} `{Env} `{Unicode} `{!Lens D table} `{!Repository D} `{!RepositoryLaws D}
    id requested (d : D) :
  wp (Manager.Use id requested) (fun r d' =>
    match r with
    | Ok l' => exists l granted n,
        view d !! id = Some l /\ ScopeOf l = Ok granted /\
        Scope.CoversIgnoringWindow granted requested = true /\
        Scope.Validate requested = Ok tt /\
        Status l = StatusActive /\ column (clock_at n) < ExpiresAt l /\
        (RequestLimit l = Unlimited \/ UsedRequests l < RequestLimit l) /\
        grant_of l' = grant_of l /\ UsedRequests l' = UsedRequests l + 1 /\
        Status l' = (if negb (RequestLimit l =? Unlimited) && (RequestLimit l <=? UsedRequests l + 1)
                     then StatusExhausted else StatusActive) /\
        view d' = <[id := l']> (view d)
    | Err e => d' = d \/ exists l n, view d !! id = Some l /\
        view d' = <[id := consumed l (clock_at n)]> (view d)
    end) d.
Proof. exact (wp_Manager_Use id requested d). Qed.

(** Issuing a lease: nothing is written, or the row is the scope that was
    granted - its own dimensions, its expiry and limit, its encoding read back
    to the same scope - for an expiry after a reading of the clock, under an
    identifier and an approval no lease had. *)
Theorem issue_grants {D} `{Env} `{Unicode} `{!Lens D table} `{!Repository D} `{!RepositoryLaws D}
    request (d : D) :
  Scope.utf8_scope (Granted request) ->
  Scope.storable_time (Scope.NotBefore (Granted request)) ->
  Scope.storable_time (Scope.ExpiresAt (Granted request)) ->
  Json.int64_ok (Scope.RequestLimit (Granted request)) = true ->
  wp (Manager.Issue request) (fun r d' =>
    d' = d /\ is_Ok r = false \/
    exists l n, view d !! ID l = None /\ view d' = <[ID l := l]> (view d) /\
      ScopeOf l = Ok (Granted request) /\
      clock_at n < Scope.ExpiresAt (Granted request) /\
      ExpiresAt l = column (Scope.ExpiresAt (Granted request)) /\
      RequestLimit l = Scope.RequestLimit (Granted request) /\ UsedRequests l = 0 /\
      Status l = StatusActive /\ ApprovalID l = i_ApprovalID request /\
      IsSessionBound l = i_IsSessionBound request /\
      AgentID l = Scope.AgentID (Granted request) /\
      IdentityID l = Scope.IdentityID (Granted request) /\
      (forall id l', view d !! id = Some l' -> ApprovalID l' = ApprovalID l -> ApprovalID l = "")) d.
Proof.
  intros Hu Hnb Hex Hlim. apply wp_Issue; [by left|].
  intros id n [rs cs] l Hv Ha He Hn Hua. right. exists (stored l), n. subst l.
  rewrite view_put. simpl. split_and!; try done.
  - unfold ScopeOf, decodeGrant. simpl. unfold encodeGrant in He.
    apply Scope.Validate_ok in Hv as Hvalid.
    destruct (Scope.scope_reads_back (Granted request)) as (text & Hm & Hr); [done..| |].
    { done. }
    rewrite Hm in He. injection He as <- <-. rewrite Hr. cbn [mbind result_bind]. by rewrite Hv.
  - simpl. unfold optionalCount. apply Scope.Validate_ok in Hv as [].
    destruct (_ <=? 0) eqn:E; bools; lia.
Qed.
