(* ===== verification/Trust.v ===== *)
(** * core/trust: learned grants

    The memory and its lifecycle (memory.go), the repository it relies on as an
    interface, and the manager (manager.go): generate, match, tighten, use,
    invalidate, delete. The repository's updates are the state machine [step],
    which has no way to widen a memory. *)
From S2P Require Import Prelude GoStr Apperr GoTime World.
From S2P Require Json Risk Matcher Scope.
Open Scope Z_scope.

Definition BehaviorAutoAllow : string := "auto_allow".
Definition BehaviorAlwaysAsk : string := "always_ask".

Definition StatusActive : string := "active".
Definition StatusInvalidated : string := "invalidated".

Definition ReasonProviderDisconnected : string := "provider_disconnected".
Definition ReasonIdentityScopeChanged : string := "identity_scope_changed".
Definition ReasonAgentExecutableChanged : string := "agent_executable_changed".
Definition ReasonProjectFingerprintChanged : string := "project_fingerprint_changed".
Definition ReasonDeviceUntrusted : string := "device_untrusted".
Definition ReasonUnusedTooLong : string := "unused_too_long".
Definition ReasonCautiousModeSelected : string := "cautious_mode_selected".
Definition ReasonAdapterRiskUpgraded : string := "adapter_risk_upgraded".

Definition reasons : list string :=
  [ ReasonProviderDisconnected; ReasonIdentityScopeChanged; ReasonAgentExecutableChanged;
    ReasonProjectFingerprintChanged; ReasonDeviceUntrusted; ReasonUnusedTooLong;
    ReasonCautiousModeSelected; ReasonAdapterRiskUpgraded ].

Definition validReason (reason : string) : bool := one_of reason reasons.
Definition validStatus (status : string) : bool :=
  (status ==? StatusActive) || (status ==? StatusInvalidated).

Record Memory := {
  ID : string;
  AgentID : string;
  WorkspaceID : string;
  IdentityID : string;
  Service : string;
  ResourceScope : string;
  CapabilityScope : string;
  Environment : string;
  RiskCeiling : string;
  Behavior : string;
  CreatedFrom : string;
  Status : string;
  InvalidationReason : string;
  LastUsedAt : Z;
  ExpiresAt : Z;
  CreatedAt : Z;
  UpdatedAt : Z;
}.

#[export] Instance Memory_eq_dec : EqDecision Memory.
Proof. solve_decision. Defined.

Abbreviation table := (gmap string Memory).

(** ** Updates of a row *)

Definition stored (m : Memory) : Memory :=
  {| ID := ID m; AgentID := AgentID m; WorkspaceID := WorkspaceID m; IdentityID := IdentityID m;
     Service := Service m; ResourceScope := ResourceScope m; CapabilityScope := CapabilityScope m;
     Environment := Environment m; RiskCeiling := RiskCeiling m; Behavior := Behavior m;
     CreatedFrom := CreatedFrom m; Status := Status m; InvalidationReason := InvalidationReason m;
     LastUsedAt := optionalTime (LastUsedAt m); ExpiresAt := column (ExpiresAt m);
     CreatedAt := column (CreatedAt m); UpdatedAt := column (UpdatedAt m) |}.

Definition with_state (m : Memory) (behavior status reason : string) (lastUsedAt at_ : Z) : Memory :=
  {| ID := ID m; AgentID := AgentID m; WorkspaceID := WorkspaceID m; IdentityID := IdentityID m;
     Service := Service m; ResourceScope := ResourceScope m; CapabilityScope := CapabilityScope m;
     Environment := Environment m; RiskCeiling := RiskCeiling m; Behavior := behavior;
     CreatedFrom := CreatedFrom m; Status := status; InvalidationReason := reason;
     LastUsedAt := lastUsedAt; ExpiresAt := ExpiresAt m;
     CreatedAt := CreatedAt m; UpdatedAt := column at_ |}.

Definition touched (m : Memory) (at_ : Z) : Memory :=
  with_state m (Behavior m) (Status m) (InvalidationReason m) (optionalTime at_) at_.

Definition tightened (m : Memory) (at_ : Z) : Memory :=
  with_state m BehaviorAlwaysAsk (Status m) (InvalidationReason m) (LastUsedAt m) at_.

Definition invalidated (m : Memory) (reason : string) (at_ : Z) : Memory :=
  with_state m (Behavior m) StatusInvalidated reason (LastUsedAt m) at_.

Definition isActive (m : Memory) : bool := Status m ==? StatusActive.

(** ** The state machine of the table *)

Inductive step (made : Memory -> Prop) : table -> table -> Prop :=
| step_create t m :
    made m -> t !! ID m = None ->
    (forall id m', t !! id = Some m' -> CreatedFrom m' <> CreatedFrom m) ->
    step made t (<[ID m := stored m]> t)
| step_touch t id m at_ :
    t !! id = Some m -> isActive m = true -> step made t (<[id := touched m at_]> t)
| step_tighten t id m at_ :
    t !! id = Some m -> isActive m = true -> Behavior m = BehaviorAutoAllow ->
    step made t (<[id := tightened m at_]> t)
| step_invalidate t id m reason at_ :
    t !! id = Some m -> isActive m = true -> reason <> "" ->
    step made t (<[id := invalidated m reason at_]> t)
| step_delete t id : is_Some (t !! id) -> step made t (delete id t).

(** What a memory covers: it never changes. *)
Definition coverage (m : Memory) :=
  (ID m, AgentID m, WorkspaceID m, IdentityID m, Service m, (ResourceScope m, CapabilityScope m),
   Environment m, RiskCeiling m, CreatedFrom m, ExpiresAt m, CreatedAt m).

(** [m'] is a later state of [m]: the same coverage, and never more permissive. *)
Record narrowed (m m' : Memory) : Prop := {
  na_coverage : coverage m' = coverage m;
  na_behavior : Behavior m' = Behavior m \/ Behavior m' = BehaviorAlwaysAsk;
  na_final : isActive m = false -> m' = m;
}.

Lemma narrowed_refl m : narrowed m m.
Proof. constructor; auto. Qed.

Lemma narrowed_trans m m' m'' : narrowed m m' -> narrowed m' m'' -> narrowed m m''.
Proof.
  intros [H1 H2 H3] [G1 G2 G3]. constructor.
  - congruence.
  - destruct G2 as [->|]; auto.
  - intros Ha. rewrite (H3 Ha) in *. auto.
Qed.

Lemma narrowed_with_state m behavior status reason l at_ :
  isActive m = true -> behavior = Behavior m \/ behavior = BehaviorAlwaysAsk ->
  narrowed m (with_state m behavior status reason l at_).
Proof. intros Ha Hb. constructor; [done|done|congruence]. Qed.

(** Every memory after a step was there before, no narrower, or was just made. *)
Lemma step_provenance made t t' id m' :
  step made t t' -> t' !! id = Some m' ->
  (exists m, t !! id = Some m /\ narrowed m m') \/ (exists m, made m /\ narrowed (stored m) m').
Proof.
  assert (Hup : forall (t : table) id0 m0 x, t !! id0 = Some m0 -> narrowed m0 x ->
    <[id0 := x]> t !! id = Some m' -> exists m, t !! id = Some m /\ narrowed m m').
  { intros t0 id0 m0 x Hm0 Hn. rewrite lookup_insert_Some.
    intros [[<- <-]|[_ H]]; eauto using narrowed_refl. }
  intros H Hm'. destruct H as [t m0 Hmade Hn _|t id0 m0 at_ H0 Ha|t id0 m0 at_ H0 Ha Hb|t id0 m0 r at_ H0 Ha Hr|t id0 H0].
  - apply lookup_insert_Some in Hm' as [[<- <-]|[_ Hm']]; eauto using narrowed_refl.
  - left. eapply Hup; [done| |done]. apply narrowed_with_state; auto.
  - left. eapply Hup; [done| |done]. apply narrowed_with_state; auto.
  - left. eapply Hup; [done| |done]. apply narrowed_with_state; auto.
  - left. apply lookup_delete_Some in Hm' as [_ Hm']. eauto using narrowed_refl.
Qed.

Lemma steps_provenance made t t' id m' :
  rtc (step made) t t' -> t' !! id = Some m' ->
  (exists m, t !! id = Some m /\ narrowed m m') \/ (exists m, made m /\ narrowed (stored m) m').
Proof.
  intros H. revert m'. induction H as [t|t t1 t2 Ha _ IH]; intros m' Hm'; [eauto using narrowed_refl|].
  destruct (IH _ Hm') as [(m1 & H1 & N1)|(m & Hm & N)]; [|eauto].
  destruct (step_provenance _ _ _ _ _ Ha H1) as [(m & H2 & N2)|(m & H2 & N2)];
    [left|right]; exists m; eauto using narrowed_trans.
Qed.

Lemma step_weaken (P Q : Memory -> Prop) t t' : (forall m, P m -> Q m) -> step P t t' -> step Q t t'.
Proof. intros HPQ []; [eapply step_create|eapply step_touch|eapply step_tighten|eapply step_invalidate|eapply step_delete]; eauto. Qed.

(** ** The repository *)

Class Repository (D : Type) := {
  CreateMemory : Memory -> M D Code Memory;
  MemoryByID : string -> M D Code Memory;
  MatchMemories : string -> string -> string -> Z -> M D Code (list Memory);
  MemoriesByStatus : string -> Z -> M D Code (list Memory);
  ActiveMemoriesByIdentity : string -> Z -> M D Code (list Memory);
  Touch : string -> Z -> M D Code Memory;
  TightenBehavior : string -> Z -> M D Code Memory;
  Invalidate : string -> string -> Z -> M D Code Memory;
  DeleteMemory : string -> M D Code unit;
}.

Definition wrote {D} `{Lens D table} (d : D) (id : string) (row : Memory) (r : result Code Memory)
    (d' : D) : Prop :=
  d' = put (<[id := row]> (view d)) d /\ r = Ok row.

Class RepositoryLaws (D : Type) `{Env} `{Lens D table} `{Repository D} := {
  CreateMemory_law m d :
    wp (CreateMemory m) (fun r d' =>
      refused d [CodeInvalidRequest; CodeConflict; CodeInternal] r d' \/
      (view d !! ID m = None /\
       (forall id m', view d !! id = Some m' -> CreatedFrom m' <> CreatedFrom m) /\
       wrote d (ID m) (stored m) r d')) d;
  MemoryByID_law id d :
    wp (MemoryByID id) (fun r d' => d' = d /\ match r with
      | Ok m => view d !! id = Some m
      | Err e => e = CodeInternal \/ (e = CodeNotFound /\ view d !! id = None) end) d;
  MatchMemories_law a w s n d :
    wp (MatchMemories a w s n) (fun r d' => d' = d /\ match r with
      | Ok l => listing (fun x => (AgentID x ==? a) && (WorkspaceID x ==? w) && (Service x ==? s) && isActive x)
                  (by_text ID) n (view d) l
      | Err e => e = CodeInternal \/ (e = CodeInvalidRequest /\ n <= 0) end) d;
  MemoriesByStatus_law s n d :
    wp (MemoriesByStatus s n) (fun r d' => d' = d /\ match r with
      | Ok l => listing (fun x => Status x ==? s) (by_text ID) n (view d) l
      | Err e => e = CodeInternal \/ (e = CodeInvalidRequest /\ n <= 0) end) d;
  ActiveMemoriesByIdentity_law i n d :
    wp (ActiveMemoriesByIdentity i n) (fun r d' => d' = d /\ match r with
      | Ok l => listing (fun x => (IdentityID x ==? i) && isActive x) (by_text ID) n (view d) l
      | Err e => e = CodeInternal \/ (e = CodeInvalidRequest /\ n <= 0) end) d;
  Touch_law id at_ d :
    wp (Touch id at_) (fun r d' =>
      refused d [CodeConflict; CodeInternal] r d' \/
      exists m, view d !! id = Some m /\ isActive m = true /\
        wrote d id (touched m at_) r d') d;
  TightenBehavior_law id at_ d :
    wp (TightenBehavior id at_) (fun r d' =>
      refused d [CodeConflict; CodeInternal] r d' \/
      exists m, view d !! id = Some m /\ isActive m = true /\
        Behavior m = BehaviorAutoAllow /\ wrote d id (tightened m at_) r d') d;
  Invalidate_law id reason at_ d :
    wp (Invalidate id reason at_) (fun r d' =>
      refused d [CodeInvalidRequest; CodeConflict; CodeInternal] r d' \/
      exists m, view d !! id = Some m /\ isActive m = true /\ reason <> "" /\
        wrote d id (invalidated m reason at_) r d') d;
  DeleteMemory_law id d :
    wp (DeleteMemory id) (fun r d' =>
      refused d [CodeNotFound; CodeConflict; CodeInternal] r d' \/
      (is_Some (view d !! id) /\ d' = put (delete id (view d)) d /\ r = Ok tt)) d;
}.

(** ** The manager (manager.go) *)

Definition DefaultTTL : Z := 30 * 24 * Hour.
Definition MaxTTL : Z := 90 * 24 * Hour.
Definition UnusedTTL : Z := 30 * 24 * Hour.

Record GenerateRequest := {
  Approved : Scope.Scope;
  Learned : Scope.Scope;
  g_ApprovalID : string;
  g_RiskLevel : string;
  g_Behavior : string;
  TTL : Z;
}.

Definition rank (level : string) : Z :=
  if level ==? Risk.LevelLow then 1
  else if level ==? Risk.LevelMedium then 2
  else if level ==? Risk.LevelHigh then 3
  else 0.

Definition lowerOf (left right : string) : string :=
  if rank left <=? rank right then left else right.

(** Every refusal of [notConverged] is [invalid_request]. *)
Definition checkGenerate (request : GenerateRequest) : result Code unit :=
  _ ← Scope.Validate (Approved request);
  _ ← Scope.Validate (Learned request);
  _ ← refuse_if (negb (Scope.CoversIgnoringWindow (Approved request) (Learned request))) CodeInvalidRequest;
  _ ← refuse_if (g_RiskLevel request ==? Risk.LevelHigh) CodeInvalidRequest;
  _ ← refuse_if ((g_RiskLevel request !=? Risk.LevelLow) && (g_RiskLevel request !=? Risk.LevelMedium))
        CodeInvalidRequest;
  _ ← refuse_if (g_ApprovalID request ==? "") CodeInvalidRequest;
  _ ← refuse_if ((g_Behavior request !=? BehaviorAutoAllow) && (g_Behavior request !=? BehaviorAlwaysAsk))
        CodeInvalidRequest;
  _ ← refuse_if (TTL request <? 0) CodeInvalidRequest;
  refuse_if (MaxTTL <? TTL request) CodeInvalidRequest.

Definition encodeLearned (learned : Scope.Scope) : result Code (string * string) :=
  match Scope.marshal learned with
  | Some s => Ok (s, Json.print (Json.of_strings (Some [Scope.Operation learned])))
  | None => Err CodeInternal
  end.

Definition ScopeOf `{Unicode} (memory : Memory) : result Code Scope.Scope :=
  match Scope.unmarshal (ResourceScope memory) with
  | None => Err CodeInternal
  | Some learned => _ ← Scope.Validate learned; mret learned
  end.

Definition lastTouched (memory : Memory) : Z :=
  if IsZero (LastUsedAt memory) then CreatedAt memory else LastUsedAt memory.

(** The memory a generation asks the repository for. *)
Definition new_memory (request : GenerateRequest) (id : string) (now : Z) (encoded : string * string) : Memory :=
  let ttl := if TTL request =? 0 then DefaultTTL else TTL request in
  {| ID := id; AgentID := Scope.AgentID (Learned request);
     WorkspaceID := Scope.WorkspaceID (Learned request);
     IdentityID := Scope.IdentityID (Learned request);
     Service := Scope.Service (Learned request);
     ResourceScope := fst encoded; CapabilityScope := snd encoded;
     Environment := Scope.Environment (Learned request);
     RiskCeiling := lowerOf (g_RiskLevel request) (Scope.RiskCeiling (Learned request));
     Behavior := g_Behavior request; CreatedFrom := g_ApprovalID request;
     Status := StatusActive; InvalidationReason := ""; LastUsedAt := 0;
     ExpiresAt := now + ttl; CreatedAt := now; UpdatedAt := now |}.

Module Manager.
Section manager.
Context {D : Type} `{Env} `{!Repository D}.

Definition Generate (request : GenerateRequest) : M D Code Memory :=
  _ ← of_result (checkGenerate request);
  now ← Now;
  id ← NewID;
  encoded ← of_result (encodeLearned (Learned request));
  CreateMemory (new_memory request id now encoded).

Definition Match (agentID workspaceID service : string) (limit : Z) : M D Code (list Memory) :=
  candidates ← MatchMemories agentID workspaceID service limit;
  now ← Now;
  mret (filter (fun candidate => After (ExpiresAt candidate) now = true) candidates).

Definition ByStatus (status : string) (limit : Z) : M D Code (list Memory) :=
  _ ← refuse (negb (validStatus status)) CodeInvalidRequest;
  MemoriesByStatus status limit.

Definition ByID (id : string) : M D Code Memory := MemoryByID id.

Definition TightenBehavior (id : string) : M D Code Memory :=
  now ← Now; TightenBehavior id now.

Definition Delete (id : string) : M D Code unit := DeleteMemory id.

Definition Use (id : string) : M D Code Memory := now ← Now; Touch id now.

(** An error carries the memories invalidated before it. *)
Definition invalidateEach (targets : list Memory) (reason : string) : M D (list Memory * Code) (list Memory) :=
  _ ← refuse (negb (validReason reason)) ([], CodeInvalidRequest);
  now ← Now;
  each (fun target => Invalidate (ID target) reason now) targets.

Definition InvalidateForIdentity (identityID reason : string) (limit : Z)
    : M D (list Memory * Code) (list Memory) :=
  active ← map_err (fun e => ([], e)) (ActiveMemoriesByIdentity identityID limit);
  invalidateEach active reason.

Definition InvalidateAll (reason : string) (limit : Z) : M D (list Memory * Code) (list Memory) :=
  active ← map_err (fun e => ([], e)) (MemoriesByStatus StatusActive limit);
  invalidateEach active reason.

Definition InvalidateUnused (limit : Z) : M D (list Memory * Code) (list Memory) :=
  active ← map_err (fun e => ([], e)) (MemoriesByStatus StatusActive limit);
  now ← Now;
  let deadline := now - UnusedTTL in
  let stale := filter (fun candidate => After (lastTouched candidate) deadline = false) active in
  invalidateEach stale ReasonUnusedTooLong.

Definition Invalidate (id reason : string) : M D Code Memory :=
  _ ← refuse (negb (validReason reason)) CodeInvalidRequest;
  now ← Now; Invalidate id reason now.
End manager.
End Manager.

(** The calls that change memories; what they return does not matter here. *)
Inductive call :=
| CGenerate (request : GenerateRequest)
| CTighten (id : string)
| CDelete (id : string)
| CUse (id : string)
| CInvalidate (id reason : string)
| CInvalidateForIdentity (identityID reason : string) (limit : Z)
| CInvalidateAll (reason : string) (limit : Z)
| CInvalidateUnused (limit : Z).

Section runs.
Context {D : Type} `{Env} `{!Repository D}.

Definition run_call (c : call) (w : World D) : World D :=
  match c with
  | CGenerate request => (Manager.Generate request w).2
  | CTighten id => (Manager.TightenBehavior id w).2
  | CDelete id => (Manager.Delete id w).2
  | CUse id => (Manager.Use id w).2
  | CInvalidate id reason => (Manager.Invalidate id reason w).2
  | CInvalidateForIdentity i reason limit => (Manager.InvalidateForIdentity i reason limit w).2
  | CInvalidateAll reason limit => (Manager.InvalidateAll reason limit w).2
  | CInvalidateUnused limit => (Manager.InvalidateUnused limit w).2
  end.

Definition run_calls (cs : list call) (w : World D) : World D := foldl (fun w c => run_call c w) w cs.
End runs.

(** ** The manager refines the state machine *)

(** What a call may add to the table. *)
Definition made_by `{Env} (c : call) (m : Memory) : Prop :=
  match c with
  | CGenerate request =>
      exists id n encoded, checkGenerate request = Ok tt /\
        encodeLearned (Learned request) = Ok encoded /\
        m = new_memory request id (clock_at n) encoded
  | _ => False
  end.

Definition moved {D} `{Lens D table} (made : Memory -> Prop) (d d' : D) : Prop :=
  exists t', rtc (step made) (view d) t' /\ d' = put t' d.

Section refinement.
Context {D : Type} `{Env} `{!Lens D table} `{!Repository D} `{!RepositoryLaws D}.
Implicit Types made : Memory -> Prop.

Lemma memory_moved_refl made (d : D) : moved made d d.
Proof. exists (view d). split; [done|by rewrite put_view]. Qed.

Lemma memory_moved_trans made (d d1 d2 : D) : moved made d d1 -> moved made d1 d2 -> moved made d d2.
Proof.
  intros (t & Hs & ->) (t' & Hs' & ->). rewrite view_put in Hs'. exists t'.
  split; [by etrans|by rewrite put_put].
Qed.

Lemma memory_moved_weaken (P Q : Memory -> Prop) (d d' : D) :
  (forall m, P m -> Q m) -> moved P d d' -> moved Q d d'.
Proof.
  intros HPQ (t & Hs & ->). exists t. split; [|done].
  eapply rtc_subrel; [|exact Hs]. intros x y. by apply step_weaken.
Qed.

Lemma memory_moved_step made t' (d : D) : step made (view d) t' -> moved made d (put t' d).
Proof. intros Hs. exists t'. split; [by apply rtc_once|done]. Qed.

Lemma memory_moved_refused {A} made (d d' : D) codes (r : result Code A) :
  refused d codes r d' -> moved made d d'.
Proof. intros [-> _]. apply memory_moved_refl. Qed.

Lemma CreateMemory_moves made m (d : D) :
  made m -> wp (CreateMemory m) (fun _ d' => moved made d d') d.
Proof.
  intros Hmade. eapply wp_mono; [apply CreateMemory_law|]. intros r d' [Hr|(Hn & Hu & -> & _)].
  - by eapply memory_moved_refused.
  - apply memory_moved_step. exact (step_create _ _ _ Hmade Hn Hu).
Qed.

Lemma Invalidate_moves made id reason at_ (d : D) :
  wp (Invalidate id reason at_) (fun _ d' => moved made d d') d.
Proof.
  eapply wp_mono; [apply Invalidate_law|]. intros r d' [Hr|(m & Hm & Ha & Hre & -> & _)].
  - by eapply memory_moved_refused.
  - apply memory_moved_step. exact (step_invalidate _ _ _ _ _ at_ Hm Ha Hre).
Qed.

Lemma invalidateEach_moves made l reason (d : D) :
  wp (Manager.invalidateEach l reason) (fun _ d' => moved made d d') d.
Proof.
  unfold Manager.invalidateEach. wp_steps. destruct (negb _); [apply memory_moved_refl|]. wp_steps.
  apply (wp_each _ (fun _ _ d' => moved made d d')); [apply memory_moved_refl|done|].
  intros acc x rest d' Hd. eapply wp_mono; [apply (Invalidate_moves made)|]. intros r d2 Hm.
  assert (moved made d d2) by (eapply memory_moved_trans; [exact Hd|exact Hm]). by destruct r.
Qed.

(** A listing followed by [invalidateEach] of some of what it gave. *)
Lemma cascade_moves {A} made (query : M D Code A)
    (pick : A -> M D (list Memory * Code) (list Memory)) (d : D) :
  wp query (fun _ d' => d' = d) d ->
  (forall a, wp (pick a) (fun _ d' => moved made d d') d) ->
  wp (map_err (fun e => ([], e)) query ≫= pick) (fun _ d' => moved made d d') d.
Proof.
  intros Hq Hp. wp_steps. eapply wp_mono; [exact Hq|]. intros r d' ->.
  destruct r; [apply Hp|apply memory_moved_refl].
Qed.

Lemma TightenBehavior_moves made id at_ (d : D) :
  wp (TightenBehavior id at_) (fun _ d' => moved made d d') d.
Proof.
  eapply wp_mono; [apply TightenBehavior_law|]. intros r d' [Hr|(m & Hm & Ha & Hb & -> & _)].
  - by eapply memory_moved_refused.
  - apply memory_moved_step. exact (step_tighten _ _ _ _ _ Hm Ha Hb).
Qed.

Lemma DeleteMemory_moves made id (d : D) : wp (DeleteMemory id) (fun _ d' => moved made d d') d.
Proof.
  eapply wp_mono; [apply DeleteMemory_law|]. intros r d' [Hr|(Hm & -> & _)].
  - by eapply memory_moved_refused.
  - apply memory_moved_step. exact (step_delete _ _ _ Hm).
Qed.

Lemma Touch_moves made id at_ (d : D) : wp (Touch id at_) (fun _ d' => moved made d d') d.
Proof.
  eapply wp_mono; [apply Touch_law|]. intros r d' [Hr|(m & Hm & Ha & -> & _)].
  - by eapply memory_moved_refused.
  - apply memory_moved_step. exact (step_touch _ _ _ _ _ Hm Ha).
Qed.

Lemma Generate_moves request (d : D) :
  wp (Manager.Generate request) (fun _ d' => moved (made_by (CGenerate request)) d d') d.
Proof.
  unfold Manager.Generate. wp_steps. destruct (checkGenerate _) as [[]|] eqn:Hc; [|apply memory_moved_refl].
  wp_steps; [|apply memory_moved_refl]. destruct (encodeLearned _) eqn:He; [|apply memory_moved_refl].
  apply CreateMemory_moves. simpl. eauto 10.
Qed.

Lemma InvalidateForIdentity_moves made identityID reason limit (d : D) :
  wp (Manager.InvalidateForIdentity identityID reason limit) (fun _ d' => moved made d d') d.
Proof.
  apply cascade_moves; [|intros; apply invalidateEach_moves].
  eapply wp_mono; [apply ActiveMemoriesByIdentity_law|]. by intros r d' [-> _].
Qed.

Lemma memory_call_moves c (w : World D) : moved (made_by c) (db w) (db (run_call c w)).
Proof.
  assert (Hwp : forall {E A} (m : M D E A),
    wp m (fun _ d' => moved (made_by c) (db w) d') (db w) -> moved (made_by c) (db w) (db (m w).2)).
  { intros E A m Hm. exact (Hm w eq_refl). }
  destruct c; cbn [run_call]; apply Hwp; clear Hwp; generalize (db w); intros d.
  - apply Generate_moves.
  - unfold Manager.TightenBehavior. wp_steps. apply TightenBehavior_moves.
  - apply DeleteMemory_moves.
  - unfold Manager.Use. wp_steps. apply Touch_moves.
  - unfold Manager.Invalidate. wp_steps. destruct (negb _); [apply memory_moved_refl|]. wp_steps.
    apply Invalidate_moves.
  - apply InvalidateForIdentity_moves.
  - apply cascade_moves; [|intros; apply invalidateEach_moves].
    eapply wp_mono; [apply MemoriesByStatus_law|]. by intros r d' [-> _].
  - apply cascade_moves; [eapply wp_mono; [apply MemoriesByStatus_law|]; by intros r d' [-> _]|].
    intros. wp_steps. apply invalidateEach_moves.
Qed.

Lemma memory_calls_move cs (w : World D) :
  moved (fun m => exists c, c ∈ cs /\ made_by c m) (db w) (db (run_calls cs w)).
Proof.
  revert w. induction cs as [|c cs IH]; intros w; [apply memory_moved_refl|].
  eapply memory_moved_trans.
  - eapply memory_moved_weaken; [|apply memory_call_moves]. intros m Hm. exists c. split; [left|done].
  - eapply memory_moved_weaken; [|apply IH]. intros m (c' & Hin & Hm). exists c'. split; [by right|done].
Qed.
End refinement.

(** ** Properties *)

Lemma rank_lowerOf l r : rank (lowerOf l r) <= rank l /\ rank (lowerOf l r) <= rank r.
Proof. unfold lowerOf. destruct (rank l <=? rank r) eqn:E; bools; lia. Qed.

Lemma lowerOf_learnable l r :
  l = Risk.LevelLow \/ l = Risk.LevelMedium -> 0 < rank r ->
  lowerOf l r = Risk.LevelLow \/ lowerOf l r = Risk.LevelMedium.
Proof.
  intros Hl. unfold lowerOf. destruct (rank l <=? rank r) eqn:E; [done|]. bools.
  destruct Hl as [->| ->].
  - change (rank Risk.LevelLow) with 1 in E. lia.
  - change (rank Risk.LevelMedium) with 2 in E. unfold rank in *.
    repeat case_bool_decide; subst; auto; lia.
Qed.

(** What the checks of [Generate] leave through. *)
Record learnable (request : GenerateRequest) : Prop := {
  le_approved : Scope.Validate (Approved request) = Ok tt;
  le_learned : Scope.Validate (Learned request) = Ok tt;
  le_covered : Scope.CoversIgnoringWindow (Approved request) (Learned request) = true;
  le_level : g_RiskLevel request = Risk.LevelLow \/ g_RiskLevel request = Risk.LevelMedium;
  le_approval : g_ApprovalID request <> "";
  le_behavior : g_Behavior request = BehaviorAutoAllow \/ g_Behavior request = BehaviorAlwaysAsk;
  le_ttl : 0 <= TTL request <= MaxTTL;
}.

Lemma checkGenerate_learnable request : checkGenerate request = Ok tt -> learnable request.
Proof.
  unfold checkGenerate. intros H.
  apply bind_Ok in H as ([] & H1 & H). apply bind_Ok in H as ([] & H2 & H).
  repeat (apply bind_Ok in H as (? & ?%refuse_if_Ok & H)). apply refuse_if_Ok in H.
  bools. constructor; try done.
  - apply andb_false_iff in H4 as [H4|H4]; bools; auto.
  - apply andb_false_iff in H6 as [H6|H6]; bools; auto.
Qed.

(** C28. Learning never widens: a generation that succeeds writes one memory,
    whose recorded scope reads back as a scope the approved one covers, whose
    risk ceiling is low or medium and at most both the approval's risk and the
    scope's own ceiling, that is not high risk, expires within ninety days of
    the clock, and names an approval no other memory came from; one that fails
    writes nothing. *)
Theorem generate_within {D} `{Env} `{Unicode} `{!Lens D table} `{!Repository D} `{!RepositoryLaws D}
    request (d : D) :
  Scope.utf8_scope (Learned request) ->
  Scope.storable_time (Scope.NotBefore (Learned request)) ->
  Scope.storable_time (Scope.ExpiresAt (Learned request)) ->
  Json.int64_ok (Scope.RequestLimit (Learned request)) = true ->
  wp (Manager.Generate request) (fun r d' =>
    match r with
    | Err _ => d' = d
    | Ok m => exists n,
        view d !! ID m = None /\ view d' = <[ID m := m]> (view d) /\
        ScopeOf m = Ok (Learned request) /\
        Scope.CoversIgnoringWindow (Approved request) (Learned request) = true /\
        (RiskCeiling m = Risk.LevelLow \/ RiskCeiling m = Risk.LevelMedium) /\
        rank (RiskCeiling m) <= rank (g_RiskLevel request) /\
        rank (RiskCeiling m) <= rank (Scope.RiskCeiling (Learned request)) /\
        ExpiresAt m <= clock_at n + MaxTTL /\ Status m = StatusActive /\
        CreatedFrom m = g_ApprovalID request /\ CreatedFrom m <> "" /\
        (forall id m', view d !! id = Some m' -> CreatedFrom m' <> CreatedFrom m)
    end) d.
Proof.
  intros Hu Hn He Hl. unfold Manager.Generate. wp_steps.
  destruct (checkGenerate _) as [[]|] eqn:Hc; [|done]. apply checkGenerate_learnable in Hc as [].
  wp_steps; [|done]. unfold encodeLearned.
  destruct (Scope.scope_reads_back (Learned request)) as (text & Hm & Hr); [done..|].
  rewrite Hm. wp_steps. eapply wp_mono; [apply CreateMemory_law|].
  intros r d' [[-> (e & -> & _)]|(Hfresh & Hfrom & -> & ->)]; [done|].
  exists n. rewrite view_put.
  destruct (rank_lowerOf (g_RiskLevel request) (Scope.RiskCeiling (Learned request))).
  split_and!; try done.
  - unfold ScopeOf. cbn [stored new_memory ResourceScope fst]. rewrite Hr.
    cbn [mbind result_bind]. by rewrite le_learned0.
  - apply lowerOf_learnable; [done|]. apply Scope.Validate_ok in le_learned0 as []. exact valid_risk.
  - cbn [stored new_memory ExpiresAt]. unfold column, MaxTTL, DefaultTTL in *.
    pose proof (Z.mul_div_le (clock_at n + (if TTL request =? 0 then 30 * 24 * Hour else TTL request))
      Millisecond ltac:(done)).
    destruct (TTL request =? 0); unfold Hour, Minute, Second, Millisecond in *; lia.
Qed.

(** C29. Where a memory comes from: after any sequence of calls to the manager,
    with any of them failing half way, every memory goes back either to one that
    was there before or to a generation of the sequence whose checks passed;
    since then what it covers, its risk ceiling and its expiry have not changed,
    [always_ask] has not become [auto_allow], and an invalidated memory has not
    come back. *)
Theorem never_widened {D} `{Env} `{!Lens D table} `{!Repository D} `{!RepositoryLaws D}
    (cs : list call) (w : World D) id m' :
  view (db (run_calls cs w)) !! id = Some m' ->
  exists m, coverage m' = coverage m /\
    (Behavior m' = Behavior m \/ Behavior m' = BehaviorAlwaysAsk) /\
    (Status m <> StatusActive -> m' = m) /\
    (view (db w) !! id = Some m \/
     exists request id0 n encoded, CGenerate request ∈ cs /\ learnable request /\
       encodeLearned (Learned request) = Ok encoded /\
       m = stored (new_memory request id0 (clock_at n) encoded)).
Proof.
  intros Hm'. destruct (memory_calls_move cs w) as (t' & Hs & He).
  rewrite He, view_put in Hm'.
  destruct (steps_provenance _ _ _ _ _ Hs Hm') as [(m & Hm & [])|(m & (c & Hin & Hmade) & [])].
  - exists m. split_and!; try done; [|by left]. intros Ha. apply na_final0.
    unfold isActive. by apply bool_decide_eq_false.
  - destruct c as [request| | | | | | |]; try done.
    destruct Hmade as (id0 & n & encoded & Hc & Henc & ->). eexists. split_and!; [done..| |].
    + intros Ha. apply na_final0. unfold isActive. by apply bool_decide_eq_false.
    + right. eexists request, id0, n, encoded. split_and!; try done. by apply checkGenerate_learnable.
Qed.

(** What the decision chain is given: every memory [Match] returns is of this
    agent, workspace and service, active, and unexpired at one reading of the
    clock; and every such memory is returned, unless the page of the query -
    which counts active memories whether expired or not - was full. *)
Theorem match_usable {D} `{Env} `{!Lens D table} `{!Repository D} `{!RepositoryLaws D}
    agentID workspaceID service limit (d : D) :
  wp (Manager.Match agentID workspaceID service limit) (fun r d' =>
    d' = d /\
    match r with
    | Err e => e = CodeInternal \/ (e = CodeInvalidRequest /\ limit <= 0)
    | Ok l => exists n page,
        (forall m, m ∈ l <-> m ∈ page /\ clock_at n < ExpiresAt m) /\
        (forall m, m ∈ page -> (exists id, view d !! id = Some m) /\ AgentID m = agentID /\
          WorkspaceID m = workspaceID /\ Service m = service /\ Status m = StatusActive) /\
        Z.of_nat (length page) <= limit /\
        (forall id m, Z.of_nat (length page) < limit -> view d !! id = Some m ->
          AgentID m = agentID -> WorkspaceID m = workspaceID -> Service m = service ->
          Status m = StatusActive -> clock_at n < ExpiresAt m -> m ∈ l)
    end) d.
Proof.
  unfold Manager.Match. wp_steps. eapply wp_mono; [apply MatchMemories_law|]. intros r d' [-> Hr].
  destruct r as [page|e]; [|done]. destruct Hr as [Hs _ Hb Hc]. wp_steps. split; [done|].
  exists n, page. split_and!; [| |done|].
  - intros m. rewrite list_elem_of_filter. unfold After. split; [intros [? ?]; bools; done|].
    intros [? ?]. split; [by apply Z.ltb_lt|done].
  - intros m Hm. destruct (Hs m Hm) as [Hp Hin]. unfold isActive in Hp. by bools.
  - intros id m Hlen Hm <- <- <- Ha He. rewrite list_elem_of_filter. unfold After.
    split; [by apply Z.ltb_lt|]. apply (Hc m id); [done..|]. unfold isActive.
    rewrite Ha, !bool_decide_eq_true_2 by done. done.
Qed.

(** Rows are kept under their primary key. *)
Definition keyed (t : table) : Prop := forall id m, t !! id = Some m -> ID m = id.

(** Every active memory of an identity invalidated, and nothing else. *)
Definition cascaded {D} `{Lens D table} (identityID reason : string) (limit : Z) (d : D)
    (r : result (list Memory * Code) (list Memory)) (d' : D) : Prop :=
    (forall id m, view d !! id = Some m -> IdentityID m <> identityID \/ Status m <> StatusActive ->
      view d' !! id = Some m) /\
    (forall m, m ∈ match r with Ok l => l | Err (l, _) => l end ->
      view d' !! ID m = Some m /\ Status m = StatusInvalidated /\ InvalidationReason m = reason /\
      reason ∈ reasons) /\
    match r with
    | Ok l => Z.of_nat (length l) < limit ->
        forall id m, view d' !! id = Some m -> IdentityID m = identityID -> Status m <> StatusActive
    | Err _ => True
    end.

Lemma InvalidateForIdentity_cascades {D} `{Env} `{!Lens D table} `{!Repository D} `{!RepositoryLaws D}
    identityID reason limit (d : D) :
  keyed (view d) ->
  wp (Manager.InvalidateForIdentity identityID reason limit) (cascaded identityID reason limit d) d.
Proof.
  intros Hk. unfold Manager.InvalidateForIdentity. wp_steps.
  eapply wp_mono; [apply ActiveMemoriesByIdentity_law|]. intros r d0 [-> Hr].
  destruct r as [page|e]; [|split_and!; [done|intros m Hm; by apply not_elem_of_nil in Hm|done]].
  destruct Hr as [Hs _ _ Hc]. unfold Manager.invalidateEach. wp_steps.
  destruct (validReason reason) eqn:Hv; simpl;
    [|split_and!; [done|intros m Hm; by apply not_elem_of_nil in Hm|done]]. wp_steps.
  apply one_of_spec in Hv.
  assert (Hrow : forall x, x ∈ page -> view d !! ID x = Some x /\ IdentityID x = identityID /\ isActive x = true).
  { intros x Hx. destruct (Hs x Hx) as [Hp [id Hid]]. rewrite (Hk id x Hid). by bools. }
  apply (wp_each _ (fun acc rest d' =>
    (forall x, x ∈ rest -> x ∈ page) /\ (length acc + length rest = length page)%nat /\ keyed (view d') /\
    (forall id m, view d !! id = Some m -> IdentityID m <> identityID \/ Status m <> StatusActive ->
      view d' !! id = Some m) /\
    (forall m, m ∈ acc -> view d' !! ID m = Some m /\ Status m = StatusInvalidated /\
      InvalidationReason m = reason /\ reason ∈ reasons) /\
    (Z.of_nat (length page) < limit -> forall id m, view d' !! id = Some m ->
      IdentityID m = identityID -> isActive m = true -> m ∈ rest))).
  - split_and!; [done|done|done|done|intros m Hm; by apply not_elem_of_nil in Hm|].
    intros Hlen id m Hm Hi Ha. apply (Hc m id); [done..|].
    rewrite Hi, Ha. by rewrite bool_decide_eq_true_2.
  - intros acc d' (_ & Hlen & _ & Hothers & Hacc & Hrest). split_and!; [done|done|].
    intros Hl id m Hm Hi Ha. simpl in Hlen. apply (not_elem_of_nil m).
    apply (Hrest ltac:(lia) id m Hm Hi). unfold isActive. by apply bool_decide_eq_true.
  - intros acc x rest d' (Hsub & Hlen & Hkd & Hothers & Hacc & Hrest).
    eapply wp_mono; [apply Invalidate_law|]. intros r d2 [[-> (e & -> & _)]|(m & Hm & Ha & _ & -> & ->)].
    { split_and!; done. }
    rewrite view_put. destruct (Hrow x (Hsub x ltac:(left))) as (Hx & Hxi & Hxa).
    assert (Hid : ID m = ID x) by by apply Hkd in Hm.
    assert (Hnacc : forall y, y ∈ acc -> ID y <> ID x).
    { intros y Hy Heq. destruct (Hacc y Hy) as (Hl & Hst & _). rewrite Heq, Hm in Hl.
      injection Hl as ->. unfold isActive in Ha. by rewrite Hst in Ha. }
    split_and!.
    + intros y Hy. apply Hsub. by right.
    + rewrite length_app. simpl in *. lia.
    + intros id y. rewrite lookup_insert_Some. intros [[<- <-]|[_ Hy]]; [done|by apply Hkd].
    + intros id y Hy Hor. rewrite lookup_insert_ne; [by apply Hothers|]. intros <-.
      rewrite Hx in Hy. injection Hy as <-. unfold isActive in Hxa. bools. by destruct Hor.
    + intros y. rewrite elem_of_app, list_elem_of_singleton. intros [Hy| ->].
      * rewrite lookup_insert_ne by (by apply not_eq_sym, Hnacc). by apply Hacc.
      * split_and!; try done. change (ID (invalidated m reason (clock_at n))) with (ID m).
        rewrite Hid. apply lookup_insert_eq.
    + intros Hl id y Hy Hi Hya. apply lookup_insert_Some in Hy as [[<- <-]|[Hne Hy]]; [done|].
      specialize (Hrest Hl id y Hy Hi Hya). apply elem_of_cons in Hrest as [->|?]; [|done].
      by rewrite (Hkd id x Hy) in Hne.
Qed.

(** The cascade when an identity is disconnected: if it succeeds and the page
    was not full, no active memory of that identity is left; every other memory
    is as it was; and the reason recorded is one of the eight. If it fails half
    way, the memories it reports are invalidated all the same. *)
Theorem cascade_complete {D} `{Env} `{!Lens D table} `{!Repository D} `{!RepositoryLaws D}
    identityID reason limit (d : D) :
  keyed (view d) ->
  wp (Manager.InvalidateForIdentity identityID reason limit) (fun r d' =>
    (forall id m, view d !! id = Some m -> IdentityID m <> identityID \/ Status m <> StatusActive ->
      view d' !! id = Some m) /\
    (forall m, m ∈ match r with Ok l => l | Err (l, _) => l end ->
      view d' !! ID m = Some m /\ Status m = StatusInvalidated /\ InvalidationReason m = reason /\
      reason ∈ reasons) /\
    match r with
    | Ok l => Z.of_nat (length l) < limit ->
        forall id m, view d' !! id = Some m -> IdentityID m = identityID -> Status m <> StatusActive
    | Err _ => True
    end) d.
Proof. intros Hk. eapply wp_mono; [by apply InvalidateForIdentity_cascades|]. by intros r d' Hc. Qed.
