(* ===== verification/Approval.v ===== *)
(** * core/approval: a person's confirmation

    The approval item (approval.go), the repository as an interface, and the
    manager (manager.go): open, settle, replay, expire. The package decides what
    a confirmation entails and does none of it; that one item is settled once is
    the repository's conditional update, the state machine [step]. *)
From S2P Require Import Prelude GoStr Apperr GoTime World.
From S2P Require Risk Scope Decision Trust.
Open Scope Z_scope.

Definition ActionDeny : string := "deny".
Definition ActionAllowOnce : string := "allow_once".
Definition ActionAllowUntilTaskEnd : string := "allow_until_task_end".
Definition ActionAutoAllowInProject : string := "auto_allow_in_project".
Definition ActionAlwaysAsk : string := "always_ask".
Definition actions : list string :=
  [ActionDeny; ActionAllowOnce; ActionAllowUntilTaskEnd; ActionAutoAllowInProject; ActionAlwaysAsk].

Definition StatusPending : string := "pending".
Definition StatusApproved : string := "approved".
Definition StatusRejected : string := "rejected".
Definition StatusExpired : string := "expired".
Definition StatusCancelled : string := "cancelled".
Definition statuses : list string :=
  [StatusPending; StatusApproved; StatusRejected; StatusExpired; StatusCancelled].

Record Approval := {
  ID : string;
  DecisionID : string;
  Action : string;
  Status : string;
  ExpiresAt : Z;
  DecidedAt : Z;
  CreatedAt : Z;
  UpdatedAt : Z;
}.

#[export] Instance Approval_eq_dec : EqDecision Approval.
Proof. solve_decision. Defined.

Abbreviation table := (gmap string Approval).

(** ** Updates of a row *)

Definition stored (a : Approval) : Approval :=
  {| ID := ID a; DecisionID := DecisionID a; Action := Action a; Status := Status a;
     ExpiresAt := column (ExpiresAt a); DecidedAt := optionalTime (DecidedAt a);
     CreatedAt := column (CreatedAt a); UpdatedAt := column (UpdatedAt a) |}.

Definition settled (a : Approval) (action status : string) (at_ : Z) : Approval :=
  {| ID := ID a; DecisionID := DecisionID a; Action := action; Status := status;
     ExpiresAt := ExpiresAt a; DecidedAt := optionalTime at_;
     CreatedAt := CreatedAt a; UpdatedAt := column at_ |}.

Definition isPending (a : Approval) : bool := Status a ==? StatusPending.

(** ** The state machine of the table *)

Inductive step : table -> table -> Prop :=
| step_open t a :
    t !! ID a = None -> (forall id a', t !! id = Some a' -> DecisionID a' <> DecisionID a) ->
    step t (<[ID a := stored a]> t)
| step_settle t id a action status at_ :
    t !! id = Some a -> isPending a = true -> status <> StatusPending ->
    step t (<[id := settled a action status at_]> t).

(** ** The repository *)

Class Repository (D : Type) := {
  CreateApproval : Approval -> M D Code Approval;
  ApprovalByID : string -> M D Code Approval;
  ApprovalByDecisionID : string -> M D Code Approval;
  ApprovalsByStatus : string -> Z -> M D Code (list Approval);
  PendingApprovalsDueBefore : Z -> Z -> M D Code (list Approval);
  Settle : string -> string -> string -> Z -> M D Code Approval;
}.

Definition wrote {D} `{Lens D table} (d : D) (id : string) (row : Approval) (r : result Code Approval)
    (d' : D) : Prop :=
  d' = put (<[id := row]> (view d)) d /\ r = Ok row.

Class RepositoryLaws (D : Type) `{Env} `{Lens D table} `{Repository D} := {
  CreateApproval_law a d :
    wp (CreateApproval a) (fun r d' =>
      refused d [CodeInvalidRequest; CodeConflict; CodeInternal] r d' \/
      (view d !! ID a = None /\
       (forall id a', view d !! id = Some a' -> DecisionID a' <> DecisionID a) /\
       wrote d (ID a) (stored a) r d')) d;
  ApprovalByID_law id d :
    wp (ApprovalByID id) (fun r d' => d' = d /\ match r with
      | Ok a => view d !! id = Some a
      | Err e => e = CodeInternal \/ (e = CodeNotFound /\ view d !! id = None) end) d;
  ApprovalByDecisionID_law x d :
    wp (ApprovalByDecisionID x) (fun r d' => d' = d /\ match r with
      | Ok a => (exists id, view d !! id = Some a) /\ DecisionID a = x
      | Err e => e = CodeInternal \/
          (e = CodeNotFound /\ forall id a, view d !! id = Some a -> DecisionID a <> x) end) d;
  ApprovalsByStatus_law s n d :
    wp (ApprovalsByStatus s n) (fun r d' => d' = d /\ match r with
      | Ok l => listing (fun x => Status x ==? s) (by_key ExpiresAt) n (view d) l
      | Err e => e = CodeInternal \/ (e = CodeInvalidRequest /\ n <= 0) end) d;
  PendingApprovalsDueBefore_law t n d :
    wp (PendingApprovalsDueBefore t n) (fun r d' => d' = d /\ match r with
      | Ok l => listing (fun x => isPending x && (ExpiresAt x <=? column t)) (by_key ExpiresAt) n (view d) l
      | Err e => e = CodeInternal \/ (e = CodeInvalidRequest /\ n <= 0) end) d;
  Settle_law id action status at_ d :
    status <> StatusPending ->
    wp (Settle id action status at_) (fun r d' =>
      refused d [CodeInvalidRequest; CodeInternal] r d' \/
      (refused d [CodeConflict] r d' /\ forall a, view d !! id = Some a -> isPending a = false) \/
      exists a, view d !! id = Some a /\ isPending a = true /\
        wrote d id (settled a action status at_) r d') d;
}.

(** ** The manager (manager.go) *)

Definition DefaultTimeout : Z := 5 * Minute.
Definition MinTimeout : Z := 30 * Second.
Definition MaxTimeout : Z := 30 * Minute.

(** [NewManager]: the timeout it ends up with. *)
Definition checkTimeout (timeout : Z) : result Code Z :=
  let timeout := if timeout =? 0 then DefaultTimeout else timeout in
  if (timeout <? MinTimeout) || (MaxTimeout <? timeout) then Err CodeInvalidConfiguration
  else Ok timeout.

Definition Actions (level : string) : list string :=
  let always := [ActionDeny; ActionAllowOnce; ActionAllowUntilTaskEnd] in
  if level ==? Risk.LevelHigh then always
  else always ++ [ActionAutoAllowInProject; ActionAlwaysAsk].

Record SettleRequest := {
  s_ApprovalID : string;
  s_Action : string;
  s_RiskLevel : string;
  StrongAuthCompleted : bool;
  Requirement : string;
  RequiredConfirmations : Z;
  s_Confirmations : Z;
}.

(** What an action entails: the fields of a [Settlement] the table gives. *)
Record Consequence := {
  Allowed : bool;
  RequestLimit : Z;
  SessionBound : bool;
  Learn : string;
}.

Definition no_consequence : Consequence :=
  {| Allowed := false; RequestLimit := 0; SessionBound := false; Learn := "" |}.

Definition consequences : list (string * Consequence) :=
  [ (ActionDeny, no_consequence);
    (ActionAllowOnce, {| Allowed := true; RequestLimit := 1; SessionBound := false; Learn := "" |});
    (ActionAllowUntilTaskEnd, {| Allowed := true; RequestLimit := Scope.TaskRequestLimit;
                                 SessionBound := true; Learn := "" |});
    (ActionAutoAllowInProject, {| Allowed := true; RequestLimit := 0; SessionBound := false;
                                  Learn := Trust.BehaviorAutoAllow |});
    (ActionAlwaysAsk, {| Allowed := true; RequestLimit := 0; SessionBound := false;
                         Learn := Trust.BehaviorAlwaysAsk |}) ].

Definition consequence_of (action : string) : option Consequence :=
  snd <$> find_first (fun e => fst e ==? action) consequences.

(** The zero value of the map: not allowed. *)
Definition Allows (action : string) : bool := Allowed (default no_consequence (consequence_of action)).

Record Settlement := {
  s_Approval : Approval;
  s_Consequence : Consequence;
  Replayed : bool;
}.

Definition required (count : Z) : Z := if count <? 1 then 1 else count.

Definition offered (level action : string) : bool :=
  existsb (fun available => available ==? action) (Actions level).

Definition checkSettle (request : SettleRequest) : result Code Consequence :=
  match consequence_of (s_Action request) with
  | None => Err CodeInvalidRequest
  | Some consequence =>
      _ ← refuse_if (negb (offered (s_RiskLevel request) (s_Action request))) CodeForbidden;
      if negb (Allowed consequence) then mret consequence
      else
        _ ← refuse_if ((Requirement request ==? Decision.ApprovalStrongAuth) &&
                       negb (StrongAuthCompleted request)) CodeUnauthenticated;
        _ ← refuse_if (s_Confirmations request <? required (RequiredConfirmations request))
              CodeInvalidRequest;
        mret consequence
  end.

Module Manager.
Section manager.
Context {D : Type} `{Env} `{!Repository D} (timeout : Z).

Definition Open (decisionID : string) : M D Code Approval :=
  _ ← refuse (decisionID ==? "") CodeInvalidRequest;
  existing ← try_ (ApprovalByDecisionID decisionID);
  match existing with
  | Ok item => mret item
  | Err e =>
      _ ← refuse (e !=? CodeNotFound) e;
      id ← NewID;
      now ← Now;
      CreateApproval {| ID := id; DecisionID := decisionID; Action := ""; Status := StatusPending;
                        ExpiresAt := now + timeout; DecidedAt := 0; CreatedAt := now; UpdatedAt := now |}
  end.

Definition replay (request : SettleRequest) (consequence : Consequence) : M D Code Settlement :=
  item ← ApprovalByID (s_ApprovalID request);
  _ ← refuse ((Action item !=? s_Action request) || (Status item ==? StatusExpired)) CodeConflict;
  mret {| s_Approval := item; s_Consequence := consequence; Replayed := true |}.

Definition Settle (request : SettleRequest) : M D Code Settlement :=
  consequence ← of_result (checkSettle request);
  let status := if Allowed consequence then StatusApproved else StatusRejected in
  now ← Now;
  outcome ← try_ (Settle (s_ApprovalID request) (s_Action request) status now);
  match outcome with
  | Ok item => mret {| s_Approval := item; s_Consequence := consequence; Replayed := false |}
  | Err e =>
      _ ← refuse (e !=? CodeConflict) e;
      replay request consequence
  end.

(** An error carries the items closed before it. *)
Definition Expire (limit : Z) : M D (list Approval * Code) (list Approval) :=
  now ← Now;
  due ← map_err (fun e => ([], e)) (PendingApprovalsDueBefore now limit);
  each (fun waiting => Approval.Settle (ID waiting) ActionDeny StatusExpired now) due.

Definition ByID (id : string) : M D Code Approval := ApprovalByID id.

Definition Pending (limit : Z) : M D Code (list Approval) := ApprovalsByStatus StatusPending limit.
End manager.
End Manager.

(** ** Lemmas *)

Lemma offered_spec level action : offered level action = true <-> action ∈ Actions level.
Proof. exact (one_of_spec action (Actions level)). Qed.

(** Every action that can be offered has an entry in the table. *)
Lemma offered_known level action :
  offered level action = true -> exists c, consequence_of action = Some c.
Proof.
  rewrite offered_spec. unfold Actions. case_bool_decide.
  - rewrite !elem_of_cons. intros Hin.
    destruct_or!; try (by apply not_elem_of_nil in Hin); subst; eexists; reflexivity.
  - rewrite elem_of_app, !elem_of_cons. intros Hin.
    destruct_or!; try (by apply not_elem_of_nil in Hin); subst; eexists; reflexivity.
Qed.

Lemma high_never_learns action c :
  offered Risk.LevelHigh action = true -> consequence_of action = Some c -> Learn c = "".
Proof.
  rewrite offered_spec. change (Actions Risk.LevelHigh) with
    [ActionDeny; ActionAllowOnce; ActionAllowUntilTaskEnd]. rewrite !elem_of_cons. intros Hin.
  destruct_or!; try (by apply not_elem_of_nil in Hin); subst; intros Hc;
    vm_compute in Hc; by injection Hc as <-.
Qed.

(** What the checks before a settlement establish. *)
Record permitted (request : SettleRequest) (c : Consequence) : Prop := {
  pe_known : consequence_of (s_Action request) = Some c;
  pe_offered : s_Action request ∈ Actions (s_RiskLevel request);
  pe_learn : s_RiskLevel request = Risk.LevelHigh -> Learn c = "";
  pe_auth : Allowed c = true -> Requirement request = Decision.ApprovalStrongAuth ->
    StrongAuthCompleted request = true;
  pe_confirmed : Allowed c = true ->
    1 <= s_Confirmations request /\ RequiredConfirmations request <= s_Confirmations request;
}.

Lemma checkSettle_permitted request c : checkSettle request = Ok c -> permitted request c.
Proof.
  unfold checkSettle. destruct (consequence_of _) as [c0|] eqn:Hc; [|done]. intros H.
  apply bind_Ok in H as (? & Ho%refuse_if_Ok & H). apply negb_false_iff in Ho.
  assert (Hoff : s_Action request ∈ Actions (s_RiskLevel request)) by by apply offered_spec.
  assert (Hl : s_RiskLevel request = Risk.LevelHigh -> Learn c0 = "").
  { intros Hr. rewrite Hr in Ho. by eapply high_never_learns. }
  destruct (Allowed c0) eqn:Ha; simpl in H.
  - apply bind_Ok in H as (? & H1%refuse_if_Ok & H). apply bind_Ok in H as (? & H2%refuse_if_Ok & H).
    injection H as ->. unfold required in H2. constructor; try done.
    + intros _ Hr. rewrite Hr, bool_decide_eq_true_2 in H1 by done. by apply negb_false_iff in H1.
    + intros _. destruct (RequiredConfirmations request <? 1) eqn:E; bools; lia.
  - injection H as ->. constructor; try done; congruence.
Qed.

(** A settlement as one step: nothing, a repetition, or the one update. *)
Lemma wp_Settle {D} `{Env} `{!Lens D table} `{!Repository D} `{!RepositoryLaws D}
    request (Q : result Code Settlement -> D -> Prop) d :
  (forall c, Q (Err c) d) ->
  (forall c item, permitted request c ->
    view d !! s_ApprovalID request = Some item -> Action item = s_Action request ->
    Status item <> StatusExpired -> Status item <> StatusPending ->
    Q (Ok {| s_Approval := item; s_Consequence := c; Replayed := true |}) d) ->
  (forall c a n, permitted request c ->
    view d !! s_ApprovalID request = Some a -> Status a = StatusPending ->
    let a' := settled a (s_Action request) (if Allowed c then StatusApproved else StatusRejected)
                (clock_at n) in
    Q (Ok {| s_Approval := a'; s_Consequence := c; Replayed := false |})
      (put (<[s_ApprovalID request := a']> (view d)) d)) ->
  wp (Manager.Settle request) Q d.
Proof.
  intros Herr Hrep Hok.
  unfold Manager.Settle. wp_steps. destruct (checkSettle request) as [c|e] eqn:Hc; [|apply Herr].
  apply checkSettle_permitted in Hc. wp_steps.
  eapply wp_mono; [apply Settle_law; by destruct (Allowed c)|].
  intros r d' [[-> (e & -> & He)]|[Hconf|Hset]].
  - wp_steps. destruct (e !=? CodeConflict) eqn:Hne; [apply Herr|]. bools. subst.
    rewrite !elem_of_cons in He. destruct He as [He|[He|He]]; [done..|by apply not_elem_of_nil in He].
  - destruct Hconf as [[-> (e & -> & He)] Hnp]. apply list_elem_of_singleton in He as ->.
    wp_steps. rewrite bool_decide_eq_true_2 by done. simpl. unfold Manager.replay. wp_steps.
    eapply wp_mono; [apply ApprovalByID_law|]. intros r d' [-> Hr].
    destruct r as [item|e]; [|apply Herr]. wp_steps. destruct (_ || _) eqn:Hx; [apply Herr|]. bools.
    wp_steps. specialize (Hnp _ Hr). unfold isPending in Hnp. bools. by apply Hrep.
  - destruct Hset as (a & Ha & Hp & -> & ->). wp_steps. unfold isPending in Hp. bools. by apply Hok.
Qed.

(** ** Properties *)

(** Settling an item: the action is one the risk level offers - never one
    that learns, for a high risk - and an action that allows has had its strong
    authentication and its confirmations, at least one. Then either this is the
    settlement of a pending item, or it repeats the very action the item was
    settled with, which was not a timeout, and changes nothing. Any refusal
    leaves the items as they were. *)
Theorem settle_outcome {D} `{Env} `{!Lens D table} `{!Repository D} `{!RepositoryLaws D}
    (request : SettleRequest) (d : D) :
  wp (Manager.Settle request) (fun r d' =>
    match r with
    | Err _ => d' = d
    | Ok s =>
        permitted request (s_Consequence s) /\
        if Replayed s then
          d' = d /\ view d !! s_ApprovalID request = Some (s_Approval s) /\
          Action (s_Approval s) = s_Action request /\ Status (s_Approval s) <> StatusExpired /\
          Status (s_Approval s) <> StatusPending
        else exists a n,
          view d !! s_ApprovalID request = Some a /\ Status a = StatusPending /\
          view d' = <[s_ApprovalID request := s_Approval s]> (view d) /\
          s_Approval s = settled a (s_Action request)
            (if Allows (s_Action request) then StatusApproved else StatusRejected) (clock_at n)
    end) d.
Proof.
  apply wp_Settle; [done|by intros; split_and!|]. intros c a n Hc Ha Hp. simpl. split; [done|].
  exists a, n. rewrite view_put. split_and!; try done.
  unfold Allows. by rewrite (pe_known _ _ Hc).
Qed.

(** Nothing un-settles an item: along any run of the repository's updates an
    item keeps its decision and its deadline, and once it is no longer pending it
    stays exactly what it is - so of two settlements of one item, by whatever
    handlers, only one takes effect. *)
Theorem settled_once t t' id a :
  rtc step t t' -> t !! id = Some a ->
  exists a', t' !! id = Some a' /\ ID a' = ID a /\ DecisionID a' = DecisionID a /\
    ExpiresAt a' = ExpiresAt a /\ (Status a <> StatusPending -> a' = a).
Proof.
  intros H. revert a. induction H as [t|t t1 t2 Hs _ IH]; intros a Ha; [eauto 10|].
  assert (exists a1, t1 !! id = Some a1 /\ ID a1 = ID a /\ DecisionID a1 = DecisionID a /\
    ExpiresAt a1 = ExpiresAt a /\ (Status a <> StatusPending -> a1 = a)) as
    (a1 & H1 & HI & HD & HE & HF).
  { destruct Hs as [t b Hn Hu|t id0 b action status at_ Hb Hp Hst].
    - assert (id <> ID b) by congruence. exists a. rewrite lookup_insert_ne by done. eauto 10.
    - destruct (decide (id = id0)) as [->|Hne].
      + simplify_eq. rewrite lookup_insert_eq. eexists. split_and!; [done..|].
        intros Hne. unfold isPending in Hp. by bools.
      + rewrite lookup_insert_ne by done. eauto 10. }
  destruct (IH a1 H1) as (a2 & H2 & HI2 & HD2 & HE2 & HF2). exists a2.
  split_and!; [done|congruence..|]. intros Hne. rewrite <- (HF Hne). apply HF2. by rewrite (HF Hne).
Qed.

Definition one_per_decision (t : table) : Prop :=
  forall i j a b, t !! i = Some a -> t !! j = Some b -> DecisionID a = DecisionID b -> i = j.

(** Opening is idempotent: asking twice for the approval of one decision
    gives the same item, there is still one item for the decision, and a new item
    is pending, with the deadline the timeout says. *)
Theorem open_idempotent {D} `{Env} `{!Lens D table} `{!Repository D} `{!RepositoryLaws D}
    timeout decisionID (d : D) :
  one_per_decision (view d) ->
  wp (first ← Manager.Open timeout decisionID; second ← Manager.Open timeout decisionID;
      mret (first, second)) (fun r d' =>
    one_per_decision (view d') /\
    match r with
    | Err _ => True
    | Ok (first, second) => first = second /\ DecisionID first = decisionID /\
        (exists id, view d' !! id = Some first) /\
        ((exists id, view d !! id = Some first) \/
         Status first = StatusPending /\ Action first = "" /\
         exists n, ExpiresAt first = column (clock_at n + timeout))
    end) d.
Proof.
  intros Hone.
  assert (Hopen : forall d, one_per_decision (view d) ->
    wp (Manager.Open timeout decisionID) (fun r d' => one_per_decision (view d') /\
      match r with
      | Err _ => True
      | Ok a => DecisionID a = decisionID /\ (exists id, view d' !! id = Some a) /\
          (d' = d \/ (forall id b, view d !! id = Some b -> DecisionID b <> decisionID) /\
            Status a = StatusPending /\ Action a = "" /\
            exists n, ExpiresAt a = column (clock_at n + timeout))
      end) d).
  { clear d Hone. intros d Hone. unfold Manager.Open. wp_steps. case_bool_decide; [done|]. wp_steps.
    eapply wp_mono; [apply ApprovalByDecisionID_law|]. intros r d' [-> Hr].
    destruct r as [a|e].
    - destruct Hr as [Hin Hd]. wp_steps. eauto.
    - wp_steps. destruct (e !=? CodeNotFound) eqn:He; [done|]. bools. subst.
      destruct Hr as [?|[_ Hno]]; [done|]. wp_steps; [|done].
      eapply wp_mono; [apply CreateApproval_law|].
      intros r d' [[-> (e & -> & _)]|(Hn & Hu & -> & ->)]; [done|].
      rewrite view_put. simpl. split.
      + intros i j a b. rewrite !lookup_insert_Some. intros [[<- <-]|[Hi Ha]] [[<- <-]|[Hj Hb]] Hab;
          simpl in *; [done| | |by eapply Hone].
        * by destruct (Hno _ _ Hb).
        * by destruct (Hno _ _ Ha).
      + split_and!; [done| |right; split_and!; eauto].
        eexists. apply lookup_insert_eq. }
  wp_steps. eapply wp_mono; [apply Hopen; done|]. intros r d1 [H1 Hr].
  destruct r as [a|e]; [|done]. destruct Hr as (Hda & [i Hi] & Hnew). wp_steps.
  eapply wp_mono; [apply Hopen; done|]. intros r d2 [H2 Hr].
  destruct r as [b|e]; [|done]. destruct Hr as (Hdb & [j Hj] & Hsame). wp_steps.
  destruct Hsame as [->|(Hno & _)]; [|by destruct (Hno _ _ Hi)].
  assert (i = j) as -> by (eapply H1; [done..|congruence]). simplify_eq.
  split_and!; [done..|by eexists|]. destruct Hnew as [->|(_ & ? & ? & ?)]; [left; by eexists|by right].
Qed.

Definition keyed (t : table) : Prop := forall id a, t !! id = Some a -> ID a = id.

(** Timing out: every item [Expire] closes was pending and past its deadline
    at one reading of the clock; it ends denied and expired, never approved; no
    other item is touched; and if it succeeds and its page was not full, no
    pending item past the deadline is left. What it closed before a failure stays
    closed. *)
Theorem expire_outcome {D} `{Env} `{!Lens D table} `{!Repository D} `{!RepositoryLaws D}
    limit (d : D) :
  keyed (view d) ->
  wp (Manager.Expire limit) (fun r d' =>
    exists n,
    (forall a', a' ∈ match r with Ok l => l | Err (l, _) => l end ->
      view d' !! ID a' = Some a' /\ Status a' = StatusExpired /\ Action a' = ActionDeny /\
      exists a, view d !! ID a' = Some a /\ Status a = StatusPending /\ ExpiresAt a <= column (clock_at n)) /\
    (forall id a, view d !! id = Some a -> Status a <> StatusPending \/ column (clock_at n) < ExpiresAt a ->
      view d' !! id = Some a) /\
    match r with
    | Ok l => Z.of_nat (length l) < limit ->
        forall id a, view d' !! id = Some a -> Status a = StatusPending -> column (clock_at n) < ExpiresAt a
    | Err _ => True
    end) d.
Proof.
  intros Hk. unfold Manager.Expire. wp_steps.
  eapply wp_mono; [apply PendingApprovalsDueBefore_law|]. intros r d0 [-> Hr].
  destruct r as [page|e]; [|exists n; split_and!; [intros a Ha; by apply not_elem_of_nil in Ha|done|done]].
  destruct Hr as [Hs _ _ Hc]. set (now := clock_at n) in *.
  assert (Hrow : forall x, x ∈ page -> view d !! ID x = Some x /\ isPending x = true /\ ExpiresAt x <= column now).
  { intros x Hx. destruct (Hs x Hx) as [Hp [id Hid]]. rewrite (Hk id x Hid). bools. by split_and!. }
  apply (wp_each _ (fun acc rest d' =>
    (forall x, x ∈ rest -> x ∈ page) /\ (length acc + length rest = length page)%nat /\
    keyed (view d') /\
    (forall a', a' ∈ acc -> view d' !! ID a' = Some a' /\ Status a' = StatusExpired /\
      Action a' = ActionDeny /\
      exists a, view d !! ID a' = Some a /\ Status a = StatusPending /\ ExpiresAt a <= column now) /\
    (forall id a, view d !! id = Some a -> Status a <> StatusPending \/ column now < ExpiresAt a ->
      view d' !! id = Some a) /\
    (forall id a, view d' !! id = Some a -> isPending a = true -> view d !! id = Some a) /\
    (Z.of_nat (length page) < limit -> forall id a, view d' !! id = Some a -> isPending a = true ->
      ExpiresAt a <= column now -> a ∈ rest))).
  - split_and!; [done|done|done|intros a Ha; by apply not_elem_of_nil in Ha|done|done|].
    intros Hlen id a Ha Hp He. apply (Hc a id); [done..|]. rewrite Hp. by apply Z.leb_le.
  - intros acc d' (_ & Hlen & _ & Hacc & Hothers & _ & Hrest). exists n. split_and!; [done..|].
    intros Hl id a Ha Hp. simpl in Hlen. destruct (Z.lt_ge_cases (column now) (ExpiresAt a)); [done|].
    exfalso. apply (not_elem_of_nil a). apply (Hrest ltac:(lia) id a Ha); [|done].
    unfold isPending. by apply bool_decide_eq_true.
  - intros acc x rest d' (Hsub & Hlen & Hkd & Hacc & Hothers & Hstill & Hrest).
    destruct (Hrow x (Hsub x ltac:(left))) as (Hx & Hxp & Hxe).
    eapply wp_mono; [by apply Settle_law|]. intros r d2 [[-> (e & -> & _)]|[[[-> (e & -> & _)] _]|Hset]];
      [by exists n; split_and!..|].
    destruct Hset as (a & Ha & Hp & -> & ->). rewrite view_put.
    assert (Hid : ID a = ID x) by by apply Hkd in Ha.
    assert (Hax : a = x) by (apply Hstill in Ha; [congruence|done]). subst a.
    split_and!.
    + intros y Hy. apply Hsub. by right.
    + rewrite length_app. simpl in *. lia.
    + intros id y. rewrite lookup_insert_Some. intros [[<- <-]|[_ Hy]]; [done|by apply Hkd].
    + intros y. rewrite elem_of_app, list_elem_of_singleton. intros [Hy| ->].
      * destruct (Hacc y Hy) as (Hl & Hst & Hact & Hold). rewrite lookup_insert_ne; [by split_and!|].
        intros Heq. rewrite <- Heq, Ha in Hl. injection Hl as <-. unfold isPending in Hp. by rewrite Hst in Hp.
      * split_and!; try done; [apply lookup_insert_eq|]. exists x. unfold isPending in Hxp. by bools.
    + intros id y Hy Hor. rewrite lookup_insert_ne; [by apply Hothers|]. intros <-.
      rewrite Hx in Hy. injection Hy as <-. unfold isPending in Hxp. bools. destruct Hor; [done|lia].
    + intros id y. rewrite lookup_insert_Some. intros [[<- <-]|[_ Hy]]; [done|by apply Hstill].
    + intros Hl id y Hy Hyp Hye. apply lookup_insert_Some in Hy as [[<- <-]|[Hne Hy]]; [done|].
      specialize (Hrest Hl id y Hy Hyp Hye). apply elem_of_cons in Hrest as [->|?]; [|done].
      by rewrite (Hkd id x Hy) in Hne.
Qed.
