(* ===== verification/Redact.v ===== *)
(** * platform/audit: redaction (redact.go)

    Before an event is written its three JSON fields are decoded into untyped
    values, every member whose key names something sensitive is replaced, at any
    depth, and the result is encoded again; the metadata must also be a flat list
    of scalars, long strings cut. *)
From S2P Require Import Prelude GoStr Apperr.
From S2P Require Json.
From S2P Require Import Intent.
Open Scope Z_scope.
Set Warnings "-register-all".

Definition Redacted : string := "[redacted]".
Definition maxMetadataValueLength : nat := 512.
Definition Truncated : string := "…[truncated]".

Definition sensitiveKeyWords : list string :=
  [ "authorization"; "cookie"; "set-cookie"; "token"; "api_key"; "apikey"; "password"; "secret";
    "private_key"; "credential" ].

(** ** Untyped values

    What [json.Unmarshal] puts into an [any]: numbers are floats, kept as the text
    they print as; the members of an object are a map, kept as a list sorted by
    key, as [json.Marshal] writes them. *)
Inductive any :=
| ANull
| ABool (b : bool)
| ANum (text : string)
| AStr (s : string)
| AArr (items : list any)
| AObj (members : list (string * any)).

(** [m[key] = value]. *)
Fixpoint put_member {A} (k : string) (v : A) (m : list (string * A)) : list (string * A) :=
  match m with
  | [] => [(k, v)]
  | (k', v') :: rest =>
      match String.compare k k' with
      | Lt => (k, v) :: m
      | Eq => (k, v) :: rest
      | Gt => (k', v') :: put_member k v rest
      end
  end.

Section decode.
Context `{Floats}.

Fixpoint decode_any (v : Json.json) : option any :=
  match v with
  | Json.JNull => Some ANull
  | Json.JBool b => Some (ABool b)
  | Json.JNum lit => ANum <$> float_text lit
  | Json.JStr raw => AStr <$> Json.unquote raw
  | Json.JArr items =>
      AArr <$> (fix go items := match items with
        | [] => Some []
        | v :: rest => a ← decode_any v; l ← go rest; Some (a :: l)
        end) items
  | Json.JObj fields =>
      AObj <$> (fix go fields m := match fields with
        | [] => Some m
        | (raw, v) :: rest =>
            k ← Json.unquote raw; a ← decode_any v; go rest (put_member k a m)
        end) fields []
  end.

Definition unmarshal_any (source : string) : option any :=
  v ← Json.parse source; decode_any v.
End decode.

Fixpoint encode_any (a : any) : Json.json :=
  match a with
  | ANull => Json.JNull
  | ABool b => Json.JBool b
  | ANum text => Json.JNum text
  | AStr s => Json.of_string s
  | AArr items => Json.JArr (map encode_any items)
  | AObj members => Json.JObj (map (fun kv => (Json.quote_body kv.1, encode_any kv.2)) members)
  end.

Definition marshal_any (a : any) : string := Json.print (encode_any a).

(** ** Keys *)

Section keys.
Context `{Unicode}.

Definition normalizeKey (key : string) : string := remove_chars "-_." (to_lower key).

Definition isSensitiveKey (key : string) : bool :=
  existsb (fun word => contains (normalizeKey key) (normalizeKey word)) sensitiveKeyWords.

(** ** Redaction *)

Fixpoint redactValue (value : any) : any :=
  match value with
  | AObj members =>
      AObj (map (fun kv => (kv.1, if isSensitiveKey kv.1 then AStr Redacted else redactValue kv.2))
              members)
  | AArr items => AArr (map redactValue items)
  | _ => value
  end.

Definition flatMetadataValue (value : any) : result Code any :=
  match value with
  | AStr s =>
      Ok (AStr (if (maxMetadataValueLength <? String.length s)%nat
                then take_str maxMetadataValueLength s +:+ Truncated else s))
  | ANum _ | ABool _ | ANull => Ok value
  | _ => Err CodeInvalidRequest
  end.

(** The loop over a map ends with an error as soon as one value has one, the same
    error whichever comes first. *)
Fixpoint redact_members (members : list (string * any)) : result Code (list (string * any)) :=
  match members with
  | [] => Ok []
  | (key, value) :: rest =>
      scalar ← (if isSensitiveKey key then Ok (AStr Redacted) else flatMetadataValue value);
      rest ← redact_members rest;
      Ok ((key, scalar) :: rest)
  end.

Context `{Floats}.

Definition redactJSONObject (source : string) : result Code string :=
  match unmarshal_any source with
  | Some (AObj members) => Ok (marshal_any (redactValue (AObj members)))
  | _ => Err CodeInvalidRequest
  end.

(** [null] decodes into an empty map. *)
Definition redactMetadata (source : string) : result Code string :=
  match unmarshal_any source with
  | Some (AObj members) =>
      redacted ← redact_members members; Ok (marshal_any (AObj redacted))
  | Some ANull => Ok (marshal_any (AObj []))
  | _ => Err CodeInvalidRequest
  end.
End keys.

(** ** Lemmas *)

Section any_induction.
Variable P : any -> Prop.
Hypothesis Hnull : P ANull.
Hypothesis Hbool : forall b, P (ABool b).
Hypothesis Hnum : forall t, P (ANum t).
Hypothesis Hstr : forall s, P (AStr s).
Hypothesis Harr : forall l, Forall P l -> P (AArr l).
Hypothesis Hobj : forall l, Forall (fun kv => P kv.2) l -> P (AObj l).

Fixpoint any_induction (a : any) : P a :=
  match a with
  | ANull => Hnull
  | ABool b => Hbool b
  | ANum t => Hnum t
  | AStr s => Hstr s
  | AArr l =>
      Harr l ((fix go l : Forall P l :=
        match l with [] => Forall_nil_2 P | v :: r => Forall_cons_2 P v r (any_induction v) (go r) end) l)
  | AObj l =>
      Hobj l ((fix go l : Forall (fun kv => P kv.2) l :=
        match l with
        | [] => Forall_nil_2 _
        | kv :: r => Forall_cons_2 _ kv r (any_induction kv.2) (go r)
        end) l)
  end.
End any_induction.

(** The value a path of keys leads to. *)
Fixpoint at_path (path : list string) (a : any) : option any :=
  match path with
  | [] => Some a
  | k :: path =>
      match a with
      | AObj members => kv ← find_first (fun kv => kv.1 ==? k) members; at_path path kv.2
      | _ => None
      end
  end.

(** ** Masking

    The traversal that hides the values under sensitive keys and rewrites the
    other strings, with the facts every use of it needs. *)
Section masking.
Variables (sensitive : string -> bool) (mark : string) (leaf : string -> string).
Hypothesis leaf_idem : forall s, leaf (leaf s) = leaf s.

Fixpoint masked (a : any) : any :=
  match a with
  | AObj members =>
      AObj (map (fun kv => (kv.1, if sensitive kv.1 then AStr mark else masked kv.2)) members)
  | AArr items => AArr (map masked items)
  | AStr s => AStr (leaf s)
  | _ => a
  end.

(** No member with a sensitive key keeps a value, at any depth, and every other
    string is a rewritten one. *)
Fixpoint covered (a : any) : Prop :=
  match a with
  | AArr items => foldr and True (map covered items)
  | AObj members =>
      foldr and True (map (fun kv => if sensitive kv.1 then kv.2 = AStr mark else covered kv.2) members)
  | AStr s => leaf s = s
  | _ => True
  end.

Lemma masked_covered a : covered (masked a).
Proof.
  induction a as [| | | |l IH|l IH] using any_induction; simpl; try done.
  - rewrite map_map. induction IH as [|a l Ha _ IHl]; simpl; [done|by split].
  - rewrite map_map. induction IH as [|[k a] l Ha _ IHl]; simpl; [done|]. split; [|done].
    by destruct (sensitive k).
Qed.

Lemma masked_id a : covered a -> masked a = a.
Proof.
  induction a as [| | |s|l IH|l IH] using any_induction; simpl; try done.
  - by intros ->.
  - intros Hc. f_equal. induction IH as [|a l Ha _ IHl]; simpl in *; [done|].
    destruct Hc as [Hc1 Hc2]. by rewrite Ha, IHl.
  - intros Hc. f_equal. induction IH as [|[k a] l Ha _ IHl]; simpl in *; [done|].
    destruct Hc as [Hc1 Hc2]. rewrite IHl by done. do 2 f_equal.
    destruct (sensitive k); [done|]. by rewrite Ha.
Qed.

Lemma find_first_masked members k :
  find_first (fun kv : string * any => kv.1 ==? k)
    (map (fun kv => (kv.1, if sensitive kv.1 then AStr mark else masked kv.2)) members) =
  (fun kv => (kv.1, if sensitive kv.1 then AStr mark else masked kv.2)) <$>
    find_first (fun kv => kv.1 ==? k) members.
Proof. induction members as [|[k' v] l IH]; simpl; [done|]. by case_bool_decide. Qed.

Lemma at_path_masked path a :
  forallb (fun k => negb (sensitive k)) path = true ->
  at_path path (masked a) = masked <$> at_path path a.
Proof.
  revert a. induction path as [|k path IH]; intros a Hp; [done|]. simpl in Hp. bools.
  destruct a as [| | | | |members]; simpl; try done.
  rewrite find_first_masked. destruct (find_first _ members) as [[k' v]|] eqn:E; simpl; [|done].
  apply find_first_Some in E as [_ Hk]. simpl in Hk. bools. subst k'.
  match goal with H : sensitive k = false |- _ => rewrite H end. by apply IH.
Qed.

Lemma masked_depth a : Json.jdepth (encode_any (masked a)) <= Json.jdepth (encode_any a).
Proof.
  induction a as [| | | |l IH|l IH] using any_induction; try done.
  - cbn [masked encode_any Json.jdepth]. rewrite !map_map.
    induction IH as [|a l Ha _ IHl]; simpl; lia.
  - cbn [masked encode_any Json.jdepth]. rewrite !map_map.
    induction IH as [|[k a] l Ha _ IHl]; simpl; [lia|].
    assert (Json.jdepth (encode_any (if sensitive k then AStr mark else masked a)) <=
      Json.jdepth (encode_any a)) by (destruct (sensitive k); [apply Json.jdepth_pos|exact Ha]).
    simpl in *. lia.
Qed.
End masking.

(** No member with a sensitive key keeps a value, at any depth. *)
Definition clean `{Unicode} : any -> Prop := covered isSensitiveKey Redacted id.

Lemma redactValue_masked `{Unicode} a : redactValue a = masked isSensitiveKey Redacted id a.
Proof.
  induction a as [| | | |l IH|l IH] using any_induction; simpl; try done.
  - f_equal. induction IH as [|a l Ha _ IHl]; simpl; [done|]. by rewrite Ha, IHl.
  - f_equal. induction IH as [|[k a] l Ha _ IHl]; simpl in *; [done|]. by rewrite Ha, IHl.
Qed.

(** ** Re-reading what was written *)

(** The text of a number is a JSON number that reads as itself. *)
Class FloatLaws `{Floats} := {
  float_text_ok lit t : float_text lit = Some t -> Json.num_ok t;
  float_text_idem lit t : float_text lit = Some t -> float_text t = Some t;
}.

(** Numbers whose text is already what they print as. *)
Definition plain_floats : Floats :=
  {| float_text := fun lit => if bool_decide (Json.lex_num lit = Some (lit, "")) then Some lit else None |}.

Lemma plain_floats_laws : @FloatLaws plain_floats.
Proof.
  constructor; intros lit t; simpl; case_bool_decide; intros; simplify_eq; [done|].
  by rewrite bool_decide_eq_true_2.
Qed.

Definition key_lt {A} (x y : string * A) : Prop := String.compare x.1 y.1 = Lt.

#[export] Instance key_lt_trans {A} : Transitive (key_lt (A := A)).
Proof. intros x y z. unfold key_lt. apply compare_trans. Qed.

Section members.
Context {A : Type}.
Implicit Types m : list (string * A).

Lemma put_member_elem k v m x : x ∈ put_member k v m -> x = (k, v) \/ x ∈ m.
Proof.
  induction m as [|[k' v'] m IH]; simpl.
  - rewrite list_elem_of_singleton. auto.
  - destruct (String.compare k k'); rewrite !elem_of_cons; naive_solver.
Qed.

Lemma put_member_sorted k v m : StronglySorted key_lt m -> StronglySorted key_lt (put_member k v m).
Proof.
  induction 1 as [|[k' v'] m Hs IH Hall]; simpl; [repeat constructor|].
  destruct (String.compare k k') eqn:E.
  - apply compare_eq in E as ->. by constructor.
  - constructor; [by constructor|]. constructor; [done|].
    eapply Forall_impl; [exact Hall|]. intros x Hx. by apply (key_lt_trans (k, v) (k', v')).
  - constructor; [done|]. apply Forall_forall. intros x [->|Hx]%put_member_elem.
    + unfold key_lt. simpl. rewrite compare_sym, E. done.
    + by eapply Forall_forall in Hall.
Qed.

Lemma put_member_last k v m :
  Forall (fun x => String.compare x.1 k = Lt) m -> put_member k v m = m ++ [(k, v)].
Proof.
  induction 1 as [|[k' v'] m Hx _ IH]; simpl in *; [done|].
  rewrite compare_sym, Hx. simpl. by rewrite IH.
Qed.
End members.

Section reread.
Context `{Hf : Floats} `{!FloatLaws}.

(** What decoding gives. *)
Fixpoint good (a : any) : Prop :=
  match a with
  | ANum t => Json.num_ok t /\ float_text t = Some t
  | AStr s => valid_utf8 s = true
  | AArr items => foldr and True (map good items)
  | AObj members =>
      StronglySorted key_lt members /\
      foldr and True (map (fun kv => valid_utf8 kv.1 = true /\ good kv.2) members)
  | _ => True
  end.

Lemma good_members members :
  foldr and True (map (fun kv => valid_utf8 kv.1 = true /\ good kv.2) members) <->
  forall kv, kv ∈ members -> valid_utf8 kv.1 = true /\ good kv.2.
Proof.
  induction members as [|kv l IH]; simpl.
  - split; [intros _ kv Hkv; by apply not_elem_of_nil in Hkv|done].
  - setoid_rewrite elem_of_cons. rewrite IH. naive_solver.
Qed.

(** The two loops of [decode_any]. *)
Fixpoint decode_items (items : list Json.json) : option (list any) :=
  match items with
  | [] => Some []
  | v :: rest => a ← decode_any v; l ← decode_items rest; Some (a :: l)
  end.

Fixpoint decode_fields (fields : list (string * Json.json)) (m : list (string * any))
    : option (list (string * any)) :=
  match fields with
  | [] => Some m
  | (raw, v) :: rest => k ← Json.unquote raw; a ← decode_any v; decode_fields rest (put_member k a m)
  end.

Lemma decode_any_arr items : decode_any (Json.JArr items) = AArr <$> decode_items items.
Proof. done. Qed.
Lemma decode_any_obj fields : decode_any (Json.JObj fields) = AObj <$> decode_fields fields [].
Proof. done. Qed.

Lemma decode_any_good v a : decode_any v = Some a -> good a.
Proof.
  revert a. induction v as [|b|lit|raw|l IH|l IH] using Json.json_induction; intros a Ha.
  - by simplify_eq/=.
  - by simplify_eq/=.
  - simpl in Ha. apply fmap_Some in Ha as (t & Ht & ->). simpl.
    eauto using float_text_ok, float_text_idem.
  - simpl in Ha. apply fmap_Some in Ha as (t & Ht & ->). by eapply Json.unquote_valid.
  - rewrite decode_any_arr in Ha. apply fmap_Some in Ha as (t & Ht & ->). simpl.
    revert t Ht. induction IH as [|v l Hv _ IHl]; intros t Ht; simpl in Ht; [by simplify_eq|].
    apply bind_Some in Ht as (a & Ha & Ht). apply bind_Some in Ht as (k & Hk & Ht). simplify_eq.
    simpl. split; [by apply Hv|by apply IHl].
  - rewrite decode_any_obj in Ha. apply fmap_Some in Ha as (t & Ht & ->). cbn [good].
    rewrite good_members.
    assert (forall m t, decode_fields l m = Some t ->
      StronglySorted key_lt m -> (forall kv, kv ∈ m -> valid_utf8 kv.1 = true /\ good kv.2) ->
      StronglySorted key_lt t /\ forall kv, kv ∈ t -> valid_utf8 kv.1 = true /\ good kv.2) as Hgo.
    { clear t Ht. induction IH as [|[raw v] l Hv _ IHl]; intros m t Ht Hs Hm; simpl in Ht; [by simplify_eq|].
      apply bind_Some in Ht as (k & Hk & Ht). apply bind_Some in Ht as (a & Ha & Ht).
      eapply IHl; [exact Ht|by apply put_member_sorted|].
      intros kv [->|Hkv]%put_member_elem; [|by apply Hm]. simpl. split; [by eapply Json.unquote_valid|].
      by apply Hv. }
    apply (Hgo [] t Ht); [constructor|]. intros kv Hkv. by apply not_elem_of_nil in Hkv.
Qed.

Lemma decode_encode a : good a -> decode_any (encode_any a) = Some a.
Proof.
  induction a as [|b|t|s|l IH|l IH] using any_induction; intros Hg.
  - done.
  - done.
  - simpl. destruct Hg as [_ Ht]. by rewrite Ht.
  - simpl. unfold Json.of_string. rewrite Json.unquote_quote by done. done.
  - cbn [encode_any]. rewrite decode_any_arr. simpl in Hg.
    assert (decode_items (map encode_any l) = Some l) as ->; [|done].
    induction IH as [|a l Ha _ IHl]; [done|]. destruct Hg as [H1 H2]. simpl.
    rewrite Ha by done. simpl. by rewrite IHl.
  - cbn [encode_any]. rewrite decode_any_obj. cbn [good] in Hg. rewrite good_members in Hg.
    destruct Hg as [Hs Hm].
    assert (forall acc, StronglySorted key_lt (acc ++ l) ->
      decode_fields (map (fun kv => (Json.quote_body kv.1, encode_any kv.2)) l) acc = Some (acc ++ l)) as Hgo.
    { clear Hs. induction IH as [|[k a] l Ha _ IHl]; intros acc Hs; simpl; [by rewrite app_nil_r|].
      destruct (Hm (k, a) ltac:(left)) as [Hk Hga]. simpl in *.
      rewrite Json.unquote_quote by done. simpl. rewrite Ha by done. simpl.
      rewrite put_member_last.
      - rewrite IHl; [by rewrite <- app_assoc|intros kv Hkv; apply Hm; by right|by rewrite <- app_assoc].
      - apply Forall_forall. intros x Hx. exact (StronglySorted_app_1_elem_of _ _ _ x (k, a) Hs Hx ltac:(left)). }
    by rewrite (Hgo []).
Qed.

Lemma good_wf a : good a -> Json.wf (encode_any a).
Proof.
  induction a as [|b|t|s|l IH|l IH] using any_induction; intros Hg; try done.
  - by destruct Hg.
  - apply Json.wf_of_string.
  - simpl in *. induction IH as [|a l Ha _ IHl]; simpl in *; [done|]. destruct Hg. split; auto.
  - cbn [good] in Hg. destruct Hg as [_ Hm]. simpl.
    induction IH as [|[k a] l Ha _ IHl]; simpl in *; [done|]. destruct Hm as [[_ Hg] Hm].
    split; [|by apply IHl]. split; [apply Json.quote_body_raw|by apply Ha].
Qed.

(** Decoding an object never nests deeper than its text. *)
Lemma decode_depth v a : decode_any v = Some a -> Json.jdepth (encode_any a) <= Json.jdepth v.
Proof.
  revert a. induction v as [|b|lit|raw|l IH|l IH] using Json.json_induction; intros a Ha.
  - by simplify_eq/=.
  - by simplify_eq/=.
  - simpl in Ha. apply fmap_Some in Ha as (t & Ht & ->). done.
  - simpl in Ha. apply fmap_Some in Ha as (t & Ht & ->). done.
  - rewrite decode_any_arr in Ha. apply fmap_Some in Ha as (t & Ht & ->). cbn [encode_any Json.jdepth].
    enough (foldr Z.max 0 (map Json.jdepth (map encode_any t)) <= foldr Z.max 0 (map Json.jdepth l)) by lia.
    revert t Ht. induction IH as [|v l Hv _ IHl]; intros t Ht; simpl in Ht; [by simplify_eq|].
    apply bind_Some in Ht as (a & Ha & Ht). apply bind_Some in Ht as (k & Hk & Ht). simplify_eq.
    specialize (Hv a Ha). specialize (IHl k Hk). simpl. lia.
  - rewrite decode_any_obj in Ha. apply fmap_Some in Ha as (t & Ht & ->). cbn [encode_any Json.jdepth].
    rewrite map_map. simpl.
    set (deep := fun m : list (string * any) => foldr Z.max 0 (map (fun kv => Json.jdepth (encode_any kv.2)) m)).
    assert (Hput : forall k a m, deep (put_member k a m) <= Z.max (Json.jdepth (encode_any a)) (deep m)).
    { intros k a m. unfold deep. induction m as [|[k' a'] m IHm]; simpl; [lia|].
      destruct (String.compare k k'); simpl in *; lia. }
    enough (forall m t, decode_fields l m = Some t ->
      deep t <= Z.max (deep m) (foldr Z.max 0 (map (fun kv => Json.jdepth kv.2) l))) as Hgo.
    { specialize (Hgo [] t Ht). unfold deep in *. simpl in *.
      assert (0 <= foldr Z.max 0 (map (fun kv : string * Json.json => Json.jdepth kv.2) l))
        by (clear; induction l; simpl; lia). lia. }
    clear t Ht. induction IH as [|[raw v] l Hv _ IHl]; intros m t Ht; simpl in Ht; [simplify_eq; simpl; lia|].
    apply bind_Some in Ht as (k & Hk & Ht). apply bind_Some in Ht as (a & Ha & Ht).
    specialize (IHl _ _ Ht). specialize (Hput k a m). specialize (Hv a Ha). simpl in *. lia.
Qed.

Lemma unmarshal_marshal a :
  good a -> Json.jdepth (encode_any a) <= Json.max_nesting -> unmarshal_any (marshal_any a) = Some a.
Proof.
  intros Hg Hd. unfold unmarshal_any, marshal_any. rewrite Json.parse_print by auto using good_wf.
  simpl. by apply decode_encode.
Qed.

Lemma unmarshal_any_spec source a :
  unmarshal_any source = Some a -> good a /\ Json.jdepth (encode_any a) <= Json.max_nesting.
Proof.
  unfold unmarshal_any. intros (v & Hp & Hd)%bind_Some. split; [by eapply decode_any_good|].
  apply decode_depth in Hd. apply Json.parse_shallow in Hp. lia.
Qed.
End reread.

(** ** Properties *)

Section properties.
Context `{Unicode} `{Floats} `{!FloatLaws}.

Lemma masked_good sensitive mark leaf a :
  valid_utf8 mark = true -> (forall s, valid_utf8 s = true -> valid_utf8 (leaf s) = true) ->
  good a -> good (masked sensitive mark leaf a).
Proof.
  intros Hmark Hleaf.
  assert (Hsorted : forall (f : string -> any -> any) l, StronglySorted key_lt l ->
    StronglySorted key_lt (map (fun kv => (kv.1, f kv.1 kv.2)) l)).
  { intros f l. induction 1 as [|kv l Hs IHs Hall]; simpl; constructor; [done|].
    apply Forall_forall. intros x (y & -> & Hy)%list_elem_of_fmap.
    exact (proj1 (Forall_forall _ _) Hall y Hy). }
  induction a as [| | | |l IH|l IH] using any_induction; intros Hg; try done.
  - by apply Hleaf.
  - simpl in *. induction IH as [|a l Ha _ IHl]; simpl in *; [done|]. destruct Hg. split; auto.
  - cbn [good masked] in *. rewrite good_members in *. destruct Hg as [Hs Hm]. split.
    + exact (Hsorted (fun k v => if sensitive k then AStr mark else masked sensitive mark leaf v) l Hs).
    + intros kv' (kv & -> & Hkv)%list_elem_of_fmap. destruct (Hm kv Hkv) as [Hu Hg]. simpl.
      split; [done|]. destruct (sensitive kv.1); [done|].
      exact (proj1 (Forall_forall _ _) IH kv Hkv Hg).
Qed.

(** C36. What reaches the ledger: if a JSON field is accepted, the text stored is
    that of an object in which no member with a sensitive key, at any depth,
    keeps a value; along keys that are not sensitive every value is the one the
    source had; and redacting the stored text again - as an export does -
    gives the same text. *)
Theorem redactJSONObject_spec source out :
  redactJSONObject source = Ok out ->
  exists a b,
    unmarshal_any source = Some a /\ unmarshal_any out = Some b /\ b = redactValue a /\ clean b /\
    (forall path, forallb (fun k => negb (isSensitiveKey k)) path = true ->
      forall v, at_path path a = Some v -> at_path path b = Some (redactValue v)) /\
    redactJSONObject out = Ok out.
Proof.
  unfold redactJSONObject. destruct (unmarshal_any source) as [[| | | | |members]|] eqn:E; try done.
  intros [= <-]. set (b := redactValue (AObj members)). exists (AObj members), b.
  apply unmarshal_any_spec in E as [Hg Hd].
  assert (b = masked isSensitiveKey Redacted id (AObj members)) as Eb by apply redactValue_masked.
  assert (clean b) as Hc by (rewrite Eb; by apply masked_covered).
  assert (Hb : unmarshal_any (marshal_any b) = Some b).
  { apply unmarshal_marshal; rewrite Eb; [by apply masked_good|]. etrans; [apply masked_depth|done]. }
  assert (Hre : redactJSONObject (marshal_any b) = Ok (marshal_any b)).
  { unfold redactJSONObject. rewrite Hb.
    change (Ok (E := Code) (marshal_any (redactValue b)) = Ok (marshal_any b)).
    by rewrite redactValue_masked, masked_id. }
  split_and!; try done.
  intros path Hp v Hv. by rewrite Eb, at_path_masked, Hv, redactValue_masked.
Qed.

Definition scalar_ok (a : any) : Prop :=
  match a with
  | AStr s => (String.length s <= maxMetadataValueLength + String.length Truncated)%nat
  | ANum _ | ABool _ | ANull => True
  | _ => False
  end.

Lemma redacted_scalar : scalar_ok (AStr Redacted).
Proof. apply Nat.leb_le. reflexivity. Qed.

Lemma take_str_length n s : (String.length (take_str n s) <= n)%nat.
Proof. revert s. induction n as [|n IH]; intros [|c s]; simpl; try lia. specialize (IH s). lia. Qed.

#[local] Opaque take_str maxMetadataValueLength.

Lemma redact_members_spec members out :
  redact_members members = Ok out ->
  map fst out = map fst members /\
  forall kv, kv ∈ out -> scalar_ok kv.2 /\
    (if isSensitiveKey kv.1 then kv.2 = AStr Redacted
     else exists v, (kv.1, v) ∈ members /\ flatMetadataValue v = Ok kv.2).
Proof.
  revert out. induction members as [|[k v] l IH]; intros out Ho; simpl in Ho.
  - injection Ho as <-. split; [done|]. intros kv Hkv. by apply not_elem_of_nil in Hkv.
  - apply bind_Ok in Ho as (a & Ha & Ho). apply bind_Ok in Ho as (rest & Hr & Ho). injection Ho as <-.
    destruct (IH _ Hr) as [Hk Hkv]. split; [simpl; by rewrite Hk|].
    intros kv [->|Hin]%elem_of_cons.
    + simpl. destruct (isSensitiveKey k); [injection Ha as <-; split; [apply redacted_scalar|done]|].
      split; [|exists v; split; [left|done]]. unfold flatMetadataValue in Ha.
      destruct v as [| | |s| |]; simplify_eq; try done. cbn [snd scalar_ok].
      destruct (maxMetadataValueLength <? String.length s)%nat eqn:E.
      * rewrite str_length_app. apply Nat.add_le_mono_r, take_str_length.
      * apply Nat.ltb_ge in E. etrans; [exact E|apply Nat.le_add_r].
    + destruct (Hkv kv Hin) as [Hs Hm]. split; [done|]. destruct (isSensitiveKey kv.1); [done|].
      destruct Hm as (w & Hw & He). exists w. split; [by right|done].
Qed.

(** The metadata of an event is flat and short: if it is accepted, the text
    stored is that of an object with the members of the source, each a scalar,
    a string no longer than 512 bytes and the mark; a sensitive key has lost
    its value; any other member is the source's, cut if it was longer. A member
    that is an object or an array refuses the event. *)
Theorem redactMetadata_spec source out :
  redactMetadata source = Ok out ->
  exists members redacted,
    (unmarshal_any source = Some (AObj members) \/
     unmarshal_any source = Some ANull /\ members = []) /\
    out = marshal_any (AObj redacted) /\ map fst redacted = map fst members /\
    forall k v, (k, v) ∈ redacted -> scalar_ok v /\
      (if isSensitiveKey k then v = AStr Redacted
       else exists w, (k, w) ∈ members /\ flatMetadataValue w = Ok v).
Proof.
  unfold redactMetadata. destruct (unmarshal_any source) as [[| | | | |members]|] eqn:E; try done.
  - intros [= <-]. exists [], []. split_and!; [by right|done|done|].
    intros k v Hkv. by apply not_elem_of_nil in Hkv.
  - intros Ho. apply bind_Ok in Ho as (redacted & Hr & Ho). injection Ho as <-.
    apply redact_members_spec in Hr as [Hk Hkv]. exists members, redacted.
    split_and!; [by left|done|done|]. intros k v Hin. by apply (Hkv (k, v)).
Qed.
End properties.
