(* ===== verification/Response.v ===== *)
(** * adapter/registry: what a response may return (redact.go)

    Of an outside service's answer only the declared fields go back, with every
    value under a sensitive key replaced at any depth and URLs freed of query
    strings that carry one. Logs are text and are redacted as text; github's own
    token shapes come first (github/adapter.go). *)
From S2P Require Import Prelude GoStr Apperr.
From S2P Require Json.
From S2P Require Import Intent Redact Url Registry.
Open Scope Z_scope.

Definition RedactedMarker : string := "[redacted]".

Definition redactionWords : list string :=
  [ "authorization"; "cookie"; "token"; "apikey"; "password"; "secret"; "privatekey"; "credential" ].

(** ** The result of an operation *)

Record ResourceChange := {
  Resource : string;
  Field_ : string;
  Before : string;
  After : string;
}.

Record ResultError := {
  err_Code : string;
  err_Message : string;
}.

(** [json.RawMessage] is the value it is the text of. *)
Record Result := {
  OK : bool;
  OperationID : string;
  Data : option Json.json;
  Changes : list ResourceChange;
  Error : option ResultError;
  UpstreamStatus : Z;
}.

Definition FromUpstream (r : Result) (status : Z) : Result :=
  {| OK := OK r; OperationID := OperationID r; Data := Data r; Changes := Changes r;
     Error := Error r; UpstreamStatus := status |}.

Definition Success (operationID : string) (data : option Json.json) (changes : list ResourceChange) : Result :=
  {| OK := true; OperationID := operationID; Data := data; Changes := changes; Error := None;
     UpstreamStatus := 0 |}.

(** [PublicOf]: the code and its fixed text. Errors that carry an operation
    carry this one. *)
Definition Failure (operationID : string) (err : Code) : Result :=
  {| OK := false; OperationID := operationID; Data := None; Changes := [];
     Error := Some {| err_Code := code_name err; err_Message := message_of err |};
     UpstreamStatus := 0 |}.

(** ** Keys and URLs *)

Section redact.
Context `{Unicode} `{Addresses}.

Definition normalize (key : string) : string := remove_chars "-_ " (to_lower key).

Definition normalizeAll (keys : list string) : list string := map normalize keys.

Definition sensitiveKey (key : string) (extra : list string) : bool :=
  existsb (fun word => contains (normalize key) word) redactionWords ||
  existsb (fun word => (word !=? "") && contains (normalize key) word) extra.

(** A text that is no URL, or whose query is malformed, is returned as it is. *)
Definition scrubURL (value : string) : string :=
  if negb (contains value "?") then value
  else
    match Parse value with
    | None => value
    | Some parsed =>
        if RawQuery parsed ==? "" then value
        else if existsb (fun kv => sensitiveKey kv.1 []) (Query parsed) then
          String_ (with_raw_query parsed "")
        else value
    end.

(** ** JSON *)

Fixpoint scrub (extra : list string) (value : any) : any :=
  match value with
  | AObj members =>
      AObj (map (fun kv =>
        (kv.1, if sensitiveKey kv.1 extra then AStr RedactedMarker else scrub extra kv.2)) members)
  | AArr items => AArr (map (scrub extra) items)
  | AStr s => AStr (scrubURL s)
  | _ => value
  end.

Definition pickAllowed (allowed : list string) (extra : list string) (object : list (string * any))
    : list (string * any) :=
  map (fun kv =>
    (kv.1, if sensitiveKey kv.1 extra then AStr RedactedMarker else scrub extra kv.2))
    (List.filter (fun kv => one_of kv.1 allowed) object).

Definition is_object (value : any) : option (list (string * any)) :=
  match value with AObj members => Some members | _ => None end.

Definition filterTop (allowed extra : list string) (decoded : any) : option any :=
  match decoded with
  | AObj members => Some (AObj (pickAllowed allowed extra members))
  | AArr items =>
      objects ← mapM is_object items;
      Some (AArr (map (fun members => AObj (pickAllowed allowed extra members)) objects))
  | _ => None
  end.

Context `{Floats}.

(** Nothing for an empty body. *)
Definition Redact (body : string) (capability : Capability) : result Code (option Json.json) :=
  if body ==? "" then Ok None
  else
    match unmarshal_any body with
    | None => Err CodeInternal
    | Some decoded =>
        match filterTop (ResponseFields capability)
                (normalizeAll (default [] (RedactionRules capability))) decoded with
        | None => Err CodeInternal
        | Some filtered => Ok (Some (encode_any filtered))
        end
    end.
End redact.

(** ** Text

    The four regular expressions, as functions from a text to the match at its
    start. Each consists of classes that do not overlap with what follows them,
    so that a match is found without trying alternatives; [`\s`] is the five ASCII
    blanks. *)

Definition blank_char (c : ascii) : bool :=
  let b := byte_of c in in_range 9 10 b || in_range 12 13 b || (b =? 32).
Definition word_char (c : ascii) : bool := alphanumeric c || ascii_in "_-" c.
Definition line_end (c : ascii) : bool := (byte_of c =? 10) || (byte_of c =? 13).

(** The longest prefix in a class, and the rest. *)
Fixpoint span (p : ascii -> bool) (s : string) : string * string :=
  match s with
  | "" => ("", "")
  | String c r => if p c then let '(a, b) := span p r in (String c a, b) else ("", s)
  end.

(** [http] or [https], [://], and at least one character that is no blank, quote
    or angle bracket. *)
Definition url_char (c : ascii) : bool :=
  negb (blank_char c || ascii_in "'<>" c || (byte_of c =? 34)).

Definition urlToken (s : string) : option (string * string) :=
  let head := if has_prefix s "https://" then Some "https://"
              else if has_prefix s "http://" then Some "http://" else None in
  match head with
  | None => None
  | Some h =>
      let '(rest, after) := span url_char (drop_str (String.length h) s) in
      if rest ==? "" then None else Some (h +:+ rest, after)
  end.

(** The key, what stands between it and the value, the value, and the rest. *)
Record assignment := { key : string; between : string; value : string; after : string }.

(** [`([A-Za-z0-9_\-]+)\s*=\s*([^\s&]+)`] *)
Definition equalsAssignment (s : string) : option assignment :=
  let '(k, s1) := span word_char s in
  let '(b1, s2) := span blank_char s1 in
  match s2 with
  | String c s3 =>
      if (k !=? "") && (c ==? "="%char) then
        let '(b2, s4) := span blank_char s3 in
        let '(v, rest) := span (fun c => negb (blank_char c || (c ==? "&"%char))) s4 in
        if v ==? "" then None
        else Some {| key := k; between := b1 +:+ String c b2; value := v; after := rest |}
      else None
  | "" => None
  end.

(** The blanks after a colon give one back when nothing follows them: the last
    one that does not end a line starts the value. *)
Fixpoint colon_value (blanks s : string) : option (string * string) :=
  match s with
  | String _ _ => Some (blanks, s)
  | "" =>
      match blanks with
      | "" => None
      | String c r =>
          match colon_value r "" with
          | Some (b, v) => Some (String c b, v)
          | None => if line_end c then None else Some ("", blanks)
          end
      end
  end.

(** [`([A-Za-z0-9_\-]+)\s*:\s*([^\r\n]+)`] *)
Definition colonAssignment (s : string) : option assignment :=
  let '(k, s1) := span word_char s in
  let '(b1, s2) := span blank_char s1 in
  match s2 with
  | String c s3 =>
      if (k !=? "") && (c ==? ":"%char) then
        let '(b2, s4) := span blank_char s3 in
        match colon_value b2 s4 with
        | None => None
        | Some (b2, s4) =>
            let '(v, rest) := span (fun c => negb (line_end c)) s4 in
            Some {| key := k; between := b1 +:+ String c b2; value := v; after := rest |}
        end
      else None
  | "" => None
  end.

(** [ReplaceAllStringFunc]: what the match at the start becomes and where to go
    on, else the next character. The fuel is the length of the text plus one. *)
Fixpoint replace_from (fuel : nat) (step : string -> option (string * string)) (s : string) : string :=
  match fuel with
  | O => s
  | S fuel =>
      match step s with
      | Some (replaced, rest) => replaced +:+ replace_from fuel step rest
      | None =>
          match s with
          | "" => ""
          | String c r => String c (replace_from fuel step r)
          end
      end
  end.

Definition replace_all (step : string -> option (string * string)) (s : string) : string :=
  replace_from (S (String.length s)) step s.

Section text.
Context `{Unicode} `{Addresses}.

Definition mask (extra : list string) (found : assignment) : string * string :=
  (key found +:+ between found +:+
     (if sensitiveKey (key found) extra then RedactedMarker else value found), after found).

Definition maskAssignments (text : string) (pattern : string -> option assignment) (extra : list string) : string :=
  replace_all (fun s => mask extra <$> pattern s) text.

Definition RedactText (text : string) (extra : list string) : string :=
  let extra := normalizeAll extra in
  let text := replace_all (fun s => (fun '(url, rest) => (scrubURL url, rest)) <$> urlToken s) text in
  let text := maskAssignments text equalsAssignment extra in
  maskAssignments text colonAssignment extra.

(** [`gh[pousr]_[A-Za-z0-9]{16,}|github_pat_[A-Za-z0-9_]{20,}`] *)
Definition githubTokenPattern (s : string) : option (string * string) :=
  let token (p : ascii -> bool) (least : nat) (rest : string) :=
    let '(v, after) := span p rest in
    if (least <=? String.length v)%nat then Some (v, after) else None in
  match s with
  | String "g" (String "h" (String c (String "_" rest))) =>
      if ascii_in "pousr" c then token alphanumeric 16%nat rest else None
  | _ =>
      if has_prefix s "github_pat_" then
        token (fun c => alphanumeric c || (c ==? "_"%char)) 20%nat (drop_str 11 s)
      else None
  end.

Definition RedactActionsLog (text : string) (extraRules : list string) : string :=
  RedactText (replace_all (fun s => (fun '(_, rest) => (RedactedMarker, rest)) <$> githubTokenPattern s) text)
    extraRules.
End text.

Section text_samples.
#[local] Existing Instance ascii_only.
#[local] Existing Instance no_addresses.

Example redact_text_samples :
  RedactText "token=abc password: hunter2" [] = "token=[redacted] password: [redacted]" /\
  RedactText "see https://h/p?token=abc&x=1 now" [] = "see https://h/p now" /\
  RedactText "x=token=abc" [] = "x=token=abc" /\
  RedactText "2024-05-01T12:34:56Z Authorization: Bearer abc" [] =
    "2024-05-01T12:34:56Z Authorization: Bearer abc" /\
  RedactText "secret: " [] = "secret:[redacted]" /\
  RedactActionsLog "a ghp_0123456789abcdef0123 b" [] = "a [redacted] b".
Proof. by split_and!; vm_compute. Qed.
End text_samples.

(** ** URLs freed of queries *)

Section urls.
Context `{Unicode} `{Addresses}.

(** No recognised setting of a query has a sensitive key. *)
Definition url_clean (s : string) : Prop :=
  forall u, Parse s = Some u -> existsb (fun kv => sensitiveKey kv.1 []) (Query u) = false.

Lemma scrubURL_clean s : url_clean (scrubURL s).
Proof.
  unfold scrubURL. destruct (contains s "?") eqn:Hc; cbn [negb].
  - destruct (Parse s) as [u|] eqn:Ep; [|by intros ? [=]%(eq_trans (eq_sym Ep))].
    destruct (RawQuery u ==? "") eqn:Eq; bools.
    + intros u' Hu'. simplify_eq. by rewrite Query_none.
    + destruct (existsb _ (Query u)) eqn:Ee; [|intros u' Hu'; by simplify_eq].
      destruct (without_query _ _ Ep Eq) as [_ Hr]. intros u' Hu'. by rewrite Query_none by auto.
  - intros u Hu. rewrite Query_none; [done|]. apply (Parse_no_query s); [|done].
    by rewrite <- contains_byte.
Qed.

Lemma scrubURL_fixed s : url_clean s -> scrubURL s = s.
Proof.
  intros Hs. unfold scrubURL. destruct (negb _); [done|]. destruct (Parse s) as [u|] eqn:Ep; [|done].
  destruct (_ ==? _); [done|]. by rewrite (Hs u Ep).
Qed.

Lemma scrubURL_idem s : scrubURL (scrubURL s) = scrubURL s.
Proof. apply scrubURL_fixed, scrubURL_clean. Qed.

Lemma scrubURL_valid s : valid_utf8 s = true -> valid_utf8 (scrubURL s) = true.
Proof.
  intros Hs. unfold scrubURL. destruct (negb _); [done|]. destruct (Parse s) as [u|] eqn:Ep; [|done].
  destruct (RawQuery u ==? "") eqn:Eq; [done|]. bools. destruct (existsb _ _); [|done].
  by apply (without_query _ _ Ep Eq).
Qed.

(** ** JSON answers *)

Lemma scrub_masked extra a :
  scrub extra a = masked (fun k => sensitiveKey k extra) RedactedMarker scrubURL a.
Proof.
  induction a as [| | | |l IH|l IH] using any_induction; simpl; try done.
  - f_equal. induction IH as [|a l Ha _ IHl]; simpl; [done|]. by rewrite Ha, IHl.
  - f_equal. induction IH as [|[k a] l Ha _ IHl]; simpl in *; [done|]. by rewrite Ha, IHl.
Qed.
End urls.

(** What is left of an object before anything in it is hidden. *)
Definition restricted (allowed : list string) (members : list (string * any)) : any :=
  AObj (List.filter (fun kv => one_of kv.1 allowed) members).

Lemma mapM_objects items objects : mapM is_object items = Some objects <-> items = map AObj objects.
Proof.
  revert objects. induction items as [|a items IH]; intros [|o objects]; cbn; try done.
  - destruct (is_object a); cbn; [|done]. by destruct (mapM is_object items).
  - split.
    + intros (o' & Ha & Hi)%bind_Some. apply bind_Some in Hi as (k & Hk & [= -> ->]).
      destruct a; try done. injection Ha as ->. f_equal. by apply IH.
    + intros [= -> ->]. cbn. by rewrite (proj2 (IH objects) eq_refl).
Qed.

Section answers.
Context `{Unicode} `{Addresses} `{Hfl : Floats} `{!FloatLaws}.
Variables (allowed extra : list string).

Definition hidden : any -> any := masked (fun k => sensitiveKey k extra) RedactedMarker scrubURL.

(** How an object of the answer and the object it was made from are related:
    only declared fields; every value below one, along keys that are not
    sensitive, is the original with what is below it scrubbed; and values under
    sensitive keys and URLs with sensitive settings are gone at any depth. *)
Record answer (a b : any) : Prop := {
  an_object : exists members, b = AObj members /\ forall kv, kv ∈ members -> kv.1 ∈ allowed;
  an_values k path : forallb (fun k => negb (sensitiveKey k extra)) (k :: path) = true ->
    at_path (k :: path) b = if one_of k allowed then scrub extra <$> at_path (k :: path) a else None;
  an_covered : covered (fun k => sensitiveKey k extra) RedactedMarker scrubURL b;
}.

Lemma picked_hidden members :
  AObj (pickAllowed allowed extra members) = hidden (restricted allowed members).
Proof.
  unfold hidden. cbn. f_equal. apply map_ext. intros [k v]. cbn. by rewrite scrub_masked.
Qed.

Lemma find_first_filter {A} (p q : A -> bool) l :
  (forall x, q x = true -> p x = true) -> find_first q (List.filter p l) = find_first q l.
Proof.
  intros Hpq. induction l as [|x l IH]; [done|]. cbn. destruct (p x) eqn:Hp; cbn; [by rewrite IH|].
  destruct (q x) eqn:Hq; [|done]. by rewrite Hpq in Hp.
Qed.

Lemma picked_keys members kv : kv ∈ pickAllowed allowed extra members -> kv.1 ∈ allowed.
Proof.
  intros (y & -> & Hy)%list_elem_of_fmap. cbn. apply list_elem_of_In, filter_In in Hy as [_ Hy].
  by apply one_of_spec.
Qed.

Lemma picked_answer members : answer (AObj members) (AObj (pickAllowed allowed extra members)).
Proof.
  split.
  - eexists. split; [done|]. apply picked_keys.
  - intros k path Hp. rewrite picked_hidden. unfold hidden. rewrite at_path_masked by done.
    assert (at_path (k :: path) (restricted allowed members) =
      if one_of k allowed then at_path (k :: path) (AObj members) else None) as ->.
    { cbn. destruct (one_of k allowed) eqn:Hk.
      - rewrite find_first_filter; [done|]. intros [k' v] Hk'. cbn in *. bools. by subst.
      - rewrite (proj2 (find_first_None _ _)); [done|]. intros [k' v] Hin. cbn.
        apply list_elem_of_In, filter_In in Hin as [_ Hin]. apply bool_decide_eq_false_2. intros ->.
        cbn in Hin. congruence. }
    destruct (one_of k allowed); [|done]. destruct (at_path _ _); [|done]. cbn. by rewrite scrub_masked.
  - rewrite picked_hidden. apply masked_covered, scrubURL_idem.
Qed.

Lemma picked_again members :
  pickAllowed allowed extra (pickAllowed allowed extra members) = pickAllowed allowed extra members.
Proof.
  set (l := pickAllowed allowed extra members).
  enough (AObj (pickAllowed allowed extra l) = AObj l) as [= H2] by done.
  rewrite picked_hidden. unfold restricted.
  assert (List.filter (fun kv => one_of kv.1 allowed) l = l) as ->.
  { apply forallb_filter_id, forallb_elem_of. intros kv Hkv. by apply one_of_spec, (picked_keys members). }
  subst l. rewrite !picked_hidden. apply masked_id, masked_covered, scrubURL_idem.
Qed.

Lemma restricted_good members : good (AObj members) -> good (restricted allowed members).
Proof.
  unfold restricted. cbn [good]. rewrite !good_members. intros [Hs Hm]. split.
  - clear Hm. induction Hs as [|kv l Hs IH Hall]; cbn; [constructor|]. destruct (one_of _ _); [|done].
    constructor; [done|]. rewrite Forall_forall in *. intros x Hx. apply Hall.
    apply list_elem_of_In, filter_In in Hx as [Hx _]. by apply list_elem_of_In.
  - intros kv Hkv. apply Hm. apply list_elem_of_In, filter_In in Hkv as [Hkv _]. by apply list_elem_of_In.
Qed.

Lemma restricted_depth members :
  Json.jdepth (encode_any (restricted allowed members)) <= Json.jdepth (encode_any (AObj members)).
Proof.
  unfold restricted. cbn [encode_any Json.jdepth]. rewrite !map_map.
  induction members as [|kv l IH]; [cbn; lia|].
  cbn [List.filter]. destruct (one_of _ _); cbn [map foldr]; lia.
Qed.

Lemma picked_good members :
  good (AObj members) -> good (AObj (pickAllowed allowed extra members)) /\
  Json.jdepth (encode_any (AObj (pickAllowed allowed extra members))) <= Json.jdepth (encode_any (AObj members)).
Proof.
  intros Hg. rewrite picked_hidden. split.
  - apply masked_good; [done|apply scrubURL_valid|by apply restricted_good].
  - etrans; [apply masked_depth|apply restricted_depth].
Qed.
End answers.

Section property.
Context `{Unicode} `{Addresses} `{Floats} `{!FloatLaws}.

Definition rules_of (c : Capability) : list string := normalizeAll (default [] (RedactionRules c)).

Lemma filterTop_spec allowed extra a b :
  filterTop allowed extra a = Some b <->
  (exists members, a = AObj members /\ b = AObj (pickAllowed allowed extra members)) \/
  (exists objects, a = AArr (map AObj objects) /\
    b = AArr (map (fun members => AObj (pickAllowed allowed extra members)) objects)).
Proof.
  destruct a as [| | | |items|members]; cbn; split; try naive_solver.
  - intros (objects & Hm & [= <-])%bind_Some. apply mapM_objects in Hm as ->. eauto.
  - intros [(? & ? & _)|(objects & [= ->] & ->)]; [done|].
    by rewrite (proj2 (mapM_objects _ objects) eq_refl).
Qed.

(** Filtering is repeatable, and what it gives can be written and read. *)
Lemma filterTop_again allowed extra a b :
  filterTop allowed extra a = Some b -> filterTop allowed extra b = Some b.
Proof.
  rewrite !filterTop_spec. intros [(members & _ & ->)|(objects & _ & ->)].
  - left. eexists. split; [done|]. by rewrite picked_again.
  - right. exists (map (pickAllowed allowed extra) objects). rewrite !map_map. split; [done|].
    f_equal. apply map_ext. intros members. by rewrite picked_again.
Qed.

Lemma filterTop_good allowed extra a b :
  filterTop allowed extra a = Some b -> good a -> good b /\ Json.jdepth (encode_any b) <= Json.jdepth (encode_any a).
Proof.
  rewrite filterTop_spec. intros [(members & -> & ->)|(objects & -> & ->)] Hg; [by apply picked_good|].
  cbn [good encode_any Json.jdepth] in *. rewrite !map_map. rewrite map_map in Hg.
  induction objects as [|o l IH]; cbn [map foldr] in *; [done|]. destruct Hg as [Ho Hl].
  destruct (IH Hl) as [IH1 IH2]. destruct (picked_good allowed extra o Ho). split; [done|]. lia.
Qed.

(** C38. What goes back to an agent of an answer, an object or an array of
    objects: the text returned decodes to objects that have declared fields only;
    in them no value under a key of the word list or of the operation's rules
    survives at any depth; every other declared value is the original, save that a
    text that reads as a URL with a setting of the word list in its query, as the
    query is parsed, is written anew as that URL without its query - and a text
    comes back unchanged exactly when it is no such URL; and trimming what was returned changes
    nothing. *)
Theorem redact_contained body capability out :
  Redact body capability = Ok (Some out) ->
  exists a b,
    unmarshal_any body = Some a /\ unmarshal_any (Json.print out) = Some b /\
    (answer (ResponseFields capability) (rules_of capability) a b \/
     exists items items', a = AArr items /\ b = AArr items' /\
       Forall2 (answer (ResponseFields capability) (rules_of capability)) items items') /\
    (forall s, scrubURL s = s <-> url_clean s) /\
    Redact (Json.print out) capability = Ok (Some out).
Proof.
  unfold Redact. destruct (body ==? ""); [done|]. destruct (unmarshal_any body) as [a|] eqn:Ea; [|done].
  destruct (filterTop _ _ a) as [b|] eqn:Eb; [|done]. intros [= <-]. exists a, b.
  destruct (unmarshal_any_spec _ _ Ea) as [Hg Hd]. destruct (filterTop_good _ _ _ _ Eb Hg) as [Hgb Hdb].
  assert (unmarshal_any (Json.print (encode_any b)) = Some b) as Hb by (apply unmarshal_marshal; [done|lia]).
  assert ((Json.print (encode_any b) ==? "") = false) as ->.
  { apply bool_decide_eq_false_2. intros E. rewrite E in Hb. by vm_compute in Hb. }
  rewrite Hb, (filterTop_again _ _ _ _ Eb). split_and!; try done.
  - apply filterTop_spec in Eb as [(members & -> & ->)|(objects & -> & ->)].
    + left. apply picked_answer.
    + right. do 2 eexists. split; [done|]. split; [done|]. clear.
      induction objects as [|o l IH]; constructor; [apply picked_answer|done].
  - intros s. split; [|apply scrubURL_fixed]. intros <-. apply scrubURL_clean.
Qed.
End property.

(** ** At concrete answers *)

Section answer_samples.
#[local] Existing Instance ascii_only.
#[local] Existing Instance no_addresses.
#[local] Existing Instance plain_floats.
#[local] Existing Instance plain_floats_laws.

Definition sample_reading (fields : list string) : Capability :=
  {| Operation := "read_issue"; InputSchema := ""; c_MinimumScope := {| ResourceKeys := []; RequiresAccount := true |};
     RiskLabel := RiskLabelLow; Method := "GET"; Path := "/issues"; RedactionRules := Some ["Signing Key"];
     ResponseFields := fields; Rollback := RollbackNone; Idempotency := Idempotent;
     c_Nature := {| Destructive := false; PermissionChange := false; SecretAccess := false;
       Billing := false; ExternalCommunication := false |} |}.

Definition sample_answer (url : string) : string := Json.print (Json.JObj
  [("id", Json.of_int 7); ("url", Json.of_string url); ("internal", Json.of_int 1);
   ("labels", Json.JArr [Json.JObj [("api-key", Json.of_string "k"); ("signing_key", Json.of_int 3); ("name", Json.of_string "n")]])]).

Definition sample_returned (url : string) : string := Json.print (Json.JObj
  [("id", Json.of_int 7);
   ("labels", Json.JArr [Json.JObj [("api-key", Json.of_string "[redacted]"); ("name", Json.of_string "n");
      ("signing_key", Json.of_string "[redacted]")]]);
   ("url", Json.of_string url)]).

Definition returned (url : string) : option string :=
  match Redact (sample_answer url) (sample_reading ["id"; "url"; "labels"]) with
  | Ok (Some out) => Some (Json.print out)
  | _ => None
  end.

Example redact_answer_sample :
  returned "https://h/p?access_token=t" = Some (sample_returned "https://h/p").
Proof. vm_compute. reflexivity. Qed.

(** A text that does not parse as a URL, and a setting [parseQuery] skips, go
    back with their token. *)
Example redact_answer_gap :
  returned "https://h/%zz?access_token=t" = Some (sample_returned "https://h/%zz?access_token=t") /\
  returned "https://h/p?access_token=t;x" = Some (sample_returned "https://h/p?access_token=t;x").
Proof. split; vm_compute; reflexivity. Qed.

Lemma redact_contained_witness :
  exists out b, Redact (sample_answer "https://h/p?access_token=t") (sample_reading ["id"; "url"; "labels"]) = Ok (Some out) /\
    unmarshal_any (Json.print out) = Some b /\ at_path ["url"] b = Some (AStr "https://h/p").
Proof.
  destruct (Redact (sample_answer "https://h/p?access_token=t") (sample_reading ["id"; "url"; "labels"]))
    as [[out|]|] eqn:E; [|by vm_compute in E..].
  destruct (redact_contained _ _ _ E) as (a & b & Ha & Hb & Hab & _). exists out, b. split_and!; [done..|].
  assert (exists members, a = AObj members /\ at_path ["url"] a = Some (AStr "https://h/p?access_token=t"))
    as (members & -> & Hurl) by (revert Ha; vm_compute; intros [= <-]; eauto).
  destruct Hab as [Hab|(items & _ & [=] & _)].
  rewrite (an_values _ _ _ _ Hab "url" [] eq_refl), Hurl. vm_compute. reflexivity.
Defined.
End answer_samples.
