(* ===== verification/Outbound.v ===== *)
(** * adapter/registry: the outgoing channel (client.go) and platform/secret

    A request leaves through [Do]: the path must match the declared template, the
    credential goes into a header and nowhere else, redirects stay on the host,
    the answer is bounded, and only idempotent operations are tried again. Here
    too are the plaintext box of a credential ([Value]) and [buildPath], which
    each adapter has a copy of. *)
From S2P Require Import Prelude GoStr Apperr.
From S2P Require Import World Url Registry.
Open Scope Z_scope.
Set Warnings "-register-all".

(** ** What leaves the process, and what comes back *)

(** One HTTP request on the wire. The Referer header of a followed redirect is
    left out; it carries no credential. *)
Record Hop := {
  h_Method : string;
  h_URL : URL;
  h_Header : list (string * string);
  h_Body : string;
}.

(** Reading an answer's body to the end: its bytes and whether closing it
    succeeds, or a failure (a timeout or not). *)
Inductive reading :=
| BodyRead (payload : string) (closed : bool)
| BodyFailed (timeout : bool).

Inductive location :=
| NoLocation
| BadLocation
| LocationURL (u : URL).

(** What the transport makes of a request. The location is resolved against the
    request's URL. *)
Inductive reply :=
| TransportFailed (timeout : bool)
| Answered (status : Z) (at_ : location) (body : reading).

(** The other side: the reply to each request, given those sent before it, and
    whether waiting before another attempt is cut short. *)
Class Network := {
  reply_to : list Hop -> Hop -> reply;
  wait_cut : list Z -> bool;
}.

(** The state: the requests sent, the waits, and the plaintext boxes. *)
Record Egress := mkEgress {
  wire : list Hop;
  waits : list Z;
  boxes : list string;
}.

(** ** secret.Value

    A value points at a box that its copies share; an emptied box holds no
    bytes. [None] is the zero value. *)
Module Secret.

Definition Redacted : string := "[redacted]".

Definition Value := option nat.

Definition New (plaintext : string) : M Egress Code Value := fun w =>
  let d := db w in
  (Ok (Some (length (boxes d))),
   mkWorld (mkEgress (wire d) (waits d) (boxes d ++ [plaintext])) (ticks w) (ids w) (stmts w)).

Definition Reveal (v : Value) (d : Egress) : string :=
  match v with None => "" | Some i => default "" (boxes d !! i) end.

Definition IsEmpty (v : Value) (d : Egress) : bool := Reveal v d ==? "".

(** The bytes are overwritten and the box emptied, for every copy. *)
Definition Zero (v : Value) {E} : M Egress E unit := fun w =>
  let d := db w in
  let boxes' := match v with None => boxes d | Some i => <[i := ""]> (boxes d) end in
  (Ok tt, mkWorld (mkEgress (wire d) (waits d) boxes') (ticks w) (ids w) (stmts w)).

Definition String_ (v : Value) : string := Redacted.
Definition Format (v : Value) (verb : Z) : string := Redacted.
Definition MarshalJSON (v : Value) : string := Json.quote Redacted.
Definition LogValue (v : Value) : string := Redacted.

End Secret.

(** ** The client *)

Definition DefaultTimeout : Z := 30 * GoTime.Second.
Definition DefaultMaxResponseBytes : Z := Z.shiftl 4 20.
Definition DefaultBackoff : Z := 200 * GoTime.Millisecond.
Definition MaxRetries : nat := 2.
Definition maxRedirects : nat := 5.

Record ClientOptions := {
  BaseURL : string;
  Timeout : Z;
  MaxResponseBytes : Z;
  Backoff : Z;
}.

Record Client := {
  baseURL : URL;
  timeout : Z;
  maxBytes : Z;
  backoff : Z;
}.

Record Request := {
  r_Capability : Capability;
  r_Path : string;
  r_Query : list (string * list string);
  r_Body : string;
  r_AuthScheme : string;
  r_AuthHeader : string;
  r_Credential : Secret.Value;
}.

Record Response := {
  StatusCode : Z;
  Body : string;
  Attempts : Z;
}.

Definition positive_or (value standard : Z) : Z := if value <=? 0 then standard else value.

Definition NewClient `{Addresses} (options : ClientOptions) : result Code Client :=
  match Parse (BaseURL options) with
  | None => Err CodeInvalidConfiguration
  | Some base =>
      if (Host base ==? "") || negb (one_of (Scheme base) ["http"; "https"]) then Err CodeInvalidConfiguration
      else Ok {| baseURL := base; timeout := positive_or (Timeout options) DefaultTimeout;
                 maxBytes := positive_or (MaxResponseBytes options) DefaultMaxResponseBytes;
                 backoff := positive_or (Backoff options) DefaultBackoff |}
  end.

Definition pathAllowed (template actual : string) : bool := bool_decide (is_Some (MatchPath template actual)).

Definition retryableError (e : Code) : bool := (e ==? CodeAdapterTimeout) || (e ==? CodeGatewayUnavailable).

Definition retryableStatus (status : Z) : bool := (status =? 429) || (500 <=? status).

(** [translateTransportError] of an error that is none of the program's own. *)
Definition transport_error (timeout : bool) : Code :=
  if timeout then CodeAdapterTimeout else CodeGatewayUnavailable.

(** int64 arithmetic. *)
Definition wrap64 (n : Z) : Z := (n + 2 ^ 63) mod 2 ^ 64 - 2 ^ 63.

Definition injectCredential (r : Request) (plaintext : string) : result Code (list (string * string)) :=
  if r_AuthScheme r ==? AuthNone then Ok []
  else if r_AuthScheme r ==? AuthBearer then Ok [("Authorization", "Bearer " +:+ plaintext)]
  else if r_AuthScheme r ==? AuthHeader then
    if trim_space (r_AuthHeader r) ==? "" then Err CodeInvalidConfiguration
    else Ok [(r_AuthHeader r, plaintext)]
  else Err CodeInvalidConfiguration.

Definition target (c : Client) (r : Request) : URL :=
  with_raw_query
    (with_path (baseURL c) (trim_suffix (Url.Path (baseURL c)) "/" +:+ r_Path r)) (Encode (r_Query r)).

Definition content_type (body : string) : list (string * string) :=
  if body ==? "" then [] else [("Content-Type", "application/json")].

Definition outbound (c : Client) (r : Request) (credential : list (string * string)) : Hop :=
  {| h_Method := Registry.Method (r_Capability r); h_URL := target c r;
     h_Header := content_type (r_Body r) ++ credential; h_Body := r_Body r |}.

Section client.
Context `{Network}.

(** [Transport.RoundTrip]. *)
Definition send (h : Hop) {E} : M Egress E reply := fun w =>
  let d := db w in
  (Ok (reply_to (wire d) h),
   mkWorld (mkEgress (wire d ++ [h]) (waits d) (boxes d)) (ticks w) (ids w) (stmts w)).

Definition waitFor (delay : Z) : M Egress Code unit := fun w =>
  let d := db w in
  (if wait_cut (waits d ++ [delay]) then Err CodeGatewayUnavailable else Ok tt,
   mkWorld (mkEgress (wire d) (waits d ++ [delay]) (boxes d)) (ticks w) (ids w) (stmts w)).

(** The client's [CheckRedirect]; [via] requests have been sent. *)
Definition checkRedirect (c : Client) (next : URL) (via : nat) : result Code unit :=
  if Host next !=? Host (baseURL c) then Err CodePathNotAllowed
  else if (maxRedirects <=? via)%nat then Err CodePathNotAllowed
  else Ok tt.

(** [redirectBehavior] of net/http: whether to follow, with which method, and
    whether the body goes along. *)
Definition redirectBehavior (method : string) (status : Z) : option (string * bool) :=
  if (status =? 301) || (status =? 302) || (status =? 303) then
    Some (if one_of method ["GET"; "HEAD"] then method else "GET", false)
  else if (status =? 307) || (status =? 308) then Some (method, true)
  else None.

Definition next_hop (h : Hop) (method : string) (with_body : bool) (u : URL) : Hop :=
  {| h_Method := method; h_URL := u;
     h_Header := if with_body then h_Header h
                 else List.filter (fun kv => kv.1 !=? "Content-Type") (h_Header h);
     h_Body := if with_body then h_Body h else "" |}.

(** [http.Client.Do]: the loop ends with an answer that is no redirect, or with
    the refusal of one. The fuel is the number of requests [checkRedirect] allows. *)
Fixpoint follow (c : Client) (fuel via : nat) (h : Hop) : M Egress Code (Z * reading) :=
  answer ← send h;
  match answer with
  | TransportFailed timeout => throw (transport_error timeout)
  | Answered status at_ body =>
      match redirectBehavior (h_Method h) status with
      | None => mret (status, body)
      | Some (method, with_body) =>
          match at_ with
          | NoLocation => mret (status, body)
          | BadLocation => throw CodeGatewayUnavailable
          | LocationURL u =>
              _ ← of_result (checkRedirect c u (S via));
              match fuel with
              | O => throw CodePathNotAllowed
              | S fuel => follow c fuel (S via) (next_hop h method with_body u)
              end
          end
      end
  end.

Definition reveal (v : Secret.Value) : M Egress Code string := fun w => (Ok (Secret.Reveal v (db w)), w).

(** One attempt: the request, and its answer read up to the limit. *)
Definition attempt (c : Client) (r : Request) : M Egress Code Response :=
  plaintext ← reveal (r_Credential r);
  credential ← of_result (injectCredential r plaintext);
  '(status, body) ← follow c maxRedirects 0 (outbound c r credential);
  match body with
  | BodyFailed timeout => throw (transport_error timeout)
  | BodyRead payload closed =>
      _ ← refuse (maxBytes c <? Z.of_nat (String.length payload)) CodeInternal;
      _ ← refuse (negb closed) CodeGatewayUnavailable;
      mret {| StatusCode := status; Body := payload; Attempts := 0 |}
  end.

Definition with_attempts (r : Response) (n : Z) : Response :=
  {| StatusCode := StatusCode r; Body := Body r; Attempts := n |}.

Definition allowedAttempts (c : Capability) : nat :=
  (1 + if Idempotency c ==? Idempotent then MaxRetries else 0)%nat.

(** The loop of [Do] with [more] attempts to go, the next being number [n]. *)
Fixpoint attempts_from (c : Client) (r : Request) (more : nat) (n : Z) (lastErr : option Code)
    : M Egress Code Response :=
  match more with
  | O => match lastErr with
         | Some e => throw e
         | None => mret {| StatusCode := 0; Body := ""; Attempts := n - 1 |}
         end
  | S more =>
      _ ← (if 1 <? n then waitFor (wrap64 (Z.shiftl (backoff c) (n - 2))) else mret tt);
      answer ← try_ (attempt c r);
      match answer with
      | Ok response =>
          if negb (retryableStatus (StatusCode response)) || (more =? 0)%nat then
            mret (with_attempts response n)
          else attempts_from c r more (n + 1) None
      | Err e =>
          if negb (retryableError e) then throw e else attempts_from c r more (n + 1) (Some e)
      end
  end.

Definition Do (c : Client) (r : Request) : M Egress Code Response :=
  _ ← refuse (negb (pathAllowed (Registry.Path (r_Capability r)) (r_Path r))) CodePathNotAllowed;
  attempts_from c r (allowedAttempts (r_Capability r)) 1 None.
End client.

(** ** The loop of the redirects, without a bound *)

Section redirects.
Context `{Network}.

(** One turn of the loop: an answer that ends it, or the next request. *)
Definition turn (c : Client) (via : nat) (h : Hop) : M Egress Code (Z * reading + Hop) :=
  answer ← send h;
  match answer with
  | TransportFailed timeout => throw (transport_error timeout)
  | Answered status at_ body =>
      match redirectBehavior (h_Method h) status with
      | None => mret (inl (status, body))
      | Some (method, with_body) =>
          match at_ with
          | NoLocation => mret (inl (status, body))
          | BadLocation => throw CodeGatewayUnavailable
          | LocationURL u => _ ← of_result (checkRedirect c u (S via)); mret (inr (next_hop h method with_body u))
          end
      end
  end.

(** The run of [for { ... }] from request number [via] on. *)
Inductive follows (c : Client) : nat -> Hop -> World Egress -> result Code (Z * reading) -> World Egress -> Prop :=
| follows_end via h w a w' : turn c via h w = (Ok (inl a), w') -> follows c via h w (Ok a) w'
| follows_fail via h w e w' : turn c via h w = (Err e, w') -> follows c via h w (Err e) w'
| follows_on via h w h' w1 res w' :
    turn c via h w = (Ok (inr h'), w1) -> follows c (S via) h' w1 res w' -> follows c via h w res w'.

Lemma follow_turn c fuel via h w :
  follow c fuel via h w = match turn c via h w with
    | (Ok (inl a), w') => (Ok a, w')
    | (Err e, w') => (Err e, w')
    | (Ok (inr h'), w') => match fuel with O => (Err CodePathNotAllowed, w') | S fuel => follow c fuel (S via) h' w' end
    end.
Proof.
  destruct fuel as [|fuel]; cbn [follow]; unfold turn, mbind, M_bind;
    (destruct (send (E := Code) h w) as [[[timeout|status at_ body]|e] w']; [reflexivity| |reflexivity]);
    (destruct (redirectBehavior (h_Method h) status) as [[method with_body]|]; [|reflexivity]);
    (destruct at_ as [| |u]; [reflexivity|reflexivity|]); cbn; by destruct (checkRedirect c u (S via)).
Qed.

(** A turn that goes on is within the bound. *)
Lemma turn_on c via h w h' w' : turn c via h w = (Ok (inr h'), w') -> (S via < maxRedirects)%nat.
Proof.
  unfold turn, mbind, M_bind. destruct (send (E := Code) h w) as [[[timeout|status at_ body]|e] w1]; [done| |done].
  destruct (redirectBehavior (h_Method h) status) as [[method with_body]|]; [|done].
  destruct at_ as [| |u]; [done..|]. cbn. destruct (checkRedirect c u (S via)) as [[]|] eqn:Hc; [|done]. intros _.
  unfold checkRedirect in Hc. destruct (_ !=? _); [done|]. by destruct (Nat.leb_spec maxRedirects (S via)).
Qed.

Lemma follows_functional c via h w r1 w1 r2 w2 :
  follows c via h w r1 w1 -> follows c via h w r2 w2 -> r1 = r2 /\ w1 = w2.
Proof.
  intros H1. revert r2 w2. induction H1 as [via h w a w' Ht|via h w e w' Ht|via h w h' w1' res w' Ht _ IH];
    intros r2 w2 H2; inversion H2 as [? ? ? ? ? Ht'|? ? ? ? ? Ht'|? ? ? ? ? ? ? Ht' Hrest]; subst;
    rewrite Ht in Ht'; simplify_eq; auto.
Qed.

(** With enough fuel the executable loop is a run of the unbounded one. *)
Lemma follow_follows c fuel via h w :
  (maxRedirects <= S via + fuel)%nat -> follows c via h w (follow c fuel via h w).1 (follow c fuel via h w).2.
Proof.
  revert via h w. induction fuel as [|fuel IH]; intros via h w Hf; rewrite follow_turn;
    destruct (turn c via h w) as [[[a|h']|e] w'] eqn:Et; try (by constructor); pose proof (turn_on _ _ _ _ _ _ Et).
  - lia.
  - eapply follows_on; [exact Et|]. apply IH. lia.
Qed.

(** Following redirects ends, whatever the other side answers. The loop of
    [http.Client.Do], which has no bound of its own, has exactly one run from every
    request and every state of the world, because [checkRedirect] ends it; that run
    is the one [follow] computes, so the fuel it is given is always enough. *)
Theorem redirects_end c h w :
  exists res w', follows c 0 h w res w' /\
    (forall res' w'', follows c 0 h w res' w'' -> res' = res /\ w'' = w') /\
    follow c maxRedirects 0 h w = (res, w').
Proof.
  exists (follow c maxRedirects 0 h w).1, (follow c maxRedirects 0 h w).2.
  assert (maxRedirects <= 1 + maxRedirects)%nat as Hf by lia.
  pose proof (follow_follows c maxRedirects 0 h w Hf) as Hrun. split_and!; [done| |by destruct (follow _ _ _ _ _)].
  intros res' w'' Hrun'. by apply (follows_functional _ _ _ _ _ _ _ _ Hrun').
Qed.
End redirects.

(** ** Paths from resources (buildPath of each adapter) *)

Definition fill_placeholder (resource : gmap string string) (segment : string) : result Code string :=
  match placeholder segment with
  | None => Ok segment
  | Some key =>
      match resource !! key with
      | None => Err CodeInvalidRequest
      | Some value =>
          if trim_space value ==? "" then Err CodeInvalidRequest
          else if contains_any value "/?#" || contains value ".." then Err CodeInvalidRequest
          else Ok value
      end
  end.

Fixpoint fill_all (resource : gmap string string) (l : list string) : result Code (list string) :=
  match l with
  | [] => Ok []
  | s :: l => filled ← fill_placeholder resource s; rest ← fill_all resource l; Ok (filled :: rest)
  end.

Definition buildPath (c : Capability) (resource : gmap string string) : result Code string :=
  filled ← fill_all resource (segments (Registry.Path c)); Ok ("/" +:+ join "/" filled).

(** ** What a call leaves on the wire *)

Section containment.
Context `{Network}.

Lemma wp_send {E} h (Q : result E reply -> Egress -> Prop) d :
  Q (Ok (reply_to (wire d) h)) (mkEgress (wire d ++ [h]) (waits d) (boxes d)) -> wp (send h) Q d.
Proof. by intros HQ w <-. Qed.

Lemma wp_waitFor delay (Q : result Code unit -> Egress -> Prop) d :
  let d' := mkEgress (wire d) (waits d ++ [delay]) (boxes d) in
  (wait_cut (waits d ++ [delay]) = true -> Q (Err CodeGatewayUnavailable) d') -> Q (Ok tt) d' ->
  wp (waitFor delay) Q d.
Proof. intros d' Hc Ho w <-. unfold waitFor. simpl. destruct (wait_cut _); [by apply Hc|done]. Qed.

Lemma wp_reveal v (Q : result Code string -> Egress -> Prop) d :
  Q (Ok (Secret.Reveal v d)) d -> wp (reveal v) Q d.
Proof. by intros HQ w <-. Qed.

(** The hops of one attempt: the first request, then redirects followed on the
    same host with no header or body of their own. *)
Record contained (c : Client) (first : Hop) (hops : list Hop) : Prop := {
  cn_first : head hops = Some first;
  cn_length : (length hops <= maxRedirects)%nat;
  cn_hops h : h ∈ hops -> Host (h_URL h) = Host (baseURL c) /\ h_Header h ⊆ h_Header first /\
    (h_Body h = h_Body first \/ h_Body h = "") /\ (h_Method h = h_Method first \/ h_Method h = "GET");
}.

Lemma next_hop_header h method with_body u : h_Header (next_hop h method with_body u) ⊆ h_Header h.
Proof.
  destruct with_body; cbn; [done|]. intros kv Hkv.
  apply list_elem_of_In, filter_In in Hkv as [Hkv _]. by apply list_elem_of_In.
Qed.

Lemma next_hop_body h method with_body u :
  h_Body (next_hop h method with_body u) = h_Body h \/ h_Body (next_hop h method with_body u) = "".
Proof. destruct with_body; cbn; auto. Qed.

Lemma redirect_method method status method' with_body :
  redirectBehavior method status = Some (method', with_body) -> method' = method \/ method' = "GET".
Proof. unfold redirectBehavior. repeat case_match; intros [= <- <-]; auto. Qed.

Lemma checkRedirect_Ok c u via : checkRedirect c u via = Ok tt -> Host u = Host (baseURL c) /\ (via < maxRedirects)%nat.
Proof.
  unfold checkRedirect. destruct (_ !=? _) eqn:E; [done|]. bools.
  destruct (Nat.leb_spec maxRedirects via); [done|]. by intros _.
Qed.

Lemma wp_follow c fuel via first h d :
  (via < maxRedirects)%nat -> Host (h_URL h) = Host (baseURL c) -> h_Header h ⊆ h_Header first ->
  h_Body h = h_Body first \/ h_Body h = "" -> h_Method h = h_Method first \/ h_Method h = "GET" ->
  wp (follow c fuel via h) (fun res d' => exists hops,
    d' = mkEgress (wire d ++ h :: hops) (waits d) (boxes d) /\
    (via + S (length hops) <= maxRedirects)%nat /\
    forall k, k ∈ h :: hops -> Host (h_URL k) = Host (baseURL c) /\ h_Header k ⊆ h_Header first /\
      (h_Body k = h_Body first \/ h_Body k = "") /\ (h_Method k = h_Method first \/ h_Method k = "GET")) d.
Proof.
  revert via h d. induction fuel as [|fuel IH]; intros via h d Hv Hhost Hhead Hbody Hmethod; cbn [follow];
    apply wp_bind, wp_send; cbn;
    (assert (exists hops, mkEgress (wire d ++ [h]) (waits d) (boxes d) =
        mkEgress (wire d ++ h :: hops) (waits d) (boxes d) /\ (via + S (length hops) <= maxRedirects)%nat /\
      forall k, k ∈ h :: hops -> Host (h_URL k) = Host (baseURL c) /\ h_Header k ⊆ h_Header first /\
      (h_Body k = h_Body first \/ h_Body k = "") /\ (h_Method k = h_Method first \/ h_Method k = "GET")) as Hstop
      by (exists []; split_and!; [done|cbn; lia|]; by intros k ->%list_elem_of_singleton));
    (destruct (reply_to (wire d) h) as [timeout|status at_ body]; [by apply wp_throw|]);
    (destruct (redirectBehavior (h_Method h) status) as [[method with_body]|] eqn:Hb; [|by apply wp_ret]);
    (destruct at_ as [| |u]; [by apply wp_ret|by apply wp_throw|]);
    apply wp_bind, wp_of_result; (destruct (checkRedirect c u (S via)) as [[]|] eqn:Hc; [|done]);
    apply checkRedirect_Ok in Hc as [Hu Hvia].
  - by apply wp_throw.
  - eapply wp_mono; [apply IH; [done|done| | |]|].
    + etrans; [apply next_hop_header|done].
    + destruct (next_hop_body h method with_body u) as [-> | ->]; auto.
    + cbn. apply redirect_method in Hb as [-> | ->]; auto.
    + intros res d' (hops & -> & Hl & Hk). exists (next_hop h method with_body u :: hops). cbn.
      split_and!; [by rewrite <- app_assoc|lia|]. intros k [->|Hin]%elem_of_cons; [done|by apply Hk].
Qed.

(** One attempt, with the credential as it is now. *)
Lemma wp_attempt c r d :
  wp (attempt c r) (fun res d' =>
    (exists e, injectCredential r (Secret.Reveal (r_Credential r) d) = Err e /\ res = Err e /\ d' = d /\
       retryableError e = false) \/
    (exists credential hops, injectCredential r (Secret.Reveal (r_Credential r) d) = Ok credential /\
       contained c (outbound c r credential) hops /\
       d' = mkEgress (wire d ++ hops) (waits d) (boxes d) /\
       forall response, res = Ok response -> Z.of_nat (String.length (Body response)) <= maxBytes c)) d.
Proof.
  unfold attempt. apply wp_bind, wp_reveal, wp_bind, wp_of_result.
  destruct (injectCredential r _) as [credential|e] eqn:Hi.
  - eapply wp_bind, wp_mono; [apply (wp_follow c maxRedirects 0 (outbound c r credential)); auto|].
    { unfold maxRedirects. lia. }
    intros res d' (hops & -> & Hl & Hk).
    assert (contained c (outbound c r credential) (outbound c r credential :: hops)) as Hcn by done.
    destruct res as [[status body]|e]; [|right; by exists credential, (outbound c r credential :: hops)].
    destruct body as [payload closed|t]; [|apply wp_throw; right; by exists credential, (outbound c r credential :: hops)].
    wp_steps. destruct (Z.ltb_spec (maxBytes c) (Z.of_nat (String.length payload)));
      [right; by exists credential, (outbound c r credential :: hops)|].
    wp_steps. destruct closed; cbn; [|right; by exists credential, (outbound c r credential :: hops)].
    wp_steps. right. exists credential, (outbound c r credential :: hops). split_and!; try done.
    by intros response [= <-].
  - left. exists e. split_and!; try done. revert Hi. unfold injectCredential. by repeat case_match; intros [= <-].
Qed.
(** The request as [Do] sends it, for the credential its box holds in [d]. *)
Definition sent_for (c : Client) (r : Request) (d : Egress) (hops : list Hop) : Prop :=
  exists credential, injectCredential r (Secret.Reveal (r_Credential r) d) = Ok credential /\
    contained c (outbound c r credential) hops.

(** What the loop did from [d] on, with [more] attempts to go: the attempts, the
    waits between them, and how it ended. *)
Definition tried (c : Client) (r : Request) (more : nat) (n : Z) (lastErr : option Code) (d : Egress)
    (res : result Code Response) (d' : Egress) : Prop :=
  exists tries ws,
    d' = mkEgress (wire d ++ concat tries) (waits d ++ ws) (boxes d) /\ (length tries <= more)%nat /\
    (forall hops, hops ∈ tries -> sent_for c r d hops) /\
    match res with
    | Ok response => (more = 0%nat /\ lastErr = None) \/
        (Attempts response = n - 1 + Z.of_nat (length tries) /\ (0 < length tries)%nat /\
         Z.of_nat (String.length (Body response)) <= maxBytes c)
    | Err e => retryableError e = true -> length tries = more \/ wait_cut (waits d') = true
    end.

Lemma tried_none c r more n lastErr d ws res :
  match res with
  | Ok _ => more = 0%nat /\ lastErr = None
  | Err e => retryableError e = true -> more = 0%nat \/ wait_cut (waits d ++ ws) = true
  end ->
  tried c r more n lastErr d res (mkEgress (wire d) (waits d ++ ws) (boxes d)).
Proof.
  intros Hr. exists [], ws. cbn. rewrite app_nil_r. split_and!; [done|lia|by intros hops []%not_elem_of_nil|].
  destruct res; [by left|]. intros He. destruct (Hr He) as [-> |]; auto.
Qed.

Lemma tried_step c r more n lastErr lastErr' d ws hops res d' :
  sent_for c r d hops -> (more = 0%nat -> lastErr' <> None) ->
  tried c r more (n + 1) lastErr' (mkEgress (wire d ++ hops) (waits d ++ ws) (boxes d)) res d' ->
  tried c r (S more) n lastErr d res d'.
Proof.
  intros Hs Hl (tries & ws' & -> & Hlen & Htries & Hres). exists (hops :: tries), (ws ++ ws'). cbn.
  split_and!; [by rewrite <- !app_assoc|lia| |].
  - intros k [->|Hk]%elem_of_cons; [done|by apply Htries].
  - destruct res as [response|e].
    + destruct Hres as [[Hm Hn]|(Ha & Hp & Hb)]; [by destruct (Hl Hm)|]. right. split_and!; [lia|lia|done].
    + intros He. destruct (Hres He) as [-> |Hw]; auto.
Qed.

Lemma wp_attempts c r more n lastErr d :
  wp (attempts_from c r more n lastErr) (tried c r more n lastErr d) d.
Proof.
  revert n lastErr d. induction more as [|more IH]; intros n lastErr d; cbn [attempts_from].
  { assert (d = mkEgress (wire d) (waits d ++ []) (boxes d)) as Hd by (destruct d; cbn; by rewrite app_nil_r).
    destruct lastErr; [apply wp_throw|apply wp_ret]; rewrite Hd at 2; apply tried_none; auto. }
  assert (Hgo : forall ws, wp (answer ← try_ (attempt c r);
      match answer with
      | Ok response =>
          if negb (retryableStatus (StatusCode response)) || (more =? 0)%nat
          then mret (with_attempts response n) else attempts_from c r more (n + 1) None
      | Err e => if negb (retryableError e) then throw e else attempts_from c r more (n + 1) (Some e)
      end) (tried c r (S more) n lastErr d) (mkEgress (wire d) (waits d ++ ws) (boxes d))).
  { intros ws. apply wp_bind, wp_try. eapply wp_mono; [apply wp_attempt|]. cbn.
    intros res d' [(e & Hi & -> & -> & He)|(credential & hops & Hi & Hc & -> & Hbody)].
    { rewrite He. apply wp_throw, tried_none. congruence. }
    assert (Hsent : sent_for c r d hops) by (by exists credential).
    destruct res as [response|e]; cbn.
    - destruct (negb _ || _) eqn:Hstop.
      + apply wp_ret. exists [hops], ws. cbn. rewrite app_nil_r. split_and!; [done|lia| |].
        * by intros k ->%list_elem_of_singleton.
        * right. cbn. split_and!; [lia|lia|by apply Hbody].
      + eapply wp_mono; [apply IH|]. intros res d'. apply tried_step; [done|].
        apply orb_false_iff in Hstop as [_ Hn]. by intros ->.
    - destruct (negb (retryableError e)) eqn:He.
      + apply wp_throw. exists [hops], ws. cbn. rewrite app_nil_r. split_and!; [done|lia| |].
        * by intros k ->%list_elem_of_singleton.
        * intros Hr. by rewrite Hr in He.
      + eapply wp_mono; [apply IH|]. intros res d'. by apply tried_step. }
  apply wp_bind. destruct (1 <? n).
  - apply wp_waitFor; [|apply Hgo]. intros Hcut. apply tried_none. auto.
  - apply wp_ret. specialize (Hgo []). destruct d. cbn in *. by rewrite app_nil_r in Hgo.
Qed.

(** What one call lets out, and how it ends. *)
Definition let_out (c : Client) (r : Request) (d : Egress) (res : result Code Response) (d' : Egress) : Prop :=
  exists tries ws,
    d' = mkEgress (wire d ++ concat tries) (waits d ++ ws) (boxes d) /\
    (forall hops, hops ∈ tries -> sent_for c r d hops) /\
    (length tries <= if decide (Idempotency (r_Capability r) = Idempotent) then 3 else 1)%nat /\
    (MatchPath (Registry.Path (r_Capability r)) (r_Path r) = None -> res = Err CodePathNotAllowed /\ d' = d) /\
    match res with
    | Ok response => Attempts response = Z.of_nat (length tries) /\ (0 < length tries)%nat /\
        Z.of_nat (String.length (Body response)) <= maxBytes c
    | Err e => retryableError e = true ->
        length tries = allowedAttempts (r_Capability r) \/ wait_cut (waits d') = true
    end.

Lemma wp_Do c r d : wp (Do c r) (let_out c r d) d.
Proof.
  unfold Do, pathAllowed. apply wp_bind, wp_refuse.
  destruct (MatchPath (Registry.Path (r_Capability r)) (r_Path r)) as [captured|] eqn:Em.
  - rewrite bool_decide_eq_true_2 by eauto. cbn [negb]. eapply wp_mono; [apply wp_attempts|].
    intros res d' (tries & ws & -> & Hlen & Htries & Hres).
    exists tries, ws. split_and!; [done|done| |by rewrite Em|].
    + unfold allowedAttempts in Hlen. by destruct (decide _) as [E|E];
        [rewrite bool_decide_eq_true_2 in Hlen|rewrite bool_decide_eq_false_2 in Hlen].
    + destruct res; [|done]. destruct Hres as [[[=] _]|(Ha & Hp & Hb)]. split_and!; [lia|done|done].
  - rewrite bool_decide_eq_false_2 by (by intros []). exists [], []. cbn. rewrite !app_nil_r. destruct d.
    split_and!; [done| |by case_match; lia|done|done].
    by intros hops []%not_elem_of_nil.
Qed.

(** C21. What one call lets out. A path that does not match the declared template
    sends nothing. Otherwise there are at most three attempts for an idempotent
    operation and at most one for any other; each is the declared method to the
    adapter's host with the credential in its header only, and at most four
    redirects, all on that host and carrying nothing more; no box of a credential
    is touched; an answer is at most the limit long; and a failure that could pass
    is reported only when every attempt was used or the wait was cut short. Four is
    what the code does: [maxRedirects] is documented as the number of redirects
    allowed and is 5, but the fifth is the one that is stopped ([fifth_redirect]). *)
Theorem do_contained c r d :
  wp (Do c r) (fun res d' => exists tries ws,
    d' = mkEgress (wire d ++ concat tries) (waits d ++ ws) (boxes d) /\
    (forall hops, hops ∈ tries -> exists credential,
       injectCredential r (Secret.Reveal (r_Credential r) d) = Ok credential /\
       contained c (outbound c r credential) hops) /\
    (length tries <= if decide (Idempotency (r_Capability r) = Idempotent) then 3 else 1)%nat /\
    (MatchPath (Registry.Path (r_Capability r)) (r_Path r) = None -> res = Err CodePathNotAllowed /\ d' = d) /\
    match res with
    | Ok response => Attempts response = Z.of_nat (length tries) /\ (0 < length tries)%nat /\
        Z.of_nat (String.length (Body response)) <= maxBytes c
    | Err e => retryableError e = true ->
        length tries = allowedAttempts (r_Capability r) \/ wait_cut (waits d') = true
    end) d.
Proof. exact (wp_Do c r d). Qed.
End containment.

(** ** Built paths are declared paths *)

(** A template whose literal segments are plain names. *)
Definition plain_template (template : string) : bool :=
  forallb (fun s => bool_decide (is_Some (placeholder s)) || ((s !=? "") && negb (contains s "..")))
    (segments template).

Lemma dots_between a b : contains (a +:+ "/" +:+ b) ".." = contains a ".." || contains b "..".
Proof.
  induction a as [|c a IH]; [by destruct b|]. rewrite str_app_cons. cbn [contains].
  rewrite IH, orb_assoc. do 2 f_equal. cbn [String.prefix]. destruct (Ascii.ascii_dec "." c); [|done].
  destruct a as [|c' a]; [done|]. rewrite str_app_cons. cbn [String.prefix].
  destruct (Ascii.ascii_dec "." c'); [by destruct a|done].
Qed.

Lemma dots_join l : (forall s, s ∈ l -> contains s ".." = false) -> contains (join "/" l) ".." = false.
Proof.
  induction l as [|s [|s' l] IH]; intros Hl; [done|apply Hl; by left|].
  change (join "/" (s :: s' :: l)) with (s +:+ "/" +:+ join "/" (s' :: l)).
  rewrite dots_between, Hl by (by left). apply IH. intros x Hx. apply Hl. by right.
Qed.

Lemma split_parts sep s w : w ∈ split_on sep s -> str_exists (fun c => c ==? sep) w = false.
Proof.
  revert w. induction s as [|c s IH]; intros w; cbn [split_on]; [by intros ->%list_elem_of_singleton|].
  destruct (c ==? sep) eqn:Hc; [intros [->|Hw]%elem_of_cons; [done|by apply IH]|].
  destruct (split_on sep s) as [|v l]; [by intros ->%list_elem_of_singleton; cbn; rewrite Hc|].
  intros [->|Hw]%elem_of_cons; [cbn; rewrite Hc; apply IH; by left|apply IH; by right].
Qed.

Lemma fill_placeholder_Ok resource s v :
  fill_placeholder resource s = Ok v ->
  match placeholder s with
  | None => v = s
  | Some key => resource !! key = Some v /\ v <> "" /\ str_exists (fun c => c ==? "/"%char) v = false /\
      contains v ".." = false
  end.
Proof.
  unfold fill_placeholder. destruct (placeholder s) as [key|]; [|congruence].
  destruct (resource !! key) as [x|]; [|done]. destruct (trim_space x ==? "") eqn:Eb; [done|].
  destruct (_ || _) eqn:Ec; [done|]. intros [= ->]. apply orb_false_iff in Ec as [Hs Hd].
  bools. split_and!; [done| | |done].
  - intros ->. by vm_compute in Eb.
  - unfold contains_any in Hs. revert Hs. clear. induction v as [|c v IH]; [done|]. cbn [str_exists].
    rewrite !orb_false_iff. intros [Hc Hv]. split; [|by apply IH]. cbn in Hc.
    by apply orb_false_iff in Hc as [? _].
Qed.

Lemma fill_all_match resource l filled c0 :
  fill_all resource l = Ok filled ->
  (forall s, s ∈ l -> placeholder s = None -> s <> "") ->
  exists captured, match_segments l filled c0 = Some captured /\
    forall key v, key ∈ placeholders l -> resource !! key = Some v -> get_capture key captured = Some v.
Proof.
  revert filled c0. induction l as [|s l IH]; intros filled c0; cbn [fill_all].
  { intros [= <-] _. exists c0. split; [done|]. by intros key v []%not_elem_of_nil. }
  intros (v & Hv & Hr)%bind_Ok Hl. apply bind_Ok in Hr as (rest & Hr & [= <-]).
  apply fill_placeholder_Ok in Hv.
  assert (Hl' : forall s, s ∈ l -> placeholder s = None -> s <> "") by (intros x Hx; apply Hl; by right).
  cbn [match_segments]. unfold placeholders. cbn [omap list_omap]. destruct (placeholder s) as [key|] eqn:Es.
  - destruct Hv as (Hk & Hne & _). rewrite bool_decide_eq_false_2 by done.
    destruct (IH rest (set_capture key v c0) Hr Hl') as (captured & Hm & Hc). exists captured. split; [done|].
    intros key' v' Hkey Hv'. destruct (decide (key' ∈ placeholders l)) as [Hin|Hnin]; [by apply Hc|].
    apply elem_of_cons in Hkey as [->|Hkey]; [|done]. rewrite (match_segments_keep _ _ _ _ _ Hm Hnin).
    rewrite get_set_capture, decide_True by done. congruence.
  - subst v. rewrite bool_decide_eq_false_2 by (apply Hl; [by left|done]).
    rewrite bool_decide_eq_true_2 by done. by apply IH.
Qed.

(** The captures of a built path are the values it was built from. *)
Lemma built_captures c resource path :
  plain_template (Registry.Path c) = true ->
  buildPath c resource = Ok path ->
  exists captured, MatchPath (Registry.Path c) path = Some captured /\
    forall key, key ∈ placeholders (segments (Registry.Path c)) ->
      resource !! key = get_capture key captured /\ is_Some (resource !! key).
Proof.
  unfold plain_template, buildPath. rewrite forallb_elem_of. intros Ht (filled & Hf & [= <-])%bind_Ok.
  set (l := segments (Registry.Path c)) in *.
  assert (Hlit : forall s, s ∈ l -> placeholder s = None -> s <> "" /\ contains s ".." = false).
  { intros s Hs Hp. specialize (Ht s Hs). rewrite Hp, bool_decide_eq_false_2 in Ht by (by intros []).
    apply andb_true_iff in Ht as [Hn Hd]. split; [by apply negb_true_iff, bool_decide_eq_false in Hn|by apply negb_true_iff in Hd]. }
  assert (Hparts : Forall2 (fun s v => fill_placeholder resource s = Ok v) l filled).
  { clear -Hf. revert filled Hf. induction l as [|s l IH]; cbn [fill_all]; intros filled; [by intros [= <-]|].
    intros (v & Hv & Hr)%bind_Ok. apply bind_Ok in Hr as (rest & Hr & [= <-]). constructor; auto. }
  assert (Hv : forall v, v ∈ filled -> str_exists (fun c => c ==? "/"%char) v = false /\ contains v ".." = false).
  { intros v (i & Hi)%list_elem_of_lookup. destruct (Forall2_lookup_r _ _ _ _ _ Hparts Hi) as (s & Hs & Hfill).
    apply list_elem_of_lookup_2 in Hs. apply fill_placeholder_Ok in Hfill.
    destruct (placeholder s) eqn:Ep; [naive_solver|]. subst v. split; [|by apply Hlit].
    eapply split_parts. exact Hs. }
  assert (Hne : filled <> []).
  { intros ->. apply Forall2_length in Hparts. destruct l eqn:El; [|done].
    unfold l, segments in El. by apply split_on_nonempty in El. }
  assert (segments ("/" +:+ join "/" filled) = filled) as Hseg.
  { unfold segments. rewrite trim_prefix_app. apply (split_join "/"%char); [done|]. intros w Hw. by apply Hv. }
  destruct (fill_all_match resource l filled [] Hf) as (captured & Hm & Hc);
    [intros s Hs Hp; by apply Hlit|].
  exists captured. split.
  - unfold MatchPath. rewrite Hseg. fold l.
    rewrite (proj2 (Nat.eqb_eq (length l) (length filled))) by (by eapply Forall2_length).
    change (contains ("/" +:+ join "/" filled) "..") with (contains (join "/" filled) "..").
    rewrite dots_join by (intros s Hs; by apply Hv).
    assert (has_prefix ("/" +:+ join "/" filled) "/" = true) as -> by (by destruct (join "/" filled)). exact Hm.
  - intros key Hk. assert (exists v, resource !! key = Some v) as [v Hrv].
    { apply list_elem_of_omap in Hk as (s & Hs & Hp). apply list_elem_of_lookup in Hs as (i & Hi).
      destruct (Forall2_lookup_l _ _ _ _ _ Hparts Hi) as (v & _ & Hfill). apply fill_placeholder_Ok in Hfill.
      rewrite Hp in Hfill. naive_solver. }
    rewrite Hrv, (Hc key v Hk Hrv). eauto.
Qed.

(** The path of a request comes from its template: whatever values the
    resource has, a path that is built matches the template it was built from,
    with each placeholder standing for the value the resource has for it; so no
    value leads to another end point, and [Do] never refuses such a path. *)
Theorem buildPath_matches c resource path :
  plain_template (Registry.Path c) = true ->
  buildPath c resource = Ok path ->
  exists captured, MatchPath (Registry.Path c) path = Some captured /\
    forall key, key ∈ placeholders (segments (Registry.Path c)) ->
      resource !! key = get_capture key captured /\ is_Some (resource !! key).
Proof. exact (built_captures c resource path). Qed.

(** ** What the host check of a redirect lets through *)

Definition sample_creating : Capability :=
  {| Operation := "create_issue"; InputSchema := ""; c_MinimumScope := {| ResourceKeys := ["repo"]; RequiresAccount := true |};
     RiskLabel := RiskLabelMedium; Registry.Method := "POST"; Registry.Path := "/repos/{repo}/issues";
     RedactionRules := Some []; ResponseFields := ["id"]; Rollback := RollbackManual; Idempotency := NonIdempotent;
     c_Nature := {| Destructive := false; PermissionChange := false; SecretAccess := false; Billing := false;
       ExternalCommunication := false |} |}.

Lemma buildPath_matches_witness :
  exists captured, MatchPath "/repos/{repo}/issues" "/repos/OpenDelo/issues" = Some captured /\
    get_capture "repo" captured = Some "OpenDelo".
Proof.
  destruct (buildPath_matches sample_creating {["repo" := "OpenDelo"]} "/repos/OpenDelo/issues"
    ltac:(vm_compute; reflexivity) ltac:(vm_compute; reflexivity)) as (captured & Hm & Hc).
  exists captured. split; [exact Hm|].
  destruct (Hc "repo" ltac:(vm_compute; constructor)) as [E _]. rewrite <- E. vm_compute. reflexivity.
Defined.

(** A transport whose first answer sends the request on. *)
Definition redirecting (u : URL) : Network :=
  {| reply_to := fun sent _ => match sent with
       | [] => Answered 307 (LocationURL u) (BodyRead "" true)
       | _ => Answered 200 NoLocation (BodyRead "{}" true) end;
     wait_cut := fun _ => false |}.

Definition url_of (s : string) : URL :=
  match @Parse no_addresses s with Some u => u | None => {| Scheme := ""; Opaque_ := ""; User := None;
    Host := ""; Url.Path := ""; RawPath := ""; OmitHost := false; ForceQuery := false; RawQuery := "";
    Fragment := ""; RawFragment := "" |} end.

Definition sample_client : Client :=
  {| baseURL := url_of "https://api.github.com"; timeout := DefaultTimeout;
     maxBytes := DefaultMaxResponseBytes; backoff := DefaultBackoff |}.

Definition sample_request : Request :=
  {| r_Capability := sample_creating; r_Path := "/repos/OpenDelo/issues"; r_Query := []; r_Body := "{}";
     r_AuthScheme := AuthBearer; r_AuthHeader := ""; r_Credential := Some 0%nat |}.

(** The constant is 5, and four redirects are followed: the list the check counts
    has the first request in it, so the fifth redirect is the one it stops. *)
Theorem fifth_redirect :
  let always := {| reply_to := fun _ _ => Answered 307 (LocationURL (url_of "https://api.github.com/again")) (BodyRead "" true);
                   wait_cut := fun _ => false |} in
  let run := @Do always sample_client sample_request (mkWorld (mkEgress [] [] ["ghp_token"]) 0 0 0) in
  run.1 = Err CodePathNotAllowed /\ maxRedirects = 5%nat /\
  length (wire (db run.2)) = 5%nat /\ map (fun h => Url.Path (h_URL h)) (wire (db run.2)) =
    ["/repos/OpenDelo/issues"; "/again"; "/again"; "/again"; "/again"].
Proof. cbv zeta. split_and!; vm_compute; reflexivity. Qed.

(** Only the host of a redirect is compared: the same request, credential and
    body included, is sent again to an end point nobody declared, and without
    encryption. *)
Theorem redirect_leaves_declared :
  exists w' second,
    @Do (redirecting (url_of "http://api.github.com/user/keys")) sample_client sample_request
      (mkWorld (mkEgress [] [] ["ghp_token"]) 0 0 0) = (Ok {| StatusCode := 200; Body := "{}"; Attempts := 1 |}, w') /\
    wire (db w') !! 1%nat = Some second /\
    Scheme (h_URL second) = "http" /\ Url.Path (h_URL second) = "/user/keys" /\ h_Method second = "POST" /\
    h_Header second = [("Content-Type", "application/json"); ("Authorization", "Bearer ghp_token")] /\
    pathAllowed (Registry.Path sample_creating) (Url.Path (h_URL second)) = false.
Proof. do 2 eexists. split; [vm_compute; reflexivity|]. split; [reflexivity|]. by split_and!; vm_compute. Qed.
