(* ===== verification/Execute.v ===== *)
(** * adapter: executing one operation

    The common contract of the adapters (registry/execute.go, preview.go), what
    their [Execute] methods share, and the one of github. *)
From S2P Require Import Prelude GoStr Apperr.
From S2P Require Json.
From S2P Require Import World Url Intent Redact Registry Response Outbound.
From S2P Require Adapters.
Open Scope Z_scope.
Set Warnings "-register-all".

(** ** The common contract (execute.go, preview.go) *)

Record ModelBudget := { MaxCostMicros : Z; MaxRequests : Z }.

Record ModelUsage := {
  Requests : Z;
  InputTokens : Z;
  OutputTokens : Z;
  CostMicros : Z;
  Estimated : bool;
}.

Definition no_budget : ModelBudget := {| MaxCostMicros := 0; MaxRequests := 0 |}.
Definition no_usage : ModelUsage :=
  {| Requests := 0; InputTokens := 0; OutputTokens := 0; CostMicros := 0; Estimated := false |}.

Record ExecuteInput := {
  in_Operation : string;
  in_Resource : gmap string string;
  in_Query : list (string * list string);
  in_Input : string;
  in_Budget : ModelBudget;
  in_Spent : ModelUsage;
  in_Credential : Secret.Value;
  in_OperationID : string;
}.

Record ExecuteOutput := { out_Result : Result; out_Usage : ModelUsage }.

Record PreviewOutput := { pre_Changes : list ResourceChange }.

(** What an adapter can do besides declaring: [None] where it does not implement
    the interface. [PreviewSource] is empty for an operation without one. *)
Record Executor := {
  ExecuteCapability : option (ExecuteInput -> M Egress Code ExecuteOutput);
  Previewer : option ((string -> string) * (ExecuteInput -> M Egress Code PreviewOutput));
}.

(** A refusal a service answered with, as a code (upstreamError of github,
    cloudflare and generichttp). *)
Definition upstreamError (status : Z) : Code :=
  if (status =? 401) || (status =? 403) then CodeCredentialNotAuthorized
  else if status =? 404 then CodeNotFound
  else if status =? 409 then CodeConflict
  else if status <? 500 then CodeInvalidRequest
  else CodeGatewayUnavailable.

Definition find_operation (declared : list Capability) (operation : string) : option Capability :=
  Adapters.byOperation declared !! operation.

Section adapters.
Context `{Unicode} `{Addresses} `{Floats} `{Network}.

Definition outgoing (capability : Capability) (path : string) (scheme header : string)
    (query : list (string * list string)) (i : ExecuteInput) : Request :=
  {| r_Capability := capability; r_Path := path; r_Query := query;
     r_Body := if Write capability then in_Input i else "";
     r_AuthScheme := scheme; r_AuthHeader := header; r_Credential := in_Credential i |}.

(** ** github *)

Definition render (capability : Capability) (body : string) : result Code (option Json.json) :=
  if Operation capability !=? Adapters.Github.OpReadActionsLogs then Redact body capability
  else
    Ok (Some (Json.JObj [(Json.quote_body Adapters.Github.fieldLogs,
      Json.of_string (RedactActionsLog body (default [] (RedactionRules capability))))])).

(** The end of every [Execute]: an answer becomes a result, a refusal or a
    failure of the channel becomes a failed result. *)
Definition conclude (operationID : string) (answer : result Code Response)
    (rendered : string -> result Code (option Json.json)) : Result :=
  match answer with
  | Err e => Failure operationID e
  | Ok response =>
      if 400 <=? StatusCode response then
        FromUpstream (Failure operationID (upstreamError (StatusCode response))) (StatusCode response)
      else
        match rendered (Body response) with
        | Err e => FromUpstream (Failure operationID e) (StatusCode response)
        | Ok data => FromUpstream (Success operationID data []) (StatusCode response)
        end
  end.

Definition Github_Execute (client : Client) (i : ExecuteInput) : M Egress Code Result :=
  match find_operation Adapters.Github.capabilities (in_Operation i) with
  | None => throw CodeCapabilityNotOffered
  | Some capability =>
      _ ← refuse (negb (Adapters.Github.executable (in_Operation i))) CodeNotImplemented;
      path ← of_result (buildPath capability (in_Resource i));
      answer ← try_ (Do client (outgoing capability path AuthBearer "" [] i));
      mret (conclude (in_OperationID i) answer (render capability))
  end.
End adapters.

(** ** What a call of an adapter leaves *)

Section effects.
Context `{Unicode} `{Addresses} `{Floats} `{Network}.

Lemma wp_call {A} c r (k : result Code Response -> A) d (Q : result Code A -> Egress -> Prop) :
  (forall answer d', let_out c r d answer d' -> Q (Ok (k answer)) d') ->
  wp (answer ← try_ (Do c r); mret (k answer)) Q d.
Proof. intros HQ. apply wp_bind, wp_try. eapply wp_mono; [apply wp_Do|]. intros. by apply wp_ret, HQ. Qed.

Lemma let_out_boxes c r d answer d' : let_out c r d answer d' -> boxes d' = boxes d.
Proof. by intros (tries & ws & -> & _). Qed.

(** A request on the way of one call. *)
Definition on_the_way (c : Client) (r : Request) (h : Hop) : Prop :=
  Host (h_URL h) = Host (baseURL c) /\
  (h_Method h = Registry.Method (r_Capability r) \/ h_Method h = "GET") /\
  (h_Body h = r_Body r \/ h_Body h = "").

Lemma let_out_sent c r d answer d' : let_out c r d answer d' ->
  exists hops, wire d' = wire d ++ hops /\ forall h, h ∈ hops -> on_the_way c r h.
Proof.
  intros (tries & ws & -> & Ht & _). exists (concat tries). split; [done|].
  intros h (hops & Hhops%list_elem_of_In & Hh%list_elem_of_In)%list_elem_of_In%in_concat. destruct (Ht hops Hhops) as (credential & _ & Hc).
  destruct (cn_hops _ _ _ Hc h Hh) as (? & _ & Hb & Hm). by split_and!.
Qed.

(** An answer that was kept, and what the caller gets of it. *)
Definition kept_of (answer : result Code Response) (rendered : string -> result Code (option Json.json))
    (r : Result) : Prop :=
  (OK r = true -> exists response, answer = Ok response /\ StatusCode response < 400 /\
     rendered (Body response) = Ok (Data r)) /\
  (OK r = false -> Data r = None).

Lemma conclude_kept operationID answer rendered :
  kept_of answer rendered (conclude operationID answer rendered) /\
  OperationID (conclude operationID answer rendered) = operationID /\
  Changes (conclude operationID answer rendered) = [].
Proof.
  unfold conclude, kept_of. destruct answer as [response|e]; [|done].
  destruct (Z.leb_spec 400 (StatusCode response)); [done|].
  destruct (rendered (Body response)) as [data|e] eqn:Er; [|done]. cbn. split_and!; try done.
  intros _. by exists response.
Qed.

Lemma find_operation_spec declared operation capability :
  NoDup (map Operation declared) ->
  find_operation declared operation = Some capability <-> capability ∈ declared /\ Operation capability = operation.
Proof. apply Adapters.byOperation_lookup. Qed.

(** Also where an operation is declared twice. *)
Lemma find_operation_in declared operation capability :
  find_operation declared operation = Some capability -> capability ∈ declared /\ Operation capability = operation.
Proof.
  unfold find_operation, Adapters.byOperation.
  assert (forall m : gmap string Capability,
    foldl (fun m c => <[Operation c := c]> m) m declared !! operation = Some capability ->
    m !! operation = Some capability \/ (capability ∈ declared /\ Operation capability = operation)) as Hgen.
  { induction declared as [|c declared IH]; intros m; cbn [foldl]; [by left|].
    intros [Hm|[Hin Ho]]%IH; [|right; split; [by right|done]].
    apply lookup_insert_Some in Hm as [[<- <-]|[_ Hm]]; [right; split; [by left|done]|by left]. }
  intros [Hm|Hin]%Hgen; [|done]. by rewrite lookup_empty in Hm.
Qed.

(** What holds of a declared table, operation by operation. *)
Lemma declared_all declared (p : Capability -> bool) capability :
  forallb p declared = true -> capability ∈ declared -> p capability = true.
Proof. rewrite forallb_elem_of. auto. Qed.

Lemma buildPath_allowed capability resource path :
  plain_template (Registry.Path capability) = true -> buildPath capability resource = Ok path ->
  is_Some (MatchPath (Registry.Path capability) path).
Proof. intros Ht Hp. destruct (built_captures _ _ _ Ht Hp) as (captured & -> & _). by exists captured. Qed.

Lemma fill_all_error resource l e : fill_all resource l = Err e -> e = CodeInvalidRequest.
Proof.
  induction l as [|s l IH]; cbn [fill_all]; [done|].
  assert (forall e', fill_placeholder resource s = Err e' -> e' = CodeInvalidRequest) as Hs
    by (unfold fill_placeholder; intros e'; repeat case_match; intros [=]; done).
  destruct (fill_placeholder resource s); cbn; [|intros [= ->]; by apply Hs].
  destruct (fill_all resource l); cbn; [done|]. intros [= ->]. by apply IH.
Qed.

Lemma buildPath_error capability resource e : buildPath capability resource = Err e -> e = CodeInvalidRequest.
Proof.
  unfold buildPath. destruct (fill_all _ _) eqn:Ef; cbn; [done|]. intros [= ->]. by eapply fill_all_error.
Qed.

(** *** github *)

(** The table: operations are distinct, paths are plain, and exactly those not of
    high risk are executed. *)
Lemma github_table : NoDup (map Operation Adapters.Github.capabilities) /\
  forall c, c ∈ Adapters.Github.capabilities -> plain_template (Registry.Path c) = true /\
    Adapters.Github.executable (Operation c) = (RiskLabel c !=? RiskLabelHigh).
Proof.
  split; [apply (bool_decide_unpack _); vm_compute; exact I|]. intros c Hc.
  assert (forallb (fun c => plain_template (Registry.Path c) &&
    Bool.eqb (Adapters.Github.executable (Operation c)) (RiskLabel c !=? RiskLabelHigh)) Adapters.Github.capabilities = true)
    as Hall by (vm_compute; reflexivity).
  apply (declared_all _ _ c Hall) in Hc as [Hp He]%andb_true_iff. split; [done|]. by apply Bool.eqb_prop.
Qed.

(** How a run ends. *)
Definition github_ran (client : Client) (i : ExecuteInput) (d : Egress) (res : result Code Result) (d' : Egress) : Prop :=
  match res with
  | Err e => d' = d /\
      ((e = CodeCapabilityNotOffered /\
        forall c, c ∈ Adapters.Github.capabilities -> Operation c <> in_Operation i) \/
       (e = CodeNotImplemented /\ exists c, c ∈ Adapters.Github.capabilities /\ Operation c = in_Operation i /\
        RiskLabel c = RiskLabelHigh) \/
       (e = CodeInvalidRequest /\ exists c, c ∈ Adapters.Github.capabilities /\ Operation c = in_Operation i /\
        buildPath c (in_Resource i) = Err e))
  | Ok r => exists c path answer,
      c ∈ Adapters.Github.capabilities /\ Operation c = in_Operation i /\ RiskLabel c <> RiskLabelHigh /\
      buildPath c (in_Resource i) = Ok path /\ is_Some (MatchPath (Registry.Path c) path) /\
      let_out client (outgoing c path AuthBearer "" [] i) d answer d' /\
      kept_of answer (render c) r /\ OperationID r = in_OperationID i
  end.

Lemma wp_Github_Execute client i d : wp (Github_Execute client i) (github_ran client i d) d.
Proof.
  destruct github_table as [Hdistinct Htable]. unfold Github_Execute.
  destruct (find_operation Adapters.Github.capabilities (in_Operation i)) as [c|] eqn:Ef.
  - apply find_operation_spec in Ef as [Hin Hop]; [|done]. destruct (Htable c Hin) as [Hplain Hexec].
    rewrite <- Hop, Hexec. wp_steps. destruct (decide (RiskLabel c = RiskLabelHigh)) as [Hr|Hr].
    { rewrite bool_decide_eq_true_2 by done. cbn. split; [done|]. right; left. eauto. }
    rewrite bool_decide_eq_false_2 by done. cbn. wp_steps.
    destruct (buildPath c (in_Resource i)) as [path|e] eqn:Eb.
    + apply wp_call. intros answer d' Hout. exists c, path, answer.
      destruct (conclude_kept (in_OperationID i) answer (render c)) as (Hk & Ho & _).
      split_and!; try done. by eapply buildPath_allowed.
    + pose proof (buildPath_error _ _ _ Eb) as ->. split; [done|]. right; right. eauto.
  - apply wp_throw. split; [done|]. left. split; [done|]. intros c Hc Hop.
    rewrite (proj2 (find_operation_spec Adapters.Github.capabilities (in_Operation i) c Hdistinct)) in Ef; done.
Qed.

(** Executing a GitHub operation. A run that is refused sends nothing: the
    operation is not declared, or it is one of the high-risk ones, or a resource
    value is missing or would change the path. Any other run makes one call, of a
    declared operation that is not of high risk, to a path that matches its
    template; what the caller gets is the answer cut down to the declared fields,
    and nothing of an answer that is a failure. *)
Theorem github_effects client i d :
  wp (Github_Execute client i) (fun res d' =>
    match res with
    | Err e => d' = d /\
        ((e = CodeCapabilityNotOffered /\
          forall c, c ∈ Adapters.Github.capabilities -> Operation c <> in_Operation i) \/
         (e = CodeNotImplemented /\ exists c, c ∈ Adapters.Github.capabilities /\ Operation c = in_Operation i /\
          RiskLabel c = RiskLabelHigh) \/
         (e = CodeInvalidRequest /\ exists c, c ∈ Adapters.Github.capabilities /\ Operation c = in_Operation i /\
          buildPath c (in_Resource i) = Err e))
    | Ok r => exists c path answer,
        c ∈ Adapters.Github.capabilities /\ Operation c = in_Operation i /\ RiskLabel c <> RiskLabelHigh /\
        buildPath c (in_Resource i) = Ok path /\ is_Some (MatchPath (Registry.Path c) path) /\
        let_out client (outgoing c path AuthBearer "" [] i) d answer d' /\
        kept_of answer (render c) r /\ OperationID r = in_OperationID i
    end) d.
Proof. exact (wp_Github_Execute client i d). Qed.
End effects.

(** ** What every adapter keeps *)

Section laws.
Context `{Unicode} `{Addresses} `{Floats} `{Network}.

(** Requests to one host, nothing else: the boxes stay. *)
Definition sends_to (host : string) (d d' : Egress) : Prop :=
  boxes d' = boxes d /\
  exists hops, wire d' = wire d ++ hops /\ forall h, h ∈ hops -> Host (h_URL h) = host.

Lemma sends_to_refl host d : sends_to host d d.
Proof. split; [done|]. exists []. split; [by rewrite app_nil_r|]. by intros h []%not_elem_of_nil. Qed.

Lemma sends_to_trans host d1 d2 d3 : sends_to host d1 d2 -> sends_to host d2 d3 -> sends_to host d1 d3.
Proof.
  intros [Hb1 (l1 & Hw1 & Hh1)] [Hb2 (l2 & Hw2 & Hh2)]. split; [congruence|]. exists (l1 ++ l2).
  split; [by rewrite Hw2, Hw1, app_assoc|]. intros h [?|?]%elem_of_app; auto.
Qed.

Lemma let_out_sends c r d answer d' : let_out c r d answer d' -> sends_to (Host (baseURL c)) d d'.
Proof.
  intros Hout. split; [by eapply let_out_boxes|]. apply let_out_sent in Hout as (hops & Hw & Hh).
  exists hops. split; [done|]. intros h Hin. by destruct (Hh h Hin).
Qed.

(** Only requests with the method GET and no body. *)
Definition only_reads (d d' : Egress) : Prop :=
  boxes d' = boxes d /\
  exists hops, wire d' = wire d ++ hops /\ forall h, h ∈ hops -> h_Method h = "GET" /\ h_Body h = "".

Lemma only_reads_refl d : only_reads d d.
Proof. split; [done|]. exists []. split; [by rewrite app_nil_r|]. by intros h []%not_elem_of_nil. Qed.

Lemma let_out_reads c capability path scheme header query i d answer d' :
  Registry.Method capability = "GET" ->
  let_out c (outgoing capability path scheme header query i) d answer d' -> only_reads d d'.
Proof.
  intros Hm Hout. split; [by eapply let_out_boxes|]. apply let_out_sent in Hout as (hops & Hw & Hh).
  exists hops. split; [done|]. intros h Hin. destruct (Hh h Hin) as (_ & Hmethod & Hbody). cbn in Hmethod, Hbody.
  unfold Write in Hbody. rewrite Hm in Hmethod, Hbody. cbn in Hbody. tauto.
Qed.

(** The contract of an adapter's calls, [host] being where its service is: what
    they do to the outside is to send requests there, nothing after a refusal; and
    a preview only reads. *)
Record ExecutorLaws (x : Executor) (host : string) : Prop := {
  execute_law run i d : ExecuteCapability x = Some run ->
    wp (run i) (fun res d' => sends_to host d d' /\ (is_Ok res = false -> d' = d)) d;
  preview_law source run i d : Previewer x = Some (source, run) ->
    wp (run i) (fun _ d' => sends_to host d d' /\ only_reads d d') d;
}.

Lemma plain_executor_laws (execute : ExecuteInput -> M Egress Code Result) host :
  (forall i d, wp (execute i) (fun res d' => sends_to host d d' /\ (is_Ok res = false -> d' = d)) d) ->
  forall i d, wp (r ← execute i; mret {| out_Result := r; out_Usage := no_usage |})
    (fun res d' => sends_to host d d' /\ (is_Ok res = false -> d' = d)) d.
Proof. intros Hrun i d. wp_steps. eapply wp_mono; [apply Hrun|]. by intros [r|e] d' Hr; wp_steps. Qed.

Lemma github_executor_laws client i d :
  wp (Github_Execute client i) (fun res d' => sends_to (Host (baseURL client)) d d' /\ (is_Ok res = false -> d' = d)) d.
Proof.
  eapply wp_mono; [apply wp_Github_Execute|]. intros [r|e] d'.
  - intros (c & path & answer & _ & _ & _ & _ & _ & Hout & _). split; [by eapply let_out_sends|done].
  - intros [-> _]. split; [apply sends_to_refl|done].
Qed.
End laws.
