(* ===== verification/GenericHttp.v ===== *)
(** * adapter/generichttp: a service the user defines (adapter.go, definition.go)

    The only adapter whose addresses are not compiled in: a definition is checked
    for its shape, and its host is looked up and must not be on this machine or
    its network, when the adapter is made and before every request. *)
From S2P Require Import Prelude GoStr Apperr.
From S2P Require Json.
From S2P Require Import World Url Intent Redact Registry Response Outbound Execute.
From S2P Require Adapters.
Open Scope Z_scope.
Set Warnings "-register-all".

(** ** Definitions *)

Section definitions.
Context `{Unicode}.

Record OperationDefinition := {
  o_Operation : string;
  o_Method : string;
  o_Path : string;
  o_InputSchema : string;
  o_RiskLabel : string;
  o_RedactionRules : option (list string);
  o_ResponseFields : list string;
  o_Rollback : string;
  o_Idempotency : string;
  o_Nature : Nature;
  o_ResourceKeys : list string;
}.

Record Definition_ := {
  d_Service : string;
  d_DisplayName : string;
  d_BaseURL : string;
  d_AuthScheme : string;
  d_AuthHeader : string;
  d_Operations : list OperationDefinition;
}.

Definition operation_capability (o : OperationDefinition) : Capability :=
  {| Operation := o_Operation o; InputSchema := o_InputSchema o;
     c_MinimumScope := {| ResourceKeys := o_ResourceKeys o; RequiresAccount := true |};
     RiskLabel := o_RiskLabel o; Registry.Method := o_Method o; Registry.Path := o_Path o;
     RedactionRules := o_RedactionRules o; ResponseFields := o_ResponseFields o;
     Rollback := o_Rollback o; Idempotency := o_Idempotency o; c_Nature := o_Nature o |}.

Fixpoint validated (l : list OperationDefinition) : result Code (list Capability) :=
  match l with
  | [] => Ok []
  | o :: l =>
      let c := operation_capability o in
      _ ← Validate c; rest ← validated l; Ok (c :: rest)
  end.

Definition definition_capabilities (d : Definition_) : result Code (list Capability) :=
  _ ← refuse_if (length (d_Operations d) =? 0)%nat CodeInvalidConfiguration;
  validated (d_Operations d).

Definition validateShape (d : Definition_) : result Code unit :=
  if trim_space (d_Service d) ==? "" then Err CodeInvalidConfiguration
  else if trim_space (d_DisplayName d) ==? "" then Err CodeInvalidConfiguration
  else if negb (one_of (d_AuthScheme d) [AuthNone; AuthBearer; AuthHeader]) then Err CodeInvalidConfiguration
  else if (d_AuthScheme d ==? AuthHeader) && (trim_space (d_AuthHeader d) ==? "")
    then Err CodeInvalidConfiguration
  else Ok tt.
End definitions.

(** ** Where it may connect to (definition.go)

    An address is its bytes, four or sixteen. [net.ParseIP] and the resolver are
    parameters: what a name stands for may change from one look-up to the next. *)
Definition IP := list Z.

Class Names := {
  ParseIP : string -> option IP;
  lookup_at : nat -> string -> option (list IP);
}.

(** [IP.To4]. *)
Definition To4 (ip : IP) : option IP :=
  if (length ip =? 4)%nat then Some ip
  else if (length ip =? 16)%nat && bool_decide (take 12 ip = repeat 0 10 ++ [255; 255]) then Some (drop 12 ip)
  else None.

Definition shortest (ip : IP) : IP := default ip (To4 ip).

(** A network: its number and the bytes of its mask. *)
Record IPNet := { number : IP; mask : list Z }.

Fixpoint masked_equal (n m a : list Z) : bool :=
  match n, m, a with
  | x :: n, k :: m, y :: a => (Z.land x k =? Z.land y k) && masked_equal n m a
  | _, _, _ => true
  end.

Definition Contains (network : IPNet) (ip : IP) : bool :=
  let ip := shortest ip in
  (length ip =? length (number network))%nat && masked_equal (number network) (mask network) ip.

(** [net.CIDRMask]. *)
Fixpoint cidr_mask (ones : nat) (bytes : nat) : list Z :=
  match bytes with
  | O => []
  | S bytes => (255 - 255 / 2 ^ Z.of_nat ones) :: cidr_mask (ones - 8) bytes
  end.

Definition network4 (a b c d : Z) (ones : nat) : IPNet := {| number := [a; b; c; d]; mask := cidr_mask ones 4 |}.
Definition network6 (first : list Z) (last : Z) (ones : nat) : IPNet :=
  {| number := first ++ repeat 0 (15 - length first) ++ [last]; mask := cidr_mask ones 16 |}.

Definition blockedNetworks : list IPNet :=
  [ network4 0 0 0 0 8; network4 10 0 0 0 8; network4 100 64 0 0 10; network4 127 0 0 0 8;
    network4 169 254 0 0 16; network4 172 16 0 0 12; network4 192 168 0 0 16;
    network6 [] 1 128; network6 [252] 0 7; network6 [254; 128] 0 10 ].

Definition IsUnspecified (ip : IP) : bool :=
  bool_decide (shortest ip = repeat 0 4) || bool_decide (ip = repeat 0 16).

Definition byte_at (i : nat) (ip : IP) : Z := default 0 (ip !! i).

Definition IsMulticast (ip : IP) : bool :=
  match To4 ip with
  | Some four => Z.land (byte_at 0 four) 240 =? 224
  | None => (length ip =? 16)%nat && (byte_at 0 ip =? 255)
  end.

Definition IsInterfaceLocalMulticast (ip : IP) : bool :=
  (length ip =? 16)%nat && (byte_at 0 ip =? 255) && (Z.land (byte_at 1 ip) 15 =? 1).

Definition checkIP (address : IP) : result Code unit :=
  if IsUnspecified address || IsMulticast address || IsInterfaceLocalMulticast address then
    Err CodeInvalidConfiguration
  else if existsb (fun n => Contains n address) blockedNetworks then Err CodeInvalidConfiguration
  else Ok tt.

Fixpoint check_all (l : list IP) : result Code unit :=
  match l with [] => Ok tt | a :: l => _ ← checkIP a; check_all l end.

(** The n-th look-up. *)
Definition checkHost `{Names} (n : nat) (host : string) : result Code unit :=
  match ParseIP host with
  | Some literal => checkIP literal
  | None =>
      match lookup_at n host with
      | None => Err CodeInvalidConfiguration
      | Some addresses =>
          _ ← refuse_if (length addresses =? 0)%nat CodeInvalidConfiguration;
          check_all addresses
      end
  end.

(** [URL.Hostname]: without port and brackets. *)
Definition Hostname (u : URL) : string :=
  let host := Host u in
  let stripped := match cut_last ":" host with
    | Some (name, port) => if validOptionalPort (String ":" port) then name else host
    | None => host end in
  if has_prefix stripped "[" && has_suffix stripped "]" then
    take_str (String.length stripped - 2) (drop_str 1 stripped)
  else stripped.

Definition validateBaseURL `{Addresses} `{Names} (n : nat) (rawURL : string) : result Code unit :=
  match Parse rawURL with
  | None => Err CodeInvalidConfiguration
  | Some parsed =>
      if Scheme parsed !=? "https" then Err CodeInvalidConfiguration
      else if Hostname parsed ==? "" then Err CodeInvalidConfiguration
      else if bool_decide (is_Some (User parsed)) then Err CodeInvalidConfiguration
      else checkHost n (Hostname parsed)
  end.

Record GenericAdapter := {
  g_definition : Definition_;
  g_client : Client;
  g_host : string;
  g_declarations : list Capability;
}.

Section generic.
Context `{Unicode} `{Addresses} `{Floats} `{Network} `{Names}.

Definition Generic_New (n : nat) (d : Definition_) : result Code GenericAdapter :=
  _ ← validateShape d;
  declared ← definition_capabilities d;
  _ ← validateBaseURL n (d_BaseURL d);
  client ← NewClient {| Outbound.BaseURL := d_BaseURL d; Timeout := 0; MaxResponseBytes := 0; Backoff := 0 |};
  match Parse (d_BaseURL d) with
  | None => Err CodeInvalidConfiguration
  | Some parsed =>
      Ok {| g_definition := d; g_client := client; g_host := Hostname parsed; g_declarations := declared |}
  end.

(** The target is checked again before each request. *)
Definition Generic_Execute (a : GenericAdapter) (n : nat) (i : ExecuteInput) : M Egress Code Result :=
  match find_operation (g_declarations a) (in_Operation i) with
  | None => throw CodeCapabilityNotOffered
  | Some capability =>
      path ← of_result (buildPath capability (in_Resource i));
      _ ← refuse (negb (is_Ok (checkHost n (g_host a)))) CodePathNotAllowed;
      answer ← try_ (Do (g_client a) (outgoing capability path (d_AuthScheme (g_definition a))
                 (d_AuthHeader (g_definition a)) (in_Query i) i));
      mret (conclude (in_OperationID i) answer (fun body => Redact body capability))
  end.
End generic.

(** ** Addresses on this machine and this network *)

(** Four or sixteen bytes. *)
Definition valid_ip (ip : IP) : Prop :=
  Forall (fun b => 0 <= b < 256) ip /\ (length ip = 4%nat \/ length ip = 16%nat).

(** Local or not meant for one host, in decimal: 0/8, 10/8, 100.64/10, 127/8,
    169.254/16, 172.16/12, 192.168/16, 224/4. *)
Definition local4 (a b : Z) : Prop :=
  a = 0 \/ a = 10 \/ (a = 100 /\ 64 <= b <= 127) \/ a = 127 \/ (a = 169 /\ b = 254) \/
  (a = 172 /\ 16 <= b <= 31) \/ (a = 192 /\ b = 168) \/ 224 <= a <= 239.

(** The unspecified address, ::1, fc00::/7, fe80::/10 and ff00::/8. *)
Definition local6 (ip : IP) : Prop :=
  ip = repeat 0 16 \/ ip = repeat 0 15 ++ [1] \/ 252 <= byte_at 0 ip <= 253 \/
  (byte_at 0 ip = 254 /\ 128 <= byte_at 1 ip <= 191) \/ byte_at 0 ip = 255.

(** Neither, an IPv4 address written as an IPv6 one counting as the former. *)
Definition public (ip : IP) : Prop :=
  match To4 ip with
  | Some four => ~ local4 (byte_at 0 four) (byte_at 1 four)
  | None => ~ local6 ip
  end.

(** A fact of every byte. *)
Lemma every_byte_value (p : Z -> bool) :
  forallb (fun n => p (Z.of_nat n)) (seq 0 256) = true -> forall b, 0 <= b < 256 -> p b = true.
Proof.
  rewrite forallb_elem_of. intros Hp b Hb. rewrite <- (Z2Nat.id b) by lia. apply Hp, elem_of_seq. lia.
Qed.

Lemma land_255 b : 0 <= b < 256 -> Z.land b 255 = b.
Proof. intros Hb. change 255 with (Z.ones 8). rewrite Z.land_ones by lia. by apply Z.mod_small. Qed.

Lemma masks b : 0 <= b < 256 ->
  (64 = Z.land b 192 <-> 64 <= b <= 127) /\ (16 = Z.land b 240 <-> 16 <= b <= 31) /\
  (224 = Z.land b 240 <-> 224 <= b <= 239) /\ (252 = Z.land b 254 <-> 252 <= b <= 253) /\
  (128 = Z.land b 192 <-> 128 <= b <= 191).
Proof.
  intros Hb.
  assert (forall m v lo hi, forallb (fun n => let b := Z.of_nat n in
    Bool.eqb (v =? Z.land b m) ((lo <=? b) && (b <=? hi))) (seq 0 256) = true ->
    (v = Z.land b m <-> lo <= b <= hi)) as Hm.
  { intros m v lo hi Hf. pose proof (every_byte_value (fun b => Bool.eqb (v =? Z.land b m) ((lo <=? b) && (b <=? hi))) Hf b Hb) as He.
    apply Bool.eqb_prop in He.
    rewrite <- Z.eqb_eq, He, andb_true_iff. lia. }
  split_and!; apply Hm; vm_compute; reflexivity.
Qed.

(** [checkIP] as one condition. *)
Lemma checkIP_Ok ip :
  checkIP ip = Ok tt <->
  ~ (IsUnspecified ip = true \/ IsMulticast ip = true \/ IsInterfaceLocalMulticast ip = true \/
     existsb (fun n => Contains n ip) blockedNetworks = true).
Proof.
  unfold checkIP. destruct (IsUnspecified ip), (IsMulticast ip),
    (IsInterfaceLocalMulticast ip), (existsb _ blockedNetworks); cbn; split; intros; try done; try naive_solver.
Qed.

Lemma Contains_spec n ip :
  Contains n ip = true <->
  length (shortest ip) = length (number n) /\ masked_equal (number n) (mask n) (shortest ip) = true.
Proof. unfold Contains. by rewrite andb_true_iff, Nat.eqb_eq. Qed.

Ltac network_cases := cbn [masked_equal number mask network4 network6 cidr_mask app repeat length Nat.sub];
  repeat match goal with |- context [255 - 255 / 2 ^ Z.of_nat ?n] =>
    let v := eval vm_compute in (255 - 255 / 2 ^ Z.of_nat n) in change (255 - 255 / 2 ^ Z.of_nat n) with v end;
  rewrite ?Z.land_0_r; cbn [Z.land Z.eqb Pos.land Pos.eqb andb];
  rewrite ?andb_true_iff, ?Z.eqb_eq.

(** The networks of four bytes, one by one. *)
Lemma blocked4 a b c d :
  0 <= a < 256 -> 0 <= b < 256 ->
  existsb (fun n => Contains n [a; b; c; d]) blockedNetworks = true <->
  (a = 0 \/ a = 10 \/ (a = 100 /\ 64 <= b <= 127) \/ a = 127 \/ (a = 169 /\ b = 254) \/
   (a = 172 /\ 16 <= b <= 31) \/ (a = 192 /\ b = 168)).
Proof.
  intros Ha Hb. destruct (masks b Hb) as (Hb1 & Hb2 & _). cbn [existsb blockedNetworks].
  rewrite !orb_true_iff, !Contains_spec. change (shortest [a; b; c; d]) with [a; b; c; d].
  network_cases. rewrite !land_255 by done. change (Z.land 64 192) with 64. change (Z.land 16 240) with 16.
  rewrite Hb1, Hb2. intuition lia.
Qed.

Lemma checkIP4 a b c d :
  0 <= a < 256 -> 0 <= b < 256 -> checkIP [a; b; c; d] = Ok tt <-> ~ local4 a b.
Proof.
  intros Ha Hb. rewrite checkIP_Ok, blocked4 by done. unfold local4.
  assert (IsUnspecified [a; b; c; d] = true -> a = 0) as Hu.
  { unfold IsUnspecified. cbn. rewrite orb_true_iff, !bool_decide_eq_true. intros [[= -> _ _ _]|[=]]. done. }
  assert (IsMulticast [a; b; c; d] = true <-> 224 <= a <= 239) as Hm.
  { destruct (masks a Ha) as (_ & _ & <- & _). unfold IsMulticast. cbn. rewrite Z.eqb_eq. split; congruence. }
  assert (IsInterfaceLocalMulticast [a; b; c; d] = true <-> False) as Hi by done.
  rewrite Hm, Hi. intuition lia.
Qed.

Lemma To4_mapped a b c d :
  checkIP (repeat 0 10 ++ [255; 255; a; b; c; d]) = Ok tt <-> checkIP [a; b; c; d] = Ok tt.
Proof.
  rewrite !checkIP_Ok.
  assert (IsUnspecified (repeat 0 10 ++ [255; 255; a; b; c; d]) = IsUnspecified [a; b; c; d]) as ->.
  { unfold IsUnspecified. change (shortest (repeat 0 10 ++ _)) with [a; b; c; d].
    change (shortest [a; b; c; d]) with [a; b; c; d]. f_equal.
    rewrite !bool_decide_eq_false_2; [done|by intros [=]|intros E; cbn in E; congruence]. }
  done.
Qed.

Lemma blocked6 ip : length ip = 16%nat -> Forall (fun b => 0 <= b < 256) ip -> To4 ip = None ->
  existsb (fun n => Contains n ip) blockedNetworks = true <->
  (ip = repeat 0 15 ++ [1] \/ 252 <= byte_at 0 ip <= 253 \/ (byte_at 0 ip = 254 /\ 128 <= byte_at 1 ip <= 191)).
Proof.
  intros Hl Hb H4. do 16 (destruct ip as [|? ip]; [done|]). destruct ip; [|done].
  rewrite !Forall_cons in Hb. destruct_and! Hb.
  cbn [existsb blockedNetworks]. rewrite !orb_true_iff, !Contains_spec. unfold shortest. rewrite H4. cbn [default].
  network_cases. rewrite !land_255 by done.
  match goal with |- context [byte_at 0 (?x :: ?y :: _)] => change (byte_at 0 (x :: _)) with x; change (byte_at 1 (x :: y :: _)) with y;
    destruct (masks x) as (_ & _ & _ & Hm1 & _); [done|]; destruct (masks y) as (_ & _ & _ & _ & Hm2); [done|] end.
  change (Z.land 252 254) with 252. change (Z.land 128 192) with 128. rewrite Hm1, Hm2.
  split.
  - intros H. repeat (destruct H as [H|H]; [try (destruct H as [H _]; discriminate H)|]); [left|right; left|right; right|done].
    + destruct H as (_ & E1 & E2 & E3 & E4 & E5 & E6 & E7 & E8 & E9 & E10 & E11 & E12 & E13 & E14 & E15 & E16 & _).
      by rewrite <- E1, <- E2, <- E3, <- E4, <- E5, <- E6, <- E7, <- E8, <- E9, <- E10, <- E11, <- E12, <- E13, <- E14, <- E15, <- E16.
    + tauto.
    + destruct H as (_ & <- & H & _). done.
  - intros [[= -> -> -> -> -> -> -> -> -> -> -> -> -> -> -> ->]|[H|[-> H]]]; do 7 right;
      [left; by split_and!|right; left; exact (conj eq_refl (conj H eq_refl))|right; right; left; exact (conj eq_refl (conj eq_refl (conj H eq_refl)))].
Qed.

Lemma byte_head ip : length ip = 16%nat -> Forall (fun b => 0 <= b < 256) ip ->
  0 <= byte_at 0 ip < 256 /\ 0 <= byte_at 1 ip < 256.
Proof.
  intros Hl Hb. do 2 (destruct ip as [|? ip]; [done|]). rewrite !Forall_cons in Hb. unfold byte_at. cbn. tauto.
Qed.

(** An address passes the check exactly when it is public. *)
Lemma checkIP_public ip : valid_ip ip -> checkIP ip = Ok tt <-> public ip.
Proof.
  intros [Hb [Hl|Hl]].
  - do 4 (destruct ip as [|? ip]; [done|]). destruct ip; [|done]. rewrite !Forall_cons in Hb. destruct_and! Hb.
    unfold public. cbn. by apply checkIP4.
  - unfold public. destruct (To4 ip) as [four|] eqn:E4.
    + unfold To4 in E4. rewrite Hl in E4. cbn [Nat.eqb andb] in E4. case_bool_decide as Ht; [|done].
      injection E4 as <-. assert (ip = (repeat 0 10 ++ [255; 255]) ++ drop 12 ip) as Hip
        by (rewrite <- Ht; symmetry; apply take_drop).
      assert (length (drop 12 ip) = 4%nat) as Hd by (rewrite length_drop; lia).
      assert (Forall (fun b => 0 <= b < 256) (drop 12 ip)) as Hb' by (by apply Forall_drop).
      destruct (drop 12 ip) as [|a [|b [|c [|d [|]]]]]; try done. rewrite Hip.
      rewrite !Forall_cons in Hb'. destruct_and! Hb'. cbn [byte_at lookup list_lookup default].
      etrans; [exact (To4_mapped a b c d)|]. by apply checkIP4.
    + rewrite checkIP_Ok, (blocked6 ip Hl Hb E4). unfold local6.
      destruct (byte_head ip Hl Hb) as [H0 H1].
      assert (IsUnspecified ip = true <-> ip = repeat 0 16) as ->.
      { unfold IsUnspecified, shortest. rewrite E4. cbn [default]. rewrite orb_true_iff, !bool_decide_eq_true.
        split; [|by right]. intros [->|]; [done|done]. }
      assert (IsMulticast ip = true <-> byte_at 0 ip = 255) as ->.
      { unfold IsMulticast. rewrite E4, Hl. cbn [Nat.eqb andb]. apply Z.eqb_eq. }
      assert (IsInterfaceLocalMulticast ip = true -> byte_at 0 ip = 255) as Hi.
      { unfold IsInterfaceLocalMulticast. rewrite !andb_true_iff, !Z.eqb_eq. tauto. }
      tauto.
Qed.

(** ** What an adapter a user defined can reach *)

(** An address has four or sixteen bytes. *)
Class NamesLaws `{Names} : Prop := {
  ParseIP_valid host ip : ParseIP host = Some ip -> valid_ip ip;
  lookup_valid n host l : lookup_at n host = Some l -> Forall valid_ip l;
}.

Section reach.
Context `{Unicode} `{Addresses} `{Floats} `{Network} `{NamesLaws}.

(** Every address the n-th look-up gives for the host, and there is one. *)
Definition reaches_public (n : nat) (host : string) : Prop :=
  match ParseIP host with
  | Some ip => public ip
  | None => exists l, lookup_at n host = Some l /\ l <> [] /\ Forall public l
  end.

Lemma check_all_Ok l : Forall valid_ip l -> check_all l = Ok tt <-> Forall public l.
Proof.
  induction 1 as [|ip l Hip Hl IH]; cbn [check_all]; [done|]. rewrite Forall_cons, bind_Ok, <- IH, <- checkIP_public by done.
  split; [by intros ([] & ? & ?)|]. intros [? ?]. by exists tt.
Qed.

Lemma checkHost_public n host : checkHost n host = Ok tt <-> reaches_public n host.
Proof.
  unfold checkHost, reaches_public. destruct (ParseIP host) as [ip|] eqn:Ep.
  { by eapply checkIP_public, ParseIP_valid. }
  destruct (lookup_at n host) as [l|] eqn:El; [|split; [done|by intros (? & ? & _)]].
  rewrite bind_Ok. pose proof (check_all_Ok l (lookup_valid _ _ _ El)) as Hc. split.
  - intros ([] & Hl%refuse_if_Ok & Hp%Hc). exists l. split_and!; [done| |done]. by intros ->.
  - intros (l' & [= <-] & Hl & Hp). exists tt. split; [apply refuse_if_Ok; by destruct l|by apply Hc].
Qed.

(** What making an adapter establishes. *)
Record checked (n : nat) (d : Definition_) (a : GenericAdapter) : Prop := {
  ck_definition : g_definition a = d;
  ck_parsed : exists u, Parse (d_BaseURL d) = Some u /\ baseURL (g_client a) = u /\ g_host a = Hostname u /\
    Scheme u = "https" /\ Hostname u <> "" /\ User u = None;
  ck_public : reaches_public n (g_host a);
  ck_declared : map Operation (g_declarations a) = map o_Operation (d_Operations d) /\
    Forall (fun c => Validate c = Ok tt) (g_declarations a) /\ g_declarations a <> [];
}.

Lemma validated_Ok l declared : validated l = Ok declared ->
  declared = map operation_capability l /\ Forall (fun c => Validate c = Ok tt) declared.
Proof.
  revert declared. induction l as [|o l IH]; cbn [validated]; intros declared; [by intros [= <-]|].
  intros ([] & Hv & (rest & Hr & [= <-])%bind_Ok)%bind_Ok. destruct (IH rest Hr) as [-> Hall].
  split; [done|by constructor].
Qed.

Lemma Generic_New_Ok n d a : Generic_New n d = Ok a -> checked n d a.
Proof.
  unfold Generic_New. intros ([] & Hshape & (declared & Hd & ([] & Hb & (client & Hc & Ha)%bind_Ok)%bind_Ok)%bind_Ok)%bind_Ok.
  unfold definition_capabilities in Hd. apply bind_Ok in Hd as ([] & Hne & Hd). apply validated_Ok in Hd as [-> Hall].
  unfold validateBaseURL in Hb. unfold NewClient in Hc. cbn [Outbound.BaseURL] in Hc.
  destruct (Parse (d_BaseURL d)) as [u|] eqn:Ep; [|done]. injection Ha as <-.
  destruct (Scheme u !=? "https") eqn:Es; [done|]. destruct (Hostname u ==? "") eqn:Eh; [done|].
  destruct (bool_decide (is_Some (User u))) eqn:Eu; [done|]. destruct (_ || _) in Hc; [done|]. injection Hc as <-.
  apply checkHost_public in Hb. apply refuse_if_Ok in Hne. bools. split; cbn; try done.
  - exists u. split_and!; try done. by apply eq_None_not_Some.
  - split_and!; [by rewrite map_map|done|]. by destruct (d_Operations d).
Qed.

(** C22. What is checked before a service the user defined is called. An adapter
    exists only for an https address without user name, whose host was looked up
    and had public addresses only. A call that ends in a result was preceded by a
    look-up of its own, in which the host had an address and every one was public;
    its operation is a declared and validated one, and everything it sent names the
    host of that address and has the declared method or GET. A call that ends in an
    error sent nothing. The theorem is about the look-ups the adapter makes: the
    client resolves the name once more when it connects, and a redirect on the same
    host is followed whatever its scheme, so it says neither which address is
    reached nor that a redirected request is encrypted. *)
Theorem generic_public_only n0 n definition a i d :
  Generic_New n0 definition = Ok a ->
  reaches_public n0 (g_host a) /\
  wp (Generic_Execute a n i) (fun res d' =>
    match res with
    | Err e => d' = d /\ (e = CodePathNotAllowed -> ~ reaches_public n (g_host a))
    | Ok r => exists c path u hops,
        Validate c = Ok tt /\ Operation c = in_Operation i /\ buildPath c (in_Resource i) = Ok path /\
        reaches_public n (g_host a) /\
        Parse (d_BaseURL definition) = Some u /\ Scheme u = "https" /\ User u = None /\ Hostname u = g_host a /\
        wire d' = wire d ++ hops /\ boxes d' = boxes d /\
        (forall h, h ∈ hops -> Host (h_URL h) = Host u /\
           (h_Method h = Registry.Method c \/ h_Method h = "GET")) /\
        (OK r = false -> Data r = None)
    end) d.
Proof.
  intros [Hdef (u & Hp & Hbase & Hhost & Hs & _ & Hu) Hpub (Hops & Hall & _)]%Generic_New_Ok. split; [done|].
  unfold Generic_Execute. destruct (find_operation (g_declarations a) (in_Operation i)) as [c|] eqn:Ef; [|by apply wp_throw].
  apply find_operation_in in Ef as [Hin Hop]. rewrite Forall_forall in Hall. wp_steps.
  destruct (buildPath c (in_Resource i)) as [path|e] eqn:Eb.
  2: { pose proof (buildPath_error _ _ _ Eb) as ->. done. }
  wp_steps. destruct (checkHost n (g_host a)) as [[]|e] eqn:Eh; cbn.
  2: { split; [done|]. intros _ Hr%checkHost_public. congruence. }
  apply wp_call. intros answer d' Hout. pose proof (let_out_boxes _ _ _ _ _ Hout) as Hboxes.
  apply let_out_sent in Hout as (hops & Hwire & Hhops). exists c, path, u, hops.
  destruct (conclude_kept (in_OperationID i) answer (fun body => Redact body c)) as ((_ & Hk) & _).
  split_and!; try done; [by apply Hall|by apply checkHost_public|].
  intros h Hh. destruct (Hhops h Hh) as (Hhost' & Hm & _). by rewrite <- Hbase.
Qed.

Lemma generic_executor_laws a n i d :
  wp (Generic_Execute a n i) (fun res d' =>
    sends_to (Host (baseURL (g_client a))) d d' /\ (is_Ok res = false -> d' = d)) d.
Proof.
  pose proof (sends_to_refl (Host (baseURL (g_client a))) d) as Hrefl. unfold Generic_Execute.
  destruct (find_operation _ _) as [c|]; [|by apply wp_throw]. wp_steps.
  destruct (buildPath c (in_Resource i)); [|done]. wp_steps. destruct (negb _); [done|].
  apply wp_call. by intros answer d' Hout%let_out_sends.
Qed.
End reach.

(** ** A service whose name turns to this machine *)

(** No literals; the first look-up is public, later ones are not. *)
Definition rebinding : Names :=
  {| ParseIP := fun _ => None;
     lookup_at := fun n _ => Some (match n with O => [[93; 184; 216; 34]] | _ => [[93; 184; 216; 34]; [127; 0; 0; 1]] end) |}.

#[export] Instance rebinding_laws : @NamesLaws rebinding.
Proof.
  split; [done|]. intros [|n] host l [= <-]; repeat constructor; lia.
Qed.

Definition sample_definition : Definition_ :=
  {| d_Service := "tickets"; d_DisplayName := "Tickets"; d_BaseURL := "https://tickets.example.com/api";
     d_AuthScheme := AuthBearer; d_AuthHeader := "";
     d_Operations := [{| o_Operation := "read_ticket"; o_Method := "GET"; o_Path := "/tickets/{id}"; o_InputSchema := "{}";
       o_RiskLabel := RiskLabelLow; o_RedactionRules := Some []; o_ResponseFields := ["title"]; o_Rollback := RollbackNone;
       o_Idempotency := Idempotent; o_Nature := Adapters.nothing_special; o_ResourceKeys := ["id"] |}] |}.

Definition sample_call : ExecuteInput :=
  {| in_Operation := "read_ticket"; in_Resource := {["id" := "7"]}; in_Query := []; in_Input := "";
     in_Budget := no_budget; in_Spent := no_usage; in_Credential := Some 0%nat; in_OperationID := "op" |}.

(** The adapter is made; on the wire it answers; and a call whose look-up also
    gives the address of this machine fails and sends nothing. *)
Lemma generic_public_only_witness :
  exists a, @Generic_New ascii_only no_addresses rebinding 0 sample_definition = Ok a /\
    @reaches_public rebinding 0 (g_host a) /\
    forall w, exists e w', @Generic_Execute ascii_only no_addresses literal_floats
        (redirecting (url_of "https://tickets.example.com/api/tickets/7")) rebinding a 1 sample_call w = (Err e, w') /\
      db w' = db w.
Proof.
  eexists. split; [vm_compute; reflexivity|]. match goal with |- @reaches_public _ _ (g_host ?a') /\ _ => set (a := a') end.
  pose proof (fun n d => @generic_public_only ascii_only no_addresses literal_floats
    (redirecting (url_of "https://tickets.example.com/api/tickets/7")) rebinding rebinding_laws 0 n sample_definition a
    sample_call d ltac:(vm_compute; reflexivity)) as Hg.
  split; [exact (proj1 (Hg 0%nat (mkEgress [] [] [])))|]. intros w.
  pose proof (proj2 (Hg 1%nat (db w))) as Hrun.
  destruct (@Generic_Execute ascii_only no_addresses literal_floats
    (redirecting (url_of "https://tickets.example.com/api/tickets/7")) rebinding a 1 sample_call w) as [[r|e] w'] eqn:Hw;
    pose proof (wp_use _ _ w _ _ Hrun Hw) as Hr; cbv beta iota in Hr.
  - exfalso. destruct Hr as (c & path & u & hops & _ & _ & _ & Hp & _).
    destruct Hp as (l & [= <-] & _ & Hl). apply Forall_cons in Hl as [_ Hl]. apply Forall_cons in Hl as [Hl _].
    apply Hl. vm_compute. tauto.
  - exists e, w'. split; [reflexivity|apply Hr].
Defined.
