(* ===== verification/CloudflareAdapter.v ===== *)
(** * adapter/cloudflare: execution and preview (adapter.go)

    An update or a deletion of a DNS record first reads the record as it is; the
    comparison is what an approval shows, and without it nothing is changed. *)
From S2P Require Import Prelude GoStr Apperr.
From S2P Require Json.
From S2P Require Import World Url Intent Redact Registry Response Outbound Execute.
From S2P Require Import Adapters.
Open Scope Z_scope.
Set Warnings "-register-all".

Definition UnknownRecordCount : Z := 0.

Record Preview_ := { AffectedRecords : Z; p_Changes : list ResourceChange }.

(** [strconv.FormatFloat(f, 'f', -1, 64)], from the text JSON has for the float:
    the same digits, the exponent written out. *)
Definition plain_number (t : string) : string :=
  let '(mantissa, exponent, found) := cut "e" t in
  if negb found then t
  else
    let '(sign, digits) := if has_prefix mantissa "-" then ("-", drop_str 1 mantissa) else ("", mantissa) in
    let '(whole, frac, _) := cut "." digits in
    let zeros n := concat_str (repeat "0" n) in
    match parse_int (trim_prefix exponent "+") with
    | None => t
    | Some e =>
        if e <? 0 then sign +:+ "0." +:+ zeros (Z.to_nat (- e) - String.length whole)%nat +:+ whole +:+ frac
        else sign +:+ whole +:+ frac +:+ zeros (Z.to_nat e - String.length frac)%nat
    end.

Definition text (value : option any) : string :=
  match value with
  | None | Some ANull => ""
  | Some (AStr s) => s
  | Some (ABool b) => if b then "true" else "false"
  | Some (ANum t) => plain_number t
  | Some a => marshal_any a
  end.

Definition dnsComparedFields : list string := ["type"; "name"; "content"; "ttl"; "proxied"].

Definition member (object : list (string * any)) (key : string) : option any :=
  snd <$> find_first (fun kv => kv.1 ==? key) object.

Definition by_field (x y : ResourceChange) : Prop := String.le (Field_ x) (Field_ y).

#[export] Instance by_field_dec : RelDecision by_field.
Proof. intros x y. unfold by_field. apply _. Defined.

Section cloudflare.
Context `{Unicode} `{Addresses} `{Floats} `{Network}.

(** The change of one field; none when it is not asked for or stays empty. *)
Definition field_change (operation : string) (current desired : list (string * any)) (field : string)
    : option ResourceChange :=
  let before := text (member current field) in
  let change after :=
    if (before ==? "") && (after ==? "") then None
    else Some {| Resource := text (member current "name"); Field_ := field; Before := before; After := after |} in
  if operation ==? Cloudflare.OpDeleteDNSRecord then change ""
  else match member desired field with
       | None => None
       | Some value => change (text (Some value))
       end.

(** [map[string]any]: [null] leaves a nil map, anything else but an object is an
    error, which leaves the map empty. *)
Definition desired_of (operation input : string) : list (string * any) :=
  if operation ==? Cloudflare.OpDeleteDNSRecord then []
  else match unmarshal_any input with Some (AObj members) => members | _ => [] end.

Definition compare (operation : string) (current : list (string * any)) (input : string) : list ResourceChange :=
  merge_sort by_field (omap (field_change operation current (desired_of operation input)) dnsComparedFields).

Record purge := { Files : list string; PurgeEverything : bool }.

Definition purge_setters : list (Json.setter (S := purge)) :=
  [ ("files", fun v p => l ← Json.as_strings (Some (Files p)) v;
      Some {| Files := default [] l; PurgeEverything := PurgeEverything p |});
    ("purge_everything", fun v p =>
      match v with
      | Json.JBool b => Some {| Files := Files p; PurgeEverything := b |}
      | Json.JNull => Some p
      | _ => None
      end) ].

Definition affectedRecords (capability : Capability) (input : string) : Z :=
  if negb (Write capability) then 1
  else if Operation capability !=? Cloudflare.OpPurgeCache then 1
  else
    match (v ← Json.parse input; Json.decode_struct purge_setters v {| Files := []; PurgeEverything := false |}) with
    | None => UnknownRecordCount
    | Some p => if PurgeEverything p then UnknownRecordCount else Z.of_nat (length (Files p))
    end.

(** The [result] of the envelope, as it stands. *)
Definition envelope (body : string) : option string :=
  Json.unmarshal_raw [("result", fun raw (_ : string) => Some raw)] body "".

Definition unwrap (body : string) : result Code string :=
  match envelope body with
  | None => Err CodeInternal
  | Some raw => if (raw ==? "") || (raw ==? "null") then Err CodeInternal else Ok raw
  end.

(** The same with an object; members of a repeated [result] add up. *)
Definition current_record (body : string) : result Code (list (string * any)) :=
  let merge raw (old : option (list (string * any))) :=
    match unmarshal_any raw with
    | Some (AObj members) => Some (Some (foldl (fun m kv => put_member kv.1 kv.2 m) (default [] old) members))
    | Some ANull => Some None
    | _ => None
    end in
  match Json.unmarshal_raw [("result", merge)] body None with
  | Some (Some members) => Ok members
  | _ => Err CodeGatewayUnavailable
  end.

Definition executableCapability (operation : string) : result Code Capability :=
  match find_operation Cloudflare.capabilities operation with
  | None => Err CodeCapabilityNotOffered
  | Some capability => if negb (Cloudflare.executable operation) then Err CodeNotImplemented else Ok capability
  end.

(** [registry.Capability] has the zero value for an operation that is missing. *)
Definition zero_capability : Capability :=
  {| Operation := ""; InputSchema := ""; c_MinimumScope := {| ResourceKeys := []; RequiresAccount := false |};
     RiskLabel := ""; Registry.Method := ""; Registry.Path := ""; RedactionRules := None; ResponseFields := [];
     Rollback := ""; Idempotency := ""; c_Nature := nothing_special |}.

Definition cf_send (client : Client) (capability : Capability) (path : string) (i : ExecuteInput) : M Egress Code Response :=
  Do client (outgoing capability path AuthBearer "" [] i).

Definition readCurrentRecord (client : Client) (i : ExecuteInput) : M Egress Code (list (string * any)) :=
  let capability := default zero_capability (find_operation Cloudflare.capabilities Cloudflare.OpReadDNSRecord) in
  path ← of_result (buildPath capability (in_Resource i));
  response ← cf_send client capability path i;
  _ ← refuse (400 <=? StatusCode response) (upstreamError (StatusCode response));
  of_result (current_record (Body response)).

Definition Preview (client : Client) (i : ExecuteInput) : M Egress Code Preview_ :=
  capability ← of_result (executableCapability (in_Operation i));
  _ ← of_result (buildPath capability (in_Resource i));
  let affected := affectedRecords capability (in_Input i) in
  if negb (Cloudflare.changesBefore (in_Operation i)) then
    mret {| AffectedRecords := affected; p_Changes := [] |}
  else
    current ← readCurrentRecord client i;
    mret {| AffectedRecords := affected; p_Changes := compare (in_Operation i) current (in_Input i) |}.

(** How the answer to the operation itself ends: no status is recorded on
    success, nor when redaction fails. *)
Definition cf_conclude (operationID : string) (capability : Capability) (answer : result Code Response)
    (changes : list ResourceChange) : Result :=
  match answer with
  | Err e => Failure operationID e
  | Ok response =>
      if 400 <=? StatusCode response then
        FromUpstream (Failure operationID (upstreamError (StatusCode response))) (StatusCode response)
      else
        match unwrap (Body response) with
        | Err e => FromUpstream (Failure operationID e) (StatusCode response)
        | Ok payload =>
            match Redact payload capability with
            | Err e => Failure operationID e
            | Ok data => Success operationID data changes
            end
        end
  end.

Definition Cloudflare_Execute (client : Client) (i : ExecuteInput) : M Egress Code Result :=
  capability ← of_result (executableCapability (in_Operation i));
  path ← of_result (buildPath capability (in_Resource i));
  preview ← (if Cloudflare.changesBefore (in_Operation i) then try_ (Preview client i)
             else mret (Ok {| AffectedRecords := 0; p_Changes := [] |}));
  match preview with
  | Err e => mret (Failure (in_OperationID i) e)
  | Ok p =>
      answer ← try_ (cf_send client capability path i);
      mret (cf_conclude (in_OperationID i) capability answer (p_Changes p))
  end.

Definition PreviewSource (operation : string) : string :=
  if negb (Cloudflare.changesBefore operation) then "" else Cloudflare.OpReadDNSRecord.

Definition PreviewCapability (client : Client) (i : ExecuteInput) : M Egress Code PreviewOutput :=
  preview ← Preview client i; mret {| pre_Changes := p_Changes preview |}.
End cloudflare.

(** ** Reading before changing *)

Section reads_first.
Context `{Unicode} `{Addresses} `{Floats} `{Network}.

(** The operation a comparison reads with. *)
Definition reading_capability : Capability :=
  default zero_capability (find_operation Cloudflare.capabilities Cloudflare.OpReadDNSRecord).

Lemma cloudflare_table : NoDup (map Operation Cloudflare.capabilities) /\
  (forall c, c ∈ Cloudflare.capabilities -> plain_template (Registry.Path c) = true) /\
  reading_capability ∈ Cloudflare.capabilities /\ Registry.Method reading_capability = "GET" /\
  Write reading_capability = false.
Proof.
  split_and!; [apply (bool_decide_unpack _); vm_compute; exact I| |vm_compute; do 2 right; left|done|done].
  intros c. apply (declared_all _ (fun c => plain_template (Registry.Path c))). vm_compute. reflexivity.
Qed.

Lemma executableCapability_Ok operation capability :
  executableCapability operation = Ok capability <->
  capability ∈ Cloudflare.capabilities /\ Operation capability = operation /\ Cloudflare.executable operation = true.
Proof.
  pose proof (find_operation_spec Cloudflare.capabilities operation capability (proj1 cloudflare_table)) as Hf.
  unfold executableCapability. destruct (find_operation _ _) as [c|]; [|naive_solver].
  destruct (Cloudflare.executable operation); cbn; naive_solver.
Qed.

(** The current record, read through the declared operation. *)
Definition record_read (client : Client) (i : ExecuteInput) (d : Egress) (current : list (string * any)) (d' : Egress) : Prop :=
  exists path response,
    buildPath reading_capability (in_Resource i) = Ok path /\
    let_out client (outgoing reading_capability path AuthBearer "" [] i) d (Ok response) d' /\
    StatusCode response < 400 /\ current_record (Body response) = Ok current.

Lemma wp_readCurrentRecord client i d :
  wp (readCurrentRecord client i) (fun res d' => only_reads d d' /\
    forall current, res = Ok current -> record_read client i d current d') d.
Proof.
  unfold readCurrentRecord. fold reading_capability. wp_steps.
  destruct (buildPath reading_capability (in_Resource i)) as [path|e] eqn:Eb; [|by split; [apply only_reads_refl|]].
  unfold cf_send. apply wp_bind. eapply wp_mono; [apply wp_Do|]. intros answer d' Hout.
  assert (only_reads d d') as Hreads by (eapply let_out_reads; [apply cloudflare_table|exact Hout]).
  destruct answer as [response|e]; [|split; [exact Hreads|intros current [=]]]. wp_steps.
  destruct (Z.leb_spec 400 (StatusCode response)); [split; [exact Hreads|intros current [=]]|]. wp_steps.
  split; [exact Hreads|]. intros current Hc. exists path, response. split_and!; assumption.
Qed.

(** The end of a preview. *)
Definition previewed (client : Client) (i : ExecuteInput) (d : Egress) (res : result Code Preview_) (d' : Egress) : Prop :=
  only_reads d d' /\
  forall p, res = Ok p -> exists capability,
    executableCapability (in_Operation i) = Ok capability /\ AffectedRecords p = affectedRecords capability (in_Input i) /\
    if Cloudflare.changesBefore (in_Operation i)
    then exists current, record_read client i d current d' /\ p_Changes p = compare (in_Operation i) current (in_Input i)
    else d' = d /\ p_Changes p = [].

Lemma wp_Preview client i d : wp (Preview client i) (previewed client i d) d.
Proof.
  pose proof (only_reads_refl d) as Hd. unfold Preview. wp_steps.
  destruct (executableCapability (in_Operation i)) as [capability|] eqn:Ee; [|by split].
  wp_steps. destruct (buildPath capability (in_Resource i)) as [path|]; [|by split]. wp_steps.
  destruct (Cloudflare.changesBefore (in_Operation i)) eqn:Eb; cbn [negb].
  - apply wp_bind. eapply wp_mono; [apply wp_readCurrentRecord|]. intros res d' [Hreads Hread].
    destruct res as [current|e]; [|by split]. wp_steps. split; [done|]. intros p [= <-]. exists capability.
    split_and!; [done..|]. rewrite Eb. exists current. auto.
  - wp_steps. split; [done|]. intros p [= <-]. exists capability. rewrite Eb. by split_and!.
Qed.

(** The end of the call itself. *)
Lemma cf_conclude_kept operationID capability answer changes :
  kept_of answer (fun body => payload ← unwrap body; Redact payload capability)
    (cf_conclude operationID capability answer changes) /\
  OperationID (cf_conclude operationID capability answer changes) = operationID /\
  (OK (cf_conclude operationID capability answer changes) = true ->
   Changes (cf_conclude operationID capability answer changes) = changes).
Proof.
  unfold cf_conclude, kept_of. destruct answer as [response|e]; [|done].
  destruct (Z.leb_spec 400 (StatusCode response)); [done|].
  destruct (unwrap (Body response)) as [payload|e] eqn:Eu; [|done].
  destruct (Redact payload capability) as [data|e] eqn:Er; [|done]. cbn. split_and!; try done.
  intros _. exists response. split_and!; [done|done|]. by rewrite Eu.
Qed.

(** How a run ends. *)
Definition cloudflare_ran (client : Client) (i : ExecuteInput) (d : Egress) (res : result Code Result) (d' : Egress) : Prop :=
  match res with
  | Err e => d' = d /\ forall c, c ∈ Cloudflare.capabilities -> Operation c = in_Operation i ->
      Cloudflare.executable (in_Operation i) = false \/ buildPath c (in_Resource i) = Err e
  | Ok r => exists c path,
      c ∈ Cloudflare.capabilities /\ Operation c = in_Operation i /\ Cloudflare.executable (in_Operation i) = true /\
      buildPath c (in_Resource i) = Ok path /\ is_Some (MatchPath (Registry.Path c) path) /\
      let call d1 := exists answer, let_out client (outgoing c path AuthBearer "" [] i) d1 answer d' /\
        kept_of answer (fun body => payload ← unwrap body; Redact payload c) r in
      if Cloudflare.changesBefore (in_Operation i)
      then (exists current d1, only_reads d d1 /\ record_read client i d current d1 /\ call d1 /\
              (OK r = true -> Changes r = compare (in_Operation i) current (in_Input i))) \/
           (only_reads d d' /\ OK r = false /\ Data r = None)
      else call d
  end.

Lemma wp_Cloudflare_Execute client i d : wp (Cloudflare_Execute client i) (cloudflare_ran client i d) d.
Proof.
  unfold Cloudflare_Execute, cloudflare_ran. apply wp_bind, wp_of_result.
  destruct (executableCapability (in_Operation i)) as [c|e] eqn:Ee.
  2: { split; [done|]. intros c Hc Ho. left. unfold executableCapability in Ee.
       rewrite (proj2 (find_operation_spec Cloudflare.capabilities (in_Operation i) c (proj1 cloudflare_table))) in Ee
         by done. by destruct (Cloudflare.executable (in_Operation i)). }
  pose proof (proj1 (executableCapability_Ok _ _) Ee) as (Hin & Hop & Hex).
  destruct cloudflare_table as (Hdistinct & Hplain & _). wp_steps.
  destruct (buildPath c (in_Resource i)) as [path|e] eqn:Eb.
  2: { split; [done|]. intros c' Hc' Ho'. right.
       assert (Some c' = Some c) as [= ->]; [|done].
       rewrite <- (proj2 (find_operation_spec Cloudflare.capabilities (in_Operation i) c' Hdistinct)) by done.
       by apply find_operation_spec. }
  assert (is_Some (MatchPath (Registry.Path c) path)) as Hmatch by (eapply buildPath_allowed; eauto).
  unfold cf_send.
  destruct (Cloudflare.changesBefore (in_Operation i)) eqn:Ech.
  - apply wp_bind, wp_try. eapply wp_mono; [apply wp_Preview|]. intros [p|e] d1 [Hreads Hp]; wp_steps.
    + destruct (Hp p eq_refl) as (c' & _ & _ & Hread). rewrite Ech in Hread. destruct Hread as (current & Hread & Hch).
      eapply wp_mono; [apply wp_Do|]. intros answer d' Hout. wp_steps.
      destruct (cf_conclude_kept (in_OperationID i) c answer (p_Changes p)) as (Hk & _ & Hc).
      exists c, path. split_and!; try assumption. left. exists current, d1. split_and!; try assumption; [by exists answer|].
      by rewrite <- Hch.
    + exists c, path. split_and!; try assumption. right. split_and!; [assumption|reflexivity..].
  - wp_steps. eapply wp_mono; [apply wp_Do|]. intros answer d' Hout. wp_steps.
    exists c, path. split_and!; try assumption. exists answer. split; [assumption|]. apply cf_conclude_kept.
Qed.

(** A DNS record is read before it is changed. Executing an update or a
    deletion first reads the record through the declared reading operation, with
    requests that change nothing; only when that answered with a record is the
    declared call made, and the changes shown are those between that record and
    what is asked for. When the record cannot be read the run ends there, as a
    failure without data. A refused run - not declared, not executable, no path -
    sends nothing. *)
Theorem cloudflare_reads_first client i d :
  wp (Cloudflare_Execute client i) (fun res d' =>
    match res with
    | Err e => d' = d /\ forall c, c ∈ Cloudflare.capabilities -> Operation c = in_Operation i ->
        Cloudflare.executable (in_Operation i) = false \/ buildPath c (in_Resource i) = Err e
    | Ok r => exists c path,
        c ∈ Cloudflare.capabilities /\ Operation c = in_Operation i /\ Cloudflare.executable (in_Operation i) = true /\
        buildPath c (in_Resource i) = Ok path /\ is_Some (MatchPath (Registry.Path c) path) /\
        let call d1 := exists answer, let_out client (outgoing c path AuthBearer "" [] i) d1 answer d' /\
          kept_of answer (fun body => payload ← unwrap body; Redact payload c) r in
        if Cloudflare.changesBefore (in_Operation i)
        then (exists current d1, only_reads d d1 /\ record_read client i d current d1 /\ call d1 /\
                (OK r = true -> Changes r = compare (in_Operation i) current (in_Input i))) \/
             (only_reads d d' /\ OK r = false /\ Data r = None)
        else call d
    end) d.
Proof. exact (wp_Cloudflare_Execute client i d). Qed.
End reads_first.

(** ** The contract *)

Section laws.
Context `{Unicode} `{Addresses} `{Floats} `{Network}.

Lemma readCurrentRecord_sends client i d :
  wp (readCurrentRecord client i) (fun _ d' => sends_to (Host (baseURL client)) d d') d.
Proof.
  pose proof (sends_to_refl (Host (baseURL client)) d) as Hrefl. unfold readCurrentRecord. wp_steps.
  destruct (buildPath _ (in_Resource i)); [|done]. unfold cf_send. apply wp_bind.
  eapply wp_mono; [apply wp_Do|]. intros [response|e] d' Hout%let_out_sends; [|done]. wp_steps.
  destruct (400 <=? StatusCode response); [done|]. by wp_steps.
Qed.

Lemma Preview_sends client i d :
  wp (Preview client i) (fun _ d' => sends_to (Host (baseURL client)) d d' /\ only_reads d d') d.
Proof.
  apply wp_and; [|eapply wp_mono; [apply wp_Preview|intros res d' Hp; exact (proj1 Hp)]].
  pose proof (sends_to_refl (Host (baseURL client)) d) as Hrefl. unfold Preview. wp_steps.
  destruct (executableCapability (in_Operation i)) as [capability|]; [|done]. wp_steps.
  destruct (buildPath capability (in_Resource i)); [|done]. wp_steps.
  destruct (negb _); [by wp_steps|]. apply wp_bind. eapply wp_mono; [apply readCurrentRecord_sends|].
  by intros [current|e] d' Hs; wp_steps.
Qed.

Lemma cloudflare_executor_laws client i d :
  wp (Cloudflare_Execute client i) (fun res d' =>
    sends_to (Host (baseURL client)) d d' /\ (is_Ok res = false -> d' = d)) d.
Proof.
  apply wp_and; [|eapply wp_mono; [apply wp_Cloudflare_Execute|by intros [r|e] d' Hr; [|intros _; apply Hr]]].
  pose proof (sends_to_refl (Host (baseURL client)) d) as Hrefl. unfold Cloudflare_Execute. wp_steps.
  destruct (executableCapability (in_Operation i)) as [c|]; [|done]. wp_steps.
  destruct (buildPath c (in_Resource i)); [|done]. unfold cf_send. destruct (Cloudflare.changesBefore (in_Operation i)).
  - apply wp_bind, wp_try. eapply wp_mono; [apply Preview_sends|]. intros [p|e] d1 [Hread _]; wp_steps; [|done].
    eapply wp_mono; [apply wp_Do|]. intros answer d' Hout%let_out_sends. wp_steps. by eapply sends_to_trans.
  - wp_steps. eapply wp_mono; [apply wp_Do|]. intros answer d' Hout%let_out_sends. by wp_steps.
Qed.
End laws.
