(* ===== verification/ModelAdapter.v ===== *)
(** * adapter/model: inference within a budget (adapter.go, capabilities.go)

    A call is estimated before it is sent and refused when the estimate does not
    fit what the grant has left; the answer's own figures replace the estimate
    when it reports them. Integers are Go's, 64 bits with wrap-around. *)
From S2P Require Import Prelude GoStr Apperr.
From S2P Require Json.
From S2P Require Import World Url Intent Redact Registry Response Outbound Execute.
From S2P Require Import Adapters.
Open Scope Z_scope.
Set Warnings "-register-all".

Definition charsPerToken : Z := 3.

Record price := { inputPerKilo : Z; outputPerKilo : Z }.

Definition prices (model : string) : option price :=
  if model ==? "gpt-4o" then Some {| inputPerKilo := 2500; outputPerKilo := 10000 |}
  else if model ==? "gpt-4o-mini" then Some {| inputPerKilo := 150; outputPerKilo := 600 |}
  else if model ==? "claude-opus-4" then Some {| inputPerKilo := 15000; outputPerKilo := 75000 |}
  else if model ==? "claude-sonnet-4" then Some {| inputPerKilo := 3000; outputPerKilo := 15000 |}
  else if model ==? "claude-haiku-4-5-20251001" then Some {| inputPerKilo := 800; outputPerKilo := 4000 |}
  else None.

(** Go's division truncates; the sum before it may have wrapped. *)
Definition cost (perKilo tokens : Z) : Z :=
  if tokens <=? 0 then 0 else Z.quot (wrap64 (wrap64 (perKilo * tokens) + 999)) 1000.

Definition add64 (a b : Z) : Z := wrap64 (a + b).

(** What a request says. *)
Record completion_request := { q_model : string; q_max_tokens : Z; q_messages : list string }.

Definition raw_string (raw old : string) : option string := v ← Json.parse raw; Json.as_string old v.
Definition raw_int (raw : string) (old : Z) : option Z := v ← Json.parse raw; Json.as_int old v.

Definition completion_setters : list (Json.raw_setter (S := completion_request)) :=
  [ ("model", fun raw q => s ← raw_string raw (q_model q);
      Some {| q_model := s; q_max_tokens := q_max_tokens q; q_messages := q_messages q |});
    ("max_tokens", fun raw q => n ← raw_int raw (q_max_tokens q);
      Some {| q_model := q_model q; q_max_tokens := n; q_messages := q_messages q |});
    ("messages", fun raw q => l ← Json.raw_elements raw;
      Some {| q_model := q_model q; q_max_tokens := q_max_tokens q; q_messages := l |}) ].

Section model.
Context `{Unicode} `{Addresses} `{Floats} `{Network}.

Definition completion_of (input : string) : option completion_request :=
  Json.unmarshal_raw completion_setters input {| q_model := ""; q_max_tokens := 0; q_messages := [] |}.

Definition message_tokens (message : string) : Z := Z.of_nat (String.length message) / charsPerToken + 1.

Definition model_capability (provider operation : string) : result Code Capability :=
  match find_operation (Model.capabilities provider) operation with
  | None => Err CodeCapabilityNotOffered
  | Some capability => Ok capability
  end.

Definition Estimate (provider : string) (i : ExecuteInput) : result Code ModelUsage :=
  capability ← model_capability provider (in_Operation i);
  if Operation capability !=? Model.OpCreateCompletion then
    Ok {| Requests := 1; InputTokens := 0; OutputTokens := 0; CostMicros := 0; Estimated := true |}
  else
    match completion_of (in_Input i) with
    | None => Err CodeInvalidRequest
    | Some body =>
        match prices (q_model body) with
        | None => Err CodeInvalidRequest
        | Some rate =>
            _ ← refuse_if (q_max_tokens body <=? 0) CodeInvalidRequest;
            let inputTokens := foldl (fun n m => add64 n (message_tokens m)) 0 (q_messages body) in
            Ok {| Requests := 1; InputTokens := inputTokens; OutputTokens := q_max_tokens body;
                  CostMicros := add64 (cost (inputPerKilo rate) inputTokens)
                                      (cost (outputPerKilo rate) (q_max_tokens body));
                  Estimated := true |}
        end
    end.

Definition withinBudget (i : ExecuteInput) (estimate : ModelUsage) : result Code unit :=
  let budget := in_Budget i in
  if (MaxRequests budget <=? 0) || (MaxCostMicros budget <=? 0) then Err CodeForbidden
  else if MaxRequests budget <? add64 (Requests (in_Spent i)) (Requests estimate) then Err CodeForbidden
  else if MaxCostMicros budget <? add64 (CostMicros (in_Spent i)) (CostMicros estimate) then Err CodeForbidden
  else Ok tt.

(** The figures an answer reports. *)
Record reported := { t_prompt : Z; t_completion : Z; t_input : Z; t_output : Z }.

Definition usage_setters : list (Json.raw_setter (S := reported)) :=
  [ ("prompt_tokens", fun raw u => n ← raw_int raw (t_prompt u);
      Some {| t_prompt := n; t_completion := t_completion u; t_input := t_input u; t_output := t_output u |});
    ("completion_tokens", fun raw u => n ← raw_int raw (t_completion u);
      Some {| t_prompt := t_prompt u; t_completion := n; t_input := t_input u; t_output := t_output u |});
    ("input_tokens", fun raw u => n ← raw_int raw (t_input u);
      Some {| t_prompt := t_prompt u; t_completion := t_completion u; t_input := n; t_output := t_output u |});
    ("output_tokens", fun raw u => n ← raw_int raw (t_output u);
      Some {| t_prompt := t_prompt u; t_completion := t_completion u; t_input := t_input u; t_output := n |}) ].

Definition answer_setters : list (Json.raw_setter (S := reported * string)) :=
  [ ("usage", fun raw s => u ← Json.unmarshal_raw usage_setters raw s.1; Some (u, s.2));
    ("model", fun raw s => m ← raw_string raw s.2; Some (s.1, m)) ].

Definition requested_model (input : string) : string :=
  default "" (Json.unmarshal_raw [("model", raw_string)] input "").

Definition actualUsage (body input : string) (estimate : ModelUsage) : ModelUsage :=
  match Json.unmarshal_raw answer_setters body ({| t_prompt := 0; t_completion := 0; t_input := 0; t_output := 0 |}, "") with
  | None => estimate
  | Some (u, model) =>
      let inputTokens := add64 (t_prompt u) (t_input u) in
      let outputTokens := add64 (t_completion u) (t_output u) in
      if (inputTokens =? 0) && (outputTokens =? 0) then estimate
      else
        match prices (if model ==? "" then requested_model input else model) with
        | None => estimate
        | Some rate =>
            {| Requests := Requests estimate; InputTokens := inputTokens; OutputTokens := outputTokens;
               CostMicros := add64 (cost (inputPerKilo rate) inputTokens) (cost (outputPerKilo rate) outputTokens);
               Estimated := false |}
        end
  end.

Definition model_upstreamError (status : Z) : Code :=
  if (status =? 401) || (status =? 403) then CodeCredentialNotAuthorized
  else if status =? 404 then CodeNotFound
  else if status =? 429 then CodeConflict
  else if status <? 500 then CodeInvalidRequest
  else CodeGatewayUnavailable.

Definition authHeader (provider : string) : string :=
  if provider ==? Model.ProviderAnthropic then "x-api-key" else "".

Definition model_conclude (i : ExecuteInput) (capability : Capability) (estimate : ModelUsage)
    (answer : result Code Response) : ExecuteOutput :=
  let operationID := in_OperationID i in
  match answer with
  | Err e => {| out_Result := Failure operationID e; out_Usage := estimate |}
  | Ok response =>
      if 400 <=? StatusCode response then
        {| out_Result := FromUpstream (Failure operationID (model_upstreamError (StatusCode response))) (StatusCode response);
           out_Usage := estimate |}
      else
        match Redact (Body response) capability with
        | Err e => {| out_Result := FromUpstream (Failure operationID e) (StatusCode response); out_Usage := estimate |}
        | Ok data => {| out_Result := FromUpstream (Success operationID data []) (StatusCode response);
                        out_Usage := actualUsage (Body response) (in_Input i) estimate |}
        end
  end.

Definition Model_Execute (provider : string) (client : Client) (i : ExecuteInput) : M Egress Code ExecuteOutput :=
  capability ← of_result (model_capability provider (in_Operation i));
  estimate ← of_result (Estimate provider i);
  _ ← of_result (withinBudget i estimate);
  answer ← try_ (Do client (outgoing capability (Registry.Path capability) (Adapters.model_auth provider)
             (authHeader provider) [] i));
  mret (model_conclude i capability estimate answer).
End model.

(** ** Rounding and overflow *)

Lemma wrap64_small n : - 2 ^ 63 <= n < 2 ^ 63 -> wrap64 n = n.
Proof. intros Hn. unfold wrap64. rewrite Z.mod_small; lia. Qed.

(** While nothing overflows the cost is the exact one rounded up. *)
Lemma cost_exact perKilo tokens :
  0 <= perKilo -> 0 < tokens -> perKilo * tokens + 999 < 2 ^ 63 ->
  1000 * (cost perKilo tokens - 1) < perKilo * tokens <= 1000 * cost perKilo tokens.
Proof.
  intros Hp Ht Hb. unfold cost. destruct (Z.leb_spec tokens 0); [lia|].
  assert (0 <= perKilo * tokens) by nia. rewrite (wrap64_small (perKilo * tokens)) by lia.
  rewrite wrap64_small by lia. rewrite Z.quot_div_nonneg by lia.
  pose proof (Z.div_mod (perKilo * tokens + 999) 1000 ltac:(lia)).
  pose proof (Z.mod_pos_bound (perKilo * tokens + 999) 1000 ltac:(lia)). lia.
Qed.

(** ** What reaches the wire *)

Section within.
Context `{Unicode} `{Addresses} `{Floats} `{Network}.

Lemma Estimate_Ok provider i estimate :
  Estimate provider i = Ok estimate ->
  Requests estimate = 1 /\ Estimated estimate = true /\
  (in_Operation i = Model.OpCreateCompletion ->
   exists body rate, completion_of (in_Input i) = Some body /\ prices (q_model body) = Some rate /\
     0 < q_max_tokens body /\ OutputTokens estimate = q_max_tokens body /\
     CostMicros estimate = add64 (cost (inputPerKilo rate) (InputTokens estimate))
                                 (cost (outputPerKilo rate) (OutputTokens estimate))).
Proof.
  unfold Estimate. intros (capability & Hc & He)%bind_Ok. unfold model_capability in Hc.
  destruct (find_operation (Model.capabilities provider) (in_Operation i)) as [c|] eqn:Hf; [|done]. injection Hc as ->.
  destruct (_ !=? _) eqn:Hop.
  - injection He as <-. split_and!; [done..|]. intros Hi. rewrite Hi in Hf.
    apply Adapters.byOperation_lookup in Hf as [_ Ho]; [|vm_compute; repeat constructor; set_solver].
    bools. done.
  - destruct (completion_of (in_Input i)) as [body|] eqn:Eb; [|done]. destruct (prices (q_model body)) as [rate|] eqn:Er; [|done].
    apply bind_Ok in He as ([] & Hp & [= <-]). apply refuse_if_Ok in Hp. cbn. split_and!; [done..|].
    intros _. exists body, rate. split_and!; try done. lia.
Qed.

Lemma withinBudget_Ok i estimate :
  withinBudget i estimate = Ok tt ->
  0 < MaxRequests (in_Budget i) /\ 0 < MaxCostMicros (in_Budget i) /\
  add64 (Requests (in_Spent i)) (Requests estimate) <= MaxRequests (in_Budget i) /\
  add64 (CostMicros (in_Spent i)) (CostMicros estimate) <= MaxCostMicros (in_Budget i).
Proof.
  unfold withinBudget. destruct (_ || _) eqn:E0; [done|]. destruct (_ <? add64 _ (Requests estimate)) eqn:E1; [done|].
  destruct (_ <? add64 _ (CostMicros estimate)) eqn:E2; [done|]. intros _. bools. lia.
Qed.

(** Counters far from the ends of their range. *)
Definition small (n : Z) : Prop := 0 <= n < 2 ^ 61.

Lemma add64_small a b : small a -> small b -> add64 a b = a + b.
Proof. unfold small, add64. intros. apply wrap64_small. lia. Qed.

Lemma cost_small perKilo tokens :
  0 <= perKilo -> 0 <= tokens -> perKilo * tokens < 2 ^ 61 ->
  0 <= cost perKilo tokens /\ perKilo * tokens <= 1000 * cost perKilo tokens < perKilo * tokens + 1000.
Proof.
  intros Hp Ht Hb. destruct (decide (tokens = 0)) as [->|].
  { unfold cost. cbn. lia. }
  pose proof (cost_exact perKilo tokens ltac:(done) ltac:(lia) ltac:(lia)). nia.
Qed.

Lemma prices_nonneg model rate : prices model = Some rate -> 0 <= inputPerKilo rate /\ 0 <= outputPerKilo rate.
Proof. unfold prices. repeat case_match; intros [= <-]; cbn; lia. Qed.

(** Money. A model call that sends anything was estimated before; and while
    no product or sum leaves 61 bits, what the grant has spent plus the full price
    of the prompt as estimated and of the whole answer allowed is within its
    budget, and so is the number of calls. Without a budget - or for a model of
    unknown price, or without a limit on the answer - nothing is sent. *)
Theorem model_within_budget provider client i d :
  wp (Model_Execute provider client i) (fun res d' =>
    match res with
    | Err _ => d' = d
    | Ok out =>
        exists estimate, Estimate provider i = Ok estimate /\
          0 < MaxRequests (in_Budget i) /\ 0 < MaxCostMicros (in_Budget i) /\
          (small (Requests (in_Spent i)) -> Requests (in_Spent i) + 1 <= MaxRequests (in_Budget i)) /\
          (in_Operation i = Model.OpCreateCompletion ->
           exists body rate, completion_of (in_Input i) = Some body /\ prices (q_model body) = Some rate /\
             0 < q_max_tokens body /\
             (small (CostMicros (in_Spent i)) -> 0 <= InputTokens estimate ->
              inputPerKilo rate * InputTokens estimate < 2 ^ 60 -> outputPerKilo rate * q_max_tokens body < 2 ^ 60 ->
              1000 * CostMicros (in_Spent i) + inputPerKilo rate * InputTokens estimate +
                outputPerKilo rate * q_max_tokens body <= 1000 * MaxCostMicros (in_Budget i)))
    end) d.
Proof.
  unfold Model_Execute. wp_steps. destruct (model_capability provider (in_Operation i)) as [capability|]; [|done].
  wp_steps. destruct (Estimate provider i) as [estimate|] eqn:Ee; [|done].
  wp_steps. destruct (withinBudget i estimate) as [[]|] eqn:Ew; [|done].
  wp_steps. apply (wp_mono _ (fun _ _ => True)); [done|]. intros answer d' _. wp_steps. exists estimate.
  apply withinBudget_Ok in Ew as (Hr & Hc & Hr' & Hc'). apply Estimate_Ok in Ee as (E1 & _ & Ecompletion).
  split_and!; try done.
  - intros Hs. rewrite E1, add64_small in Hr' by (done || (unfold small; lia)). done.
  - intros Hop. destruct (Ecompletion Hop) as (body & rate & Hb & Hp & Hm & Ho & Hcost).
    exists body, rate. split_and!; try done. intros Hs Hin Hi1 Ho1.
    destruct (prices_nonneg _ _ Hp) as [Hp1 Hp2]. rewrite Ho in Hcost.
    destruct (cost_small (inputPerKilo rate) (InputTokens estimate)) as [Hs1 Hc1]; [lia..|].
    destruct (cost_small (outputPerKilo rate) (q_max_tokens body)) as [Hs2 Hc2]; [lia..|].
    unfold small in Hs. rewrite Hcost, (add64_small (cost _ _)), add64_small in Hc' by (unfold small; lia). lia.
Qed.

Lemma model_executor_laws provider client i d :
  wp (Model_Execute provider client i) (fun res d' =>
    sends_to (Host (baseURL client)) d d' /\ (is_Ok res = false -> d' = d)) d.
Proof.
  pose proof (sends_to_refl (Host (baseURL client)) d) as Hrefl. unfold Model_Execute. wp_steps.
  destruct (model_capability provider (in_Operation i)) as [capability|]; [|done]. wp_steps.
  destruct (Estimate provider i) as [estimate|]; [|done]. wp_steps.
  destruct (withinBudget i estimate) as [[]|]; [|done]. wp_steps.
  eapply wp_mono; [apply wp_Do|]. intros answer d' Hout%let_out_sends. by wp_steps.
Qed.
End within.

(** ** Past 64 bits *)

Definition long_answer : ExecuteInput :=
  {| in_Operation := Model.OpCreateCompletion; in_Resource := ∅; in_Query := [];
     in_Input := Json.print (Json.JObj [("model", Json.of_string "claude-opus-4");
       ("max_tokens", Json.of_int 122978293824731); ("messages", Json.JArr [])]);
     in_Budget := {| MaxCostMicros := 1; MaxRequests := 1 |}; in_Spent := no_usage; in_Credential := None;
     in_OperationID := "" |}.

(** The product of rate and tokens wraps to a negative cost, so an answer worth
    nine thousand million is within a budget of one micro-unit. *)
Theorem budget_wraps :
  exists estimate, @Estimate ascii_only Model.ProviderAnthropic long_answer = Ok estimate /\
    CostMicros estimate = -9223372036854725 /\ withinBudget long_answer estimate = Ok tt.
Proof. eexists. split; [vm_compute; reflexivity|]. split; reflexivity. Qed.
