(* ===== verification/Settings.v ===== *)
(** * platform/settings: the preferences

    Preferences are rows of name and text (store/repo/settings.go keeps them);
    this package gives them types. A text that cannot be read falls back to the
    default of its preference. *)
From S2P Require Import Prelude GoStr Apperr GoTime World.
From S2P Require Approval Decision Outbound.
Open Scope Z_scope.

Definition KeyAutomationMode : string := "automation_mode".
Definition KeyApprovalTimeout : string := "approval_timeout_seconds".
Definition KeyReadOnlyAuto : string := "read_only_auto_allow".
Definition KeyTheme : string := "theme".
Definition KeyLanguage : string := "language".

Definition ThemeDark : string := "dark".
Definition ThemeLight : string := "light".
Definition ThemeSystem : string := "system".
Definition LanguageChinese : string := "zh".
Definition LanguageEnglish : string := "en".

Record Preferences := {
  AutomationMode : string;
  ApprovalTimeout : Z;
  ReadOnlyAutoAllow : bool;
  Theme : string;
  Language : string;
}.

Definition Default : Preferences :=
  {| AutomationMode := Decision.ModeBalanced; ApprovalTimeout := Approval.DefaultTimeout;
     ReadOnlyAutoAllow := false; Theme := ThemeSystem; Language := LanguageChinese |}.

Record Setting := {
  ID : string;
  Name : string;
  Value : string;
  CreatedAt : Z;
  UpdatedAt : Z;
}.

Abbreviation table := (gmap string Setting).

(** ** Reading texts *)

(** [strconv.Atoi]: an optional sign, digits, and a value of 64 bits. *)
Definition Atoi (s : string) : option Z :=
  n ← parse_int (if has_prefix s "+" && negb (has_prefix s "+-") then drop_str 1 s else s);
  if (- 2 ^ 63 <=? n) && (n <? 2 ^ 63) then Some n else None.

(** [strconv.ParseBool]. *)
Definition ParseBool (s : string) : option bool :=
  if one_of s ["1"; "t"; "T"; "true"; "TRUE"; "True"] then Some true
  else if one_of s ["0"; "f"; "F"; "false"; "FALSE"; "False"] then Some false
  else None.

(** The product is an int64, and wraps. *)
Definition parseTimeout (value : string) : option Z :=
  seconds ← Atoi value;
  let timeout := Outbound.wrap64 (seconds * Second) in
  if (timeout <? Approval.MinTimeout) || (Approval.MaxTimeout <? timeout) then None else Some timeout.

Definition validTheme (value : string) : bool := one_of value [ThemeDark; ThemeLight; ThemeSystem].
Definition validLanguage (value : string) : bool := one_of value [LanguageChinese; LanguageEnglish].

Definition unreadable (s : Setting) : string := "偏好 " +:+ Name s +:+ " 的取值读不出来，已改用默认值".

Definition with_mode (p : Preferences) (mode : string) : Preferences :=
  {| AutomationMode := mode; ApprovalTimeout := ApprovalTimeout p; ReadOnlyAutoAllow := ReadOnlyAutoAllow p;
     Theme := Theme p; Language := Language p |}.
Definition with_timeout (p : Preferences) (timeout : Z) : Preferences :=
  {| AutomationMode := AutomationMode p; ApprovalTimeout := timeout; ReadOnlyAutoAllow := ReadOnlyAutoAllow p;
     Theme := Theme p; Language := Language p |}.
Definition with_read_only (p : Preferences) (enabled : bool) : Preferences :=
  {| AutomationMode := AutomationMode p; ApprovalTimeout := ApprovalTimeout p; ReadOnlyAutoAllow := enabled;
     Theme := Theme p; Language := Language p |}.
Definition with_theme (p : Preferences) (theme : string) : Preferences :=
  {| AutomationMode := AutomationMode p; ApprovalTimeout := ApprovalTimeout p; ReadOnlyAutoAllow := ReadOnlyAutoAllow p;
     Theme := theme; Language := Language p |}.
Definition with_language (p : Preferences) (language : string) : Preferences :=
  {| AutomationMode := AutomationMode p; ApprovalTimeout := ApprovalTimeout p; ReadOnlyAutoAllow := ReadOnlyAutoAllow p;
     Theme := Theme p; Language := language |}.

(** The preferences after one row, and a warning or the empty text. *)
Definition apply (into : Preferences) (s : Setting) : Preferences * string :=
  let v := Value s in
  let set (m : option Preferences) := match m with Some p => (p, "") | None => (into, unreadable s) end in
  if Name s ==? KeyAutomationMode then set (if Decision.ValidMode v then Some (with_mode into v) else None)
  else if Name s ==? KeyApprovalTimeout then set (with_timeout into <$> parseTimeout v)
  else if Name s ==? KeyReadOnlyAuto then set (with_read_only into <$> ParseBool v)
  else if Name s ==? KeyTheme then set (if validTheme v then Some (with_theme into v) else None)
  else if Name s ==? KeyLanguage then set (if validLanguage v then Some (with_language into v) else None)
  else (into, "偏好 " +:+ Name s +:+ " 认不出来，已忽略").

Definition applied (acc : Preferences * list string) (s : Setting) : Preferences * list string :=
  let '(p, warning) := apply acc.1 s in
  (p, if warning ==? "" then acc.2 else acc.2 ++ [warning]).

Definition validate (name value : string) : result Code unit :=
  if name ==? KeyAutomationMode then refuse_if (negb (Decision.ValidMode value)) CodeInvalidRequest
  else if name ==? KeyApprovalTimeout then refuse_if (bool_decide (parseTimeout value = None)) CodeInvalidRequest
  else if name ==? KeyReadOnlyAuto then refuse_if (bool_decide (ParseBool value = None)) CodeInvalidRequest
  else if name ==? KeyTheme then refuse_if (negb (validTheme value)) CodeInvalidRequest
  else if name ==? KeyLanguage then refuse_if (negb (validLanguage value)) CodeInvalidRequest
  else Err CodeInvalidRequest.

(** The inner loop of [ordered]: the last name moves left past larger ones. The
    sorted prefix is kept reversed, so the name next to it is the head. *)
Fixpoint sift (name : string) (before : list string) : list string :=
  match before with
  | [] => [name]
  | x :: before => if bool_decide (String.le x name) then name :: x :: before else x :: sift name before
  end.

Definition ordered_names (names : list string) : list string :=
  reverse (foldl (fun before name => sift name before) [] names).

(** ** The repository *)

Class Repository (D : Type) := {
  Settings : M D Code (list Setting);
  UpsertSetting : Setting -> M D Code Setting;
}.

Definition by_name : relation Setting := by_text Name.

Definition stored (s : Setting) : Setting :=
  {| ID := ID s; Name := Name s; Value := Value s; CreatedAt := column (CreatedAt s); UpdatedAt := column (UpdatedAt s) |}.

(** UPDATE settings SET value, updated_at. *)
Definition overwritten (old s : Setting) : Setting :=
  {| ID := ID old; Name := Name old; Value := Value s; CreatedAt := CreatedAt old; UpdatedAt := column (UpdatedAt s) |}.

(** The unique index. *)
Definition unique_names (t : table) : Prop :=
  forall i j x y, t !! i = Some x -> t !! j = Some y -> Name x = Name y -> i = j.

Definition upserted (s : Setting) (t t' : table) (row : Setting) : Prop :=
  (exists i old, t !! i = Some old /\ Name old = Name s /\ row = overwritten old s /\ t' = <[i := row]> t) \/
  ((forall i x, t !! i = Some x -> Name x <> Name s) /\ t !! ID s = None /\ row = stored s /\ t' = <[ID s := row]> t).

Class RepositoryLaws (D : Type) `{Env} `{Lens D table} `{Repository D} := {
  Settings_law d :
    wp Settings (fun r d' => d' = d /\ match r with
      | Ok l => Sorted by_name l /\ l ≡ₚ rows_of (view d)
      | Err e => e = CodeInternal end) d;
  UpsertSetting_law s d :
    unique_names (view d) ->
    wp (UpsertSetting s) (fun r d' =>
      refused d [CodeInvalidRequest; CodeConflict; CodeInternal] r d' \/
      exists t row, r = Ok row /\ upserted s (view d) t row /\ d' = put t d) d;
}.

(** ** The store *)

Section store.
Context {D : Type} `{Env} `{Repository D}.

Definition Load : M D Code (Preferences * list string) :=
  rows ← Settings;
  mret (foldl applied (Default, []) rows).

(** Every change is validated before one is written; the writes are not one
    transaction. *)
Fixpoint save_each (changes : gmap string string) (now : Z) (names : list string) : M D Code unit :=
  match names with
  | [] => mret tt
  | name :: names =>
      id ← NewID;
      _ ← UpsertSetting {| ID := id; Name := name; Value := default "" (changes !! name); CreatedAt := now; UpdatedAt := now |};
      save_each changes now names
  end.

Fixpoint validate_all (l : list (string * string)) : result Code unit :=
  match l with [] => Ok tt | kv :: l => _ ← validate kv.1 kv.2; validate_all l end.

Definition ordered (changes : gmap string string) : list string := ordered_names (map fst (map_to_list changes)).

Definition Save (changes : gmap string string) : M D Code Preferences :=
  _ ← of_result (validate_all (map_to_list changes));
  now ← Now;
  _ ← save_each changes now (ordered changes);
  saved ← Load;
  mret saved.1.
End store.

(** ** The order of writing *)

Lemma sift_perm name before : sift name before ≡ₚ name :: before.
Proof.
  induction before as [|x before IH]; cbn [sift]; [done|]. destruct (bool_decide _); [done|].
  rewrite IH. by apply perm_swap.
Qed.

Lemma sift_sorted name before : Sorted (flip String.le) before -> Sorted (flip String.le) (sift name before).
Proof.
  induction 1 as [|x before Hs IH Hx]; cbn [sift]; [by repeat constructor|].
  case_bool_decide as Hle; [by repeat constructor|].
  constructor; [done|]. assert (String.le name x) as Hle' by (destruct (total String.le name x); done).
  destruct before as [|y before]; cbn [sift]; [by constructor|]. destruct (bool_decide _); constructor; [done|].
  by inversion Hx.
Qed.

Lemma ordered_names_spec names : ordered_names names = sort_strings names.
Proof.
  assert (forall l acc, foldl (fun before name => sift name before) acc l ≡ₚ l ++ acc /\
    (Sorted (flip String.le) acc -> Sorted (flip String.le) (foldl (fun before name => sift name before) acc l))) as Hgen.
  { induction l as [|x l IH]; intros acc; cbn [foldl]; [done|]. destruct (IH (sift x acc)) as [Hp Hs]. split.
    - rewrite Hp, sift_perm. symmetry. apply (Permutation_middle l acc x).
    - intros Ha. by apply Hs, sift_sorted. }
  destruct (Hgen names []) as [Hp Hs]. unfold ordered_names. apply (Sorted_unique String.le).
  - by apply Sorted_reverse, Hs.
  - apply sort_strings_sorted.
  - rewrite reverse_Permutation, Hp, app_nil_r. symmetry. apply sort_strings_perm.
Qed.

Lemma elem_of_ordered (changes : gmap string string) name :
  name ∈ ordered changes <-> is_Some (changes !! name).
Proof.
  unfold ordered. rewrite ordered_names_spec, sort_strings_perm, list_elem_of_fmap. split.
  - intros ([n v] & -> & Hin%elem_of_map_to_list). by exists v.
  - intros [v Hv]. exists (name, v). split; [done|]. by apply elem_of_map_to_list.
Qed.

(** ** What is in force *)

(** A preference read from its text, or its default. *)
Definition from {A} (standard : A) (parse : string -> option A) (text : option string) : A := default standard (text ≫= parse).

Definition checked (p : string -> bool) (s : string) : option string := if p s then Some s else None.

(** The preferences for the texts of the five names. *)
Definition effective (text : string -> option string) : Preferences :=
  {| AutomationMode := from Decision.ModeBalanced (checked Decision.ValidMode) (text KeyAutomationMode);
     ApprovalTimeout := from Approval.DefaultTimeout parseTimeout (text KeyApprovalTimeout);
     ReadOnlyAutoAllow := from false ParseBool (text KeyReadOnlyAuto);
     Theme := from ThemeSystem (checked validTheme) (text KeyTheme);
     Language := from LanguageChinese (checked validLanguage) (text KeyLanguage) |}.

Record well_formed (p : Preferences) : Prop := {
  wf_mode : Decision.ValidMode (AutomationMode p) = true;
  wf_timeout : Approval.MinTimeout <= ApprovalTimeout p <= Approval.MaxTimeout;
  wf_theme : validTheme (Theme p) = true;
  wf_language : validLanguage (Language p) = true;
}.

Lemma from_checked (p : string -> bool) standard text :
  p standard = true -> p (from standard (checked p) text) = true.
Proof. intros Hs. unfold from, checked. destruct text as [s|]; cbn; [|done]. by destruct (p s) eqn:E. Qed.

Lemma parseTimeout_range s timeout :
  parseTimeout s = Some timeout -> Approval.MinTimeout <= timeout <= Approval.MaxTimeout.
Proof.
  unfold parseTimeout. destruct (Atoi s) as [n|]; cbn; [|done]. destruct (_ || _) eqn:E; [done|]. intros [= <-].
  bools. lia.
Qed.

Lemma effective_well_formed text : well_formed (effective text).
Proof.
  split; [by apply (from_checked Decision.ValidMode)| |by apply (from_checked validTheme)|by apply (from_checked validLanguage)].
  cbn. unfold from. destruct (text _) as [s|]; cbn.
  - destruct (parseTimeout s) as [timeout|] eqn:E; cbn; [by eapply parseTimeout_range|].
    by vm_compute.
  - by vm_compute.
Qed.

Definition value_of (l : list Setting) (name : string) : option string :=
  Value <$> find_first (fun s => Name s ==? name) l.

(** One field of the preferences along the rows. *)
Lemma fold_field {A} (field : Preferences -> A) key (parse : string -> option A) l p w :
  (forall p s, field (apply p s).1 = if Name s ==? key then default (field p) (parse (Value s)) else field p) ->
  NoDup (map Name l) ->
  field (foldl applied (p, w) l).1 = default (field p) (value_of l key ≫= parse).
Proof.
  intros Hfield. revert p w. induction l as [|s l IH]; intros p w; [done|]. cbn [map foldl].
  intros [Hs Hl]%NoDup_cons. destruct (applied (p, w) s) as [p' w'] eqn:Ea.
  assert (p' = (apply p s).1) as -> by (unfold applied in Ea; cbn in Ea; destruct (apply p s); by injection Ea as <- _).
  rewrite (IH _ _ Hl), Hfield. unfold value_of. cbn [find_first]. case_bool_decide as Hk; [|done]. cbn.
  destruct (find_first _ l) as [s'|] eqn:Ef; [|done].
  apply find_first_Some in Ef as [Hin Hn]. bools. exfalso. apply Hs. apply list_elem_of_fmap. exists s'. split; congruence.
Qed.

(** [apply] by cases on the name of the row and on whether its text is readable. *)
Ltac apply_cases := intros p [i n v c u]; unfold apply, checked; cbn [Name Value];
  repeat case_bool_decide; subst; try done; cbn [fst]; repeat case_match; try done; cbn; by simplify_option_eq.

Lemma applied_effective l : NoDup (map Name l) -> (foldl applied (Default, []) l).1 = effective (value_of l).
Proof.
  intros Hl. assert (forall p : Preferences, p = {| AutomationMode := AutomationMode p; ApprovalTimeout := ApprovalTimeout p;
    ReadOnlyAutoAllow := ReadOnlyAutoAllow p; Theme := Theme p; Language := Language p |}) as Heta by by intros [].
  rewrite (Heta (foldl _ _ _).1). unfold effective, from. f_equal.
  - apply (fold_field AutomationMode KeyAutomationMode (checked Decision.ValidMode)); [apply_cases|done].
  - apply (fold_field ApprovalTimeout KeyApprovalTimeout parseTimeout); [apply_cases|done].
  - apply (fold_field ReadOnlyAutoAllow KeyReadOnlyAuto ParseBool); [apply_cases|done].
  - apply (fold_field Theme KeyTheme (checked validTheme)); [apply_cases|done].
  - apply (fold_field Language KeyLanguage (checked validLanguage)); [apply_cases|done].
Qed.

(** A row is readable exactly when it could have been saved. *)
Lemma apply_warning p s : (apply p s).2 = "" <-> validate (Name s) (Value s) = Ok tt.
Proof.
  assert (forall t, "偏好 " +:+ t <> "") as Hne by done.
  unfold apply, validate, unreadable. destruct s as [i n v c u]. cbn [Name Value].
  repeat case_bool_decide; subst; try done; rewrite ?refuse_if_Ok; cbn [snd]; repeat case_match; try done;
    cbn in *; simplify_option_eq; naive_solver.
Qed.

Lemma applied_warnings l : (foldl applied (Default, []) l).2 = [] <-> forall s, s ∈ l -> validate (Name s) (Value s) = Ok tt.
Proof.
  assert (forall acc, (foldl applied acc l).2 = [] <-> acc.2 = [] /\ forall s, s ∈ l -> validate (Name s) (Value s) = Ok tt) as Hgen.
  { induction l as [|s l IH]; intros acc; cbn [foldl].
    { split; [intros Ha; split; [done|by intros s []%not_elem_of_nil]|by intros [? _]]. }
    rewrite IH. setoid_rewrite elem_of_cons. pose proof (apply_warning acc.1 s) as Hw. unfold applied at 1.
    destruct (apply acc.1 s) as [p warning]. cbn [snd fst] in *. case_bool_decide as Hb; cbn [snd].
    - split; [intros [Ha Hl]; split; [done|]; intros x [->|Hx]; [by apply Hw|by apply Hl]|naive_solver].
    - split; [intros [Ha _]; by destruct acc.2|]. intros [_ Hl]. destruct Hb. apply Hw, Hl. by left. }
  rewrite Hgen. naive_solver.
Qed.

(** ** The table *)

(** The text stored for a name. *)
Definition text_of (t : table) : string -> option string := value_of (rows_of t).

Lemma text_of_Some (t : table) name v : unique_names t ->
  text_of t name = Some v <-> exists i s, t !! i = Some s /\ Name s = name /\ Value s = v.
Proof.
  intros Hu. unfold text_of, value_of. destruct (find_first _ _) as [s|] eqn:Ef; cbn.
  - apply find_first_Some in Ef as [[i Hi]%elem_of_rows Hn]. bools. split; [intros [= <-]; eauto|].
    intros (j & s' & Hj & Hn' & <-). assert (i = j) as <- by (eapply Hu; [exact Hi|exact Hj|congruence]). congruence.
  - split; [done|]. intros (j & s & Hj & Hn & _). rewrite find_first_None in Ef.
    specialize (Ef s (proj2 (elem_of_rows _ _) (ex_intro _ j Hj))). by bools.
Qed.

Lemma text_of_ext (t : table) name (o : option string) : unique_names t ->
  (forall v, o = Some v <-> exists i s, t !! i = Some s /\ Name s = name /\ Value s = v) -> text_of t name = o.
Proof.
  intros Hu Ho. destruct o as [v|].
  - apply text_of_Some; [done|]. by apply Ho.
  - destruct (text_of t name) as [v|] eqn:E; [|done]. apply text_of_Some, Ho in E; done.
Qed.

Lemma rows_names (t : table) : unique_names t -> NoDup (map Name (rows_of t)).
Proof.
  intros Hu. unfold rows_of. rewrite map_map. apply NoDup_fmap_2_strong; [|apply NoDup_map_to_list].
  intros [i x] [j y] Hi%elem_of_map_to_list Hj%elem_of_map_to_list. cbn. intros Hn.
  assert (i = j) as <- by (by eapply Hu). congruence.
Qed.

Lemma value_of_perm l k : NoDup (map Name l) -> l ≡ₚ k -> forall name, value_of l name = value_of k name.
Proof.
  intros Hl Hp name. assert (NoDup (map Name k)) as Hk by by rewrite <- Hp.
  unfold value_of. destruct (find_first _ l) as [s|] eqn:El, (find_first _ k) as [s'|] eqn:Ek; cbn; try done.
  - apply find_first_Some in El as [Hs Hn], Ek as [Hs' Hn']. bools. rewrite Hp in Hs.
    f_equal. f_equal. apply list_elem_of_lookup in Hs as [i Hi], Hs' as [j Hj].
    assert (i = j) as <-; [|congruence].
    eapply (NoDup_lookup (map Name k)); [done|..]; rewrite list_lookup_fmap; [by rewrite Hi|rewrite Hj; cbn; congruence].
  - apply find_first_Some in El as [Hs Hn]. rewrite find_first_None in Ek. rewrite Hp in Hs. by rewrite (Ek s Hs) in Hn.
  - apply find_first_Some in Ek as [Hs Hn]. rewrite find_first_None in El. rewrite <- Hp in Hs. by rewrite (El s' Hs) in Hn.
Qed.

Lemma upserted_text s (t t' : table) row :
  unique_names t -> upserted s t t' row ->
  unique_names t' /\ forall name, text_of t' name = if decide (name = Name s) then Some (Value s) else text_of t name.
Proof.
  intros Hu Hup.
  assert (exists i, t' = <[i := row]> t /\ Name row = Name s /\ Value row = Value s /\
    forall j x, t !! j = Some x -> Name x = Name s <-> j = i) as (i & -> & Hn & Hv & Hi).
  { destruct Hup as [(i & old & Hold & Hname & -> & ->)|(Hno & Hnone & -> & ->)].
    - exists i. split_and!; [done|done|done|]. intros j x Hj. split; [intros Hx; eapply Hu; [exact Hj|exact Hold|congruence]|intros ->; congruence].
    - exists (ID s). split_and!; try done. intros j x Hj. split; [by intros Hx; destruct (Hno j x Hj)|intros ->; congruence]. }
  assert (unique_names (<[i := row]> t)) as Hu'.
  { intros j k x y. rewrite !lookup_insert_Some. intros [[<- <-]|[Hj Hx]] [[<- <-]|[Hk Hy]] Hxy; try done.
    - symmetry. eapply Hi; [exact Hy|congruence].
    - eapply Hi; [exact Hx|congruence].
    - by eapply Hu. }
  split; [done|]. intros name. apply text_of_ext; [done|]. intros v. case_decide as Hd.
  - split.
    + intros [= <-]. exists i, row. rewrite lookup_insert_eq. split_and!; congruence.
    + intros (j & x & Hx & Hnx & <-). apply lookup_insert_Some in Hx as [[<- <-]|[Hj Hx]]; [congruence|].
      destruct Hj. symmetry. eapply Hi; [exact Hx|congruence].
  - rewrite text_of_Some by done. split; intros (j & x & Hx & Hnx & Hvx); exists j, x; (split; [|done]).
    + rewrite lookup_insert_ne; [done|]. intros <-. apply Hd. by rewrite <- Hnx, (Hi i x Hx).
    + apply lookup_insert_Some in Hx as [[<- <-]|[_ Hx]]; [congruence|done].
Qed.

(** ** Reading and saving *)

Section facts.
Context {D : Type} `{RepositoryLaws D}.

Lemma wp_Load d : unique_names (view d) ->
  wp Load (fun r d' => d' = d /\ match r with
    | Ok (p, warnings) => p = effective (text_of (view d)) /\
        (warnings = [] <-> forall i s, view d !! i = Some s -> validate (Name s) (Value s) = Ok tt)
    | Err e => e = CodeInternal end) d.
Proof.
  intros Hu. unfold Load. apply wp_bind. eapply wp_mono; [apply Settings_law|]. intros [l|e] d' [-> Hl]; [|done].
  destruct Hl as [_ Hp]. apply wp_ret. split; [done|].
  assert (NoDup (map Name l)) as Hn by (rewrite Hp; by apply rows_names).
  rewrite (surjective_pairing (foldl applied (Default, []) l)).
  rewrite applied_effective by done. split.
  - unfold effective. by rewrite !(value_of_perm l (rows_of (view d)) Hn Hp).
  - rewrite applied_warnings. setoid_rewrite Hp. setoid_rewrite elem_of_rows. naive_solver.
Qed.

(** What is stored after the first names were written. *)
Definition partly_saved (changes : gmap string string) (names : list string) (d d' : D) : Prop :=
  unique_names (view d') /\ put (view d') d = d' /\
  forall name, text_of (view d') name = if decide (name ∈ names) then changes !! name else text_of (view d) name.

Lemma partly_saved_refl changes d : unique_names (view d) -> partly_saved changes [] d d.
Proof.
  intros Hu. split_and!; [done|apply put_view|]. intros name. rewrite decide_False; [done|]. apply not_elem_of_nil.
Qed.

Lemma wp_save_each changes now names d :
  unique_names (view d) -> Forall (fun name => is_Some (changes !! name)) names ->
  wp (save_each changes now names) (fun r d' => exists k,
    partly_saved changes (take k names) d d' /\
    match r with Ok _ => take k names = names | Err e => e ∈ [CodeInvalidRequest; CodeConflict; CodeInternal] end) d.
Proof.
  intros Hu Hnames. revert d Hu. induction Hnames as [|name names [v Hv] _ IH]; intros d Hu; cbn [save_each].
  { apply wp_ret. exists 0%nat. split; [by apply partly_saved_refl|done]. }
  assert (exists k, partly_saved changes (take k (name :: names)) d d /\ CodeInternal ∈ [CodeInvalidRequest; CodeConflict; CodeInternal])
    as Hstop by (exists 0%nat; split; [by apply partly_saved_refl|set_solver]).
  wp_steps; [|done]. eapply wp_mono; [by apply UpsertSetting_law|]. intros res d1 [[-> (e & -> & He)]|(t & row & -> & Hup & ->)].
  { exists 0%nat. split; [by apply partly_saved_refl|done]. }
  apply upserted_text in Hup as [Hu' Htext]; [|done]. cbn [Name Value] in Htext.
  eapply wp_mono; [apply IH; by rewrite view_put|]. intros r d2 (k & (Hu2 & Hput & Htext2) & Hr).
  rewrite view_put in Htext2. exists (S k). cbn [take]. split.
  - split_and!; [done| |].
    + by rewrite put_put in Hput.
    + intros n'. rewrite Htext2, Htext, Hv. destruct (decide (n' ∈ take k names)) as [Hin|Hin].
      * rewrite decide_True; [done|by right].
      * destruct (decide (n' = name)) as [->|Hn]; [rewrite decide_True; [done|by left]|].
        rewrite decide_False; [done|]. by rewrite elem_of_cons; intros [?|?].
  - destruct r; [by rewrite Hr|done].
Qed.

Lemma validate_all_Ok l : validate_all l = Ok tt <-> forall name v, (name, v) ∈ l -> validate name v = Ok tt.
Proof.
  induction l as [|[n v] l IH]; cbn [validate_all].
  { split; [|done]. by intros _ n v []%not_elem_of_nil. }
  rewrite bind_Ok. setoid_rewrite elem_of_cons. split.
  - intros ([] & Hv & Hl) n' v' [[= -> ->]|Hin]; [done|]. by apply IH.
  - intros Hall. exists tt. split; [apply Hall; by left|]. apply IH. auto.
Qed.

Lemma validate_all_error l e : validate_all l = Err e ->
  e = CodeInvalidRequest /\ exists name v, (name, v) ∈ l /\ validate name v <> Ok tt.
Proof.
  induction l as [|[n v] l IH]; cbn [validate_all]; [done|].
  assert (forall e, validate n v = Err e -> e = CodeInvalidRequest) as Hv
    by (intros e'; unfold validate, refuse_if; repeat case_match; congruence).
  cbn [fst snd]. destruct (validate n v) as [[]|e'] eqn:E; cbn.
  - intros (He & n' & v' & Hin & Hbad)%IH. split; [done|]. exists n', v'. split; [by right|done].
  - intros [= ->]. split; [by apply Hv|]. exists n, v. split; [by left|congruence].
Qed.

(** Preferences are what the table says, or their defaults. Loading reads
    every text by name, uses the default where it cannot be read, warns exactly
    then, and always gives a known mode, a timeout between thirty seconds and
    half an hour, a known theme and language. *)
Theorem load_effective d : unique_names (view d) ->
  wp Load (fun r d' => d' = d /\ match r with
    | Ok (p, warnings) => p = effective (text_of (view d)) /\ well_formed p /\
        (warnings = [] <-> forall i s, view d !! i = Some s -> validate (Name s) (Value s) = Ok tt)
    | Err e => e = CodeInternal end) d.
Proof.
  intros Hu. eapply wp_mono; [by apply wp_Load|]. intros [[p w]|e] d' [-> Hr]; [|done].
  destruct Hr as [-> Hw]. split_and!; [done|done|apply effective_well_formed|done].
Qed.

(** The texts with some of them replaced. *)
Definition overridden (changes : gmap string string) (text : string -> option string) (name : string) : option string :=
  match changes !! name with Some v => Some v | None => text name end.

Lemma effective_ext f g : (forall name, f name = g name) -> effective f = effective g.
Proof. intros Hfg. unfold effective. by rewrite !Hfg. Qed.

(** Saving preferences. A batch with an invalid or unknown one writes nothing.
    Otherwise success means that every change is stored, nothing else is
    different, and the preferences returned are the ones now in force; and a
    failure half way leaves the changes up to it, in the order of the names. *)
Theorem save_outcome changes d : unique_names (view d) ->
  wp (Save changes) (fun r d' => match r with
    | Ok p => (forall name v, changes !! name = Some v -> validate name v = Ok tt) /\
        p = effective (overridden changes (text_of (view d))) /\
        partly_saved changes (ordered changes) d d'
    | Err e =>
        (e = CodeInvalidRequest /\ d' = d /\
         exists name v, changes !! name = Some v /\ validate name v <> Ok tt) \/
        (exists k, partly_saved changes (take k (ordered changes)) d d')
    end) d.
Proof.
  intros Hu. unfold Save. wp_steps. destruct (validate_all (map_to_list changes)) as [[]|e] eqn:Ev.
  - wp_steps. eapply wp_mono; [apply wp_save_each; [done|]|].
    { apply Forall_forall. intros name. apply elem_of_ordered. }
    intros [[]|e] d1 (k & Hk & Hr).
    + rewrite Hr in Hk. wp_steps. eapply wp_mono; [apply wp_Load, Hk|].
      intros [[p w]|e] d2 [-> Hl]; [|right; by exists k; rewrite Hr].
      wp_steps. cbn. destruct Hl as [-> _]. split_and!; [| |done].
      * intros name v Hv. apply (proj1 (validate_all_Ok _) Ev). by apply elem_of_map_to_list.
      * apply effective_ext. intros name. destruct Hk as (_ & _ & ->). unfold overridden. case_decide as Hin;
          rewrite elem_of_ordered in Hin; destruct (changes !! name); try done; by destruct Hin; eauto.
    + right. by exists k.
  - left. apply validate_all_error in Ev as (-> & name & v & Hin & Hbad). split_and!; [done|done|].
    exists name, v. split; [by apply elem_of_map_to_list|done].
Qed.
End facts.

(** ** Seconds that wrap *)

(** A text of nineteen thousand million seconds is accepted, as a minute. *)
Theorem timeout_wraps : parseTimeout "18446744134" = Some 60290448384.
Proof. reflexivity. Qed.
