(* ===== verification/Ledger.v ===== *)
(** * platform/audit: the ledger

    The event (event.go), the append-only repository as an interface, the
    recorder every event goes through (recorder.go) and the retention pruner
    (prune.go). *)
From S2P Require Import Prelude GoStr Apperr GoTime World.
From S2P Require Json.
From S2P Require Import Intent Redact.
Open Scope Z_scope.

Definition EventAutoAllowed : string := "decision.auto_allowed".
Definition EventUserAllowed : string := "decision.user_allowed".
Definition EventDenied : string := "decision.denied".
Definition EventLeaseCreated : string := "lease.created".
Definition EventLeaseExpired : string := "lease.expired".
Definition EventLeaseRevoked : string := "lease.revoked".
Definition EventAdapterExecuted : string := "adapter.executed".
Definition EventError : string := "error".
Definition EventIdentityMatched : string := "identity.matched".
Definition EventRiskChanged : string := "risk.changed".
Definition EventScopeInjectionIgnored : string := "security.scope_injection_ignored".
Definition EventSecretRequestBlocked : string := "security.secret_request_blocked".
Definition EventIdentityMismatch : string := "agent.identity_mismatch".
Definition EventAgentTrusted : string := "agent.trusted".
Definition EventTrustCleared : string := "trust.cleared".
Definition EventStrongAuthLocked : string := "security.strong_auth_locked".
Definition EventPruned : string := "audit.pruned".
Definition EventApprovalExpired : string := "approval.expired".

Definition eventTypes : list string :=
  [ EventAutoAllowed; EventUserAllowed; EventDenied; EventLeaseCreated; EventLeaseExpired;
    EventLeaseRevoked; EventAdapterExecuted; EventError; EventIdentityMatched; EventRiskChanged;
    EventScopeInjectionIgnored; EventSecretRequestBlocked; EventStrongAuthLocked;
    EventTrustCleared; EventPruned; EventIdentityMismatch; EventAgentTrusted;
    EventApprovalExpired ].

Definition OutcomeSucceeded : string := "succeeded".
Definition OutcomeFailed : string := "failed".
Definition OutcomeBlocked : string := "blocked".

Record Event := {
  ID : string;
  OperationID : string;
  Type_ : string;
  AgentID : string;
  DeviceID : string;
  WorkspaceID : string;
  IdentityID : string;
  CredentialProviderID : string;
  Service : string;
  Operation : string;
  Resource : string;
  ResolvedScope : string;
  Verdict : string;
  RiskLevel : string;
  DecisionID : string;
  ApprovalID : string;
  LeaseID : string;
  LeaseStatus : string;
  Outcome : string;
  ResponseStatus : Z;
  Duration : Z;
  IsRedacted : bool;
  Metadata : string;
  CreatedAt : Z;
}.

#[export] Instance Event_eq_dec : EqDecision Event.
Proof. solve_decision. Defined.

Definition zero_event : Event :=
  {| ID := ""; OperationID := ""; Type_ := ""; AgentID := ""; DeviceID := ""; WorkspaceID := "";
     IdentityID := ""; CredentialProviderID := ""; Service := ""; Operation := ""; Resource := "";
     ResolvedScope := ""; Verdict := ""; RiskLevel := ""; DecisionID := ""; ApprovalID := "";
     LeaseID := ""; LeaseStatus := ""; Outcome := ""; ResponseStatus := 0; Duration := 0;
     IsRedacted := false; Metadata := ""; CreatedAt := 0 |}.

Abbreviation table := (gmap string Event).

(** The event with its identifier, texts, counts and time replaced. *)
Definition refill (e : Event) (id resource resolvedScope metadata : string)
    (responseStatus duration createdAt : Z) : Event :=
  {| ID := id; OperationID := OperationID e; Type_ := Type_ e; AgentID := AgentID e;
     DeviceID := DeviceID e; WorkspaceID := WorkspaceID e; IdentityID := IdentityID e;
     CredentialProviderID := CredentialProviderID e; Service := Service e;
     Operation := Operation e; Resource := resource; ResolvedScope := resolvedScope;
     Verdict := Verdict e; RiskLevel := RiskLevel e; DecisionID := DecisionID e;
     ApprovalID := ApprovalID e; LeaseID := LeaseID e; LeaseStatus := LeaseStatus e;
     Outcome := Outcome e; ResponseStatus := responseStatus; Duration := duration;
     IsRedacted := IsRedacted e; Metadata := metadata; CreatedAt := createdAt |}.

(** The row an appended event becomes: durations are kept in milliseconds. *)
Definition stored (e : Event) : Event :=
  refill e (ID e) (Resource e) (ResolvedScope e) (Metadata e) (optionalCount (ResponseStatus e))
    (Z.quot (Duration e) Millisecond * Millisecond) (column (CreatedAt e)).

Definition readable (e : Event) : bool :=
  is_Ok (decodeCount (ResponseStatus e)) && is_Ok (decodeCount (Z.quot (Duration e) Millisecond)).

Definition toEvent (e : Event) : result Code Event := if readable e then Ok e else Err CodeInternal.

(** WHERE created_at < cutoff. *)
Definition older (cutoff : Z) (e : Event) : bool := CreatedAt e <? column cutoff.

(** ** The repository *)

Class Repository (D : Type) := {
  Append : Event -> M D Code Event;
  EventByID : string -> M D Code Event;
  Events : Z -> Z -> M D Code (list Event);
  EventsByAgent : string -> Z -> Z -> M D Code (list Event);
  EventsByService : string -> Z -> Z -> M D Code (list Event);
  CountBefore : Z -> M D Code Z;
  PruneBefore : Z -> Event -> M D Code (Z * Event);
}.

Definition kept (cutoff : Z) (t : table) : table := filter (fun kv => older cutoff kv.2 = false) t.
Definition dropped (cutoff : Z) (t : table) : table := filter (fun kv => older cutoff kv.2 = true) t.

Class RepositoryLaws (D : Type) `{Env} `{Lens D table} `{Repository D} := {
  Append_law e d :
    wp (Append e) (fun r d' =>
      refused d [CodeInvalidRequest; CodeConflict; CodeInternal] r d' \/
      (view d !! ID e = None /\ d' = put (<[ID e := stored e]> (view d)) d /\ r = toEvent (stored e))) d;
  EventByID_law id d :
    wp (EventByID id) (fun r d' => d' = d /\ match r with
      | Ok e => view d !! id = Some e
      | Err c => c = CodeInternal \/ (c = CodeNotFound /\ view d !! id = None) end) d;
  CountBefore_law cutoff d :
    wp (CountBefore cutoff) (fun r d' => d' = d /\ match r with
      | Ok n => n = Z.of_nat (size (dropped cutoff (view d)))
      | Err c => c = CodeInternal \/ (c = CodeInvalidRequest /\ cutoff = 0) end) d;
  PruneBefore_law cutoff record d :
    wp (PruneBefore cutoff record) (fun r d' =>
      refused d [CodeInvalidRequest; CodeConflict; CodeInternal] r d' \/
      (cutoff <> 0 /\ cutoff <= CreatedAt record /\
       kept cutoff (view d) !! ID record = None /\
       d' = put (<[ID record := stored record]> (kept cutoff (view d))) d /\
       r = Ok (Z.of_nat (size (dropped cutoff (view d))), stored record))) d;
}.

(** The literal of an object with one member, as the code writes it. *)
Definition quoted (s : string) : string := Json.s_quote +:+ s +:+ Json.s_quote.
Definition object1 (key value : string) : string :=
  "{" +:+ quoted key +:+ ":" +:+ quoted value +:+ "}".

(** ** The recorder (recorder.go) *)

Section recorder.
Context {D : Type} `{Env} `{Unicode} `{Floats} `{!Repository D}.

Definition prepare (event : Event) : M D Code Event :=
  id ← NewID;
  resource ← of_result (redactJSONObject (Resource event));
  resolvedScope ← of_result (redactJSONObject (ResolvedScope event));
  metadata ← of_result (redactMetadata (Metadata event));
  now ← Now;
  mret (refill event id resource resolvedScope metadata (ResponseStatus event) (Duration event) now).

Definition Record_ (event : Event) : M D Code Event :=
  _ ← refuse (negb (one_of (Type_ event) eventTypes)) CodeInvalidRequest;
  _ ← refuse (OperationID event ==? "") CodeInvalidRequest;
  prepared ← prepare event;
  Append prepared.
End recorder.

(** ** The pruner (prune.go) *)

Definition DefaultRetention : Z := 180 * 24 * Hour.
Definition MinRetention : Z := 7 * 24 * Hour.

Definition checkRetention (retention : Z) : result Code Z :=
  if retention <? MinRetention then Err CodeInvalidConfiguration else Ok retention.

Record PruneResult := {
  Cutoff : Z;
  PrunedCount : Z;
  p_Event : Event;
}.

Section pruner.
Context {D : Type} `{Env} `{Unicode} `{Floats} `{!Repository D} (retention : Z).

(** The metadata of the event: three members, by key. *)
Definition prune_metadata (counted cutoff : Z) : string :=
  Json.print (Json.JObj
    [ ("cutoff", Json.of_string (rfc3339_nano cutoff));
      ("pruned_count", Json.of_int counted);
      ("retention_days", Json.of_int (Z.quot retention Day)) ]).

Definition pruneEvent (counted cutoff : Z) : M D Code Event :=
  operationID ← NewID;
  prepare
    {| ID := ""; OperationID := operationID; Type_ := EventPruned; AgentID := ""; DeviceID := "";
       WorkspaceID := ""; IdentityID := ""; CredentialProviderID := ""; Service := "opendelo";
       Operation := "audit.prune"; Resource := object1 "table" "audit_events";
       ResolvedScope := object1 "scope" "audit_retention"; Verdict := ""; RiskLevel := "";
       DecisionID := ""; ApprovalID := ""; LeaseID := ""; LeaseStatus := "";
       Outcome := OutcomeSucceeded; ResponseStatus := 0; Duration := 0; IsRedacted := false;
       Metadata := prune_metadata counted cutoff; CreatedAt := 0 |}.

Definition Prune : M D Code PruneResult :=
  now ← Now;
  let cutoff := now - retention in
  counted ← CountBefore cutoff;
  record ← pruneEvent counted cutoff;
  outcome ← PruneBefore cutoff record;
  let '(pruned, written) := outcome in
  _ ← refuse (negb (pruned =? counted)) CodeInternal;
  mret {| Cutoff := cutoff; PrunedCount := pruned; p_Event := written |}.
End pruner.

(** ** Lemmas *)

Lemma toEvent_Ok e e' : toEvent e = Ok e' -> e' = e /\ readable e = true.
Proof. unfold toEvent. destruct (readable e); [|done]. by intros [= <-]. Qed.

Section lemmas.
Context {D : Type} `{Env} `{Unicode} `{Floats} `{!Lens D table} `{!Repository D} `{!RepositoryLaws D}.

(** What [prepare] fills in. *)
Definition prepared (event e : Event) : Prop :=
  exists id n k resource resolvedScope metadata,
    id_at k = Some id /\
    redactJSONObject (Resource event) = Ok resource /\
    redactJSONObject (ResolvedScope event) = Ok resolvedScope /\
    redactMetadata (Metadata event) = Ok metadata /\
    e = refill event id resource resolvedScope metadata (ResponseStatus event) (Duration event) (clock_at n).

Lemma wp_prepare event (Q : result Code Event -> D -> Prop) d :
  (forall e, prepared event e -> Q (Ok e) d) -> (forall c, Q (Err c) d) ->
  wp (prepare event) Q d.
Proof.
  intros Hok Herr. unfold prepare. wp_steps; [|apply Herr].
  destruct (redactJSONObject (Resource event)) eqn:E1; [|apply Herr]. wp_steps.
  destruct (redactJSONObject (ResolvedScope event)) eqn:E2; [|apply Herr]. wp_steps.
  destruct (redactMetadata _) eqn:E3; [|apply Herr]. wp_steps. apply Hok.
  unfold prepared. eauto 20.
Qed.

(** Recording as one step: nothing, or one fresh row. *)
Lemma wp_Record event (Q : result Code Event -> D -> Prop) d :
  (forall c, Q (Err c) d) ->
  (forall e, prepared event e -> one_of (Type_ event) eventTypes = true -> OperationID event <> "" ->
    view d !! ID e = None ->
    Q (toEvent (stored e)) (put (<[ID e := stored e]> (view d)) d)) ->
  wp (Record_ event) Q d.
Proof.
  intros Herr Hok. unfold Record_. wp_steps. destruct (one_of _ _) eqn:Et; simpl; [|apply Herr].
  wp_steps. destruct (OperationID event ==? "") eqn:Eo; [apply Herr|]. bools. wp_steps.
  apply wp_prepare; [|intros; apply Herr]. intros e He. wp_steps.
  eapply wp_mono; [apply Append_law|]. intros r d' [[-> (c & -> & _)]|(Hn & -> & ->)]; [apply Herr|].
  by apply Hok.
Qed.
End lemmas.

(** The calls that change the ledger. *)
Inductive call :=
| CRecord (event : Event)
| CPrune (retention : Z).

Definition run_call `{Env} `{Unicode} `{Floats} {D} `{!Repository D} (c : call) (w : World D) : World D :=
  match c with
  | CRecord event => (Record_ event w).2
  | CPrune retention =>
      match checkRetention retention with
      | Ok retention => (Prune retention w).2
      | Err _ => w
      end
  end.

(** ** Properties *)

(** Recording: an event of a known type with an operation identifier is
    written once, under a fresh identifier and with the gateway's own clock
    whatever the caller supplied, its JSON fields redacted and everything else as
    given; or nothing is written and the caller gets an error, which is what
    makes it fail. (An event whose counts do not fit would be written and still
    reported as an error.) *)
Theorem record_outcome {D} `{Env} `{Unicode} `{Floats} `{!Lens D table} `{!Repository D} `{!RepositoryLaws D}
    event (d : D) :
  wp (Record_ event) (fun r d' =>
    match r with
    | Err _ => d' = d \/ readable (stored event) = false
    | Ok e => exists n k,
        one_of (Type_ event) eventTypes = true /\ OperationID event <> "" /\
        view d !! ID e = None /\ view d' = <[ID e := e]> (view d) /\
        id_at k = Some (ID e) /\ CreatedAt e = column (clock_at n) /\
        redactJSONObject (Resource event) = Ok (Resource e) /\
        redactJSONObject (ResolvedScope event) = Ok (ResolvedScope e) /\
        redactMetadata (Metadata event) = Ok (Metadata e) /\
        e = stored (refill event (ID e) (Resource e) (ResolvedScope e) (Metadata e)
                      (ResponseStatus event) (Duration event) (clock_at n))
    end) d.
Proof.
  apply wp_Record; [by left|]. intros e (id & n & k & rs & sc & md & Hid & Hr1 & Hr2 & Hr3 & ->) Ht Ho Hn.
  destruct (toEvent _) as [e'|c] eqn:E.
  - apply toEvent_Ok in E as [-> _]. exists n, k. rewrite view_put. by split_and!.
  - right. unfold toEvent in E.
    change (readable (stored _)) with (readable (stored event)) in E. by destruct (readable (stored event)).
Qed.

(** C32. Append-only: along any calls of the recorder and the pruner an event is
    never changed, and it disappears only in a prune whose retention is at least
    seven days, older than that retention before a reading of the clock, with an
    [audit.pruned] event written in the same transaction. *)
Theorem append_only {D} `{Env} `{Unicode} `{Floats} `{!Lens D table} `{!Repository D} `{!RepositoryLaws D}
    c (w : World D) id e :
  view (db w) !! id = Some e ->
  view (db (run_call c w)) !! id = Some e \/
  exists retention n p,
    c = CPrune retention /\ MinRetention <= retention /\
    CreatedAt e < column (clock_at n - retention) /\
    view (db (run_call c w)) !! ID p = Some p /\ Type_ p = EventPruned /\
    column (clock_at n - retention) <= CreatedAt p.
Proof.
  intros He. destruct c as [event|retention]; simpl.
  - left. enough (wp (Record_ event) (fun _ d' => view d' !! id = Some e) (db w)) as Hwp by exact (Hwp w eq_refl).
    apply wp_Record; [done|]. intros e' _ _ _ Hn. rewrite view_put, lookup_insert_ne by congruence. done.
  - unfold checkRetention. destruct (retention <? MinRetention) eqn:Er; [by left|]. bools.
    enough (wp (Prune retention) (fun _ d' => view d' !! id = Some e \/
      exists n p, CreatedAt e < column (clock_at n - retention) /\
        view d' !! ID p = Some p /\ Type_ p = EventPruned /\
        column (clock_at n - retention) <= CreatedAt p) (db w)) as Hwp.
    { destruct (Hwp w eq_refl) as [?|(n & p & ? & ? & ? & ?)]; [by left|right].
      exists retention, n, p. by split_and!. }
    unfold Prune. wp_steps. eapply wp_mono; [apply CountBefore_law|]. intros r d' [-> Hr].
    destruct r as [counted|c]; [|by left]. unfold pruneEvent. wp_steps; [|by left].
    apply wp_prepare; [|by left]. intros p (i & m & k & rs & sc & md & Hid & _ & _ & _ & Hp). wp_steps.
    eapply wp_mono; [apply PruneBefore_law|].
    intros r d' [[-> (c & -> & _)]|(Hc0 & Hc & Hn & -> & ->)]; [by left|]. wp_steps.
    set (t' := <[ID p := stored p]> (kept (clock_at n - retention) (view (db w)))) in *.
    assert (Hres : view (put t' (db w)) !! id = Some e \/
      exists n p0, CreatedAt e < column (clock_at n - retention) /\
        view (put t' (db w)) !! ID p0 = Some p0 /\
        Type_ p0 = EventPruned /\ column (clock_at n - retention) <= CreatedAt p0).
    { rewrite view_put. subst t'. destruct (older (clock_at n - retention) e) eqn:Ho.
      - right. exists n, (stored p). unfold older in Ho. bools.
        split_and!; [done|rewrite ?view_put; exact (lookup_insert_eq _ (ID p) (stored p))|by rewrite Hp|].
        change (CreatedAt (stored p)) with (column (CreatedAt p)).
        unfold column, Millisecond in *. Z.div_mod_to_equations; lia.
      - left. rewrite lookup_insert_ne.
        + unfold kept. rewrite map_lookup_filter_Some. done.
        + intros Heq. rewrite Heq in Hn. unfold kept in Hn. rewrite map_lookup_filter_None in Hn.
          destruct Hn as [Hn|Hn]; [congruence|]. by specialize (Hn _ He). }
    destruct (negb _); [exact Hres|]. wp_steps. exact Hres.
Qed.

(** A prune is all or nothing and tells the truth: an error leaves the ledger
    as it was; otherwise exactly the events older than the cutoff are gone, the
    count reported is their number, and the event added says that number. *)
Theorem prune_outcome {D} `{Env} `{Unicode} `{Floats} `{!Lens D table} `{!Repository D} `{!RepositoryLaws D}
    retention (d : D) :
  wp (Prune retention) (fun r d' =>
    match r with
    | Err _ => d' = d
    | Ok p =>
        PrunedCount p = Z.of_nat (size (dropped (Cutoff p) (view d))) /\
        view d' = <[ID (p_Event p) := p_Event p]> (kept (Cutoff p) (view d)) /\
        Type_ (p_Event p) = EventPruned /\
        redactMetadata (prune_metadata retention (PrunedCount p) (Cutoff p)) = Ok (Metadata (p_Event p))
    end) d.
Proof.
  unfold Prune. wp_steps. eapply wp_mono; [apply CountBefore_law|]. intros r d' [-> Hr].
  destruct r as [counted|c]; [|done]. subst counted. unfold pruneEvent. wp_steps; [|done].
  apply wp_prepare; [|done]. intros p (i & m & k & rs & sc & md & Hid & _ & _ & Hmd & Hp). wp_steps.
  eapply wp_mono; [apply PruneBefore_law|].
  intros r d' [[-> (c & -> & _)]|(Hc0 & Hc & Hn & -> & ->)]; [done|]. wp_steps.
  rewrite Z.eqb_refl. simpl. wp_steps. simpl. rewrite view_put. subst p. by split_and!.
Qed.
