(* ===== verification/Request.v ===== *)
(** * core/pipeline: the capability request (request.go) *)
From S2P Require Import Prelude GoStr World.
Open Scope Z_scope.

Definition StatusReceived : string := "received".
Definition StatusResolving : string := "resolving".
Definition StatusDeciding : string := "deciding".
Definition StatusAutoAllowed : string := "auto_allowed".
Definition StatusAwaitingApproval : string := "awaiting_approval".
Definition StatusDenied : string := "denied".
Definition StatusApproved : string := "approved".
Definition StatusRejected : string := "rejected".
Definition StatusExpired : string := "expired".
Definition StatusCancelled : string := "cancelled".
Definition StatusExecuting : string := "executing".
Definition StatusSucceeded : string := "succeeded".
Definition StatusFailed : string := "failed".

Definition statuses : list string :=
  [ StatusReceived; StatusResolving; StatusDeciding; StatusAutoAllowed; StatusAwaitingApproval;
    StatusDenied; StatusApproved; StatusRejected; StatusExpired; StatusCancelled; StatusExecuting;
    StatusSucceeded; StatusFailed ].

Record CapabilityRequest := {
  ID : string;
  OperationID : string;
  AgentID : string;
  WorkspaceID : string;
  Service : string;
  Operation : string;
  Resource : string;
  DesiredChange : string;
  Reason : string;
  Status : string;
  ChangePreview : string;
  CreatedAt : Z;
  UpdatedAt : Z;
}.

#[export] Instance CapabilityRequest_eq_dec : EqDecision CapabilityRequest.
Proof. solve_decision. Defined.

Definition zero_request : CapabilityRequest :=
  {| ID := ""; OperationID := ""; AgentID := ""; WorkspaceID := ""; Service := ""; Operation := "";
     Resource := ""; DesiredChange := ""; Reason := ""; Status := ""; ChangePreview := "";
     CreatedAt := 0; UpdatedAt := 0 |}.

(** ** Updates of a row *)

(** An INSERT leaves the change preview NULL. *)
Definition stored (r : CapabilityRequest) : CapabilityRequest :=
  {| ID := ID r; OperationID := OperationID r; AgentID := AgentID r; WorkspaceID := WorkspaceID r;
     Service := Service r; Operation := Operation r; Resource := Resource r;
     DesiredChange := DesiredChange r; Reason := Reason r; Status := Status r; ChangePreview := "";
     CreatedAt := column (CreatedAt r); UpdatedAt := column (UpdatedAt r) |}.

Definition with_status (r : CapabilityRequest) (status preview : string) (at_ : Z) : CapabilityRequest :=
  {| ID := ID r; OperationID := OperationID r; AgentID := AgentID r; WorkspaceID := WorkspaceID r;
     Service := Service r; Operation := Operation r; Resource := Resource r;
     DesiredChange := DesiredChange r; Reason := Reason r; Status := status; ChangePreview := preview;
     CreatedAt := CreatedAt r; UpdatedAt := column at_ |}.

Definition advanced (r : CapabilityRequest) (to : string) (at_ : Z) : CapabilityRequest :=
  with_status r to (ChangePreview r) at_.

Definition previewed (r : CapabilityRequest) (preview : string) (at_ : Z) : CapabilityRequest :=
  with_status r (Status r) preview at_.
