(* ===== verification/Credential.v ===== *)
(** * credential/registry: sources and references (reference.go) *)
From S2P Require Import Prelude GoStr.
Open Scope Z_scope.

Definition KindOnePassword : string := "1password".
Definition KindMacOSKeychain : string := "macos-keychain".
Definition KindLocalVault : string := "local-vault".
Definition implemented : list string := [KindOnePassword; KindMacOSKeychain; KindLocalVault].

Definition HealthOK : string := "ok".
Definition HealthNeedsReauth : string := "needs_reauth".
Definition HealthUnavailable : string := "unavailable".
Definition healths : list string := [HealthOK; HealthNeedsReauth; HealthUnavailable].

Record Provider := {
  p_ID : string;
  Kind : string;
  Label : string;
  p_CreatedAt : Z;
  p_UpdatedAt : Z;
}.

Record Reference := {
  ID : string;
  ProviderID : string;
  ItemRef : string;
  Field : string;
  Service : string;
  AccountLabel : string;
  Metadata : string;
  Capabilities : string;
  HealthStatus : string;
  LastVerifiedAt : Z;
  CreatedAt : Z;
  UpdatedAt : Z;
}.

#[export] Instance Provider_eq_dec : EqDecision Provider.
Proof. solve_decision. Defined.
#[export] Instance Reference_eq_dec : EqDecision Reference.
Proof. solve_decision. Defined.
