(* ===== verification/Store.v ===== *)
(** * store: the database

    The tables of migrations/ as finite maps from primary key to row, the lens of
    each table, and the shapes of the statements in queries/: an INSERT checked
    against CHECK, UNIQUE and foreign keys, a conditional UPDATE, a SELECT by key.
    The repositories over them are in the files [LeaseStore], [ApprovalStore],
    [TrustStore], [LedgerStore], [RequestStore], [IdentityStore], [CredentialStore],
    [AdapterStore] and [SettingsStore]. *)
From S2P Require Import Prelude GoStr Apperr World.
From S2P Require Agent Credential Matcher Registry Request Decision Approval Lease Trust Ledger Settings.
Open Scope Z_scope.

Record DB := mkDB {
  agents : gmap string Agent.Agent;
  devices : gmap string Agent.Device;
  workspaces : gmap string Agent.Workspace;
  providers : gmap string Credential.Provider;
  references : gmap string Credential.Reference;
  identities : gmap string Matcher.Identity;
  declarations : gmap string Registry.Declaration;
  requests : gmap string Request.CapabilityRequest;
  decisions : gmap string Decision.Decision;
  approvals : Approval.table;
  leases : Lease.table;
  memories : Trust.table;
  events : Ledger.table;
  settings : gmap string Settings.Setting;
}.

Definition empty_db : DB := mkDB ∅ ∅ ∅ ∅ ∅ ∅ ∅ ∅ ∅ ∅ ∅ ∅ ∅ ∅.

#[export] Program Instance agents_lens : Lens DB (gmap string Agent.Agent) := {
  view := agents;
  put v d := mkDB v (devices d) (workspaces d) (providers d) (references d) (identities d)
               (declarations d) (requests d) (decisions d) (approvals d) (leases d) (memories d)
               (events d) (settings d);
}.
Next Obligation. done. Qed.
Next Obligation. by intros []. Qed.
Next Obligation. done. Qed.

#[export] Program Instance devices_lens : Lens DB (gmap string Agent.Device) := {
  view := devices;
  put v d := mkDB (agents d) v (workspaces d) (providers d) (references d) (identities d)
               (declarations d) (requests d) (decisions d) (approvals d) (leases d) (memories d)
               (events d) (settings d);
}.
Next Obligation. done. Qed.
Next Obligation. by intros []. Qed.
Next Obligation. done. Qed.

#[export] Program Instance workspaces_lens : Lens DB (gmap string Agent.Workspace) := {
  view := workspaces;
  put v d := mkDB (agents d) (devices d) v (providers d) (references d) (identities d)
               (declarations d) (requests d) (decisions d) (approvals d) (leases d) (memories d)
               (events d) (settings d);
}.
Next Obligation. done. Qed.
Next Obligation. by intros []. Qed.
Next Obligation. done. Qed.

#[export] Program Instance providers_lens : Lens DB (gmap string Credential.Provider) := {
  view := providers;
  put v d := mkDB (agents d) (devices d) (workspaces d) v (references d) (identities d)
               (declarations d) (requests d) (decisions d) (approvals d) (leases d) (memories d)
               (events d) (settings d);
}.
Next Obligation. done. Qed.
Next Obligation. by intros []. Qed.
Next Obligation. done. Qed.

#[export] Program Instance references_lens : Lens DB (gmap string Credential.Reference) := {
  view := references;
  put v d := mkDB (agents d) (devices d) (workspaces d) (providers d) v (identities d)
               (declarations d) (requests d) (decisions d) (approvals d) (leases d) (memories d)
               (events d) (settings d);
}.
Next Obligation. done. Qed.
Next Obligation. by intros []. Qed.
Next Obligation. done. Qed.

#[export] Program Instance identities_lens : Lens DB (gmap string Matcher.Identity) := {
  view := identities;
  put v d := mkDB (agents d) (devices d) (workspaces d) (providers d) (references d) v
               (declarations d) (requests d) (decisions d) (approvals d) (leases d) (memories d)
               (events d) (settings d);
}.
Next Obligation. done. Qed.
Next Obligation. by intros []. Qed.
Next Obligation. done. Qed.

#[export] Program Instance declarations_lens : Lens DB (gmap string Registry.Declaration) := {
  view := declarations;
  put v d := mkDB (agents d) (devices d) (workspaces d) (providers d) (references d)
               (identities d) v (requests d) (decisions d) (approvals d) (leases d) (memories d)
               (events d) (settings d);
}.
Next Obligation. done. Qed.
Next Obligation. by intros []. Qed.
Next Obligation. done. Qed.

#[export] Program Instance requests_lens : Lens DB (gmap string Request.CapabilityRequest) := {
  view := requests;
  put v d := mkDB (agents d) (devices d) (workspaces d) (providers d) (references d)
               (identities d) (declarations d) v (decisions d) (approvals d) (leases d)
               (memories d) (events d) (settings d);
}.
Next Obligation. done. Qed.
Next Obligation. by intros []. Qed.
Next Obligation. done. Qed.

#[export] Program Instance decisions_lens : Lens DB (gmap string Decision.Decision) := {
  view := decisions;
  put v d := mkDB (agents d) (devices d) (workspaces d) (providers d) (references d)
               (identities d) (declarations d) (requests d) v (approvals d) (leases d)
               (memories d) (events d) (settings d);
}.
Next Obligation. done. Qed.
Next Obligation. by intros []. Qed.
Next Obligation. done. Qed.

#[export] Program Instance approvals_lens : Lens DB Approval.table := {
  view := approvals;
  put v d := mkDB (agents d) (devices d) (workspaces d) (providers d) (references d)
               (identities d) (declarations d) (requests d) (decisions d) v (leases d)
               (memories d) (events d) (settings d);
}.
Next Obligation. done. Qed.
Next Obligation. by intros []. Qed.
Next Obligation. done. Qed.

#[export] Program Instance leases_lens : Lens DB Lease.table := {
  view := leases;
  put v d := mkDB (agents d) (devices d) (workspaces d) (providers d) (references d)
               (identities d) (declarations d) (requests d) (decisions d) (approvals d) v
               (memories d) (events d) (settings d);
}.
Next Obligation. done. Qed.
Next Obligation. by intros []. Qed.
Next Obligation. done. Qed.

#[export] Program Instance memories_lens : Lens DB Trust.table := {
  view := memories;
  put v d := mkDB (agents d) (devices d) (workspaces d) (providers d) (references d)
               (identities d) (declarations d) (requests d) (decisions d) (approvals d)
               (leases d) v (events d) (settings d);
}.
Next Obligation. done. Qed.
Next Obligation. by intros []. Qed.
Next Obligation. done. Qed.

#[export] Program Instance events_lens : Lens DB Ledger.table := {
  view := events;
  put v d := mkDB (agents d) (devices d) (workspaces d) (providers d) (references d)
               (identities d) (declarations d) (requests d) (decisions d) (approvals d)
               (leases d) (memories d) v (settings d);
}.
Next Obligation. done. Qed.
Next Obligation. by intros []. Qed.
Next Obligation. done. Qed.

#[export] Program Instance settings_lens : Lens DB (gmap string Settings.Setting) := {
  view := settings;
  put v d := mkDB (agents d) (devices d) (workspaces d) (providers d) (references d)
               (identities d) (declarations d) (requests d) (decisions d) (approvals d)
               (leases d) (memories d) (events d) v;
}.
Next Obligation. done. Qed.
Next Obligation. by intros []. Qed.
Next Obligation. done. Qed.

(** ** Constraints *)

(** A foreign key column: NULL, here the empty text, refers to nothing. *)
Definition refers {A} (t : gmap string A) (id : string) : bool := bool_decide (is_Some (t !! id)).
Definition refers_opt {A} (t : gmap string A) (id : string) : bool := (id ==? "") || refers t id.

(** No row of the table has this value in the column. *)
Definition absent {A} (column : A -> string) (value : string) (t : gmap string A) : bool :=
  forallb (fun x => column x !=? value) (rows_of t).

(** A unique index counts NULLs as distinct. *)
Definition absent_opt {A} (column : A -> string) (value : string) (t : gmap string A) : bool :=
  (value ==? "") || absent column value t.

Lemma absent_spec {A} (column : A -> string) value (t : gmap string A) :
  absent column value t = true <-> forall id x, t !! id = Some x -> column x <> value.
Proof.
  unfold absent. rewrite forallb_elem_of. setoid_rewrite elem_of_rows. split.
  - intros H id x Hx. specialize (H x (ex_intro _ id Hx)). by bools.
  - intros H x [id Hx]. apply negb_true_iff, bool_decide_eq_false. by eapply H.
Qed.

(** ** Statements *)

(** INSERT ... RETURNING: CHECK constraints, then unique indexes, then foreign
    keys. *)
Definition insert_row {A} (id : string) (row : A) (checked unique referring : bool) (t : gmap string A)
    : result sql_error (A * gmap string A) :=
  if negb checked then Err ValueViolation
  else if refers t id || negb unique then Err UniqueViolation
  else if negb referring then Err ReferenceViolation
  else Ok (row, <[id := row]> t).

(** UPDATE ... WHERE id = ? AND p RETURNING. *)
Definition update_row {A} (id : string) (p : A -> bool) (f : A -> A) (checked : A -> bool)
    (t : gmap string A) : result sql_error (A * gmap string A) :=
  match t !! id with
  | Some row =>
      if p row then if checked (f row) then Ok (f row, <[id := f row]> t) else Err ValueViolation
      else Err NoRows
  | None => Err NoRows
  end.

(** SELECT ... WHERE id = ?. *)
Definition select_row {A} (id : string) (t : gmap string A) : result sql_error A :=
  match t !! id with Some row => Ok row | None => Err NoRows end.

(** SELECT ... WHERE p, of a query that gives at most one row. *)
Definition select_where {A} (p : A -> bool) (t : gmap string A) : result sql_error A :=
  match find_first p (rows_of t) with Some row => Ok row | None => Err NoRows end.

(** A statement on one table. *)
Definition on {D V A} `{Lens D V} (f : V -> result sql_error (A * V)) (d : D) : result sql_error (A * D) :=
  match f (view d) with Ok (a, v) => Ok (a, put v d) | Err e => Err e end.

Section statements.
Context `{Env} {A : Type} `{!Lens DB (gmap string A)}.
Implicit Types (t : gmap string A) (d : DB).

Lemma wp_insert id (row : DB -> A) checked unique referring Q d :
  (forall e, e <> NoRows -> e <> StillReferencedViolation -> Q (Err e) d) ->
  (checked d = true -> view d !! id = None -> unique d = true -> referring d = true ->
   Q (Ok (row d)) (put (<[id := row d]> (view d)) d)) ->
  wp (stmt (fun d => on (insert_row id (row d) (checked d) (unique d) (referring d)) d)) Q d.
Proof.
  intros Herr Hok. apply wp_stmt; [by apply Herr|..]; unfold on, insert_row.
  - intros a d'. destruct (checked d) eqn:Hc; [|done]. simpl.
    destruct (refers (view d) id) eqn:Hr; [done|].
    destruct (unique d) eqn:Hu; [|done]. simpl. destruct (referring d) eqn:Hf; [|done].
    intros. simplify_eq/=. apply Hok; [done| |done|done].
    unfold refers in Hr. bools. by apply eq_None_not_Some.
  - intros e. destruct (negb (checked d)); [intros; simplify_eq; by apply Herr|].
    destruct (_ || _); [intros; simplify_eq; by apply Herr|].
    destruct (negb (referring d)); intros; simplify_eq. by apply Herr.
Qed.

Lemma wp_update id p f checked Q d :
  Q (Err Fault) d ->
  (forall row, view d !! id = Some row -> p row = true -> checked (f row) = false -> Q (Err ValueViolation) d) ->
  ((forall row, view d !! id = Some row -> p row = false) -> Q (Err NoRows) d) ->
  (forall row, view d !! id = Some row -> p row = true -> checked (f row) = true ->
   Q (Ok (f row)) (put (<[id := f row]> (view d)) d)) ->
  wp (stmt (on (update_row id p f checked))) Q d.
Proof.
  intros Hf Hv Hn Hok. apply wp_stmt; [done|..]; unfold on, update_row;
    destruct (view d !! id) as [row|] eqn:E.
  - intros a d'. destruct (p row) eqn:Hp; [|done]. destruct (checked (f row)) eqn:Hc; [|done].
    intros. simplify_eq. by apply Hok.
  - done.
  - intros e. destruct (p row) eqn:Hp.
    + destruct (checked (f row)) eqn:Hc; intros; simplify_eq. by eapply Hv.
    + intros; simplify_eq. apply Hn. congruence.
  - intros. simplify_eq. by apply Hn.
Qed.

Lemma wp_select (table : DB -> gmap string A) id Q d :
  Q (Err Fault) d -> (forall row, table d !! id = Some row -> Q (Ok row) d) ->
  (table d !! id = None -> Q (Err NoRows) d) ->
  wp (query (fun d => select_row id (table d))) Q d.
Proof.
  intros Hf Hok Hn. apply wp_query; [done|..]; unfold select_row;
    destruct (table d !! id) eqn:E; intros; simplify_eq; auto.
Qed.

Lemma wp_select_where (table : DB -> gmap string A) p Q d :
  Q (Err Fault) d -> (forall id row, table d !! id = Some row -> p row = true -> Q (Ok row) d) ->
  ((forall id row, table d !! id = Some row -> p row = false) -> Q (Err NoRows) d) ->
  wp (query (fun d => select_where p (table d))) Q d.
Proof.
  intros Hf Hok Hn. apply wp_query; [done|..]; unfold select_where;
    destruct (find_first p _) eqn:E; intros; simplify_eq.
  - apply find_first_Some in E as [[id Hid]%elem_of_rows Hp]. by eapply Hok.
  - apply Hn. intros id row Hrow. rewrite find_first_None in E. apply E, elem_of_rows. eauto.
Qed.

(** [if limit <= 0 { return invalidLimit }; rows := query]. *)
Definition list_rows (p : A -> bool) (order : relation A) `{!RelDecision order} (limit : Z)
    : M DB Code (list A) :=
  _ ← refuse (invalidLimit limit) CodeInvalidRequest;
  map_err readError (query (fun d => Ok (select p order limit (view d)))).

Lemma wp_list_rows p order `{!RelDecision order, !Total order} limit d :
  wp (list_rows p order limit) (fun r d' => d' = d /\ match r with
    | Ok l => listing p order limit (view d) l
    | Err e => e = CodeInternal \/ (e = CodeInvalidRequest /\ limit <= 0) end) d.
Proof.
  unfold list_rows. wp_steps. unfold invalidLimit. destruct (limit <=? 0) eqn:El; bools.
  { split; [done|]. by right. }
  wp_steps. apply wp_query; [split; [done|by left]|intros a [= <-]; split; [done|]|done].
  by apply select_listing.
Qed.

(** The same, with each row decoded: an unreadable row fails the whole list. *)
Definition list_decoded (p : A -> bool) (order : relation A) `{!RelDecision order} (readable : A -> bool)
    (limit : Z) : M DB Code (list A) :=
  l ← list_rows p order limit;
  _ ← refuse (negb (forallb readable l)) CodeInternal;
  mret l.

Lemma wp_list_decoded p order `{!RelDecision order, !Total order} readable limit d :
  wp (list_decoded p order readable limit) (fun r d' => d' = d /\ match r with
    | Ok l => listing p order limit (view d) l
    | Err e => e = CodeInternal \/ (e = CodeInvalidRequest /\ limit <= 0) end) d.
Proof.
  unfold list_decoded. wp_steps. eapply wp_mono; [by apply wp_list_rows|].
  intros [l|e] d' [-> Hr]; [|done]. wp_steps. destruct (negb _); [by eauto|]. by wp_steps.
Qed.

Lemma wp_write_errors (m : M DB sql_error A) none Q d :
  wp m (fun r d' => match r with Ok a => Q (Ok a) d' | Err e => Q (Err (writeErrorOr none e)) d' end) d ->
  wp (map_err (writeErrorOr none) m) Q d.
Proof. intros Hm. apply wp_map_err. eapply wp_mono; [exact Hm|]. by intros []. Qed.
End statements.

#[export] Instance by_text_total {A} (key : A -> string) : Total (by_text key).
Proof. intros x y. unfold by_text. apply (total String.le). Qed.
