(* ===== verification/LeaseStore.v ===== *)
(** * store/repo: the repository of leases (lease.go) *)
From S2P Require Import Prelude GoStr Apperr World Store.
From S2P Require Import Lease.
From S2P Require Agent Matcher.
Open Scope Z_scope.

(** The CHECK constraints of the table, those of a whole row and those of the
    columns each update writes. *)
Definition checked_counts (l : Lease) : bool :=
  (0 <=? UsedRequests l) && ((RequestLimit l =? Unlimited) || (UsedRequests l <=? RequestLimit l)).

Definition checked `{Env} (l : Lease) : bool :=
  json_valid (ResourceScope l) && json_valid (Capabilities l) && checked_counts l &&
  one_of (Status l) statuses.

Definition referring (d : DB) (l : Lease) : bool :=
  refers (agents d) (AgentID l) && refers (identities d) (IdentityID l) &&
  refers_opt (approvals d) (ApprovalID l) && refers_opt (memories d) (SourceMemoryID l).

Definition revocationLimit : Z := 1000.

Section repository.
Context `{Env}.

Definition read_back (m : M DB sql_error Lease) (translate : sql_error -> Code) : M DB Code Lease :=
  row ← map_err translate m; of_result (toLease row).

Definition IssueLease (issued : Lease) : M DB Code Lease :=
  read_back (stmt (fun d =>
    on (insert_row (ID issued) (stored issued) (checked (stored issued))
          (absent_opt ApprovalID (ApprovalID issued) (leases d)) (referring d issued)) d)) writeError.

Definition LeaseByID (id : string) : M DB Code Lease :=
  read_back (query (fun d => select_row id (leases d))) readError.

Definition LeaseByApprovalID (approvalID : string) : M DB Code Lease :=
  _ ← refuse (approvalID ==? "") CodeNotFound;
  read_back (query (fun d => select_where (fun l => ApprovalID l ==? approvalID) (leases d))) readError.

Definition LeasesByStatus (status : string) : Z -> M DB Code (list Lease) :=
  list_decoded (fun l => Status l ==? status) (by_key ExpiresAt) readable.

Definition ActiveLeasesByIdentity (identityID : string) : Z -> M DB Code (list Lease) :=
  list_decoded (fun l => isActive l && (IdentityID l ==? identityID)) (by_key ExpiresAt) readable.

Definition ActiveSessionBoundLeasesByAgent (agentID : string) : Z -> M DB Code (list Lease) :=
  list_decoded (fun l => isActive l && IsSessionBound l && (AgentID l ==? agentID))
    (by_key ExpiresAt) readable.

Definition ActiveLeasesDueBefore (deadline : Z) : Z -> M DB Code (list Lease) :=
  list_decoded (fun l => isActive l && (ExpiresAt l <=? column deadline)) (by_key ExpiresAt) readable.

Definition Consume (id : string) (now : Z) : M DB Code Lease :=
  read_back (stmt (on (update_row id (fun l => consumable l now) (fun l => consumed l now) checked_counts)))
    (writeErrorOr CodeConflict).

Definition Close (id status : string) (at_ : Z) : M DB Code Lease :=
  _ ← refuse (status ==? StatusActive) CodeInvalidRequest;
  read_back (stmt (on (update_row id isActive (fun l => closed l status at_)
                         (fun l => one_of (Status l) statuses))))
    (writeErrorOr CodeConflict).

Definition Shorten (id : string) (expiresAt at_ : Z) : M DB Code Lease :=
  read_back (stmt (on (update_row id (fun l => isActive l && (column expiresAt <? ExpiresAt l))
                         (fun l => shortened l expiresAt at_) (fun _ => true))))
    (writeErrorOr CodeInvalidRequest).

(** The join with identities on the credential reference. *)
Definition dependsOn (d : DB) (referenceID : string) (l : Lease) : bool :=
  isActive l &&
  match identities d !! IdentityID l with
  | Some i => Matcher.CredentialReferenceID i ==? referenceID
  | None => false
  end.

Definition RevokeLeasesByCredentialReference (referenceID : string) (at_ : Z)
    : M DB (list string * Code) (list string) :=
  _ ← refuse (referenceID ==? "") ([], CodeInvalidRequest);
  rows ← map_err (fun e => ([], readError e))
    (query (fun d => Ok (select (dependsOn d referenceID) (by_key ExpiresAt) revocationLimit (leases d))));
  each (fun row => _ ← Close (ID row) StatusRevoked at_; mret (ID row)) rows.
End repository.

#[global] Instance repository `{Env} : Repository DB := {
  Lease.IssueLease := IssueLease;
  Lease.LeaseByID := LeaseByID;
  Lease.LeaseByApprovalID := LeaseByApprovalID;
  Lease.LeasesByStatus := LeasesByStatus;
  Lease.ActiveLeasesByIdentity := ActiveLeasesByIdentity;
  Lease.ActiveSessionBoundLeasesByAgent := ActiveSessionBoundLeasesByAgent;
  Lease.ActiveLeasesDueBefore := ActiveLeasesDueBefore;
  Lease.Consume := Consume;
  Lease.Close := Close;
  Lease.Shorten := Shorten;
}.

Section laws.
Context `{Env}.
Implicit Types d : DB.

Lemma wp_read_back (m : M DB sql_error Lease) translate Q d :
  wp m (fun r d' => match r with
    | Ok l => Q (toLease l) d' | Err e => Q (Err (translate e)) d' end) d ->
  wp (read_back m translate) Q d.
Proof.
  intros Hm. unfold read_back. wp_steps. eapply wp_mono; [exact Hm|].
  intros [l|e] d' Hq; [|done]. by wp_steps.
Qed.

Lemma IssueLease_ok l d :
  wp (IssueLease l) (fun r d' =>
    refused d [CodeInvalidRequest; CodeConflict; CodeInternal] r d' \/
    (leases d !! ID l = None /\
     (forall id l', leases d !! id = Some l' -> ApprovalID l' = ApprovalID l -> ApprovalID l = "") /\
     wrote d (ID l) (stored l) r d')) d.
Proof.
  apply wp_read_back.
  apply (wp_insert (ID l) (fun _ => stored l) (fun _ => checked (stored l))
    (fun d => absent_opt ApprovalID (ApprovalID l) (leases d)) (fun d => referring d l)).
  - intros e He He'. left. split; [done|]. eexists; split; [done|]. destruct e; try done; set_solver.
  - intros _ Hn Hu _. right. split_and!; [done| |done].
    intros id l' Hl' Ha. unfold absent_opt in Hu. bools. apply orb_true_iff in Hu as [Hu|Hu].
    { by bools. }
    rewrite absent_spec in Hu. by destruct (Hu _ _ Hl').
Qed.

Lemma LeaseByID_ok id d :
  wp (LeaseByID id) (fun r d' => d' = d /\ match r with
    | Ok l => leases d !! id = Some l
    | Err e => e = CodeInternal \/ (e = CodeNotFound /\ leases d !! id = None) end) d.
Proof.
  apply wp_read_back, wp_select; [split; [done|by left]|..].
  - intros row Hrow. rewrite toLease_readable. split; [done|]. destruct (readable row); [done|by left].
  - intros Hn. split; [done|by right].
Qed.

Lemma LeaseByApprovalID_ok a d :
  wp (LeaseByApprovalID a) (fun r d' => d' = d /\ match r with
    | Ok l => (exists id, leases d !! id = Some l) /\ ApprovalID l = a /\ a <> ""
    | Err e => e = CodeInternal \/ (e = CodeNotFound /\
        (a = "" \/ forall id l, leases d !! id = Some l -> ApprovalID l <> a)) end) d.
Proof.
  unfold LeaseByApprovalID. wp_steps. case_bool_decide as Ha; [split; [done|by eauto]|].
  apply wp_read_back, wp_select_where; [split; [done|by left]|..].
  - intros id row Hrow Hp. bools. rewrite toLease_readable. split; [done|].
    destruct (readable row); [|by left]. by eauto.
  - intros Hn. split; [done|]. right. split; [done|]. right. intros id row Hrow.
    specialize (Hn _ _ Hrow). by bools.
Qed.

(** The conditional updates. *)
Lemma wp_conditional id p f chk none (Q : result Code Lease -> DB -> Prop) d :
  (forall e, e ∈ [CodeInvalidRequest; none; CodeInternal] -> Q (Err e) d) ->
  (forall l, leases d !! id = Some l -> p l = true ->
    Q (toLease (f l)) (put (<[id := f l]> (view d)) d)) ->
  wp (read_back (stmt (on (update_row id p f chk))) (writeErrorOr none)) Q d.
Proof.
  intros Herr Hok. apply wp_read_back, wp_update.
  - apply Herr. set_solver.
  - intros. apply Herr. set_solver.
  - intros. apply Herr. set_solver.
  - intros l Hl Hp _. auto.
Qed.

Lemma Consume_ok id now d :
  wp (Consume id now) (fun r d' =>
    refused d [CodeInvalidRequest; CodeConflict; CodeInternal] r d' \/
    exists l, leases d !! id = Some l /\ consumable l now = true /\
      wrote d id (consumed l now) r d') d.
Proof.
  apply wp_conditional.
  - intros e He. left. split; [done|]. eexists; split; [done|]. set_solver.
  - intros l Hl Hp. right. by exists l.
Qed.

Lemma Close_ok id status at_ d :
  wp (Close id status at_) (fun r d' =>
    refused d [CodeInvalidRequest; CodeConflict; CodeInternal] r d' \/
    exists l, leases d !! id = Some l /\ isActive l = true /\ status <> StatusActive /\
      wrote d id (closed l status at_) r d') d.
Proof.
  unfold Close. wp_steps. case_bool_decide as Hs.
  { left. split; [done|]. eexists; split; [done|]. set_solver. }
  apply wp_conditional.
  - intros e He. left. split; [done|]. eexists; split; [done|]. set_solver.
  - intros l Hl Hp. right. by exists l.
Qed.

Lemma Shorten_ok id expiresAt at_ d :
  wp (Shorten id expiresAt at_) (fun r d' =>
    refused d [CodeInvalidRequest; CodeInternal] r d' \/
    exists l, leases d !! id = Some l /\ isActive l = true /\ column expiresAt < ExpiresAt l /\
      wrote d id (shortened l expiresAt at_) r d') d.
Proof.
  apply wp_conditional.
  - intros e He. left. split; [done|]. eexists; split; [done|]. set_solver.
  - intros l Hl Hp. right. bools. by exists l.
Qed.
End laws.

#[global] Instance repository_laws `{Env} : RepositoryLaws DB.
Proof.
  split.
  - apply IssueLease_ok.
  - apply LeaseByID_ok.
  - apply LeaseByApprovalID_ok.
  - intros. exact (wp_list_decoded _ (by_key ExpiresAt) _ _ _).
  - intros. exact (wp_list_decoded _ (by_key ExpiresAt) _ _ _).
  - intros. exact (wp_list_decoded _ (by_key ExpiresAt) _ _ _).
  - intros. exact (wp_list_decoded _ (by_key ExpiresAt) _ _ _).
  - apply Consume_ok.
  - apply Close_ok.
  - apply Shorten_ok.
Qed.
