(* ===== verification/ApprovalStore.v ===== *)
(** * store/repo: the repository of approvals (approval.go) *)
From S2P Require Import Prelude GoStr Apperr GoTime World Store.
From S2P Require Import Approval.
Open Scope Z_scope.

(** The CHECK constraints; NULL is the empty text, or the zero time. *)
Definition checked (a : Approval) : bool :=
  ((Action a ==? "") || one_of (Action a) actions) && one_of (Status a) statuses &&
  Bool.eqb (isPending a) (Action a ==? "") && Bool.eqb (isPending a) (IsZero (DecidedAt a)).

Section repository.
Context `{Env}.

Definition CreateApproval (item : Approval) : M DB Code Approval :=
  map_err writeError (stmt (fun d =>
    on (insert_row (ID item) (stored item) (checked (stored item))
          (absent DecisionID (DecisionID item) (approvals d))
          (refers (decisions d) (DecisionID item))) d)).

Definition ApprovalByID (id : string) : M DB Code Approval :=
  map_err readError (query (fun d => select_row id (approvals d))).

Definition ApprovalByDecisionID (decisionID : string) : M DB Code Approval :=
  map_err readError (query (fun d =>
    select_where (fun a => DecisionID a ==? decisionID) (approvals d))).

Definition ApprovalsByStatus (status : string) : Z -> M DB Code (list Approval) :=
  list_rows (fun a => Status a ==? status) (by_key ExpiresAt).

Definition PendingApprovalsDueBefore (deadline : Z) : Z -> M DB Code (list Approval) :=
  list_rows (fun a => isPending a && (ExpiresAt a <=? column deadline)) (by_key ExpiresAt).

Definition Settle (id action status : string) (at_ : Z) : M DB Code Approval :=
  map_err (writeErrorOr CodeConflict)
    (stmt (on (update_row id isPending (fun a => settled a action status at_) checked))).
End repository.

#[global] Instance repository `{Env} : Repository DB := {
  Approval.CreateApproval := CreateApproval;
  Approval.ApprovalByID := ApprovalByID;
  Approval.ApprovalByDecisionID := ApprovalByDecisionID;
  Approval.ApprovalsByStatus := ApprovalsByStatus;
  Approval.PendingApprovalsDueBefore := PendingApprovalsDueBefore;
  Approval.Settle := Settle;
}.

Section laws.
Context `{Env}.
Implicit Types d : DB.

Lemma CreateApproval_ok a d :
  wp (CreateApproval a) (fun r d' =>
    refused d [CodeInvalidRequest; CodeConflict; CodeInternal] r d' \/
    (approvals d !! ID a = None /\
     (forall id a', approvals d !! id = Some a' -> DecisionID a' <> DecisionID a) /\
     wrote d (ID a) (stored a) r d')) d.
Proof.
  apply wp_map_err.
  apply (wp_insert (ID a) (fun _ => stored a) (fun _ => checked (stored a))
    (fun d => absent DecisionID (DecisionID a) (approvals d))
    (fun d => refers (decisions d) (DecisionID a))).
  - intros e He He'. left. split; [done|]. eexists; split; [done|]. destruct e; try done; set_solver.
  - intros _ Hn Hu _. rewrite absent_spec in Hu. right. by split_and!.
Qed.

Lemma ApprovalByID_ok id d :
  wp (ApprovalByID id) (fun r d' => d' = d /\ match r with
    | Ok a => approvals d !! id = Some a
    | Err e => e = CodeInternal \/ (e = CodeNotFound /\ approvals d !! id = None) end) d.
Proof.
  apply wp_map_err, wp_select.
  - split; [done|by left].
  - done.
  - intros Hn. split; [done|by right].
Qed.

Lemma ApprovalByDecisionID_ok x d :
  wp (ApprovalByDecisionID x) (fun r d' => d' = d /\ match r with
    | Ok a => (exists id, approvals d !! id = Some a) /\ DecisionID a = x
    | Err e => e = CodeInternal \/
        (e = CodeNotFound /\ forall id a, approvals d !! id = Some a -> DecisionID a <> x) end) d.
Proof.
  apply wp_map_err, wp_select_where.
  - split; [done|by left].
  - intros id a Ha Hp. bools. eauto.
  - intros Hn. split; [done|]. right. split; [done|]. intros id a Ha. specialize (Hn _ _ Ha). by bools.
Qed.

Lemma Settle_ok id action status at_ d :
  status <> StatusPending ->
  wp (Settle id action status at_) (fun r d' =>
    refused d [CodeInvalidRequest; CodeInternal] r d' \/
    (refused d [CodeConflict] r d' /\ forall a, approvals d !! id = Some a -> isPending a = false) \/
    exists a, approvals d !! id = Some a /\ isPending a = true /\
      wrote d id (settled a action status at_) r d') d.
Proof.
  intros _. apply wp_map_err, wp_update.
  - left. split; [done|]. eexists; split; [done|]. set_solver.
  - left. split; [done|]. eexists; split; [done|]. set_solver.
  - intros Hn. right. left. split; [|done]. split; [done|]. eexists; split; [done|]. set_solver.
  - intros a Ha Hp _. right. right. by exists a.
Qed.
End laws.

#[global] Instance repository_laws `{Env} : RepositoryLaws DB.
Proof.
  split.
  - apply CreateApproval_ok.
  - apply ApprovalByID_ok.
  - apply ApprovalByDecisionID_ok.
  - intros. exact (wp_list_rows _ (by_key ExpiresAt) _ _).
  - intros. exact (wp_list_rows _ (by_key ExpiresAt) _ _).
  - apply Settle_ok.
Qed.
