(* ===== verification/TrustStore.v ===== *)
(** * store/repo: the repository of trust memories (trust.go) *)
From S2P Require Import Prelude GoStr Apperr GoTime World Store.
From S2P Require Import Trust.
From S2P Require Risk Matcher Decision Lease.
Open Scope Z_scope.

(** The CHECK constraints of the table. *)
Definition checked `{Env} (m : Memory) : bool :=
  json_valid (ResourceScope m) && json_valid (CapabilityScope m) &&
  one_of (Environment m) [Matcher.EnvironmentProduction; Matcher.EnvironmentNonProduction] &&
  one_of (RiskCeiling m) [Risk.LevelLow; Risk.LevelMedium] &&
  one_of (Behavior m) [BehaviorAutoAllow; BehaviorAlwaysAsk] && validStatus (Status m) &&
  ((InvalidationReason m ==? "") || validReason (InvalidationReason m)) &&
  Bool.eqb (isActive m) (InvalidationReason m ==? "").

(** Those of the columns an invalidation writes. *)
Definition checked_reason (m : Memory) : bool :=
  validReason (InvalidationReason m) && Bool.eqb (isActive m) (InvalidationReason m ==? "").

Definition referring (d : DB) (m : Memory) : bool :=
  refers (agents d) (AgentID m) && refers (workspaces d) (WorkspaceID m) &&
  refers (identities d) (IdentityID m) && refers (approvals d) (CreatedFrom m).

(** ON DELETE RESTRICT: a decision or a lease points at the memory. *)
Definition referenced (d : DB) (id : string) : bool :=
  negb (absent_opt Decision.TrustMemoryID id (decisions d)) ||
  negb (absent_opt Lease.SourceMemoryID id (leases d)).

Section repository.
Context `{Env}.

Definition CreateMemory (memory : Memory) : M DB Code Memory :=
  map_err writeError (stmt (fun d =>
    on (insert_row (ID memory) (stored memory) (checked (stored memory))
          (absent CreatedFrom (CreatedFrom memory) (memories d)) (referring d memory)) d)).

Definition MemoryByID (id : string) : M DB Code Memory :=
  map_err readError (query (fun d => select_row id (memories d))).

Definition MatchMemories (agentID workspaceID service : string) : Z -> M DB Code (list Memory) :=
  list_rows (fun m => (AgentID m ==? agentID) && (WorkspaceID m ==? workspaceID) &&
                      (Service m ==? service) && isActive m) (by_text ID).

Definition MemoriesByStatus (status : string) : Z -> M DB Code (list Memory) :=
  list_rows (fun m => Status m ==? status) (by_text ID).

Definition ActiveMemoriesByIdentity (identityID : string) : Z -> M DB Code (list Memory) :=
  list_rows (fun m => (IdentityID m ==? identityID) && isActive m) (by_text ID).

Definition Touch (id : string) (at_ : Z) : M DB Code Memory :=
  map_err (writeErrorOr CodeConflict)
    (stmt (on (update_row id isActive (fun m => touched m at_) (fun _ => true)))).

Definition TightenBehavior (id : string) (at_ : Z) : M DB Code Memory :=
  map_err (writeErrorOr CodeConflict)
    (stmt (on (update_row id (fun m => isActive m && (Behavior m ==? BehaviorAutoAllow))
                 (fun m => tightened m at_) (fun _ => true)))).

Definition Invalidate (id reason : string) (at_ : Z) : M DB Code Memory :=
  _ ← refuse (reason ==? "") CodeInvalidRequest;
  map_err (writeErrorOr CodeConflict)
    (stmt (on (update_row id isActive (fun m => invalidated m reason at_) checked_reason))).

(** DELETE: the rows it affected. *)
Definition delete_row (id : string) (d : DB) : result sql_error (Z * DB) :=
  if refers (memories d) id then
    if referenced d id then Err StillReferencedViolation else Ok (1, put (delete id (memories d)) d)
  else Ok (0, d).

Definition DeleteMemory (id : string) : M DB Code unit :=
  affected ← map_err writeError (stmt (delete_row id));
  refuse (affected =? 0) CodeNotFound.
End repository.

#[global] Instance repository `{Env} : Repository DB := {
  Trust.CreateMemory := CreateMemory;
  Trust.MemoryByID := MemoryByID;
  Trust.MatchMemories := MatchMemories;
  Trust.MemoriesByStatus := MemoriesByStatus;
  Trust.ActiveMemoriesByIdentity := ActiveMemoriesByIdentity;
  Trust.Touch := Touch;
  Trust.TightenBehavior := TightenBehavior;
  Trust.Invalidate := Invalidate;
  Trust.DeleteMemory := DeleteMemory;
}.

Section laws.
Context `{Env}.
Implicit Types d : DB.

Lemma CreateMemory_ok m d :
  wp (CreateMemory m) (fun r d' =>
    refused d [CodeInvalidRequest; CodeConflict; CodeInternal] r d' \/
    (memories d !! ID m = None /\
     (forall id m', memories d !! id = Some m' -> CreatedFrom m' <> CreatedFrom m) /\
     wrote d (ID m) (stored m) r d')) d.
Proof.
  apply wp_map_err.
  apply (wp_insert (ID m) (fun _ => stored m) (fun _ => checked (stored m))
    (fun d => absent CreatedFrom (CreatedFrom m) (memories d)) (fun d => referring d m)).
  - intros e He He'. left. split; [done|]. eexists; split; [done|]. destruct e; try done; set_solver.
  - intros _ Hn Hu _. rewrite absent_spec in Hu. right. by split_and!.
Qed.

Lemma MemoryByID_ok id d :
  wp (MemoryByID id) (fun r d' => d' = d /\ match r with
    | Ok m => memories d !! id = Some m
    | Err e => e = CodeInternal \/ (e = CodeNotFound /\ memories d !! id = None) end) d.
Proof.
  apply wp_map_err, wp_select.
  - split; [done|by left].
  - done.
  - intros Hn. split; [done|by right].
Qed.

(** The conditional updates. *)
Lemma wp_conditional_memory id p f chk (Q : result Code Memory -> DB -> Prop) d :
  (forall e, e ∈ [CodeConflict; CodeInternal] -> Q (Err e) d) ->
  ((forall m, chk (f m) = true) \/ Q (Err CodeInvalidRequest) d) ->
  (forall m, memories d !! id = Some m -> p m = true ->
    Q (Ok (f m)) (put (<[id := f m]> (memories d)) d)) ->
  wp (map_err (writeErrorOr CodeConflict) (stmt (on (update_row id p f chk)))) Q d.
Proof.
  intros Herr Hchk Hok. apply wp_map_err, wp_update.
  - apply Herr. set_solver.
  - intros m _ _ Hc. destruct Hchk as [Ht|]; [|done]. by rewrite Ht in Hc.
  - intros. apply Herr. set_solver.
  - intros m Hm Hp _. auto.
Qed.

Lemma Touch_ok id at_ d :
  wp (Touch id at_) (fun r d' =>
    refused d [CodeConflict; CodeInternal] r d' \/
    exists m, memories d !! id = Some m /\ isActive m = true /\
      wrote d id (touched m at_) r d') d.
Proof.
  apply wp_conditional_memory; [|by left|].
  - intros e He. left. split; [done|]. by exists e.
  - intros m Hm Hp. right. by exists m.
Qed.

Lemma TightenBehavior_ok id at_ d :
  wp (TightenBehavior id at_) (fun r d' =>
    refused d [CodeConflict; CodeInternal] r d' \/
    exists m, memories d !! id = Some m /\ isActive m = true /\
      Behavior m = BehaviorAutoAllow /\ wrote d id (tightened m at_) r d') d.
Proof.
  apply wp_conditional_memory; [|by left|].
  - intros e He. left. split; [done|]. by exists e.
  - intros m Hm Hp. right. bools. by exists m.
Qed.

Lemma Invalidate_ok id reason at_ d :
  wp (Invalidate id reason at_) (fun r d' =>
    refused d [CodeInvalidRequest; CodeConflict; CodeInternal] r d' \/
    exists m, memories d !! id = Some m /\ isActive m = true /\ reason <> "" /\
      wrote d id (invalidated m reason at_) r d') d.
Proof.
  unfold Invalidate. wp_steps. case_bool_decide as Hr.
  { left. split; [done|]. eexists; split; [done|]. set_solver. }
  apply wp_conditional_memory.
  - intros e He. left. split; [done|]. eexists; split; [done|]. set_solver.
  - right. left. split; [done|]. eexists; split; [done|]. set_solver.
  - intros m Hm Hp. right. by exists m.
Qed.

Lemma DeleteMemory_ok id d :
  wp (DeleteMemory id) (fun r d' =>
    refused d [CodeNotFound; CodeConflict; CodeInternal] r d' \/
    (is_Some (memories d !! id) /\ d' = put (delete id (memories d)) d /\ r = Ok tt)) d.
Proof.
  unfold DeleteMemory. wp_steps. apply wp_stmt; unfold delete_row.
  - left. split; [done|]. eexists; split; [done|]. set_solver.
  - intros a d'. destruct (refers _ _) eqn:Hr; [destruct (referenced _ _); [done|]|];
      intros; simplify_eq; wp_steps; simpl.
    + right. unfold refers in Hr. by bools.
    + left. split; [done|]. eexists; split; [done|]. set_solver.
  - intros e. destruct (refers _ _); [destruct (referenced _ _)|]; intros; simplify_eq.
    left. split; [done|]. eexists; split; [done|]. set_solver.
Qed.
End laws.

#[global] Instance repository_laws `{Env} : RepositoryLaws DB.
Proof.
  split.
  - apply CreateMemory_ok.
  - apply MemoryByID_ok.
  - intros. exact (wp_list_rows _ (by_text ID) _ _).
  - intros. exact (wp_list_rows _ (by_text ID) _ _).
  - intros. exact (wp_list_rows _ (by_text ID) _ _).
  - apply Touch_ok.
  - apply TightenBehavior_ok.
  - apply Invalidate_ok.
  - apply DeleteMemory_ok.
Qed.
