(* ===== verification/LedgerStore.v ===== *)
(** * store/repo: the repository of audit events (audit.go) *)
From S2P Require Import Prelude GoStr Apperr GoTime World Store.
From S2P Require Import Ledger.
From S2P Require Risk Decision Lease.
Open Scope Z_scope.

(** The CHECK constraints of the table. *)
Definition optional_one_of (value : string) (values : list string) : bool :=
  (value ==? "") || one_of value values.

Definition checked `{Env} (e : Event) : bool :=
  one_of (Type_ e) eventTypes && json_valid (Resource e) && json_valid (ResolvedScope e) &&
  optional_one_of (Verdict e) [Decision.VerdictAutoAllow; Decision.VerdictRequireApproval; Decision.VerdictDeny] &&
  optional_one_of (RiskLevel e) [Risk.LevelLow; Risk.LevelMedium; Risk.LevelHigh] &&
  optional_one_of (LeaseStatus e) Lease.statuses &&
  one_of (Outcome e) [OutcomeSucceeded; OutcomeFailed; OutcomeBlocked] &&
  ((ResponseStatus e =? 0) || ((100 <=? ResponseStatus e) && (ResponseStatus e <=? 599))) &&
  (0 <=? Duration e) && json_valid (Metadata e).

Definition referring (d : DB) (e : Event) : bool :=
  refers_opt (agents d) (AgentID e) && refers_opt (devices d) (DeviceID e) &&
  refers_opt (workspaces d) (WorkspaceID e) && refers_opt (identities d) (IdentityID e) &&
  refers_opt (providers d) (CredentialProviderID e) && refers_opt (decisions d) (DecisionID e) &&
  refers_opt (approvals d) (ApprovalID e) && refers_opt (leases d) (LeaseID e).

(** The cursor "9999-12-31T23:59:59.999Z": from the newest. *)
Definition last_instant : Z := days_of 9999 12 31 * Day + 24 * Hour - Millisecond.

Definition encodeCursor (before : Z) : Z := if IsZero before then last_instant else column before.

Example last_instant_text : encodeTime last_instant = "9999-12-31T23:59:59.999Z".
Proof. vm_compute. reflexivity. Qed.

(** ORDER BY created_at DESC. *)
Definition newest_first : relation Event := by_key (fun e => - CreatedAt e).

#[export] Instance newest_first_dec : RelDecision newest_first.
Proof. unfold newest_first. apply _. Defined.

#[export] Instance newest_first_total : Total newest_first.
Proof. unfold newest_first. apply _. Qed.

Section repository.
Context `{Env}.

(** Shared by the two ways an event is written. *)
Definition append_row (event : Event) : M DB sql_error Event :=
  stmt (fun d =>
    on (insert_row (ID event) (stored event) (checked (stored event)) true (referring d event)) d).

Definition Append (event : Event) : M DB Code Event :=
  row ← map_err writeError (append_row event); of_result (toEvent row).

Definition EventByID (id : string) : M DB Code Event :=
  row ← map_err readError (query (fun d => select_row id (events d))); of_result (toEvent row).

Definition Events (before : Z) : Z -> M DB Code (list Event) :=
  list_decoded (fun e => CreatedAt e <? encodeCursor before) newest_first readable.

Definition EventsByAgent (agentID : string) (before : Z) : Z -> M DB Code (list Event) :=
  list_decoded (fun e => (agentID !=? "") && (AgentID e ==? agentID) &&
                         (CreatedAt e <? encodeCursor before)) newest_first readable.

Definition EventsByService (service : string) (before : Z) : Z -> M DB Code (list Event) :=
  list_decoded (fun e => (Service e ==? service) && (CreatedAt e <? encodeCursor before))
    newest_first readable.

Definition CountBefore (cutoff : Z) : M DB Code Z :=
  _ ← refuse (IsZero cutoff) CodeInvalidRequest;
  counted ← map_err readError (query (fun d => Ok (Z.of_nat (size (dropped cutoff (events d))))));
  of_result (decodeCount counted).

(** DELETE FROM audit_events WHERE created_at < ?, with the rows it affected. *)
Definition prune_rows (cutoff : Z) : M DB sql_error Z :=
  stmt (fun d => Ok (Z.of_nat (size (dropped cutoff (events d))), put (kept cutoff (events d)) d)).

Definition PruneBefore (cutoff : Z) (record : Event) : M DB Code (Z * Event) :=
  _ ← refuse (IsZero cutoff) CodeInvalidRequest;
  _ ← refuse (Before (CreatedAt record) cutoff) CodeInvalidRequest;
  transaction (
    pruned ← map_err writeError (prune_rows cutoff);
    count ← of_result (decodeCount pruned);
    row ← map_err writeError (append_row record);
    written ← of_result (toEvent row);
    mret (count, written)).
End repository.

#[global] Instance repository `{Env} : Repository DB := {
  Ledger.Append := Append;
  Ledger.EventByID := EventByID;
  Ledger.Events := Events;
  Ledger.EventsByAgent := EventsByAgent;
  Ledger.EventsByService := EventsByService;
  Ledger.CountBefore := CountBefore;
  Ledger.PruneBefore := PruneBefore;
}.

Section laws.
Context `{Env}.
Implicit Types d : DB.

Lemma writeError_codes e :
  e <> NoRows -> e <> StillReferencedViolation ->
  writeError e ∈ [CodeInvalidRequest; CodeConflict; CodeInternal].
Proof. destruct e; try done; set_solver. Qed.

Lemma wp_append_row e Q d :
  (forall c, c <> NoRows -> c <> StillReferencedViolation -> Q (Err c) d) ->
  (checked (stored e) = true -> events d !! ID e = None -> referring d e = true ->
   Q (Ok (stored e)) (put (<[ID e := stored e]> (events d)) d)) ->
  wp (append_row e) Q d.
Proof.
  intros Herr Hok. apply (wp_insert (ID e) (fun _ => stored e) (fun _ => checked (stored e))
    (fun _ => true) (fun d => referring d e)); auto.
Qed.

Lemma Append_ok e d :
  wp (Append e) (fun r d' =>
    refused d [CodeInvalidRequest; CodeConflict; CodeInternal] r d' \/
    (events d !! ID e = None /\ d' = put (<[ID e := stored e]> (events d)) d /\
     r = toEvent (stored e))) d.
Proof.
  unfold Append. wp_steps. apply wp_append_row.
  - intros c Hc Hc'. left. split; [done|]. exists (writeError c). auto using writeError_codes.
  - intros _ Hn _. wp_steps. by right.
Qed.

Lemma EventByID_ok id d :
  wp (EventByID id) (fun r d' => d' = d /\ match r with
    | Ok e => events d !! id = Some e
    | Err c => c = CodeInternal \/ (c = CodeNotFound /\ events d !! id = None) end) d.
Proof.
  unfold EventByID. wp_steps. apply wp_select.
  - split; [done|by left].
  - intros row Hrow. wp_steps. split; [done|]. unfold toEvent. destruct (readable row); [done|by left].
  - intros Hn. split; [done|by right].
Qed.

Lemma CountBefore_ok cutoff d :
  wp (CountBefore cutoff) (fun r d' => d' = d /\ match r with
    | Ok n => n = Z.of_nat (size (dropped cutoff (events d)))
    | Err c => c = CodeInternal \/ (c = CodeInvalidRequest /\ cutoff = 0) end) d.
Proof.
  unfold CountBefore, IsZero. wp_steps. destruct (cutoff =? 0) eqn:Ec; bools.
  { split; [done|]. by right. }
  wp_steps. apply wp_query; [split; [done|by left]|intros a [= <-]|done]. wp_steps.
  split; [done|]. unfold decodeCount. destruct (_ || _); [by left|done].
Qed.

Lemma PruneBefore_ok cutoff record d :
  wp (PruneBefore cutoff record) (fun r d' =>
    refused d [CodeInvalidRequest; CodeConflict; CodeInternal] r d' \/
    (cutoff <> 0 /\ cutoff <= CreatedAt record /\
     kept cutoff (events d) !! ID record = None /\
     d' = put (<[ID record := stored record]> (kept cutoff (events d))) d /\
     r = Ok (Z.of_nat (size (dropped cutoff (events d))), stored record))) d.
Proof.
  assert (Hno : forall c d, c ∈ [CodeInvalidRequest; CodeConflict; CodeInternal] ->
    refused (A := Z * Event) d [CodeInvalidRequest; CodeConflict; CodeInternal] (Err c) d).
  { intros c d0 Hc. split; [done|]. by exists c. }
  unfold PruneBefore, IsZero, Before. wp_steps. destruct (cutoff =? 0) eqn:Ec; bools.
  { left. apply Hno. set_solver. }
  wp_steps. destruct (_ <? cutoff) eqn:Eb; bools. { left. apply Hno. set_solver. }
  apply wp_transaction; [left; apply Hno; set_solver|]. wp_steps.
  apply wp_stmt; [left; apply Hno; set_solver| |done]. intros n d' [= <- <-]. wp_steps.
  unfold decodeCount. destruct (_ || _); [left; apply Hno; set_solver|]. wp_steps.
  apply wp_append_row.
  - intros c Hc Hc'. left. apply Hno. by apply writeError_codes.
  - intros _ Hn _. wp_steps. unfold toEvent. destruct (readable _); [|left; apply Hno; set_solver].
    wp_steps. right. by split_and!.
Qed.
End laws.

#[global] Instance repository_laws `{Env} : RepositoryLaws DB.
Proof.
  split.
  - apply Append_ok.
  - apply EventByID_ok.
  - apply CountBefore_ok.
  - apply PruneBefore_ok.
Qed.
