(* ===== verification/RequestStore.v ===== *)
(** * store/repo: capability requests and decisions (request.go, decision.go) *)
From S2P Require Import Prelude GoStr Apperr GoTime World Store.
From S2P Require Import Request.
From S2P Require Risk Matcher Decision.
Open Scope Z_scope.

(** The CHECK constraints of capability_requests; NULL is the empty text. *)
Definition checked_request `{Env} (r : CapabilityRequest) : bool :=
  json_valid (Resource r) && ((DesiredChange r ==? "") || json_valid (DesiredChange r)) &&
  one_of (Status r) statuses.

Definition referring_request (d : DB) (r : CapabilityRequest) : bool :=
  refers (agents d) (AgentID r) && refers (workspaces d) (WorkspaceID r).

(** The CHECK constraints of decisions. *)
Definition match_levels : list string :=
  [ Matcher.MatchWorkspaceBinding; Matcher.MatchResourceBinding; Matcher.MatchTrustMemory;
    Matcher.MatchSoleIdentity; Matcher.MatchManualSelection ].

Definition checked_decision `{Env} (r : Decision.Decision) : bool :=
  one_of (Decision.d_Verdict r)
    [Decision.VerdictAutoAllow; Decision.VerdictRequireApproval; Decision.VerdictDeny] &&
  one_of (Decision.RiskLevel r) [Risk.LevelLow; Risk.LevelMedium; Risk.LevelHigh] &&
  json_valid (Decision.RiskFactors r) && json_valid (Decision.ResolvedScope r) &&
  ((Decision.d_MatchLevel r ==? "") || one_of (Decision.d_MatchLevel r) match_levels) &&
  one_of (Decision.d_ApprovalRequirement r)
    [Decision.ApprovalNone; Decision.ApprovalStandard; Decision.ApprovalStrongAuth] &&
  Bool.eqb (Decision.d_IdentityID r ==? "") (Decision.d_MatchLevel r ==? "").

Definition referring_decision (d : DB) (r : Decision.Decision) : bool :=
  refers (requests d) (Decision.CapabilityRequestID r) &&
  refers_opt (identities d) (Decision.d_IdentityID r) &&
  refers_opt (memories d) (Decision.TrustMemoryID r).

(** The row a decision becomes. *)
Definition stored_decision (r : Decision.Decision) : Decision.Decision :=
  {| Decision.ID := Decision.ID r; Decision.CapabilityRequestID := Decision.CapabilityRequestID r;
     Decision.d_Verdict := Decision.d_Verdict r; Decision.RiskLevel := Decision.RiskLevel r;
     Decision.RiskFactors := Decision.RiskFactors r; Decision.d_IdentityID := Decision.d_IdentityID r;
     Decision.d_MatchLevel := Decision.d_MatchLevel r; Decision.ResolvedScope := Decision.ResolvedScope r;
     Decision.d_ApprovalRequirement := Decision.d_ApprovalRequirement r;
     Decision.ReasonCode := Decision.ReasonCode r; Decision.TrustMemoryID := Decision.TrustMemoryID r;
     Decision.CreatedAt := column (Decision.CreatedAt r) |}.

Section repository.
Context `{Env}.

Definition CreateRequest (request : CapabilityRequest) : M DB Code CapabilityRequest :=
  map_err writeError (stmt (fun d =>
    on (insert_row (ID request) (stored request) (checked_request (stored request)) true
          (referring_request d request)) d)).

Definition RequestByID (id : string) : M DB Code CapabilityRequest :=
  map_err readError (query (fun d => select_row id (requests d))).

Definition RequestsByStatus (status : string) : Z -> M DB Code (list CapabilityRequest) :=
  list_rows (fun r => Status r ==? status) (by_key CreatedAt).

Definition AdvanceRequest (id from to : string) (at_ : Z) : M DB Code CapabilityRequest :=
  map_err (writeErrorOr CodeConflict)
    (stmt (on (update_row id (fun r => Status r ==? from) (fun r => advanced r to at_)
                 (fun r => one_of (Status r) statuses)))).

(** :execrows - no row is not an error of the statement. *)
Definition SaveChangePreview (id preview expected : string) (at_ : Z) : M DB Code unit :=
  _ ← map_err (writeErrorOr CodeConflict)
    (stmt (on (update_row id (fun r => Status r ==? expected) (fun r => previewed r preview at_)
                 (fun r => (ChangePreview r ==? "") || json_valid (ChangePreview r)))));
  mret ().

Definition CreateDecision (record : Decision.Decision) : M DB Code Decision.Decision :=
  map_err writeError (stmt (fun d =>
    on (insert_row (Decision.ID record) (stored_decision record)
          (checked_decision (stored_decision record))
          (absent Decision.CapabilityRequestID (Decision.CapabilityRequestID record) (decisions d))
          (referring_decision d record)) d)).

Definition DecisionByID (id : string) : M DB Code Decision.Decision :=
  map_err readError (query (fun d => select_row id (decisions d))).

Definition DecisionByRequestID (requestID : string) : M DB Code Decision.Decision :=
  map_err readError (query (fun d =>
    select_where (fun r => Decision.CapabilityRequestID r ==? requestID) (decisions d))).
End repository.

(** ** What the callers rely on *)

Section specs.
Context `{Env}.
Implicit Types d : DB.

Lemma wp_RequestByID id Q d :
  Q (Err CodeInternal) d -> (requests d !! id = None -> Q (Err CodeNotFound) d) ->
  (forall r, requests d !! id = Some r -> Q (Ok r) d) ->
  wp (RequestByID id) Q d.
Proof. intros Hf Hn Hok. apply wp_map_err, wp_select; auto. Qed.

Lemma wp_DecisionByID id Q d :
  Q (Err CodeInternal) d -> (decisions d !! id = None -> Q (Err CodeNotFound) d) ->
  (forall r, decisions d !! id = Some r -> Q (Ok r) d) ->
  wp (DecisionByID id) Q d.
Proof. intros Hf Hn Hok. apply wp_map_err, wp_select; auto. Qed.

(** Only the handler that sees the request in [from] moves it. *)
Lemma wp_AdvanceRequest id from to at_ Q d :
  (forall c, Q (Err c) d) ->
  (forall r, requests d !! id = Some r -> Status r = from ->
    Q (Ok (advanced r to at_)) (put (<[id := advanced r to at_]> (requests d)) d)) ->
  wp (AdvanceRequest id from to at_) Q d.
Proof.
  intros Herr Hok. apply wp_map_err, wp_update; auto. intros r Hr Hp _. bools. auto.
Qed.

(** One decision per request. *)
Lemma wp_CreateDecision record Q d :
  (forall c, Q (Err c) d) ->
  (checked_decision (stored_decision record) = true -> referring_decision d record = true ->
   decisions d !! Decision.ID record = None ->
   (forall id r, decisions d !! id = Some r ->
      Decision.CapabilityRequestID r <> Decision.CapabilityRequestID record) ->
   Q (Ok (stored_decision record))
     (put (<[Decision.ID record := stored_decision record]> (decisions d)) d)) ->
  wp (CreateDecision record) Q d.
Proof.
  intros Herr Hok. apply wp_map_err.
  apply (wp_insert (Decision.ID record) (fun _ => stored_decision record)
    (fun _ => checked_decision (stored_decision record))
    (fun d => absent Decision.CapabilityRequestID (Decision.CapabilityRequestID record) (decisions d))
    (fun d => referring_decision d record)); [auto|].
  intros Hc Hn Hu Hr. apply Hok; try done. by apply absent_spec.
Qed.
End specs.
