(* ===== verification/IdentityStore.v ===== *)
(** * store/repo: who takes part - devices, workspaces, agents, identities
    (device.go, workspace.go, agent.go, identity.go) and the credentials an
    identity points at (credential.go) *)
From S2P Require Import Prelude GoStr Apperr GoTime World Store.
From S2P Require Import Agent.
From S2P Require Credential Matcher.
Open Scope Z_scope.

(** ** Devices and workspaces *)

Section places.
Context `{Env}.

Definition CreateDevice (device : Device) : M DB Code Device :=
  map_err writeError (stmt (fun d =>
    on (insert_row (dev_ID device) (stored_device device) (one_of (TrustStatus device) deviceTrusts)
          (absent Fingerprint (Fingerprint device) (devices d)) true) d)).

Definition DeviceByID (id : string) : M DB Code Device :=
  map_err readError (query (fun d => select_row id (devices d))).

Definition DeviceByFingerprint (fingerprint : string) : M DB Code Device :=
  map_err readError (query (fun d =>
    select_where (fun x => Fingerprint x ==? fingerprint) (devices d))).

Definition SetDeviceTrustStatus (id status : string) (at_ : Z) : M DB Code Device :=
  map_err writeError
    (stmt (on (update_row id (fun _ => true) (fun x => with_trust_status x status at_)
                 (fun x => one_of (TrustStatus x) deviceTrusts)))).

Definition CreateWorkspace (workspace : Workspace) : M DB Code Workspace :=
  map_err writeError (stmt (fun d =>
    on (insert_row (ws_ID workspace) (stored_workspace workspace) true
          (absent ws_Path (ws_Path workspace) (workspaces d)) true) d)).

Definition WorkspaceByID (id : string) : M DB Code Workspace :=
  map_err readError (query (fun d => select_row id (workspaces d))).

Definition WorkspaceByPath (path : string) : M DB Code Workspace :=
  map_err readError (query (fun d => select_where (fun x => ws_Path x ==? path) (workspaces d))).

Definition SetWorkspaceFingerprint (id fingerprint : string) (at_ : Z) : M DB Code Workspace :=
  map_err writeError
    (stmt (on (update_row id (fun _ => true) (fun x => with_fingerprint x fingerprint at_)
                 (fun _ => true)))).
End places.

(** ** Agents *)

Definition checked_agent (a : Agent) : bool :=
  one_of (Type_ a) agentTypes && (0 <? PID a) && (0 <=? ParentPID a) &&
  one_of (TrustLevel a) trustLevels && one_of (Status a) agentStatuses.

Definition referring_agent (d : DB) (a : Agent) : bool :=
  refers (devices d) (DeviceID a) && refers (workspaces d) (WorkspaceID a).

Definition toAgent (a : Agent) : result Code Agent := if readable a then Ok a else Err CodeInternal.

(** ORDER BY id DESC, and ORDER BY last_seen_at DESC, id DESC. *)
Definition latest_id : relation Agent := fun x y => String.le (ID y) (ID x).
Definition latest_seen : relation Agent := fun x y =>
  LastSeenAt y < LastSeenAt x \/ (LastSeenAt y = LastSeenAt x /\ String.le (ID y) (ID x)).

#[export] Instance latest_id_dec : RelDecision latest_id.
Proof. intros x y. unfold latest_id. apply _. Defined.
#[export] Instance latest_seen_dec : RelDecision latest_seen.
Proof. intros x y. unfold latest_seen. apply _. Defined.
#[export] Instance latest_id_total : Total latest_id.
Proof. intros x y. unfold latest_id. destruct (total String.le (ID x) (ID y)); auto. Qed.
#[export] Instance latest_seen_total : Total latest_seen.
Proof.
  intros x y. unfold latest_seen. destruct (Z.lt_trichotomy (LastSeenAt x) (LastSeenAt y)) as [?|[?|?]];
    auto. destruct (total String.le (ID x) (ID y)); auto.
Qed.

Lemma latest_id_trans : Transitive latest_id.
Proof. intros x y z Hxy Hyz. unfold latest_id in *. by etrans. Qed.

Section agents.
Context `{Env}.

Definition read_agent (m : M DB sql_error Agent) (translate : sql_error -> Code) : M DB Code Agent :=
  row ← map_err translate m; of_result (toAgent row).

Definition CreateAgent (agent : Agent) : M DB Code Agent :=
  read_agent (stmt (fun d =>
    on (insert_row (ID agent) (stored_agent agent) (checked_agent agent)
          (absent SessionKeyHash (SessionKeyHash agent) (agents d)) (referring_agent d agent)) d))
    writeError.

Definition Agents : Z -> M DB Code (list Agent) :=
  list_decoded (fun _ => true) latest_seen readable.

Definition AgentByID (id : string) : M DB Code Agent :=
  read_agent (query (fun d => select_row id (agents d))) readError.

Definition AgentBySessionKeyHash (hash : string) : M DB Code Agent :=
  read_agent (query (fun d => select_where (fun a => SessionKeyHash a ==? hash) (agents d))) readError.

Definition AgentByBinding (binding : Binding) : M DB Code Agent :=
  read_agent (query (fun d =>
    match select (bound binding) latest_id 1 (agents d) with
    | row :: _ => Ok row
    | [] => Err NoRows
    end)) readError.

(** UPDATE by key; a session key hash is unique among the other rows. *)
Definition rebind_row (id : string) (rebind : Rebind) (t : gmap string Agent)
    : result sql_error (Agent * gmap string Agent) :=
  match t !! id with
  | None => Err NoRows
  | Some a =>
      let a' := rebound a rebind in
      if negb ((0 <? PID a') && (0 <=? ParentPID a')) then Err ValueViolation
      else if negb (absent SessionKeyHash (SessionKeyHash a') (delete id t)) then Err UniqueViolation
      else Ok (a', <[id := a']> t)
  end.

Definition RebindAgent (id : string) (rebind : Rebind) : M DB Code Agent :=
  read_agent (stmt (on (rebind_row id rebind))) writeError.

Definition SetAgentTrustLevel (id level : string) (at_ : Z) : M DB Code Agent :=
  read_agent (stmt (on (update_row id (fun _ => true) (fun a => with_trust a level at_)
                          (fun a => one_of (TrustLevel a) trustLevels)))) writeError.

Definition SetAgentStatus (id status : string) (at_ : Z) : M DB Code Agent :=
  read_agent (stmt (on (update_row id (fun _ => true) (fun a => with_status a status at_)
                          (fun a => one_of (Status a) agentStatuses)))) writeError.

Definition TouchAgent (id : string) (seenAt : Z) : M DB Code Agent :=
  read_agent (stmt (on (update_row id (fun _ => true) (fun a => seen a seenAt) (fun _ => true))))
    writeError.
End agents.

(** ** Identities *)

Definition with_identity (i : Matcher.Identity) (isDefault : bool) (status : string)
    (createdAt updatedAt : Z) : Matcher.Identity :=
  {| Matcher.ID := Matcher.ID i; Matcher.Service := Matcher.Service i;
     Matcher.AccountLabel := Matcher.AccountLabel i; Matcher.Environment := Matcher.Environment i;
     Matcher.IsDefault := isDefault; Matcher.Status := status;
     Matcher.CredentialReferenceID := Matcher.CredentialReferenceID i;
     Matcher.CreatedAt := createdAt; Matcher.UpdatedAt := updatedAt |}.

Definition stored_identity (i : Matcher.Identity) : Matcher.Identity :=
  with_identity i (Matcher.IsDefault i) (Matcher.Status i) (column (Matcher.CreatedAt i))
    (column (Matcher.UpdatedAt i)).

Definition identity_with_status (i : Matcher.Identity) (status : string) (at_ : Z) : Matcher.Identity :=
  with_identity i (Matcher.IsDefault i) status (Matcher.CreatedAt i) (column at_).

Definition identity_with_default (i : Matcher.Identity) (isDefault : bool) (at_ : Z) : Matcher.Identity :=
  with_identity i isDefault (Matcher.Status i) (Matcher.CreatedAt i) (column at_).

Definition identityStatuses : list string := [Matcher.StatusOK; Matcher.StatusNeedsReview].

Definition checked_identity (i : Matcher.Identity) : bool :=
  one_of (Matcher.Environment i) [Matcher.EnvironmentProduction; Matcher.EnvironmentNonProduction] &&
  one_of (Matcher.Status i) identityStatuses.

(** The unique index on (service, account_label). *)
Definition named (service accountLabel : string) (i : Matcher.Identity) : bool :=
  (Matcher.Service i ==? service) && (Matcher.AccountLabel i ==? accountLabel).

(** ORDER BY service, account_label. *)
Definition by_service_label : relation Matcher.Identity := fun x y =>
  (Matcher.Service x <> Matcher.Service y /\ String.le (Matcher.Service x) (Matcher.Service y)) \/
  (Matcher.Service x = Matcher.Service y /\ String.le (Matcher.AccountLabel x) (Matcher.AccountLabel y)).

#[export] Instance by_service_label_dec : RelDecision by_service_label.
Proof. intros x y. unfold by_service_label. apply _. Defined.
#[export] Instance by_service_label_total : Total by_service_label.
Proof.
  intros x y. unfold by_service_label. destruct (decide (Matcher.Service x = Matcher.Service y)) as [E|E].
  - destruct (total String.le (Matcher.AccountLabel x) (Matcher.AccountLabel y)); auto.
  - destruct (total String.le (Matcher.Service x) (Matcher.Service y)); auto.
Qed.

Section identities.
Context `{Env}.

Definition CreateIdentity (identity : Matcher.Identity) : M DB Code Matcher.Identity :=
  map_err writeError (stmt (fun d =>
    on (insert_row (Matcher.ID identity) (stored_identity identity) (checked_identity identity)
          (negb (existsb (named (Matcher.Service identity) (Matcher.AccountLabel identity))
             (rows_of (identities d))))
          (refers (references d) (Matcher.CredentialReferenceID identity))) d)).

Definition IdentityByID (id : string) : M DB Code Matcher.Identity :=
  map_err readError (query (fun d => select_row id (identities d))).

Definition IdentityByServiceAndAccountLabel (service accountLabel : string)
    : M DB Code Matcher.Identity :=
  map_err readError (query (fun d => select_where (named service accountLabel) (identities d))).

Definition IdentitiesForService (service : string) : Z -> M DB Code (list Matcher.Identity) :=
  list_rows (fun i => Matcher.Service i ==? service) (by_text Matcher.AccountLabel).

Definition Identities : Z -> M DB Code (list Matcher.Identity) :=
  list_rows (fun _ => true) by_service_label.

Definition SetIdentityStatus (id status : string) (at_ : Z) : M DB Code Matcher.Identity :=
  map_err writeError
    (stmt (on (update_row id (fun _ => true) (fun i => identity_with_status i status at_)
                 (fun i => one_of (Matcher.Status i) identityStatuses)))).

Definition SetIdentityDefault (id : string) (isDefault : bool) (at_ : Z) : M DB Code Matcher.Identity :=
  map_err writeError
    (stmt (on (update_row id (fun _ => true) (fun i => identity_with_default i isDefault at_)
                 (fun _ => true)))).

Lemma wp_IdentityByID id Q d :
  Q (Err CodeInternal) d -> (identities d !! id = None -> Q (Err CodeNotFound) d) ->
  (forall i, identities d !! id = Some i -> Q (Ok i) d) ->
  wp (IdentityByID id) Q d.
Proof. intros Hf Hn Hok. apply wp_map_err, wp_select; auto. Qed.

Lemma wp_SetIdentityStatus id status at_ Q d :
  (forall c, Q (Err c) d) ->
  (forall i, identities d !! id = Some i ->
    Q (Ok (identity_with_status i status at_))
      (put (<[id := identity_with_status i status at_]> (identities d)) d)) ->
  wp (SetIdentityStatus id status at_) Q d.
Proof. intros Herr Hok. apply wp_map_err, wp_update; auto. Qed.

Lemma wp_read_agent m translate Q d :
  wp m (fun r d' => match r with
    | Ok a => Q (toAgent a) d' | Err e => Q (Err (translate e)) d' end) d ->
  wp (read_agent m translate) Q d.
Proof.
  intros Hm. unfold read_agent. wp_steps. eapply wp_mono; [exact Hm|].
  intros [a|e] d' Hq; [|done]. by wp_steps.
Qed.

Lemma wp_SetAgentStatus id status at_ Q d :
  (forall c, Q (Err c) d) ->
  (forall a, agents d !! id = Some a ->
    Q (toAgent (with_status a status at_)) (put (<[id := with_status a status at_]> (agents d)) d)) ->
  wp (SetAgentStatus id status at_) Q d.
Proof. intros Herr Hok. apply wp_read_agent, wp_update; auto. Qed.
Lemma wp_CreateDevice device Q d :
  (forall c, Q (Err c) d) ->
  (devices d !! dev_ID device = None -> absent Fingerprint (Fingerprint device) (devices d) = true ->
    Q (Ok (stored_device device)) (put (<[dev_ID device := stored_device device]> (devices d)) d)) ->
  wp (CreateDevice device) Q d.
Proof.
  intros Herr Hok. apply wp_map_err.
  apply (wp_insert (dev_ID device) (fun _ => stored_device device) (fun _ => one_of (TrustStatus device) deviceTrusts)
    (fun d => absent Fingerprint (Fingerprint device) (devices d)) (fun _ => true)); auto.
Qed.

Lemma wp_DeviceByFingerprint fingerprint Q d :
  Q (Err CodeInternal) d ->
  (forall id x, devices d !! id = Some x -> Fingerprint x = fingerprint -> Q (Ok x) d) ->
  Q (Err CodeNotFound) d ->
  wp (DeviceByFingerprint fingerprint) Q d.
Proof.
  intros Hf Hok Hn. apply wp_map_err, wp_select_where; [done|intros id x Hx Hp|done].
  bools. eauto.
Qed.

Lemma wp_CreateWorkspace workspace Q d :
  (forall c, Q (Err c) d) ->
  (workspaces d !! ws_ID workspace = None -> absent ws_Path (ws_Path workspace) (workspaces d) = true ->
    Q (Ok (stored_workspace workspace))
      (put (<[ws_ID workspace := stored_workspace workspace]> (workspaces d)) d)) ->
  wp (CreateWorkspace workspace) Q d.
Proof.
  intros Herr Hok. apply wp_map_err.
  apply (wp_insert (ws_ID workspace) (fun _ => stored_workspace workspace) (fun _ => true)
    (fun d => absent ws_Path (ws_Path workspace) (workspaces d)) (fun _ => true)); auto.
Qed.

Lemma wp_WorkspaceByPath path Q d :
  Q (Err CodeInternal) d ->
  (forall id x, workspaces d !! id = Some x -> ws_Path x = path -> Q (Ok x) d) ->
  Q (Err CodeNotFound) d ->
  wp (WorkspaceByPath path) Q d.
Proof.
  intros Hf Hok Hn. apply wp_map_err, wp_select_where; [done|intros id x Hx Hp|done].
  bools. eauto.
Qed.

Lemma wp_SetWorkspaceFingerprint id fingerprint at_ Q d :
  (forall c, Q (Err c) d) ->
  (forall x, workspaces d !! id = Some x ->
    Q (Ok (with_fingerprint x fingerprint at_))
      (put (<[id := with_fingerprint x fingerprint at_]> (workspaces d)) d)) ->
  wp (SetWorkspaceFingerprint id fingerprint at_) Q d.
Proof. intros Herr Hok. apply wp_map_err, wp_update; auto. Qed.

Lemma wp_CreateAgent agent Q d :
  (forall c, Q (Err c) d) ->
  (agents d !! ID agent = None -> absent SessionKeyHash (SessionKeyHash agent) (agents d) = true ->
    Q (toAgent (stored_agent agent)) (put (<[ID agent := stored_agent agent]> (agents d)) d)) ->
  wp (CreateAgent agent) Q d.
Proof.
  intros Herr Hok. apply wp_read_agent.
  apply (wp_insert (ID agent) (fun _ => stored_agent agent) (fun _ => checked_agent agent)
    (fun d => absent SessionKeyHash (SessionKeyHash agent) (agents d)) (fun d => referring_agent d agent)); auto.
Qed.

Lemma wp_AgentByID id Q d :
  Q (Err CodeInternal) d ->
  (forall a, agents d !! id = Some a -> readable a = true -> Q (Ok a) d) ->
  (agents d !! id = None -> Q (Err CodeNotFound) d) ->
  wp (AgentByID id) Q d.
Proof.
  intros Hf Hok Hn. apply wp_read_agent, wp_select; [done|intros a Ha|done].
  unfold toAgent. destruct (readable a) eqn:E; auto.
Qed.

Lemma wp_AgentBySessionKeyHash hash Q d :
  Q (Err CodeInternal) d ->
  (forall id a, agents d !! id = Some a -> SessionKeyHash a = hash -> readable a = true -> Q (Ok a) d) ->
  ((forall id a, agents d !! id = Some a -> SessionKeyHash a <> hash) -> Q (Err CodeNotFound) d) ->
  wp (AgentBySessionKeyHash hash) Q d.
Proof.
  intros Hf Hok Hn. apply wp_read_agent, wp_select_where; [done|intros id a Ha Hp|intros Hnone].
  - bools. unfold toAgent. destruct (readable a) eqn:E; eauto.
  - apply Hn. intros id a Ha. specialize (Hnone id a Ha). by bools.
Qed.

(** The row found by a binding is the one with the greatest key. *)
Lemma wp_AgentByBinding binding Q d :
  Q (Err CodeInternal) d ->
  (forall id a, agents d !! id = Some a -> bound binding a = true -> readable a = true ->
    (forall id' a', agents d !! id' = Some a' -> bound binding a' = true -> String.le (ID a') (ID a)) ->
    Q (Ok a) d) ->
  ((forall id a, agents d !! id = Some a -> bound binding a = false) -> Q (Err CodeNotFound) d) ->
  wp (AgentByBinding binding) Q d.
Proof.
  intros Hf Hok Hn. apply wp_read_agent.
  assert (Hin : forall a, a ∈ merge_sort latest_id (filter (fun x => bound binding x = true) (rows_of (agents d))) <->
    bound binding a = true /\ exists id, agents d !! id = Some a).
  { intros a. by rewrite merge_sort_Permutation, list_elem_of_filter, elem_of_rows. }
  apply wp_query; [done|..]; unfold select;
    destruct (merge_sort _ _) as [|a l] eqn:E; simpl; intros x Hx; simplify_eq.
  - destruct (proj1 (Hin x) ltac:(left)) as [Hb [id Ha]].
    unfold toAgent. destruct (readable x) eqn:Hr; [|done]. apply (Hok id x); [done..|].
    intros id' a' Ha' Hb'.
    assert (StronglySorted latest_id (x :: l)) as Hs.
    { rewrite <- E. apply StronglySorted_merge_sort; [apply latest_id_trans|apply _]. }
    apply StronglySorted_inv in Hs as [_ Hall]. rewrite Forall_forall in Hall.
    assert (a' ∈ x :: l) as [->|Hl]%elem_of_cons by (apply Hin; eauto); [reflexivity|by apply Hall].
  - apply Hn. intros id a Ha. apply not_true_iff_false. intros Hb.
    apply (not_elem_of_nil a), Hin. eauto.
Qed.

Lemma wp_RebindAgent id rebind Q d :
  (forall c, Q (Err c) d) ->
  (forall a, agents d !! id = Some a ->
    absent SessionKeyHash (b_SessionKeyHash rebind) (delete id (agents d)) = true ->
    Q (toAgent (rebound a rebind)) (put (<[id := rebound a rebind]> (agents d)) d)) ->
  wp (RebindAgent id rebind) Q d.
Proof.
  intros Herr Hok. apply wp_read_agent, wp_stmt; [done| |done]; unfold on, rebind_row.
  intros a d'. change (view d) with (agents d). destruct (agents d !! id) as [x|] eqn:Hx; [|done].
  destruct (negb (_ && _)); [done|].
  destruct (negb (absent _ _ _)) eqn:Ha; [done|]. intros. simplify_eq. bools. by apply Hok.
Qed.

Lemma wp_SetAgentTrustLevel id level at_ Q d :
  one_of level trustLevels = true ->
  Q (Err CodeInternal) d -> (agents d !! id = None -> Q (Err CodeNotFound) d) ->
  (forall a, agents d !! id = Some a ->
    Q (toAgent (with_trust a level at_)) (put (<[id := with_trust a level at_]> (agents d)) d)) ->
  wp (SetAgentTrustLevel id level at_) Q d.
Proof.
  intros Hl Herr Hn Hok. apply wp_read_agent, wp_update; [done| | |auto].
  - intros a _ _. change (TrustLevel (with_trust a level at_)) with level. by rewrite Hl.
  - intros H'. apply Hn. destruct (agents d !! id) eqn:E; [|done]. by specialize (H' _ E).
Qed.

Lemma wp_TouchAgent id seenAt Q d :
  Q (Err CodeInternal) d -> (agents d !! id = None -> Q (Err CodeNotFound) d) ->
  (forall a, agents d !! id = Some a -> Q (toAgent (seen a seenAt)) (put (<[id := seen a seenAt]> (agents d)) d)) ->
  wp (TouchAgent id seenAt) Q d.
Proof.
  intros Herr Hn Hok. apply wp_read_agent, wp_update; [done|done| |auto].
  intros H'. apply Hn. destruct (agents d !! id) eqn:E; [|done]. by specialize (H' _ E).
Qed.
End identities.
