(* ===== verification/CredentialStore.v ===== *)
(** * store/repo: credential sources and references (credential.go)

    Registering a credential writes two tables in one transaction; a coordinate
    that is there already is reused and never overwritten. *)
From S2P Require Import Prelude GoStr Apperr GoTime World Store.
From S2P Require Import Credential.
Open Scope Z_scope.

Definition stored_provider (p : Provider) : Provider :=
  {| p_ID := p_ID p; Kind := Kind p; Label := Label p; p_CreatedAt := column (p_CreatedAt p);
     p_UpdatedAt := column (p_UpdatedAt p) |}.

Definition with_health (r : Reference) (providerID health : string)
    (verifiedAt createdAt updatedAt : Z) : Reference :=
  {| ID := ID r; ProviderID := providerID; ItemRef := ItemRef r; Field := Field r;
     Service := Service r; AccountLabel := AccountLabel r; Metadata := Metadata r;
     Capabilities := Capabilities r; HealthStatus := health; LastVerifiedAt := verifiedAt;
     CreatedAt := createdAt; UpdatedAt := updatedAt |}.

Definition stored_reference (r : Reference) : Reference :=
  with_health r (ProviderID r) (HealthStatus r) (optionalTime (LastVerifiedAt r))
    (column (CreatedAt r)) (column (UpdatedAt r)).

(** [reference.ProviderID = providerID]. *)
Definition of_provider (r : Reference) (providerID : string) : Reference :=
  with_health r providerID (HealthStatus r) (LastVerifiedAt r) (CreatedAt r) (UpdatedAt r).

Definition checked_reference `{Env} (r : Reference) : bool :=
  json_valid (Metadata r) && json_valid (Capabilities r) && one_of (HealthStatus r) healths.

(** The unique indexes. *)
Definition labelled (kind label : string) (p : Provider) : bool := (Kind p ==? kind) && (Label p ==? label).
Definition located (providerID itemRef field : string) (r : Reference) : bool :=
  (ProviderID r ==? providerID) && (ItemRef r ==? itemRef) && (Field r ==? field).

Lemma labelled_spec k l p : labelled k l p = true <-> Kind p = k /\ Label p = l.
Proof. unfold labelled. rewrite andb_true_iff, !bool_decide_eq_true. done. Qed.

Lemma located_spec i t f r :
  located i t f r = true <-> ProviderID r = i /\ ItemRef r = t /\ Field r = f.
Proof. unfold located. rewrite !andb_true_iff, !bool_decide_eq_true. tauto. Qed.

Definition none_of {A} (p : A -> bool) (t : gmap string A) : bool := negb (existsb p (rows_of t)).

Lemma none_of_spec {A} (p : A -> bool) (t : gmap string A) :
  none_of p t = true <-> forall id x, t !! id = Some x -> p x = false.
Proof.
  unfold none_of. rewrite negb_true_iff, <- not_true_iff_false, existsb_elem_of.
  setoid_rewrite elem_of_rows. split.
  - intros H id x Hx. apply not_true_iff_false. intros Hp. apply H. eauto.
  - intros H (x & [id Hx] & Hp). by rewrite (H _ _ Hx) in Hp.
Qed.

Section repository.
Context `{Env}.

Definition insert_provider (provider : Provider) : M DB sql_error Provider :=
  stmt (fun d =>
    on (insert_row (p_ID provider) (stored_provider provider) (one_of (Kind provider) implemented)
          (none_of (labelled (Kind provider) (Label provider)) (providers d)) true) d).

Definition insert_reference (reference : Reference) : M DB sql_error Reference :=
  stmt (fun d =>
    on (insert_row (ID reference) (stored_reference reference) (checked_reference reference)
          (none_of (located (ProviderID reference) (ItemRef reference) (Field reference)) (references d))
          (refers (providers d) (ProviderID reference))) d).

Definition CreateProvider (provider : Provider) : M DB Code Provider :=
  map_err writeError (insert_provider provider).

Definition ProviderByID (id : string) : M DB Code Provider :=
  map_err readError (query (fun d => select_row id (providers d))).

Definition ProviderByKindAndLabel (kind label : string) : M DB Code Provider :=
  map_err readError (query (fun d => select_where (labelled kind label) (providers d))).

Definition findOrCreateProvider (provider : Provider) : M DB Code string :=
  existing ← try_ (query (fun d => select_where (labelled (Kind provider) (Label provider)) (providers d)));
  match existing with
  | Ok row => mret (p_ID row)
  | Err NoRows => row ← map_err writeError (insert_provider provider); mret (p_ID row)
  | Err e => throw (readError e)
  end.

Definition findOrCreateReference (reference : Reference) : M DB Code Reference :=
  existing ← try_ (query (fun d =>
    select_where (located (ProviderID reference) (ItemRef reference) (Field reference)) (references d)));
  match existing with
  | Ok row => mret row
  | Err NoRows => map_err writeError (insert_reference reference)
  | Err e => throw (readError e)
  end.

Definition CreateRegistration (provider : Provider) (reference : Reference) : M DB Code Reference :=
  transaction (
    providerID ← findOrCreateProvider provider;
    findOrCreateReference (of_provider reference providerID)).

Definition CreateReference (reference : Reference) : M DB Code Reference :=
  map_err writeError (insert_reference reference).

Definition ReferenceByID (id : string) : M DB Code Reference :=
  map_err readError (query (fun d => select_row id (references d))).

Definition SetReferenceHealth (id status : string) (verifiedAt at_ : Z) : M DB Code Reference :=
  map_err writeError
    (stmt (on (update_row id (fun _ => true)
                 (fun r => with_health r (ProviderID r) status (optionalTime verifiedAt) (CreatedAt r)
                             (column at_))
                 (fun r => one_of (HealthStatus r) healths)))).
End repository.

(** ** Registration *)

(** The indexes hold: a label names one source of a kind, a coordinate one
    reference, every row is under its key and every reference has its source. *)
Record indexed (d : DB) : Prop := {
  provider_key : forall id p, providers d !! id = Some p -> p_ID p = id;
  reference_key : forall id r, references d !! id = Some r -> ID r = id;
  provider_unique : forall i j p q, providers d !! i = Some p -> providers d !! j = Some q ->
    Kind p = Kind q -> Label p = Label q -> i = j;
  reference_unique : forall i j r s, references d !! i = Some r -> references d !! j = Some s ->
    ProviderID r = ProviderID s -> ItemRef r = ItemRef s -> Field r = Field s -> i = j;
  reference_provider : forall i r, references d !! i = Some r -> is_Some (providers d !! ProviderID r);
}.

(** The row found or added for a key: [t'] has it and differs from [t] at most by
    it; a row that was there is the one returned. *)
Definition found_or_added {A} (p : A -> bool) (new : A) (t t' : gmap string A) (id : string) (x : A) : Prop :=
  (t' = t /\ t !! id = Some x /\ p x = true) \/
  ((forall i y, t !! i = Some y -> p y = false) /\ t !! id = None /\ x = new /\ t' = <[id := x]> t).

Section registration.
Context `{Env}.
Implicit Types d : DB.

Lemma wp_findOrCreateProvider provider d :
  wp (findOrCreateProvider provider) (fun r d' => match r with
    | Err _ => d' = d
    | Ok id => exists i p, id = p_ID p /\
        found_or_added (labelled (Kind provider) (Label provider)) (stored_provider provider)
          (providers d) (providers d') i p /\
        (providers d !! i = None -> i = p_ID p) /\ d' = put (providers d') d
    end) d.
Proof.
  unfold findOrCreateProvider. wp_steps. apply wp_select_where; [by wp_steps| |].
  - intros i p Hp Hl. wp_steps. exists i, p. split_and!; [done|by left|congruence|by destruct d].
  - intros Hno. wp_steps.
    apply (wp_insert (p_ID provider) (fun _ => stored_provider provider)
      (fun _ => one_of (Kind provider) implemented)
      (fun d => none_of (labelled (Kind provider) (Label provider)) (providers d)) (fun _ => true)); [done|].
    intros _ Hn _ _. wp_steps. exists (p_ID provider), (stored_provider provider).
    split_and!; [done| |done|done]. right. by split_and!.
Qed.

Lemma wp_findOrCreateReference reference d :
  wp (findOrCreateReference reference) (fun r d' => match r with
    | Err _ => d' = d
    | Ok x => exists i,
        found_or_added (located (ProviderID reference) (ItemRef reference) (Field reference))
          (stored_reference reference) (references d) (references d') i x /\
        (references d !! i = None -> i = ID x /\ is_Some (providers d !! ProviderID x)) /\
        d' = put (references d') d
    end) d.
Proof.
  unfold findOrCreateReference. wp_steps. apply wp_select_where; [by wp_steps| |].
  - intros i r Hr Hl. wp_steps. exists i. split_and!; [by left|congruence|by destruct d].
  - intros Hno. wp_steps.
    apply (wp_insert (ID reference) (fun _ => stored_reference reference)
      (fun _ => checked_reference reference)
      (fun d => none_of (located (ProviderID reference) (ItemRef reference) (Field reference)) (references d))
      (fun d => refers (providers d) (ProviderID reference))); [done|].
    intros _ Hn _ Hr. exists (ID reference). split_and!; [right; by split_and!| |done].
    intros _. split; [done|]. unfold refers in Hr. by bools.
Qed.
End registration.

Lemma found_or_added_spec {A} (p : A -> bool) new (t t' : gmap string A) id x :
  p new = true -> found_or_added p new t t' id x ->
  t ⊆ t' /\ t' !! id = Some x /\ p x = true /\
  (forall i y, t' !! i = Some y -> t !! i = Some y \/ (i = id /\ y = x)) /\
  (forall i y, t !! i = Some y -> p y = true -> t' = t /\ t !! id = Some x).
Proof.
  intros Hnew [(-> & Hx & Hp)|(Hno & Hn & -> & ->)].
  - split_and!; auto.
  - split_and!.
    + by apply insert_subseteq.
    + apply lookup_insert_eq.
    + done.
    + intros i y. rewrite lookup_insert_Some. intros [[<- <-]|[_ ?]]; auto.
    + intros i y Hy Hpy. by rewrite (Hno _ _ Hy) in Hpy.
Qed.

(** The indexes are kept by a row that was found or added. *)
Lemma provider_indexed (d : DB) k l provider t id x :
  indexed d -> found_or_added (labelled k l) (stored_provider provider) (providers d) t id x ->
  labelled k l (stored_provider provider) = true -> (providers d !! id = None -> id = p_ID x) ->
  indexed (put t d).
Proof.
  intros Hd Hf Hnew Hid. destruct Hf as [(-> & _ & _)|(Hno & Hn & -> & ->)]; [by destruct d|].
  specialize (Hid Hn). destruct Hd as [Hk Hrk Hu Hru Hrp]. split; simpl; try done.
  - intros i p. rewrite lookup_insert_Some. intros [[<- <-]|[_ ?]]; auto.
  - apply labelled_spec in Hnew as [HK0 HL0]. intros i j p q. rewrite !lookup_insert_Some.
    intros [[<- <-]|[Hi Hp]] [[<- <-]|[Hj Hq]]; try done; intros HK HL.
    + specialize (Hno _ _ Hq). apply not_true_iff_false in Hno as []. apply labelled_spec. split; congruence.
    + specialize (Hno _ _ Hp). apply not_true_iff_false in Hno as []. apply labelled_spec. split; congruence.
    + eauto.
  - intros i r Hr. rewrite lookup_insert_is_Some'. right. eauto.
Qed.

Lemma reference_indexed (d : DB) pid item fld reference t id x :
  indexed d -> found_or_added (located pid item fld) (stored_reference reference) (references d) t id x ->
  located pid item fld (stored_reference reference) = true ->
  (references d !! id = None -> id = ID x /\ is_Some (providers d !! ProviderID x)) ->
  indexed (put t d).
Proof.
  intros Hd Hf Hnew Hid. destruct Hf as [(-> & _ & _)|(Hno & Hn & -> & ->)]; [by destruct d|].
  specialize (Hid Hn) as [Hid Hsrc]. destruct Hd as [Hk Hrk Hu Hru Hrp]. split; simpl; try done.
  - intros i p. rewrite lookup_insert_Some. intros [[<- <-]|[_ ?]]; auto.
  - apply located_spec in Hnew as (HP0 & HI0 & HF0). intros i j r s. rewrite !lookup_insert_Some.
    intros [[<- <-]|[Hi Hr]] [[<- <-]|[Hj Hs]]; try done; intros HP HI HF.
    + specialize (Hno _ _ Hs). apply not_true_iff_false in Hno as [].
      apply located_spec. split_and!; congruence.
    + specialize (Hno _ _ Hr). apply not_true_iff_false in Hno as [].
      apply located_spec. split_and!; congruence.
    + eauto.
  - intros i r. rewrite lookup_insert_Some. intros [[<- <-]|[_ ?]]; eauto.
Qed.

(** The transaction as a whole. *)
Lemma wp_CreateRegistration `{Env} provider reference (d : DB) :
  indexed d ->
  wp (CreateRegistration provider reference) (fun r d' => match r with
    | Err _ => d' = d
    | Ok x => exists p,
        providers d' !! ProviderID x = Some p /\ Kind p = Kind provider /\ Label p = Label provider /\
        references d' !! ID x = Some x /\ ItemRef x = ItemRef reference /\ Field x = Field reference /\
        providers d ⊆ providers d' /\ references d ⊆ references d' /\
        (forall i y, references d' !! i = Some y -> references d !! i = Some y \/ y = x) /\
        d' = put (references d') (put (providers d') d) /\ indexed d'
    end) d.
Proof.
  intros Hd. apply wp_transaction; [done|]. wp_steps.
  eapply wp_mono; [apply wp_findOrCreateProvider|]. intros [pid|e] d1; [|done].
  intros (i & p & -> & Hf & Hi & Hd1).
  assert (Hnew : labelled (Kind provider) (Label provider) (stored_provider provider) = true).
  { by apply labelled_spec. }
  pose proof (provider_indexed _ _ _ _ _ _ _ Hd Hf Hnew Hi) as Hix. rewrite <- Hd1 in Hix.
  apply (found_or_added_spec _ _ _ _ _ _ Hnew) in Hf as (Hsub & Hp & Hl & _ & _).
  assert (i = p_ID p) as -> by (symmetry; by apply (provider_key _ Hix)).
  eapply wp_mono; [apply wp_findOrCreateReference|]. intros [x|e] d2; [|done].
  cbn [of_provider with_health ProviderID ItemRef Field]. intros (j & Hg & Hj & Hd2).
  assert (Hnewr : located (p_ID p) (ItemRef reference) (Field reference)
    (stored_reference (of_provider reference (p_ID p))) = true).
  { by apply located_spec. }
  pose proof (reference_indexed _ _ _ _ _ _ _ _ Hix Hg Hnewr Hj) as Hix2. rewrite <- Hd2 in Hix2.
  apply (found_or_added_spec _ _ _ _ _ _ Hnewr) in Hg as (Hsub2 & Hx & Hloc & Hall & _).
  assert (j = ID x) as -> by (symmetry; by apply (reference_key _ Hix2)).
  assert (providers d2 = providers d1) as Hpr by by rewrite Hd2.
  assert (references d1 = references d) as Hrf by by rewrite Hd1.
  apply located_spec in Hloc as (HP & HI & HF). apply labelled_spec in Hl as [HK HL]. exists p. rewrite Hpr. rewrite Hrf in *. split_and!; try done.
  - congruence.
  - intros k y Hy. destruct (Hall _ _ Hy) as [?|[_ ?]]; auto.
  - by rewrite Hd2, Hd1 at 1.
Qed.

(** Registering a credential is one transaction over two tables: an error
    leaves both as they were; otherwise the reference returned is in the table
    under its source of that kind and name and at that coordinate, every row
    there before is unchanged, nothing else is touched, at most that one
    reference is new, and the unique indexes still hold. *)
Theorem registration_outcome `{Env} provider reference (d : DB) :
  indexed d ->
  wp (CreateRegistration provider reference) (fun r d' => match r with
    | Err _ => d' = d
    | Ok x => exists p,
        providers d' !! ProviderID x = Some p /\ Kind p = Kind provider /\ Label p = Label provider /\
        references d' !! ID x = Some x /\ ItemRef x = ItemRef reference /\ Field x = Field reference /\
        providers d ⊆ providers d' /\ references d ⊆ references d' /\
        (forall i y, references d' !! i = Some y -> references d !! i = Some y \/ y = x) /\
        d' = put (references d') (put (providers d') d) /\ indexed d'
    end) d.
Proof. exact (wp_CreateRegistration provider reference d). Qed.

(** Registering is idempotent: a coordinate that is registered already comes
    back as the row it is, whatever the caller put in the other fields, and
    nothing is written. *)
Theorem registration_reuses `{Env} provider reference (d : DB) i p j x :
  indexed d ->
  providers d !! i = Some p -> Kind p = Kind provider -> Label p = Label provider ->
  references d !! j = Some x -> ProviderID x = i -> ItemRef x = ItemRef reference ->
  Field x = Field reference ->
  wp (CreateRegistration provider reference) (fun r d' =>
    d' = d /\ (r = Ok x \/ is_Ok r = false)) d.
Proof.
  intros Hd Hp HK HL Hx HP HI HF. apply wp_transaction; [auto|]. wp_steps.
  eapply wp_mono; [apply wp_findOrCreateProvider|]. intros [pid|e] d1; [|by auto].
  intros (i' & p' & -> & Hf & _ & Hd1).
  assert (Hnew : labelled (Kind provider) (Label provider) (stored_provider provider) = true).
  { by apply labelled_spec. }
  apply (found_or_added_spec _ _ _ _ _ _ Hnew) in Hf as (_ & Hp' & Hl' & _ & Hre).
  destruct (Hre i p Hp) as [Hsame Hold].
  { by apply labelled_spec. }
  assert (d1 = d) as -> by (rewrite Hd1, Hsame; by destruct d).
  assert (p_ID p' = i) as Hpid.
  { rewrite (provider_key _ Hd _ _ Hold). apply labelled_spec in Hl' as [HK' HL'].
    apply (provider_unique _ Hd _ _ p' p); congruence. }
  eapply wp_mono; [apply wp_findOrCreateReference|]. intros [y|e] d2; [|by auto].
  cbn [of_provider with_health ProviderID ItemRef Field]. intros (j' & Hg & _ & Hd2).
  assert (Hnewr : located (p_ID p') (ItemRef reference) (Field reference)
    (stored_reference (of_provider reference (p_ID p'))) = true).
  { by apply located_spec. }
  apply (found_or_added_spec _ _ _ _ _ _ Hnewr) in Hg as (_ & Hy & Hloc & _ & Hre2).
  destruct (Hre2 j x Hx) as [Hsame2 Hold2].
  { apply located_spec. split_and!; congruence. }
  split; [rewrite Hd2, Hsame2; by destruct d|]. left. f_equal.
  apply located_spec in Hloc as (HP' & HI' & HF').
  assert (j' = j) as -> by (apply (reference_unique _ Hd _ _ y x); congruence). congruence.
Qed.
