(* ===== verification/SettingsStore.v ===== *)
(** * store/repo: preferences (settings.go) *)
From S2P Require Import Prelude GoStr Apperr GoTime World Store.
From S2P Require Import Settings.
Open Scope Z_scope.

(** UPDATE ... WHERE name = ? RETURNING: the unique index makes it one row. *)
Definition update_named (s : Setting) (t : table) : result sql_error (Setting * table) :=
  match find_first (fun kv => Name kv.2 ==? Name s) (map_to_list t) with
  | Some (id, old) => Ok (overwritten old s, <[id := overwritten old s]> t)
  | None => Err NoRows
  end.

Section repository.
Context `{Env}.

Definition Settings : M DB Code (list Setting) :=
  map_err readError (query (fun d => Ok (merge_sort by_name (rows_of (settings d))))).

Definition CreateSetting (s : Setting) : M DB sql_error Setting :=
  stmt (fun d => on (insert_row (ID s) (stored s) true (absent Name (Name s) (settings d)) true) d).

Definition UpsertSetting (s : Setting) : M DB Code Setting :=
  updated ← try_ (stmt (on (update_named s)));
  match updated with
  | Ok row => mret row
  | Err NoRows => map_err writeError (CreateSetting s)
  | Err e => throw (writeError e)
  end.
End repository.

#[global] Instance repository `{Env} : Repository DB := {
  Settings.Settings := Settings;
  Settings.UpsertSetting := UpsertSetting;
}.

Section laws.
Context `{Env}.
Implicit Types d : DB.

Lemma update_named_Ok s t row t' : update_named s t = Ok (row, t') ->
  exists i old, t !! i = Some old /\ Name old = Name s /\ row = overwritten old s /\ t' = <[i := row]> t.
Proof.
  unfold update_named. destruct (find_first _ _) as [[i old]|] eqn:Ef; [|done]. intros [= <- <-].
  apply find_first_Some in Ef as [Hin%elem_of_map_to_list Hn]. cbn in Hn. bools. by exists i, old.
Qed.

Lemma update_named_Err s t e : update_named s t = Err e -> e = NoRows /\ forall i x, t !! i = Some x -> Name x <> Name s.
Proof.
  unfold update_named. destruct (find_first _ _) as [[i old]|] eqn:Ef; [done|]. intros [= <-]. split; [done|].
  intros i x Hx. rewrite find_first_None in Ef. specialize (Ef (i, x) (proj2 (elem_of_map_to_list _ _ _) Hx)).
  cbn in Ef. by bools.
Qed.

#[export] Instance repository_laws : RepositoryLaws DB.
Proof.
  split.
  - intros d. cbn. unfold Settings. wp_steps. apply wp_query; [by split|intros a [= <-]|done].
    split; [done|]. split; [apply Sorted_merge_sort; apply _|]. by rewrite merge_sort_Permutation.
  - intros s d _. cbn. unfold UpsertSetting. wp_steps. apply wp_stmt.
    + left. split; [done|]. eexists. split; [done|]. set_solver.
    + intros row d'. unfold on. destruct (update_named s (view d)) as [[row' t']|] eqn:E; [|done].
      intros [= <- <-]. wp_steps. right. exists t', row'. split_and!; [done| |done]. left. by apply update_named_Ok.
    + intros e. unfold on. destruct (update_named s (view d)) as [[row' t']|] eqn:E; [done|]. intros [= ->].
      apply update_named_Err in E as [-> Hno]. wp_steps. unfold CreateSetting.
      apply (wp_insert (ID s) (fun _ => stored s) (fun _ => true) (fun d => absent Name (Name s) (settings d)) (fun _ => true)).
      * intros e He Hs. left. split; [done|]. eexists. split; [done|]. destruct e; set_solver.
      * intros _ Hn _ _. right. exists (<[ID s := stored s]> (view d)), (stored s). split_and!; [done| |done]. right. by split_and!.
Qed.
End laws.
