(* ===== verification/AdapterStore.v ===== *)
(** * store/repo: declarations of adapters (adapter.go) *)
From S2P Require Import Prelude GoStr Apperr GoTime World Store.
From S2P Require Import Registry.
Open Scope Z_scope.

Definition stored_declaration (x : Declaration) : Declaration :=
  {| d_ID := d_ID x; d_Service := d_Service x; d_Kind := d_Kind x; d_DisplayName := d_DisplayName x;
     d_BaseURL := d_BaseURL x; d_AuthScheme := d_AuthScheme x; d_Capabilities := d_Capabilities x;
     d_AllowedPaths := d_AllowedPaths x; d_AllowedMethods := d_AllowedMethods x; d_RedactionRules := d_RedactionRules x;
     d_DefaultRiskLevel := d_DefaultRiskLevel x; d_Status := d_Status x; d_CreatedAt := column (d_CreatedAt x);
     d_UpdatedAt := column (d_UpdatedAt x) |}.

(** The CHECK constraints of the table. *)
Definition checked_declaration `{Env} (x : Declaration) : bool :=
  one_of (d_Kind x) ["github"; "cloudflare"; "model"; "generic-http"] &&
  one_of (d_AuthScheme x) [AuthNone; AuthBearer; AuthHeader] &&
  json_valid (d_Capabilities x) && json_valid (d_AllowedPaths x) && json_valid (d_AllowedMethods x) &&
  json_valid (d_RedactionRules x) && one_of (d_DefaultRiskLevel x) [RiskLabelLow; RiskLabelMedium; RiskLabelHigh] &&
  one_of (d_Status x) [StatusEnabled; StatusDisabled].

Definition declaration_with_status (x : Declaration) (status : string) (at_ : Z) : Declaration :=
  {| d_ID := d_ID x; d_Service := d_Service x; d_Kind := d_Kind x; d_DisplayName := d_DisplayName x;
     d_BaseURL := d_BaseURL x; d_AuthScheme := d_AuthScheme x; d_Capabilities := d_Capabilities x;
     d_AllowedPaths := d_AllowedPaths x; d_AllowedMethods := d_AllowedMethods x; d_RedactionRules := d_RedactionRules x;
     d_DefaultRiskLevel := d_DefaultRiskLevel x; d_Status := status; d_CreatedAt := d_CreatedAt x;
     d_UpdatedAt := column at_ |}.

(** Service, kind and display name are not in the SET list. *)
Definition declaration_updated (old x : Declaration) : Declaration :=
  {| d_ID := d_ID old; d_Service := d_Service old; d_Kind := d_Kind old; d_DisplayName := d_DisplayName old;
     d_BaseURL := d_BaseURL x; d_AuthScheme := d_AuthScheme x; d_Capabilities := d_Capabilities x;
     d_AllowedPaths := d_AllowedPaths x; d_AllowedMethods := d_AllowedMethods x; d_RedactionRules := d_RedactionRules x;
     d_DefaultRiskLevel := d_DefaultRiskLevel x; d_Status := d_Status old; d_CreatedAt := d_CreatedAt old;
     d_UpdatedAt := column (d_UpdatedAt x) |}.

Section repository.
Context `{Env}.

Definition CreateDeclaration (x : Declaration) : M DB Code Declaration :=
  map_err writeError (stmt (fun d =>
    on (insert_row (d_ID x) (stored_declaration x) (checked_declaration x) (absent d_Service (d_Service x) (declarations d)) true) d)).

Definition DeclarationByID (id : string) : M DB Code Declaration :=
  map_err readError (query (fun d => select_row id (declarations d))).

Definition DeclarationByService (service : string) : M DB Code Declaration :=
  map_err readError (query (fun d => select_where (fun x => d_Service x ==? service) (declarations d))).

Definition EnabledDeclarations (limit : Z) : M DB Code (list Declaration) :=
  list_rows (fun x => d_Status x ==? StatusEnabled) (by_text d_Service) limit.

Definition SetDeclarationStatus (id status : string) (at_ : Z) : M DB Code Declaration :=
  map_err writeError (stmt (on (update_row id (fun _ => true) (fun x => declaration_with_status x status at_) checked_declaration))).

Definition UpdateDeclaration (x : Declaration) : M DB Code Declaration :=
  map_err writeError (stmt (on (update_row (d_ID x) (fun _ => true) (fun old => declaration_updated old x) checked_declaration))).
End repository.
