(* ===== verification/Machine.v ===== *)
(** * The process: its tables and what it sends

    The handlers of the layers above work on both the database and the outgoing
    side; a computation over one of them is lifted to the pair. *)
From S2P Require Import Prelude GoStr Apperr World Outbound Store.
Open Scope Z_scope.

Record Machine := mkMachine {
  tables : DB;
  outside : Egress;
}.

#[export] Program Instance tables_lens : Lens Machine DB := {
  view := tables;
  put t m := mkMachine t (outside m);
}.
Next Obligation. done. Qed.
Next Obligation. by intros []. Qed.
Next Obligation. done. Qed.

#[export] Program Instance outside_lens : Lens Machine Egress := {
  view := outside;
  put o m := mkMachine (tables m) o;
}.
Next Obligation. done. Qed.
Next Obligation. by intros []. Qed.
Next Obligation. done. Qed.

(** A computation over a part of the state. *)
Definition within {D V} `{Lens D V} {E A} (m : M V E A) : M D E A := fun w =>
  let '(r, w') := m (mkWorld (view (db w)) (ticks w) (ids w) (stmts w)) in
  (r, mkWorld (put (db w') (db w)) (ticks w') (ids w') (stmts w')).

Definition in_tables {E A} (m : M DB E A) : M Machine E A := within m.
Definition in_outside {E A} (m : M Egress E A) : M Machine E A := within m.

Lemma wp_within {D V} `{Lens D V} {E A} (m : M V E A) (Q : result E A -> D -> Prop) d :
  wp m (fun r v => Q r (put v d)) (view d) -> wp (within m) Q d.
Proof.
  intros Hm w <-. unfold within. specialize (Hm (mkWorld (view (db w)) (ticks w) (ids w) (stmts w)) eq_refl).
  by destruct (m _) as [r w'].
Qed.

Lemma wp_in_tables {E A} (m : M DB E A) (Q : result E A -> Machine -> Prop) d :
  wp m (fun r t => Q r (mkMachine t (outside d))) (tables d) -> wp (in_tables m) Q d.
Proof. intros Hm. by apply wp_within. Qed.

Lemma wp_in_outside {E A} (m : M Egress E A) (Q : result E A -> Machine -> Prop) d :
  wp m (fun r o => Q r (mkMachine (tables d) o)) (outside d) -> wp (in_outside m) Q d.
Proof. intros Hm. by apply wp_within. Qed.

(** [defer cleanup]: after the rest of the call, however it ends. *)
Definition deferred {D E A} (m : M D E A) (cleanup : M D E unit) : M D E A := fun w =>
  let '(r, w') := m w in
  let '(_, w'') := cleanup w' in (r, w'').

Lemma wp_deferred {D E A} (m : M D E A) cleanup (Q : result E A -> D -> Prop) d :
  wp m (fun r d' => wp cleanup (fun _ d'' => Q r d'') d') d -> wp (deferred m cleanup) Q d.
Proof.
  intros Hm w <-. unfold deferred. specialize (Hm w eq_refl). destruct (m w) as [r w']. cbn in Hm.
  specialize (Hm w' eq_refl). by destruct (cleanup w') as [u w''].
Qed.

(** ** Boxes that are left behind *)

(** Nothing in these boxes any more. *)
Definition emptied (l : list string) : Prop := Forall (fun s => s = "") l.

(** The requests and the boxes that were there stay; boxes that came are empty. *)
Definition tidy (d d' : Egress) : Prop :=
  wire d' = wire d /\ exists rest, boxes d' = boxes d ++ rest /\ emptied rest.

Lemma tidy_refl d : tidy d d.
Proof. split; [done|]. exists []. split; [by rewrite app_nil_r|by constructor]. Qed.

Lemma tidy_trans d1 d2 d3 : tidy d1 d2 -> tidy d2 d3 -> tidy d1 d3.
Proof.
  intros [H1 (r1 & Hb1 & He1)] [H2 (r2 & Hb2 & He2)]. split; [congruence|]. exists (r1 ++ r2).
  split; [by rewrite Hb2, Hb1, app_assoc|by apply Forall_app].
Qed.

#[export] Instance tidy_preorder : PreOrder tidy.
Proof. split; [exact tidy_refl|exact tidy_trans]. Qed.

(** A value that was fetched: its box is the last one. *)
Definition fetched (d d' : Egress) (v : Secret.Value) : Prop :=
  wire d' = wire d /\ exists rest plaintext, boxes d' = boxes d ++ rest ++ [plaintext] /\ emptied rest /\
    v = Some (length (boxes d) + length rest)%nat.

Lemma tidy_fetched d1 d2 d3 v : tidy d1 d2 -> fetched d2 d3 v -> fetched d1 d3 v.
Proof.
  intros [H1 (r1 & Hb1 & He1)] [H2 (r2 & p & Hb2 & He2 & ->)]. split; [congruence|]. exists (r1 ++ r2), p.
  split_and!; [by rewrite Hb2, Hb1, !app_assoc|by apply Forall_app|]. f_equal. rewrite Hb1, !length_app. lia.
Qed.

Lemma wp_Zero {E} v (Q : result E unit -> Egress -> Prop) d :
  Q (Ok tt) (mkEgress (wire d) (waits d) (match v with None => boxes d | Some i => <[i := ""]> (boxes d) end)) ->
  wp (Secret.Zero v) Q d.
Proof. by intros HQ w <-. Qed.

(** Emptying a fetched value leaves nothing behind. *)
Lemma fetched_zero d d' v :
  fetched d d' v ->
  tidy d (mkEgress (wire d') (waits d') (match v with None => boxes d' | Some i => <[i := ""]> (boxes d') end)).
Proof.
  intros [Hw (rest & p & Hb & He & ->)]. split; [done|]. cbn. exists (rest ++ [""]). rewrite Hb. split.
  - replace (length (boxes d) + length rest)%nat with (length (boxes d ++ rest) + 0)%nat by (rewrite length_app; lia).
    rewrite !app_assoc, insert_app_r. done.
  - apply Forall_app. split; [done|by repeat constructor].
Qed.
