(* ===== verification/Crypto.v ===== *)
(** * platform/crypto: the sealed envelope

    A sealed text describes itself: a header of thirteen bytes with the
    algorithms and the cost of the key derivation, the salt, the nonce and the
    ciphertext. Argon2id and XChaCha20-Poly1305 are of golang.org/x/crypto and
    parameters here; the laws state what their documentation promises of lengths
    and of decrypting what was encrypted, and nothing of secrecy. *)
From S2P Require Import Prelude GoStr Apperr.
Open Scope Z_scope.

Definition FormatVersion : Z := 1.
Definition KDFArgon2id : Z := 1.
Definition AEADXChaCha20Poly1305 : Z := 1.

(** The sizes of the package chacha20poly1305. *)
Definition KeySize : nat := 32.
Definition NonceSizeX : nat := 24.
Definition Overhead : nat := 16.

Definition keyLength : nat := KeySize.
Definition saltLength : nat := 16.
Definition headerLength : nat := 13.

(** [argon2.IDKey], and sealing and opening of an XChaCha20-Poly1305 cipher with
    the plaintext or ciphertext before the associated data. *)
Class Primitives := {
  IDKey (password salt : string) (iterations memory parallelism : Z) (length : nat) : string;
  aead_Seal (key nonce plaintext associated : string) : string;
  aead_Open (key nonce ciphertext associated : string) : option string;
}.

Class PrimitivesLaws `{Primitives} := {
  IDKey_length password salt iterations memory parallelism n :
    String.length (IDKey password salt iterations memory parallelism n) = n;
  aead_Seal_length key nonce plaintext associated :
    String.length (aead_Seal key nonce plaintext associated) = (String.length plaintext + Overhead)%nat;
  aead_Open_Seal key nonce plaintext associated :
    String.length key = KeySize -> String.length nonce = NonceSizeX ->
    aead_Open key nonce (aead_Seal key nonce plaintext associated) associated = Some plaintext;
}.

(** ** Parameters and header *)

Record Params := { MemoryKiB : Z; Iterations : Z; Parallelism : Z }.

Definition MinMemoryKiB : Z := 64 * 1024.
Definition MinIterations : Z := 3.
Definition MinParallelism : Z := 4.

Definition Default : Params :=
  {| MemoryKiB := MinMemoryKiB; Iterations := MinIterations; Parallelism := MinParallelism |}.

Definition weakParams : Code := CodeInvalidConfiguration.

Definition Validate (p : Params) : result Code unit :=
  if MemoryKiB p <? MinMemoryKiB then Err weakParams
  else if Iterations p <? MinIterations then Err weakParams
  else if Parallelism p <? MinParallelism then Err weakParams
  else Ok tt.

Record Header := {
  h_FormatVersion : Z;
  KDF : Z;
  AEAD : Z;
  h_Params : Params;
  SaltLength : nat;
}.

Definition malformed : Code := CodeInvalidRequest.

Definition byte_at (i : nat) (s : string) : Z := match String.get i s with Some c => byte_of c | None => 0 end.

(** [binary.BigEndian]: four bytes of a uint32 from an index on, and back. *)
Definition Uint32 (i : nat) (s : string) : Z :=
  byte_at i s * 2 ^ 24 + byte_at (i + 1) s * 2 ^ 16 + byte_at (i + 2) s * 2 ^ 8 + byte_at (i + 3) s.

Definition PutUint32 (x : Z) (rest : string) : string :=
  String (of_byte (x / 2 ^ 24 mod 256)) (String (of_byte (x / 2 ^ 16 mod 256))
    (String (of_byte (x / 2 ^ 8 mod 256)) (String (of_byte (x mod 256)) rest))).

Definition ParseHeader (sealed : string) : result Code Header :=
  _ ← refuse_if (String.length sealed <? headerLength)%nat malformed;
  let header :=
    {| h_FormatVersion := byte_at 0 sealed; KDF := byte_at 1 sealed; AEAD := byte_at 2 sealed;
       h_Params := {| MemoryKiB := Uint32 3 sealed; Iterations := Uint32 7 sealed; Parallelism := byte_at 11 sealed |};
       SaltLength := Z.to_nat (byte_at 12 sealed) |} in
  _ ← refuse_if (h_FormatVersion header !=? FormatVersion) malformed;
  _ ← refuse_if (KDF header !=? KDFArgon2id) malformed;
  _ ← refuse_if (AEAD header !=? AEADXChaCha20Poly1305) malformed;
  _ ← refuse_if (SaltLength header ==? 0%nat) malformed;
  Ok header.

Definition encodeHeader (params : Params) (saltLength : nat) : result Code string :=
  _ ← refuse_if ((saltLength <=? 0)%nat || (255 <? saltLength)%nat) CodeInternal;
  Ok (String (of_byte FormatVersion) (String (of_byte KDFArgon2id) (String (of_byte AEADXChaCha20Poly1305)
    (PutUint32 (MemoryKiB params) (PutUint32 (Iterations params)
      (String (of_byte (Parallelism params)) (String (of_byte (Z.of_nat saltLength)) ""))))))).

(** [sealed[from:to]]. *)
Definition slice (from to : nat) (s : string) : string := take_str (to - from) (drop_str from s).

Section envelope.
Context `{Primitives}.

Definition deriveKey (password salt : string) (params : Params) : string :=
  IDKey password salt (Iterations params) (MemoryKiB params) (Parallelism params) keyLength.

(** [chacha20poly1305.NewX] refuses a key of another size. *)
Definition NewX (key : string) : result Code unit := refuse_if (negb (String.length key =? KeySize)%nat) CodeInternal.

(** The salt and the nonce are what [rand.Read] fills in, if it does. *)
Definition Seal (random_salt random_nonce : option string) (password plaintext : string) (params : Params)
    : result Code string :=
  _ ← Validate params;
  _ ← refuse_if (password ==? "") CodeInvalidRequest;
  salt ← (match random_salt with Some salt => Ok salt | None => Err CodeInternal end);
  header ← encodeHeader params (String.length salt);
  let key := deriveKey password salt params in
  _ ← NewX key;
  nonce ← (match random_nonce with Some nonce => Ok nonce | None => Err CodeInternal end);
  Ok (header +:+ salt +:+ nonce +:+ aead_Seal key nonce plaintext (header +:+ salt)).

Definition decryptFailed : Code := CodeUnauthenticated.

Definition Open (password sealed : string) : result Code string :=
  header ← ParseHeader sealed;
  _ ← Validate (h_Params header);
  let saltEnd := (headerLength + SaltLength header)%nat in
  let nonceEnd := (saltEnd + NonceSizeX)%nat in
  _ ← refuse_if (String.length sealed <? nonceEnd + Overhead)%nat malformed;
  let salt := slice headerLength saltEnd sealed in
  let key := deriveKey password salt (h_Params header) in
  _ ← NewX key;
  match aead_Open key (slice saltEnd nonceEnd sealed) (drop_str nonceEnd sealed)
          (slice 0 headerLength sealed +:+ salt) with
  | Some plaintext => Ok plaintext
  | None => Err decryptFailed
  end.
End envelope.

(** ** The header is read as it was written *)

Definition uint32 (x : Z) : Prop := 0 <= x < 2 ^ 32.

(** Parameters as the type holds them. *)
Record typed (p : Params) : Prop := {
  typed_memory : uint32 (MemoryKiB p);
  typed_iterations : uint32 (Iterations p);
  typed_parallelism : 0 <= Parallelism p < 256;
}.

Lemma Validate_Ok p :
  Validate p = Ok tt <-> MinMemoryKiB <= MemoryKiB p /\ MinIterations <= Iterations p /\ MinParallelism <= Parallelism p.
Proof.
  unfold Validate. destruct (Z.ltb_spec (MemoryKiB p) MinMemoryKiB), (Z.ltb_spec (Iterations p) MinIterations),
    (Z.ltb_spec (Parallelism p) MinParallelism); split; intros; try done; lia.
Qed.

Lemma Default_valid : Validate Default = Ok tt.
Proof. by vm_compute. Qed.

Lemma byte_at_0 c s : byte_at 0 (String c s) = byte_of c.
Proof. done. Qed.

Lemma byte_at_S i c s : byte_at (S i) (String c s) = byte_at i s.
Proof. done. Qed.

Lemma Uint32_S i c s : Uint32 (S i) (String c s) = Uint32 i s.
Proof. done. Qed.

Lemma Uint32_Put x s : uint32 x -> Uint32 0 (PutUint32 x s) = x.
Proof.
  intros Hx. unfold Uint32, PutUint32. cbn [Nat.add]. rewrite !byte_at_S, !byte_at_0.
  rewrite !byte_of_of by (apply Z.mod_pos_bound; lia). unfold uint32 in Hx. Z.div_mod_to_equations. lia.
Qed.

Lemma Uint32_skip i x s : Uint32 (S (S (S (S i)))) (PutUint32 x s) = Uint32 i s.
Proof. done. Qed.

Lemma byte_at_skip i x s : byte_at (S (S (S (S i)))) (PutUint32 x s) = byte_at i s.
Proof. done. Qed.

Lemma PutUint32_app x s t : PutUint32 x s +:+ t = PutUint32 x (s +:+ t).
Proof. done. Qed.

Lemma encodeHeader_Ok params n header :
  encodeHeader params n = Ok header -> (1 <= n <= 255)%nat /\ String.length header = headerLength.
Proof.
  unfold encodeHeader, refuse_if. destruct (Nat.leb_spec n 0), (Nat.ltb_spec 255 n); cbn; try done.
  intros [= <-]. split; [lia|done].
Qed.

Lemma header_reads params n header rest :
  typed params -> encodeHeader params n = Ok header ->
  ParseHeader (header +:+ rest) =
    Ok {| h_FormatVersion := FormatVersion; KDF := KDFArgon2id; AEAD := AEADXChaCha20Poly1305;
          h_Params := params; SaltLength := n |}.
Proof.
  intros [Hm Hi Hp] Hh. destruct (encodeHeader_Ok _ _ _ Hh) as [Hn Hl]. unfold encodeHeader, refuse_if in Hh.
  destruct (_ || _); [done|]. injection Hh as <-. unfold ParseHeader. rewrite str_length_app, Hl.
  rewrite (proj2 (Nat.ltb_ge _ _)) by lia. cbn [refuse_if mbind result_bind].
  rewrite !str_app_cons, !PutUint32_app, !str_app_cons, str_app_nil_l.
  repeat first [rewrite byte_at_0|rewrite byte_at_S|rewrite byte_at_skip|rewrite Uint32_S|rewrite Uint32_skip|rewrite Uint32_Put by done].
  rewrite !byte_of_of by (first [by vm_compute|lia]).
  rewrite Nat2Z.id. cbn [h_FormatVersion KDF AEAD SaltLength].
  rewrite (bool_decide_true (_ = FormatVersion)), (bool_decide_true (_ = KDFArgon2id)),
    (bool_decide_true (_ = AEADXChaCha20Poly1305)) by done. cbn.
  rewrite bool_decide_false by lia. by destruct params.
Qed.

(** ** Opening what was sealed *)

Lemma take_str_app p u : take_str (String.length p) (p +:+ u) = p.
Proof. induction p as [|c p IH]; [by destruct u|]. cbn. by rewrite str_app_cons; cbn; rewrite IH. Qed.

Lemma drop_str_add n m s : drop_str (n + m) s = drop_str m (drop_str n s).
Proof. revert s. induction n as [|n IH]; [done|]. intros [|c s]; [by destruct m|]. cbn. apply IH. Qed.

Lemma slice_app p q u : slice (String.length p) (String.length p + String.length q) (p +:+ q +:+ u) = q.
Proof. unfold slice. rewrite drop_str_app. replace (_ + _ - _)%nat with (String.length q) by lia. apply take_str_app. Qed.

Section sealing.
Context `{PrimitivesLaws}.

Lemma wrong_size_key password salt params : NewX (deriveKey password salt params) = Ok tt.
Proof. unfold NewX, deriveKey. by rewrite IDKey_length, Nat.eqb_refl. Qed.

(** What [Seal] returns: the parts of the envelope, one after another. *)
Lemma Seal_Ok random_salt random_nonce password plaintext params sealed :
  Seal random_salt random_nonce password plaintext params = Ok sealed ->
  exists salt nonce header,
    Validate params = Ok tt /\ password <> "" /\ random_salt = Some salt /\ random_nonce = Some nonce /\
    encodeHeader params (String.length salt) = Ok header /\
    sealed = header +:+ salt +:+ nonce +:+ aead_Seal (deriveKey password salt params) nonce plaintext (header +:+ salt).
Proof.
  unfold Seal. intros H1. apply bind_Ok in H1 as ([] & Hv & H1). apply bind_Ok in H1 as ([] & Hp & H1).
  apply refuse_if_Ok in Hp. destruct random_salt as [salt|]; [|done]. cbn [mbind result_bind] in H1.
  apply bind_Ok in H1 as (header & Hh & H1). rewrite wrong_size_key in H1. cbn [mbind result_bind] in H1.
  destruct random_nonce as [nonce|]; [|done]. injection H1 as <-. bools. by exists salt, nonce, header.
Qed.

Lemma Open_sealed password salt nonce header plaintext params :
  typed params -> Validate params = Ok tt -> encodeHeader params (String.length salt) = Ok header ->
  String.length nonce = NonceSizeX ->
  Open password (header +:+ salt +:+ nonce +:+
    aead_Seal (deriveKey password salt params) nonce plaintext (header +:+ salt)) = Ok plaintext.
Proof.
  intros Ht Hv Hh Hn. destruct (encodeHeader_Ok _ _ _ Hh) as [_ Hl].
  set (key := deriveKey password salt params). set (c := aead_Seal _ _ _ _).
  assert (String.length c = (String.length plaintext + Overhead)%nat) as Hc by by apply aead_Seal_length.
  unfold Open. rewrite (header_reads _ _ _ _ Ht Hh). cbn [mbind result_bind h_Params SaltLength]. rewrite Hv. cbn [mbind result_bind].
  rewrite !str_length_app, Hl, Hc, Hn. rewrite (proj2 (Nat.ltb_ge _ _)) by (unfold Overhead; lia). cbn [refuse_if mbind result_bind].
  assert (slice headerLength (headerLength + String.length salt) (header +:+ salt +:+ nonce +:+ c) = salt) as ->.
  { rewrite <- Hl. apply slice_app. }
  fold key. rewrite (wrong_size_key password salt params : NewX key = Ok tt). cbn [mbind result_bind].
  assert (slice 0 headerLength (header +:+ salt +:+ nonce +:+ c) = header) as ->.
  { unfold slice. cbn [drop_str]. rewrite Nat.sub_0_r, <- Hl. apply take_str_app. }
  assert (slice (headerLength + String.length salt) (headerLength + String.length salt + NonceSizeX)
    (header +:+ salt +:+ nonce +:+ c) = nonce) as ->.
  { rewrite <- Hl, <- Hn, <- str_length_app, (str_app_assoc header). apply slice_app. }
  rewrite !drop_str_add. rewrite <- Hl, drop_str_app, drop_str_app, <- Hn, drop_str_app.
  unfold c. rewrite aead_Open_Seal; [done| |done]. unfold key, deriveKey. apply IDKey_length.
Qed.

Lemma open_sealed random_salt nonce password plaintext params sealed :
  typed params -> String.length nonce = NonceSizeX ->
  Seal random_salt (Some nonce) password plaintext params = Ok sealed ->
  Open password sealed = Ok plaintext.
Proof.
  intros Ht Hn (salt & ? & header & Hv & _ & -> & [= <-] & Hh & ->)%Seal_Ok. by apply Open_sealed.
Qed.

(** Sealing fails only for reasons one can name: parameters that are too weak, an
    empty password, or randomness that did not come. *)
Lemma seal_parts random_salt random_nonce password plaintext params :
  (forall salt, random_salt = Some salt -> String.length salt = saltLength) ->
  match Seal random_salt random_nonce password plaintext params with
  | Ok _ => Validate params = Ok tt /\ password <> "" /\ is_Some random_salt /\ is_Some random_nonce
  | Err e =>
      (e = CodeInvalidConfiguration /\ Validate params <> Ok tt) \/ (e = CodeInvalidRequest /\ password = "") \/
      (e = CodeInternal /\ (random_salt = None \/ random_nonce = None))
  end.
Proof.
  intros Hs. unfold Seal. destruct (Validate params) as [[]|e] eqn:Ev; cbn [mbind result_bind].
  2: { left. split; [|done]. revert Ev. unfold Validate. repeat case_match; naive_solver. }
  case_bool_decide as Hp; cbn [refuse_if mbind result_bind]; [by right; left|].
  destruct random_salt as [salt|]; [|right; right; by split; [|left]]. cbn [mbind result_bind].
  unfold encodeHeader. rewrite (Hs salt) by done. cbn [refuse_if orb Nat.leb Nat.ltb saltLength mbind result_bind].
  rewrite wrong_size_key. cbn [mbind result_bind]. destruct random_nonce as [nonce|]; [|right; right; by split; [|right]].
  by split_and!.
Qed.
(** C16. What is sealed is opened again. With a nonce of the cipher's size and a
    salt of at most 255 bytes - the header counts it in one byte - whatever
    [Seal] returns under parameters of the machine's widths is opened by the same
    password to the same plaintext, the empty one too. *)
Theorem open_seal random_salt nonce password plaintext params sealed :
  typed params -> String.length nonce = NonceSizeX ->
  Seal random_salt (Some nonce) password plaintext params = Ok sealed ->
  Open password sealed = Ok plaintext.
Proof. apply open_sealed. Qed.

End sealing.

(** What an envelope must be to get as far as the key derivation. *)
Record recognised (sealed : string) (header : Header) : Prop := {
  rec_header : ParseHeader sealed = Ok header;
  rec_memory : MinMemoryKiB <= MemoryKiB (h_Params header);
  rec_iterations : MinIterations <= Iterations (h_Params header);
  rec_parallelism : MinParallelism <= Parallelism (h_Params header);
  rec_salt : (1 <= SaltLength header <= 255)%nat;
  rec_length : (headerLength + SaltLength header + NonceSizeX + Overhead <= String.length sealed)%nat;
}.

Lemma ParseHeader_salt sealed header : ParseHeader sealed = Ok header -> (1 <= SaltLength header <= 255)%nat.
Proof.
  unfold ParseHeader. intros H1.
  do 4 (apply bind_Ok in H1 as ([] & _ & H1)). apply bind_Ok in H1 as ([] & Hs & [= <-]).
  apply refuse_if_Ok in Hs. bools. cbn [SaltLength] in *. revert Hs. unfold byte_at. destruct (String.get 12 sealed) as [c|]; [|done].
  pose proof (byte_of_range c). lia.
Qed.

(** No downgrade. Whatever the primitives do, an envelope is opened only when its
    version and algorithms are the ones of this program, its cost parameters are
    not below the minimum, and its parts are all there; everything else is refused
    without the password being used - the same refusal for every password and for
    every cipher - and what a cipher refuses is one code. *)
Theorem opens_recognised `{Primitives} password sealed :
  match Open password sealed with
  | Ok _ => exists header, recognised sealed header
  | Err e =>
      ((e = CodeInvalidRequest \/ e = CodeInvalidConfiguration) /\
        (forall header, ~ recognised sealed header) /\
        forall (other : Primitives) password', @Open other password' sealed = Err e) \/
      ((e = CodeUnauthenticated \/ e = CodeInternal) /\ exists header, recognised sealed header)
  end.
Proof.
  unfold Open at 1. destruct (ParseHeader sealed) as [header|e] eqn:Eh; cbn [mbind result_bind].
  2: { left. split_and!; [|by intros header []; congruence|by intros; unfold Open; rewrite Eh].
       left. revert Eh. unfold ParseHeader, refuse_if. repeat (case_match; cbn; try naive_solver). }
  pose proof (ParseHeader_salt _ _ Eh) as Hs. destruct (Validate (h_Params header)) as [[]|e] eqn:Ev; cbn [mbind result_bind].
  2: { left. split_and!.
       - right. revert Ev. unfold Validate. repeat case_match; naive_solver.
       - intros header' [Hp ? ? ? _ _]. simplify_eq. assert (Validate (h_Params header') = Ok tt) by by apply Validate_Ok. congruence.
       - intros. unfold Open. by rewrite Eh; cbn; rewrite Ev. }
  apply Validate_Ok in Ev as Hv. destruct Hv as (? & ? & ?).
  destruct (Nat.ltb_spec (String.length sealed) (headerLength + SaltLength header + NonceSizeX + Overhead)) as [Hlt|Hge];
    cbn [refuse_if mbind result_bind].
  - left. split_and!; [by left| |].
    + intros header' [Hp _ _ _ _ Hl]. rewrite Eh in Hp. injection Hp as <-. lia.
    + intros. unfold Open. rewrite Eh. cbn [mbind result_bind]. rewrite Ev. cbn [mbind result_bind].
      by rewrite (proj2 (Nat.ltb_lt _ _)).
  - assert (recognised sealed header) as Hrec by by constructor.
    unfold NewX. destruct (negb _); cbn [refuse_if mbind result_bind]; [right; split; [by right|by exists header]|].
    destruct (aead_Open _ _ _ _); [by exists header|]. right. split; [by left|by exists header].
Qed.
