(* ===== verification/Vault.v ===== *)
(** * credential/localvault: the vault file and the master password (vault.go)

    The vault is one sealed file of named entries. While it is unlocked the
    process keeps a copy of the master password and nothing else: every operation
    reads and opens the file again. Wrong passwords are counted, three of them
    close it for a minute, and being idle locks it. Each operation holds the
    vault's mutex from beginning to end, so here it is one computation. *)
From S2P Require Import Prelude GoStr Apperr GoTime Encoding.
From S2P Require Json.
From S2P Require Crypto.
From S2P Require Import World Outbound Machine.
Open Scope Z_scope.

(** ** The disk

    A file operation that fails leaves the files as they were, but for a write,
    after which the file may be gone or hold anything: [torn]. [drawn] is what
    [rand.Read] fills a buffer with. *)
Class Device := {
  torn : nat -> option string;
  drawn : nat -> nat -> option string;
}.

Class DeviceLaws `{Device} := {
  drawn_length i n s : drawn i n = Some s -> String.length s = n;
}.

Record Vault := {
  master : Secret.Value;
  lastActive : Z;
  failures : Z;
  lockedUntil : Z;
}.

(** The process memory that holds secrets, the files, the vault. *)
Record Safe := mkSafe {
  memory : Egress;
  files : gmap string string;
  vault : Vault;
}.

#[export] Program Instance memory_lens : Lens Safe Egress := {
  view := memory;
  put m d := mkSafe m (files d) (vault d);
}.
Next Obligation. done. Qed.
Next Obligation. by intros []. Qed.
Next Obligation. done. Qed.

Definition set_files (f : gmap string string) (d : Safe) : Safe := mkSafe (memory d) f (vault d).
Definition set_vault (v : Vault) (d : Safe) : Safe := mkSafe (memory d) (files d) v.

Section disk.
Context `{Env} `{Device}.

(** One operation outside: what it does, and what is left when it fails with [e]. *)
Definition attempt {A} (on : Safe -> result Code A * Safe) (failed : nat -> Safe -> Safe) (e : Code) : M Safe Code A := fun w =>
  let i := stmts w in
  let '(r, d) := if io_fails i then (Err e, failed i (db w)) else on (db w) in
  (r, mkWorld d (ticks w) (ids w) (S i)).

Definition unharmed (_ : nat) (d : Safe) : Safe := d.

(** [os.ReadFile]. *)
Definition ReadFile (path : string) (e : Code) : M Safe Code string :=
  attempt (fun d => (match files d !! path with Some text => Ok text | None => Err e end, d)) unharmed e.

(** [os.Stat]: whether the file is there. *)
Definition Stat (path : string) (e : Code) : M Safe Code bool :=
  attempt (fun d => (Ok (bool_decide (is_Some (files d !! path))), d)) unharmed e.

Definition MkdirAll (e : Code) : M Safe Code unit := attempt (fun d => (Ok tt, d)) unharmed e.

Definition WriteFile (path text : string) (e : Code) : M Safe Code unit :=
  attempt (fun d => (Ok tt, set_files (<[path := text]> (files d)) d))
    (fun i d => set_files (partial_alter (fun _ => torn i) path (files d)) d) e.

(** Replacing a file is atomic. *)
Definition Rename (from to : string) (e : Code) : M Safe Code unit :=
  attempt (fun d => match files d !! from with
    | Some text => (Ok tt, set_files (<[to := text]> (delete from (files d))) d)
    | None => (Err e, d)
    end) unharmed e.

Definition Remove (path : string) : M Safe Code unit :=
  attempt (fun d => (Ok tt, set_files (delete path (files d)) d)) unharmed CodeInternal.

Definition draw (n : nat) {E} : M Safe E (option string) := fun w =>
  (Ok (drawn (stmts w) n), mkWorld (db w) (ticks w) (ids w) (S (stmts w))).
End disk.

(** ** Entries *)

(** [map[string][]byte]; [None] is the nil slice. *)
Abbreviation Entries := (gmap string (option string)).

Definition of_bytes (v : option string) : Json.json :=
  match v with None => Json.JNull | Some s => Json.of_string (std_encode (bytes_of s)) end.

Definition entry_names (m : Entries) : list string := sort_strings (map fst (map_to_list m)).

(** [json.Marshal] of the map, by name. *)
Definition of_entries (m : Entries) : Json.json :=
  Json.JObj (map (fun k => (Json.quote_body k, of_bytes (default None (m !! k)))) (entry_names m)).

(** A number of a byte array; a null leaves the zero. *)
Definition as_byte (v : Json.json) : option Z :=
  match v with
  | Json.JNull => Some 0
  | _ => n ← Json.as_int 0 v; if is_byte n then Some n else None
  end.

Definition as_bytes (v : Json.json) : option (option string) :=
  match v with
  | Json.JNull => Some None
  | Json.JStr raw => s ← Json.unquote raw; l ← std_decode s; Some (Some (string_of l))
  | Json.JArr items => l ← mapM as_byte items; Some (Some (string_of l))
  | _ => None
  end.

Fixpoint decode_entries (m : Entries) (fields : list (string * Json.json)) : option Entries :=
  match fields with
  | [] => Some m
  | (raw, v) :: fields => key ← Json.unquote raw; bytes ← as_bytes v; decode_entries (<[key := bytes]> m) fields
  end.

(** [json.Unmarshal] into a map; a null makes it the nil map, which has no
    entries and takes none. *)
Definition as_entries (text : string) : option (option Entries) :=
  v ← Json.parse text;
  match v with
  | Json.JNull => Some None
  | Json.JObj fields => Some <$> decode_entries ∅ fields
  | _ => None
  end.

(** [append([]byte(nil), bytes...)]. *)
Definition copied (bytes : string) : option string := if bytes ==? "" then None else Some bytes.

(** ** The vault *)

Definition DefaultIdleTimeout : Z := 15 * Minute.
Definition MaxUnlockFailures : Z := 3.
Definition LockoutDuration : Z := 60 * Second.

Record UnlockOutcome := { LockoutBegan : bool; LockedUntil : Z }.

Definition no_outcome : UnlockOutcome := {| LockoutBegan := false; LockedUntil := 0 |}.

Record Options := { Path : string; IdleTimeout : Z }.

(** [New]: the path and the idle time it works with. *)
Definition New (options : Options) : result Code Options :=
  _ ← refuse_if (Path options ==? "") CodeInvalidConfiguration;
  Ok {| Path := Path options;
        IdleTimeout := if IdleTimeout options <=? 0 then DefaultIdleTimeout else IdleTimeout options |}.

Definition new_vault : Vault := {| master := None; lastActive := 0; failures := 0; lockedUntil := 0 |}.

Definition unlockFailed : Code := CodeUnauthenticated.
Definition lockedOut : Code := CodeProviderLockedTimeout.
Definition locked : Code := CodeVaultLocked.

Section vault.
Context `{Env} `{Device} `{Crypto.Primitives} (o : Options).

Definition state {E} : M Safe E Safe := fun w => (Ok (db w), w).
Definition modify {E} (f : Vault -> Vault) : M Safe E unit := fun w =>
  (Ok tt, mkWorld (set_vault (f (vault (db w))) (db w)) (ticks w) (ids w) (stmts w)).
Definition in_memory {E A} (m : M Egress E A) : M Safe E A := within m.

Definition NewSecret {E} (plaintext : string) : M Safe E Secret.Value := fun w =>
  match in_memory (Secret.New plaintext) w with
  | (Ok v, w') => (Ok v, w')
  | (Err _, w') => (Ok None, w')
  end.

Definition Reveal {E} (v : Secret.Value) : M Safe E string := fun w => (Ok (Secret.Reveal v (memory (db w))), w).

Definition lockLocked {E} : M Safe E unit :=
  d ← state;
  _ ← in_memory (Secret.Zero (master (vault d)));
  modify (fun v => {| master := None; lastActive := 0; failures := failures v; lockedUntil := lockedUntil v |}).

Definition unlockLocked {E} (value : Secret.Value) : M Safe E unit :=
  plaintext ← Reveal value;
  copy ← NewSecret plaintext;
  _ ← modify (fun v => {| master := copy; lastActive := lastActive v; failures := failures v; lockedUntil := lockedUntil v |});
  now ← Now;
  modify (fun v => {| master := master v; lastActive := now; failures := failures v; lockedUntil := lockedUntil v |}).

Definition touchLocked {E} : M Safe E unit :=
  now ← Now;
  modify (fun v => {| master := master v; lastActive := now; failures := failures v; lockedUntil := lockedUntil v |}).

Definition activeLocked : M Safe Code unit :=
  d ← state;
  plaintext ← Reveal (master (vault d));
  _ ← refuse (plaintext ==? "") locked;
  if IsZero (lastActive (vault d)) then mret tt
  else
    now ← Now;
    if IdleTimeout o <=? now - lastActive (vault d) then (_ ← lockLocked; throw locked) else mret tt.

Definition readEntries (password : string) : M Safe Code (option Entries) :=
  sealed ← ReadFile (Path o) CodeNotFound;
  plaintext ← of_result (Crypto.Open password sealed);
  of_result (match as_entries plaintext with Some m => Ok m | None => Err CodeInternal end).

Definition writeSealed (sealed : string) : M Safe Code unit :=
  _ ← MkdirAll CodeInternal;
  let temporary := Path o +:+ ".tmp" in
  _ ← WriteFile temporary sealed CodeInternal;
  renamed ← try_ (Rename temporary (Path o) CodeInternal);
  match renamed with
  | Ok _ => mret tt
  | Err e => _ ← try_ (Remove temporary) : M Safe Code (result Code unit); throw e
  end.

Definition writeEntries (password : string) (entries : Entries) : M Safe Code unit :=
  salt ← draw Crypto.saltLength;
  nonce ← draw Crypto.NonceSizeX;
  sealed ← of_result (Crypto.Seal salt nonce password (Json.print (of_entries entries)) Crypto.Default);
  writeSealed sealed.

Definition Create (value : Secret.Value) : M Safe Code unit :=
  present ← Stat (Path o) CodeInternal;
  _ ← refuse present CodeConflict;
  password ← Reveal value;
  _ ← writeEntries password ∅;
  unlockLocked value.

(** The outcome, and the error next to it. *)
Definition Unlock {E} (value : Secret.Value) : M Safe E (UnlockOutcome * option Code) :=
  now ← Now;
  d ← state;
  if Before now (lockedUntil (vault d)) then
    mret ({| LockoutBegan := false; LockedUntil := lockedUntil (vault d) |}, Some lockedOut)
  else
    password ← Reveal value;
    read ← try_ (readEntries password);
    match read with
    | Err _ =>
        _ ← lockLocked;
        d ← state;
        let count := failures (vault d) + 1 in
        if count <? MaxUnlockFailures then
          _ ← modify (fun v => {| master := master v; lastActive := lastActive v; failures := count;
                                  lockedUntil := lockedUntil v |});
          mret (no_outcome, Some unlockFailed)
        else
          let until := now + LockoutDuration in
          _ ← modify (fun v => {| master := master v; lastActive := lastActive v; failures := 0; lockedUntil := until |});
          mret ({| LockoutBegan := true; LockedUntil := until |}, Some lockedOut)
    | Ok _ =>
        _ ← modify (fun v => {| master := master v; lastActive := lastActive v; failures := 0; lockedUntil := 0 |});
        _ ← unlockLocked value;
        mret (no_outcome, None)
    end.

Definition CreateWith (plaintext : string) : M Safe Code unit :=
  value ← NewSecret plaintext;
  deferred (Create value) (in_memory (Secret.Zero value)).

Definition UnlockWith {E} (plaintext : string) : M Safe E (UnlockOutcome * option Code) :=
  value ← NewSecret plaintext;
  deferred (Unlock value) (in_memory (Secret.Zero value)).

Definition Lock {E} : M Safe E unit := lockLocked.

Definition IsUnlocked {E} : M Safe E bool :=
  active ← try_ activeLocked;
  mret (is_Ok active).

(** The entries of an unlocked vault, and the password they were opened with. *)
Definition opened : M Safe Code (string * option Entries) :=
  _ ← activeLocked;
  d ← state;
  password ← Reveal (master (vault d));
  entries ← readEntries password;
  mret (password, entries).

Definition Get (reference : string) : M Safe Code Secret.Value :=
  '(_, entries) ← opened;
  match default ∅ entries !! reference with
  | None => throw CodeNotFound
  | Some stored =>
      value ← NewSecret (default "" stored);
      _ ← touchLocked;
      mret value
  end.

(** Writing into the nil map panics; the request ends as a failure, with nothing
    written. *)
Definition Put (reference : string) (value : Secret.Value) : M Safe Code unit :=
  _ ← refuse (reference ==? "") CodeInvalidRequest;
  '(password, entries) ← opened;
  bytes ← Reveal value;
  match entries with
  | None => throw CodeInternal
  | Some entries =>
      _ ← writeEntries password (<[reference := copied bytes]> entries);
      touchLocked
  end.

Definition Delete (reference : string) : M Safe Code unit :=
  '(password, entries) ← opened;
  match default ∅ entries !! reference with
  | None => throw CodeNotFound
  | Some _ =>
      _ ← writeEntries password (delete reference (default ∅ entries));
      touchLocked
  end.

Definition References : M Safe Code (list string) :=
  '(_, entries) ← opened;
  _ ← touchLocked;
  mret (entry_names (default ∅ entries)).

Definition ExportBackup : M Safe Code string :=
  sealed ← ReadFile (Path o) CodeNotFound;
  _ ← of_result (Crypto.ParseHeader sealed);
  mret sealed.

Definition RestoreBackup (backup : string) (value : Secret.Value) : M Safe Code unit :=
  password ← Reveal value;
  match Crypto.Open password backup with
  | Err _ => _ ← lockLocked; throw unlockFailed
  | Ok _ => _ ← writeSealed backup; unlockLocked value
  end.
End vault.

(** ** Entries, written and read *)

Definition utf8_names (m : Entries) : Prop := forall k, is_Some (m !! k) -> valid_utf8 k = true.

Lemma elem_of_entry_names m k : k ∈ entry_names m <-> is_Some (m !! k).
Proof.
  unfold entry_names. rewrite sort_strings_perm. split.
  - intros ([k' v] & -> & Hin)%list_elem_of_fmap. apply elem_of_map_to_list in Hin. by exists v.
  - intros [v Hv]. apply (list_elem_of_fmap_2 fst _ (k, v)). by apply elem_of_map_to_list.
Qed.

Lemma as_of_bytes v : as_bytes (of_bytes v) = Some v.
Proof.
  destruct v as [s|]; [|done]. unfold of_bytes, as_bytes, Json.of_string.
  assert (valid_utf8 (std_encode (bytes_of s)) = true) as Hu.
  { apply valid_utf8_ascii, std_encode_ascii, bytes_of_bytes. }
  rewrite Json.unquote_quote by exact Hu. cbn. rewrite std_decode_encode by apply bytes_of_bytes. cbn.
  by rewrite string_of_bytes.
Qed.

Lemma decode_sealed_entries (m : Entries) (keys : list string) (acc : Entries) :
  (forall k, k ∈ keys -> valid_utf8 k = true) ->
  decode_entries acc (map (fun k => (Json.quote_body k, of_bytes (default None (m !! k)))) keys) =
    Some (foldl (fun (a : Entries) k => <[k := default None (m !! k)]> a) acc keys).
Proof.
  revert acc. induction keys as [|k keys IH]; intros acc Hk; [done|]. cbn [map decode_entries].
  rewrite Json.unquote_quote by (apply Hk; left). cbn [mbind option_bind]. rewrite as_of_bytes. cbn [mbind option_bind foldl].
  apply IH. intros. apply Hk. by right.
Qed.

Lemma foldl_entries (m acc : Entries) (keys : list string) (k : string) :
  foldl (fun (a : Entries) k => <[k := default None (m !! k)]> a) acc keys !! k =
    if decide (k ∈ keys) then Some (default None (m !! k)) else acc !! k.
Proof.
  revert acc. induction keys as [|x keys IH]; intros acc; simpl; [done|].
  rewrite IH. destruct (decide (k ∈ keys)) as [Hin|Hn].
  - by rewrite decide_True by (by right).
  - destruct (decide (k = x)) as [->|Hne].
    + rewrite lookup_insert_eq, decide_True by (left). done.
    + rewrite lookup_insert_ne, decide_False by first [congruence|rewrite elem_of_cons; tauto]. done.
Qed.

Lemma wf_of_entries m : Json.wf (of_entries m).
Proof.
  apply Json.wf_obj. intros k v (name & [= -> ->] & _)%list_elem_of_fmap. split; [apply Json.quote_body_raw|].
  destruct (default None (m !! name)); [apply Json.wf_of_string|done].
Qed.

Lemma jdepth_of_entries m : Json.jdepth (of_entries m) <= 1.
Proof.
  unfold of_entries. cbn [Json.jdepth]. induction (entry_names m) as [|k l IH]; [cbn; lia|]. cbn [map fold_right snd] in *.
  assert (Json.jdepth (of_bytes (default None (m !! k))) = 0) as Hz by by destruct (default None (m !! k)). lia.
Qed.

(** The file's text gives back the entries it was made from. *)
Lemma as_of_entries m : utf8_names m -> as_entries (Json.print (of_entries m)) = Some (Some m).
Proof.
  intros Hu. unfold as_entries.
  rewrite Json.parse_print by (apply wf_of_entries || (pose proof (jdepth_of_entries m); unfold Json.max_nesting; lia)).
  cbn [mbind option_bind of_entries].
  rewrite decode_sealed_entries by (intros k Hk; by apply Hu, elem_of_entry_names). cbn. do 2 f_equal.
  apply map_eq. intros k. rewrite foldl_entries. destruct (decide (k ∈ entry_names m)) as [Hk|Hk]; rewrite elem_of_entry_names in Hk.
  - destruct Hk as [v Hv]. by rewrite Hv.
  - rewrite lookup_empty. symmetry. by apply eq_None_not_Some.
Qed.

Lemma decode_entries_utf8 fields acc m : utf8_names acc -> decode_entries acc fields = Some m -> utf8_names m.
Proof.
  revert acc. induction fields as [|[raw v] fields IH]; intros acc Ha; cbn [decode_entries]; [by intros [= <-]|].
  destruct (Json.unquote raw) as [key|] eqn:Eu; [|done]. cbn [mbind option_bind].
  destruct (as_bytes v) as [bytes|]; [|done]. cbn [mbind option_bind]. apply IH.
  intros k. destruct (decide (key = k)) as [<-|Hne]; [intros _; by eapply Json.unquote_valid|].
  rewrite lookup_insert_ne by done. apply Ha.
Qed.

Lemma as_entries_utf8 text m : as_entries text = Some (Some m) -> utf8_names m.
Proof.
  unfold as_entries. destruct (Json.parse text) as [[| | | | |fields]|]; cbn [mbind option_bind]; try done.
  destruct (decode_entries ∅ fields) as [m'|] eqn:Ed; cbn; [|done]. intros [= <-].
  eapply decode_entries_utf8; [|exact Ed]. intros k [? Hk]. by rewrite lookup_empty in Hk.
Qed.

(** ** The steps *)

Lemma wp_state {E} (Q : result E Safe -> Safe -> Prop) d : Q (Ok d) d -> wp state Q d.
Proof. by intros HQ w <-. Qed.

Lemma wp_modify {E} f (Q : result E unit -> Safe -> Prop) d : Q (Ok tt) (set_vault (f (vault d)) d) -> wp (modify f) Q d.
Proof. by intros HQ w <-. Qed.

Lemma wp_Reveal {E} v (Q : result E string -> Safe -> Prop) d : Q (Ok (Secret.Reveal v (memory d))) d -> wp (Reveal v) Q d.
Proof. by intros HQ w <-. Qed.

(** The safe with one box more. *)
Definition boxed (plaintext : string) (d : Safe) : Safe :=
  mkSafe (mkEgress (wire (memory d)) (waits (memory d)) (boxes (memory d) ++ [plaintext])) (files d) (vault d).

(** The safe with the box of a value emptied. *)
Definition zeroed (v : Secret.Value) (d : Safe) : Safe :=
  mkSafe (mkEgress (wire (memory d)) (waits (memory d))
    (match v with None => boxes (memory d) | Some i => <[i := ""]> (boxes (memory d)) end)) (files d) (vault d).

Lemma wp_NewSecret {E} plaintext (Q : result E Secret.Value -> Safe -> Prop) d :
  Q (Ok (Some (length (boxes (memory d))))) (boxed plaintext d) -> wp (NewSecret plaintext) Q d.
Proof. by intros HQ w <-. Qed.

Lemma wp_Zero_secret {E} v (Q : result E unit -> Safe -> Prop) d : Q (Ok tt) (zeroed v d) -> wp (in_memory (Secret.Zero v)) Q d.
Proof. by intros HQ w <-. Qed.

Definition closed (v : Vault) : Vault :=
  {| master := None; lastActive := 0; failures := failures v; lockedUntil := lockedUntil v |}.

(** What locking leaves. *)
Definition locked_down (d : Safe) : Safe := set_vault (closed (vault d)) (zeroed (master (vault d)) d).

Lemma wp_lockLocked {E} (Q : result E unit -> Safe -> Prop) d : Q (Ok tt) (locked_down d) -> wp lockLocked Q d.
Proof. by intros HQ w <-. Qed.

(** What unlocking at an instant leaves. *)
Definition unlocked_at (value : Secret.Value) (now : Z) (d : Safe) : Safe :=
  set_vault {| master := Some (length (boxes (memory d))); lastActive := now; failures := failures (vault d);
               lockedUntil := lockedUntil (vault d) |} (boxed (Secret.Reveal value (memory d)) d).

Lemma Reveal_boxed plaintext d : Secret.Reveal (Some (length (boxes (memory d)))) (memory (boxed plaintext d)) = plaintext.
Proof. unfold Secret.Reveal. cbn. by rewrite lookup_app_r, Nat.sub_diag by lia. Qed.

Lemma Reveal_set_vault value v d : Secret.Reveal value (memory (set_vault v d)) = Secret.Reveal value (memory d).
Proof. done. Qed.

(** A value of a box that was there. *)
Definition lives (v : Secret.Value) (d : Safe) : Prop := forall i, v = Some i -> (i < length (boxes (memory d)))%nat.

Lemma Reveal_old v plaintext d : lives v d -> Secret.Reveal v (memory (boxed plaintext d)) = Secret.Reveal v (memory d).
Proof. intros Hv. destruct v as [i|]; [|done]. unfold Secret.Reveal. cbn. rewrite lookup_app_l; [done|by apply Hv]. Qed.

Lemma Reveal_other v j d : v <> Some j -> Secret.Reveal v (memory (zeroed (Some j) d)) = Secret.Reveal v (memory d).
Proof.
  intros Hv. destruct v as [i|]; [|done]. unfold Secret.Reveal. cbn.
  rewrite list_lookup_insert_ne; [done|]. congruence.
Qed.

Section steps.
Context `{Env} `{DeviceLaws} `{Crypto.PrimitivesLaws} (o : Options).
Abbreviation path := (Path o).

Lemma wp_file_attempt {A} on failed e (Q : result Code A -> Safe -> Prop) d :
  (forall i, Q (Err e) (failed i d)) -> Q (on d).1 (on d).2 -> wp (attempt on failed e) Q d.
Proof.
  intros Hf Ho w <-. unfold attempt. destruct (io_fails (stmts w)); [by apply Hf|]. by destruct (on (db w)).
Qed.

Lemma wp_draw {E} n (Q : result E (option string) -> Safe -> Prop) d :
  (forall r, (forall s, r = Some s -> String.length s = n) -> Q (Ok r) d) -> wp (draw n) Q d.
Proof. intros HQ w <-. apply HQ. intros s. apply drawn_length. Qed.

Lemma wp_unlockLocked {E} value (Q : result E unit -> Safe -> Prop) d :
  (forall n, Q (Ok tt) (unlocked_at value (clock_at n) d)) -> wp (unlockLocked value) Q d.
Proof. intros HQ w <-. apply HQ. Qed.

Lemma wp_touchLocked {E} (Q : result E unit -> Safe -> Prop) d :
  (forall n, Q (Ok tt) (set_vault {| master := master (vault d); lastActive := clock_at n; failures := failures (vault d);
     lockedUntil := lockedUntil (vault d) |} d)) -> wp touchLocked Q d.
Proof. intros HQ w <-. apply HQ. Qed.

Definition password_of (d : Safe) : string := Secret.Reveal (master (vault d)) (memory d).

(** Idle for too long at an instant. *)
Definition idle (d : Safe) (now : Z) : Prop := lastActive (vault d) <> 0 /\ IdleTimeout o <= now - lastActive (vault d).

Lemma wp_activeLocked (Q : result Code unit -> Safe -> Prop) d :
  (password_of d <> "" -> ~ (forall n, idle d (clock_at n)) -> Q (Ok tt) d) ->
  (password_of d = "" -> Q (Err locked) d) ->
  (forall n, password_of d <> "" -> idle d (clock_at n) -> Q (Err locked) (locked_down d)) ->
  wp (activeLocked o) Q d.
Proof.
  intros Hok Herr Hidle. unfold activeLocked. wp_steps. apply wp_state. wp_steps. apply wp_Reveal. wp_steps.
  case_bool_decide as Hp; [by apply Herr|]. unfold IsZero. destruct (Z.eqb_spec (lastActive (vault d)) 0) as [Hz|Hz]; wp_steps.
  { apply Hok; [done|]. intros Hall. by destruct (Hall 0%nat). }
  destruct (Z.leb_spec (IdleTimeout o) (clock_at n - lastActive (vault d))); wp_steps.
  - apply wp_lockLocked. wp_steps. by apply (Hidle n).
  - apply Hok; [done|]. intros Hall. destruct (Hall n). lia.
Qed.

(** The file opens under a password, and holds these entries. *)
Definition stores (d : Safe) (password : string) (m : option Entries) : Prop :=
  exists sealed plaintext, files d !! path = Some sealed /\ Crypto.Open password sealed = Ok plaintext /\
    as_entries plaintext = Some m.

Lemma stores_fun d password m m' : stores d password m -> stores d password m' -> m = m'.
Proof. intros (s & p & Hs & Hp & Hm) (s' & p' & Hs' & Hp' & Hm'). congruence. Qed.

Lemma stores_utf8 d password m : stores d password (Some m) -> utf8_names m.
Proof. intros (s & p & _ & _ & Hm). by eapply as_entries_utf8. Qed.

Lemma wp_readEntries password (Q : result Code (option Entries) -> Safe -> Prop) d :
  (forall e, Q (Err e) d) -> (forall m, stores d password m -> Q (Ok m) d) -> wp (readEntries o password) Q d.
Proof.
  intros Herr Hok. unfold readEntries, ReadFile. wp_steps. apply wp_file_attempt; [by intros; apply Herr|]. cbn.
  destruct (files d !! path) as [sealed|] eqn:Ef; [|apply Herr]. wp_steps.
  destruct (Crypto.Open password sealed) as [plaintext|e] eqn:Eo; [|apply Herr]. wp_steps.
  destruct (as_entries plaintext) as [m|] eqn:Em; [|apply Herr]. apply Hok. by exists sealed, plaintext.
Qed.

(** When the file does not open, reading it fails. *)
Lemma wp_readEntries_none password (Q : result Code (option Entries) -> Safe -> Prop) d :
  (forall m, ~ stores d password m) -> (forall e, Q (Err e) d) -> wp (readEntries o password) Q d.
Proof. intros Hn Herr. apply wp_readEntries; [done|]. intros m Hm. by destruct (Hn m). Qed.

Lemma temporary_ne : path +:+ ".tmp" <> path.
Proof. intros Heq. apply (f_equal String.length) in Heq. rewrite str_length_app in Heq. cbn in Heq. lia. Qed.

(** Replacing the file: it is the new text, or the old one when something failed. *)
Lemma wp_writeSealed sealed (Q : result Code unit -> Safe -> Prop) d :
  (forall f, f !! path = Some sealed -> Q (Ok tt) (set_files f d)) ->
  (forall f, f !! path = files d !! path -> Q (Err CodeInternal) (set_files f d)) ->
  wp (writeSealed o sealed) Q d.
Proof.
  pose proof temporary_ne as Hne. intros Hok Herr.
  assert (Q (Err CodeInternal) d) as Hsame by (pose proof (Herr (files d) eq_refl); by destruct d).
  unfold writeSealed, MkdirAll, WriteFile, Rename, Remove. wp_steps.
  apply wp_file_attempt; [done|]. cbn. wp_steps.
  apply wp_file_attempt; cbn.
  { intros i. apply Herr. by rewrite lookup_partial_alter_ne. }
  wp_steps. apply wp_file_attempt; cbn.
  - intros i. unfold unharmed. wp_steps. apply wp_file_attempt; [intros j; unfold unharmed; wp_steps|cbn; wp_steps]; apply Herr.
    + by rewrite lookup_insert_ne.
    + by rewrite lookup_delete_ne, lookup_insert_ne.
  - rewrite lookup_insert_eq. cbn [fst snd]. wp_steps. apply Hok. by rewrite lookup_insert_eq.
Qed.

Lemma wp_writeEntries password m (Q : result Code unit -> Safe -> Prop) d :
  utf8_names m ->
  (forall f, password <> "" -> stores (set_files f d) password (Some m) -> Q (Ok tt) (set_files f d)) ->
  (forall e f, e = CodeInternal \/ e = CodeInvalidRequest -> f !! path = files d !! path -> Q (Err e) (set_files f d)) ->
  wp (writeEntries o password m) Q d.
Proof.
  intros Hu Hok Herr. assert (forall e, e = CodeInternal \/ e = CodeInvalidRequest -> Q (Err e) d) as Hsame
    by (intros e He; pose proof (Herr e (files d) He eq_refl); by destruct d).
  unfold writeEntries. wp_steps. apply wp_draw. intros salt Hsalt. wp_steps. apply wp_draw. intros nonce Hnonce. wp_steps.
  pose proof (Crypto.seal_parts salt nonce password (Json.print (of_entries m)) Crypto.Default Hsalt) as Htotal.
  destruct (Crypto.Seal salt nonce password _ _) as [sealed|e] eqn:Es.
  2: { apply Hsame. destruct Htotal as [[_ []]|[[-> _]|[-> _]]]; [by vm_compute|by right|by left]. }
  destruct Htotal as (_ & Hp & _ & [n ->]). wp_steps. apply wp_writeSealed.
  - intros f Hf. apply Hok; [done|]. exists sealed, (Json.print (of_entries m)). split_and!; [done| |by apply as_of_entries].
    eapply Crypto.open_sealed; [| |exact Es]; [|by apply Hnonce]. by repeat split.
  - intros f Hf. apply Herr; [by left|done].
Qed.
End steps.

(** ** A vault is a map from names to bytes *)

Inductive action :=
| Fetching (reference : string)
| Storing (reference plaintext : string)
| Dropping (reference : string)
| Listing
| Locking
| Unlocking.

Inductive reply :=
| Plain (plaintext : string)
| Names (l : list string)
| Done.

(** A name as a program holds it that can be written in JSON. *)
Definition writable (a : action) : Prop :=
  match a with Storing reference _ => valid_utf8 reference = true | _ => True end.

Definition on_map (a : action) (m : Entries) : option (reply * Entries) :=
  match a with
  | Fetching reference => stored ← m !! reference; Some (Plain (default "" stored), m)
  | Storing reference plaintext => if reference ==? "" then None else Some (Done, <[reference := copied plaintext]> m)
  | Dropping reference => _ ← m !! reference; Some (Done, delete reference m)
  | Listing => Some (Names (entry_names m), m)
  | Locking | Unlocking => Some (Done, m)
  end.

Section map.
Context `{Env} `{Device} `{Crypto.Primitives} (o : Options) (password : string).

(** What a caller does with each operation: the plaintext it gets is read and its
    box emptied, as is the box of what it brings. *)
Definition perform (a : action) : M Safe Code reply :=
  match a with
  | Fetching reference => value ← Get o reference; deferred (s ← Reveal value; mret (Plain s)) (in_memory (Secret.Zero value))
  | Storing reference plaintext =>
      value ← NewSecret plaintext;
      _ ← deferred (Put o reference value) (in_memory (Secret.Zero value)); mret Done
  | Dropping reference => _ ← Delete o reference; mret Done
  | Listing => l ← References o; mret (Names l)
  | Locking => _ ← Lock; mret Done
  | Unlocking =>
      '(_, failed) ← UnlockWith o password;
      match failed with None => mret Done | Some e => throw e end
  end.

Fixpoint perform_all (l : list action) (w : World Safe) : list (result Code reply) * World Safe :=
  match l with
  | [] => ([], w)
  | a :: l => let '(r, w1) := perform a w in let '(rs, w2) := perform_all l w1 in (r :: rs, w2)
  end.
End map.

(** The replies are those of a map, where a failure leaves the map as it is. *)
Inductive explained : Entries -> list action -> list (result Code reply) -> Entries -> Prop :=
| explained_nil m : explained m [] [] m
| explained_ok m a r m1 l rs m2 : on_map a m = Some (r, m1) -> explained m1 l rs m2 -> explained m (a :: l) (Ok r :: rs) m2
| explained_err m a e l rs m2 : explained m l rs m2 -> explained m (a :: l) (Err e :: rs) m2.

Section refinement.
Context `{Env} `{DeviceLaws} `{Crypto.PrimitivesLaws} (o : Options) (password : string).

(** The file holds [m] under the password, and memory holds no other password;
    [skip] is a box that is not the master's. *)
Record sound (skip : option nat) (d : Safe) (m : Entries) : Prop := {
  sound_stores : stores o d password (Some m);
  sound_master : password_of d = "" \/ password_of d = password;
  sound_lives : lives (master (vault d)) d;
  sound_apart i : skip = Some i -> master (vault d) <> Some i /\ (i < length (boxes (memory d)))%nat;
}.

Lemma sound_files skip d f m m' : sound skip d m -> stores o (set_files f d) password (Some m') -> sound skip (set_files f d) m'.
Proof. intros [Hs Hm Hl Ha] Hst. by constructor. Qed.

Lemma sound_same_file skip d f m : sound skip d m -> f !! Path o = files d !! Path o -> sound skip (set_files f d) m.
Proof.
  intros Hsd Hf. eapply sound_files; [exact Hsd|]. destruct (sound_stores _ _ _ Hsd) as (s & p & Hs & Hp & Hm).
  exists s, p. split_and!; [|done|done]. cbn. by rewrite Hf.
Qed.

Lemma sound_boxed skip d m plaintext : sound skip d m -> sound skip (boxed plaintext d) m.
Proof.
  intros [Hs Hm Hl Ha]. constructor; [exact Hs| | |].
  - unfold password_of in *. change (master (vault (boxed plaintext d))) with (master (vault d)).
    by rewrite Reveal_old.
  - intros i Hi. cbn in *. rewrite length_app. specialize (Hl i Hi). lia.
  - intros i Hi. destruct (Ha i Hi) as [Hne Hlt]. split; [exact Hne|]. cbn. rewrite length_app. lia.
Qed.

Lemma sound_skip d m plaintext : sound None d m -> sound (Some (length (boxes (memory d)))) (boxed plaintext d) m.
Proof.
  intros Hsd. destruct (sound_boxed _ _ _ plaintext Hsd) as [Hs Hm Hl _]. constructor; [done..|].
  intros i [= <-]. split; [|cbn; rewrite length_app; cbn; lia]. intros Heq.
  pose proof (sound_lives _ _ _ Hsd _ Heq). lia.
Qed.

Lemma sound_zeroed d m j : sound (Some j) d m -> sound None (zeroed (Some j) d) m.
Proof.
  intros [Hs Hm Hl Ha]. destruct (Ha j eq_refl) as [Hne _]. constructor; [exact Hs| | |done].
  - unfold password_of in *. change (master (vault (zeroed (Some j) d))) with (master (vault d)). by rewrite Reveal_other.
  - intros i Hi. cbn in *. rewrite length_insert. by apply Hl.
Qed.

Lemma sound_locked skip d m : sound skip d m -> sound skip (locked_down d) m.
Proof.
  intros [Hs Hm Hl Ha]. constructor; [exact Hs|by left|done|].
  intros i Hi. split; [done|]. destruct (Ha i Hi) as [_ Hlt]. cbn. destruct (master (vault d)); [by rewrite length_insert|done].
Qed.

Lemma sound_vault skip d v m : sound skip d m -> master v = master (vault d) -> sound skip (set_vault v d) m.
Proof.
  intros [Hs Hm Hl Ha] Hv. constructor; [exact Hs| | |].
  - unfold password_of in *. cbn. by rewrite Hv.
  - unfold lives in *. cbn. by rewrite Hv.
  - cbn. by rewrite Hv.
Qed.

Lemma sound_unlocked skip d m value now :
  sound skip d m -> Secret.Reveal value (memory d) = password -> sound skip (unlocked_at value now d) m.
Proof.
  intros Hsd Hv. destruct (sound_boxed _ _ _ (Secret.Reveal value (memory d)) Hsd) as [Hs Hm Hl Ha]. constructor; [exact Hs| | |].
  - right. rewrite <- Hv. exact (Reveal_boxed (Secret.Reveal value (memory d)) d).
  - intros i [= <-]. cbn. rewrite length_app. cbn. lia.
  - intros i Hi. destruct (Ha i Hi) as [_ Hlt]. destruct (sound_apart _ _ _ Hsd i Hi) as [_ Hold]. split; [|exact Hlt].
    cbn. intros [= Heq]. lia.
Qed.

Lemma wp_opened skip m (Q : result Code (string * option Entries) -> Safe -> Prop) d :
  sound skip d m ->
  (forall e d', sound skip d' m -> Q (Err e) d') ->
  (password_of d = password -> password <> "" -> Q (Ok (password, Some m)) d) ->
  wp (opened o) Q d.
Proof.
  intros Hsd Herr Hok. unfold opened. wp_steps. apply wp_activeLocked.
  - intros Hp _. wp_steps. apply wp_state. wp_steps. apply wp_Reveal. wp_steps.
    assert (password_of d = password) as Heq by (by destruct (sound_master _ _ _ Hsd)).
    unfold password_of in Heq. rewrite Heq. apply wp_readEntries; [by intros; apply Herr|].
    intros m' Hm'. wp_steps. rewrite (stores_fun _ _ _ _ _ Hm' (sound_stores _ _ _ Hsd)). apply Hok; [done|]. by rewrite <- Heq.
  - intros _. by apply Herr.
  - intros n _ _. apply Herr. by apply sound_locked.
Qed.

(** Writing other entries, under the same password. *)
Lemma wp_rewrite skip m m' (Q : result Code unit -> Safe -> Prop) d :
  sound skip d m -> utf8_names m' ->
  (forall d', sound skip d' m' -> Q (Ok tt) d') -> (forall e d', sound skip d' m -> Q (Err e) d') ->
  wp (writeEntries o password m') (fun r d' => match r with Ok _ => wp touchLocked Q d' | Err e => Q (Err e) d' end) d.
Proof.
  intros Hsd Hu Hok Herr. apply wp_writeEntries; [done| |].
  - intros f _ Hst. apply wp_touchLocked. intros n. apply Hok, sound_vault; [|done]. by eapply sound_files.
  - intros e f _ Hf. apply Herr. by eapply sound_same_file.
Qed.

(** One step is the map's step, or changes nothing. *)
Lemma wp_perform_action a m d :
  sound None d m -> writable a -> password <> "" ->
  wp (perform o password a) (fun r d' => match r with
    | Ok reply => exists m', on_map a m = Some (reply, m') /\ sound None d' m'
    | Err _ => sound None d' m end) d.
Proof.
  intros Hsd Ha Hp. destruct a as [reference|reference plaintext|reference| | |]; cbn [perform on_map].
  - wp_steps. unfold Get. wp_steps. eapply wp_opened; [exact Hsd|done|]. intros _ _. wp_steps. cbn [default from_option id].
    destruct (m !! reference) as [stored|] eqn:El; [|by apply wp_throw]. wp_steps. apply wp_NewSecret. wp_steps.
    apply wp_touchLocked. intros n. wp_steps. apply wp_deferred. wp_steps. apply wp_Reveal. wp_steps. apply wp_Zero_secret.
    exists m. split.
    + rewrite Reveal_set_vault, Reveal_boxed. by cbn.
    + apply sound_zeroed. apply sound_vault; [|done]. by apply sound_skip.
  - wp_steps. apply wp_NewSecret. wp_steps. apply wp_deferred. pose proof (sound_skip _ _ plaintext Hsd) as Hsk.
    set (j := length (boxes (memory d))) in *. unfold Put. wp_steps. case_bool_decide as Hr.
    { apply wp_Zero_secret. by apply sound_zeroed. }
    wp_steps. eapply wp_opened; [exact Hsk|by intros e d' Hd'; apply wp_Zero_secret, sound_zeroed|]. intros _ _. wp_steps.
    apply wp_Reveal. wp_steps. unfold j. rewrite Reveal_boxed. fold j. eapply wp_rewrite; [exact Hsk| | |].
    + intros k. destruct (decide (reference = k)) as [<-|Hne]; [done|]. rewrite lookup_insert_ne by done.
      by eapply stores_utf8, sound_stores.
    + intros d' Hd'. apply wp_Zero_secret. wp_steps. eexists. split; [done|]. by apply sound_zeroed.
    + intros e d' Hd'. apply wp_Zero_secret. by apply sound_zeroed.
  - wp_steps. unfold Delete. wp_steps. eapply wp_opened; [exact Hsd|done|]. intros _ _. wp_steps. cbn [default from_option id].
    destruct (m !! reference) as [stored|] eqn:El; [|by apply wp_throw]. wp_steps. eapply wp_rewrite; [exact Hsd| | |done].
    + intros k. destruct (decide (reference = k)) as [<-|Hne]; [by rewrite lookup_delete_eq; intros []|].
      rewrite lookup_delete_ne by done. by eapply stores_utf8, sound_stores.
    + intros d' Hd'. wp_steps. eexists. by split.
  - wp_steps. unfold References. wp_steps. eapply wp_opened; [exact Hsd|done|]. intros _ _. wp_steps.
    apply wp_touchLocked. intros n. wp_steps. exists m. split; [done|]. by apply sound_vault.
  - wp_steps. apply wp_lockLocked. wp_steps. exists m. split; [done|]. by apply sound_locked.
  - wp_steps. unfold UnlockWith. wp_steps. apply wp_NewSecret. wp_steps. apply wp_deferred.
    pose proof (sound_skip _ _ password Hsd) as Hsk. set (j := length (boxes (memory d))) in *.
    unfold Unlock. wp_steps. apply wp_state. wp_steps. destruct (Before _ _).
    { wp_steps. apply wp_Zero_secret. wp_steps. by apply sound_zeroed. }
    wp_steps. apply wp_Reveal. wp_steps. unfold j. rewrite Reveal_boxed. fold j. apply wp_readEntries.
    + intros e. wp_steps. apply wp_lockLocked. wp_steps. apply wp_state. wp_steps.
      destruct (_ <? MaxUnlockFailures); wp_steps; apply wp_modify; wp_steps; apply wp_Zero_secret; wp_steps;
        apply sound_zeroed, sound_vault; try done; by apply sound_locked.
    + intros m' Hm'. wp_steps. apply wp_modify. wp_steps. apply wp_unlockLocked. intros k. wp_steps. apply wp_Zero_secret. wp_steps.
      exists m. split; [done|]. apply sound_zeroed, sound_unlocked; [by apply sound_vault|].
      rewrite Reveal_set_vault. apply Reveal_boxed.
Qed.

(** C14. The vault is a map from names to bytes, and stays one when the disk fails.
    Whatever a program does with it - fetch, store, delete, list, lock and unlock,
    in any order, with any file operation failing at any time and any idle time
    passing in between - the replies are those of a map on which a failed call has
    no effect, and what the file holds under the password in the end is that map. *)
Theorem vault_is_map l w m :
  sound None (db w) m -> Forall writable l -> password <> "" ->
  exists m', explained m l (perform_all o password l w).1 m' /\
    sound None (db (perform_all o password l w).2) m'.
Proof.
  intros Hsd Hw Hp. revert w m Hsd. induction Hw as [|a l Ha Hl IH]; intros w m Hsd; [exists m; by split; [constructor|]|].
  cbn [perform_all]. pose proof (wp_perform_action a m (db w) Hsd Ha Hp w eq_refl) as Hstep.
  destruct (perform o password a w) as [r w1]. cbn in Hstep. destruct r as [reply|e].
  - destruct Hstep as (m1 & Hon & Hs1). destruct (IH w1 m1 Hs1) as (m2 & He & Hs2).
    destruct (perform_all o password l w1) as [rs w2]. exists m2. split; [|done]. by econstructor.
  - destruct (IH w1 m Hstep) as (m2 & He & Hs2).
    destruct (perform_all o password l w1) as [rs w2]. exists m2. split; [|done]. by constructor.
Qed.
End refinement.

(** ** Wrong passwords *)

(** The answer to a password, and the counters after it, from the instant, the
    counters and whether the file opened. *)
Definition answer (now : Z) (v : Vault) (opens : bool) : UnlockOutcome * option Code :=
  if Before now (lockedUntil v) then ({| LockoutBegan := false; LockedUntil := lockedUntil v |}, Some lockedOut)
  else if opens then (no_outcome, None)
  else if failures v + 1 <? MaxUnlockFailures then (no_outcome, Some unlockFailed)
  else ({| LockoutBegan := true; LockedUntil := now + LockoutDuration |}, Some lockedOut).

Definition counters (v : Vault) : Z * Z := (failures v, lockedUntil v).

Definition counted (now : Z) (v : Vault) (opens : bool) : Z * Z :=
  if Before now (lockedUntil v) then counters v
  else if opens then (0, 0)
  else if failures v + 1 <? MaxUnlockFailures then (failures v + 1, lockedUntil v)
  else (0, now + LockoutDuration).

(** The box of a value holds nothing any more. *)
Definition emptied_box (v : Secret.Value) (d : Safe) : Prop :=
  forall i, v = Some i -> (i < length (boxes (memory d)))%nat -> boxes (memory d) !! i = Some "".

(** Guessing one password after another, with the instant of each. *)
Fixpoint guess_all `{Env} `{Device} `{Crypto.Primitives} (o : Options) (l : list string) (w : World Safe)
    : list (Z * (UnlockOutcome * option Code)) * World Safe :=
  match l with
  | [] => ([], w)
  | guess :: l =>
      match UnlockWith (E := Code) o guess w with
      | (Ok told, w1) => let '(rest, w2) := guess_all o l w1 in ((clock_at (ticks w), told) :: rest, w2)
      | (Err _, w1) => guess_all o l w1
      end
  end.

(** The guesses that were compared with the file - those that touched the disk -
    each with its instant and whether the vault was opened. *)
Fixpoint comparisons `{Env} `{Device} `{Crypto.Primitives} (o : Options) (l : list string) (w : World Safe)
    : list (Z * bool) :=
  match l with
  | [] => []
  | guess :: l =>
      let '(told, w1) := UnlockWith (E := Code) o guess w in
      (if (stmts w1 =? stmts w)%nat then []
       else [(clock_at (ticks w), match told with Ok (_, None) => true | _ => false end)])
      ++ comparisons o l w1
  end.

Section guessing.
Context `{Env} `{Device} `{Crypto.Primitives} (o : Options).

Lemma readEntries_runs password w :
  exists r, readEntries o password w = (r, mkWorld (db w) (ticks w) (ids w) (S (stmts w))) /\
    forall m, r = Ok m -> stores o (db w) password m.
Proof.
  unfold readEntries, ReadFile, attempt, unharmed, mbind, M_bind, of_result.
  destruct (io_fails (stmts w)); [by eexists _|]. destruct (files (db w) !! Path o) as [sealed|] eqn:Ef; [|by eexists _].
  destruct (Crypto.Open password sealed) as [plaintext|e] eqn:Eo; [|by eexists _].
  destruct (as_entries plaintext) as [m|] eqn:Em; [|by eexists _].
  eexists _. split; [done|]. intros m' [= <-]. by exists sealed, plaintext.
Qed.

(** The safe after an attempt. *)
Definition after_attempt (value : Secret.Value) (now later : Z) (opens : bool) (d : Safe) : Safe :=
  let v := vault d in
  if Before now (lockedUntil v) then d
  else if opens then
    unlocked_at value later
      (set_vault {| master := master v; lastActive := lastActive v; failures := 0; lockedUntil := 0 |} d)
  else set_vault {| master := None; lastActive := 0; failures := (counted now v opens).1;
                    lockedUntil := (counted now v opens).2 |} (zeroed (master v) d).

Lemma unlockLocked_runs {E} value w :
  unlockLocked (E := E) value w =
    (Ok tt, mkWorld (unlocked_at value (clock_at (ticks w)) (db w)) (S (ticks w)) (ids w) (stmts w)).
Proof. by destruct w. Qed.

Lemma Unlock_runs {E} value w :
  let now := clock_at (ticks w) in
  exists opens w', Unlock (E := E) o value w = (Ok (answer now (vault (db w)) opens), w') /\
    db w' = after_attempt value now (clock_at (S (ticks w))) opens (db w) /\
    (opens = true -> Before now (lockedUntil (vault (db w))) = false /\
      exists m, stores o (db w) (Secret.Reveal value (memory (db w))) m) /\
    (opens = false -> ticks w' = S (ticks w)) /\ (ticks w < ticks w')%nat /\
    stmts w' = (if Before now (lockedUntil (vault (db w))) then stmts w else S (stmts w)).
Proof.
  cbv zeta. destruct w as [d t i k]. unfold Unlock, Now, state, mbind, M_bind, Reveal, try_. cbn [db ticks ids stmts].
  unfold answer, after_attempt. destruct (Before (clock_at t) (lockedUntil (vault d))) eqn:Eb.
  { exists false. eexists. split_and!; try done. cbn. lia. }
  match goal with |- context [readEntries o ?p ?w0] => destruct (readEntries_runs p w0) as (r & -> & Hr) end.
  cbn [db ticks ids stmts] in *. destruct r as [m|e].
  - exists true. set (v1 := {| master := master (vault d); lastActive := lastActive (vault d); failures := 0; lockedUntil := 0 |}).
    set (w1 := mkWorld (set_vault v1 d) (S t) i (S k)).
    change (modify _ _) with (Ok (E := E) tt, w1). cbn beta iota.
    rewrite (unlockLocked_runs value w1 : _ = (Ok tt, mkWorld (unlocked_at value (clock_at (S t)) (set_vault v1 d)) (S (S t)) i (S k))).
    cbn beta iota. eexists. split; [reflexivity|]. split_and!; [reflexivity| |done|cbn; lia|done].
    intros _. split; [done|]. exists m. by apply Hr.
  - exists false. unfold counted. rewrite Eb. set (w1 := mkWorld d (S t) i (S k)).
    change (lockLocked w1) with (Ok (E := E) tt, mkWorld (locked_down d) (S t) i (S k)). cbn beta iota. cbn [db].
    change (failures (vault (locked_down d))) with (failures (vault d)).
    destruct (failures (vault d) + 1 <? MaxUnlockFailures); eexists; (split; [reflexivity|]); split_and!; try done; cbn; lia.
Qed.

(** Everything one attempt does. *)
Lemma UnlockWith_runs {E} password w :
  let now := clock_at (ticks w) in let v := vault (db w) in
  exists opens w', UnlockWith (E := E) o password w = (Ok (answer now v opens), w') /\
    counters (vault (db w')) = counted now v opens /\ files (db w') = files (db w) /\
    (opens = true -> Before now (lockedUntil v) = false /\ exists m, stores o (db w) password m) /\
    (opens = false -> ticks w' = S (ticks w)) /\ (ticks w < ticks w')%nat /\
    stmts w' = (if Before now (lockedUntil v) then stmts w else S (stmts w)) /\
    if Before now (lockedUntil v) then vault (db w') = v
    else if opens then password_of (db w') = password
    else vault (db w') = {| master := None; lastActive := 0; failures := (counted now v opens).1;
                            lockedUntil := (counted now v opens).2 |} /\ emptied_box (master v) (db w').
Proof.
  cbv zeta. set (j := length (boxes (memory (db w)))).
  set (w0 := mkWorld (boxed password (db w)) (ticks w) (ids w) (stmts w)).
  destruct (Unlock_runs (E := E) (Some j) w0) as (opens & w1 & Hrun & Hd & Ho & Ht & Htk & Hst).
  exists opens, (mkWorld (zeroed (Some j) (db w1)) (ticks w1) (ids w1) (stmts w1)).
  assert (UnlockWith (E := E) o password w = (Ok (answer (clock_at (ticks w)) (vault (db w)) opens),
    mkWorld (zeroed (Some j) (db w1)) (ticks w1) (ids w1) (stmts w1))) as Heq.
  { unfold UnlockWith, mbind, M_bind. change (NewSecret password w) with (Ok (E := E) (Some j), w0).
    cbn beta iota. unfold deferred. rewrite Hrun. reflexivity. }
  split; [exact Heq|]. cbn [db ticks stmts]. rewrite Hd.
  assert (vault (db w0) = vault (db w)) as Hv by done. assert (files (db w0) = files (db w)) as Hf by done.
  assert (Secret.Reveal (Some j) (memory (db w0)) = password) as Hp by apply (Reveal_boxed password (db w)).
  unfold after_attempt, counted. rewrite Hv in *. rewrite Hp in Ho. cbn [ticks stmts w0] in *.
  destruct (Before (clock_at (ticks w)) (lockedUntil (vault (db w)))) eqn:Eb.
  { by split_and!. }
  destruct opens.
  - split; [reflexivity|]. split; [exact Hf|]. split; [exact Ho|]. split; [exact Ht|]. split; [exact Htk|]. split; [exact Hst|]. etrans; [|exact Hp]. unfold password_of.
    rewrite Reveal_other by (cbn; intros [= Hj]; rewrite length_app in Hj; unfold j in Hj; cbn in Hj; lia).
    apply (Reveal_boxed (Secret.Reveal (Some j) (memory (db w0)))).
  - destruct (failures (vault (db w)) + 1 <? MaxUnlockFailures); split_and!; try done; intros i Hi Hlt; cbn in Hi, Hlt |- *;
      rewrite Hi in Hlt |- *; cbn in Hlt |- *; rewrite !length_insert in Hlt; (destruct (decide (i = j)) as [->|Hne];
      [apply list_lookup_insert_eq; by rewrite length_insert|]; rewrite list_lookup_insert_ne by done; by apply list_lookup_insert_eq).
Qed.

Lemma stores_files d d' password m : files d' = files d -> stores o d password m -> stores o d' password m.
Proof. intros Hf (s & p & Hs & Hp & Hm). exists s, p. by rewrite Hf. Qed.

Lemma answer_counters now v v' opens : counters v = counters v' -> answer now v opens = answer now v' opens.
Proof. unfold counters, answer. by intros [= -> ->]. Qed.

Lemma counted_counters now v v' opens : counters v = counters v' -> counted now v opens = counted now v' opens.
Proof. unfold counted, counters. by intros [= -> ->]. Qed.

(** A guess that does not open the file, as a step. *)
Lemma guess_fails guess w :
  (forall m, ~ stores o (db w) guess m) ->
  exists w', UnlockWith (E := Code) o guess w = (Ok (answer (clock_at (ticks w)) (vault (db w)) false), w') /\
    counters (vault (db w')) = counted (clock_at (ticks w)) (vault (db w)) false /\ files (db w') = files (db w) /\
    ticks w' = S (ticks w).
Proof.
  intros Hn. destruct (UnlockWith_runs (E := Code) guess w) as (opens & w' & Hr & Hc & Hf & Ho & Ht & _ & _ & _).
  destruct opens; [by destruct (Ho eq_refl) as (_ & m & Hm); destruct (Hn m)|]. exists w'. by split_and!; [| | |apply Ht].
Qed.

(** A wrong password and a vault that is not there look the same. When no
    guess opens the file - because the passwords are wrong, the file is not a
    vault, or there is no file at all - the answers to any number of guesses are
    the same for both: they depend on the instants and the counters only. *)
Theorem no_enumeration l w1 w2 :
  ticks w1 = ticks w2 -> counters (vault (db w1)) = counters (vault (db w2)) ->
  Forall (fun guess => (forall m, ~ stores o (db w1) guess m) /\ (forall m, ~ stores o (db w2) guess m)) l ->
  (guess_all o l w1).1 = (guess_all o l w2).1.
Proof.
  revert w1 w2. induction l as [|guess l IH]; intros w1 w2 Ht Hc Hn; [done|]. apply Forall_cons in Hn as [[Hn1 Hn2] Hn].
  cbn [guess_all]. destruct (guess_fails guess w1 Hn1) as (w1' & -> & Hc1 & Hf1 & Ht1).
  destruct (guess_fails guess w2 Hn2) as (w2' & -> & Hc2 & Hf2 & Ht2).
  assert ((guess_all o l w1').1 = (guess_all o l w2').1) as Heq.
  { apply IH; [congruence| |].
    - rewrite Hc1, Hc2, Ht. by apply counted_counters.
    - eapply Forall_impl; [exact Hn|]. intros g [Hg1 Hg2].
      split; intros m Hm; [apply (Hg1 m)|apply (Hg2 m)]; (eapply stores_files; [|exact Hm]); done. }
  destruct (guess_all o l w1') as [r1 ?], (guess_all o l w2') as [r2 ?]. cbn in Heq |- *. subst r2.
  by rewrite Ht, (answer_counters _ _ _ _ Hc).
Qed.

(** The first comparison of a run: it is made when no lockout is on, and leaves the
    counters [counted] says. *)
Lemma first_comparison l w a x rest :
  comparisons o l w = (a, x) :: rest -> exists l' w' n,
    a = clock_at n /\ (ticks w <= n < ticks w')%nat /\ lockedUntil (vault (db w)) <= a /\
    counters (vault (db w')) = counted a (vault (db w)) x /\ rest = comparisons o l' w' /\
    (x = true -> exists guess m, guess ∈ l /\ stores o (db w) guess m).
Proof.
  revert w. induction l as [|guess l IH]; intros w; [done|]. cbn [comparisons].
  destruct (UnlockWith_runs (E := Code) guess w) as (opens & w' & -> & Hc & Hf & Ho & _ & Hlt & Hst & Hv).
  destruct (Before _ _) eqn:Eb; rewrite Hst.
  - rewrite Nat.eqb_refl. cbn [app]. intros (l' & w2 & n & -> & Hn & Hle & Hc2 & -> & Hm)%IH.
    exists l', w2, n. rewrite Hv in Hle, Hc2. split_and!; try done; [lia..|].
    intros (g & m & Hg & Hs)%Hm. exists g, m. split; [by right|]. by eapply stores_files.
  - rewrite (proj2 (Nat.eqb_neq _ _)) by lia. unfold answer. rewrite Eb. intros Heq.
    assert (a = clock_at (ticks w) /\ x = opens /\ rest = comparisons o l w') as (-> & -> & ->).
    { destruct opens; [|destruct (_ <? MaxUnlockFailures)]; by injection Heq as <- <- <-. }
    exists l, w', (ticks w). unfold Before in Eb. apply Z.ltb_ge in Eb. split_and!; try done.
    intros Ho'. destruct (Ho Ho') as (_ & m & Hm). exists guess, m. split; [by left|done].
Qed.

Lemma counted_range now v x :
  0 <= failures v < MaxUnlockFailures -> 0 <= (counted now v x).1 < MaxUnlockFailures.
Proof.
  intros Hk. unfold counted, counters. destruct (Before _ _); [done|]. destruct x; [by cbn|].
  destruct (Z.ltb_spec (failures v + 1) MaxUnlockFailures); cbn; [lia|done].
Qed.

(** A run of guesses is, from any of its comparisons on, a run of guesses. *)
Lemma later_comparisons i l w :
  0 <= failures (vault (db w)) < MaxUnlockFailures -> exists l' w',
    drop i (comparisons o l w) = comparisons o l' w' /\ 0 <= failures (vault (db w')) < MaxUnlockFailures.
Proof.
  revert l w. induction i as [|i IH]; intros l w Hk; [by exists l, w|].
  destruct (comparisons o l w) as [|[a x] rest] eqn:E; [exists [], w; done|].
  apply first_comparison in E as (l' & w' & n & _ & _ & _ & Hc & -> & _). apply IH.
  pose proof (counted_range a (vault (db w)) x Hk) as Hr. rewrite <- Hc in Hr. exact Hr.
Qed.

(** Three failures fill the counter, whatever it held. *)
Lemma three_failures l w a b c d x rest :
  (forall i j, (i <= j)%nat -> clock_at i <= clock_at j) -> 0 <= failures (vault (db w)) < MaxUnlockFailures ->
  comparisons o l w = (a, false) :: (b, false) :: (c, false) :: (d, x) :: rest -> a + LockoutDuration <= d.
Proof.
  intros Hclock Hk E.
  apply first_comparison in E as (l1 & w1 & n1 & -> & Hn1 & Hl1 & Hc1 & E & _). symmetry in E.
  apply first_comparison in E as (l2 & w2 & n2 & -> & Hn2 & Hl2 & Hc2 & E & _). symmetry in E.
  apply first_comparison in E as (l3 & w3 & n3 & -> & Hn3 & Hl3 & Hc3 & E & _). symmetry in E.
  apply first_comparison in E as (l4 & w4 & n4 & -> & Hn4 & Hl4 & _ & _ & _).
  pose proof (Hclock n1 n2 ltac:(lia)). pose proof (Hclock n2 n3 ltac:(lia)). pose proof (Hclock n3 n4 ltac:(lia)).
  unfold counted, counters, Before in Hc1, Hc2, Hc3. unfold MaxUnlockFailures in *.
  rewrite (proj2 (Z.ltb_ge _ _)) in Hc1 by done. rewrite (proj2 (Z.ltb_ge _ _)) in Hc2 by done.
  rewrite (proj2 (Z.ltb_ge _ _)) in Hc3 by done.
  destruct (Z.ltb_spec (failures (vault (db w)) + 1) 3); injection Hc1 as Hf1 Hu1; rewrite ?Hf1 in Hc2.
  - destruct (Z.ltb_spec (failures (vault (db w)) + 1 + 1) 3); injection Hc2 as Hf2 Hu2; rewrite ?Hf2 in Hc3.
    + rewrite (proj2 (Z.ltb_ge _ _)) in Hc3 by lia. injection Hc3 as Hf3 Hu3. lia.
    + lia.
  - lia.
Qed.

(** C15. The master password cannot be guessed at speed. Of any sequence of
    guesses, on a clock that does not go back and whatever the disk does: when
    three comparisons with the file in a row failed, the next comparison - whether
    it opens the vault or not - is at least the lockout's minute after the first of
    them, so in no minute are there four comparisons of which the first three fail.
    A comparison is an attempt that reads the file, not what it answers. And while
    a lockout is on, the answer to any password, the right one too, is the same
    refusal: the file is not read, the vault stays as it is and no file changes. *)
Theorem guesses_bounded l w :
  (forall i j, (i <= j)%nat -> clock_at i <= clock_at j) -> 0 <= failures (vault (db w)) < MaxUnlockFailures ->
  (forall i a b c d x, comparisons o l w !! i = Some (a, false) -> comparisons o l w !! (i + 1)%nat = Some (b, false) ->
     comparisons o l w !! (i + 2)%nat = Some (c, false) -> comparisons o l w !! (i + 3)%nat = Some (d, x) ->
     a + LockoutDuration <= d) /\
  (forall guess, clock_at (ticks w) < lockedUntil (vault (db w)) -> exists w',
     UnlockWith (E := Code) o guess w =
       (Ok ({| LockoutBegan := false; LockedUntil := lockedUntil (vault (db w)) |}, Some lockedOut), w') /\
     stmts w' = stmts w /\ vault (db w') = vault (db w) /\ files (db w') = files (db w)).
Proof.
  intros Hclock Hk. split.
  - intros i a b c d x Ha Hb Hc Hd. destruct (later_comparisons i l w Hk) as (l' & w' & Hl & Hk').
    apply (three_failures l' w' a b c d x (drop (i + 4) (comparisons o l w)) Hclock Hk'). rewrite <- Hl.
    rewrite (drop_S _ _ _ Ha), (drop_S _ (b, false) (S i)), (drop_S _ (c, false) (S (S i))), (drop_S _ (d, x) (S (S (S i)))).
    { do 4 f_equal. by rewrite Nat.add_comm. }
    all: rewrite ?(Nat.add_comm i) in *; done.
  - intros guess Hlt. apply Z.ltb_lt in Hlt as Hb.
    destruct (UnlockWith_runs (E := Code) guess w) as (opens & w' & -> & _ & Hf & _ & _ & _ & Hst & Hv).
    unfold answer, Before in *. rewrite Hb in *. by exists w'.
Qed.

(** ** A closed vault *)

(** Locked, or idle for too long whenever it is looked at. *)
Definition shut (d : Safe) : Prop := password_of d = "" \/ forall n, idle o d (clock_at n).

(** Nothing is served, nothing of the master password is left. *)
Definition shut_out {A} (d : Safe) (r : result Code A) (d' : Safe) : Prop :=
  r = Err CodeVaultLocked /\ password_of d' = "" /\ emptied_box (master (vault d)) d' /\ files d' = files d.

Lemma empty_box d : password_of d = "" -> emptied_box (master (vault d)) d.
Proof.
  unfold password_of, Secret.Reveal. intros Hp i Hi Hlt. rewrite Hi in Hp.
  apply lookup_lt_is_Some_2 in Hlt as [s Hs]. rewrite Hs in Hp |- *. cbn in Hp. by subst s.
Qed.

Lemma locked_empty d : emptied_box (master (vault d)) (locked_down d).
Proof.
  intros i Hi Hlt. cbn in *. rewrite Hi in *. rewrite length_insert in Hlt. by apply list_lookup_insert_eq.
Qed.

Lemma wp_shut (Q : result Code unit -> Safe -> Prop) d :
  shut d -> (forall A d', @shut_out A d (Err locked) d' -> Q (Err locked) d') -> wp (activeLocked o) Q d.
Proof.
  intros Hs HQ. apply wp_activeLocked.
  - intros Hp Hn. by destruct Hs.
  - intros Hp. apply (HQ unit). split_and!; [done|done|by apply empty_box|done].
  - intros n Hp Hidle. apply (HQ unit). split_and!; [done|done|apply locked_empty|done].
Qed.

Lemma wp_shut_opened d : shut d -> wp (opened o) (shut_out d) d.
Proof. intros Hs. unfold opened. wp_steps. apply wp_shut; [done|]. by intros _ d' (_ & ? & ? & ?). Qed.

(** A closed vault serves nothing. Once the vault is locked, or when it has
    been idle for its time at whatever instant it is looked at, fetching, deleting,
    listing and storing end with the one code for that, the vault says it is not
    unlocked, no file has changed, and the box the master password was in is
    empty; and locking makes it so. *)
Theorem shut_vault d :
  (shut d -> forall reference value,
    wp (Get o reference) (shut_out d) d /\ wp (Delete o reference) (shut_out d) d /\ wp (References o) (shut_out d) d /\
    (reference <> "" -> wp (Put o reference value) (shut_out d) d) /\
    wp (IsUnlocked (E := Code) o) (fun r d' => r = Ok false /\ password_of d' = "" /\ emptied_box (master (vault d)) d') d) /\
  wp (Lock (E := Code)) (fun r d' => shut d' /\ emptied_box (master (vault d)) d' /\ files d' = files d) d.
Proof.
  split.
  - intros Hs reference value.
    assert (forall A (f : string * option Entries -> M Safe Code A), wp (opened o ≫= f) (shut_out d) d) as Hbind.
    { intros A f. apply wp_bind. eapply wp_mono; [by apply wp_shut_opened|]. by intros r d' (-> & ? & ? & ?). }
    split_and!; [apply Hbind..| |].
    + intros Hr. unfold Put. wp_steps. rewrite bool_decide_false by done. apply Hbind.
    + unfold IsUnlocked. wp_steps. apply wp_shut; [done|]. intros _ d' (_ & ? & ? & ?). by wp_steps.
  - apply wp_lockLocked. split_and!; [by left|apply locked_empty|done].
Qed.

(** Whether the vault is unlocked is decided by the next reading of the clock. *)
Lemma IsUnlocked_at {E} w : exists b w', IsUnlocked (E := E) o w = (Ok b, w') /\
  (b = true <-> password_of (db w) <> "" /\ ~ idle o (db w) (clock_at (ticks w))).
Proof.
  unfold IsUnlocked, try_, activeLocked, mbind, M_bind, state, Reveal, refuse, of_result, refuse_if.
  fold (password_of (db w)). cbn beta iota. case_bool_decide as Hp.
  { eexists false, _. split; [done|]. split; [done|]. by intros []. }
  unfold idle, IsZero. destruct (Z.eqb_spec (lastActive (vault (db w))) 0) as [Hz|Hz].
  { eexists true, _. split; [done|]. split; [|done]. intros _. split; [done|]. by intros []. }
  cbn [Now]. destruct (Z.leb_spec (IdleTimeout o) (clock_at (ticks w) - lastActive (vault (db w)))).
  - eexists false, _. split; [done|]. split; [done|]. intros [_ Hi]. by destruct Hi.
  - eexists true, _. split; [done|]. split; [|done]. intros _. split; [done|]. intros [_ Hi]. lia.
Qed.
End guessing.
