(* ===== verification/Csv.v ===== *)
(** * encoding/csv: the writer

    What [csv.Writer] writes with its settings as they are: a comma between
    fields, a line feed after a record, quotes around a field that needs them.
    [read] is a reader of such texts; it is not part of the program and shows
    that no field can pass for two, or for a record of its own. *)
From S2P Require Import Prelude GoStr.
From S2P Require Json.
Open Scope Z_scope.

Definition c_comma : ascii := of_byte 44.
Definition c_lf : ascii := of_byte 10.
Definition c_cr : ascii := of_byte 13.
Definition c_quote : ascii := Json.c_quote.

Definition special (c : ascii) : bool := (c ==? c_lf) || (c ==? c_cr) || (c ==? c_quote) || (c ==? c_comma).

Definition fieldNeedsQuotes (field : string) : bool :=
  if field ==? "" then false
  else if field ==? Json.s_back +:+ "." then true
  else str_exists special field || match runes field with r :: _ => is_space r | [] => false end.

(** Quotes inside are doubled. *)
Fixpoint doubled (s : string) : string :=
  match s with
  | "" => ""
  | String c s => if c ==? c_quote then String c_quote (String c_quote (doubled s)) else String c (doubled s)
  end.

Definition field_text (field : string) : string :=
  if fieldNeedsQuotes field then String c_quote (doubled field +:+ String c_quote "") else field.

Definition record_text (record : list string) : string := join (String c_comma "") (map field_text record) +:+ String c_lf "".

(** [Write] of each record, then [Flush]. *)
Definition write (records : list (list string)) : string := concat_str (map record_text records).

(** ** Reading it back *)

(** Where a reader is: before a field, in a bare one, in a quoted one, after a
    quote in a quoted one. *)
Inductive place := Start | Bare | Quoted | AfterQuote.

Fixpoint read_from (p : place) (field : string) (record : list string) (s : string) : option (list (list string)) :=
  match s with
  | "" => if (match p with Start => true | _ => false end) && (record ==? []) then Some [] else None
  | String c s =>
      let ends := 
        if c ==? c_comma then Some (read_from Start "" (record ++ [field]) s)
        else if c ==? c_lf then Some (rest ← read_from Start "" [] s; Some ((record ++ [field]) :: rest))
        else None in
      match p with
      | Start =>
          if c ==? c_quote then read_from Quoted "" record s
          else match ends with Some r => r | None => read_from Bare (String c "") record s end
      | Bare => match ends with Some r => r | None => read_from Bare (field +:+ String c "") record s end
      | Quoted => if c ==? c_quote then read_from AfterQuote field record s else read_from Quoted (field +:+ String c "") record s
      | AfterQuote =>
          if c ==? c_quote then read_from Quoted (field +:+ String c_quote "") record s
          else match ends with Some r => r | None => None end
      end
  end.

Definition read (s : string) : option (list (list string)) := read_from Start "" [] s.

Lemma special_false c : special c = false -> (c ==? c_lf) = false /\ (c ==? c_quote) = false /\ (c ==? c_comma) = false.
Proof. unfold special. intros [[[-> _]%orb_false_iff ->]%orb_false_iff ->]%orb_false_iff. done. Qed.

(** A comma or a line feed: what ends a field. *)
Definition ended (field : string) (record : list string) (c : ascii) (s : string) : option (list (list string)) :=
  if c ==? c_comma then read_from Start "" (record ++ [field]) s
  else rest ← read_from Start "" [] s; Some ((record ++ [field]) :: rest).

Definition ends_field (c : ascii) : Prop := c = c_comma \/ c = c_lf.

Lemma read_bare field w record c s :
  ends_field c -> str_exists special w = false ->
  read_from Bare field record (w +:+ String c s) = ended (field +:+ w) record c s.
Proof.
  intros Hc. revert field. induction w as [|d w IH]; intros field Hw.
  - rewrite str_app_nil_r. cbn [String.append read_from]. unfold ended. by destruct Hc as [-> | ->].
  - cbn [str_exists] in Hw. apply orb_false_iff in Hw as [Hd Hw]. destruct (special_false d Hd) as (Hl & _ & Hm).
    rewrite str_app_cons. cbn [read_from]. rewrite Hl, Hm, IH by done. by rewrite <- str_app_assoc.
Qed.

Lemma read_quoted field w record c s :
  ends_field c -> read_from Quoted field record (doubled w +:+ String c_quote (String c s)) = ended (field +:+ w) record c s.
Proof.
  intros Hc. revert field. induction w as [|d w IH]; intros field.
  - rewrite str_app_nil_r. cbn [doubled String.append read_from]. unfold ended. by destruct Hc as [-> | ->].
  - cbn [doubled]. case_bool_decide as Hd; rewrite !str_app_cons; cbn [read_from].
    + rewrite IH, <- str_app_assoc. by subst d.
    + rewrite bool_decide_false by done. by rewrite IH, <- str_app_assoc.
Qed.

Lemma read_field field record c s :
  ends_field c -> read_from Start "" record (field_text field +:+ String c s) = ended field record c s.
Proof.
  intros Hc. unfold field_text. destruct (fieldNeedsQuotes field) eqn:En.
  - rewrite str_app_cons, <- str_app_assoc. cbn [read_from String.append]. rewrite bool_decide_true by done.
    by apply (read_quoted "").
  - unfold fieldNeedsQuotes in En. destruct field as [|d w].
    + cbn [String.append read_from]. unfold ended. by destruct Hc as [-> | ->].
    + rewrite bool_decide_false in En by done. destruct (_ ==? Json.s_back +:+ "."); [done|].
      apply orb_false_iff in En as [En _]. cbn [str_exists] in En. apply orb_false_iff in En as [Hd Hw].
      destruct (special_false d Hd) as (Hl & Hq & Hm). rewrite str_app_cons. cbn [read_from]. rewrite Hl, Hq, Hm.
      by rewrite read_bare.
Qed.

Lemma read_record l field record s :
  read_from Start "" record (join (String c_comma "") (map field_text (field :: l)) +:+ String c_lf s) =
    (rest ← read_from Start "" [] s; Some ((record ++ field :: l) :: rest)).
Proof.
  revert field record. induction l as [|next l IH]; intros field record.
  - cbn [map join]. rewrite read_field by by right. done.
  - change (join (String c_comma "") (map field_text (field :: next :: l))) with
      (field_text field +:+ String c_comma "" +:+ join (String c_comma "") (map field_text (next :: l))).
    rewrite <- !str_app_assoc, str_app_cons, str_app_nil_l. rewrite read_field by by left. unfold ended.
    rewrite bool_decide_true by done. rewrite IH. by rewrite <- app_assoc.
Qed.

(** Written records are read back as they were. *)
Lemma read_write records : Forall (fun r => r <> []) records -> read (write records) = Some records.
Proof.
  unfold read, write. induction 1 as [|record records Hr _ IH]; [done|]. cbn [map concat_str foldr].
  change (foldr String.append "" (map record_text records)) with (concat_str (map record_text records)).
  unfold record_text at 1. rewrite <- str_app_assoc, str_app_cons, str_app_nil_l.
  destruct record as [|field l]; [done|]. by rewrite read_record, IH.
Qed.
