(* ===== verification/ConsoleViews.v ===== *)
(** * transport/httpapi: what the console is shown (views.go, ledger.go, announce.go)

    Rows never leave as they are: each has a view, a list of named fields in the
    order of the Go struct. [marshal] is what encoding/json makes of one; stored
    JSON goes out as it stands and is checked on the way. No view has a place for
    a credential. *)
From S2P Require Import Prelude GoStr Apperr GoTime World.
From S2P Require Json.
From S2P Require Import RawJson.
From S2P Require Url.
From S2P Require Request Decision Approval Lease Matcher Trust Ledger Agent Settings.
Open Scope Z_scope.

(** ** Views *)

Unset Elimination Schemes.
Inductive view :=
| Text (s : string)
| Number (n : Z)
| Flag (b : bool)
| Raw (message : string)
| Null
| Items (l : list view)
| Fields (l : list (string * view)).
Set Elimination Schemes.

(** [json.Marshal]: it fails on a raw message that is not JSON. *)
Fixpoint marshal (v : view) : option string :=
  match v with
  | Text s => Some (Json.quote s)
  | Number n => Some (itoa n)
  | Flag b => Some (if b then "true" else "false")
  | Raw message => marshal_raw message
  | Null => Some "null"
  | Items l =>
      items ← (fix go l := match l with
        | [] => Some []
        | v :: l => text ← marshal v; rest ← go l; Some (text :: rest)
        end) l;
      Some ("[" +:+ join "," items +:+ "]")
  | Fields l =>
      members ← (fix go l := match l with
        | [] => Some []
        | (name, v) :: l => text ← marshal v; rest ← go l; Some ((Json.quote name +:+ ":" +:+ text) :: rest)
        end) l;
      Some ("{" +:+ join "," members +:+ "}")
  end.

Definition or_null {A} (f : A -> view) (o : option A) : view := match o with Some a => f a | None => Null end.

Definition Texts (l : list string) : view := Items (map Text l).

(** [formatTime]: UTC with milliseconds, as the columns have it. *)
Definition formatTime (instant : Z) : string := encodeTime instant.

Definition formatOptionalTime (instant : Z) : string := if IsZero instant then "" else formatTime instant.

Definition rawJSON (stored : string) : view := if stored ==? "" then Raw "null" else Raw stored.

Definition listEnvelope (items : list view) (cursor : string) : view :=
  Fields [("items", Items items); ("next_cursor", Text cursor)].

(** ** Requests, decisions, approvals, leases *)

Definition decisionView (record : Decision.Decision) : view :=
  Fields [("id", Text (Decision.ID record)); ("verdict", Text (Decision.d_Verdict record));
    ("risk_level", Text (Decision.RiskLevel record)); ("risk_factors", rawJSON (Decision.RiskFactors record));
    ("identity_id", Text (Decision.d_IdentityID record)); ("match_level", Text (Decision.d_MatchLevel record));
    ("resolved_scope", rawJSON (Decision.ResolvedScope record));
    ("approval_requirement", Text (Decision.d_ApprovalRequirement record));
    ("reason_code", Text (Decision.ReasonCode record)); ("trust_memory_id", Text (Decision.TrustMemoryID record));
    ("created_at", Text (formatTime (Decision.CreatedAt record)))].

(** The decision without the requirement; a view is made once more from it. *)
Definition hideStrongAuth (record : Decision.Decision) : Decision.Decision :=
  {| Decision.ID := Decision.ID record; Decision.CapabilityRequestID := Decision.CapabilityRequestID record;
     Decision.d_Verdict := Decision.d_Verdict record; Decision.RiskLevel := Decision.RiskLevel record;
     Decision.RiskFactors := Decision.RiskFactors record; Decision.d_IdentityID := Decision.d_IdentityID record;
     Decision.d_MatchLevel := Decision.d_MatchLevel record; Decision.ResolvedScope := Decision.ResolvedScope record;
     Decision.d_ApprovalRequirement := ""; Decision.ReasonCode := Decision.ReasonCode record;
     Decision.TrustMemoryID := Decision.TrustMemoryID record; Decision.CreatedAt := Decision.CreatedAt record |}.

Definition requestView (request : Request.CapabilityRequest) (record : option Decision.Decision) (withheld : list string) : view :=
  Fields [("id", Text (Request.ID request)); ("operation_id", Text (Request.OperationID request));
    ("agent_id", Text (Request.AgentID request)); ("workspace_id", Text (Request.WorkspaceID request));
    ("service", Text (Request.Service request)); ("operation", Text (Request.Operation request));
    ("resource", rawJSON (Request.Resource request)); ("desired_change", rawJSON (Request.DesiredChange request));
    ("change_preview", rawJSON (Request.ChangePreview request)); ("reason", Text (Request.Reason request));
    ("status", Text (Request.Status request)); ("withheld_operations", Texts withheld);
    ("created_at", Text (formatTime (Request.CreatedAt request)));
    ("updated_at", Text (formatTime (Request.UpdatedAt request))); ("decision", or_null decisionView record)].

(** From the operations a service declares, the others. *)
Definition withheldOperations (declared : list string) (granted : string) : list string :=
  filter (fun operation => operation <> granted) declared.

Definition approvalView (item : Approval.Approval) (actions : list string) (request : view)
    (record : option Decision.Decision) : view :=
  Fields [("id", Text (Approval.ID item)); ("decision_id", Text (Approval.DecisionID item));
    ("status", Text (Approval.Status item)); ("action", Text (Approval.Action item));
    ("expires_at", Text (formatTime (Approval.ExpiresAt item)));
    ("decided_at", Text (formatOptionalTime (Approval.DecidedAt item)));
    ("created_at", Text (formatTime (Approval.CreatedAt item))); ("available_actions", Texts actions);
    ("request", request); ("decision", or_null decisionView record)].

(** No limit is [null], not zero. *)
Definition leaseView (issued : Lease.Lease) : view :=
  Fields [("id", Text (Lease.ID issued)); ("agent_id", Text (Lease.AgentID issued));
    ("identity_id", Text (Lease.IdentityID issued)); ("service", Text (Lease.Service issued));
    ("resource_scope", rawJSON (Lease.ResourceScope issued)); ("capabilities", rawJSON (Lease.Capabilities issued));
    ("expires_at", Text (formatTime (Lease.ExpiresAt issued)));
    ("request_limit", if Lease.RequestLimit issued =? Lease.Unlimited then Null else Number (Lease.RequestLimit issued));
    ("used_requests", Number (Lease.UsedRequests issued)); ("status", Text (Lease.Status issued));
    ("approval_id", Text (Lease.ApprovalID issued)); ("source_memory_id", Text (Lease.SourceMemoryID issued));
    ("is_session_bound", Flag (Lease.IsSessionBound issued));
    ("created_at", Text (formatTime (Lease.CreatedAt issued))); ("updated_at", Text (formatTime (Lease.UpdatedAt issued)))].

(** ** Identities, memories, agents *)

Definition identityView (identity : Matcher.Identity) : view :=
  Fields [("id", Text (Matcher.ID identity)); ("service", Text (Matcher.Service identity));
    ("account_label", Text (Matcher.AccountLabel identity)); ("environment", Text (Matcher.Environment identity));
    ("is_default", Flag (Matcher.IsDefault identity)); ("status", Text (Matcher.Status identity));
    ("credential_reference_id", Text (Matcher.CredentialReferenceID identity));
    ("created_at", Text (formatTime (Matcher.CreatedAt identity)));
    ("updated_at", Text (formatTime (Matcher.UpdatedAt identity)))].

Definition memoryView (memory : Trust.Memory) : view :=
  Fields [("id", Text (Trust.ID memory)); ("agent_id", Text (Trust.AgentID memory));
    ("workspace_id", Text (Trust.WorkspaceID memory)); ("identity_id", Text (Trust.IdentityID memory));
    ("service", Text (Trust.Service memory)); ("resource_scope", rawJSON (Trust.ResourceScope memory));
    ("capability_scope", rawJSON (Trust.CapabilityScope memory)); ("environment", Text (Trust.Environment memory));
    ("risk_ceiling", Text (Trust.RiskCeiling memory)); ("approval_behavior", Text (Trust.Behavior memory));
    ("created_from", Text (Trust.CreatedFrom memory)); ("status", Text (Trust.Status memory));
    ("invalidation_reason", Text (Trust.InvalidationReason memory));
    ("last_used_at", Text (formatOptionalTime (Trust.LastUsedAt memory)));
    ("expires_at", Text (formatTime (Trust.ExpiresAt memory))); ("created_at", Text (formatTime (Trust.CreatedAt memory)));
    ("updated_at", Text (formatTime (Trust.UpdatedAt memory)))].

(** Twelve characters of a digest, without the name of its algorithm. *)
Definition shortDigest (hash : string) : string :=
  let digest := match Url.cut ":"%char hash with (_, rest, true) => rest | _ => hash end in
  take_str 12 digest.

Definition agentView (agent : Agent.Agent) : view :=
  Fields [("id", Text (Agent.ID agent)); ("name", Text (Agent.Name agent)); ("type", Text (Agent.Type_ agent));
    ("version", Text (Agent.Version agent)); ("device_id", Text (Agent.DeviceID agent));
    ("workspace_id", Text (Agent.WorkspaceID agent)); ("executable_path", Text (Agent.ExecutablePath agent));
    ("executable_digest", Text (shortDigest (Agent.ExecutableHash agent))); ("os_user", Text (Agent.OSUser agent));
    ("trust_level", Text (Agent.TrustLevel agent)); ("status", Text (Agent.Status agent));
    ("started_at", Text (formatTime (Agent.StartedAt agent)));
    ("session_expires_at", Text (formatTime (Agent.SessionExpiresAt agent)));
    ("last_seen_at", Text (formatOptionalTime (Agent.LastSeenAt agent)));
    ("created_at", Text (formatTime (Agent.CreatedAt agent)))].

(** ** Preferences and the vault *)

(** The settings that need a restart, of platform/config. *)
Record BootConfig := {
  ListenAddress : string;
  WebAPIPort : Z;
  AgentProxyPort : Z;
  MCPPort : Z;
  LogLevel : string;
}.

Definition preferencesView (current : Settings.Preferences) (boot : BootConfig) (warnings : list string) : view :=
  Fields [("automation_mode", Text (Settings.AutomationMode current));
    ("approval_timeout_seconds", Number (Z.quot (Settings.ApprovalTimeout current) Second));
    ("read_only_auto_allow", Flag (Settings.ReadOnlyAutoAllow current)); ("theme", Text (Settings.Theme current));
    ("language", Text (Settings.Language current));
    ("restart_required", Fields [("listen_address", Text (ListenAddress boot)); ("web_api_port", Number (WebAPIPort boot));
       ("agent_proxy_port", Number (AgentProxyPort boot)); ("mcp_port", Number (MCPPort boot)); ("log_level", Text (LogLevel boot))]);
    ("warnings", Texts warnings)].

Definition vaultView (unlocked : bool) : view := Fields [("unlocked", Flag unlocked)].

(** ** The ledger, shown and exported *)

(** [Duration.Milliseconds] rounds towards zero. *)
Definition milliseconds (duration : Z) : Z := Z.quot duration Millisecond.

(** The fields of an event's view, which are also the columns of its row. *)
Definition auditEventFields (event : Ledger.Event) : list (string * view) :=
  [("id", Text (Ledger.ID event)); ("operation_id", Text (Ledger.OperationID event)); ("type", Text (Ledger.Type_ event));
   ("agent_id", Text (Ledger.AgentID event)); ("device_id", Text (Ledger.DeviceID event));
   ("workspace_id", Text (Ledger.WorkspaceID event)); ("identity_id", Text (Ledger.IdentityID event));
   ("service", Text (Ledger.Service event)); ("operation", Text (Ledger.Operation event));
   ("resource", rawJSON (Ledger.Resource event)); ("resolved_scope", rawJSON (Ledger.ResolvedScope event));
   ("verdict", Text (Ledger.Verdict event)); ("risk_level", Text (Ledger.RiskLevel event));
   ("decision_id", Text (Ledger.DecisionID event)); ("approval_id", Text (Ledger.ApprovalID event));
   ("lease_id", Text (Ledger.LeaseID event)); ("lease_status", Text (Ledger.LeaseStatus event));
   ("outcome", Text (Ledger.Outcome event)); ("response_status", Number (Ledger.ResponseStatus event));
   ("duration_ms", Number (milliseconds (Ledger.Duration event))); ("is_redacted", Flag (Ledger.IsRedacted event));
   ("metadata", rawJSON (Ledger.Metadata event)); ("created_at", Text (formatTime (Ledger.CreatedAt event)))].

Definition auditEventView (event : Ledger.Event) : view := Fields (auditEventFields event).

Definition csvColumns : list string :=
  ["id"; "operation_id"; "type"; "agent_id"; "device_id"; "workspace_id"; "identity_id"; "service"; "operation"; "resource";
   "resolved_scope"; "verdict"; "risk_level"; "decision_id"; "approval_id"; "lease_id"; "lease_status"; "outcome";
   "response_status"; "duration_ms"; "is_redacted"; "metadata"; "created_at"].

(** [rawJSON] of a column, as text. *)
Definition raw_text (stored : string) : string := if stored ==? "" then "null" else stored.

Definition row (event : Ledger.Event) : list string :=
  [Ledger.ID event; Ledger.OperationID event; Ledger.Type_ event; Ledger.AgentID event; Ledger.DeviceID event;
   Ledger.WorkspaceID event; Ledger.IdentityID event; Ledger.Service event; Ledger.Operation event;
   raw_text (Ledger.Resource event); raw_text (Ledger.ResolvedScope event); Ledger.Verdict event; Ledger.RiskLevel event;
   Ledger.DecisionID event; Ledger.ApprovalID event; Ledger.LeaseID event; Ledger.LeaseStatus event; Ledger.Outcome event;
   itoa (Ledger.ResponseStatus event); itoa (milliseconds (Ledger.Duration event));
   if Ledger.IsRedacted event then "true" else "false"; raw_text (Ledger.Metadata event); formatTime (Ledger.CreatedAt event)].

Definition nextCursor (events : list Ledger.Event) : string :=
  match last events with None => "" | Some event => formatTime (Ledger.CreatedAt event) end.
