(* ===== verification/Events.v ===== *)
(** * transport/httpapi: the events of an open console (events.go)

    A broker hands every event to the subscribers that have room for it and never
    waits: a console that does not read loses events, and nobody else does. Over
    the wire the events are server-sent events; after each comes an empty comment
    frame, and in silence a comment now and then. *)
From S2P Require Import Prelude GoStr Apperr GoTime World.
From S2P Require Json.
From S2P Require Import RawJson ConsoleViews.
Open Scope Z_scope.

Definition EventArrival : string := "arrival".
Definition EventPassage : string := "passage".
Definition EventLease : string := "lease".
Definition EventGateway : string := "gateway".

Definition subscriberBuffer : nat := 32.
Definition retryHint : Z := 2000.

(** [Data] is the text of a view. *)
Record Event := { e_Type : string; e_Data : string; e_At : string }.

(** The channel of a subscriber: what was sent and not received, and whether it is
    still subscribed; a channel that was closed can be read to its end. *)
Record Stream := { waiting : list Event; subscribed : bool }.

Record Broker := { streams : gmap nat Stream; next : nat; closed : bool }.

Definition NewBroker : Broker := {| streams := ∅; next := 0; closed := false |}.

(** The [select] of [Publish] for one subscriber. *)
Definition offer (event : Event) (s : Stream) : Stream :=
  if subscribed s && (length (waiting s) <? subscriberBuffer)%nat
  then {| waiting := waiting s ++ [event]; subscribed := true |} else s.

Definition Publish (event : Event) (b : Broker) : Broker :=
  if closed b then b else {| streams := offer event <$> streams b; next := next b; closed := closed b |}.

(** A closed channel is handed out, [None], when the broker is closed. *)
Definition Subscribe (b : Broker) : option nat * Broker :=
  if closed b then (None, b)
  else (Some (next b), {| streams := <[next b := {| waiting := []; subscribed := true |}]> (streams b);
                          next := S (next b); closed := closed b |}).

Definition shut (s : Stream) : Stream := {| waiting := waiting s; subscribed := false |}.

Definition unsubscribe (id : nat) (b : Broker) : Broker :=
  {| streams := alter shut id (streams b); next := next b; closed := closed b |}.

Definition Close (b : Broker) : Broker :=
  if closed b then b else {| streams := shut <$> streams b; next := next b; closed := true |}.

Definition Subscribers (b : Broker) : nat := size (filter (fun kv => subscribed kv.2 = true) (streams b)).

(** [event, open := <-events]: an event, nothing yet, or the end. *)
Inductive delivery := Received (event : Event) | Waiting | Ended.

Definition receive (id : nat) (b : Broker) : delivery * Broker :=
  match streams b !! id with
  | None => (Ended, b)
  | Some s =>
      match waiting s with
      | event :: rest =>
          (Received event, {| streams := <[id := {| waiting := rest; subscribed := subscribed s |}]> (streams b);
                              next := next b; closed := closed b |})
      | [] => (if subscribed s then Waiting else Ended, b)
      end
  end.

(** [publishView]: what cannot be encoded is not sent. *)
Definition publishView (eventType : string) (v : view) (now : Z) (b : Broker) : Broker :=
  match marshal v with
  | Some payload => Publish {| e_Type := eventType; e_Data := payload; e_At := formatTime now |} b
  | None => b
  end.

(** ** On the wire *)

Definition LF : string := String (of_byte 10) "".

Definition event_view (event : Event) : view :=
  Fields [("type", Text (e_Type event)); ("data", Raw (e_Data event)); ("at", Text (e_At event))].

Definition writeEvent (event : Event) : option string :=
  payload ← marshal (event_view event);
  Some ("event: " +:+ e_Type event +:+ LF +:+ "data: " +:+ payload +:+ LF +:+ LF).

Definition hello : string := "retry: " +:+ itoa retryHint +:+ LF +:+ LF.
Definition nudge : string := ":" +:+ LF +:+ LF.
Definition keepAlive : string := ": keep-alive" +:+ LF +:+ LF.

(** The loop of [pump], which takes whatever is ready: [pumped tail events output]
    when these events were taken from the channel and this was written, with the
    comment after an event still to come or not. *)
Inductive pumped : bool -> list Event -> string -> Prop :=
| pump_start : pumped false [] hello
| pump_tail events output : pumped true events output -> pumped false events (output +:+ nudge)
| pump_event tail events output event frame :
    pumped tail events output -> writeEvent event = Some frame -> pumped true (events ++ [event]) (output +:+ frame)
| pump_heartbeat tail events output : pumped tail events output -> pumped tail events (output +:+ keepAlive).

(** What an [EventSource] makes of such a text without carriage returns: the type
    and the data of each message, sent at the blank line after it. *)
Module Source.
Record state := { kind : string; data : option string; messages : list (string * string) }.

Definition start : state := {| kind := ""; data := None; messages := [] |}.

Definition value_of (line : string) (field : string) : option string :=
  if has_prefix line (field +:+ ":") then
    let rest := drop_str (String.length field + 1) line in
    Some (if has_prefix rest " " then drop_str 1 rest else rest)
  else None.

Definition line (s : state) (text : string) : state :=
  if text ==? "" then
    match data s with
    | Some d => {| kind := ""; data := None; messages := messages s ++ [(kind s, d)] |}
    | None => {| kind := ""; data := None; messages := messages s |}
    end
  else match value_of text "event", value_of text "data" with
  | Some v, _ => {| kind := v; data := data s; messages := messages s |}
  | None, Some v =>
      {| kind := kind s; data := Some (match data s with Some d => d +:+ LF +:+ v | None => v end); messages := messages s |}
  | None, None => s
  end.

(** A line counts when its end has come. *)
Definition read (text : string) : list (string * string) :=
  messages (fold_left line (removelast (split_on (of_byte 10) text)) start).
End Source.

(** ** Encoded text has no control characters *)

Definition control (c : ascii) : bool := byte_of c <? 32.

Definition plain (s : string) : Prop := str_exists control s = false.

Lemma plain_app a b : plain (a +:+ b) <-> plain a /\ plain b.
Proof. unfold plain. rewrite str_exists_app. apply orb_false_iff. Qed.

Lemma plain_cons c s : plain (String c s) <-> control c = false /\ plain s.
Proof. unfold plain. cbn [str_exists]. apply orb_false_iff. Qed.

Lemma plain_join sep l : plain sep -> Forall plain l -> plain (join sep l).
Proof.
  intros Hs Hl. induction Hl as [|x l Hx Hl IH]; [done|]. destruct l as [|y l]; [done|]. cbn [join].
  rewrite !plain_app. auto.
Qed.

Lemma is_hex_plain c : Json.is_hex c = true -> control c = false.
Proof.
  unfold Json.is_hex, control. intros H%bool_decide_eq_true. apply Z.ltb_ge. revert H.
  unfold Json.hex_value, in_range. intros [n Hn]. repeat case_match; bools; (lia || done).
Qed.

Lemma simple_escape_plain c : Json.simple_escape c = true -> control c = false.
Proof.
  unfold Json.simple_escape, control. cbv zeta. intros H. apply Z.ltb_ge. bools; lia.
Qed.

Lemma lcons_plain c o w r :
  Json.lcons c o = Some (w, r) -> control c = false -> (forall w r, o = Some (w, r) -> plain w) -> plain w.
Proof. intros (v & -> & ->)%Json.lcons_Some Hc Ho. apply plain_cons. eauto. Qed.

Lemma lex_str_plain s w r : Json.lex_str s = Some (w, r) -> plain w.
Proof.
  remember (String.length s) as n eqn:Hn. revert s w r Hn.
  induction n as [n IH] using lt_wf_ind. intros [|c s] w r -> H; [done|]. cbn [Json.lex_str] in H.
  destruct (byte_of c =? 34); [by simplify_eq|].
  destruct (byte_of c =? 92) eqn:Ec.
  - assert (control c = false) as Hc by (unfold control; bools; lia).
    destruct s as [|e s]; [done|]. destruct (Json.simple_escape e) eqn:Ee.
    { apply simple_escape_plain in Ee. eapply lcons_plain; [done|done|]. intros. eapply lcons_plain; [done|done|].
      intros. eapply (IH (String.length s)); [cbn; lia|done|done]. }
    destruct (byte_of e =? 117) eqn:Eu; [|done].
    assert (control e = false) as He by (unfold control; bools; lia).
    destruct s as [|h1 [|h2 [|h3 [|h4 s]]]]; try done.
    destruct (_ && _) eqn:Eh; [|done]. bools.
    repeat (eapply lcons_plain; [done|by (done || apply is_hex_plain)|]; intros).
    eapply (IH (String.length s)); [cbn; lia|done|done].
  - destruct (byte_of c <? 32) eqn:El; [done|]. eapply lcons_plain; [done|done|].
    intros. eapply (IH (String.length s)); [cbn; lia|done|done].
Qed.

Lemma digit_plain c : Json.is_digit c = true -> control c = false.
Proof. unfold Json.is_digit, in_range, control. intros. apply Z.ltb_ge. bools; lia. Qed.

Lemma lex_digits_plain s : plain (Json.lex_digits s).1.
Proof.
  induction s as [|c s IH]; [done|]. cbn [Json.lex_digits]. destruct (Json.is_digit c) eqn:E; [|done].
  destruct (Json.lex_digits s) as [w rest]. apply plain_cons. by split; [apply digit_plain|].
Qed.

Lemma lex_digits1_plain s w r : Json.lex_digits1 s = Some (w, r) -> plain w.
Proof.
  unfold Json.lex_digits1. pose proof (lex_digits_plain s) as Hp. destruct (Json.lex_digits s) as [[|c v] rest]; [done|].
  by intros [= <- <-].
Qed.

Lemma lex_int_plain s w r : Json.lex_int s = Some (w, r) -> plain w.
Proof.
  destruct s as [|c s]; [done|]. unfold Json.lex_int. destruct (byte_of c =? 48) eqn:E; [|apply lex_digits1_plain].
  intros [= <- <-]. apply plain_cons. split; [unfold control; bools; lia|done].
Qed.

Lemma lex_frac_plain s w r : Json.lex_frac s = Some (w, r) -> plain w.
Proof.
  destruct s as [|c s]; unfold Json.lex_frac; [by intros [= <- <-]|]. destruct (byte_of c =? 46) eqn:E; [|by intros [= <- <-]].
  destruct (Json.lex_digits1 s) as [[v rest]|] eqn:El; [|done]. intros [= <- <-]. apply plain_cons.
  split; [unfold control; bools; lia|by eapply lex_digits1_plain].
Qed.

Lemma lex_exp_plain s w r : Json.lex_exp s = Some (w, r) -> plain w.
Proof.
  destruct s as [|c s]; unfold Json.lex_exp; [by intros [= <- <-]|].
  destruct ((byte_of c =? 101) || (byte_of c =? 69)) eqn:E; [|by intros [= <- <-]].
  assert (control c = false) as Hc by (apply orb_true_iff in E; unfold control; apply Z.ltb_ge; destruct E; bools; lia).
  set (signed := match s with "" => _ | _ => _ end).
  assert (plain signed.1) as Hs.
  { unfold signed. destruct s as [|d s]; [done|]. destruct ((byte_of d =? 43) || (byte_of d =? 45)) eqn:Ed; [|done].
    apply plain_cons. split; [|done]. apply orb_true_iff in Ed. unfold control. apply Z.ltb_ge. destruct Ed; bools; lia. }
  destruct signed as [sign r1]. destruct (Json.lex_digits1 r1) as [[v rest]|] eqn:El; [|done]. intros [= <- <-].
  apply plain_cons. split; [done|]. apply plain_app. split; [done|by eapply lex_digits1_plain].
Qed.

Lemma lex_num_plain s w r : Json.lex_num s = Some (w, r) -> plain w.
Proof.
  unfold Json.lex_num. set (signed := match s with "" => _ | _ => _ end).
  assert (plain signed.1) as Hs.
  { unfold signed. destruct s as [|d s']; [done|]. destruct (byte_of d =? 45) eqn:Ed; [|done].
    apply plain_cons. split; [unfold control; bools; lia|done]. }
  destruct signed as [sign s0]. destruct (Json.lex_int s0) as [[i s1]|] eqn:Ei; [|done].
  destruct (Json.lex_frac s1) as [[f s2]|] eqn:Ef; [|done]. destruct (Json.lex_exp s2) as [[e s3]|] eqn:Ee; [|done].
  intros [= <- <-]. rewrite !plain_app. split_and!; [done|by eapply lex_int_plain|by eapply lex_frac_plain|by eapply lex_exp_plain].
Qed.

Lemma quoted_plain w : plain w -> plain (Json.s_quote +:+ w +:+ Json.s_quote).
Proof. intros Hw. rewrite !plain_app. by split_and!. Qed.

(** The members of an object, printed. *)
Definition member_text (kv : string * Json.json) : string :=
  Json.s_quote +:+ kv.1 +:+ Json.s_quote +:+ ":" +:+ Json.print kv.2.

Lemma member_plain key v : plain key -> plain (Json.print v) -> plain (member_text (key, v)).
Proof. intros Hk Hv. unfold member_text. cbn. rewrite !plain_app. by split_and!. Qed.

Lemma parse_plain n :
  (forall depth s v r, Json.parse_value n depth s = Some (v, r) -> plain (Json.print v)) /\
  (forall depth s l r, Json.parse_items n depth s = Some (l, r) -> Forall (fun v => plain (Json.print v)) l) /\
  (forall depth s l r, Json.parse_fields n depth s = Some (l, r) -> Forall (fun kv => plain (member_text kv)) l).
Proof.
  induction n as [|n (IHv & IHi & IHf)]; [done|]. split_and!; intros depth s v r Hp.
  - cbn [Json.parse_value] in Hp. destruct (Json.skip_ws s) as [|c t]; [done|]. cbv zeta in Hp.
    destruct (byte_of c =? 34).
    { destruct (Json.lex_str t) as [[w rest]|] eqn:E; simplify_eq. cbn. eapply quoted_plain, lex_str_plain, E. }
    destruct (byte_of c =? 91).
    { destruct (Json.max_nesting <=? depth); [done|]. destruct (Json.skip_ws t) as [|d rest]; [done|].
      destruct (byte_of d =? 93); [by simplify_eq|]. destruct (Json.parse_items _ _ _) as [[l rest1]|] eqn:Ei; simplify_eq.
      apply IHi in Ei. cbn [Json.print]. rewrite !plain_app. split_and!; [done| |done]. apply plain_join; [done|].
      by apply Forall_fmap. }
    destruct (byte_of c =? 123).
    { destruct (Json.max_nesting <=? depth); [done|]. destruct (Json.skip_ws t) as [|d rest]; [done|].
      destruct (byte_of d =? 125); [by simplify_eq|]. destruct (Json.parse_fields _ _ _) as [[l rest1]|] eqn:Ei; simplify_eq.
      apply IHf in Ei. cbn [Json.print]. rewrite !plain_app. split_and!; [done| |done]. apply plain_join; [done|].
      by apply Forall_fmap. }
    unfold Json.lex_word in Hp. destruct (byte_of c =? 116); [by case_match; simplify_eq|].
    destruct (byte_of c =? 102); [by case_match; simplify_eq|]. destruct (byte_of c =? 110); [by case_match; simplify_eq|].
    destruct (Json.lex_num _) as [[w rest]|] eqn:E; simplify_eq. cbn. by eapply lex_num_plain.
  - cbn [Json.parse_items] in Hp. destruct (Json.parse_value n depth s) as [[x rest]|] eqn:Ev; [|done].
    apply IHv in Ev. destruct (Json.skip_ws rest) as [|c t]; [done|].
    destruct (byte_of c =? 93); [simplify_eq; by constructor|]. destruct (byte_of c =? 44); [|done].
    destruct (Json.parse_items n depth t) as [[l rest1]|] eqn:Ei; simplify_eq. constructor; [done|by eapply IHi].
  - cbn [Json.parse_fields] in Hp. destruct (Json.skip_ws s) as [|q t]; [done|].
    destruct (byte_of q =? 34); [|done]. destruct (Json.lex_str t) as [[key rest]|] eqn:Ek; [|done].
    apply lex_str_plain in Ek. destruct (Json.skip_ws rest) as [|k t1]; [done|]. destruct (byte_of k =? 58); [|done].
    destruct (Json.parse_value n depth t1) as [[x rest1]|] eqn:Ev; [|done]. apply IHv in Ev.
    destruct (Json.skip_ws rest1) as [|c t2]; [done|].
    destruct (byte_of c =? 125); [simplify_eq; by repeat constructor; apply member_plain|]. destruct (byte_of c =? 44); [|done].
    destruct (Json.parse_fields n depth t2) as [[l rest2]|] eqn:Ei; simplify_eq. constructor; [by apply member_plain|by eapply IHf].
Qed.

Lemma escape_plain s : plain s -> plain (escape_html s).
Proof.
  remember (String.length s) as n eqn:Hn. revert s Hn. induction n as [n IH] using lt_wf_ind.
  intros [|a s] -> Hs; [done|]. apply plain_cons in Hs as [Ha Hs].
  assert (plain (escape_html s)) as Hr by (apply (IH (String.length s)); [cbn; lia|done|done]).
  assert (forall n, 0 <= n < 16 -> control (Json.hex_digit n) = false) as Hhex.
  { intros k Hk. unfold control, Json.hex_digit. apply Z.ltb_ge. destruct (k <? 10) eqn:E; rewrite byte_of_of; bools; lia. }
  pose proof (byte_of_range a) as Hb.
  cbn [escape_html]. case_bool_decide.
  - rewrite !plain_app. split_and!; [done|done|]. rewrite !plain_cons. split_and!; [| |done].
    + apply Hhex. split; [apply Z.div_pos; lia|apply Z.div_lt_upper_bound; lia].
    + apply Hhex, Z.mod_pos_bound. lia.
  - destruct s as [|b [|c s]]; try by apply plain_cons. destruct (_ && _); [|by apply plain_cons].
    rewrite !plain_app. split; [done|]. split; [done|]. apply plain_cons. split.
    + apply Hhex, Z.mod_pos_bound. lia.
    + apply (IH (String.length s)); [cbn; lia|done|]. by apply plain_cons in Hs as [_ [_ ?]%plain_cons].
Qed.

Lemma quote_plain s : plain (Json.quote s).
Proof. apply quoted_plain. eapply lex_str_plain, Json.quote_body_raw. Qed.

Lemma digits_plain s : all_digits s = true -> plain s.
Proof.
  induction s as [|c s IH]; [done|]. cbn [all_digits]. intros [Hc Hs]%andb_true_iff. apply plain_cons. split; [|auto].
  unfold control, in_range in *. apply Z.ltb_ge. bools; lia.
Qed.

Lemma itoa_plain n : plain (itoa n).
Proof.
  unfold itoa. destruct (n <? 0) eqn:E; bools; [apply plain_app; split; [done|]|]; apply digits_plain, utoa_digits; lia.
Qed.

Lemma raw_plain message text : marshal_raw message = Some text -> plain text.
Proof.
  unfold marshal_raw. case_bool_decide; [by intros [= <-]|]. unfold Json.parse.
  destruct (Json.parse_value _ _ _) as [[v rest]|] eqn:E; [|done]. case_bool_decide; [|done]. intros [= <-].
  by eapply escape_plain, parse_plain.
Qed.

Lemma marshal_plain (v : view) text : marshal v = Some text -> plain text.
Proof.
  revert v text. fix IH 1. intros [s|n|b|message| |l|l] text; cbn [marshal].
  - intros [= <-]. apply quote_plain.
  - intros [= <-]. apply itoa_plain.
  - intros [= <-]. by destruct b.
  - apply raw_plain.
  - by intros [= <-].
  - intros (items & Hi & [= <-])%bind_Some. rewrite !plain_app. split_and!; [done| |done]. apply plain_join; [done|].
    revert items Hi. induction l as [|v l IHl]; intros items; [by intros [= <-]|].
    intros (x & Hx & (rest & Hr & [= <-])%bind_Some)%bind_Some. constructor; [by eapply IH|auto].
  - intros (items & Hi & [= <-])%bind_Some. rewrite !plain_app. split_and!; [done| |done]. apply plain_join; [done|].
    revert items Hi. induction l as [|[name v] l IHl]; intros items; [by intros [= <-]|].
    intros (x & Hx & (rest & Hr & [= <-])%bind_Some)%bind_Some. constructor; [|auto].
    rewrite !plain_app. split_and!; [apply quote_plain|done|by eapply IH].
Qed.

Lemma plain_no_break s c : plain s -> byte_of c < 32 -> str_exists (fun d => d ==? c) s = false.
Proof.
  intros Hs Hc. induction s as [|d s IH]; [done|]. apply plain_cons in Hs as [Hd Hs]. cbn [str_exists].
  rewrite IH by done. case_bool_decide as E; [|done]. subst d. unfold control in Hd. bools. lia.
Qed.

(** ** Reading the stream *)

Fixpoint lines_text (lines : list string) : string :=
  match lines with [] => "" | line :: lines => line +:+ LF +:+ lines_text lines end.

Lemma lines_text_app l k : lines_text (l ++ k) = lines_text l +:+ lines_text k.
Proof. induction l as [|x l IH]; [done|]. cbn [lines_text app]. by rewrite IH, !str_app_assoc. Qed.

Lemma split_lines l : Forall plain l -> split_on (of_byte 10) (lines_text l) = l ++ [""].
Proof.
  induction 1 as [|x l Hx Hl IH]; [done|]. cbn [lines_text]. rewrite split_no_sep by (by apply plain_no_break).
  unfold LF. rewrite str_app_cons, str_app_nil_l. cbn [split_on]. rewrite bool_decide_eq_true_2 by done.
  rewrite IH. by rewrite str_app_nil_r.
Qed.

Lemma read_lines l : Forall plain l -> Source.read (lines_text l) = Source.messages (fold_left Source.line l Source.start).
Proof. intros Hl. unfold Source.read. rewrite split_lines by done. by rewrite removelast_last. Qed.

Definition event_types : list string := [EventArrival; EventPassage; EventLease; EventGateway].

(** What a console is told of an event. *)
Definition told (event : Event) : string * string := (e_Type event, default "" (marshal (event_view event))).

(** Between frames the reader waits for the first line of a message. *)
Definition waits_for_next (messages : list (string * string)) (l : list string) : Prop :=
  fold_left Source.line l Source.start = {| Source.kind := ""; Source.data := None; Source.messages := messages |}.


Lemma drop_str_exact n s t : String.length s = n -> drop_str n (s +:+ t) = t.
Proof. intros <-. apply drop_str_app. Qed.

Lemma value_of_field field v : Source.value_of (field +:+ ": " +:+ v) field = Some v.
Proof.
  unfold Source.value_of. change (": " +:+ v) with (":" +:+ " " +:+ v). rewrite str_app_assoc.
  assert (has_prefix ((field +:+ ":") +:+ " " +:+ v) (field +:+ ":") = true) as -> by apply prefix_refl_app.
  rewrite drop_str_exact by (by rewrite str_length_app). f_equal.
  assert (has_prefix (" " +:+ v) " " = true) as -> by apply prefix_refl_app. by apply (drop_str_exact 1 " ").
Qed.

(** The three lines of an event. *)
Lemma read_event l messages type payload :
  waits_for_next messages l ->
  waits_for_next (messages ++ [(type, payload)]) (l ++ ["event: " +:+ type; "data: " +:+ payload; ""]).
Proof.
  intros Hl. unfold waits_for_next in *. rewrite fold_left_app, Hl. cbn [fold_left].
  pose proof (value_of_field "event" type) as Ht. pose proof (value_of_field "data" payload) as Hd.
  change ("event" +:+ ": " +:+ type) with ("event: " +:+ type) in Ht.
  change ("data" +:+ ": " +:+ payload) with ("data: " +:+ payload) in Hd.
  assert (forall t, ("event: " +:+ t ==? "") = false) as He by done. assert (forall t, ("data: " +:+ t ==? "") = false) as Hd' by done.
  assert (forall t, Source.value_of ("data: " +:+ t) "event" = None) as Hn by done.
  unfold Source.line. rewrite He, Ht. cbn beta iota. rewrite Hd', Hn, Hd. reflexivity.
Qed.

Lemma read_comment l messages comment :
  has_prefix comment ":" = true -> waits_for_next messages l -> waits_for_next messages (l ++ [comment; ""]).
Proof.
  intros (u & ->)%prefix_spec Hl. unfold waits_for_next in *. rewrite fold_left_app, Hl. reflexivity.
Qed.

(** What has been written are whole lines, and the reader has the events taken. *)
Lemma pumped_lines tail events output :
  pumped tail events output -> Forall (fun event => e_Type event ∈ event_types) events ->
  exists l, output = lines_text l /\ Forall plain l /\ waits_for_next (map told events) l.
Proof.
  induction 1 as [|events output Hp IH|tail events output event frame Hp IH Hw|tail events output Hp IH]; intros Ht.
  - exists ["retry: 2000"; ""]. split_and!; [done|by repeat constructor|done].
  - destruct (IH Ht) as (l & -> & Hl & Hr). exists (l ++ [":"; ""]). rewrite lines_text_app. split_and!; [done| |].
    + apply Forall_app. split; [done|by repeat constructor].
    + by apply read_comment.
  - apply Forall_app in Ht as [Ht Hev]. apply Forall_cons in Hev as [Hev _]. destruct (IH Ht) as (l & -> & Hl & Hr).
    unfold writeEvent in Hw. apply bind_Some in Hw as (payload & Hm & [= <-]).
    exists (l ++ ["event: " +:+ e_Type event; "data: " +:+ payload; ""]). rewrite lines_text_app. split_and!.
    + by f_equal.
    + apply Forall_app. split; [done|]. apply Forall_cons_2; [|apply Forall_cons_2; [|by repeat constructor]];
        apply plain_app; (split; [done|]).
      * unfold event_types in Hev. rewrite !elem_of_cons in Hev. by destruct Hev as [->|[->|[->|[->|Hev%elem_of_nil]]]].
      * by eapply marshal_plain.
    + rewrite map_app. cbn [map]. unfold told at 2. rewrite Hm. by apply read_event.
  - destruct (IH Ht) as (l & -> & Hl & Hr). exists (l ++ [": keep-alive"; ""]). rewrite lines_text_app. split_and!; [done| |].
    + apply Forall_app. split; [done|by repeat constructor].
    + by apply read_comment.
Qed.

(** The wire: whatever the loop of a stream has written - the first line,
    events, the comment after an event, heartbeats, in any order - an event source
    reads back exactly the events that were taken from the channel, each with its
    type and its whole data, and nothing for the rest. No text in an event can end
    a line or begin another event. *)
Theorem stream_readable tail events output :
  pumped tail events output -> Forall (fun event => e_Type event ∈ event_types) events ->
  Source.read output = map told events.
Proof.
  intros Hp Ht. destruct (pumped_lines _ _ _ Hp Ht) as (l & -> & Hl & Hr). rewrite read_lines by done.
  unfold waits_for_next in Hr. by rewrite Hr.
Qed.

(** ** What a subscriber gets *)

Inductive operation := Sent (event : Event) | Joined | Taken (id : nat) | Left (id : nat) | Stopped.

Definition act (op : operation) (b : Broker) : Broker :=
  match op with
  | Sent event => Publish event b
  | Joined => (Subscribe b).2
  | Taken id => (receive id b).2
  | Left id => unsubscribe id b
  | Stopped => Close b
  end.

Definition final (ops : list operation) (b : Broker) : Broker := fold_left (fun b op => act op b) ops b.

(** The events this subscriber received. *)
Fixpoint taken (id : nat) (ops : list operation) (b : Broker) : list Event :=
  match ops with
  | [] => []
  | op :: ops =>
      match op with
      | Taken id' => if (id' =? id)%nat then match (receive id b).1 with Received event => [event] | _ => [] end else []
      | _ => []
      end ++ taken id ops (act op b)
  end.

Definition hears (id : nat) (b : Broker) : bool :=
  match streams b !! id with Some s => subscribed s | None => false end.

(** The events that were published while it was subscribed. *)
Fixpoint offered (id : nat) (ops : list operation) (b : Broker) : list Event :=
  match ops with
  | [] => []
  | op :: ops => match op with Sent event => if hears id b then [event] else [] | _ => [] end ++ offered id ops (act op b)
  end.

Definition backlog (id : nat) (b : Broker) : nat := match streams b !! id with Some s => length (waiting s) | None => 0 end.

(** Whenever something was published, fewer than [subscriberBuffer] were unread. *)
Fixpoint kept_up (id : nat) (ops : list operation) (b : Broker) : bool :=
  match ops with
  | [] => true
  | op :: ops =>
      match op with Sent _ => (backlog id b <? subscriberBuffer)%nat | _ => true end && kept_up id ops (act op b)
  end.

(** What others than this subscriber do with their channels. *)
Definition concerns (id : nat) (op : operation) : bool :=
  match op with
  | Sent _ | Stopped => true
  | Joined => false
  | Taken id' | Left id' => (id' =? id)%nat
  end.

Record coherent (b : Broker) : Prop := {
  coherent_closed : closed b = true -> forall id s, streams b !! id = Some s -> subscribed s = false;
  coherent_next id : is_Some (streams b !! id) -> (id < next b)%nat;
}.

Definition known (b : Broker) (id : nat) (s : Stream) : Prop := streams b !! id = Some s.

Lemma coherent_new : coherent NewBroker.
Proof. split; [done|]. intros id [s Hs]. cbn in Hs. by rewrite lookup_empty in Hs. Qed.

(** How one operation changes one channel. *)
Definition changed (id : nat) (op : operation) (isClosed : bool) (s : Stream) : Stream :=
  match op with
  | Sent event => offer event s
  | Joined => s
  | Taken id' => if (id' =? id)%nat then {| waiting := tail (waiting s); subscribed := subscribed s |} else s
  | Left id' => if (id' =? id)%nat then shut s else s
  | Stopped => shut s
  end.

Lemma offer_shut event s : subscribed s = false -> offer event s = s.
Proof. unfold offer. by intros ->. Qed.

Lemma shut_same s : subscribed s = false -> shut s = s.
Proof. destruct s as [w l]. cbn. by intros ->. Qed.

Lemma act_known op b id s : coherent b -> known b id s -> known (act op b) id (changed id op (closed b) s).
Proof.
  intros [Hc Hn] Hs. unfold known in *. destruct op as [event| |id'|id'|]; cbn [act changed].
  - unfold Publish. destruct (closed b) eqn:E; [by rewrite offer_shut by eauto|]. cbn. by rewrite lookup_fmap, Hs.
  - unfold Subscribe. destruct (closed b); [done|]. cbn. rewrite lookup_insert_ne; [done|].
    assert (id < next b)%nat by eauto. lia.
  - unfold receive. destruct (id' =? id)%nat eqn:E.
    + apply Nat.eqb_eq in E as ->. rewrite Hs. destruct s as [[|event rest] l]; cbn; [done|]. by rewrite lookup_insert_eq.
    + apply Nat.eqb_neq in E. destruct (streams b !! id') as [[[|event rest] l]|]; try done. cbn. by rewrite lookup_insert_ne.
  - cbn. destruct (id' =? id)%nat eqn:E.
    + apply Nat.eqb_eq in E as ->. by rewrite lookup_alter_eq, Hs.
    + apply Nat.eqb_neq in E. by rewrite lookup_alter_ne.
  - unfold Close. destruct (closed b) eqn:E; [by rewrite shut_same by eauto|]. cbn. by rewrite lookup_fmap, Hs.
Qed.

(** Channels appear one at a time, under the next number. *)
Lemma act_back op b id s' :
  known (act op b) id s' ->
  (exists s, known b id s /\ s' = changed id op (closed b) s) \/
  (op = Joined /\ closed b = false /\ id = next b /\ s' = {| waiting := []; subscribed := true |}) \/
  (known b id s' /\ closed b = true).
Proof.
  unfold known. destruct op as [event| |id'|id'|]; cbn [act changed].
  - unfold Publish. destruct (closed b); [by eauto|]. cbn. rewrite lookup_fmap. intros (s & -> & Hs)%fmap_Some. by eauto.
  - unfold Subscribe. destruct (closed b); [by eauto|]. cbn. intros [[<- <-]|[_ Hs]]%lookup_insert_Some; [by right; left|by eauto].
  - unfold receive. destruct (streams b !! id') as [[[|event rest] l]|] eqn:E; cbn.
    + intros Hs. left. exists s'. split; [done|]. destruct (id' =? id)%nat eqn:Ei; [|done]. apply Nat.eqb_eq in Ei as ->.
      by simplify_eq.
    + intros [[<- <-]|[Hne Hs]]%lookup_insert_Some; left; [|exists s'].
      * eexists. split; [done|]. by rewrite Nat.eqb_refl.
      * split; [done|]. by apply Nat.eqb_neq in Hne as ->.
    + intros Hs. left. exists s'. split; [done|]. destruct (id' =? id)%nat eqn:Ei; [|done]. apply Nat.eqb_eq in Ei as ->. by simplify_eq.
  - cbn. intros Hs. left. destruct (id' =? id)%nat eqn:Ei.
    + apply Nat.eqb_eq in Ei as ->. rewrite lookup_alter_eq in Hs. apply fmap_Some in Hs as (s & -> & ->). by eauto.
    + apply Nat.eqb_neq in Ei. rewrite lookup_alter_ne in Hs by done. by eauto.
  - unfold Close. destruct (closed b); [by eauto|]. cbn. rewrite lookup_fmap. intros (s & -> & Hs)%fmap_Some. by eauto.
Qed.

Lemma act_closed op b : closed (act op b) = closed b \/ op = Stopped /\ closed (act op b) = true.
Proof.
  destruct op as [event| |id'|id'|]; cbn [act].
  - left. unfold Publish. by destruct (closed b) eqn:E.
  - left. unfold Subscribe. by destruct (closed b) eqn:E.
  - left. unfold receive. by destruct (streams b !! id') as [[[|? ?] ?]|].
  - by left.
  - right. split; [done|]. unfold Close. by destruct (closed b) eqn:E.
Qed.

Lemma act_next op b : (next b <= next (act op b))%nat /\ (op = Joined -> closed b = false -> (next b < next (act op b))%nat).
Proof.
  destruct op as [event| |id'|id'|]; cbn [act].
  - unfold Publish. by destruct (closed b).
  - unfold Subscribe. destruct (closed b); cbn; split; try done; lia.
  - unfold receive. by destruct (streams b !! id') as [[[|? ?] ?]|].
  - done.
  - unfold Close. by destruct (closed b).
Qed.

Lemma changed_shut id op c s : subscribed s = false -> subscribed (changed id op c s) = false.
Proof.
  intros Hs. destruct op as [event| |id'|id'|]; cbn [changed]; [by rewrite offer_shut|done| |..|done]; by destruct (id' =? id)%nat.
Qed.

Lemma act_coherent op b : coherent b -> coherent (act op b).
Proof.
  intros [Hc Hn]. split.
  - intros Hcl id s' Hs. destruct (act_back _ _ _ _ Hs) as [(s & Hk & ->)|[(-> & Ho & -> & ->)|[Hk Ho]]]; [| |by eapply Hc].
    + destruct (act_closed op b) as [E|[-> _]]; [|done]. rewrite E in Hcl. apply changed_shut. by eapply Hc.
    + destruct (act_closed Joined b) as [E|[? _]]; [congruence|done].
  - intros id [s' Hs]. pose proof (act_next op b) as [Hle Hlt].
    destruct (act_back _ _ _ _ Hs) as [(s & Hk & ->)|[(-> & Ho & -> & ->)|[Hk Ho]]]; [|by apply Hlt|];
      assert (id < next b)%nat by (by apply Hn; eexists); lia.
Qed.

Lemma final_coherent ops b : coherent b -> coherent (final ops b).
Proof. revert b. induction ops as [|op ops IH]; intros b Hb; [done|]. cbn. apply IH. by apply act_coherent. Qed.

(** The account of one channel: what it had and what was offered went to what was
    taken and what is left, in order. *)
Lemma channel_account ops : forall b id s, coherent b -> known b id s -> (length (waiting s) <= subscriberBuffer)%nat ->
  exists s', known (final ops b) id s' /\ (length (waiting s') <= subscriberBuffer)%nat /\
    taken id ops b ++ waiting s' `sublist_of` waiting s ++ offered id ops b /\
    (kept_up id ops b = true -> taken id ops b ++ waiting s' = waiting s ++ offered id ops b).
Proof.
  induction ops as [|op ops IH]; intros b id s Hb Hs Hlen.
  { exists s. cbn. rewrite app_nil_r. by split_and!. }
  pose proof (act_known op b id s Hb Hs) as Hs1. pose proof (act_coherent op b Hb) as Hb1.
  cbn [taken offered kept_up]. change (final (op :: ops) b) with (final ops (act op b)).
  unfold hears, backlog. unfold known in Hs. rewrite Hs.
  destruct op as [event| |id'|id'|]; cbn [changed] in Hs1.
  - unfold offer in Hs1. destruct (subscribed s) eqn:El; cbn [andb] in Hs1;
      [destruct (length (waiting s) <? subscriberBuffer)%nat eqn:Er|].
    + apply Nat.ltb_lt in Er. destruct (IH _ _ _ Hb1 Hs1) as (s' & Hk & Hl & Hsub & Heq); [cbn; rewrite length_app; cbn; lia|].
      exists s'. cbn [waiting app andb] in *. rewrite <- app_assoc in Hsub, Heq. by split_and!.
    + destruct (IH _ _ _ Hb1 Hs1 Hlen) as (s' & Hk & Hl & Hsub & _). exists s'. cbn [app andb]. split_and!; [done..| |done].
      etrans; [exact Hsub|]. apply sublist_app; [done|]. by apply sublist_cons.
    + destruct (IH _ _ _ Hb1 Hs1 Hlen) as (s' & Hk & Hl & Hsub & Heq). exists s'. split_and!; [done..|].
      intros [_ Hr]%andb_true_iff. by apply Heq.
  - exact (IH _ _ _ Hb1 Hs1 Hlen).
  - destruct (id' =? id)%nat eqn:E; [|exact (IH _ _ _ Hb1 Hs1 Hlen)]. apply Nat.eqb_eq in E as ->.
    assert (match (receive id b).1 with Received event => [event] | _ => [] end =
            match waiting s with event :: _ => [event] | [] => [] end) as ->
      by (unfold receive; rewrite Hs; by destruct s as [[|? ?] []]).
    destruct s as [[|event rest] l]; cbn [waiting tail] in *.
    + exact (IH _ _ _ Hb1 Hs1 Hlen).
    + destruct (IH _ _ _ Hb1 Hs1) as (s' & Hk & Hl & Hsub & Heq); [cbn in *; lia|]. exists s'. cbn [app].
      split_and!; [done..|by apply sublist_skip|]. intros Hr. f_equal. by apply Heq.
  - destruct (id' =? id)%nat; exact (IH _ _ _ Hb1 Hs1 Hlen).
  - exact (IH _ _ _ Hb1 Hs1 Hlen).
Qed.

(** The channel of a subscriber after the same operations at another broker, with
    only those that concern it. *)
Lemma alone ops : forall b b' id s, coherent b -> coherent b' -> closed b = closed b' -> known b id s -> known b' id s ->
  taken id ops b = taken id (filter (fun op => concerns id op = true) ops) b'.
Proof.
  induction ops as [|op ops IH]; intros b b' id s Hb Hb' Hcl Hs Hs'; [done|].
  pose proof (act_known op b id s Hb Hs) as H1. pose proof (act_known op b' id s Hb' Hs') as H1'. rewrite <- Hcl in H1'.
  pose proof (act_coherent op b Hb) as Hc1. pose proof (act_coherent op b' Hb') as Hc1'. rewrite filter_cons.
  destruct (concerns id op) eqn:Ec.
  - rewrite decide_True by done. cbn [taken]. rewrite (IH _ (act op b') id _ Hc1 Hc1') by
      (done || destruct op; cbn [act]; unfold Publish, Subscribe, receive, unsubscribe, Close; rewrite <- ?Hcl;
       repeat case_match; cbn; congruence).
    f_equal. destruct op as [event| |id'|id'|]; try done. cbn in Ec. rewrite Ec. apply Nat.eqb_eq in Ec as ->.
    unfold receive, known in *. rewrite Hs, Hs'. by destruct (waiting s).
  - rewrite decide_False by done. cbn [taken].
    assert (changed id op (closed b) s = s) as Hsame.
    { destruct op as [event| |id'|id'|]; try done; cbn in Ec |- *; by rewrite Ec. }
    rewrite Hsame in H1. rewrite (IH _ b' id s Hc1 Hb') by
      (done || destruct op; try done; cbn [act]; unfold Subscribe, receive, unsubscribe; rewrite <- ?Hcl;
       repeat case_match; cbn; congruence).
    destruct op as [event| |id'|id'|]; try done. cbn in Ec. by rewrite Ec.
Qed.

(** C17. Events reach an open console in order. Whatever is published, received,
    subscribed, unsubscribed and closed in whatever order, what a subscriber has
    received and has still to read is part of what was published while it was
    subscribed, in the order of publication, never more than [subscriberBuffer] of
    it unread; nothing at all is missing when it never fell that far behind; and
    what it receives depends on nothing that other subscribers do or leave undone. *)
Theorem broker_in_order before ops id b :
  Subscribe (final before NewBroker) = (Some id, b) ->
  exists s, known (final ops b) id s /\ (length (waiting s) <= subscriberBuffer)%nat /\
    taken id ops b ++ waiting s `sublist_of` offered id ops b /\
    (kept_up id ops b = true -> taken id ops b ++ waiting s = offered id ops b) /\
    taken id ops b = taken id (filter (fun op => concerns id op = true) ops) b.
Proof.
  intros Hjoin. pose proof (final_coherent before _ coherent_new) as H0. pose proof (act_coherent Joined _ H0) as Hb.
  cbn [act] in Hb. rewrite Hjoin in Hb. cbn in Hb. unfold Subscribe in Hjoin.
  destruct (closed (final before NewBroker)) eqn:Ecl; [done|]. injection Hjoin as Hid Hbe.
  assert (known b id {| waiting := []; subscribed := true |}) as Hk.
  { unfold known. rewrite <- Hbe, <- Hid. cbn. by rewrite lookup_insert_eq. }
  destruct (channel_account ops b id _ Hb Hk) as (s & Hs & Hlen & Hsub & Heq); [cbn; unfold subscriberBuffer; lia|].
  exists s. split_and!; [done..|]. by eapply alone.
Qed.

Definition sample_event (text : string) : Event :=
  {| e_Type := EventPassage; e_Data := Json.quote text; e_At := "2026-01-02T03:04:05.000Z" |}.

(** Two consoles, one that reads and one that does not. *)
Lemma broker_in_order_witness :
  let ops := [Sent (sample_event "a"); Taken 1; Sent (sample_event "b"); Taken 0; Left 0; Sent (sample_event "c"); Taken 1; Taken 1] in
  let b := (Subscribe (final [Joined] NewBroker)).2 in
  taken 1 ops b = [sample_event "a"; sample_event "b"; sample_event "c"] /\ taken 0 ops b = [sample_event "a"] /\
  exists s, known (final ops b) 1 s /\ (length (waiting s) <= subscriberBuffer)%nat /\
    taken 1 ops b ++ waiting s `sublist_of` offered 1 ops b /\
    (kept_up 1 ops b = true -> taken 1 ops b ++ waiting s = offered 1 ops b) /\
    taken 1 ops b = taken 1 (filter (fun op => concerns 1 op = true) ops) b.
Proof. split; [by vm_compute|]. split; [by vm_compute|]. by apply (broker_in_order [Joined]). Defined.

(** A text with line breaks that looks like an event of its own stays one. *)
Lemma stream_readable_witness :
  let event := sample_event ("x" +:+ LF +:+ LF +:+ "event: lease" +:+ LF +:+ "data: y") in
  exists frame, writeEvent event = Some frame /\
    Source.read (((hello +:+ frame) +:+ keepAlive) +:+ nudge) = [told event].
Proof.
  eexists. split; [by vm_compute|]. apply (stream_readable false [sample_event _]).
  - apply pump_tail, pump_heartbeat. eapply (pump_event false []); [apply pump_start|by vm_compute].
  - by repeat constructor; right; left.
Defined.
