(* ===== verification/LedgerExport.v ===== *)
(** * The ledger as a file (platform/audit/export.go, transport/httpapi/ledger.go)

    Two exporters of the same events: the package's own, which redacts every
    event once more, and the one of the console, which writes the views that are
    also shown. Each has three formats; a format changes how the fields are
    written, not which. *)
From S2P Require Import Prelude GoStr Apperr GoTime World.
From S2P Require Json Ledger Csv.
From S2P Require Import RawJson Intent Redact ConsoleViews.
Open Scope Z_scope.

Definition FormatJSON : string := "json".
Definition FormatJSONL : string := "jsonl".
Definition FormatCSV : string := "csv".

Definition Formats : list string := [FormatJSON; FormatJSONL; FormatCSV].

Definition newline : string := String (of_byte 10) "".

(** [json.Encoder.Encode]: the text and a line feed, or nothing and an error. *)
Definition Encode (v : view) : option string := text ← marshal v; Some (text +:+ newline).

(** ** platform/audit *)

Definition ExportColumns : list string :=
  ["id"; "operation_id"; "event_type"; "agent_id"; "device_id"; "workspace_id"; "identity_id"; "credential_provider_id";
   "service"; "operation"; "resource"; "resolved_scope"; "verdict"; "risk_level"; "decision_id"; "approval_id"; "lease_id";
   "lease_status"; "outcome"; "response_status"; "duration_ms"; "is_redacted"; "metadata"; "created_at"].

(** The same columns by name, as encoding/json orders the keys of a map. *)
Definition by_key_name : relation (string * view) := fun a b => String.le a.1 b.1.

#[export] Instance by_key_name_dec : RelDecision by_key_name := fun a b => decide (String.le a.1 b.1).

Definition object_of (row : list (string * view)) : view := Fields (merge_sort by_key_name row).

(** A cell of a row is a text, a number or a flag. *)
Definition csvValue (cell : view) : string :=
  match cell with
  | Text s => s
  | Number n => itoa n
  | Flag b => if b then "true" else "false"
  | _ => ""
  end.

Section export.
Context `{Unicode} `{Floats}.

Definition exportRow (event : Ledger.Event) : result Code (list (string * view)) :=
  resource ← redactJSONObject (Ledger.Resource event);
  resolvedScope ← redactJSONObject (Ledger.ResolvedScope event);
  metadata ← redactMetadata (Ledger.Metadata event);
  Ok [("id", Text (Ledger.ID event)); ("operation_id", Text (Ledger.OperationID event)); ("event_type", Text (Ledger.Type_ event));
      ("agent_id", Text (Ledger.AgentID event)); ("device_id", Text (Ledger.DeviceID event));
      ("workspace_id", Text (Ledger.WorkspaceID event)); ("identity_id", Text (Ledger.IdentityID event));
      ("credential_provider_id", Text (Ledger.CredentialProviderID event)); ("service", Text (Ledger.Service event));
      ("operation", Text (Ledger.Operation event)); ("resource", Text resource); ("resolved_scope", Text resolvedScope);
      ("verdict", Text (Ledger.Verdict event)); ("risk_level", Text (Ledger.RiskLevel event));
      ("decision_id", Text (Ledger.DecisionID event)); ("approval_id", Text (Ledger.ApprovalID event));
      ("lease_id", Text (Ledger.LeaseID event)); ("lease_status", Text (Ledger.LeaseStatus event));
      ("outcome", Text (Ledger.Outcome event)); ("response_status", Number (Ledger.ResponseStatus event));
      ("duration_ms", Number (milliseconds (Ledger.Duration event))); ("is_redacted", Flag (Ledger.IsRedacted event));
      ("metadata", Text metadata); ("created_at", Text (encodeTime (Ledger.CreatedAt event)))].

Definition cell (row : list (string * view)) (column : string) : view :=
  match find_first (fun kv => kv.1 ==? column) row with Some kv => kv.2 | None => Null end.

Definition internal_error (o : option string) : result Code string :=
  match o with Some text => Ok text | None => Err CodeInternal end.

Definition writeJSON (rows : list (list (string * view))) : result Code string :=
  internal_error (Encode (Items (map object_of rows))).

Fixpoint writeJSONL (rows : list (list (string * view))) : result Code string :=
  match rows with
  | [] => Ok ""
  | row :: rows => line ← internal_error (Encode (object_of row)); rest ← writeJSONL rows; Ok (line +:+ rest)
  end.

Definition writeCSV (rows : list (list (string * view))) : result Code string :=
  Ok (Csv.write (ExportColumns :: map (fun row => map (fun column => csvValue (cell row column)) ExportColumns) rows)).

Fixpoint exportRows (events : list Ledger.Event) : result Code (list (list (string * view))) :=
  match events with
  | [] => Ok []
  | event :: events => row ← exportRow event; rows ← exportRows events; Ok (row :: rows)
  end.

(** What is written when nothing fails; the writer itself is given and works. *)
Definition Export (format : string) (events : list Ledger.Event) : result Code string :=
  _ ← refuse_if (negb (one_of format Formats)) CodeInvalidRequest;
  rows ← exportRows events;
  if format ==? FormatJSON then writeJSON rows
  else if format ==? FormatJSONL then writeJSONL rows
  else if format ==? FormatCSV then writeCSV rows
  else Err CodeInternal.
End export.

(** ** transport/httpapi *)

Definition contentTypeJSON : string := "application/json; charset=utf-8".

Definition exportContentType (format : string) : string :=
  if format ==? FormatJSON then contentTypeJSON
  else if format ==? FormatJSONL then "application/x-ndjson; charset=utf-8"
  else "text/csv; charset=utf-8".

(** Lines up to the first event that cannot be encoded. *)
Fixpoint writeJSONLines (events : list Ledger.Event) : string :=
  match events with
  | [] => ""
  | event :: events => match Encode (auditEventView event) with Some line => line +:+ writeJSONLines events | None => "" end
  end.

Definition writeEventsCSV (events : list Ledger.Event) : string := Csv.write (csvColumns :: map row events).

Definition writeExport (format : string) (events : list Ledger.Event) : string :=
  if format ==? FormatJSON then default "" (Encode (Items (map auditEventView events)))
  else if format ==? FormatJSONL then writeJSONLines events
  else writeEventsCSV events.

(** ** The formats say the same *)

Lemma exportRow_cells `{Unicode} `{Floats} event row :
  exportRow event = Ok row -> map fst row = ExportColumns /\
    map (fun column => csvValue (cell row column)) ExportColumns = map (fun kv => csvValue kv.2) row.
Proof.
  unfold exportRow. intros H1. apply bind_Ok in H1 as (resource & _ & H1). apply bind_Ok in H1 as (scope & _ & H1).
  apply bind_Ok in H1 as (metadata & _ & [= <-]). done.
Qed.

Lemma exportRows_Forall2 `{Unicode} `{Floats} events rows :
  exportRows events = Ok rows -> Forall2 (fun event row => exportRow event = Ok row) events rows.
Proof.
  revert rows. induction events as [|event events IH]; intros rows; [by intros [= <-]|]. cbn [exportRows].
  intros H1. apply bind_Ok in H1 as (row & Hrow & H1). apply bind_Ok in H1 as (rest & Hrest & [= <-]). constructor; auto.
Qed.

(** A text, a number or a flag: what can be encoded whatever it holds. *)
Definition scalar (v : view) : Prop := match v with Text _ | Number _ | Flag _ => True | _ => False end.

Lemma marshal_scalars l : Forall (fun kv => scalar kv.2) l -> is_Some (marshal (Fields l)).
Proof.
  intros Hl. cbn [marshal].
  match goal with |- is_Some (?m ≫= _) => assert (is_Some m) as [x ->]; [|by eexists] end.
  induction Hl as [|[name v] l Hv _ IH]; [by eexists|]. cbn in Hv.
  destruct IH as [rest IH]. destruct v; try done; cbn [marshal mbind option_bind]; rewrite IH; by eexists.
Qed.

Lemma marshal_items l : Forall (fun v => is_Some (marshal v)) l -> is_Some (marshal (Items l)).
Proof.
  intros Hl. cbn [marshal].
  match goal with |- is_Some (?m ≫= _) => assert (is_Some m) as [x ->]; [|by eexists] end.
  induction Hl as [|v l [text Hv] _ [rest IH]]; [by eexists|]. rewrite Hv. cbn [mbind option_bind]. rewrite IH. by eexists.
Qed.

Section agreement.
Context `{Unicode} `{Floats}.

Lemma exportRow_scalars event row : exportRow event = Ok row -> Forall (fun kv => scalar kv.2) row.
Proof.
  unfold exportRow. intros H1. apply bind_Ok in H1 as (resource & _ & H1). apply bind_Ok in H1 as (scope & _ & H1).
  apply bind_Ok in H1 as (metadata & _ & [= <-]). by repeat constructor.
Qed.

Lemma object_of_row event row : exportRow event = Ok row -> is_Some (marshal (object_of row)).
Proof.
  intros Hrow%exportRow_scalars. apply marshal_scalars. rewrite Forall_forall in Hrow. apply Forall_forall.
  intros kv Hin. apply Hrow. by rewrite merge_sort_Permutation in Hin.
Qed.

Lemma rows_written events rows :
  Forall2 (fun event row => exportRow event = Ok row) events rows ->
  is_Ok (writeJSON rows) = true /\
  exists lines, writeJSONL rows = Ok (concat_str lines) /\
    Forall2 (fun row line => Encode (object_of row) = Some line) rows lines.
Proof.
  intros Hrows. split.
  - unfold writeJSON, Encode. destruct (marshal_items (map object_of rows)) as [text ->]; [|done].
    induction Hrows as [|event row events rows Hrow _ IH]; constructor; [by eapply object_of_row|done].
  - induction Hrows as [|event row events rows Hrow _ (lines & IH & Hl)]; [by exists []|].
    destruct (object_of_row _ _ Hrow) as [text Ht]. exists ((text +:+ newline) :: lines).
    assert (Encode (object_of row) = Some (text +:+ newline)) as He by (unfold Encode; by rewrite Ht).
    cbn [writeJSONL]. rewrite He. cbn [internal_error mbind result_bind]. rewrite IH. cbn. by split; [|constructor].
Qed.

Lemma exportRows_total events :
  (exists rows, exportRows events = Ok rows) \/ exists event e, event ∈ events /\ exportRow event = Err e /\ exportRows events = Err e.
Proof.
  induction events as [|event events [[rows IH]|(bad & e & Hin & Hbad & IH)]]; [left; by exists []| |]; cbn [exportRows];
    destruct (exportRow event) as [row|e'] eqn:Er; cbn [mbind result_bind]; try rewrite IH; cbn.
  - left. by eexists.
  - right. exists event, e'. by split_and!; [left| |].
  - right. exists bad, e. by split_and!; [right| |].
  - right. exists event, e'. by split_and!; [left| |].
Qed.

(** Exporting the ledger. Only the three formats are written; an export fails
    for the format, or because some event does not pass the redaction again, and
    for nothing else. What is written is one row for each event in its order, with
    the fields of the column list: a table that reads back as the header and these
    rows cell by cell - whatever commas, quotes and line breaks the fields have -
    or one line of JSON for each row, or one array of them. *)
Theorem exports_agree format events :
  (format ∈ Formats -> is_Ok (Export format events) = true \/
     exists event e, event ∈ events /\ exportRow event = Err e /\ Export format events = Err e) /\
  forall text, Export format events = Ok text ->
  exists rows, Forall2 (fun event row => exportRow event = Ok row) events rows /\ format ∈ Formats /\
    (format = FormatCSV -> Csv.read text = Some (ExportColumns :: map (fun row => map (fun kv => csvValue kv.2) row) rows)) /\
    (format = FormatJSONL -> exists lines, text = concat_str lines /\
       Forall2 (fun row line => Encode (object_of row) = Some line) rows lines) /\
    (format = FormatJSON -> Encode (Items (map object_of rows)) = Some text).
Proof.
  split.
  - intros Hf. unfold Export. rewrite (proj2 (one_of_spec _ _) Hf). cbn [negb refuse_if mbind result_bind].
    destruct (exportRows_total events) as [[rows Hrows]|(event & e & Hin & Hbad & ->)]; [|right; by exists event, e].
    left. rewrite Hrows. cbn [mbind result_bind].
    destruct (rows_written _ _ (exportRows_Forall2 _ _ Hrows)) as [Hj (lines & Hl & _)].
    case_bool_decide; [done|]. case_bool_decide; [by rewrite Hl|]. case_bool_decide; [done|].
    exfalso. revert Hf. unfold Formats. rewrite !elem_of_cons, elem_of_nil. by intuition.
  - intros text H1. unfold Export in H1. apply bind_Ok in H1 as ([] & Hf & H1). apply refuse_if_Ok in Hf.
    apply negb_false_iff, one_of_spec in Hf. apply bind_Ok in H1 as (rows & Hrows & H1). apply exportRows_Forall2 in Hrows.
    exists rows. split; [done|]. split; [done|]. split_and!; intros ->.
    + cbn in H1. injection H1 as <-. rewrite Csv.read_write.
      2: { constructor; [done|]. apply Forall_forall. by intros r (row & -> & _)%list_elem_of_fmap. }
      do 2 f_equal. clear Hf. induction Hrows as [|event row events rows Hrow _ IH]; [done|]. cbn [map]. f_equal; [|exact IH].
      by destruct (exportRow_cells _ _ Hrow).
    + cbn in H1. destruct (rows_written _ _ Hrows) as [_ (lines & Hl & Hlines)]. rewrite Hl in H1. injection H1 as <-. by exists lines.
    + cbn in H1. unfold writeJSON, internal_error in H1. destruct (Encode _) as [t|]; [by injection H1 as <-|done].
Qed.
End agreement.

(** ** The console's files *)

(** A cell as text; stored JSON is left as it is. *)
Definition cell_text (v : view) : string := match v with Raw message => message | _ => csvValue v end.

(** The console's table has the columns of the events that are shown, in their
    order, with the same content, and is read back exactly. *)
Theorem ledger_file_readable events :
  Forall (fun event => map fst (auditEventFields event) = csvColumns /\
    row event = map (fun kv => cell_text kv.2) (auditEventFields event)) events /\
  Csv.read (writeExport FormatCSV events) = Some (csvColumns :: map row events).
Proof.
  split.
  - apply Forall_forall. intros event _. split; [done|]. unfold row, auditEventFields, raw_text, rawJSON. cbn.
    by do 3 case_bool_decide.
  - change (writeExport FormatCSV events) with (writeEventsCSV events). unfold writeEventsCSV. rewrite Csv.read_write; [done|]. constructor; [done|]. apply Forall_forall.
    by intros r (event & -> & _)%list_elem_of_fmap.
Qed.
