(* ===== verification/Console.v ===== *)
(** * transport/httpapi: what every endpoint of the console shares
    (auth.go, caller.go, respond.go, business.go, server.go)

    Who may call at all, how a request is read - its query, its body, the instants
    in it - and how a failure is told. *)
From S2P Require Import Prelude GoStr Apperr GoTime World.
From S2P Require Json.
From S2P Require Import RawJson ConsoleViews LedgerExport.
From S2P Require Intent Settings.
Open Scope Z_scope.

(** ** Requests and answers *)

(** A request as net/http hands it over: the segments of its cleaned path, its
    query, what arrives of its body, and the headers that are read. *)
Record HttpRequest := {
  h_Method : string;
  h_Path : list string;
  h_Query : list (string * string);
  h_Body : string;
  h_ContentLength : Z;
  h_Origin : string;
  h_RequestedBy : string;
  h_Authorization : string;
}.

Inductive Answer :=
| Reply (status : Z) (contentType : string) (headers : list (string * string)) (body : string)
| EventStream (id : option nat).

(** Why a call was refused, and the fields of the request that are to blame. *)
Record Refusal := { r_Code : Code; r_Fields : list string }.

Definition because (e : Code) : Refusal := {| r_Code := e; r_Fields := [] |}.

Definition invalidField (names : list string) : Refusal := {| r_Code := CodeInvalidRequest; r_Fields := names |}.

Definition missingFields (names : list string) : Refusal := invalidField names.

Record Caller := { c_AgentID : string }.

Definition console_caller : Caller := {| c_AgentID := "" |}.

Definition IsAgent (c : Caller) : bool := c_AgentID c !=? "".

Definition maySee (c : Caller) (ownerAgentID : string) : bool := negb (IsAgent c) || (c_AgentID c ==? ownerAgentID).

(** [writeJSON]: the status is sent before the body is encoded. *)
Definition writeJSON (status : Z) (body : view) : Answer := Reply status contentTypeJSON [] (default "" (Encode body)).

Definition public (e : Code) (operationID : string) : view :=
  Fields [("code", Text (code_name e)); ("message", Text (message_of e)); ("operation_id", Text operationID)].

Definition writeError (status : Z) (e : Code) (operationID : string) : Answer :=
  writeJSON status (Fields [("error", public e operationID)]).

Definition writeValidationError (e : Code) (fields : list string) (operationID : string) : Answer :=
  writeJSON 400 (Fields [("error", public e operationID); ("fields", Texts fields)]).

Definition statuses : list (Code * Z) :=
  [ (CodeInvalidRequest, 400);
    (CodeUnauthenticated, 401);
    (CodeForbidden, 403);
    (CodeNotFound, 404);
    (CodeConflict, 409);
    (CodeInternal, 500);
    (CodeNotImplemented, 501);
    (CodeInvalidConfiguration, 500);
    (CodeAgentIdentityUnverifiable, 401);
    (CodeSessionExpired, 401);
    (CodeCapabilityNotOffered, 403);
    (CodeApprovalTimeout, 408);
    (CodeCredentialNotAuthorized, 403);
    (CodeProviderUnavailable, 503);
    (CodeProviderNotSupportedOnPlatform, 503);
    (CodeProviderLockedTimeout, 504);
    (CodeVaultLocked, 503);
    (CodePathNotAllowed, 403);
    (CodeAdapterTimeout, 504);
    (CodeGatewayUnavailable, 503) ].

Definition StatusForCode (e : Code) : option Z := assoc e statuses.

Definition statusFor (e : Code) : Z := default 500 (StatusForCode e).

(** Every code that has a message has a status. *)
Example statuses_complete : forallb (fun row => bool_decide (is_Some (StatusForCode row.1))) messages = true.
Proof. by vm_compute. Qed.

Definition fail (operationID : string) (r : Refusal) : Answer :=
  match r_Fields r with
  | [] => writeError (statusFor (r_Code r)) (r_Code r) operationID
  | fields => writeValidationError (r_Code r) fields operationID
  end.

(** [allowMethods]. *)
Definition allowMethods (methods : list string) (q : HttpRequest) (operationID : string) : option Answer :=
  if one_of (h_Method q) methods then None
  else match writeError 405 CodeInvalidRequest operationID with
       | Reply status kind headers body => Some (Reply status kind (("Allow", join ", " methods) :: headers) body)
       | answer => Some answer
       end.

(** ** The session of the console *)

Definition RequestedByConsole : string := "opendelo-console".
Definition bearerPrefix : string := "Bearer ".

(** [net.JoinHostPort]. *)
Definition JoinHostPort (host port : string) : string :=
  if str_exists (fun c => c ==? ":"%char) host then "[" +:+ host +:+ "]:" +:+ port else host +:+ ":" +:+ port.

Definition allowedOrigins (boot : BootConfig) : list string :=
  map (fun host => "http://" +:+ JoinHostPort host (itoa (WebAPIPort boot)))
      [ListenAddress boot; "127.0.0.1"; "localhost"; "::1"].

Definition tokenMatches (token authorization : string) : bool :=
  if has_prefix authorization bearerPrefix
  then drop_str (String.length bearerPrefix) authorization ==? token else false.

(** [guard]: the code and the status a request is turned away with. *)
Definition guard (boot : BootConfig) (token : string) (q : HttpRequest) : result (Z * Code) unit :=
  _ ← refuse_if ((h_Origin q !=? "") && negb (one_of (h_Origin q) (allowedOrigins boot))) (403, CodeForbidden);
  _ ← refuse_if (h_RequestedBy q !=? RequestedByConsole) (403, CodeForbidden);
  refuse_if (negb (tokenMatches token (h_Authorization q))) (401, CodeUnauthenticated).

(** ** Reading a request *)

Definition defaultLimit : Z := 50.
Definition maxLimit : Z := 200.
Definition maxBodyBytes : Z := Z.shiftl 1 20.

(** [url.Values.Get]. *)
Definition query (q : HttpRequest) (name : string) : string :=
  match find_first (fun kv => kv.1 ==? name) (h_Query q) with Some kv => kv.2 | None => "" end.

Definition limitFrom (q : HttpRequest) : result Refusal Z :=
  if query q "limit" ==? "" then Ok defaultLimit
  else match Settings.Atoi (query q "limit") with
       | Some limit => if (limit <=? 0) || (maxLimit <? limit) then Err (because CodeInvalidRequest) else Ok limit
       | None => Err (because CodeInvalidRequest)
       end.

(** [io.LimitReader]. *)
Definition limited (body : string) : string :=
  if Z.of_nat (String.length body) <=? maxBodyBytes then body else take_str (Z.to_nat maxBodyBytes) body.

(** A body as a form: its fields by their JSON names. A field that is not there
    has its zero value. *)
Record Form := mkForm {
  texts : gmap string string;
  numbers : gmap string Z;
  flags : gmap string bool;
  raws : gmap string string;
  maps : gmap string (gmap string string);
}.

Definition no_form : Form := mkForm ∅ ∅ ∅ ∅ ∅.

Definition text (f : Form) (name : string) : string := default "" (texts f !! name).
Definition number (f : Form) (name : string) : Z := default 0 (numbers f !! name).
Definition flag (f : Form) (name : string) : bool := default false (flags f !! name).
Definition raw (f : Form) (name : string) : string := default "" (raws f !! name).
Definition string_table (f : Form) (name : string) : gmap string string := default ∅ (maps f !! name).

(** How encoding/json fills a field of each type. *)
Definition text_field (name : string) : Json.raw_setter (S := Form) :=
  (name, fun s f => v ← Json.parse s; t ← Json.as_string (text f name) v;
     Some (mkForm (<[name := t]> (texts f)) (numbers f) (flags f) (raws f) (maps f))).

Definition number_field (name : string) : Json.raw_setter (S := Form) :=
  (name, fun s f => v ← Json.parse s; n ← Json.as_int (number f name) v;
     Some (mkForm (texts f) (<[name := n]> (numbers f)) (flags f) (raws f) (maps f))).

Definition flag_field (name : string) : Json.raw_setter (S := Form) :=
  (name, fun s f => v ← Json.parse s; b ← Json.as_bool_ptr v;
     Some (mkForm (texts f) (numbers f) (<[name := default (flag f name) b]> (flags f)) (raws f) (maps f))).

Definition raw_field (name : string) : Json.raw_setter (S := Form) :=
  (name, fun s f => Some (mkForm (texts f) (numbers f) (flags f) (<[name := s]> (raws f)) (maps f))).

Definition table_field (name : string) : Json.raw_setter (S := Form) :=
  (name, fun s f => v ← Json.parse s; m ← Json.as_string_map (maps f !! name) v;
     Some (mkForm (texts f) (numbers f) (flags f) (raws f) (<[name := default ∅ m]> (maps f)))).

Section decoding.
Context `{Unicode}.

(** The first value of the body; what follows it is not read. *)
Definition first_value (s : string) : option string :=
  let s := Json.skip_ws s in
  '(_, rest) ← Json.parse_value (Json.parse_fuel s) 0 s;
  Some (take_str (String.length s - String.length rest) s).

(** [DisallowUnknownFields]. *)
Fixpoint all_known (fields : list (Json.raw_setter (S := Form))) (members : list (string * string)) : bool :=
  match members with
  | [] => true
  | (key, _) :: members =>
      match Json.unquote key with
      | Some key => bool_decide (is_Some (Json.raw_field_for fields key)) && all_known fields members
      | None => false
      end
  end.

Definition decodeForm (fields : list (Json.raw_setter (S := Form))) (zero : Form) (body : string) : option Form :=
  value ← first_value (limited body);
  members ← Json.raw_members value;
  if all_known fields members then Json.decode_raw fields members zero else None.

Definition decodeBody (fields : list (Json.raw_setter (S := Form))) (zero : Form) (q : HttpRequest) : result Refusal Form :=
  match decodeForm fields zero (h_Body q) with Some f => Ok f | None => Err (because CodeInvalidRequest) end.
End decoding.

(** ** [time.Parse] with [time.RFC3339] *)

(** [getnum]: two digits, or one when that is allowed. *)
Definition getnum (fixed : bool) (s : string) : option (Z * string) :=
  match s with
  | "" => None
  | String c r =>
      d ← digit_value c;
      match r with
      | "" => if fixed then None else Some (d, r)
      | String c' r' =>
          match digit_value c' with
          | Some d' => Some (d * 10 + d', r')
          | None => if fixed then None else Some (d, r)
          end
      end
  end.

(** A fraction may follow the seconds, after a comma as well. *)
Definition take_fraction (s : string) : Z * string :=
  match s with
  | String c (String d r) =>
      if ((byte_of c =? 46) || (byte_of c =? 44)) && bool_decide (is_Some (digit_value d))
      then parse_frac 9 (String d r) else (0, s)
  | _ => (0, s)
  end.

(** The zone; its range is up to 24 hours and 60 minutes. *)
Definition take_zone (s : string) : option (Z * string) :=
  match s with
  | "" => None
  | String c r =>
      if byte_of c =? 90 then Some (0, r)
      else
        '(hh, r) ← take_range 2 0 24 r;
        r ← take_char 58 r;
        '(mm, r) ← take_range 2 0 60 r;
        if byte_of c =? 43 then Some (hh * 3600 + mm * 60, r)
        else if byte_of c =? 45 then Some (- (hh * 3600 + mm * 60), r)
        else None
  end.

Definition ParseRFC3339 (s : string) : option Z :=
  '(y, s) ← take_range 4 0 9999 s;
  s ← take_char 45 s;
  '(m, s) ← take_range 2 1 12 s;
  s ← take_char 45 s;
  '(d, s) ← take_range 2 0 99 s;
  s ← take_char 84 s;
  '(hh, s) ← getnum false s;
  s ← take_char 58 s;
  '(mi, s) ← take_range 2 0 59 s;
  s ← take_char 58 s;
  '(se, s) ← take_range 2 0 59 s;
  let '(ns, s) := take_fraction s in
  '(off, s) ← take_zone s;
  if (s ==? "") && (hh <? 24) && in_range 1 (month_length (is_leap y) m) d
  then Some (days_of y m d * Day + (hh * 3600 + mi * 60 + se - off) * Second + ns)
  else None.

Example parse_samples :
  ParseRFC3339 "2026-01-02T03:04:05Z" = parse_rfc3339 "2026-01-02T03:04:05Z" /\
  ParseRFC3339 "2026-01-02T3:04:05,25+08:00" = parse_rfc3339 "2026-01-01T19:04:05.25Z" /\
  parse_rfc3339 "2026-01-02T3:04:05Z" = None /\ ParseRFC3339 "2026-02-30T03:04:05Z" = None /\
  ParseRFC3339 "2026-01-02" = None.
Proof. by split_and!; vm_compute. Qed.
