(* ===== verification/UnlockWait.v ===== *)
(** * credential/registry: waiting for an unlock (unlock.go)

    A waiter keeps the channels of the requests that wait. Registering,
    broadcasting and unregistering hold its mutex, so each is one step; between
    them a request sits in its [select], which may end in three ways. The steps of
    any number of requests interleave freely. *)
From S2P Require Import Prelude GoStr Apperr GoTime.
From stdpp Require Import relations fin_sets fin_map_dom.
Open Scope Z_scope.

Definition DefaultUnlockTimeout : Z := 2 * Minute.

(** [NewUnlockWaiter]: the timeout it works with. *)
Definition NewUnlockWaiter (timeout : Z) : Z := if timeout <=? 0 then DefaultUnlockTimeout else timeout.

(** How the [select] of [Wait] ends, and what [Wait] makes of it. *)
Inductive ending := Signalled | TimedOut | Cancelled.

#[export] Instance ending_eq_dec : EqDecision ending.
Proof. solve_decision. Defined.

Definition Wait_result (e : ending) : result Code unit :=
  match e with
  | Signalled => Ok tt
  | TimedOut => Err CodeProviderLockedTimeout
  | Cancelled => Err CodeGatewayUnavailable
  end.

(** ** The waiter *)

(** A channel is known by its number; the heap knows the numbers in use and the
    channels that are closed. *)
Record UnlockWaiter := {
  waiters : gset nat;
  closed : gset nat;
  made : nat;
}.

Definition empty_waiter : UnlockWaiter := {| waiters := ∅; closed := ∅; made := 0 |}.

Definition Waiting (w : UnlockWaiter) : nat := size (waiters w).

(** [register]: a new channel. *)
Definition register (w : UnlockWaiter) : nat * UnlockWaiter :=
  (made w, {| waiters := {[made w]} ∪ waiters w; closed := closed w; made := S (made w) |}).

Definition unregister (signal : nat) (w : UnlockWaiter) : UnlockWaiter :=
  {| waiters := waiters w ∖ {[signal]}; closed := closed w; made := made w |}.

(** [close]: closing a channel twice is a panic, [None]. *)
Definition close (signal : nat) (shut : gset nat) : option (gset nat) :=
  if bool_decide (signal ∈ shut) then None else Some ({[signal]} ∪ shut).

Fixpoint close_all (signals : list nat) (shut : gset nat) : option (gset nat) :=
  match signals with
  | [] => Some shut
  | signal :: signals => shut ← close signal shut; close_all signals shut
  end.

(** [Unlocked]. *)
Definition Unlocked (w : UnlockWaiter) : option UnlockWaiter :=
  shut ← close_all (elements (waiters w)) (closed w);
  Some {| waiters := ∅; closed := shut; made := made w |}.

(** ** Requests that wait *)

Inductive phase :=
| Blocked
| Leaving (e : ending)
| Returned (e : ending).

#[export] Instance phase_eq_dec : EqDecision phase.
Proof. solve_decision. Defined.

(** The waiter and the requests, by the channel each of them made. *)
Record System := {
  waiter : UnlockWaiter;
  requests : gmap nat phase;
  panicked : bool;
}.

Definition idle : System := {| waiter := empty_waiter; requests := ∅; panicked := false |}.

Inductive label := Enter | Select (signal : nat) (e : ending) | Leave (signal : nat) | Unlock.

(** One step. The channel is ready once it is closed; the timer and the context
    may be ready at any time. *)
Inductive step : System -> label -> System -> Prop :=
| step_enter s signal w :
    register (waiter s) = (signal, w) ->
    step s Enter {| waiter := w; requests := <[signal := Blocked]> (requests s); panicked := panicked s |}
| step_select s signal e :
    requests s !! signal = Some Blocked -> (e = Signalled -> signal ∈ closed (waiter s)) ->
    step s (Select signal e)
      {| waiter := waiter s; requests := <[signal := Leaving e]> (requests s); panicked := panicked s |}
| step_leave s signal e :
    requests s !! signal = Some (Leaving e) ->
    step s (Leave signal)
      {| waiter := unregister signal (waiter s); requests := <[signal := Returned e]> (requests s);
         panicked := panicked s |}
| step_unlock s w :
    Unlocked (waiter s) = Some w ->
    step s Unlock {| waiter := w; requests := requests s; panicked := panicked s |}
| step_panic s :
    Unlocked (waiter s) = None ->
    step s Unlock {| waiter := waiter s; requests := requests s; panicked := true |}.

Inductive runs : System -> list label -> System -> Prop :=
| runs_nil s : runs s [] s
| runs_cons s l s1 ls s2 : step s l s1 -> runs s1 ls s2 -> runs s (l :: ls) s2.

Definition reachable (s : System) : Prop := exists ls, runs idle ls s.

(** ** The invariant *)

Definition present (p : phase) : Prop := match p with Returned _ => False | _ => True end.

(** A channel is in the waiter's table exactly while its request is still in
    [Wait] and was not broadcast to. *)
Record coherent (s : System) : Prop := {
  co_fresh signal : (signal < made (waiter s))%nat <-> is_Some (requests s !! signal);
  co_waiters signal : signal ∈ waiters (waiter s) <->
    (signal ∉ closed (waiter s)) /\ exists p, requests s !! signal = Some p /\ present p;
  co_closed signal : signal ∈ closed (waiter s) -> (signal < made (waiter s))%nat;
  co_woken signal p : requests s !! signal = Some p -> p = Leaving Signalled \/ p = Returned Signalled ->
    signal ∈ closed (waiter s);
  co_sound : panicked s = false;
}.

Lemma close_all_disjoint l shut :
  NoDup l -> (forall x, x ∈ l -> x ∉ shut) -> close_all l shut = Some (list_to_set l ∪ shut).
Proof.
  revert shut. induction l as [|x l IH]; intros shut Hnd Hout; cbn.
  - f_equal. set_solver.
  - apply NoDup_cons in Hnd as [Hx Hnd]. unfold close.
    rewrite bool_decide_eq_false_2 by (apply Hout; left). cbn. rewrite IH; [f_equal; set_solver|done|].
    intros y Hy. assert (y <> x) by congruence. specialize (Hout y ltac:(by right)). set_solver.
Qed.

(** A coherent system never closes a channel twice. *)
Lemma Unlocked_coherent s : coherent s -> Unlocked (waiter s) =
  Some {| waiters := ∅; closed := waiters (waiter s) ∪ closed (waiter s); made := made (waiter s) |}.
Proof.
  intros Hc. unfold Unlocked. rewrite close_all_disjoint; [|apply NoDup_elements|].
  - cbn. by rewrite list_to_set_elements_L.
  - intros x Hx%elem_of_elements. by apply (co_waiters _ Hc) in Hx as [].
Qed.

Lemma coherent_idle : coherent idle.
Proof.
  split; cbn; try done.
  - intros signal. rewrite lookup_empty. split; [lia|by intros []].
  - intros signal. split; [set_solver|]. by intros (_ & p & [=] & _).
Qed.

Lemma coherent_enter s signal w :
  coherent s -> register (waiter s) = (signal, w) ->
  coherent {| waiter := w; requests := <[signal := Blocked]> (requests s); panicked := panicked s |}.
Proof.
  intros [Hf Hw Hc Hk Hp] [= <- <-]. split; cbn; try done.
  - intros i. rewrite lookup_insert_is_Some', <- Hf. lia.
  - intros i. rewrite elem_of_union, elem_of_singleton, Hw. destruct (decide (i = made (waiter s))) as [->|Hi].
    + rewrite lookup_insert_eq. split; [|by auto]. intros _. split; [intros Hin%Hc; lia|by exists Blocked].
    + rewrite lookup_insert_ne by done. tauto.
  - intros i Hi%Hc. lia.
  - intros i p. rewrite lookup_insert_Some. intros [[_ <-]|[_ Hi]]; [by intros [|]|by eapply Hk].
Qed.

Lemma coherent_select s signal e :
  coherent s -> requests s !! signal = Some Blocked -> (e = Signalled -> signal ∈ closed (waiter s)) ->
  coherent {| waiter := waiter s; requests := <[signal := Leaving e]> (requests s); panicked := panicked s |}.
Proof.
  intros [Hf Hw Hc Hk Hp] Hb He. split; cbn; try done.
  - intros i. rewrite Hf, lookup_insert_is_Some'. naive_solver.
  - intros i. rewrite Hw. destruct (decide (i = signal)) as [->|Hi]; [|by rewrite lookup_insert_ne].
    rewrite lookup_insert_eq, Hb. naive_solver.
  - intros i p. rewrite lookup_insert_Some. intros [[<- <-]|[_ Hi]]; [|by eapply Hk].
    intros [[= ->]|[=]]. by apply He.
Qed.

Lemma coherent_leave s signal e :
  coherent s -> requests s !! signal = Some (Leaving e) ->
  coherent {| waiter := unregister signal (waiter s); requests := <[signal := Returned e]> (requests s);
              panicked := panicked s |}.
Proof.
  intros [Hf Hw Hc Hk Hp] Hl. split; cbn; try done.
  - intros i. rewrite Hf, lookup_insert_is_Some'. naive_solver.
  - intros i. rewrite elem_of_difference, elem_of_singleton, Hw.
    destruct (decide (i = signal)) as [->|Hi]; [rewrite lookup_insert_eq|rewrite lookup_insert_ne by done]; [|tauto].
    split; [tauto|]. intros (_ & p & [= <-] & []).
  - intros i p. rewrite lookup_insert_Some. intros [[<- <-]|[_ Hi]]; [|by eapply Hk].
    intros [[=]|[= ->]]. eapply Hk; [exact Hl|by left].
Qed.

Lemma coherent_unlock s w :
  coherent s -> Unlocked (waiter s) = Some w ->
  coherent {| waiter := w; requests := requests s; panicked := panicked s |}.
Proof.
  intros Hco. rewrite (Unlocked_coherent _ Hco). destruct Hco as [Hf Hw Hc Hk Hp]. intros [= <-]. split; cbn; try done.
  - intros i. split; [set_solver|]. intros [Hnot Hex]. destruct Hnot. apply elem_of_union.
    destruct (decide (i ∈ closed (waiter s))); [by right|left]. by apply Hw.
  - intros i [Hi|Hi]%elem_of_union; [|by apply Hc]. apply Hw in Hi as (_ & p & Hi & _). apply Hf. by exists p.
  - intros i p Hi Hpp. apply elem_of_union. right. by eapply Hk.
Qed.

Lemma coherent_step s l s' : coherent s -> step s l s' -> coherent s'.
Proof.
  intros Hco Hs. inversion Hs; subst; eauto using coherent_enter, coherent_select, coherent_leave, coherent_unlock.
  pose proof (Unlocked_coherent _ Hco). congruence.
Qed.

Lemma coherent_runs s ls s' : coherent s -> runs s ls s' -> coherent s'.
Proof. intros Hco Hr. induction Hr; eauto using coherent_step. Qed.

Lemma coherent_reachable s : reachable s -> coherent s.
Proof. intros [ls Hr]. eauto using coherent_runs, coherent_idle. Qed.

(** ** Waking *)

Lemma closed_step s l s' : coherent s -> step s l s' -> closed (waiter s) ⊆ closed (waiter s').
Proof.
  intros Hco Hs. inversion Hs as [? ? w Hr| | |? w Hu|]; subst; cbn; try done.
  - by injection Hr as _ <-.
  - rewrite (Unlocked_coherent _ Hco) in Hu. injection Hu as <-. cbn. set_solver.
Qed.

Lemma closed_runs s ls s' : coherent s -> runs s ls s' -> closed (waiter s) ⊆ closed (waiter s').
Proof.
  intros Hco Hr. induction Hr as [|s l s1 ls s2 Hs _ IH]; [done|].
  etrans; [by eapply closed_step|]. apply IH. by eapply coherent_step.
Qed.

(** A channel that was open and is closed was in the table when somebody broadcast. *)
Lemma closing s ls s' signal :
  coherent s -> runs s ls s' -> signal ∉ closed (waiter s) -> signal ∈ closed (waiter s') ->
  exists ls1 ls2 s1, ls = ls1 ++ Unlock :: ls2 /\ runs s ls1 s1 /\ signal ∈ waiters (waiter s1).
Proof.
  intros Hco Hr Hout Hin. induction Hr as [|s l s1 ls s2 Hs Hr IH]; [done|].
  destruct (decide (signal ∈ closed (waiter s1))) as [Hc|Hc].
  - inversion Hs as [? ? w Hreg| | |? w Hu|]; subst; cbn in *; try done.
    + by injection Hreg as _ <-.
    + exists [], ls, s. split_and!; [done|constructor|]. rewrite (Unlocked_coherent _ Hco) in Hu.
      injection Hu as <-. cbn in Hc. set_solver.
  - destruct IH as (ls1 & ls2 & sm & -> & Hr1 & Hw); [by eapply coherent_step|done..|].
    exists (l :: ls1), ls2, sm. split_and!; [done|by econstructor|done].
Qed.

(** C39. A broadcast wakes everybody and nobody else. In every reachable state
    broadcasting succeeds - no channel is ever closed twice, which would end the
    process - and leaves nobody counted as waiting; every request that was blocked
    in its [select] can end it as woken at once, and still can at any later time it
    is blocked: the wake-up is not lost. *)
Theorem broadcast_wakes_all s :
  reachable s ->
  (exists s1, step s Unlock s1) /\
  (forall s1, step s Unlock s1 -> panicked s1 = false /\ Waiting (waiter s1) = 0%nat /\
    forall signal ls s2, requests s !! signal = Some Blocked -> runs s1 ls s2 ->
      requests s2 !! signal = Some Blocked -> exists s3, step s2 (Select signal Signalled) s3) /\
  (Waiting (waiter s) = 0%nat <-> forall signal p, requests s !! signal = Some p -> present p -> signal ∈ closed (waiter s)).
Proof.
  intros Hco%coherent_reachable. pose proof (Unlocked_coherent _ Hco) as Hu. split_and!.
  - eexists. by apply step_unlock.
  - intros s1 Hs. pose proof (coherent_step _ _ _ Hco Hs) as Hco1. split_and!; [apply Hco1| |].
    + inversion Hs; subst; [|congruence]. rewrite Hu in *. simplify_eq. exact (size_empty (C := gset nat)).
    + intros signal ls s2 Hb Hr Hb2. eexists. apply step_select; [done|]. intros _.
      apply (closed_runs _ _ _ Hco1 Hr). inversion Hs; subst; [|congruence]. rewrite Hu in *. simplify_eq. cbn.
      apply elem_of_union. destruct (decide (signal ∈ closed (waiter s))); [by right|left].
      apply (co_waiters _ Hco). split; [done|by exists Blocked].
  - unfold Waiting. split.
    + intros He%size_empty_inv%leibniz_equiv signal p Hp Hpr. destruct (decide (signal ∈ closed (waiter s))); [done|].
      assert (signal ∈ waiters (waiter s)) by (apply (co_waiters _ Hco); eauto). set_solver.
    + intros Hall. apply size_empty_iff, elem_of_equiv_empty. intros signal (Hout & p & Hp & Hpr)%(co_waiters _ Hco). eauto.
Qed.

(** Being woken means that somebody unlocked while one waited. A request that
    had not come yet and has returned as woken was in its [Wait] at a broadcast in
    between; an earlier one is no reason. *)
Theorem woken_by_broadcast s ls s' signal :
  reachable s -> requests s !! signal = None -> runs s ls s' -> requests s' !! signal = Some (Returned Signalled) ->
  exists ls1 ls2 s1 p, ls = ls1 ++ Unlock :: ls2 /\ runs s ls1 s1 /\ requests s1 !! signal = Some p /\ present p.
Proof.
  intros Hco%coherent_reachable Hn Hr Hret. pose proof (coherent_runs _ _ _ Hco Hr) as Hco'.
  destruct (closing s ls s' signal) as (ls1 & ls2 & s1 & -> & Hr1 & Hw); [done|done| | |].
  - intros Hin%(co_closed _ Hco)%(co_fresh _ Hco). rewrite Hn in Hin. by destruct Hin.
  - eapply (co_woken _ Hco'); [done|by right].
  - apply (co_waiters _ (coherent_runs _ _ _ Hco Hr1)) in Hw as (_ & p & Hp & Hpr). by exists ls1, ls2, s1, p.
Qed.

(** ** How long it takes *)

Definition steps_left (p : phase) : nat := match p with Blocked => 2 | Leaving _ => 1 | Returned _ => 0 end.

Definition work (s : System) : nat := map_fold (fun _ p n => (steps_left p + n)%nat) 0%nat (requests s).

Definition own_step (l : label) : bool := match l with Unlock => false | _ => true end.

Lemma work_insert (m : gmap nat phase) signal p q :
  m !! signal = Some p ->
  (map_fold (fun _ p n => (steps_left p + n)%nat) 0%nat (<[signal := q]> m) + steps_left p =
   map_fold (fun _ p n => (steps_left p + n)%nat) 0%nat m + steps_left q)%nat.
Proof.
  intros Hp. rewrite <- (insert_delete_id m signal p Hp), insert_insert_eq.
  rewrite !map_fold_insert_L by (try apply lookup_delete_eq; intros; lia). lia.
Qed.

(** Nobody waits for ever. Once no more requests come, every step other than a
    broadcast brings a request nearer to its return, and the steps are used up
    exactly when every request has returned; until then some request can move. So
    every run is at most twice as long as there are requests, broadcasts apart. *)
Theorem waits_end s ls s' :
  reachable s -> runs s ls s' -> Enter ∉ ls ->
  (length (filter (fun l => own_step l = true) ls) + work s' = work s)%nat /\
  (work s' = 0%nat <-> forall signal p, requests s' !! signal = Some p -> exists e, p = Returned e) /\
  (work s' <> 0%nat -> exists l s'', l <> Enter /\ l <> Unlock /\ step s' l s'').
Proof.
  intros _ Hr Hno. split_and!.
  - induction Hr as [s|s l s1 ls s2 Hs _ IH]; [done|].
    assert (l <> Enter /\ Enter ∉ ls) as [Hl Hls] by set_solver. specialize (IH Hls).
    inversion Hs as [|? signal e Hb _|? signal e Hb|? w Hu|? Hu]; subst; try done; rewrite filter_cons; cbn;
      try rewrite decide_True by done; cbn.
    + pose proof (work_insert _ _ _ (Leaving e) Hb). unfold work in *. cbn in *. lia.
    + pose proof (work_insert _ _ _ (Returned e) Hb). unfold work in *. cbn in *. lia.
  - clear. unfold work. induction (requests s') as [|signal p m Hn IH] using map_ind.
    + rewrite map_fold_empty. split; [|done]. intros _ signal p. by rewrite lookup_empty.
    + rewrite map_fold_insert_L by (done || (intros; lia)). split.
      * intros Hw i q. rewrite lookup_insert_Some. intros [[<- <-]|[_ Hi]].
        { destruct p; [cbn in Hw; lia..|by eexists]. }
        eapply IH; [lia|exact Hi].
      * intros Hall. destruct (Hall signal p) as [e ->]; [by rewrite lookup_insert_eq|].
        apply IH. intros i q Hi. apply (Hall i q). rewrite lookup_insert_ne; [done|congruence].
  - clear. intros Hw. unfold work in Hw.
    assert (exists signal p, requests s' !! signal = Some p /\ present p) as (signal & p & Hp & Hpr).
    { revert Hw. induction (requests s') as [|signal p m Hn IH] using map_ind; [by rewrite map_fold_empty|].
      rewrite map_fold_insert_L by (done || (intros; lia)). intros Hw. destruct (decide (steps_left p = 0%nat)) as [Hz|Hz].
      - destruct IH as (i & q & Hi & Hq); [lia|]. exists i, q. split; [|done]. rewrite lookup_insert_ne; [done|congruence].
      - exists signal, p. rewrite lookup_insert_eq. split; [done|]. by destruct p. }
    destruct p as [|e|e]; [| |done].
    + exists (Select signal TimedOut). eexists. split_and!; [done..|]. by apply step_select.
    + exists (Leave signal). eexists. split_and!; [done..|]. by eapply step_leave.
Qed.

(** ** Two requests and one broadcast *)

Definition two_waiting : System :=
  {| waiter := {| waiters := {[1; 0]}%nat; closed := ∅; made := 2 |};
     requests := {[1%nat := Blocked; 0%nat := Blocked]}; panicked := false |}.

Lemma two_waiting_runs : runs idle [Enter; Enter] two_waiting.
Proof.
  eapply runs_cons; [by eapply step_enter|]. eapply runs_cons; [by eapply step_enter|].
  match goal with |- runs ?s [] _ => replace s with two_waiting; [constructor|] end. by vm_compute.
Qed.

Definition woken : System :=
  {| waiter := {| waiters := ∅; closed := {[0; 1]}%nat; made := 2 |};
     requests := {[1%nat := Returned TimedOut; 0%nat := Returned Signalled]}; panicked := false |}.

Definition wake_up : list label := [Unlock; Select 0 Signalled; Select 1 TimedOut; Leave 0; Leave 1].

(** The second one's timer is faster. *)
Lemma woken_runs : runs two_waiting wake_up woken.
Proof.
  eapply runs_cons; [apply step_unlock; vm_compute; reflexivity|].
  eapply runs_cons; [apply step_select; [reflexivity|intros _; apply (bool_decide_unpack _); vm_compute; exact I]|].
  eapply runs_cons; [apply step_select; [reflexivity|done]|].
  eapply runs_cons; [eapply step_leave; reflexivity|]. eapply runs_cons; [eapply step_leave; reflexivity|].
  match goal with |- runs ?s [] _ => replace s with woken; [constructor|] end. by vm_compute.
Qed.

Lemma broadcast_wakes_all_witness :
  exists s1, step two_waiting Unlock s1 /\ panicked s1 = false /\ Waiting (waiter s1) = 0%nat /\
    exists s3, step s1 (Select 1 Signalled) s3.
Proof.
  destruct (broadcast_wakes_all two_waiting) as ([s1 Hs] & Hall & _); [exists [Enter; Enter]; exact two_waiting_runs|].
  destruct (Hall s1 Hs) as (Hp & Hw & Hwake). exists s1. split; [exact Hs|]. split; [exact Hp|]. split; [exact Hw|].
  apply (Hwake 1%nat [] s1); [reflexivity|constructor|]. inversion Hs; reflexivity.
Defined.

Lemma runs_app s ls s1 ls' s2 : runs s ls s1 -> runs s1 ls' s2 -> runs s (ls ++ ls') s2.
Proof. induction 1; cbn; [done|]. intros. econstructor; eauto. Qed.

Lemma woken_by_broadcast_witness :
  exists ls1 ls2 s1 p, [Enter; Enter] ++ wake_up = ls1 ++ Unlock :: ls2 /\ runs idle ls1 s1 /\
    requests s1 !! 0%nat = Some p /\ present p.
Proof.
  apply (woken_by_broadcast idle ([Enter; Enter] ++ wake_up) woken 0%nat).
  - exists []. constructor.
  - reflexivity.
  - exact (runs_app _ _ _ _ _ two_waiting_runs woken_runs).
  - reflexivity.
Defined.

Lemma waits_end_witness : (4 + work woken = work two_waiting)%nat.
Proof.
  assert (Enter ∉ wake_up) as Hno by (unfold wake_up; set_solver).
  destruct (waits_end two_waiting wake_up woken) as [H _];
    [exists [Enter; Enter]; exact two_waiting_runs|exact woken_runs|exact Hno|]. exact H.
Defined.
