(* ===== verification/CredentialRegistry.v ===== *)
(** * credential/registry: where plaintext comes from (registry.go, unlock.go)

    The registry knows the sources of credentials and fetches by reference. A
    source is a parameter: what it promises is [SourceLaws]. The plaintext of a
    fetched value is in its box only; checking a coordinate leaves none. *)
From S2P Require Import Prelude GoStr Apperr GoTime World Outbound Store Machine.
From S2P Require Import Credential.
From S2P Require UnlockWait.
From S2P Require Matcher LeaseStore CredentialStore IdentityStore.
Open Scope Z_scope.

Definition ProbeInterval : Z := Minute.

(** How a wait for the unlocking of a source ends: the steps of the file
    [UnlockWait], seen from one request. *)
Class Unlocking := { wait_ends : list Z -> UnlockWait.ending }.

(** [Source]: its kind, whether it can be used now, and its plaintext. *)
Record Source := {
  source_Kind : string;
  Available : M Egress Code unit;
  source_Fetch : Reference -> M Egress Code Secret.Value;
}.

(** What every source keeps: it sends nothing through the adapters' channel, a
    failure leaves no plaintext, and a value that is returned is its only one. *)
Record SourceLaws (s : Source) : Prop := {
  Available_law d : wp (Available s) (fun _ d' => tidy d d') d;
  source_Fetch_law reference d : wp (source_Fetch s reference) (fun r d' => match r with
    | Ok v => fetched d d' v
    | Err _ => tidy d d' end) d;
}.

(** The map of sources, and how long to wait for one that is locked. *)
Record Registry := {
  sources : gmap string Source;
  unlock_timeout : Z;
}.

Definition supported (kind : string) : bool := one_of kind implemented.

Definition New (unlock : option Z) : Registry :=
  {| sources := ∅; unlock_timeout := default (UnlockWait.NewUnlockWaiter 0) unlock |}.

Definition Register (r : Registry) (s : Source) : result Code Registry :=
  if negb (supported (source_Kind s)) then Err CodeInvalidConfiguration
  else if bool_decide (is_Some (sources r !! source_Kind s)) then Err CodeInvalidConfiguration
  else Ok {| sources := <[source_Kind s := s]> (sources r); unlock_timeout := unlock_timeout r |}.

Definition Kinds (r : Registry) : list string :=
  filter (fun kind => is_Some (sources r !! kind)) implemented.

Record Registration := {
  rg_ProviderID : string;
  rg_ReferenceID : string;
  rg_Kind : string;
  rg_ProviderLabel : string;
  rg_ItemRef : string;
  rg_Field : string;
  rg_Service : string;
  rg_AccountLabel : string;
}.

Definition asCoordinateFailure (e : Code) : Code :=
  if (e ==? CodeProviderLockedTimeout) || (e ==? CodeVaultLocked) then e else CodeCredentialNotAuthorized.

Section registry.
Context `{Env} `{Unlocking} (r : Registry).

(** [Wait]. *)
Definition Wait : M Egress Code unit := fun w =>
  let d := db w in
  let waits' := waits d ++ [unlock_timeout r] in
  (UnlockWait.Wait_result (wait_ends waits'), mkWorld (mkEgress (wire d) waits' (boxes d)) (ticks w) (ids w) (stmts w)).

Definition locate (referenceID : string) : M DB Code (Reference * Source) :=
  _ ← refuse (referenceID ==? "") CodeInvalidRequest;
  reference ← CredentialStore.ReferenceByID referenceID;
  provider ← CredentialStore.ProviderByID (ProviderID reference);
  match sources r !! Kind provider with
  | Some source => mret (reference, source)
  | None => throw CodeProviderUnavailable
  end.

Definition Fetch (referenceID : string) : M Machine Code Secret.Value :=
  '(reference, source) ← in_tables (locate referenceID);
  _ ← refuse (HealthStatus reference !=? HealthOK) CodeProviderUnavailable;
  value ← try_ (in_outside (source_Fetch source reference));
  match value with
  | Ok value => mret value
  | Err e =>
      _ ← refuse (e !=? CodeVaultLocked) e;
      _ ← in_outside Wait;
      in_outside (source_Fetch source reference)
  end.

Definition Probe (referenceID : string) : M Machine Code Reference :=
  '(_, source) ← in_tables (locate referenceID);
  now ← Now;
  available ← try_ (in_outside (Available source));
  in_tables (CredentialStore.SetReferenceHealth referenceID
    (match available with Err _ => HealthUnavailable | Ok _ => HealthOK end) now now).

Definition ReferenceOf (referenceID : string) : M DB Code Reference := CredentialStore.ReferenceByID referenceID.

Definition Stale (reference : Reference) : M DB Code bool :=
  if IsZero (LastVerifiedAt reference) then mret true
  else now ← Now; mret (LastVerifiedAt reference <=? now - ProbeInterval).

Definition Disconnect (referenceID : string) : M DB (list string * Code) (list string) :=
  now ← Now;
  revoked ← map_err (fun failed => ([], failed.2)) (LeaseStore.RevokeLeasesByCredentialReference referenceID now);
  _ ← map_err (fun e => (revoked, e)) (CredentialStore.SetReferenceHealth referenceID HealthUnavailable now now);
  mret revoked.

(** The coordinate, as the source sees it. *)
Definition coordinate (spec : Registration) : Reference :=
  {| ID := ""; ProviderID := ""; ItemRef := rg_ItemRef spec; Field := rg_Field spec; Service := rg_Service spec;
     AccountLabel := ""; Metadata := ""; Capabilities := ""; HealthStatus := ""; LastVerifiedAt := 0;
     CreatedAt := 0; UpdatedAt := 0 |}.

Definition is_empty (v : Secret.Value) : M Egress Code bool := fun w => (Ok (Secret.IsEmpty v (db w)), w).

Definition resolves (source : Source) (spec : Registration) : M Egress Code unit :=
  value ← map_err asCoordinateFailure (source_Fetch source (coordinate spec));
  deferred (empty ← is_empty value; refuse empty CodeCredentialNotAuthorized) (Secret.Zero value).

Definition new_provider (spec : Registration) (now : Z) : Provider :=
  {| p_ID := rg_ProviderID spec; Kind := rg_Kind spec; Label := rg_ProviderLabel spec; p_CreatedAt := now;
     p_UpdatedAt := now |}.

Definition new_reference (spec : Registration) (now : Z) : Reference :=
  {| ID := rg_ReferenceID spec; ProviderID := ""; ItemRef := rg_ItemRef spec; Field := rg_Field spec;
     Service := rg_Service spec; AccountLabel := rg_AccountLabel spec; Metadata := "{}"; Capabilities := "[]";
     HealthStatus := HealthOK; LastVerifiedAt := now; CreatedAt := now; UpdatedAt := now |}.

(** The writing half of [RegisterReference]. *)
Definition settle (spec : Registration) (now : Z) : M DB Code Reference :=
  settled ← CredentialStore.CreateRegistration (new_provider spec now) (new_reference spec now);
  _ ← refuse (Service settled !=? rg_Service spec) CodeConflict;
  if (HealthStatus settled !=? HealthOK) || (LastVerifiedAt settled <? now) then
    CredentialStore.SetReferenceHealth (ID settled) HealthOK now now
  else mret settled.

Definition RegisterReference (spec : Registration) : M Machine Code Reference :=
  match sources r !! rg_Kind spec with
  | None => throw CodeProviderUnavailable
  | Some source =>
      _ ← in_outside (Available source);
      _ ← in_outside (resolves source spec);
      now ← Now;
      in_tables (settle spec now)
  end.
End registry.

(** [ReferenceFor] of cli/proxyexchange.go. *)
Definition ReferenceFor `{Env} (identityID : string) : M DB Code string :=
  identity ← IdentityStore.IdentityByID identityID;
  _ ← refuse (Matcher.CredentialReferenceID identity ==? "") CodeProviderUnavailable;
  mret (Matcher.CredentialReferenceID identity).

(** ** Fetching *)

Section fetching.
Context `{Env} `{Unlocking} (r : Registry).
Hypothesis lawful : forall kind s, sources r !! kind = Some s -> SourceLaws s.
Implicit Types d : Machine.

(** The reference, its row of the source table, and the source registered for it. *)
Definition located_at (t : DB) (referenceID : string) (reference : Reference) (source : Source) : Prop :=
  references t !! referenceID = Some reference /\
  exists p, providers t !! ProviderID reference = Some p /\ sources r !! Kind p = Some source.

Lemma wp_locate referenceID t :
  wp (locate r referenceID) (fun res t' => t' = t /\
    forall reference source, res = Ok (reference, source) -> located_at t referenceID reference source) t.
Proof.
  unfold locate, CredentialStore.ReferenceByID, CredentialStore.ProviderByID. wp_steps.
  destruct (referenceID ==? ""); [done|]. wp_steps. apply wp_select; [by wp_steps| |by wp_steps].
  intros reference Href. wp_steps. apply wp_select; [by wp_steps| |by wp_steps].
  intros p Hp. wp_steps. destruct (sources r !! Kind p) as [s|] eqn:Es; [|by apply wp_throw].
  wp_steps. split; [done|]. intros ? ? [= <- <-]. split; [done|]. by exists p.
Qed.

Lemma wp_Wait (Q : result Code unit -> Egress -> Prop) o :
  (forall res waits', Q res (mkEgress (wire o) waits' (boxes o))) -> wp (Wait r) Q o.
Proof. intros HQ w <-. unfold Wait. apply HQ. Qed.

Lemma wp_source_Fetch kind source reference (Q : result Code Secret.Value -> Machine -> Prop) d :
  sources r !! kind = Some source ->
  (forall v o, fetched (outside d) o v -> Q (Ok v) (mkMachine (tables d) o)) ->
  (forall e o, tidy (outside d) o -> Q (Err e) (mkMachine (tables d) o)) ->
  wp (in_outside (source_Fetch source reference)) Q d.
Proof.
  intros Hs Hok Herr. apply wp_in_outside. eapply wp_mono; [apply (source_Fetch_law _ (lawful _ _ Hs))|].
  intros [v|e] o Ho; auto.
Qed.

Lemma wp_Fetch referenceID d :
  wp (Fetch r referenceID) (fun res d' => tables d' = tables d /\ match res with
    | Ok v => fetched (outside d) (outside d') v /\
        exists reference source, located_at (tables d) referenceID reference source /\ HealthStatus reference = HealthOK
    | Err _ => tidy (outside d) (outside d') end) d.
Proof.
  unfold Fetch. wp_steps. apply wp_in_tables. eapply wp_mono; [apply wp_locate|].
  intros [[reference source]|e] t [-> Hl]; [|done]. specialize (Hl _ _ eq_refl) as Hl.
  destruct Hl as (Href & p & Hp & Hs). wp_steps. case_bool_decide as Hh; cbn [negb]; [|done].
  assert (exists reference source, located_at (tables d) referenceID reference source /\ HealthStatus reference = HealthOK)
    as Hfound by (exists reference, source; split; [split; [done|by exists p]|done]).
  wp_steps. eapply wp_source_Fetch; [exact Hs|by intros v o Ho; wp_steps|]. intros e o Ho. wp_steps.
  destruct (e !=? CodeVaultLocked); [done|]. wp_steps. apply wp_in_outside, wp_Wait. intros res waits'.
  assert (tidy (outside d) (mkEgress (wire o) waits' (boxes o))) as Ho' by exact Ho.
  destruct res as [[]|e']; [|done]. eapply wp_source_Fetch; [exact Hs| |].
  - intros v o' Hv. split_and!; [done| |done]. by eapply tidy_fetched.
  - intros e' o' He. split; [done|]. by etrans.
Qed.

(** Plaintext only for a healthy reference of a registered source, and
    nothing of it remains but the value. Fetching never writes the database; a
    value that is returned belongs to a reference in the table whose health is ok
    and whose source is registered; every box but its own is empty, as is every
    box after a failure - also when the source was locked and the run had to wait. *)
Theorem fetch_outcome referenceID d :
  wp (Fetch r referenceID) (fun res d' => tables d' = tables d /\ match res with
    | Ok v => fetched (outside d) (outside d') v /\
        exists reference source, located_at (tables d) referenceID reference source /\ HealthStatus reference = HealthOK
    | Err _ => tidy (outside d) (outside d') end) d.
Proof. exact (wp_Fetch referenceID d). Qed.

(** ** Registering *)

Lemma wp_resolves kind source spec o :
  sources r !! kind = Some source ->
  wp (resolves source spec) (fun _ o' => tidy o o') o.
Proof.
  intros Hs. unfold resolves. wp_steps.
  eapply wp_mono; [apply (source_Fetch_law _ (lawful _ _ Hs))|]. intros [v|e] o' Ho; [|done].
  apply wp_deferred. wp_steps. intros w Hw. unfold is_empty. cbn. rewrite Hw.
  apply wp_refuse. destruct (Secret.IsEmpty v o'); apply wp_Zero; by apply fetched_zero.
Qed.

(** The row a registration ends with. *)
Definition as_asked (spec : Registration) (t : DB) (x : Reference) : Prop :=
  references t !! ID x = Some x /\ HealthStatus x = HealthOK /\ Service x = rg_Service spec /\
  ItemRef x = rg_ItemRef spec /\ Field x = rg_Field spec /\
  exists p, providers t !! ProviderID x = Some p /\ Kind p = rg_Kind spec /\ Label p = rg_ProviderLabel spec.

(** What a reference is for never changes: not its source, its coordinate or its service. *)
Definition same_purpose (x y : Reference) : Prop :=
  ProviderID y = ProviderID x /\ ItemRef y = ItemRef x /\ Field y = Field x /\ Service y = Service x.

Definition purposes_kept (t t' : DB) : Prop :=
  forall i x, references t !! i = Some x -> exists y, references t' !! i = Some y /\ same_purpose x y.

Lemma purposes_sub t t' : references t ⊆ references t' -> purposes_kept t t'.
Proof. intros Hsub i x Hx. exists x. split; [by eapply lookup_weaken|done]. Qed.

Lemma purposes_insert t t' i x y :
  references t ⊆ references t' -> references t' !! i = Some x -> same_purpose x y ->
  purposes_kept t (put (<[i := y]> (references t')) t').
Proof.
  intros Hsub Hi Hxy j z Hz. cbn. eapply lookup_weaken in Hz; [|exact Hsub].
  destruct (decide (i = j)) as [<-|Hij].
  - exists y. rewrite lookup_insert_eq. split; [done|]. by simplify_eq.
  - exists z. rewrite lookup_insert_ne by done. done.
Qed.

Lemma wp_settle spec now t :
  CredentialStore.indexed t ->
  wp (settle spec now) (fun res t' => purposes_kept t t' /\ providers t ⊆ providers t' /\ match res with
    | Ok x => as_asked spec t' x
    | Err _ => True end) t.
Proof.
  intros Ht. unfold settle. wp_steps. eapply wp_mono; [by apply CredentialStore.wp_CreateRegistration|].
  intros [x|e] t1; [|intros ->; by split_and!; [apply purposes_sub| |]].
  intros (p & Hp & HK & HL & Hx & HI & HF & Hps & Hrs & _). wp_steps.
  case_bool_decide as Hsv; cbn [negb]; [|split_and!; [by apply purposes_sub|done|done]].
  wp_steps. destruct (_ || _) eqn:Eh.
  - unfold CredentialStore.SetReferenceHealth. wp_steps.
    assert (purposes_kept t t1 /\ providers t ⊆ providers t1) as Hkeep by (split; [by apply purposes_sub|done]).
    apply (wp_update (ID x) (fun _ => true)); try by (intros; wp_steps; destruct Hkeep; split_and!).
    intros row Hrow _ _. change (references t1 !! ID x = Some row) in Hrow. simplify_eq. wp_steps. split_and!; [|done|].
    + by eapply purposes_insert.
    + unfold as_asked. cbn. rewrite lookup_insert_eq. split_and!; try done. by exists p.
  - wp_steps. split_and!; [by apply purposes_sub|done|]. apply orb_false_iff in Eh as [Eh _].
    unfold as_asked. bools. split_and!; try done. by exists p.
Qed.

(** Only what resolves is registered, and only for the service it is
    registered for. A registration writes nothing unless its source is known; a
    reference that comes back is in the table, healthy, at the coordinate of the
    request, of the source of the request and for the service of the request - a
    coordinate of another service is never taken over; whatever happens, the
    source, coordinate and service of the references that were there stay, and the
    plaintext that was fetched to check the coordinate is emptied. *)
Theorem registered_resolves spec d :
  CredentialStore.indexed (tables d) ->
  wp (RegisterReference r spec) (fun res d' =>
    tidy (outside d) (outside d') /\ purposes_kept (tables d) (tables d') /\
    (sources r !! rg_Kind spec = None -> tables d' = tables d) /\
    (forall x, res = Ok x -> as_asked spec (tables d') x)) d.
Proof.
  intros Ht. assert (purposes_kept (tables d) (tables d)) as Hkeep by by apply purposes_sub.
  unfold RegisterReference. destruct (sources r !! rg_Kind spec) as [source|] eqn:Es; [|by apply wp_throw].
  wp_steps. apply wp_in_outside. eapply wp_mono; [apply (Available_law _ (lawful _ _ Es))|].
  intros [[]|e] o Ho; [|done]. wp_steps. apply wp_in_outside. eapply wp_mono; [by eapply wp_resolves|].
  intros [[]|e] o' Ho'; (assert (tidy (outside d) o') as Hall by by etrans); [|done].
  wp_steps. apply wp_in_tables. eapply wp_mono; [by apply wp_settle|].
  intros res t' (Hk & _ & Hres). split_and!; [done|done|done|]. by intros x ->.
Qed.
End fetching.

(** ** Disconnecting *)

Section disconnecting.
Context `{Env}.
Implicit Types t : DB.

(** Some of the leases [sel] picks were revoked at [n]; no other row is touched. *)
Definition dropping (sel : Lease.Lease -> bool) (n : Z) t t' : Prop :=
  t' = put (leases t') t /\
  forall id, leases t' !! id = leases t !! id \/
    exists l, leases t !! id = Some l /\ sel l = true /\
      leases t' !! id = Some (Lease.closed l Lease.StatusRevoked n).

Lemma dropping_refl sel n t : dropping sel n t t.
Proof. split; [by destruct t|by left]. Qed.

Lemma dropping_active sel n t t' id l :
  dropping sel n t t' -> leases t' !! id = Some l -> Lease.isActive l = true -> leases t !! id = Some l.
Proof. intros [_ Hd] Hl Ha. destruct (Hd id) as [<-|(x & _ & _ & Hx)]; [done|]. by simplify_eq. Qed.

Lemma dropping_step sel n t t1 id l :
  dropping sel n t t1 -> leases t !! id = Some l -> sel l = true ->
  dropping sel n t (put (<[id := Lease.closed l Lease.StatusRevoked n]> (leases t1)) t1).
Proof.
  intros [Hf Hd] Hl Hs. split; [rewrite Hf; by destruct t|]. intros i. cbn.
  destruct (decide (id = i)) as [<-|Hi]; [right|by rewrite lookup_insert_ne].
  exists l. by rewrite lookup_insert_eq.
Qed.

Lemma wp_RevokeLeases referenceID n t :
  (forall id l, leases t !! id = Some l -> Lease.ID l = id) ->
  wp (LeaseStore.RevokeLeasesByCredentialReference referenceID n) (fun r t' =>
    dropping (LeaseStore.dependsOn t referenceID) n t t' /\
    match r with
    | Ok revoked => Z.of_nat (length revoked) < LeaseStore.revocationLimit ->
        forall id l, leases t' !! id = Some l -> LeaseStore.dependsOn t referenceID l = false
    | Err _ => True
    end) t.
Proof.
  intros Hk. set (sel := LeaseStore.dependsOn t referenceID). pose proof (dropping_refl sel n t) as Hrefl.
  assert (forall l, sel l = true -> Lease.isActive l = true) as Hact
    by (unfold sel, LeaseStore.dependsOn; intros; by bools).
  unfold LeaseStore.RevokeLeasesByCredentialReference. wp_steps.
  destruct (referenceID ==? ""); [done|]. wp_steps. apply wp_query; [by wp_steps|..]; [intros page [= <-]|done].
  wp_steps. fold sel. set (page := select sel _ _ _).
  destruct (select_listing sel (by_key Lease.ExpiresAt) LeaseStore.revocationLimit (leases t) eq_refl) as [Hs _ _ Hc].
  fold page in Hs, Hc.
  apply (wp_each _ (fun acc rest t' => (forall x, x ∈ rest -> x ∈ page) /\
    (length acc + length rest = length page)%nat /\ dropping sel n t t' /\
    (Z.of_nat (length page) < LeaseStore.revocationLimit ->
     forall id l, leases t' !! id = Some l -> sel l = true -> l ∈ rest))).
  - split_and!; [done|done|done|]. intros Hlen id l Hl Hsel. by apply (Hc l id).
  - intros acc t' (_ & Hlen & Hd & Hrest). split; [done|]. intros Hl id l Hid.
    apply not_true_iff_false. intros Hsel. simpl in Hlen.
    apply (not_elem_of_nil l). by apply (Hrest ltac:(lia) id).
  - intros acc x rest t1 (Hsub & Hlen & Hd & Hrest). wp_steps.
    destruct (Hs x (Hsub x ltac:(left))) as [Hsel [idx Hx]]. pose proof (Hk _ _ Hx) as <-.
    eapply wp_mono; [apply LeaseStore.Close_ok|].
    intros res t2 [[-> (c & -> & _)]|(l & Hl & Ha & _ & -> & Hread)]; [done|].
    pose proof (dropping_active _ _ _ _ _ _ Hd Hl Ha). simplify_eq.
    pose proof (dropping_step _ _ _ _ _ _ Hd Hx Hsel) as Hd2.
    destruct (Lease.toLease _) as [l'|c]; [|done]. wp_steps. split_and!; [| |done|].
    + intros y Hy. apply Hsub. by right.
    + rewrite length_app. simpl in *. lia.
    + intros Hlim id y. simpl. rewrite lookup_insert_Some. intros [[<- <-]|[Hne Hy]] Hysel.
      { by apply Hact in Hysel. }
      specialize (Hrest Hlim id y Hy Hysel). apply elem_of_cons in Hrest as [->|?]; [|done].
      apply (dropping_active _ _ _ _ _ _ Hd) in Hy; [|by apply Hact]. by rewrite (Hk _ _ Hy) in Hne.
Qed.

(** Disconnecting a credential takes its leases back first. Only leases of
    identities that use the reference change, and only by being revoked; a failure
    leaves every reference as it was, so the reference is never marked unavailable
    while a revocation is missing; after a success the reference is unavailable,
    which [Fetch] refuses, nothing else changed, and - when the page of a thousand
    was not full - no active lease depends on the reference any more. *)
Theorem disconnect_outcome referenceID t :
  (forall id l, leases t !! id = Some l -> Lease.ID l = id) ->
  wp (Disconnect referenceID) (fun r t' => exists n,
    dropping (LeaseStore.dependsOn t referenceID) n t (put (references t) t') /\
    match r with
    | Ok revoked =>
        (exists x, references t !! referenceID = Some x /\
          references t' = <[referenceID := CredentialStore.with_health x (ProviderID x) HealthUnavailable
            (optionalTime n) (CreatedAt x) (column n)]> (references t)) /\
        (Z.of_nat (length revoked) < LeaseStore.revocationLimit ->
         forall id l, leases t' !! id = Some l -> LeaseStore.dependsOn t' referenceID l = false)
    | Err _ => references t' = references t
    end) t.
Proof.
  intros Hk. unfold Disconnect. wp_steps. set (now := clock_at n). eapply wp_mono; [by apply wp_RevokeLeases|].
  intros [revoked|e] t1 [Hd Hrest]; wp_steps; pose proof (proj1 Hd) as Hf;
    (assert (references t1 = references t) as Hrf by by rewrite Hf).
  2: { exists now. split; [|done]. replace (put (references t) t1) with t1; [done|]. rewrite <- Hrf. by destruct t1. }
  unfold CredentialStore.SetReferenceHealth. wp_steps.
  assert (put (references t) t1 = t1) as Hsame by (rewrite <- Hrf; by destruct t1).
  apply (wp_update referenceID (fun _ => true)); try by (intros; wp_steps; exists now; rewrite Hsame).
  intros x Hx _ _. change (references t1 !! referenceID = Some x) in Hx. wp_steps. exists now. split_and!.
  - by rewrite put_put, Hsame.
  - exists x. rewrite <- Hrf. done.
  - intros Hlen id l Hl. unfold LeaseStore.dependsOn. cbn. rewrite Hf. by apply (Hrest Hlen id l).
Qed.
End disconnecting.
