(* ===== verification/Commands.v ===== *)
(** * credential/registry/binary.go: command-line tools that give out plaintext

    Two sources of credentials are programs of the system: they are found, checked
    and called here, and what they print becomes a secret in the buffer it was
    printed to. The system is a parameter: where a name is found, the permission
    bits of a file, what a program prints, and when the time of a call runs out. *)
From S2P Require Import Prelude GoStr Apperr World Outbound Machine.
From S2P Require FilePath.
Open Scope Z_scope.

(** Everything may change from one call to the next; a program that fails, or
    cannot be started, prints nothing. *)
Class Commands := {
  LookPath : nat -> string -> option string;
  permissions : nat -> string -> option Z;
  printed : nat -> string -> list string -> option string;
  out_of_time : nat -> Z -> bool;
}.

(** [bytes.TrimRight] of bytes. *)
Fixpoint TrimRight (cutset s : string) : string :=
  match s with
  | "" => ""
  | String c r => let t := TrimRight cutset r in if (t ==? "") && ascii_in cutset c then "" else String c t
  end.

Definition CR_LF : string := String (of_byte 13) (String (of_byte 10) "").

(** 0o022: the bits that let somebody else write. *)
Definition othersWrite : Z := 18.

Section commands.
Context `{Commands}.

Definition ResolveBinary (i : nat) (name : string) : result Code string :=
  match LookPath i name with
  | None => Err CodeProviderUnavailable
  | Some located =>
      _ ← refuse_if (negb (FilePath.IsAbs located)) CodeProviderUnavailable;
      match permissions i located with
      | None => Err CodeProviderUnavailable
      | Some mode =>
          _ ← refuse_if (negb (Z.land mode othersWrite =? 0)) CodeProviderUnavailable;
          Ok located
      end
  end.

(** [execRunner.Run]. *)
Definition execute (i : nat) (binary : string) (args : list string) : result Code string :=
  resolved ← ResolveBinary i binary;
  match printed i resolved args with Some output => Ok output | None => Err CodeProviderUnavailable end.

(** [run] of both sources. *)
Definition run (timeout : Z) (binary : string) (args : list string) : M Egress Code string := fun w =>
  let i := stmts w in
  (match execute i binary args with
   | Ok output => Ok output
   | Err e => Err (if out_of_time i timeout then CodeProviderLockedTimeout else e)
   end, mkWorld (db w) (ticks w) (ids w) (S i)).

(** The buffer keeps what is given out; the bytes that were cut off are
    overwritten. *)
Definition Keep (buffer : Secret.Value) (trimmed : string) : M Egress Code unit := fun w =>
  let d := db w in
  let boxes' := match buffer with None => boxes d | Some i => <[i := trimmed]> (boxes d) end in
  (Ok tt, mkWorld (mkEgress (wire d) (waits d) boxes') (ticks w) (ids w) (stmts w)).

(** The value of what was printed, which is not empty. *)
Definition wrapped (output : string) : M Egress Code Secret.Value :=
  buffer ← Secret.New output;
  let trimmed := TrimRight CR_LF output in
  if trimmed ==? "" then
    _ ← Secret.Zero buffer;
    throw CodeCredentialNotAuthorized
  else
    _ ← Keep buffer trimmed;
    mret buffer.

(** ** What a call leaves *)

(** A program that nobody else can replace. *)
Definition trusted (i : nat) (name path : string) : Prop :=
  LookPath i name = Some path /\ FilePath.IsAbs path = true /\
  exists mode, permissions i path = Some mode /\ Z.land mode othersWrite = 0.

Lemma ResolveBinary_Ok i name path : ResolveBinary i name = Ok path <-> trusted i name path.
Proof.
  unfold ResolveBinary, trusted. split.
  - destruct (LookPath i name) as [located|]; [|done]. destruct (FilePath.IsAbs located) eqn:Ha; cbn; [|done].
    destruct (permissions i located) as [mode|] eqn:Hp; [|done]. destruct (Z.land mode othersWrite =? 0) eqn:Hm; cbn; [|done].
    intros [= <-]. apply Z.eqb_eq in Hm. split_and!; [done..|by exists mode].
  - intros (-> & -> & mode & -> & Hm). cbn. by rewrite Hm.
Qed.

Lemma ResolveBinary_Err i name e : ResolveBinary i name = Err e -> e = CodeProviderUnavailable.
Proof.
  unfold ResolveBinary. repeat case_match; try done; try by intros [= <-].
  all: repeat (destruct (negb _); cbn); congruence.
Qed.

Lemma run_spec timeout binary args w :
  match run timeout binary args w with
  | (Ok output, w') => w' = mkWorld (db w) (ticks w) (ids w) (S (stmts w)) /\
      exists path, trusted (stmts w) binary path /\ printed (stmts w) path args = Some output
  | (Err e, w') => w' = mkWorld (db w) (ticks w) (ids w) (S (stmts w)) /\
      e ∈ [CodeProviderUnavailable; CodeProviderLockedTimeout]
  end.
Proof.
  unfold run, execute. destruct (ResolveBinary (stmts w) binary) as [path|e] eqn:Hr; cbn [mbind result_bind].
  - apply ResolveBinary_Ok in Hr. destruct (printed _ _ _) eqn:Hp; (split; [done|]); [by exists path|].
    case_match; set_solver.
  - apply ResolveBinary_Err in Hr as ->. split; [done|]. case_match; set_solver.
Qed.

Lemma wp_run timeout binary args (Q : result Code string -> Egress -> Prop) d :
  (forall r, Q r d) -> wp (run timeout binary args) Q d.
Proof. intros HQ w <-. apply HQ. Qed.

Lemma insert_last {A} (l : list A) x y : <[length l := x]> (l ++ [y]) = l ++ [x].
Proof. by rewrite insert_app_r_alt, Nat.sub_diag. Qed.

Lemma wrapped_spec output w :
  match wrapped output w with
  | (Ok v, w') => fetched (db w) (db w') v /\ Secret.Reveal v (db w') = TrimRight CR_LF output /\ TrimRight CR_LF output <> ""
  | (Err e, w') => e = CodeCredentialNotAuthorized /\ TrimRight CR_LF output = "" /\ tidy (db w) (db w')
  end.
Proof.
  unfold wrapped. unfold mbind, M_bind, Secret.New. cbn.
  destruct (TrimRight CR_LF output ==? "") eqn:Ht; cbn [Secret.Zero Keep].
  - apply bool_decide_eq_true in Ht. split_and!; [done..|]. cbn. split; [done|]. exists [""].
    rewrite insert_last. split; [done|by repeat constructor].
  - apply bool_decide_eq_false in Ht. split_and!; [|cbn|done].
    + split; [done|]. exists [], (TrimRight CR_LF output). cbn. rewrite insert_last.
      split_and!; [done|by constructor|]. by rewrite Nat.add_0_r.
    + by rewrite insert_last, lookup_app_r, Nat.sub_diag.
Qed.

Lemma wp_wrapped output d :
  wp (wrapped output) (fun r d' => match r with Ok v => fetched d d' v | Err _ => tidy d d' end) d.
Proof.
  intros w <-. pose proof (wrapped_spec output w) as Hs. destruct (wrapped output w) as [[v|e] w']; cbn; tauto.
Qed.
End commands.

Example trimmed : TrimRight CR_LF ("ghp" +:+ CR_LF +:+ "x" +:+ CR_LF +:+ CR_LF) = "ghp" +:+ CR_LF +:+ "x" /\ TrimRight CR_LF CR_LF = "".
Proof. by vm_compute. Qed.
