(* ===== verification/OnePassword.v ===== *)
(** * credential/onepassword: one field of one item, through op (source.go) *)
From S2P Require Import Prelude GoStr Apperr World Outbound Machine Commands.
From S2P Require Import Credential CredentialRegistry.
Open Scope Z_scope.

Definition DefaultBinary : string := "op".
Definition DefaultTimeout : Z := 30 * GoTime.Second.

Record Options := { o_Binary : string; o_Timeout : Z }.
Record OnePassword := { binary : string; timeout : Z }.

Definition New (options : Options) : OnePassword :=
  {| binary := if o_Binary options ==? "" then DefaultBinary else o_Binary options;
     timeout := if o_Timeout options <=? 0 then DefaultTimeout else o_Timeout options |}.

Definition scheme : string := "op://".
Definition notAuthorized : Code := CodeCredentialNotAuthorized.

(** A segment with which the address would mean more than one field. *)
Definition widens (segment : string) : bool :=
  (segment ==? "") || contains_any segment "*?" || contains segment ".." || contains_any segment CR_LF.

Definition readURI (reference : Reference) : result Code string :=
  _ ← refuse_if (negb (has_prefix (ItemRef reference) scheme)) notAuthorized;
  match split_on "/" (trim_prefix (ItemRef reference) scheme) with
  | [vault; item] =>
      _ ← refuse_if (existsb widens [vault; item; Field reference]) notAuthorized;
      _ ← refuse_if (contains (Field reference) "/") notAuthorized;
      Ok (ItemRef reference +:+ "/" +:+ Field reference)
  | _ => Err notAuthorized
  end.

Section source.
Context `{Commands} (s : OnePassword).

Definition Available : M Egress Code unit :=
  _ ← run (timeout s) (binary s) ["--version"];
  mret tt.

Definition Fetch (reference : Reference) : M Egress Code Secret.Value :=
  uri ← of_result (readURI reference);
  output ← run (timeout s) (binary s) ["read"; "--no-newline"; uri];
  wrapped output.

Definition source : CredentialRegistry.Source :=
  {| source_Kind := KindOnePassword; CredentialRegistry.Available := Available; source_Fetch := Fetch |}.

(** What the registry asks of a source. *)
Lemma onepassword_laws : SourceLaws source.
Proof.
  split; intros; cbn; unfold Available, Fetch.
  - apply wp_bind, wp_run. intros [?|?]; [by apply wp_ret|done].
  - apply wp_bind, wp_of_result. destruct (readURI _) as [uri|e]; [|done].
    apply wp_bind, wp_run. intros [output|?]; [apply wp_wrapped|done].
Qed.

(** ** The address *)

(** A text that names one thing. *)
Definition plain (segment : string) : Prop := widens segment = false /\ contains segment "/" = false.

Definition address (vault item field : string) : string := scheme +:+ vault +:+ "/" +:+ item +:+ "/" +:+ field.

Definition names (reference : Reference) (vault item : string) : Prop :=
  ItemRef reference = scheme +:+ vault +:+ "/" +:+ item /\ plain vault /\ plain item /\ plain (Field reference).

Lemma contains_slash t : contains t "/" = str_exists (fun c => c ==? "/"%char) t.
Proof.
  induction t as [|c t IH]; [done|]. cbn [contains str_exists]. rewrite IH. f_equal. cbn [String.prefix].
  destruct (ascii_dec "/" c) as [<-|Hc]; [by destruct t|]. symmetry. apply bool_decide_eq_false. congruence.
Qed.

Lemma split_one t : contains t "/" = false -> split_on "/" t = [t].
Proof.
  induction t as [|c t IH]; [done|]. rewrite contains_slash. cbn [str_exists split_on]. intros [Hc Ht]%orb_false_iff.
  rewrite Hc, IH; [done|]. by rewrite contains_slash.
Qed.

Lemma split_first a b : contains a "/" = false -> split_on "/" (a +:+ "/" +:+ b) = a :: split_on "/" b.
Proof.
  induction a as [|c a IH]; [done|]. rewrite contains_slash. cbn [str_exists]. intros [Hc Ha]%orb_false_iff.
  rewrite str_app_cons. cbn [split_on]. rewrite Hc, IH; [done|]. by rewrite contains_slash.
Qed.

Lemma readURI_Ok reference uri :
  readURI reference = Ok uri <->
  exists vault item, names reference vault item /\ uri = address vault item (Field reference).
Proof.
  unfold readURI, names, address, plain. split.
  - destruct (has_prefix _ _) eqn:Hp; [|done]. apply prefix_spec in Hp as (rest & ->). rewrite trim_prefix_app. cbn [negb refuse_if mbind result_bind].
    destruct (split_on "/" rest) as [|vault [|item [|? ?]]] eqn:Hs; try done.
    destruct (existsb _ _) eqn:Hw; [done|]. destruct (contains (Field reference) "/") eqn:Hf; [done|]. intros [= <-].
    cbn in Hw. rewrite !orb_false_iff in Hw. destruct Hw as (Hv & Hi & Hfw & _). exists vault, item.
    assert (rest = vault +:+ "/" +:+ item) as -> by (rewrite <- (join_split "/" rest), Hs; done).
    assert (forall x, x ∈ [vault; item] -> contains x "/" = false) as Hn.
    { intros x Hx. rewrite contains_slash. rewrite <- Hs in Hx. by apply split_on_no_sep in Hx. }
    split_and!; try done; try (apply Hn; set_solver). by rewrite !str_app_assoc.
  - intros (vault & item & (Hr & [Hv Hvs] & [Hi His] & [Hf Hfs]) & ->). rewrite Hr.
    assert (has_prefix (scheme +:+ vault +:+ "/" +:+ item) scheme = true) as -> by apply prefix_refl_app.
    cbn [negb refuse_if mbind result_bind]. rewrite trim_prefix_app, split_first, split_one by done. cbn [existsb].
    rewrite Hv, Hi, Hf, Hfs. cbn. by rewrite !str_app_assoc.
Qed.

Lemma address_inj v1 i1 f1 v2 i2 f2 :
  plain v1 -> plain i1 -> plain f1 -> plain v2 -> plain i2 -> plain f2 ->
  address v1 i1 f1 = address v2 i2 f2 -> v1 = v2 /\ i1 = i2 /\ f1 = f2.
Proof.
  unfold address. intros [_ H1] [_ H2] [_ H3] [_ H4] [_ H5] [_ H6] Heq.
  apply (f_equal (fun t => split_on "/" (trim_prefix t scheme))) in Heq. rewrite !trim_prefix_app in Heq.
  rewrite !split_first, !split_one in Heq by done. by injection Heq as <- <- <-.
Qed.

(** Exactly the field the user chose. A fetch gives out a value only for a
    reference that names one vault, one item and one field - none of them empty,
    with a wildcard, a step upwards, a slash or a line break - and the value is
    what a program that nobody else can replace printed for the address of exactly
    this field, without the line breaks at its end, and it is in the one box that
    is left; every failure leaves no plaintext. Two references with the same
    address are the same: no address means more than one field. *)
Theorem fetch_one_field reference w :
  match Fetch reference w with
  | (Ok v, w') => exists vault item path output,
      names reference vault item /\ trusted (stmts w) (binary s) path /\
      printed (stmts w) path ["read"; "--no-newline"; address vault item (Field reference)] = Some output /\
      fetched (db w) (db w') v /\ Secret.Reveal v (db w') = TrimRight CR_LF output /\ TrimRight CR_LF output <> ""
  | (Err e, w') => e ∈ [CodeCredentialNotAuthorized; CodeProviderUnavailable; CodeProviderLockedTimeout] /\ tidy (db w) (db w')
  end /\
  forall other uri, readURI reference = Ok uri -> readURI other = Ok uri ->
    ItemRef other = ItemRef reference /\ Field other = Field reference.
Proof.
  split.
  - unfold Fetch, of_result, mbind, M_bind. destruct (readURI reference) as [uri|e] eqn:Hu.
    + apply readURI_Ok in Hu as (vault & item & Hn & ->).
      pose proof (run_spec (timeout s) (binary s) ["read"; "--no-newline"; address vault item (Field reference)] w) as Hr.
      destruct (run _ _ _ w) as [[output|e] w1].
      * destruct Hr as (-> & path & Ht & Hp). pose proof (wrapped_spec output (mkWorld (db w) (ticks w) (ids w) (S (stmts w)))) as Hs.
        destruct (wrapped output _) as [[v|e] w2]; cbn in Hs.
        -- exists vault, item, path, output. tauto.
        -- destruct Hs as (-> & _ & Hs). split; [set_solver|done].
      * destruct Hr as [-> He]. cbn. split; [set_solver|apply tidy_refl].
    + cbn. split; [|apply tidy_refl]. revert Hu. unfold readURI. repeat case_match; unfold refuse_if, mbind, result_bind;
        repeat case_match; intros; simplify_eq; set_solver.
  - intros other uri (v1 & i1 & (Hr1 & ? & ? & ?) & ->)%readURI_Ok (v2 & i2 & (Hr2 & ? & ? & ?) & Heq)%readURI_Ok.
    apply address_inj in Heq as (<- & <- & <-); [|done..]. by rewrite Hr1, Hr2.
Qed.
End source.

(** ** A sample system *)

Definition sample_reference : Reference :=
  {| ID := "r"; ProviderID := "p"; ItemRef := "op://Work/GitHub"; Field := "token"; Service := "github"; AccountLabel := "";
     Metadata := ""; Capabilities := ""; HealthStatus := HealthOK; LastVerifiedAt := 0; CreatedAt := 0; UpdatedAt := 0 |}.

Definition with_item (item field : string) : Reference :=
  {| ID := "r"; ProviderID := "p"; ItemRef := item; Field := field; Service := "github"; AccountLabel := "";
     Metadata := ""; Capabilities := ""; HealthStatus := HealthOK; LastVerifiedAt := 0; CreatedAt := 0; UpdatedAt := 0 |}.

Definition sample_commands : Commands := {|
  LookPath _ name := Some ("/usr/bin/" +:+ name);
  permissions _ path := Some (if path ==? "/usr/bin/loose" then 511 else 493);
  printed _ path args :=
    if bool_decide (args = ["read"; "--no-newline"; "op://Work/GitHub/token"]) then Some ("ghp_x" +:+ CR_LF) else None;
  out_of_time i _ := (i =? 7)%nat;
|}.

Example fetched_field :
  let s := New {| o_Binary := ""; o_Timeout := 0 |} in
  let get reference i := let '(r, w') := Fetch (H := sample_commands) s reference (mkWorld (mkEgress [] [] []) 0 0 i) in (r, boxes (db w')) in
  get sample_reference 0%nat = (Ok (Some 0%nat), ["ghp_x"]) /\
  get (with_item "op://Work/Other" "token") 7%nat = (Err CodeProviderLockedTimeout, []) /\
  get (with_item "op://Work/Other" "token") 0%nat = (Err CodeProviderUnavailable, []) /\
  get (with_item "op://Work" "token") 0%nat = (Err CodeCredentialNotAuthorized, []) /\
  get (with_item "op://Work/Git*" "token") 0%nat = (Err CodeCredentialNotAuthorized, []) /\
  get (with_item "op://Work/GitHub" "x/token") 0%nat = (Err CodeCredentialNotAuthorized, []) /\
  ResolveBinary (H := sample_commands) 0 "loose" = Err CodeProviderUnavailable.
Proof. by vm_compute. Qed.
