(* ===== verification/Keychain.v ===== *)
(** * credential/keychain: one password of the macOS keychain, through security (source.go) *)
From S2P Require Import Prelude GoStr Apperr World Url Outbound Machine Commands.
From S2P Require Import Credential CredentialRegistry.
Open Scope Z_scope.

Definition DefaultBinary : string := "/usr/bin/security".
Definition DefaultTimeout : Z := 30 * GoTime.Second.

Definition KindGeneric : string := "generic".
Definition KindInternet : string := "internet".

Record Options := { o_Binary : string; o_Timeout : Z; o_GOOS : string }.
Record Keychain := { binary : string; timeout : Z; goos : string }.

(** [runtime] is the platform this runs on. *)
Definition New (runtime : string) (options : Options) : Keychain :=
  {| binary := if o_Binary options ==? "" then DefaultBinary else o_Binary options;
     timeout := if o_Timeout options <=? 0 then DefaultTimeout else o_Timeout options;
     goos := if o_GOOS options ==? "" then runtime else o_GOOS options |}.

Definition scheme : string := "keychain://".
Definition notAuthorized : Code := CodeCredentialNotAuthorized.

Definition checkSegment (segment : string) : result Code unit :=
  if segment ==? "" then Err notAuthorized
  else if contains_any segment "*?" then Err notAuthorized
  else if contains_any segment CR_LF then Err notAuthorized
  else if has_prefix segment "-" then Err notAuthorized
  else Ok tt.

Definition parseItemRef (itemRef : string) : result Code (string * string) :=
  _ ← refuse_if (negb (has_prefix itemRef scheme)) notAuthorized;
  let '(kind, service, found) := cut "/" (trim_prefix itemRef scheme) in
  _ ← refuse_if (negb found) notAuthorized;
  _ ← refuse_if ((kind !=? KindGeneric) && (kind !=? KindInternet)) notAuthorized;
  _ ← checkSegment service;
  Ok (kind, service).

Definition arguments (kind service account : string) : list string :=
  [if kind ==? KindInternet then "find-internet-password" else "find-generic-password"; "-s"; service; "-a"; account; "-w"].

Section source.
Context `{Commands} (s : Keychain).

Definition supported : M Egress Code unit := refuse (goos s !=? "darwin") CodeProviderNotSupportedOnPlatform.

Definition Available : M Egress Code unit :=
  _ ← supported;
  _ ← run (timeout s) (binary s) ["help"];
  mret tt.

Definition Fetch (reference : Reference) : M Egress Code Secret.Value :=
  _ ← supported;
  '(kind, service) ← of_result (parseItemRef (ItemRef reference));
  _ ← of_result (checkSegment (Field reference));
  output ← run (timeout s) (binary s) (arguments kind service (Field reference));
  wrapped output.

Definition source : CredentialRegistry.Source :=
  {| source_Kind := KindMacOSKeychain; CredentialRegistry.Available := Available; source_Fetch := Fetch |}.

(** What the registry asks of a source. *)
Lemma keychain_laws : SourceLaws source.
Proof.
  split; intros; cbn; unfold Available, Fetch, supported.
  - apply wp_bind, wp_refuse. destruct (goos s !=? _); [done|]. apply wp_bind, wp_run. intros [?|?]; [by apply wp_ret|done].
  - apply wp_bind, wp_refuse. destruct (goos s !=? _); [done|]. apply wp_bind, wp_of_result. destruct (parseItemRef _) as [[kind service]|e]; [|done].
    apply wp_bind, wp_of_result. destruct (checkSegment _); [|done].
    apply wp_bind, wp_run. intros [output|?]; [apply wp_wrapped|done].
Qed.

(** A value that can be neither a pattern nor an option. *)
Definition quiet (segment : string) : Prop :=
  segment <> "" /\ contains_any segment "*?" = false /\ contains_any segment CR_LF = false /\ has_prefix segment "-" = false.

Lemma checkSegment_Ok segment u : checkSegment segment = Ok u <-> quiet segment.
Proof.
  destruct u. unfold checkSegment, quiet. destruct (segment ==? "") eqn:E; [apply bool_decide_eq_true in E|apply bool_decide_eq_false in E].
  { split; [done|]. by intros [? _]. }
  repeat case_match; naive_solver.
Qed.

Lemma checkSegment_Err segment e : checkSegment segment = Err e -> e = notAuthorized.
Proof. unfold checkSegment. repeat case_match; congruence. Qed.

Lemma cut_found sep t a b : cut sep t = (a, b, true) -> t = a +:+ String sep b.
Proof.
  revert a. induction t as [|c t IH]; intros a; cbn [cut]; [done|]. destruct (c ==? sep) eqn:Hc.
  - apply bool_decide_eq_true in Hc as ->. by intros [= <- <-].
  - destruct (cut sep t) as [[a' b'] f]. intros [= <- -> ->]. rewrite str_app_cons. f_equal. by apply IH.
Qed.

Lemma parseItemRef_Ok itemRef kind service :
  parseItemRef itemRef = Ok (kind, service) ->
  itemRef = scheme +:+ kind +:+ "/" +:+ service /\ kind ∈ [KindGeneric; KindInternet] /\ quiet service.
Proof.
  unfold parseItemRef. destruct (has_prefix itemRef scheme) eqn:Hp; [|done]. apply prefix_spec in Hp as (rest & ->).
  cbn [negb refuse_if mbind result_bind]. rewrite trim_prefix_app. destruct (cut "/" rest) as [[k b] found] eqn:Hc.
  destruct found; [|done]. apply cut_found in Hc as ->. cbn [negb refuse_if mbind result_bind].
  destruct ((k !=? KindGeneric) && _) eqn:Hk; [done|]. destruct (checkSegment b) as [u|] eqn:Hb; [|done].
  cbn [refuse_if mbind result_bind]. intros [= <- <-]. apply checkSegment_Ok in Hb. split_and!; [done| |done].
  rewrite andb_false_iff, !negb_false_iff, !bool_decide_eq_true in Hk. set_solver.
Qed.

Lemma parseItemRef_Err itemRef e : parseItemRef itemRef = Err e -> e = notAuthorized.
Proof.
  unfold parseItemRef. destruct (has_prefix _ _); cbn; [|by intros [= <-]]. destruct (cut _ _) as [[k b] []]; cbn; [|by intros [= <-]].
  destruct ((k !=? KindGeneric) && _); cbn; [by intros [= <-]|]. destruct (checkSegment b) eqn:Hb; cbn; [done|].
  intros [= <-]. by eapply checkSegment_Err.
Qed.

(** Exactly the password the user chose, on the one platform that has a
    keychain. A value is given out only for a reference to one generic or internet
    password, whose service and account can be taken for neither a pattern nor an
    option - so that the program is called with these two values in their places
    and nothing else - and it is what a program that nobody else can replace
    printed for this call, without the line breaks at its end, in the one box that
    is left; every failure leaves no plaintext, and elsewhere nothing is called. *)
Theorem fetch_one_password reference w :
  match Fetch reference w with
  | (Ok v, w') => exists kind service path output,
      goos s = "darwin" /\ ItemRef reference = scheme +:+ kind +:+ "/" +:+ service /\ kind ∈ [KindGeneric; KindInternet] /\
      quiet service /\ quiet (Field reference) /\ trusted (stmts w) (binary s) path /\
      printed (stmts w) path (arguments kind service (Field reference)) = Some output /\
      fetched (db w) (db w') v /\ Secret.Reveal v (db w') = TrimRight CR_LF output /\ TrimRight CR_LF output <> ""
  | (Err e, w') => tidy (db w) (db w') /\
      if decide (goos s = "darwin")
      then e ∈ [CodeCredentialNotAuthorized; CodeProviderUnavailable; CodeProviderLockedTimeout]
      else e = CodeProviderNotSupportedOnPlatform /\ w' = w
  end.
Proof.
  unfold Fetch, supported, refuse, of_result, mbind, M_bind. destruct (decide (goos s = "darwin")) as [Hg|Hg].
  2: { rewrite (bool_decide_false (goos s = "darwin")) by done. cbn. split; [apply tidy_refl|done]. }
  rewrite (bool_decide_true (goos s = "darwin")) by done. cbn [negb refuse_if].
  destruct (parseItemRef _) as [[kind service]|e] eqn:Hi.
  2: { cbn. apply parseItemRef_Err in Hi as ->. split; [apply tidy_refl|set_solver]. }
  apply parseItemRef_Ok in Hi as (Hi & Hk & Hs). destruct (checkSegment (Field reference)) as [u|e] eqn:Hc.
  2: { cbn. apply checkSegment_Err in Hc as ->. split; [apply tidy_refl|set_solver]. }
  apply checkSegment_Ok in Hc. pose proof (run_spec (timeout s) (binary s) (arguments kind service (Field reference)) w) as Hr.
  destruct (run _ _ _ w) as [[output|e] w1].
  - destruct Hr as (-> & path & Ht & Hp). pose proof (wrapped_spec output (mkWorld (db w) (ticks w) (ids w) (S (stmts w)))) as Hw.
    destruct (wrapped output _) as [[v|e] w2]; cbn in Hw.
    + exists kind, service, path, output. tauto.
    + destruct Hw as (-> & _ & Hw). split; [done|set_solver].
  - destruct Hr as [-> He]. cbn. split; [apply tidy_refl|set_solver].
Qed.
End source.

(** ** A sample system *)

Definition chosen (item account : string) : Reference :=
  {| ID := "r"; ProviderID := "p"; ItemRef := item; Field := account; Service := "github"; AccountLabel := "";
     Metadata := ""; Capabilities := ""; HealthStatus := HealthOK; LastVerifiedAt := 0; CreatedAt := 0; UpdatedAt := 0 |}.

Definition sample_commands : Commands := {|
  LookPath _ name := Some name;
  permissions _ path := Some 493;
  printed _ path args :=
    if bool_decide (args = ["find-internet-password"; "-s"; "api.github.com/v3"; "-a"; "acme"; "-w"]) then Some ("ghp_x" +:+ CR_LF)
    else if bool_decide (args = ["help"]) then Some "" else None;
  out_of_time i _ := (i =? 7)%nat;
|}.

Example fetched_password :
  let on system reference i :=
    let '(r, w') := Fetch (H := sample_commands) (New system {| o_Binary := ""; o_Timeout := 0; o_GOOS := "" |}) reference
                      (mkWorld (mkEgress [] [] []) 0 0 i) in (r, boxes (db w')) in
  on "darwin" (chosen "keychain://internet/api.github.com/v3" "acme") 0%nat = (Ok (Some 0%nat), ["ghp_x"]) /\
  on "linux" (chosen "keychain://internet/api.github.com/v3" "acme") 0%nat = (Err CodeProviderNotSupportedOnPlatform, []) /\
  on "darwin" (chosen "keychain://internet/api.github.com/v3" "other") 7%nat = (Err CodeProviderLockedTimeout, []) /\
  on "darwin" (chosen "keychain://internet/-D" "acme") 0%nat = (Err CodeCredentialNotAuthorized, []) /\
  on "darwin" (chosen "keychain://all/x" "acme") 0%nat = (Err CodeCredentialNotAuthorized, []) /\
  on "darwin" (chosen "keychain://generic" "acme") 0%nat = (Err CodeCredentialNotAuthorized, []).
Proof. by vm_compute. Qed.
