(* ===== verification/Config.v ===== *)
(** * platform/config: what has to be known before the gateway starts (config.go,
    load.go, session.go)

    Four layers - flags, environment, file, defaults - are merged and checked once;
    the token of the console's session is made and kept in a file nobody else can
    read. The disk has the nodes at clean paths, with their permission bits; any
    operation on it may fail. *)
From S2P Require Import Prelude GoStr Apperr World FilePath.
From S2P Require Json Encoding Settings GenericHttp Vault.
Open Scope Z_scope.

(** ** The disk *)

Inductive Node := Directory (mode : Z) | Regular (mode : Z) (content : string) | Special (mode : Z).

Abbreviation Disk := (gmap string Node).

Definition Perm (n : Node) : Z := match n with Directory mode | Regular mode _ | Special mode => mode end.

Definition with_mode (mode : Z) (n : Node) : Node :=
  match n with Directory _ => Directory mode | Regular _ content => Regular mode content | Special _ => Special mode end.

(** [filepath.Join] of two. *)
Definition Join (base name : string) : string := if base ==? "" then Clean name else Clean (base +:+ "/" +:+ name).

Inductive Lookup := Absent | Unknown | There (n : Node).
Inductive Reading := NoFile | NotRead | Bytes (content : string).
Inductive Opening := Opened | Exists | NotOpened.

(** The platform: its own directory for configurations, and whether permission
    bits mean nothing on it. *)
Class System := { UserConfigDir : option string; windows : bool }.

Section disk.
Context `{Env} `{Vault.Device}.

Definition effect {E A} (f : nat -> Disk -> A * Disk) : M Disk E A := fun w =>
  let '(a, d) := f (stmts w) (db w) in (Ok a, mkWorld d (ticks w) (ids w) (S (stmts w))).

Definition Stat {E} (path : string) : M Disk E Lookup :=
  effect (fun i d => (if io_fails i then Unknown else match d !! Clean path with Some n => There n | None => Absent end, d)).

Definition ReadFile {E} (path : string) : M Disk E Reading :=
  effect (fun i d => (if io_fails i then NotRead
    else match d !! Clean path with Some (Regular _ content) => Bytes content | Some _ => NotRead | None => NoFile end, d)).

(** Whether it was done. *)
Definition MkdirAll {E} (path : string) (mode : Z) : M Disk E bool :=
  effect (fun i d => if io_fails i then (false, d) else (true, <[Clean path := Directory mode]> d)).

Definition Chmod {E} (path : string) (mode : Z) : M Disk E bool :=
  effect (fun i d => if io_fails i then (false, d) else (true, alter (with_mode mode) (Clean path) d)).

Definition Remove {E} (path : string) : M Disk E bool :=
  effect (fun i d => if io_fails i then (false, d) else (true, delete (Clean path) d)).

(** [os.OpenFile] with O_CREATE and O_EXCL: never an existing node. *)
Definition OpenFile {E} (path : string) (mode : Z) : M Disk E Opening :=
  effect (fun i d => if io_fails i then (NotOpened, d)
    else match d !! Clean path with
         | Some _ => (Exists, d)
         | None => (Opened, <[Clean path := Regular mode ""]> d)
         end).

(** Writing the new file and closing it; it may hold anything after a failure. *)
Definition WriteClose {E} (path text : string) (mode : Z) : M Disk E bool :=
  effect (fun i d => if io_fails i then (false, <[Clean path := Regular mode (default "" (Vault.torn i))]> d)
    else (true, <[Clean path := Regular mode text]> d)).

Definition ReadRandom {E} (n : nat) : M Disk E (option string) := effect (fun i d => (Vault.drawn i n, d)).
End disk.

(** ** The configuration *)

Record Config := {
  ListenAddress : string;
  WebAPIPort : Z;
  AgentProxyPort : Z;
  MCPPort : Z;
  LogLevel : string;
  SecurityLevel : string;
  AllowNonLoopback : bool;
  c_Dir : string;
}.

Definition LevelRelay : string := "L0".
Definition LevelEnforced : string := "L1".
Definition LevelDebug : string := "debug".
Definition LevelInfo : string := "info".
Definition LevelWarn : string := "warn".
Definition LevelError : string := "error".

Definition Default : Config :=
  {| ListenAddress := "127.0.0.1"; WebAPIPort := 8787; AgentProxyPort := 8788; MCPPort := 8789; LogLevel := LevelInfo;
     SecurityLevel := LevelEnforced; AllowNonLoopback := false; c_Dir := "" |}.

Definition Enforced (c : Config) : bool := SecurityLevel c ==? LevelEnforced.

(** The levels of log/slog. *)
Definition ParseLevel (level : string) : option Z :=
  if level ==? LevelDebug then Some (-4)
  else if level ==? LevelInfo then Some 0
  else if level ==? LevelWarn then Some 4
  else if level ==? LevelError then Some 8
  else None.

Definition SlogLevel (c : Config) : Z := default 0 (ParseLevel (LogLevel c)).

Record Overrides := {
  o_ListenAddress : option string;
  o_WebAPIPort : option Z;
  o_AgentProxyPort : option Z;
  o_MCPPort : option Z;
  o_LogLevel : option string;
  o_AllowNonLoopback : option bool;
}.

Definition no_overrides : Overrides :=
  {| o_ListenAddress := None; o_WebAPIPort := None; o_AgentProxyPort := None; o_MCPPort := None; o_LogLevel := None;
     o_AllowNonLoopback := None |}.

Definition applyTo (o : Overrides) (base : Config) : Config :=
  {| ListenAddress := default (ListenAddress base) (o_ListenAddress o);
     WebAPIPort := default (WebAPIPort base) (o_WebAPIPort o);
     AgentProxyPort := default (AgentProxyPort base) (o_AgentProxyPort o);
     MCPPort := default (MCPPort base) (o_MCPPort o);
     LogLevel := default (LogLevel base) (o_LogLevel o);
     SecurityLevel := SecurityLevel base;
     AllowNonLoopback := default (AllowNonLoopback base) (o_AllowNonLoopback o);
     c_Dir := c_Dir base |}.

Definition in_directory (dir : string) (c : Config) : Config :=
  {| ListenAddress := ListenAddress c; WebAPIPort := WebAPIPort c; AgentProxyPort := AgentProxyPort c; MCPPort := MCPPort c;
     LogLevel := LogLevel c; SecurityLevel := SecurityLevel c; AllowNonLoopback := AllowNonLoopback c; c_Dir := dir |}.

Definition invalidConfig : Code := CodeInvalidConfiguration.

(** [IP.IsLoopback]. *)
Definition IsLoopback (ip : GenericHttp.IP) : bool :=
  match GenericHttp.To4 ip with
  | Some four => GenericHttp.byte_at 0 four =? 127
  | None => bool_decide (ip = repeat 0 15 ++ [1])
  end.

(** The three ports in their order, with those that are taken. *)
Fixpoint checkPorts (used ports : list Z) : result Code unit :=
  match ports with
  | [] => Ok tt
  | port :: ports =>
      _ ← refuse_if ((port <? 1) || (65535 <? port)) invalidConfig;
      _ ← refuse_if (bool_decide (port ∈ used)) invalidConfig;
      checkPorts (port :: used) ports
  end.

Section validation.
Context `{GenericHttp.Names}.

Definition validateListenAddress (c : Config) : result Code unit :=
  match GenericHttp.ParseIP (ListenAddress c) with
  | None => Err invalidConfig
  | Some address => if IsLoopback address then Ok tt else refuse_if (negb (AllowNonLoopback c)) invalidConfig
  end.

Definition Validate (c : Config) : result Code unit :=
  _ ← checkPorts [] [WebAPIPort c; AgentProxyPort c; MCPPort c];
  _ ← refuse_if (bool_decide (ParseLevel (LogLevel c) = None)) invalidConfig;
  _ ← refuse_if ((SecurityLevel c !=? LevelRelay) && (SecurityLevel c !=? LevelEnforced)) invalidConfig;
  validateListenAddress c.
End validation.

(** ** The layers (load.go) *)

Definition DirName : string := "opendelo".
Definition FileName : string := "config.json".
Definition SessionTokenFileName : string := "session_token".
Definition DataDirName : string := "data".

(** 0o700 and 0o600. *)
Definition DirPermission : Z := 448.
Definition FilePermission : Z := 384.

Definition DataDir (c : Config) : string := Join (c_Dir c) DataDirName.

(** A pointer field: null is nil. *)
Definition pointer {A} (read : Json.json -> option A) (v : Json.json) : option (option A) :=
  match v with Json.JNull => Some None | _ => Some <$> read v end.

Definition fileFields : list (Json.setter (S := Overrides)) :=
  [("listen_address", fun v o => x ← pointer (Json.as_string "") v;
      Some {| o_ListenAddress := x; o_WebAPIPort := o_WebAPIPort o; o_AgentProxyPort := o_AgentProxyPort o;
              o_MCPPort := o_MCPPort o; o_LogLevel := o_LogLevel o; o_AllowNonLoopback := o_AllowNonLoopback o |});
   ("web_api_port", fun v o => x ← pointer (Json.as_int 0) v;
      Some {| o_ListenAddress := o_ListenAddress o; o_WebAPIPort := x; o_AgentProxyPort := o_AgentProxyPort o;
              o_MCPPort := o_MCPPort o; o_LogLevel := o_LogLevel o; o_AllowNonLoopback := o_AllowNonLoopback o |});
   ("agent_proxy_port", fun v o => x ← pointer (Json.as_int 0) v;
      Some {| o_ListenAddress := o_ListenAddress o; o_WebAPIPort := o_WebAPIPort o; o_AgentProxyPort := x;
              o_MCPPort := o_MCPPort o; o_LogLevel := o_LogLevel o; o_AllowNonLoopback := o_AllowNonLoopback o |});
   ("mcp_port", fun v o => x ← pointer (Json.as_int 0) v;
      Some {| o_ListenAddress := o_ListenAddress o; o_WebAPIPort := o_WebAPIPort o; o_AgentProxyPort := o_AgentProxyPort o;
              o_MCPPort := x; o_LogLevel := o_LogLevel o; o_AllowNonLoopback := o_AllowNonLoopback o |});
   ("log_level", fun v o => x ← pointer (Json.as_string "") v;
      Some {| o_ListenAddress := o_ListenAddress o; o_WebAPIPort := o_WebAPIPort o; o_AgentProxyPort := o_AgentProxyPort o;
              o_MCPPort := o_MCPPort o; o_LogLevel := x; o_AllowNonLoopback := o_AllowNonLoopback o |});
   ("allow_non_loopback", fun v o => x ← Json.as_bool_ptr v;
      Some {| o_ListenAddress := o_ListenAddress o; o_WebAPIPort := o_WebAPIPort o; o_AgentProxyPort := o_AgentProxyPort o;
              o_MCPPort := o_MCPPort o; o_LogLevel := o_LogLevel o; o_AllowNonLoopback := x |})].

Definition unmarshalOverrides `{Unicode} (content : string) : option Overrides :=
  v ← Json.parse content; Json.decode_struct fileFields v no_overrides.

(** What the user is told of a file that is not used; the texts are left out. *)
Inductive Warning := UnreadableFile (path : string) | UnparsableFile (path : string).

Definition envConfigHome : string := "XDG_CONFIG_HOME".
Definition envListenAddress : string := "OPENDELO_LISTEN_ADDRESS".
Definition envWebAPIPort : string := "OPENDELO_WEB_API_PORT".
Definition envAgentProxyPort : string := "OPENDELO_AGENT_PROXY_PORT".
Definition envMCPPort : string := "OPENDELO_MCP_PORT".
Definition envLogLevel : string := "OPENDELO_LOG_LEVEL".
Definition envAllowNonLoopbck : string := "OPENDELO_ALLOW_NON_LOOPBACK".

Abbreviation LookupEnvFunc := (string -> option string).

(** A variable that is set has to be readable. *)
Definition variable {A} (lookupEnv : LookupEnvFunc) (name : string) (read : string -> option A) : result Code (option A) :=
  match lookupEnv name with
  | None => Ok None
  | Some raw => match read raw with Some value => Ok (Some value) | None => Err invalidConfig end
  end.

Definition readEnv (lookupEnv : LookupEnvFunc) : result Code Overrides :=
  web ← variable lookupEnv envWebAPIPort Settings.Atoi;
  proxy ← variable lookupEnv envAgentProxyPort Settings.Atoi;
  mcp ← variable lookupEnv envMCPPort Settings.Atoi;
  allow ← variable lookupEnv envAllowNonLoopbck Settings.ParseBool;
  Ok {| o_ListenAddress := lookupEnv envListenAddress; o_WebAPIPort := web; o_AgentProxyPort := proxy; o_MCPPort := mcp;
        o_LogLevel := lookupEnv envLogLevel; o_AllowNonLoopback := allow |}.

Record LoadParams := {
  p_Dir : string;
  p_Flags : Overrides;
  p_LookupEnv : LookupEnvFunc;
}.

Section load.
Context `{Env} `{Unicode} `{GenericHttp.Names} `{System}.

Definition Dir (lookupEnv : LookupEnvFunc) : result Code string :=
  match lookupEnv envConfigHome with
  | Some base => if base ==? "" then match UserConfigDir with Some base => Ok (Join base DirName) | None => Err invalidConfig end
                 else Ok (Join base DirName)
  | None => match UserConfigDir with Some base => Ok (Join base DirName) | None => Err invalidConfig end
  end.

Definition checkSessionTokenPermissions (path : string) : M Disk Code unit :=
  info ← Stat path;
  match info with
  | Absent => mret tt
  | Unknown => throw invalidConfig
  | There n => refuse (negb (Perm n =? FilePermission)) invalidConfig
  end.

Definition checkDirectoryPermissions (dir : string) : M Disk Code unit :=
  info ← Stat dir;
  match info with
  | Absent => mret tt
  | Unknown => throw invalidConfig
  | There (Directory mode) =>
      if windows then mret tt
      else
        _ ← refuse (negb (mode =? DirPermission)) invalidConfig;
        checkSessionTokenPermissions (Join dir SessionTokenFileName)
  | There _ => throw invalidConfig
  end.

Definition readFile {E} (path : string) : M Disk E (Overrides * list Warning) :=
  content ← ReadFile path;
  mret (match content with
        | NoFile => (no_overrides, [])
        | NotRead => (no_overrides, [UnreadableFile path])
        | Bytes content => match unmarshalOverrides content with
                           | Some fromFile => (fromFile, [])
                           | None => (no_overrides, [UnparsableFile path])
                           end
        end).

(** The warnings come with an error as well. *)
Definition Load (params : LoadParams) : M Disk (list Warning * Code) (Config * list Warning) :=
  dir ← map_err (pair []) (if p_Dir params ==? "" then of_result (Dir (p_LookupEnv params)) else mret (p_Dir params));
  _ ← map_err (pair []) (checkDirectoryPermissions dir);
  '(fromFile, warnings) ← readFile (Join dir FileName);
  fromEnv ← map_err (pair warnings) (of_result (readEnv (p_LookupEnv params)));
  let merged := in_directory dir (applyTo (p_Flags params) (applyTo fromEnv (applyTo fromFile Default))) in
  _ ← map_err (pair warnings) (of_result (Validate merged));
  mret (merged, warnings).
End load.

(** ** The token of the session (session.go) *)

Definition sessionTokenBytes : nat := 32.

Inductive SessionFile := SessionFileCreated | SessionFileExisting | SessionFileRegenerated.

Section session.
Context `{Env} `{Vault.Device} `{System}.

Definition readSessionToken (path : string) : M Disk Code string :=
  content ← ReadFile path;
  match content with
  | Bytes token => _ ← refuse (token ==? "") invalidConfig; mret token
  | _ => throw invalidConfig
  end.

Definition writeSessionToken (path : string) : M Disk Code string :=
  raw ← ReadRandom sessionTokenBytes;
  match raw with
  | None => throw CodeInternal
  | Some raw =>
      let token := Encoding.raw_url_encode (Encoding.bytes_of raw) in
      file ← OpenFile path FilePermission;
      match file with
      | Opened =>
          done ← WriteClose path token FilePermission;
          _ ← refuse (negb done) invalidConfig;
          mret token
      | _ => throw invalidConfig
      end
  end.

Definition EnsureSessionToken (dir : string) : M Disk Code (string * SessionFile) :=
  let path := Join dir SessionTokenFileName in
  info ← Stat path;
  match info with
  | Absent => token ← writeSessionToken path; mret (token, SessionFileCreated)
  | Unknown => throw invalidConfig
  | There (Regular mode _) =>
      if negb windows && negb (mode =? FilePermission) then
        removed ← Remove path;
        _ ← refuse (negb removed) invalidConfig;
        token ← writeSessionToken path;
        mret (token, SessionFileRegenerated)
      else token ← readSessionToken path; mret (token, SessionFileExisting)
  | There _ => throw invalidConfig
  end.

Definition SessionToken (dir : string) : M Disk Code string :=
  let path := Join dir SessionTokenFileName in
  info ← Stat path;
  _ ← refuse (match info with Absent => true | _ => false end) invalidConfig;
  readSessionToken path.
End session.

(** ** Paths *)

Lemma Join_segments base a :
  name a = true -> exists l, settled (IsAbs base) l = true /\ Clean base = unsplit (IsAbs base) (reverse l) /\
    Join base a = unsplit (IsAbs base) (reverse (a :: l)) /\ settled (IsAbs base) (a :: l) = true.
Proof.
  intros Ha. exists (reverse (clean_segments (IsAbs base) base)). rewrite reverse_cons, reverse_involutive.
  pose proof (clean_segments_settled (IsAbs base) base) as Hl. pose proof Ha as Hn. unfold name in Ha. bools.
  assert (settled (IsAbs base) (a :: reverse (clean_segments (IsAbs base) base)) = true) as Hs.
  { cbn [settled]. rewrite bool_decide_eq_false_2 by done. by rewrite Hn, Hl. }
  assert (split_on slash a = [a]) as Hsplit.
  { change a with (join "/" [a]) at 1. apply split_join_path; [done|]. cbn. by rewrite andb_true_r. }
  assert (forall l, clean_segment (IsAbs base) l a = a :: l) as Hc.
  { intros l. unfold clean_segment. by rewrite !bool_decide_eq_false_2 by done. }
  split_and!; [done|done| |done]. unfold Join, Clean, clean_segments. destruct (base ==? "") eqn:Hb.
  - apply bool_decide_eq_true in Hb as ->. assert (IsAbs a = false) as ->.
    { destruct (IsAbs a) eqn:E; [|done]. apply prefix_spec in E as (u & ->). by rewrite str_app_cons in *. }
    rewrite Hsplit. cbn [foldl]. by rewrite Hc.
  - apply bool_decide_eq_false in Hb. assert (IsAbs (base +:+ "/" +:+ a) = IsAbs base) as ->.
    { destruct base as [|c base]; [done|]. rewrite str_app_cons. unfold IsAbs, has_prefix. cbn [String.prefix]. by destruct (ascii_dec "/" c), base. }
    assert (forall s, split_on slash (s +:+ "/" +:+ a) = split_on slash s ++ [a]) as ->.
    { intros s. induction s as [|c s IH]; [|].
      { change (split_on slash ("" +:+ "/" +:+ a)) with ("" :: split_on slash a). by rewrite Hsplit. }
      rewrite str_app_cons. cbn [split_on]. rewrite IH.
      destruct (c ==? slash); [done|]. destruct (split_on slash s) eqn:E; [by apply split_on_nonempty in E|done]. }
    rewrite foldl_app. cbn [foldl]. rewrite Hc, reverse_cons. done.
Qed.

(** Different names below a directory are different files, and not the directory. *)
Lemma Join_inj base a b : name a = true -> name b = true -> Join base a = Join base b -> a = b.
Proof.
  intros Ha Hb. destruct (Join_segments base a Ha) as (l & _ & Hc & -> & Hl). destruct (Join_segments base b Hb) as (k & _ & Hc' & -> & Hk).
  intros Heq. apply clean_segments_unsplit in Hl as [_ Hl], Hk as [_ Hk]. rewrite Heq, Hk in Hl.
  apply (inj reverse) in Hl. by injection Hl.
Qed.

Lemma Join_below base a : name a = true -> Join base a <> Clean base.
Proof.
  intros Ha. destruct (Join_segments base a Ha) as (l & Hs & -> & -> & Hl). intros Heq.
  apply clean_segments_unsplit in Hl as [_ Hl], Hs as [_ Hs]. rewrite Heq, Hs in Hl.
  apply (inj reverse) in Hl. apply (f_equal length) in Hl. cbn in Hl. lia.
Qed.

Lemma Clean_Join base a : Clean (Join base a) = Join base a.
Proof. unfold Join. destruct (base ==? ""); apply Clean_idem. Qed.

Lemma file_names : name FileName = true /\ name SessionTokenFileName = true /\ name DataDirName = true.
Proof. done. Qed.

(** ** What is loaded *)

Section loading.
Context `{Env} `{Unicode} `{GenericHttp.Names} `{System}.

Lemma wp_effect {E A} (f : nat -> Disk -> A * Disk) (Q : result E A -> Disk -> Prop) d :
  (forall i, Q (Ok (f i d).1) (f i d).2) -> wp (effect f) Q d.
Proof. intros HQ w <-. unfold effect. specialize (HQ (stmts w)). by destruct (f _ _). Qed.

Definition well_formed (c : Config) : Prop :=
  Forall (fun port => 1 <= port <= 65535) [WebAPIPort c; AgentProxyPort c; MCPPort c] /\
  NoDup [WebAPIPort c; AgentProxyPort c; MCPPort c] /\
  LogLevel c ∈ [LevelDebug; LevelInfo; LevelWarn; LevelError] /\ SecurityLevel c ∈ [LevelRelay; LevelEnforced] /\
  exists address, GenericHttp.ParseIP (ListenAddress c) = Some address /\
    (IsLoopback address = true \/ AllowNonLoopback c = true).

Lemma checkPorts_Ok used ports u :
  checkPorts used ports = Ok u <->
  Forall (fun port => 1 <= port <= 65535) ports /\ NoDup ports /\ Forall (fun port => port ∉ used) ports.
Proof.
  destruct u. revert used. induction ports as [|port ports IH]; intros used; cbn [checkPorts]; [split; [by repeat constructor|done]|].
  rewrite !Forall_cons, NoDup_cons. destruct ((port <? 1) || (65535 <? port)) eqn:Hr; cbn [refuse_if mbind result_bind].
  { split; [done|]. intros ((Hp & _) & _). lia. }
  case_bool_decide as Hu; cbn [refuse_if mbind result_bind]; [by split; [done|]; intros (_ & _ & Hn & _)|].
  rewrite IH. assert (1 <= port <= 65535) by lia. split.
  - intros (Hp & Hd & Hn). rewrite Forall_forall in Hn. assert (port ∉ ports) by (intros Hin; apply (Hn _ Hin); by left).
    assert (Forall (fun port => port ∉ used) ports) by (apply Forall_forall; intros x Hx Hxu; apply (Hn x Hx); by right). tauto.
  - intros ((_ & Hp) & (Hnin & Hd) & _ & Hn). split_and!; try done. rewrite Forall_forall in *. intros x Hx.
    apply not_elem_of_cons. split; [by intros ->|by apply Hn].
Qed.

Lemma Validate_settled c u : Validate c = Ok u <-> well_formed c.
Proof.
  destruct u. unfold Validate, well_formed. destruct (checkPorts _ _) as [[]|e] eqn:Hp; cbn [mbind result_bind].
  2: { split; [done|]. intros (H1' & H2' & _). assert (checkPorts [] [WebAPIPort c; AgentProxyPort c; MCPPort c] = Ok tt) as Hok; [|congruence].
       apply checkPorts_Ok. split; [done|]. split; [done|]. apply Forall_forall. intros ? ?. apply not_elem_of_nil. }
  apply checkPorts_Ok in Hp as (Hp & Hd & _).
  assert (ParseLevel (LogLevel c) <> None <-> LogLevel c ∈ [LevelDebug; LevelInfo; LevelWarn; LevelError]) as Hlevel.
  { unfold ParseLevel. repeat case_bool_decide; set_solver. }
  destruct (bool_decide (ParseLevel (LogLevel c) = None)) eqn:Hl; cbn [refuse_if mbind result_bind];
    [apply bool_decide_eq_true in Hl; split; [done|tauto]|apply bool_decide_eq_false in Hl].
  destruct ((SecurityLevel c !=? LevelRelay) && _) eqn:Hs; cbn [refuse_if mbind result_bind].
  { split; [done|]. intros (_ & _ & _ & Hin & _). rewrite andb_true_iff, !negb_true_iff, !bool_decide_eq_false in Hs. set_solver. }
  assert (SecurityLevel c ∈ [LevelRelay; LevelEnforced]).
  { rewrite andb_false_iff, !negb_false_iff, !bool_decide_eq_true in Hs. set_solver. }
  unfold validateListenAddress. destruct (GenericHttp.ParseIP (ListenAddress c)) as [address|] eqn:Hi.
  2: { split; [done|]. intros (_ & _ & _ & _ & a & ? & _). done. }
  destruct (IsLoopback address) eqn:Hb; [|destruct (AllowNonLoopback c) eqn:Ha]; cbn.
  - split; [|done]. intros _. split_and!; [done|done|tauto|done|]. exists address. tauto.
  - split; [|done]. intros _. split_and!; [done|done|tauto|done|]. exists address. tauto.
  - split; [done|]. intros (_ & _ & _ & _ & a & [= <-] & [?|?]); congruence.
Qed.

Lemma Validate_Err c e : Validate c = Err e -> e = invalidConfig.
Proof.
  assert (forall ports used e, checkPorts used ports = Err e -> e = invalidConfig) as Hp.
  { intros ports. induction ports as [|port ports IH]; intros used e'; cbn; [done|].
    destruct (_ || _); cbn; [by intros [= <-]|]. case_bool_decide; cbn; [by intros [= <-]|]. apply IH. }
  unfold Validate, validateListenAddress. destruct (checkPorts _ _) eqn:E; cbn; [|intros [= <-]; by eapply Hp].
  destruct (bool_decide (ParseLevel _ = None)); cbn; [by intros [= <-]|]. destruct (_ && _); cbn; [by intros [= <-]|].
  repeat case_match; cbn; try done; try by intros [= <-]. destruct (negb _); cbn; [by intros [= <-]|done].
Qed.

Lemma readEnv_Err lookupEnv e : readEnv lookupEnv = Err e -> e = invalidConfig.
Proof.
  assert (forall A name (read : string -> option A) e, variable lookupEnv name read = Err e -> e = invalidConfig) as Hv.
  { intros A name' read e'. unfold variable. repeat case_match; congruence. }
  unfold readEnv.
  destruct (variable lookupEnv envWebAPIPort _) eqn:?; cbn [mbind result_bind]; [|intros [= <-]; by eapply Hv].
  destruct (variable lookupEnv envAgentProxyPort _) eqn:?; cbn [mbind result_bind]; [|intros [= <-]; by eapply Hv].
  destruct (variable lookupEnv envMCPPort _) eqn:?; cbn [mbind result_bind]; [|intros [= <-]; by eapply Hv].
  destruct (variable lookupEnv envAllowNonLoopbck _) eqn:?; cbn [mbind result_bind]; [done|intros [= <-]; by eapply Hv].
Qed.

(** The layer of the file, and what is said about it: a file that cannot be used
    is passed over. *)
Definition file_layer (d : Disk) (path : string) (fromFile : Overrides) (warnings : list Warning) : Prop :=
  (warnings = [] /\ match d !! path with
    | None => fromFile = no_overrides
    | Some (Regular _ content) => unmarshalOverrides content = Some fromFile
    | Some _ => False end) \/
  (fromFile = no_overrides /\ warnings = [UnreadableFile path]) \/
  (fromFile = no_overrides /\ warnings = [UnparsableFile path] /\
    exists mode content, d !! path = Some (Regular mode content) /\ unmarshalOverrides content = None).

Lemma wp_readFile {E} base a (Q : result E (Overrides * list Warning) -> Disk -> Prop) d :
  (forall fromFile warnings, file_layer d (Join base a) fromFile warnings -> Q (Ok (fromFile, warnings)) d) ->
  wp (readFile (Join base a)) Q d.
Proof.
  intros HQ. unfold readFile. apply wp_bind, wp_effect. intros i. cbn. rewrite Clean_Join. unfold file_layer in HQ.
  destruct (io_fails i); [apply wp_ret, HQ; tauto|].
  destruct (d !! Join base a) as [[mode|mode content|mode]|] eqn:Hd; apply wp_ret.
  - apply HQ. tauto.
  - destruct (unmarshalOverrides content) eqn:Hu; apply HQ; [by left|]. right. right. split_and!; [done..|]. by exists mode, content.
  - apply HQ. tauto.
  - apply HQ. by left.
Qed.

Lemma wp_checkDirectoryPermissions dir (Q : result Code unit -> Disk -> Prop) d :
  (match d !! Clean dir with
   | None => True
   | Some (Directory mode) => windows = true \/ mode = DirPermission /\
       forall n, d !! Join dir SessionTokenFileName = Some n -> Perm n = FilePermission
   | Some _ => False end -> Q (Ok tt) d) ->
  Q (Err invalidConfig) d -> wp (checkDirectoryPermissions dir) Q d.
Proof.
  intros Hok Herr. unfold checkDirectoryPermissions, checkSessionTokenPermissions. apply wp_bind, wp_effect. intros i. cbn.
  destruct (io_fails i); [by apply wp_throw|]. destruct (d !! Clean dir) as [[mode|mode content|mode]|] eqn:Hd;
    [|by apply wp_throw..|by apply wp_ret, Hok].
  destruct windows; [apply wp_ret, Hok; by left|]. apply wp_bind, wp_refuse. destruct (mode =? DirPermission) eqn:Hm; [|done].
  apply wp_bind, wp_effect. intros j. cbn. destruct (io_fails j); [by apply wp_throw|]. rewrite Clean_Join. apply Z.eqb_eq in Hm.
  destruct (d !! Join dir SessionTokenFileName) as [n|] eqn:Hn.
  - apply wp_refuse. destruct (Perm n =? FilePermission) eqn:Hp; [|done]. apply Hok. right. split; [done|]. intros n' [= <-]. lia.
  - apply wp_ret, Hok. right. by split.
Qed.

(** The first layer that has an opinion. *)
Definition first_of {A} (layers : list (option A)) (base : A) : A :=
  match find_first (fun layer => bool_decide (is_Some layer)) layers with Some (Some a) => a | _ => base end.

Definition directory_of (params : LoadParams) : result Code string :=
  if p_Dir params ==? "" then Dir (p_LookupEnv params) else Ok (p_Dir params).

(** C40. What the gateway starts with. A configuration that is returned takes six
    of its settings - the address, the three ports, the level of logging, the leave
    to bind another address - from the first of flags, environment and file that
    gives it, and from the defaults otherwise; a file that cannot be read or parsed
    gives none and a warning instead. Its three ports are in range and distinct, its
    level of logging is one of the four, its address is an IP address that is the
    machine's own or allowed not to be; the directory it came from was private, as
    was the token in it. The seventh documented setting is not among these: the
    level of security is the enforced one, L1, whatever the file says, although L0
    is documented as a choice ([security_level_ignored]). Anything else is an
    invalid configuration, and loading changes nothing on the disk. *)
Theorem load_layers params w :
  match Load params w with
  | (Ok (c, warnings), w') => db w' = db w /\ exists dir fromFile fromEnv,
      directory_of params = Ok dir /\ c_Dir c = dir /\ file_layer (db w) (Join dir FileName) fromFile warnings /\
      readEnv (p_LookupEnv params) = Ok fromEnv /\
      let layer {A} (get : Overrides -> option A) := first_of [get (p_Flags params); get fromEnv; get fromFile] in
      ListenAddress c = layer o_ListenAddress "127.0.0.1" /\ WebAPIPort c = layer o_WebAPIPort 8787 /\
      AgentProxyPort c = layer o_AgentProxyPort 8788 /\ MCPPort c = layer o_MCPPort 8789 /\
      LogLevel c = layer o_LogLevel LevelInfo /\ AllowNonLoopback c = layer o_AllowNonLoopback false /\
      SecurityLevel c = LevelEnforced /\ well_formed c /\
      (windows = false -> forall n, db w !! Clean dir = Some n -> n = Directory DirPermission /\
         forall token, db w !! Join dir SessionTokenFileName = Some token -> Perm token = FilePermission)
  | (Err (_, e), w') => e = CodeInvalidConfiguration /\ db w' = db w
  end.
Proof.
  assert (wp (Load params) (fun r d' => match r with
    | Ok (c, warnings) => d' = db w /\ exists dir fromFile fromEnv, directory_of params = Ok dir /\
        match db w !! Clean dir with None => True | Some (Directory mode) => windows = true \/ mode = DirPermission /\
          forall n, db w !! Join dir SessionTokenFileName = Some n -> Perm n = FilePermission | Some _ => False end /\
        file_layer (db w) (Join dir FileName) fromFile warnings /\ readEnv (p_LookupEnv params) = Ok fromEnv /\
        c = in_directory dir (applyTo (p_Flags params) (applyTo fromEnv (applyTo fromFile Default))) /\ well_formed c
    | Err (_, e) => e = invalidConfig /\ d' = db w end) (db w)) as Hload.
  { unfold Load. apply wp_bind, wp_map_err.
    assert (wp (if p_Dir params ==? "" then of_result (Dir (p_LookupEnv params)) else mret (p_Dir params))
      (fun r d' => d' = db w /\ directory_of params = r /\ forall e, r = Err e -> e = invalidConfig) (db w)) as Hdir.
    { unfold directory_of. destruct (p_Dir params ==? ""); [|by apply wp_ret]. apply wp_of_result. split_and!; [done..|].
      unfold Dir. repeat case_match; congruence. }
    eapply wp_mono; [exact Hdir|]. cbn beta iota. intros [dir|e] d' (-> & Hd & He); [|by split; [apply He|]].
    apply wp_bind, wp_map_err, wp_checkDirectoryPermissions; [|done]. intros Hp. apply wp_bind, wp_readFile.
    intros fromFile warnings Hf. apply wp_bind, wp_map_err, wp_of_result.
    destruct (readEnv _) as [fromEnv|e] eqn:Hv; [|split; [by eapply readEnv_Err|done]].
    cbv zeta. apply wp_bind, wp_map_err, wp_of_result. cbv beta iota.
    destruct (Validate (in_directory dir (applyTo (p_Flags params) (applyTo fromEnv (applyTo fromFile Default))))) as [u|e] eqn:Hval;
      [|split; [by eapply Validate_Err|done]].
    apply wp_ret. split; [done|]. exists dir, fromFile, fromEnv. split_and!; try done. by apply Validate_settled in Hval. }
  destruct (Load params w) as [[[c warnings]|[ws e]] w'] eqn:Hw; pose proof (wp_use _ _ _ _ _ Hload Hw) as Hr; cbn in Hr; [|done].
  destruct Hr as (Hdb & dir & fromFile & fromEnv & Hdir & Hp & Hf & Hv & -> & Hwf). split; [done|]. exists dir, fromFile, fromEnv.
  assert (forall A (a b c : option A) (x : A), default (default (default x c) b) a = first_of [a; b; c] x) as Hfirst by (by intros A [] [] []).
  cbn in Hwf |- *. rewrite <- !Hfirst. split_and!; try done. intros Hwin n Hn. rewrite Hn in Hp.
  destruct n; [|done..]. destruct Hp as [?|[-> ?]]; [congruence|done].
Qed.
End loading.

(** ** The token *)

Section token.
Context `{Env} `{Vault.Device} `{System}.

Definition token_of (raw : string) : string := Encoding.raw_url_encode (Encoding.bytes_of raw).

Lemma wp_writeSessionToken dir (Q : result Code string -> Disk -> Prop) d :
  let path := Join dir SessionTokenFileName in
  (forall e, Q (Err e) d) ->
  (d !! path = None -> forall i raw, Vault.drawn i sessionTokenBytes = Some raw ->
     Q (Ok (token_of raw)) (<[path := Regular FilePermission (token_of raw)]> d)) ->
  (d !! path = None -> forall e rest, Q (Err e) (<[path := Regular FilePermission rest]> d)) ->
  wp (writeSessionToken path) Q d.
Proof.
  cbv zeta. intros Herr Hok Htorn. unfold writeSessionToken. apply wp_bind, wp_effect. intros i. cbn [fst snd].
  destruct (Vault.drawn i sessionTokenBytes) as [raw|] eqn:Hraw; [|by apply wp_throw]. cbv zeta.
  apply wp_bind, wp_effect. intros j. rewrite Clean_Join. destruct (io_fails j); [by apply wp_throw|].
  destruct (d !! Join dir SessionTokenFileName) eqn:Hd; [by apply wp_throw|]. cbn [fst snd].
  apply wp_bind, wp_effect. intros k. rewrite Clean_Join. cbn [fst snd].
  apply wp_bind, wp_refuse. destruct (io_fails k); cbn [negb fst snd]; rewrite insert_insert_eq; [by apply Htorn|].
  apply wp_ret. by eapply Hok.
Qed.

Lemma wp_readSessionToken dir (Q : result Code string -> Disk -> Prop) d :
  let path := Join dir SessionTokenFileName in
  (forall e, Q (Err e) d) ->
  (forall mode token, d !! path = Some (Regular mode token) -> token <> "" -> Q (Ok token) d) ->
  wp (readSessionToken path) Q d.
Proof.
  cbv zeta. intros Herr Hok. unfold readSessionToken. apply wp_bind, wp_effect. intros i. rewrite Clean_Join. cbn [fst snd].
  destruct (io_fails i); [by apply wp_throw|].
  destruct (d !! Join dir SessionTokenFileName) as [[mode|mode token|mode]|] eqn:Hd; try by apply wp_throw.
  apply wp_bind, wp_refuse. destruct (token ==? "") eqn:Ht; [done|]. apply wp_ret. eapply Hok; [done|by apply bool_decide_eq_false in Ht].
Qed.

(** What became of the token's file [before]. *)
Definition kept (before after : option Node) (token : string) (what : SessionFile) : Prop :=
  token <> "" /\ exists mode, after = Some (Regular mode token) /\ (windows = false -> mode = FilePermission) /\
  match what with
  | SessionFileExisting => after = before
  | SessionFileCreated => before = None
  | SessionFileRegenerated => windows = false /\ exists loose old, before = Some (Regular loose old) /\ loose <> FilePermission
  end /\
  (what <> SessionFileExisting -> exists i raw, Vault.drawn i sessionTokenBytes = Some raw /\ token = token_of raw).

Definition given_up (before after : option Node) : Prop :=
  after = before \/ after = None \/ exists rest, after = Some (Regular FilePermission rest).

Definition elsewhere (path : string) (before after : Disk) : Prop := forall other, other <> path -> after !! other = before !! other.

Lemma token_nonempty `{!Vault.DeviceLaws} i raw : Vault.drawn i sessionTokenBytes = Some raw -> token_of raw <> "".
Proof.
  intros Hraw%Vault.drawn_length. unfold token_of. destruct raw as [|c [|c' [|c'' raw]]]; try discriminate Hraw. done.
Qed.

Lemma wp_EnsureSessionToken `{!Vault.DeviceLaws} dir d :
  let path := Join dir SessionTokenFileName in
  wp (EnsureSessionToken dir) (fun r d' => match r with
    | Ok (token, what) => kept (d !! path) (d' !! path) token what
    | Err _ => given_up (d !! path) (d' !! path) end /\ elsewhere path d d') d.
Proof.
  cbv zeta. set (path := Join dir SessionTokenFileName). pose proof (Clean_Join dir SessionTokenFileName : Clean path = path) as Hpath.
  assert (forall n x, elsewhere path d x -> elsewhere path d (<[path := n]> x)) as Hins.
  { intros n x Hx other Ho. by rewrite lookup_insert_ne, Hx by done. }
  unfold EnsureSessionToken. fold path. apply wp_bind, wp_effect. intros i. cbn [fst snd]. rewrite Hpath.
  destruct (io_fails i); [apply wp_throw; split; [by left|done]|].
  destruct (d !! path) as [[mode|mode old|mode]|] eqn:Hd; try (apply wp_throw; split; [left; congruence|done]).
  - destruct (negb windows && negb (mode =? FilePermission)) eqn:Hl.
    + apply andb_true_iff in Hl as [Hwin Hmode]. apply negb_true_iff in Hwin, Hmode. apply Z.eqb_neq in Hmode.
      apply wp_bind, wp_effect. intros j. rewrite Hpath. cbn [fst snd]. apply wp_bind, wp_refuse.
      destruct (io_fails j); cbn [negb fst snd]; [split; [left; congruence|done]|].
      assert (elsewhere path (d) (delete path (d))) by (intros other Ho; by rewrite lookup_delete_ne).
      apply wp_bind, wp_writeSessionToken; fold path; rewrite ?lookup_delete_eq.
      * intros e. split; [|done]. right. by left.
      * intros _ k raw Hraw. apply wp_ret. split; [|by apply Hins]. split; [by eapply token_nonempty|]. exists FilePermission.
        rewrite lookup_insert_eq. split_and!; [done..|by exists mode, old|]. intros _. by exists k, raw.
      * intros _ e rest. split; [|by apply Hins]. right. right. exists rest. by rewrite lookup_insert_eq.
    + apply wp_bind, wp_readSessionToken; fold path; [split; [left; congruence|done]|].
      intros mode' token Ht Hne. apply wp_ret. split; [|done]. rewrite Hd in Ht. injection Ht as -> ->. split; [done|]. exists mode'.
      split_and!; [done| |by rewrite Hd|done]. intros Hwin. rewrite Hwin in Hl. cbn in Hl. apply negb_false_iff, Z.eqb_eq in Hl. done.
  - apply wp_bind, wp_writeSessionToken; fold path.
    + intros e. split; [left; congruence|done].
    + intros _ k raw Hraw. apply wp_ret. split; [|by apply Hins]. split; [by eapply token_nonempty|]. exists FilePermission.
      rewrite lookup_insert_eq. split_and!; [done..|]. intros _. by exists k, raw.
    + intros _ e rest. split; [|by apply Hins]. right. right. exists rest. by rewrite lookup_insert_eq.
Qed.

(** The session's token. A token that is returned is not empty and is what
    the file holds, which - where permissions have a meaning - nobody else can
    read; a file that was already so is not touched and its token returned, a
    missing one is made, and one that somebody else could read is replaced: its
    token is never returned, but fresh randomness. A failure leaves the file as it
    was, or no file, or a private one; and no other file is touched at all. *)
Theorem token_is_private `{!Vault.DeviceLaws} dir w :
  let path := Join dir SessionTokenFileName in
  match EnsureSessionToken dir w with
  | (Ok (token, what), w') => kept (db w !! path) (db w' !! path) token what /\ elsewhere path (db w) (db w')
  | (Err e, w') => given_up (db w !! path) (db w' !! path) /\ elsewhere path (db w) (db w')
  end.
Proof.
  pose proof (wp_EnsureSessionToken dir (db w)) as He.
  destruct (EnsureSessionToken dir w) as [[[token what]|e] w'] eqn:Hw; apply (wp_use _ _ _ _ _ He Hw).
Qed.
End token.

(** ** A sample disk *)

Section sample.
#[local] Existing Instance ascii_only.

(** Writing fails at the fourth operation, after three bytes. *)
#[local] Instance sample_env : Env := {
  clock_at n := 0; id_at n := None; io_fails i := (i =? 3)%nat; json_valid _ := true;
}.
#[local] Instance sample_device : Vault.Device := {
  Vault.torn _ := Some "abc";
  Vault.drawn _ n := Some (String.string_of_list_ascii (replicate n "x"%char));
}.
#[local] Instance sample_system : System := {| UserConfigDir := Some "/home/u/.config"; windows := false |}.
#[local] Instance sample_names : GenericHttp.Names := {
  GenericHttp.ParseIP host := if host ==? "127.0.0.1" then Some [127; 0; 0; 1] else if host ==? "10.0.0.1" then Some [10; 0; 0; 1] else None;
  GenericHttp.lookup_at _ _ := None;
}.

Instance sample_device_laws : Vault.DeviceLaws.
Proof. constructor. intros i n s [= <-]. induction n as [|n IH]; cbn; congruence. Qed.

Definition dir : string := "/home/u/.config/opendelo".

Definition quoted (s : string) : string := map_runes (fun r => if r =? 39 then 34 else r) s.

Definition disk_with (content : string) : Disk :=
  {[dir := Directory DirPermission; Join dir FileName := Regular FilePermission (quoted content)]}.

Definition load (content : string) (environment : list (string * string)) (flags : Overrides) : result Code (Z * string * string * list Warning) :=
  let params := {| p_Dir := ""; p_Flags := flags;
                   p_LookupEnv name := snd <$> find_first (fun kv => kv.1 ==? name) environment |} in
  match (Load params (mkWorld (disk_with content) 0 0 10)).1 with
  | Ok (c, warnings) => Ok (WebAPIPort c, LogLevel c, SecurityLevel c, warnings)
  | Err (_, e) => Err e
  end.

Example loaded :
  load "{'web_api_port':9000,'log_level':'warn'}" [(envWebAPIPort, "9100")] no_overrides = Ok (9100, "warn", "L1", []) /\
  load "{'web_api_port':9000," [] no_overrides = Ok (8787, "info", "L1", [UnparsableFile (Join dir FileName)]) /\
  load "{'web_api_port':'x'}" [] no_overrides = Ok (8787, "info", "L1", [UnparsableFile (Join dir FileName)]) /\
  load "{'web_api_port':8788}" [] no_overrides = Err CodeInvalidConfiguration /\
  load "{}" [(envWebAPIPort, "x")] no_overrides = Err CodeInvalidConfiguration /\
  load "{'listen_address':'10.0.0.1'}" [] no_overrides = Err CodeInvalidConfiguration /\
  load "{'listen_address':'10.0.0.1','allow_non_loopback':true}" [] no_overrides = Ok (8787, "info", "L1", []).
Proof. by vm_compute. Qed.

(** The level of security a user writes down is passed over without a word. *)
Example security_level_ignored : load "{'security_level':'L0'}" [] no_overrides = Ok (8787, "info", "L1", []).
Proof. by vm_compute. Qed.

(** A token of which only a part was written is taken for the token afterwards. *)
Example torn_token_accepted :
  let first := EnsureSessionToken dir (mkWorld ({[dir := Directory DirPermission]} : Disk) 0 0 0) in
  is_Ok first.1 = false /\ (EnsureSessionToken dir first.2).1 = Ok ("abc", SessionFileExisting).
Proof. by vm_compute. Qed.

Lemma token_is_private_witness :
  exists token w', EnsureSessionToken dir (mkWorld (disk_with "{}") 0 0 10) = (Ok (token, SessionFileCreated), w') /\
    kept None (db w' !! Join dir SessionTokenFileName) token SessionFileCreated.
Proof.
  pose proof (token_is_private dir (mkWorld (disk_with "{}") 0 0 10)) as Ht. cbv zeta in Ht.
  destruct (EnsureSessionToken dir (mkWorld (disk_with "{}") 0 0 10)) as [[[token what]|e] w'] eqn:Hw.
  - assert (what = SessionFileCreated) as ->.
    { apply (f_equal (fun r => match r.1 with Ok (_, what) => what | Err _ => SessionFileExisting end)) in Hw. by vm_compute in Hw. }
    exists token, w'. split; [reflexivity|]. exact (proj1 Ht).
  - apply (f_equal (fun r => is_Ok r.1)) in Hw. by vm_compute in Hw.
Defined.
End sample.
