(* ===== verification/Setup.v ===== *)
(** * cli/init.go: preparing the machine

    [opendelo init] makes the directories, a file with the defaults and the token,
    each of them only where there is none, and tightens the permissions of what is
    there. *)
From S2P Require Import Prelude GoStr Apperr World FilePath Config.
From S2P Require Json Vault.
Open Scope Z_scope.

(** What is reported of a path; the texts are left out. *)
Inductive Action := actionCreated | actionExisting | actionTightened (mode : Z).

(** [json.MarshalIndent] of [config.Default()], two spaces a level. *)
Definition indented (members : list (string * string)) : string :=
  let LF := String (of_byte 10) "" in
  "{" +:+ LF +:+ join ("," +:+ LF) (map (fun kv => "  " +:+ Json.quote kv.1 +:+ ": " +:+ kv.2) members) +:+ LF +:+ "}".

Definition defaults_text : string :=
  indented [("listen_address", Json.quote (ListenAddress Default)); ("web_api_port", itoa (WebAPIPort Default));
            ("agent_proxy_port", itoa (AgentProxyPort Default)); ("mcp_port", itoa (MCPPort Default));
            ("log_level", Json.quote (LogLevel Default)); ("security_level", Json.quote (SecurityLevel Default));
            ("allow_non_loopback", if AllowNonLoopback Default then "true" else "false")] +:+ String (of_byte 10) "".

(** The file says what goes without saying. *)
Example defaults_read `{Unicode} : (fun o => applyTo o Default) <$> unmarshalOverrides (H := ascii_only) defaults_text = Some Default.
Proof. by vm_compute. Qed.

Section init.
Context `{Env} `{Vault.Device} `{System}.

Definition tighten (path : string) (want : Z) : M Disk Code Action :=
  info ← Stat path;
  match info with
  | There n =>
      if windows || (Perm n =? want) then mret actionExisting
      else
        done ← Chmod path want;
        _ ← refuse (negb done) invalidConfig;
        mret (actionTightened want)
  | _ => throw invalidConfig
  end.

Definition ensureDirectory (path : string) : M Disk Code Action :=
  info ← Stat path;
  match info with
  | Absent =>
      made ← MkdirAll path DirPermission;
      _ ← refuse (negb made) invalidConfig;
      mret actionCreated
  | There (Directory _) => tighten path DirPermission
  | _ => throw invalidConfig
  end.

Definition ensureConfigFile (path : string) : M Disk Code Action :=
  file ← OpenFile path FilePermission;
  match file with
  | Exists => tighten path FilePermission
  | NotOpened => throw invalidConfig
  | Opened =>
      written ← WriteClose path defaults_text FilePermission;
      _ ← refuse (negb written) invalidConfig;
      mret actionCreated
  end.

(** [runInit] once the flags are parsed; a directory of its own when none is given. *)
Definition runInit (configDir : string) (lookupEnv : LookupEnvFunc) : M Disk Code (list Action * SessionFile) :=
  dir ← of_result (if configDir ==? "" then Dir lookupEnv else Ok configDir);
  first ← ensureDirectory dir;
  second ← ensureDirectory (Join dir DataDirName);
  third ← ensureConfigFile (Join dir FileName);
  '(_, action) ← EnsureSessionToken dir;
  mret ([first; second; third], action).

(** ** What is there in the end *)

(** A node that is not there is made, one that is there keeps what it holds. *)
Definition held (before after : option Node) : Prop :=
  forall n, before = Some n -> exists mode, after = Some (with_mode mode n).

Lemma with_own_mode n : with_mode (Perm n) n = n.
Proof. by destruct n. Qed.

Lemma held_refl o : held o o.
Proof. intros n ->. exists (Perm n). by rewrite with_own_mode. Qed.

Lemma with_mode_twice a b n : with_mode a (with_mode b n) = with_mode a n.
Proof. by destruct n. Qed.

Lemma held_trans a b c : held a b -> held b c -> held a c.
Proof. intros Hab Hbc n Hn. apply Hab in Hn as (m & Hm). apply Hbc in Hm as (m' & ->). exists m'. by rewrite with_mode_twice. Qed.

(** [path] alone was touched, and is [good] now if it went well. *)
Definition settled_at {A} (path : string) (good : Node -> Prop) (before : Disk) (r : result Code A) (after : Disk) : Prop :=
  elsewhere path before after /\ held (before !! path) (after !! path) /\
  (is_Ok r = true -> exists n, after !! path = Some n /\ good n).

Definition private_directory (n : Node) : Prop := exists mode, n = Directory mode /\ (windows = false -> mode = DirPermission).
Definition private (n : Node) : Prop := windows = false -> Perm n = FilePermission.

Lemma settled_refused {A} path good d (e : Code) : settled_at (A := A) path good d (Err e) d.
Proof. split_and!; [by intros ? ?|apply held_refl|done]. Qed.

Lemma settled_throw {A} path good d (e : Code) : wp (throw e) (settled_at (A := A) path good d) d.
Proof. apply wp_throw, settled_refused. Qed.

Lemma settled_made {A} path (good : Node -> Prop) n d (r : result Code A) :
  d !! path = None -> (is_Ok r = true -> good n) -> settled_at path good d r (<[path := n]> d).
Proof.
  intros Hd Hn. unfold settled_at. rewrite Hd, lookup_insert_eq. split_and!; [|done|].
  - intros other Ho. by rewrite lookup_insert_ne.
  - intros Hr. exists n. auto.
Qed.

Lemma wp_tighten path want (good : Node -> Prop) n d :
  d !! Clean path = Some n -> good (with_mode want n) -> (windows = true \/ Perm n = want -> good n) ->
  wp (tighten path want) (settled_at (Clean path) good d) d.
Proof.
  intros Hn Hgood Hsame. unfold tighten. apply wp_bind, wp_effect. intros i. rewrite Hn. cbn [fst snd].
  destruct (io_fails i); [apply settled_throw|]. destruct (windows || (Perm n =? want)) eqn:Hw.
  - apply wp_ret. split_and!; [by intros ? ?|apply held_refl|]. intros _. exists n. split; [done|]. apply Hsame.
    apply orb_true_iff in Hw as [?|?%Z.eqb_eq]; auto.
  - apply wp_bind, wp_effect. intros j. cbn [fst snd]. apply wp_bind, wp_refuse.
    destruct (io_fails j); cbn [negb fst snd]; [apply settled_refused|]. apply wp_ret. unfold settled_at. rewrite lookup_alter_eq, Hn. cbn. split_and!.
    + intros other Ho. by rewrite lookup_alter_ne.
    + intros ? [= <-]. by exists want.
    + intros _. by eexists.
Qed.

Lemma wp_ensureDirectory path d : wp (ensureDirectory path) (settled_at (Clean path) private_directory d) d.
Proof.
  unfold ensureDirectory. apply wp_bind, wp_effect. intros i. cbn [fst snd].
  destruct (io_fails i); [apply settled_throw|]. destruct (d !! Clean path) as [[mode|mode content|mode]|] eqn:Hd; try apply settled_throw.
  - apply (wp_tighten _ _ _ _ _ Hd); [by exists DirPermission|]. intros Hm. exists mode. split; [done|].
    intros Hw. destruct Hm; [congruence|done].
  - apply wp_bind, wp_effect. intros j. cbn [fst snd]. apply wp_bind, wp_refuse.
    destruct (io_fails j); cbn [negb fst snd]; [apply settled_refused|]. apply wp_ret, settled_made; [done|]. intros _. by exists DirPermission.
Qed.

Definition configured (before : Disk) (path : string) (n : Node) : Prop :=
  private n /\ (before !! path = None -> n = Regular FilePermission defaults_text).

Lemma wp_ensureConfigFile path d :
  wp (ensureConfigFile path) (settled_at (Clean path) (configured d (Clean path)) d) d.
Proof.
  unfold ensureConfigFile, configured. apply wp_bind, wp_effect. intros i. cbn [fst snd].
  destruct (io_fails i); [apply settled_throw|]. destruct (d !! Clean path) as [n|] eqn:Hd; cbn [fst snd].
  - apply (wp_tighten _ _ _ _ _ Hd).
    + split; [by intros _; destruct n|done].
    + intros Hm. split; [|done]. intros Hw. destruct Hm; [congruence|done].
  - apply wp_bind, wp_effect. intros j. cbn [fst snd]. rewrite !insert_insert_eq. apply wp_bind, wp_refuse.
    destruct (io_fails j); cbn [negb fst snd]; [by apply settled_made|]. apply wp_ret, settled_made; [done|]. by split.
Qed.

(** ** Twice is once *)

Lemma tighten_again path want n d :
  d !! Clean path = Some n -> Perm n = want -> wp (tighten path want) (fun _ d' => d' = d) d.
Proof.
  intros Hn Hp. unfold tighten. apply wp_bind, wp_effect. intros i. rewrite Hn. cbn [fst snd].
  destruct (io_fails i); [by apply wp_throw|]. rewrite Hp, Z.eqb_refl, orb_true_r. by apply wp_ret.
Qed.

Lemma ensureDirectory_again path d :
  d !! Clean path = Some (Directory DirPermission) -> wp (ensureDirectory path) (fun _ d' => d' = d) d.
Proof.
  intros Hd. unfold ensureDirectory. apply wp_bind, wp_effect. intros i. rewrite Hd. cbn [fst snd].
  destruct (io_fails i); [by apply wp_throw|]. by eapply tighten_again.
Qed.

Lemma ensureConfigFile_again path n d :
  d !! Clean path = Some n -> Perm n = FilePermission -> wp (ensureConfigFile path) (fun _ d' => d' = d) d.
Proof.
  intros Hd Hp. unfold ensureConfigFile. apply wp_bind, wp_effect. intros i. rewrite Hd. cbn [fst snd].
  destruct (io_fails i); cbn [fst snd]; [by apply wp_throw|]. by eapply tighten_again.
Qed.

Lemma EnsureSessionToken_again dir token d :
  d !! Join dir SessionTokenFileName = Some (Regular FilePermission token) -> wp (EnsureSessionToken dir) (fun _ d' => d' = d) d.
Proof.
  intros Hd. unfold EnsureSessionToken. apply wp_bind, wp_effect. intros i. rewrite Clean_Join, Hd. cbn [fst snd].
  destruct (io_fails i); [by apply wp_throw|]. rewrite Z.eqb_refl, andb_false_r.
  apply wp_bind, wp_readSessionToken; [done|]. intros mode t _ _. by apply wp_ret.
Qed.

(** The four places of a directory, once it is prepared. *)
Record prepared (dir : string) (d : Disk) : Prop := {
  prepared_dir : d !! Clean dir = Some (Directory DirPermission);
  prepared_data : d !! Join dir DataDirName = Some (Directory DirPermission);
  prepared_file : exists n, d !! Join dir FileName = Some n /\ Perm n = FilePermission;
  prepared_token : exists token, d !! Join dir SessionTokenFileName = Some (Regular FilePermission token) /\ token <> "";
}.

Definition init_directory (configDir : string) (lookupEnv : LookupEnvFunc) : result Code string :=
  if configDir ==? "" then Dir lookupEnv else Ok configDir.

Lemma runInit_again configDir lookupEnv dir d :
  init_directory configDir lookupEnv = Ok dir -> prepared dir d -> wp (runInit configDir lookupEnv) (fun _ d' => d' = d) d.
Proof.
  intros Hdir [Hd Hdata (n & Hf & Hp) (token & Ht & _)]. unfold runInit. apply wp_bind, wp_of_result. unfold init_directory in Hdir. rewrite Hdir.
  apply wp_bind. eapply wp_mono; [by apply ensureDirectory_again|]. intros [a|e] d' ->; [|done].
  apply wp_bind. eapply wp_mono; [apply ensureDirectory_again; by rewrite Clean_Join|]. intros [b|e] d' ->; [|done].
  apply wp_bind. eapply wp_mono; [eapply ensureConfigFile_again; [by rewrite Clean_Join|done]|]. intros [f|e] d' ->; [|done].
  apply wp_bind. eapply wp_mono; [by eapply EnsureSessionToken_again|]. intros [[t what]|e] d' ->; [by apply wp_ret|done].
Qed.

(** ** Once *)

Definition places (dir : string) : list string :=
  [Clean dir; Join dir DataDirName; Join dir FileName; Join dir SessionTokenFileName].

(** Other files are as they were, and the configuration says what it said. *)
Definition preserved (dir : string) (d d' : Disk) : Prop :=
  (forall path, path ∉ places dir -> d' !! path = d !! path) /\ held (d !! Join dir FileName) (d' !! Join dir FileName).

Lemma places_distinct dir : NoDup (places dir).
Proof.
  destruct file_names as (Hf & Ht & Hd).
  pose proof (Join_below dir _ Hf). pose proof (Join_below dir _ Ht). pose proof (Join_below dir _ Hd).
  assert (Join dir DataDirName <> Join dir FileName) by (intros Heq; by apply Join_inj in Heq).
  assert (Join dir DataDirName <> Join dir SessionTokenFileName) by (intros Heq; by apply Join_inj in Heq).
  assert (Join dir FileName <> Join dir SessionTokenFileName) by (intros Heq; by apply Join_inj in Heq).
  unfold places. rewrite !NoDup_cons, !not_elem_of_cons. repeat split; try apply not_elem_of_nil; try apply NoDup_nil_2; congruence.
Qed.

Lemma preserved_elsewhere dir path d d' :
  path ∈ places dir -> path <> Join dir FileName -> elsewhere path d d' -> preserved dir d d'.
Proof.
  intros Hin Hne He. split; [|rewrite (He (Join dir FileName)) by done; apply held_refl].
  intros other Ho. apply He. by intros ->.
Qed.

Lemma preserved_file dir d d' :
  elsewhere (Join dir FileName) d d' -> held (d !! Join dir FileName) (d' !! Join dir FileName) -> preserved dir d d'.
Proof. intros He Hh. split; [|done]. intros other Ho. apply He. intros ->. apply Ho. unfold places. set_solver. Qed.

Lemma preserved_trans dir a b c : preserved dir a b -> preserved dir b c -> preserved dir a c.
Proof. intros [H2 H3] [H4 H5]. split; [|by eapply held_trans]. intros path Hp. by rewrite H4, H2. Qed.

(** What a run leaves, with the files of the first one in mind. *)
Definition initialised (dir : string) (d : Disk) (r : result Code (list Action * SessionFile)) (d' : Disk) : Prop :=
  preserved dir d d' /\ (is_Ok r = true -> windows = false -> prepared dir d' /\
    (d !! Join dir FileName = None -> d' !! Join dir FileName = Some (Regular FilePermission defaults_text)) /\
    (forall token, d !! Join dir SessionTokenFileName = Some (Regular FilePermission token) ->
       d' !! Join dir SessionTokenFileName = Some (Regular FilePermission token))).

Lemma wp_runInit `{!Vault.DeviceLaws} configDir lookupEnv dir d :
  init_directory configDir lookupEnv = Ok dir -> wp (runInit configDir lookupEnv) (initialised dir d) d.
Proof.
  intros Hdir. unfold runInit. apply wp_bind, wp_of_result. unfold init_directory in Hdir. rewrite Hdir.
  pose proof (places_distinct dir) as Hnd. unfold places in Hnd. rewrite !NoDup_cons, !not_elem_of_cons in Hnd.
  destruct Hnd as ((Hd1 & Hd2 & Hd3 & _) & (Hd4 & Hd5 & _) & (Hd6 & _) & _ & _).
  apply wp_bind. eapply wp_mono; [apply wp_ensureDirectory|]. intros r1 d1 (He1 & _ & Hg1).
  assert (preserved dir d d1) as P1 by (eapply preserved_elsewhere, He1; [unfold places; set_solver|congruence]).
  destruct r1 as [a1|e]; [|by split]. destruct (Hg1 eq_refl) as (n1 & Hn1 & m1 & -> & Hm1).
  apply wp_bind. eapply wp_mono; [apply wp_ensureDirectory|]. rewrite Clean_Join. intros r2 d2 (He2 & _ & Hg2).
  assert (preserved dir d d2) as P2 by (eapply preserved_trans, preserved_elsewhere, He2; [done|unfold places; set_solver|congruence]).
  destruct r2 as [a2|e]; [|by split]. destruct (Hg2 eq_refl) as (n2 & Hn2 & m2 & -> & Hm2).
  apply wp_bind. eapply wp_mono; [apply wp_ensureConfigFile|]. rewrite Clean_Join. intros r3 d3 (He3 & Hh3 & Hg3).
  assert (preserved dir d d3) as P3 by (eapply preserved_trans, preserved_file, Hh3; done).
  destruct r3 as [a3|e]; [|by split]. destruct (Hg3 eq_refl) as (n3 & Hn3 & Hp3 & Hf3).
  apply wp_bind. eapply wp_mono; [apply wp_EnsureSessionToken|]. intros r4 d4 [Hk4 He4].
  assert (preserved dir d d4) as P4 by (eapply preserved_trans, preserved_elsewhere, He4; [done|unfold places; set_solver|congruence]).
  destruct r4 as [[token what]|e]; [|by split]. apply wp_ret. split; [done|]. intros _ Hw.
  destruct Hk4 as (Hne & mode & Hafter & Hmode & Hwhat & _).
  pose proof (Hm1 Hw). pose proof (Hm2 Hw). pose proof (Hmode Hw). pose proof (Hp3 Hw). subst m1 m2 mode.
  assert (d2 !! Join dir FileName = d !! Join dir FileName) as Hfile by (rewrite (He2 (Join dir FileName)), He1 by congruence; done).
  assert (d3 !! Join dir SessionTokenFileName = d !! Join dir SessionTokenFileName) as Htoken
    by (rewrite (He3 (Join dir SessionTokenFileName)), He2, He1 by congruence; done).
  split_and!; [split| |].
  - by rewrite (He4 (Clean dir)), He3, He2 by congruence.
  - by rewrite (He4 (Join dir DataDirName)), He3 by congruence.
  - exists n3. by rewrite (He4 (Join dir FileName)) by congruence.
  - by exists token.
  - intros Hnone. rewrite (He4 (Join dir FileName)) by congruence. rewrite Hn3. f_equal. apply Hf3. by rewrite Hfile.
  - intros old Hold. rewrite Htoken, Hold in Hwhat. rewrite Hafter. destruct what.
    + done.
    + by rewrite Hwhat in Hafter.
    + destruct Hwhat as (_ & loose & o & [= <- <-] & Hl). done.
Qed.

(** Preparing the machine. Whatever happens, no file but the four of the
    directory is touched, and a configuration that is there keeps every byte. When
    it goes well - on a platform whose permissions mean something - both
    directories are the user's alone, as are the configuration, which holds the
    defaults when there was none, and the token, which stays what it was when it
    was private before; and doing it again from there changes nothing, however
    that ends. *)
Theorem init_prepares `{!Vault.DeviceLaws} configDir lookupEnv dir w :
  init_directory configDir lookupEnv = Ok dir ->
  let '(r, w') := runInit configDir lookupEnv w in
  initialised dir (db w) r (db w') /\
  (is_Ok r = true -> windows = false -> forall w2, db w2 = db w' -> db (runInit configDir lookupEnv w2).2 = db w').
Proof.
  intros Hdir. destruct (runInit configDir lookupEnv w) as [r w'] eqn:Hw.
  pose proof (wp_use _ _ _ _ _ (wp_runInit configDir lookupEnv dir (db w) Hdir) Hw) as Hi. split; [exact Hi|].
  intros Hr Hwin w2 Hw2. destruct Hi as [_ Hi]. destruct (Hi Hr Hwin) as [Hp _].
  exact (runInit_again configDir lookupEnv dir (db w') Hdir Hp w2 Hw2).
Qed.
End init.

(** ** A new machine *)

Section sample.
#[local] Instance calm_env : Env := { clock_at n := 0; id_at n := None; io_fails _ := false; json_valid _ := true }.
#[local] Instance calm_device : Vault.Device := {
  Vault.torn _ := None;
  Vault.drawn _ n := Some (String.string_of_list_ascii (replicate n "x"%char));
}.
#[local] Instance calm_system : System := {| UserConfigDir := Some "/home/u/.config"; windows := false |}.

Instance calm_device_laws : Vault.DeviceLaws.
Proof. constructor. intros i n s [= <-]. induction n as [|n IH]; cbn; congruence. Qed.

Definition new_machine : World Disk := mkWorld ({["/home/u/file" := Regular 420 "text"]} : Disk) 0 0 0.

Lemma init_prepares_witness :
  exists w', (runInit "" (fun _ => None) new_machine) = (Ok ([actionCreated; actionCreated; actionCreated], SessionFileCreated), w') /\
    prepared Config.dir (db w').
Proof.
  pose proof (init_prepares "" (fun _ => None) Config.dir new_machine ltac:(by vm_compute)) as Hi.
  destruct (runInit "" (fun _ => None) new_machine) as [r w'] eqn:Hw.
  assert (r = Ok ([actionCreated; actionCreated; actionCreated], SessionFileCreated)) as ->.
  { apply (f_equal fst) in Hw. vm_compute in Hw. by rewrite <- Hw. }
  exists w'. split; [reflexivity|]. exact (proj1 (proj2 (proj1 Hi) eq_refl eq_refl)).
Defined.
End sample.
