(* ===== verification/Serving.v ===== *)
(** * cli: the gateway from its start to its end (start.go, face.go, assemble.go)

    [Gateway.Run] binds three ports, serves them with a sweeper beside them, and
    takes everything down again. Its goroutines - itself, one for each face, the
    sweeper - move one step at a time, and what happens to them comes in between:
    requests, streams, a signal, a listener that breaks, time that runs out. *)
From S2P Require Import Prelude GoStr Apperr.
From S2P Require Url GenericHttp Console Config Gateway.
Open Scope Z_scope.

(** ** What was asked for *)

(** The values of the flags of [start]. *)
Record portFlags := {
  listenAddress : string;
  webAPIPort : Z;
  agentProxyPort : Z;
  mcpPort : Z;
  logLevel : string;
}.

(** Only flags that were given count. *)
Definition commandLineOverrides (given : list string) (flags : portFlags) : Config.Overrides :=
  let when {A} (name : string) (value : A) := if one_of name given then Some value else None in
  {| Config.o_ListenAddress := when "listen-address" (listenAddress flags); Config.o_WebAPIPort := when "web-api-port" (webAPIPort flags);
     Config.o_AgentProxyPort := when "agent-proxy-port" (agentProxyPort flags); Config.o_MCPPort := when "mcp-port" (mcpPort flags);
     Config.o_LogLevel := when "log-level" (logLevel flags); Config.o_AllowNonLoopback := None |}.

Definition databaseFileName : string := "opendelo.db".
Definition databasePath (c : Config.Config) : string := Config.Join (Config.DataDir c) databaseFileName.

(** ** Binding the ports *)

(** [net.SplitHostPort]; the port itself is not needed. *)
Definition SplitHost (address : string) : option string :=
  '(front, port) ← Url.cut_last ":" address;
  if contains_any port "[]" then None
  else match front with
  | "" => Some ""
  | String c rest =>
      if c ==? "["%char then
        let '(host, after, found) := Url.cut "]" rest in
        if found && (after ==? "") && negb (contains_any host "[") then Some host else None
      else if contains_any front ":[]" then None else Some front
  end.

Example split_hosts :
  map SplitHost ["127.0.0.1:80"; "[::1]:80"; ":80"; "127.0.0.1"; "::1:80"; "[::1]80"; "[::1]:8[0"; "[[::1]:80"] =
    [Some "127.0.0.1"; Some "::1"; Some ""; None; None; None; None; None].
Proof. by vm_compute. Qed.

Section binding.
Context `{Unicode} `{GenericHttp.Names}.

(** [proxy.CheckLoopback]. *)
Definition CheckLoopback (address : string) : result Code unit :=
  match SplitHost address with
  | None => Err CodeInvalidConfiguration
  | Some host =>
      if equal_fold host "localhost" then Ok tt
      else match GenericHttp.ParseIP host with
           | Some ip => refuse_if (negb (Config.IsLoopback ip)) CodeInvalidConfiguration
           | None => Err CodeInvalidConfiguration
           end
  end.

(** [binds]: whether the system lets the address be bound. *)
Context (binds : string -> bool).

(** [Server.Listen] of the web API. *)
Definition web_Listen (c : Config.Config) : result Code unit :=
  refuse_if (negb (binds (Console.JoinHostPort (Config.ListenAddress c) (itoa (Config.WebAPIPort c))))) CodeInvalidConfiguration.

(** [faceServer.Listen]. *)
Definition Listen (address : string) : result Code unit :=
  _ ← CheckLoopback address;
  refuse_if (negb (binds address)) CodeInvalidConfiguration.

Definition face_address (c : Config.Config) (port : Z) : string := Console.JoinHostPort (Config.ListenAddress c) (itoa port).

(** The beginning of [Run]. *)
Definition begin_serving (c : Config.Config) (a : Gateway.Availability) : result Code Gateway.Availability :=
  _ ← web_Listen c;
  _ ← Listen (face_address c (Config.AgentProxyPort c));
  _ ← Listen (face_address c (Config.MCPPort c));
  let '(serving, a) := Gateway.Serve a in
  if serving : bool then Ok a else Err CodeGatewayUnavailable.
End binding.

(** ** An address is that of its host *)

Lemma rev_app_acc s acc : String.rev_app s acc = String.rev s +:+ acc.
Proof.
  revert acc. unfold String.rev. induction s as [|c s IH]; intros acc; [done|]. cbn. rewrite IH, (IH (String c "")).
  by rewrite <- str_app_assoc.
Qed.

Lemma rev_cons c s : String.rev (String c s) = String.rev s +:+ String c "".
Proof. unfold String.rev at 1. cbn. apply rev_app_acc. Qed.

Lemma rev_app s t : String.rev (s +:+ t) = String.rev t +:+ String.rev s.
Proof.
  induction s as [|c s IH]; [by rewrite str_app_nil_l, str_app_nil_r|]. rewrite str_app_cons, !rev_cons, IH. by rewrite str_app_assoc.
Qed.

Lemma rev_rev s : String.rev (String.rev s) = s.
Proof. induction s as [|c s IH]; [done|]. by rewrite rev_cons, rev_app, IH. Qed.

Lemma has_byte_rev c s : Url.has_byte c (String.rev s) = Url.has_byte c s.
Proof.
  unfold Url.has_byte. induction s as [|d s IH]; [done|]. rewrite rev_cons, str_exists_app, IH. cbn. by rewrite orb_false_r, orb_comm.
Qed.

Lemma cut_at c s t : Url.has_byte c s = false -> Url.cut c (s +:+ String c t) = (s, t, true).
Proof.
  unfold Url.has_byte. induction s as [|d s IH]; cbn [str_exists]; intros Hs.
  - rewrite str_app_nil_l. cbn [Url.cut]. by rewrite bool_decide_true.
  - apply orb_false_iff in Hs as [Hd Hs]. rewrite str_app_cons. cbn [Url.cut]. by rewrite Hd, IH by done.
Qed.

Lemma cut_last_at c s t : Url.has_byte c t = false -> Url.cut_last c (s +:+ String c t) = Some (s, t).
Proof.
  intros Ht. unfold Url.cut_last. rewrite rev_app, rev_cons, <- str_app_assoc, str_app_cons, str_app_nil_l.
  rewrite cut_at by (by rewrite has_byte_rev). by rewrite !rev_rev.
Qed.

(** A byte that is neither a digit nor a sign. *)
Lemma port_without c n : in_range 48 57 (byte_of c) = false -> c <> "-"%char -> Url.has_byte c (itoa n) = false.
Proof.
  intros Hc Hs. assert (forall s, all_digits s = true -> Url.has_byte c s = false) as Hd.
  { unfold Url.has_byte. induction s as [|d s IH]; [done|]. cbn. intros [Hd Hs']%andb_true_iff. rewrite IH by done.
    rewrite orb_false_r. apply bool_decide_eq_false. intros ->. congruence. }
  unfold itoa. destruct (n <? 0) eqn:Hn; bools; [|by apply Hd, utoa_digits].
  unfold Url.has_byte. rewrite str_exists_app. cbn. rewrite bool_decide_false by congruence. by apply Hd, utoa_digits; lia.
Qed.

Lemma contains_any_cons s c set : contains_any s (String c set) = Url.has_byte c s || contains_any s set.
Proof.
  unfold contains_any, Url.has_byte. induction s as [|d s IH]; [done|]. cbn [str_exists]. rewrite IH. unfold ascii_in. cbn [str_exists].
  destruct (d ==? c), (str_exists (fun d => d ==? c) s); cbn; by rewrite ?orb_true_r.
Qed.

Lemma contains_any_nil s : contains_any s "" = false.
Proof. unfold contains_any, ascii_in. by induction s. Qed.

Lemma SplitHost_join host port : contains_any host "[]" = false -> SplitHost (Console.JoinHostPort host (itoa port)) = Some host.
Proof.
  rewrite !contains_any_cons, contains_any_nil, !orb_false_iff. intros (Hopen & Hclose & _).
  assert (contains_any (itoa port) "[]" = false) as Hport by (by rewrite !contains_any_cons, contains_any_nil, !port_without by done).
  unfold SplitHost, Console.JoinHostPort. destruct (str_exists _ host) eqn:Hcolon.
  - assert ("[" +:+ host +:+ "]:" +:+ itoa port = String "[" (host +:+ String "]" "") +:+ String ":" (itoa port)) as ->
      by (rewrite !str_app_cons, !str_app_nil_l; rewrite <- str_app_assoc; by rewrite str_app_cons, str_app_nil_l).
    rewrite cut_last_at by (by apply port_without). cbn [mbind option_bind]. rewrite Hport. rewrite bool_decide_true by done.
    rewrite cut_at by done. cbn. by rewrite contains_any_cons, contains_any_nil, Hopen.
  - rewrite str_app_cons, str_app_nil_l. rewrite cut_last_at by (by apply port_without). cbn [mbind option_bind]. rewrite Hport.
    assert (contains_any host ":[]" = false) as Hhost.
    { rewrite !contains_any_cons, contains_any_nil, Hopen, Hclose. unfold Url.has_byte. by rewrite Hcolon. }
    rewrite Hhost. destruct host as [|c host]; [done|]. rewrite bool_decide_false; [done|]. intros ->. unfold Url.has_byte in Hopen. cbn in Hopen. done.
Qed.

(** ** The goroutines *)

(** One face in [Serve]: it takes requests, it shuts down, it has reported. *)
Inductive Phase := Accepting | Draining | Ended (e : option Code).

Record Face := mkFace { phase : Phase; handlers : nat; open_streams : nat }.

(** [sweepApprovals]. *)
Inductive Sweeper := Idle | Sweeping | SweepDone.

(** Where [Run] is, and [Close] after it. *)
Inductive Main := Selecting | Stopping | ClosingStreams | StoppingFaces | Collecting | AwaitingSweep | Returned | Released.

#[export] Instance main_eq_dec : EqDecision Main.
Proof. solve_decision. Defined.

Record Gate := mkGate {
  available : Gateway.Availability;
  streams_closed : bool;
  interrupted : bool;       (** the context of the command is done *)
  stopping : bool;          (** [stopFaces] was called *)
  faces : list Face;
  served : list (option Code);  (** the channel [served] *)
  sweeper : Sweeper;
  main : Main;
  pending : nat;
  closing : list (option Code);
  db_open : bool;
}.

(** The context [serving] comes from that of the command. *)
Definition told_to_stop (g : Gate) : bool := interrupted g || stopping g.

(** The capacity of the channel [served]. *)
Definition face_count : nat := 3.

Definition started (a : Gateway.Availability) : Gate :=
  mkGate a false false false (repeat (mkFace Accepting 0 0) face_count) [] Idle Selecting 0 [] true.

Inductive label :=
| Interrupt
| Arrive (i : nat) | Answer (i : nat)
| OpenStream (i : nat) | LeaveStream (i : nat)
| Break (i : nat) (e : Code)
| Notice (i : nat) | Drained (i : nat) | CutOff (i : nat) | Spoil (i : nat) (e : Code)
| Tick | Swept | EndSweep
| SeeInterrupt | Receive | Advance.

Definition with_faces (faces' : list Face) (served' : list (option Code)) (g : Gate) : Gate :=
  mkGate (available g) (streams_closed g) (interrupted g) (stopping g) faces' served' (sweeper g) (main g) (pending g) (closing g) (db_open g).

Definition with_sweeper (sweeper' : Sweeper) (g : Gate) : Gate :=
  mkGate (available g) (streams_closed g) (interrupted g) (stopping g) (faces g) (served g) sweeper' (main g) (pending g) (closing g) (db_open g).

(** One face moves; what it returns goes into the channel. *)
Definition move (i : nat) (f : Face -> option Face) (g : Gate) : option Gate :=
  face ← faces g !! i;
  face' ← f face;
  Some (with_faces (<[i := face']> (faces g))
          (served g ++ match phase face' with Ended e => [e] | _ => [] end) g).

Definition arrive (face : Face) : option Face :=
  match phase face with Accepting => Some (mkFace Accepting (S (handlers face)) (open_streams face)) | _ => None end.

Definition open_stream (face : Face) : option Face :=
  match phase face with Accepting => Some (mkFace Accepting (handlers face) (S (open_streams face))) | _ => None end.

(** [http.Server.Serve] returns. *)
Definition break_ (e : Code) (face : Face) : option Face :=
  match phase face with Accepting => Some (mkFace (Ended (Some e)) (handlers face) (open_streams face)) | _ => None end.

(** The context is done: [Shutdown] is called. *)
Definition notice (face : Face) : option Face :=
  match phase face with Accepting => Some (mkFace Draining (handlers face) (open_streams face)) | _ => None end.

(** [Shutdown] returns: nobody is left; or the time is up, and the connections are
    cut; or with another error. *)
Definition drained (face : Face) : option Face :=
  match phase face, handlers face, open_streams face with Draining, O, O => Some (mkFace (Ended None) 0 0) | _, _, _ => None end.

Definition ends_with (e : option Code) (face : Face) : option Face :=
  match phase face with Draining => Some (mkFace (Ended e) (handlers face) (open_streams face)) | _ => None end.

(** A handler finishes, also one whose face has returned already. *)
Definition finish (g : Gate) (i : nat) (f : Face -> option Face) : option Gate :=
  face ← faces g !! i; face' ← f face; Some (with_faces (<[i := face']> (faces g)) (served g) g).

Definition answer (face : Face) : option Face :=
  match handlers face with S n => Some (mkFace (phase face) n (open_streams face)) | O => None end.

Definition leave_stream (face : Face) : option Face :=
  match open_streams face with S n => Some (mkFace (phase face) (handlers face) n) | O => None end.

(** [Run] takes one result out of the channel. *)
Definition receive (g : Gate) : option Gate :=
  match served g, main g, pending g with
  | e :: rest, Selecting, _ =>
      Some (mkGate (available g) (streams_closed g) (interrupted g) (stopping g) (faces g) rest (sweeper g) Stopping
              (face_count - 1) (closing g ++ [e]) (db_open g))
  | e :: rest, Collecting, S n =>
      Some (mkGate (available g) (streams_closed g) (interrupted g) (stopping g) (faces g) rest (sweeper g) Collecting
              n (closing g ++ [e]) (db_open g))
  | _, _, _ => None
  end.

(** [Gateway.Close]. *)
Definition Close (g : Gate) : Gate :=
  mkGate (Gateway.Stop (available g)) true (interrupted g) (stopping g) (faces g) (served g) (sweeper g) Released (pending g) (closing g) false.

(** The next statement of [Run], and [Close]. *)
Definition advance (g : Gate) : option Gate :=
  let next a streams stop m db :=
    Some (mkGate a streams (interrupted g) stop (faces g) (served g) (sweeper g) m (pending g) (closing g) db) in
  match main g with
  | Stopping => next (Gateway.Stop (available g)) (streams_closed g) (stopping g) ClosingStreams (db_open g)
  | ClosingStreams => next (available g) true (stopping g) StoppingFaces (db_open g)
  | StoppingFaces => next (available g) (streams_closed g) true Collecting (db_open g)
  | Collecting => if (pending g =? 0)%nat then next (available g) (streams_closed g) (stopping g) AwaitingSweep (db_open g) else None
  | AwaitingSweep =>
      match sweeper g with
      | SweepDone => next (available g) (streams_closed g) (stopping g) Returned (db_open g)
      | _ => None
      end
  | Returned => Some (Close g)
  | Selecting | Released => None
  end.

Definition act (l : label) (g : Gate) : option Gate :=
  match l with
  | Interrupt => Some (mkGate (available g) (streams_closed g) true (stopping g) (faces g) (served g) (sweeper g) (main g) (pending g) (closing g) (db_open g))
  | Arrive i => move i arrive g
  | Answer i => finish g i answer
  | OpenStream i => if streams_closed g then None else move i open_stream g
  | LeaveStream i => finish g i leave_stream
  | Break i e => move i (break_ e) g
  | Notice i => if told_to_stop g then move i notice g else None
  | Drained i => move i drained g
  | CutOff i => move i (ends_with None) g
  | Spoil i e => move i (ends_with (Some e)) g
  | Tick => match sweeper g with Idle => Some (with_sweeper Sweeping g) | _ => None end
  | Swept => match sweeper g with Sweeping => Some (with_sweeper Idle g) | _ => None end
  | EndSweep => match sweeper g with Idle => if told_to_stop g then Some (with_sweeper SweepDone g) else None | _ => None end
  | SeeInterrupt =>
      match main g with
      | Selecting => if interrupted g then
          Some (mkGate (available g) (streams_closed g) (interrupted g) (stopping g) (faces g) (served g) (sweeper g) Stopping
                  face_count (closing g) (db_open g)) else None
      | _ => None
      end
  | Receive => receive g
  | Advance => advance g
  end.

Fixpoint run (ls : list label) (g : Gate) : option Gate :=
  match ls with
  | [] => Some g
  | l :: ls => g ← act l g; run ls g
  end.

(** ** What holds at every moment *)

Definition ended (face : Face) : option (option Code) := match phase face with Ended e => Some e | _ => None end.

Definition past (m : Main) : nat :=
  match m with
  | Selecting => 0 | Stopping => 1 | ClosingStreams => 2 | StoppingFaces => 3 | Collecting => 4 | AwaitingSweep => 5
  | Returned => 6 | Released => 7
  end.

(** The results are on their way: of the faces that have returned, each one's is in
    the channel or collected; how far [Run] is says what has been done. *)
Record coherent (g : Gate) : Prop := {
  co_three : length (faces g) = face_count;
  co_results : closing g ++ served g ≡ₚ omap ended (faces g);
  co_pending : match main g with
               | Selecting => closing g = []
               | _ => (pending g + length (closing g))%nat = face_count
               end;
  co_collected : (5 <= past (main g))%nat -> pending g = 0%nat;
  co_serving : (past (main g) <= 1)%nat <-> Gateway.Serving (available g) = true;
  co_streams : (3 <= past (main g))%nat <-> streams_closed g = true;
  co_stopping : (4 <= past (main g))%nat <-> stopping g = true;
  co_swept : (6 <= past (main g))%nat -> sweeper g = SweepDone;
  co_open : (7 <= past (main g))%nat <-> db_open g = false;
  co_draining : forall face, face ∈ faces g -> phase face = Draining -> told_to_stop g = true;
}.

Lemma omap_insert_new {A B} (f : A -> option B) (l : list A) i x y :
  l !! i = Some x -> f x = None -> omap f (<[i := y]> l) ≡ₚ omap f l ++ match f y with Some b => [b] | None => [] end.
Proof.
  intros Hi Hx. rewrite insert_take_drop by (by eapply lookup_lt_Some). rewrite <- (take_drop_middle l i x Hi) at 3.
  rewrite !omap_app. cbn. rewrite Hx. destruct (f y); [|by rewrite app_nil_r].
  rewrite <- app_assoc. apply Permutation_app_head. by rewrite Permutation_app_comm.
Qed.

Lemma omap_insert_same {A B} (f : A -> option B) (l : list A) i x y :
  l !! i = Some x -> f y = f x -> omap f (<[i := y]> l) = omap f l.
Proof.
  intros Hi Hf. rewrite insert_take_drop by (by eapply lookup_lt_Some). rewrite <- (take_drop_middle l i x Hi) at 3.
  rewrite !omap_app. cbn. by rewrite Hf.
Qed.

Lemma elem_of_insert {A} (l : list A) i x y : x ∈ <[i := y]> l -> x = y \/ x ∈ l.
Proof.
  intros [j Hj]%list_elem_of_lookup. destruct (decide (i = j)) as [->|Hne].
  - left. rewrite list_lookup_insert_eq in Hj by (apply lookup_lt_Some in Hj; by rewrite length_insert in Hj). congruence.
  - right. rewrite list_lookup_insert_ne in Hj by done. by eapply list_elem_of_lookup_2.
Qed.

(** A face that has not returned moves. *)
Lemma coherent_move i f g g' :
  (forall face face', f face = Some face' -> ended face = None /\ (phase face' = Draining -> phase face = Draining \/ told_to_stop g = true)) ->
  move i f g = Some g' -> coherent g -> coherent g'.
Proof.
  intros Hf Hm Hg. unfold move in Hm. destruct (faces g !! i) as [face|] eqn:Hi; [|done]. cbn in Hm.
  destruct (f face) as [face'|] eqn:Hface; [|done]. cbn in Hm. injection Hm as <-. apply Hf in Hface as [He Hd].
  destruct Hg as [H1 H2 H3 H4 H5 H6 H7 H8 H9 H10]. split; cbn; try done.
  - by rewrite length_insert.
  - rewrite (omap_insert_new _ _ _ _ _ Hi He), app_assoc, H2. apply Permutation_app_head. unfold ended. by destruct (phase face').
  - intros x [->|Hx]%elem_of_insert Hp; [|by eapply H10]. destruct (Hd Hp) as [Hp'|]; [|done].
    apply (H10 face); [by eapply list_elem_of_lookup_2|done].
Qed.

(** A handler or a stream of a face ends. *)
Lemma coherent_finish i f g g' :
  (forall face face', f face = Some face' -> phase face' = phase face) -> finish g i f = Some g' -> coherent g -> coherent g'.
Proof.
  intros Hf Hm Hg. unfold finish in Hm. destruct (faces g !! i) as [face|] eqn:Hi; [|done]. cbn in Hm.
  destruct (f face) as [face'|] eqn:Hface; [|done]. cbn in Hm. injection Hm as <-. apply Hf in Hface as Hp.
  destruct Hg as [H1 H2 H3 H4 H5 H6 H7 H8 H9 H10]. split; cbn; try done.
  - by rewrite length_insert.
  - rewrite H2. rewrite (omap_insert_same _ _ _ _ _ Hi); [done|]. unfold ended. by rewrite Hp.
  - intros x [->|Hx]%elem_of_insert Hx'; [|by eapply H10]. rewrite Hp in Hx'.
    apply (H10 face); [by eapply list_elem_of_lookup_2|done].
Qed.

Lemma coherent_receive g g' : receive g = Some g' -> coherent g -> coherent g'.
Proof.
  unfold receive. destruct (served g) as [|e rest] eqn:Hs; [done|]. intros Hr [H1 H2 H3 H4 H5 H6 H7 H8 H9 H10].
  assert ((closing g ++ [e]) ++ rest ≡ₚ omap ended (faces g)) as Hperm by (by rewrite <- app_assoc; rewrite Hs in H2).
  destruct (main g) eqn:Hm; try done; cbn in *.
  - injection Hr as <-. split; cbn; try done; rewrite <- ?H5, <- ?H6, <- ?H7, <- ?H9; try lia. by rewrite H3.
  - destruct (pending g) as [|n] eqn:Hp; [done|]. injection Hr as <-. split; cbn; try done.
    + rewrite length_app. cbn. lia.
    + lia.
Qed.

Lemma coherent_advance g g' : advance g = Some g' -> coherent g -> coherent g'.
Proof.
  unfold advance. intros Ha [H1 H2 H3 H4 H5 H6 H7 H8 H9 H10].
  destruct (main g) eqn:Hm; try done; cbn in *; [| | |destruct (pending g =? 0)%nat eqn:Hp; [|done]|destruct (sweeper g) eqn:Hs; try done|];
    injection Ha as <-; split; cbn; try done; try (rewrite <- ?H5, <- ?H6, <- ?H7, <- ?H9; lia); try (split; intros; (done || lia)).
  - intros face Hf Hd. specialize (H10 face Hf Hd). unfold told_to_stop in *. cbn. by rewrite orb_true_r.
  - intros _. by apply Nat.eqb_eq.
  - intros _. apply H8. lia.
Qed.

Lemma coherent_act l g g' : act l g = Some g' -> coherent g -> coherent g'.
Proof.
  destruct l; cbn [act]; intros Ha Hg.
  - injection Ha as <-. destruct Hg as [H1 H2 H3 H4 H5 H6 H7 H8 H9 H10]. by split.
  - revert Ha Hg. apply coherent_move. unfold arrive, ended. intros [[] ? ?] ?; cbn; intros; simplify_eq/=; first [done | split; [done|by intros]].
  - revert Ha Hg. apply coherent_finish. unfold answer. intros [? [] ?] ?; cbn; intros; simplify_eq/=; first [done | split; [done|by intros]].
  - destruct (streams_closed g); [done|]. revert Ha Hg. apply coherent_move. unfold open_stream, ended. intros [[] ? ?] ?; cbn; intros; simplify_eq/=; first [done | split; [done|by intros]].
  - revert Ha Hg. apply coherent_finish. unfold leave_stream. intros [? ? []] ?; cbn; intros; simplify_eq/=; first [done | split; [done|by intros]].
  - revert Ha Hg. apply coherent_move. unfold break_, ended. intros [[] ? ?] ?; cbn; intros; simplify_eq/=; first [done | split; [done|by intros]].
  - destruct (told_to_stop g) eqn:Ht; [|done]. revert Ha Hg. apply coherent_move. unfold notice, ended.
    intros [[] ? ?] ?; intros; simplify_eq. split; [done|]. by right.
  - revert Ha Hg. apply coherent_move. unfold drained, ended. intros [[] [] []] ?; cbn; intros; simplify_eq/=; first [done | split; [done|by intros]].
  - revert Ha Hg. apply coherent_move. unfold ends_with, ended. intros [[] ? ?] ?; cbn; intros; simplify_eq/=; first [done | split; [done|by intros]].
  - revert Ha Hg. apply coherent_move. unfold ends_with, ended. intros [[] ? ?] ?; cbn; intros; simplify_eq/=; first [done | split; [done|by intros]].
  - destruct (sweeper g) eqn:Hs; try done. injection Ha as <-. destruct Hg as [H1 H2 H3 H4 H5 H6 H7 H8 H9 H10]. split; try done.
    cbn. intros Hp. specialize (H8 Hp). congruence.
  - destruct (sweeper g) eqn:Hs; try done. injection Ha as <-. destruct Hg as [H1 H2 H3 H4 H5 H6 H7 H8 H9 H10]. split; try done.
    cbn. intros Hp. specialize (H8 Hp). congruence.
  - destruct (sweeper g) eqn:Hs; try done. destruct (told_to_stop g); [|done]. injection Ha as <-.
    by destruct Hg as [H1 H2 H3 H4 H5 H6 H7 H8 H9 H10]; split.
  - destruct (main g) eqn:Hm; try done. destruct (interrupted g) eqn:Hi; [|done]. injection Ha as <-.
    destruct Hg as [H1 H2 H3 H4 H5 H6 H7 H8 H9 H10]. rewrite Hm in *. cbn in *. split; cbn; try done;
      try (rewrite <- ?H5, <- ?H6, <- ?H7, <- ?H9; lia); try lia. by rewrite H3.
  - by eapply coherent_receive.
  - by eapply coherent_advance.
Qed.

Lemma coherent_run ls g g' : run ls g = Some g' -> coherent g -> coherent g'.
Proof.
  revert g. induction ls as [|l ls IH]; intros g; cbn [run]; [by intros [= <-]|].
  destruct (act l g) as [g1|] eqn:Ha; [|done]. cbn [mbind option_bind]. intros Hr Hg. eapply IH; [exact Hr|]. by eapply coherent_act.
Qed.

Lemma coherent_started a : Gateway.Serving a = true -> coherent (started a).
Proof.
  intros Ha. split; cbn; try done; try lia; try (split; intros; (done || lia)).
  intros face Hf Hd. rewrite !elem_of_cons, elem_of_nil in Hf. by destruct Hf as [->|[->|[->|[]]]].
Qed.

(** ** The end comes *)

Definition face_left (face : Face) : nat := match phase face with Accepting => 2 | Draining => 1 | Ended _ => 0 end.

Definition main_left (g : Gate) : nat :=
  match main g with
  | Selecting => 10 | Stopping => 6 + pending g | ClosingStreams => 5 + pending g | StoppingFaces => 4 + pending g
  | Collecting => 3 + pending g | AwaitingSweep => 2 | Returned => 1 | Released => 0
  end.

Definition sweeper_left (w : Sweeper) : nat := match w with Sweeping => 2 | Idle => 1 | SweepDone => 0 end.

(** The steps that are left at most. *)
Definition work (g : Gate) : nat := (list_sum (map face_left (faces g)) + main_left g + sweeper_left (sweeper g))%nat.

(** The steps of the goroutines themselves; a grace period runs out by itself. *)
Definition own (l : label) : bool :=
  match l with
  | Notice _ | CutOff _ | Swept | EndSweep | SeeInterrupt | Receive | Advance => true
  | _ => false
  end.

Definition is_tick (l : label) : bool := match l with Tick => true | _ => false end.

Definition count_labels (p : label -> bool) (ls : list label) : nat := length (List.filter p ls).

(** There is a reason to stop: a signal, or a face that has returned. *)
Definition cause (g : Gate) : Prop := interrupted g = true \/ exists face, face ∈ faces g /\ is_Some (ended face).

Lemma list_sum_insert {A} (f : A -> nat) (l : list A) i x y :
  l !! i = Some x -> (list_sum (map f (<[i := y]> l)) + f x = list_sum (map f l) + f y)%nat.
Proof.
  intros Hi. rewrite insert_take_drop by (by eapply lookup_lt_Some). rewrite <- (take_drop_middle l i x Hi) at 3.
  rewrite !map_app, !list_sum_app. cbn. lia.
Qed.

Lemma move_work i f g g' :
  move i f g = Some g' -> exists face face', faces g !! i = Some face /\ f face = Some face' /\
    (work g' + face_left face = work g + face_left face')%nat.
Proof.
  unfold move. destruct (faces g !! i) as [face|] eqn:Hi; [|done]. cbn. destruct (f face) as [face'|] eqn:Hf; [|done].
  intros [= <-]. exists face, face'. split_and!; [done..|]. pose proof (list_sum_insert face_left _ _ _ face' Hi).
  unfold work, main_left. unfold with_faces; cbn [faces main pending sweeper]; lia.
Qed.

Lemma finish_work i f g g' :
  (forall face face', f face = Some face' -> phase face' = phase face) -> finish g i f = Some g' -> work g' = work g.
Proof.
  intros Hf. unfold finish. destruct (faces g !! i) as [face|] eqn:Hi; [|done]. cbn. destruct (f face) as [face'|] eqn:Hface; [|done].
  intros [= <-]. apply Hf in Hface. pose proof (list_sum_insert face_left _ _ _ face' Hi).
  assert (face_left face' = face_left face) by (unfold face_left; by rewrite Hface). unfold work, main_left. unfold with_faces; cbn [faces main pending sweeper]; lia.
Qed.

(** An own step uses up work, and only a tick of the sweeper makes some. *)
Lemma act_work l g g' :
  coherent g -> act l g = Some g' ->
  ((if own l then 1 else 0) + work g' <= work g + (match l with Tick => 1 | _ => 0 end))%nat.
Proof.
  intros Hg. destruct l; cbn [act own]; intros Ha.
  - injection Ha as <-. change (work g <= work g + 0)%nat. lia.
  - apply move_work in Ha as ([[] ? ?] & face' & _ & Hf & Hw); cbn in Hf; simplify_eq/=; unfold face_left in Hw; cbn [phase] in Hw; lia.
  - apply finish_work in Ha; [lia|]. unfold answer. intros [? [] ?] ? ?; by simplify_eq/=.
  - destruct (streams_closed g); [done|].
    apply move_work in Ha as ([[] ? ?] & face' & _ & Hf & Hw); cbn in Hf; simplify_eq/=; unfold face_left in Hw; cbn [phase] in Hw; lia.
  - apply finish_work in Ha; [lia|]. unfold leave_stream. intros [? ? []] ? ?; by simplify_eq/=.
  - apply move_work in Ha as ([[] ? ?] & face' & _ & Hf & Hw); cbn in Hf; simplify_eq/=; unfold face_left in Hw; cbn [phase] in Hw; lia.
  - destruct (told_to_stop g); [|done].
    apply move_work in Ha as ([[] ? ?] & face' & _ & Hf & Hw); cbn in Hf; simplify_eq/=; unfold face_left in Hw; cbn [phase] in Hw; lia.
  - apply move_work in Ha as ([[] [] []] & face' & _ & Hf & Hw); cbn in Hf; simplify_eq/=; unfold face_left in Hw; cbn [phase] in Hw; lia.
  - apply move_work in Ha as ([[] ? ?] & face' & _ & Hf & Hw); cbn in Hf; simplify_eq/=; unfold face_left in Hw; cbn [phase] in Hw; lia.
  - apply move_work in Ha as ([[] ? ?] & face' & _ & Hf & Hw); cbn in Hf; simplify_eq/=; unfold face_left in Hw; cbn [phase] in Hw; lia.
  - destruct (sweeper g) eqn:Hs; try done. injection Ha as <-. unfold work, main_left, with_sweeper. cbn [faces main pending sweeper]. rewrite Hs. cbn [sweeper_left]. lia.
  - destruct (sweeper g) eqn:Hs; try done. injection Ha as <-. unfold work, main_left, with_sweeper. cbn [faces main pending sweeper]. rewrite Hs. cbn [sweeper_left]. lia.
  - destruct (sweeper g) eqn:Hs; try done. destruct (told_to_stop g); [|done]. injection Ha as <-. unfold work, main_left, with_sweeper. cbn [faces main pending sweeper]. rewrite Hs. cbn [sweeper_left]. lia.
  - destruct (main g) eqn:Hm; try done. destruct (interrupted g); [|done]. injection Ha as <-. unfold work, main_left. cbn [faces main pending sweeper]. rewrite Hm. unfold face_count. lia.
  - unfold receive in Ha. destruct (served g); [done|]. destruct (main g) eqn:Hm; try done.
    + injection Ha as <-. unfold work, main_left. cbn [faces main pending sweeper]. rewrite Hm. lia.
    + destruct (pending g) eqn:Hp; [done|]. injection Ha as <-. unfold work, main_left. cbn [faces main pending sweeper]. rewrite Hm, Hp. lia.
  - unfold advance in Ha. destruct (main g) eqn:Hm; try done; [| | |destruct (pending g =? 0)%nat; [|done]|destruct (sweeper g) eqn:Hs; try done|];
      injection Ha as <-; unfold work, main_left, Close; cbn [faces main pending sweeper]; rewrite Hm, ?Hs; lia.
Qed.

Lemma run_work ls g g' :
  coherent g -> run ls g = Some g' ->
  (count_labels own ls + work g' <= work g + count_labels is_tick ls)%nat.
Proof.
  unfold count_labels. revert g. induction ls as [|l ls IH]; intros g Hg; cbn [run]; [intros [= <-]; cbn; lia|].
  destruct (act l g) as [g1|] eqn:Ha; [|done]. cbn [mbind option_bind]. intros Hr.
  specialize (IH g1 (coherent_act _ _ _ Ha Hg) Hr). apply act_work in Ha; [|done].
  destruct l; cbn [own is_tick List.filter length] in *; lia.
Qed.

Lemma ended_waits g : coherent g -> main g = Selecting -> (exists face, face ∈ faces g /\ is_Some (ended face)) -> served g <> [].
Proof.
  intros Hg Hm (face & Hf & e & He) Hs. pose proof (co_results _ Hg) as Hp. pose proof (co_pending _ Hg) as Hc. rewrite Hm in Hc.
  rewrite Hs, Hc in Hp. assert (e ∈ omap ended (faces g)) as Hin by (apply list_elem_of_omap; by exists face).
  rewrite <- Hp in Hin. by apply not_elem_of_nil in Hin.
Qed.

(** While results are missing, a face has not returned. *)
Lemma missing_face g : coherent g -> main g = Collecting -> (0 < pending g)%nat -> served g = [] ->
  exists i face, faces g !! i = Some face /\ ended face = None.
Proof.
  intros Hg Hm Hp Hs. pose proof (co_results _ Hg) as Hr. pose proof (co_pending _ Hg) as Hc. rewrite Hm in Hc. rewrite Hs, app_nil_r in Hr.
  apply Permutation_length in Hr. pose proof (co_three _ Hg) as Hl.
  destruct (decide (Forall (fun face => is_Some (ended face)) (faces g))) as [Hall|Hno].
  - assert (length (omap ended (faces g)) = length (faces g)) as He.
    { clear -Hall. induction Hall as [|face l [e He] _ IH]; [done|]. cbn. rewrite He. cbn. by f_equal. }
    lia.
  - apply not_Forall_Exists in Hno; [|apply _]. apply Exists_exists in Hno as (face & Hin & Hno).
    apply list_elem_of_lookup in Hin as [i Hi]. exists i, face. split; [done|]. by apply eq_None_not_Some.
Qed.

Local Ltac go := eexists; split_and!; [done|done|cbn; congruence].

(** As long as it is not over, some goroutine can move. *)
Lemma progress g : coherent g -> (main g = Selecting -> cause g) -> main g <> Released -> 
  exists l g', own l = true /\ act l g = Some g' /\ main g' <> Selecting.
Proof.
  intros Hg Hcause Hm. destruct (main g) eqn:Em; [| | | | | | |done].
  - destruct (Hcause eq_refl) as [Hi|He].
    + exists SeeInterrupt. cbn. rewrite Em, Hi. go.
    + pose proof (ended_waits _ Hg Em He). exists Receive. cbn. unfold receive. rewrite Em. destruct (served g); [done|]. go.
  - exists Advance. cbn. unfold advance. rewrite Em. go.
  - exists Advance. cbn. unfold advance. rewrite Em. go.
  - exists Advance. cbn. unfold advance. rewrite Em. go.
  - destruct (pending g) as [|n] eqn:Hp; [exists Advance; cbn; unfold advance; rewrite Em, Hp; go|].
    destruct (served g) as [|e rest] eqn:Hs; [|exists Receive; cbn; unfold receive; rewrite Em, Hp, Hs; go].
    destruct (missing_face g Hg Em ltac:(lia) Hs) as (i & face & Hi & He).
    assert (told_to_stop g = true) as Ht.
    { unfold told_to_stop. rewrite (proj1 (co_stopping _ Hg)), orb_true_r; [done|]. rewrite Em. cbn. lia. }
    unfold ended in He. destruct (phase face) eqn:Hph; [| |done].
    + exists (Notice i). cbn. rewrite Ht. unfold move. rewrite Hi. cbn. unfold notice. rewrite Hph. go.
    + exists (CutOff i). cbn. unfold move. rewrite Hi. cbn. unfold ends_with. rewrite Hph. go.
  - destruct (sweeper g) eqn:Hs.
    + exists EndSweep. cbn. rewrite Hs. unfold told_to_stop. rewrite (proj1 (co_stopping _ Hg)), orb_true_r; [go|]. rewrite Em. cbn. lia.
    + exists Swept. cbn. rewrite Hs. go.
    + exists Advance. cbn. unfold advance. rewrite Em, Hs. go.
  - exists Advance. cbn. unfold advance. rewrite Em. go.
Qed.

(** From then on the goroutines alone bring it to its end. *)
Lemma returns g : coherent g -> (main g = Selecting -> cause g) ->
  exists ls g', Forall (fun l => own l = true) ls /\ run ls g = Some g' /\ main g' = Released /\ (length ls <= work g)%nat.
Proof.
  remember (work g) as n eqn:Hn. revert g Hn. induction n as [n IH] using lt_wf_ind. intros g -> Hg Hcause.
  destruct (decide (main g = Released)) as [Hm|Hm]; [exists [], g; split_and!; [done..|cbn; lia]|].
  destruct (progress g Hg Hcause Hm) as (l & g1 & Hl & Ha & Hg1). pose proof (act_work _ _ _ Hg Ha) as Hw. rewrite Hl in Hw.
  assert (work g1 < work g)%nat as Hlt by (destruct l; done || lia).
  destruct (IH _ Hlt g1 eq_refl (coherent_act _ _ _ Ha Hg)) as (ls & g' & Hls & Hr & Hm' & Hlen); [done|].
  exists (l :: ls), g'. split_and!; [by constructor| |done|cbn; lia]. cbn [run]. by rewrite Ha.
Qed.

Lemma ended_length (l : list Face) : (length (omap ended l) <= length l)%nat.
Proof. induction l as [|face l IH]; cbn; [done|]. destruct (ended face); cbn; lia. Qed.

Lemma all_ended g : coherent g -> (5 <= past (main g))%nat ->
  served g = [] /\ length (closing g) = face_count /\ Forall (fun face => is_Some (ended face)) (faces g).
Proof.
  intros Hg Hp. pose proof (co_collected _ Hg Hp) as H0. pose proof (co_pending _ Hg) as Hc. rewrite H0 in Hc.
  assert (length (closing g) = face_count) as Hl by (destruct (main g); cbn in Hp; try done; lia).
  pose proof (Permutation_length (co_results _ Hg)) as Hr. rewrite length_app, Hl in Hr. pose proof (co_three _ Hg) as H3.
  split_and!; [|done|].
  - destruct (served g); [done|]. cbn [length] in Hr. pose proof (ended_length (faces g)). lia.
  - assert (length (omap ended (faces g)) = length (faces g)) as He by (pose proof (ended_length (faces g)); lia).
    clear -He. induction (faces g) as [|face l IH]; [done|]. cbn in He. destruct (ended face) eqn:Hf; cbn in He.
    + constructor; [by rewrite Hf|]. apply IH. lia.
    + pose proof (ended_length l). lia.
Qed.

(** ** What is bound, and what is promised *)

Section promises.
Context `{Unicode} `{GenericHttp.Names} (binds : string -> bool).

Lemma begin_serving_serves c a a' : begin_serving binds c a = Ok a' -> Gateway.Serving a' = true.
Proof.
  unfold begin_serving. destruct (web_Listen binds c); [|done]. cbn. destruct (Listen binds (face_address c (Config.AgentProxyPort c))); [|done]. cbn.
  destruct (Listen binds (face_address c (Config.MCPPort c))); [|done]. cbn. unfold Gateway.Serve.
  destruct (Gateway.stopped a); [done|]. by intros [= <-].
Qed.

(** An address that is not the machine's own is never served, although the
    configuration allows it for [allow_non_loopback]: the two faces of the agents
    refuse it when they are to be bound, and the gateway does not come up. *)
Theorem non_loopback_never_starts c a ip :
  GenericHttp.ParseIP (Config.ListenAddress c) = Some ip -> Config.IsLoopback ip = false ->
  contains_any (Config.ListenAddress c) "[]" = false -> equal_fold (Config.ListenAddress c) "localhost" = false ->
  begin_serving binds c a = Err CodeInvalidConfiguration.
Proof.
  intros Hip Hl Hb Hn. unfold begin_serving, web_Listen. destruct (binds (Console.JoinHostPort _ _)); [|done]. cbn [refuse_if negb mbind result_bind].
  unfold Listen, CheckLoopback, face_address. rewrite !SplitHost_join by done. by rewrite !Hn, !Hip, !Hl.
Qed.

(** C18. The database goes last. In every interleaving of a gateway that came up: when
    the database is closed the gateway refuses everything, the event streams are
    closed, the sweeper has ended and every face has returned; what [Run] returns
    then is made of the result of each face exactly once, and none was ever kept
    waiting at the channel. Without a signal no face begins to shut down before the
    gateway has stopped accepting and the streams are closed. *)
Theorem shutdown_order c a0 a ls g :
  begin_serving binds c a0 = Ok a -> run ls (started a) = Some g ->
  (db_open g = false -> Gateway.Serving (available g) = false /\ streams_closed g = true /\ sweeper g = SweepDone /\
     Forall (fun face => is_Some (ended face)) (faces g)) /\
  (main g = Returned -> closing g ≡ₚ omap ended (faces g) /\ length (closing g) = face_count) /\
  (length (served g) <= face_count)%nat /\
  (interrupted g = false -> forall face, face ∈ faces g -> phase face = Draining ->
     Gateway.Serving (available g) = false /\ streams_closed g = true).
Proof.
  intros Hup Hrun. assert (coherent g) as Hg by (eapply coherent_run; [exact Hrun|]; by eapply coherent_started, begin_serving_serves).
  assert (forall n, (n <= past (main g))%nat -> (2 <= n)%nat -> Gateway.Serving (available g) = false) as Hserv.
  { intros n Hn H2. apply not_true_iff_false. rewrite <- (co_serving _ Hg). lia. }
  split_and!.
  - intros Hd. apply (co_open _ Hg) in Hd. destruct (all_ended _ Hg ltac:(lia)) as (_ & _ & Hall).
    split_and!; [by eapply (Hserv 7%nat); [|lia]|apply (co_streams _ Hg); lia|apply (co_swept _ Hg); lia|done].
  - intros Hm. destruct (all_ended _ Hg ltac:(rewrite Hm; cbn; lia)) as (Hs & Hl & _). split; [|done].
    pose proof (co_results _ Hg) as Hr. by rewrite Hs, app_nil_r in Hr.
  - pose proof (Permutation_length (co_results _ Hg)) as Hr. rewrite length_app in Hr. pose proof (co_three _ Hg) as H3.
    pose proof (ended_length (faces g)). lia.
  - intros Hi face Hf Hp. pose proof (co_draining _ Hg _ Hf Hp) as Ht. unfold told_to_stop in Ht. rewrite Hi in Ht. cbn in Ht.
    apply (co_stopping _ Hg) in Ht. split; [by eapply (Hserv 4%nat); [|lia]|apply (co_streams _ Hg); lia].
Qed.

(** C19. The gateway comes down. However its goroutines interleave, from the start to
    the end they make at most seventeen steps of their own and one for each tick of
    the sweeper; and from the moment there is a reason to stop - a signal, or one
    face that has returned - they can always go on to the end, where the database is
    closed, whoever still holds a connection. *)
Theorem shutdown_ends c a0 a ls g :
  begin_serving binds c a0 = Ok a -> run ls (started a) = Some g ->
  (count_labels own ls + work g <= 17 + count_labels is_tick ls)%nat /\
  (cause g -> exists ls' g', Forall (fun l => own l = true) ls' /\ run ls' g = Some g' /\ main g' = Released /\
     db_open g' = false /\ (length ls' <= work g)%nat).
Proof.
  intros Hup Hrun. pose proof (coherent_started a (begin_serving_serves _ _ _ Hup)) as Hst. split.
  - by apply run_work in Hrun.
  - intros Hc. destruct (returns g (coherent_run _ _ _ Hrun Hst) (fun _ => Hc)) as (ls' & g' & Hls & Hr & Hm & Hlen).
    exists ls', g'. split_and!; try done. apply (co_open g'); [by eapply coherent_run, coherent_run|]. rewrite Hm. cbn. lia.
Qed.
End promises.

(** ** Samples *)

#[local] Existing Instance ascii_only.

#[local] Instance two_addresses : GenericHttp.Names := {
  GenericHttp.ParseIP host := if host ==? "127.0.0.1" then Some [127; 0; 0; 1] else if host ==? "10.0.0.1" then Some [10; 0; 0; 1] else None;
  GenericHttp.lookup_at _ _ := None;
}.

Definition opened_up : Config.Config :=
  {| Config.ListenAddress := "10.0.0.1"; Config.WebAPIPort := 8787; Config.AgentProxyPort := 8788; Config.MCPPort := 8789;
     Config.LogLevel := "info"; Config.SecurityLevel := "L1"; Config.AllowNonLoopback := true; Config.c_Dir := "" |}.

Lemma non_loopback_never_starts_witness :
  Config.Validate opened_up = Ok tt /\ begin_serving (fun _ => true) opened_up Gateway.New = Err CodeInvalidConfiguration.
Proof. split; [by vm_compute|]. apply (non_loopback_never_starts _ _ _ [10; 0; 0; 1]); vm_compute; reflexivity. Defined.

Definition up : Gateway.Availability := {| Gateway.serving := true; Gateway.stopped := false |}.

Lemma comes_up : begin_serving (fun _ => true) Config.Default Gateway.New = Ok up.
Proof. by vm_compute. Qed.

(** A face breaks while a request is in work and a stream is open: the others are
    told after the gateway has stopped accepting. *)
Definition one_breaks : list label :=
  [Arrive 1; OpenStream 0; Tick; Break 2 CodeInternal; Receive; Advance; Advance; Advance; Notice 0; Notice 1; LeaveStream 0;
   Drained 0; CutOff 1; Swept; EndSweep; Receive; Receive; Advance; Advance; Advance].

Definition broken : Gate := Eval vm_compute in default (started up) (run one_breaks (started up)).

Lemma shutdown_order_witness :
  run one_breaks (started up) = Some broken /\ closing broken = [Some CodeInternal; None; None] /\
  (db_open broken = false -> Gateway.Serving (available broken) = false /\ streams_closed broken = true /\
     sweeper broken = SweepDone /\ Forall (fun face => is_Some (ended face)) (faces broken)).
Proof.
  split; [by vm_compute|]. split; [by vm_compute|].
  apply (shutdown_order (fun _ => true) Config.Default Gateway.New up one_breaks broken comes_up). by vm_compute.
Defined.

(** A signal. *)
Definition signalled : Gate := Eval vm_compute in default (started up) (run [Arrive 1; Tick; Interrupt] (started up)).

Lemma shutdown_ends_witness :
  exists ls g', run ls signalled = Some g' /\ db_open g' = false /\ (length ls <= 18)%nat.
Proof.
  destruct (shutdown_ends (fun _ => true) Config.Default Gateway.New up [Arrive 1; Tick; Interrupt] signalled comes_up) as [_ H]; [by vm_compute|].
  destruct H as (ls & g' & _ & Hr & _ & Hd & Hl); [by left|]. by exists ls, g'.
Defined.

(** The context of the faces comes from that of the command, so a signal reaches
    them at once: they may begin to shut down while the gateway still accepts and the
    streams are open. *)
Example drains_before_stop :
  exists g, run [Interrupt; Notice 0] (started up) = Some g /\ phase <$> faces g !! 0%nat = Some Draining /\
    Gateway.Serving (available g) = true /\ streams_closed g = false.
Proof. eexists. split; [vm_compute; reflexivity|]. by split_and!; vm_compute. Qed.

(** A request that outlasts the grace period outlives the database. *)
Example handler_outlives_database :
  exists g, run [Arrive 1; Interrupt; SeeInterrupt; Advance; Advance; Advance; Notice 0; Notice 1; Notice 2; Drained 0; CutOff 1; Drained 2;
                 Receive; Receive; Receive; Advance; EndSweep; Advance; Advance] (started up) = Some g /\
    db_open g = false /\ handlers <$> faces g !! 1%nat = Some 1%nat.
Proof. eexists. split; [vm_compute; reflexivity|]. by split_and!; vm_compute. Qed.
