(* ===== verification/Exchange.v ===== *)
(** * adapter/registry: the exchange (exchange.go, preview.go)

    The one place where a credential, an adapter and a request meet: the
    operation must be declared, the credential is fetched, used and emptied, and
    what goes back is the result, not the answer. *)
From S2P Require Import Prelude GoStr Apperr.
From S2P Require Json.
From S2P Require Import World Url Intent Redact Registry Response Outbound Execute GenericHttp.
From S2P Require Import Adapters CloudflareAdapter ModelAdapter.
From S2P Require Import Store Machine.
From S2P Require CredentialRegistry.
Open Scope Z_scope.

(** ** The executors of the four adapters (execute.go of each) *)

Section executors.
Context `{Unicode} `{Addresses} `{Floats} `{Network} `{Names}.

Definition plain_output (r : Result) : ExecuteOutput := {| out_Result := r; out_Usage := no_usage |}.

Definition github_executor (client : Client) : Executor :=
  {| ExecuteCapability := Some (fun i => r ← Github_Execute client i; mret (plain_output r));
     Previewer := None |}.

Definition cloudflare_executor (client : Client) : Executor :=
  {| ExecuteCapability := Some (fun i => r ← Cloudflare_Execute client i; mret (plain_output r));
     Previewer := Some (PreviewSource, PreviewCapability client) |}.

Definition model_executor (provider : string) (client : Client) : Executor :=
  {| ExecuteCapability := Some (Model_Execute provider client); Previewer := None |}.

(** [n] numbers the look-up of the target. *)
Definition generic_executor (a : GenericAdapter) (n : nat) : Executor :=
  {| ExecuteCapability := Some (fun i => r ← Generic_Execute a n i; mret (plain_output r));
     Previewer := None |}.
End executors.

(** ** The exchange *)

(** The credential of an identity: where it is, and its plaintext. *)
Class Credentials := {
  ReferenceFor : string -> M DB Code string;
  Fetch : string -> M Machine Code Secret.Value;
}.

(** Neither writes the database; plaintext is in the box of the value only. *)
Class CredentialsLaws `{Credentials} := {
  ReferenceFor_law identityID t : wp (ReferenceFor identityID) (fun _ t' => t' = t) t;
  Fetch_law referenceID d : wp (Fetch referenceID) (fun res d' => tables d' = tables d /\ match res with
    | Ok v => fetched (outside d) (outside d') v
    | Err _ => tidy (outside d) (outside d') end) d;
}.

Record ExchangeRequest := {
  x_Service : string;
  x_Operation : string;
  x_IdentityID : string;
  x_Resource : gmap string string;
  x_Query : list (string * list string);
  x_Body : string;
  x_OperationID : string;
}.

Record ExchangeReply := {
  y_StatusCode : Z;
  y_UpstreamStatus : Z;
  y_Body : string;
  y_Usage : ModelUsage;
}.

(** The registry, and what the adapter of each service can do. *)
Record Exchange := {
  registry : Registry;
  executors : string -> Executor;
}.

(** [omitempty] leaves out what is empty. *)
Definition optional_member (name value : string) : list (string * Json.json) :=
  if value ==? "" then [] else [(Json.quote_body name, Json.of_string value)].

Definition change_json (c : ResourceChange) : Json.json :=
  Json.JObj ([(Json.quote_body "resource", Json.of_string (Resource c));
              (Json.quote_body "field", Json.of_string (Field_ c))] ++
             optional_member "before" (Before c) ++ optional_member "after" (After c)).

Definition result_json (r : Result) : Json.json :=
  Json.JObj ([(Json.quote_body "ok", Json.JBool (OK r));
              (Json.quote_body "operation_id", Json.of_string (OperationID r))] ++
             match Data r with Some v => [(Json.quote_body "data", v)] | None => [] end ++
             match Changes r with [] => [] | l => [(Json.quote_body "changes", Json.JArr (map change_json l))] end ++
             match Error r with
             | Some e => [(Json.quote_body "error", Json.JObj [(Json.quote_body "code", Json.of_string (err_Code e));
                            (Json.quote_body "message", Json.of_string (err_Message e))])]
             | None => [] end).

Definition replyOf (output : ExecuteOutput) : ExchangeReply :=
  let result := out_Result output in
  {| y_StatusCode := if OK result then 200 else 502; y_UpstreamStatus := UpstreamStatus result;
     y_Body := Json.print (result_json result); y_Usage := out_Usage output |}.

Section exchange.
Context `{Credentials} (e : Exchange).

Definition executorFor (service : string) : result Code (ExecuteInput -> M Egress Code ExecuteOutput) :=
  _ ← adapter_of (registry e) service;
  match ExecuteCapability (executors e service) with Some run => Ok run | None => Err CodeNotImplemented end.

Definition previewerFor (service : string)
    : result Code ((string -> string) * (ExecuteInput -> M Egress Code PreviewOutput)) :=
  _ ← adapter_of (registry e) service;
  match Previewer (executors e service) with Some p => Ok p | None => Err CodeNotImplemented end.

(** The input of a call; [Send] and [Preview] set neither budget nor spending. *)
Definition input_of (r : ExchangeRequest) (query : list (string * list string)) (credential : Secret.Value) : ExecuteInput :=
  {| in_Operation := x_Operation r; in_Resource := x_Resource r; in_Query := query; in_Input := x_Body r;
     in_Budget := no_budget; in_Spent := no_usage; in_Credential := credential;
     in_OperationID := x_OperationID r |}.

Definition Send (r : ExchangeRequest) : M Machine Code ExchangeReply :=
  run ← of_result (executorFor (x_Service r));
  _ ← of_result (capability_of (registry e) (x_Service r) (x_Operation r));
  referenceID ← in_tables (ReferenceFor (x_IdentityID r));
  credential ← Fetch referenceID;
  in_outside (deferred (output ← run (input_of r (x_Query r) credential); mret (replyOf output))
    (Secret.Zero credential)).

Definition readOnlySource `{Unicode} (service operation : string) : result Code unit :=
  capability ← capability_of (registry e) service operation;
  refuse_if (Write capability) CodeCapabilityNotOffered.

Definition Preview `{Unicode} (r : ExchangeRequest) : M Machine Code PreviewOutput :=
  '(sourceOf, run) ← of_result (previewerFor (x_Service r));
  _ ← of_result (capability_of (registry e) (x_Service r) (x_Operation r));
  let source := sourceOf (x_Operation r) in
  if source ==? "" then mret {| pre_Changes := [] |}
  else
    _ ← of_result (readOnlySource (x_Service r) source);
    referenceID ← in_tables (ReferenceFor (x_IdentityID r));
    credential ← Fetch referenceID;
    in_outside (deferred (run (input_of r [] credential)) (Secret.Zero credential)).
End exchange.

(** ** The credentials of the program *)

#[export] Instance stored_credentials `{Env} `{CredentialRegistry.Unlocking} (r : CredentialRegistry.Registry) : Credentials := {
  ReferenceFor := CredentialRegistry.ReferenceFor;
  Fetch := CredentialRegistry.Fetch r;
}.

Lemma stored_credentials_laws `{Env} `{CredentialRegistry.Unlocking} (r : CredentialRegistry.Registry) :
  (forall kind s, CredentialRegistry.sources r !! kind = Some s -> CredentialRegistry.SourceLaws s) ->
  @CredentialsLaws (stored_credentials r).
Proof.
  intros Hlaw. split.
  - intros identityID t. cbn. unfold CredentialRegistry.ReferenceFor, IdentityStore.IdentityByID. wp_steps.
    apply wp_select; [by wp_steps|..]; [|by wp_steps]. intros row _. wp_steps. by destruct (_ ==? _); wp_steps.
  - intros referenceID d. eapply wp_mono; [by apply CredentialRegistry.wp_Fetch|].
    by intros [v|e] d' [Ht Hr]; [destruct Hr|].
Qed.

(** ** The contract of each adapter *)

Section executors_lawful.
Context `{Unicode} `{Addresses} `{Floats} `{Network} `{Names}.

Lemma github_lawful client : ExecutorLaws (github_executor client) (Host (baseURL client)).
Proof.
  split; [|done]. intros run i d [= <-]. apply plain_executor_laws. intros. apply github_executor_laws.
Qed.

Lemma cloudflare_lawful client : ExecutorLaws (cloudflare_executor client) (Host (baseURL client)).
Proof.
  split.
  - intros run i d [= <-]. apply plain_executor_laws. intros. apply cloudflare_executor_laws.
  - intros source run i d [= _ <-]. unfold PreviewCapability. wp_steps.
    eapply wp_mono; [apply Preview_sends|]. by intros [p|e] d' Hr; wp_steps.
Qed.

Lemma model_lawful provider client : ExecutorLaws (model_executor provider client) (Host (baseURL client)).
Proof. split; [|done]. intros run i d [= <-]. apply model_executor_laws. Qed.

Lemma generic_lawful a n : ExecutorLaws (generic_executor a n) (Host (baseURL (g_client a))).
Proof.
  split; [|done]. intros run i d [= <-]. apply plain_executor_laws. intros. apply generic_executor_laws.
Qed.
End executors_lawful.

(** ** What an exchange leaves *)

(** Every box that was taken is empty again, and what was sent went to [host]. *)
Record dealt (host : string) (d d' : Egress) : Prop := {
  dealt_boxes : exists rest, boxes d' = boxes d ++ rest /\ emptied rest;
  dealt_wire : exists hops, wire d' = wire d ++ hops /\ forall h, h ∈ hops -> Host (h_URL h) = host;
}.

Lemma tidy_dealt host d d' : tidy d d' -> dealt host d d'.
Proof.
  intros [Hw Hb]. split; [done|]. exists []. rewrite app_nil_r. split; [done|]. by intros h []%not_elem_of_nil.
Qed.

Section exchanging.
Context `{Unicode} `{CredentialsLaws} (e : Exchange) (site : string -> string).
Hypothesis lawful : forall service, ExecutorLaws (executors e service) (site service).
Implicit Types d : Machine.

(** The value that was fetched is used and then emptied. *)
Lemma wp_with_credential {A} (run : M Egress Code A) v host (P : result Code A -> list Hop -> Prop) o0 o :
  fetched o0 o v ->
  wp run (fun res o' => boxes o' = boxes o /\ exists hops, wire o' = wire o ++ hops /\
    (forall h, h ∈ hops -> Host (h_URL h) = host) /\ P res hops) o ->
  wp (deferred run (Secret.Zero v)) (fun res o' => dealt host o0 o' /\
    exists hops, wire o' = wire o0 ++ hops /\ P res hops) o.
Proof.
  intros Hv Hrun. apply wp_deferred. eapply wp_mono; [exact Hrun|]. intros res o' (Hb & hops & Hw & Hh & HP).
  apply wp_Zero. destruct (fetched_zero _ _ _ Hv) as [_ Hbox]. destruct Hv as [Hv _].
  split; [split|]; cbn; rewrite ?Hw, ?Hb, ?Hv; [exact Hbox|by exists hops..].
Qed.

(** Fetching for an identity. *)
Lemma wp_fetch_for identityID {A} (k : Secret.Value -> M Machine Code A) host (P : result Code A -> list Hop -> Prop) d :
  (forall c, P (Err c) []) ->
  (forall v o, fetched (outside d) o v ->
    wp (k v) (fun res d' => tables d' = tables d /\ dealt host (outside d) (outside d') /\
      exists hops, wire (outside d') = wire (outside d) ++ hops /\ P res hops) (mkMachine (tables d) o)) ->
  wp (referenceID ← in_tables (ReferenceFor identityID); v ← Fetch referenceID; k v)
    (fun res d' => tables d' = tables d /\ dealt host (outside d) (outside d') /\
      exists hops, wire (outside d') = wire (outside d) ++ hops /\ P res hops) d.
Proof.
  intros Herr Hk.
  assert (forall c d', tables d' = tables d -> tidy (outside d) (outside d') ->
    tables d' = tables d /\ dealt host (outside d) (outside d') /\
    exists hops, wire (outside d') = wire (outside d) ++ hops /\ P (Err c) hops) as Hend.
  { intros c d' Ht Ho. split_and!; [done|by apply tidy_dealt|]. exists []. rewrite app_nil_r. by destruct Ho. }
  wp_steps. apply wp_in_tables. eapply wp_mono; [apply ReferenceFor_law|]. intros [referenceID|c] t ->; [|by apply Hend].
  apply wp_bind. eapply wp_mono; [apply Fetch_law|]. intros [v|c] d' [Ht Ho]; [|by apply Hend].
  replace d' with (mkMachine (tables d) (outside d')) by (cbn in Ht; rewrite <- Ht; by destruct d'). by apply Hk.
Qed.

Lemma wp_exchange_Send r d :
  wp (Send e r) (fun res d' =>
    tables d' = tables d /\ dealt (site (x_Service r)) (outside d) (outside d') /\
    (is_Ok res = false -> wire (outside d') = wire (outside d)) /\
    (forall c, executorFor e (x_Service r) = Err c \/ capability_of (registry e) (x_Service r) (x_Operation r) = Err c ->
       d' = d /\ is_Ok res = false)) d.
Proof.
  assert (dealt (site (x_Service r)) (outside d) (outside d)) as Hrefl by by apply tidy_dealt.
  unfold Send. apply wp_bind, wp_of_result. destruct (executorFor e (x_Service r)) as [run|c] eqn:Ex; [|done].
  apply wp_bind, wp_of_result.
  destruct (capability_of (registry e) (x_Service r) (x_Operation r)) as [capability|c] eqn:Ec; [|done].
  set (unsent := fun (res : result Code ExchangeReply) (hops : list Hop) => is_Ok res = false -> hops = []).
  eapply (wp_mono _ (fun res d' => tables d' = tables d /\ dealt (site (x_Service r)) (outside d) (outside d') /\
    exists hops, wire (outside d') = wire (outside d) ++ hops /\ unsent res hops)).
  2: { intros res d' (Ht & Hd & hops & Hw & Hu). split_and!; [done|done| |by intros c [[=]|[=]]].
       intros Hr. by rewrite Hw, (Hu Hr), app_nil_r. }
  apply (wp_fetch_for _ _ _ unsent); [done|]. intros v o Hv. apply wp_in_outside. cbn.
  eapply wp_mono; [apply (wp_with_credential _ _ (site (x_Service r)) unsent _ _ Hv)|by intros res o' [??]].
  unfold executorFor in Ex. destruct (adapter_of (registry e) (x_Service r)); [|done]. cbn in Ex.
  destruct (ExecuteCapability (executors e (x_Service r))) as [run'|] eqn:Er; [|done]. injection Ex as ->.
  wp_steps. eapply wp_mono; [by apply (execute_law _ _ (lawful (x_Service r)))|].
  intros [out|c] o' [[Hb (hops & Hw & Hh)] He]; wp_steps; (split; [done|]); [by exists hops|].
  exists []. rewrite app_nil_r, (He eq_refl). split_and!; [done|by intros h []%not_elem_of_nil|done].
Qed.

(** C20. What a call leaves behind. The database is untouched; every plaintext
    that was fetched is empty at the end, whether the adapter answered, failed or
    refused; everything sent went to the host of the service of the request; a call
    that ends in an error sent nothing; and when the service cannot execute, or does
    not declare the operation, the credential was never fetched and nothing
    happened at all. *)
Theorem send_leaves_nothing r d :
  wp (Send e r) (fun res d' =>
    tables d' = tables d /\ dealt (site (x_Service r)) (outside d) (outside d') /\
    (is_Ok res = false -> wire (outside d') = wire (outside d)) /\
    (forall c, executorFor e (x_Service r) = Err c \/ capability_of (registry e) (x_Service r) (x_Operation r) = Err c ->
       d' = d /\ is_Ok res = false)) d.
Proof. exact (wp_exchange_Send r d). Qed.

Lemma wp_exchange_Preview r d :
  wp (Preview e r) (fun res d' =>
    tables d' = tables d /\ dealt (site (x_Service r)) (outside d) (outside d') /\
    (exists hops, wire (outside d') = wire (outside d) ++ hops /\ forall h, h ∈ hops -> h_Method h = "GET" /\ h_Body h = "") /\
    (forall source run, previewerFor e (x_Service r) = Ok (source, run) ->
       source (x_Operation r) = "" \/ is_Ok (readOnlySource e (x_Service r) (source (x_Operation r))) = false ->
       d' = d)) d.
Proof.
  assert (dealt (site (x_Service r)) (outside d) (outside d)) as Hrefl by by apply tidy_dealt.
  assert (exists hops, wire (outside d) = wire (outside d) ++ hops /\ forall h, h ∈ hops -> h_Method h = "GET" /\ h_Body h = "")
    as Hnone by (exists []; split; [by rewrite app_nil_r|by intros h []%not_elem_of_nil]).
  unfold Preview. apply wp_bind, wp_of_result.
  destruct (previewerFor e (x_Service r)) as [[source run]|c] eqn:Ep; [|done]. apply wp_bind, wp_of_result.
  destruct (capability_of (registry e) (x_Service r) (x_Operation r)); [|done]. cbn zeta.
  destruct (source (x_Operation r) ==? "") eqn:Es; [by apply wp_ret|]. apply wp_bind, wp_of_result.
  destruct (readOnlySource e (x_Service r) (source (x_Operation r))) as [[]|c] eqn:Er; [|done].
  set (reading := fun (_ : result Code PreviewOutput) (hops : list Hop) =>
    forall h, h ∈ hops -> h_Method h = "GET" /\ h_Body h = "").
  eapply (wp_mono _ (fun res d' => tables d' = tables d /\ dealt (site (x_Service r)) (outside d) (outside d') /\
    exists hops, wire (outside d') = wire (outside d) ++ hops /\ reading res hops)).
  2: { intros res d' (Ht & Hd & Hh). split_and!; [done..|]. intros source' run' [= -> ->]. bools.
       rewrite Er. by intros [?|?]. }
  apply (wp_fetch_for _ _ _ reading); [by intros c h []%not_elem_of_nil|]. intros v o Hv. apply wp_in_outside. cbn.
  eapply wp_mono; [apply (wp_with_credential _ _ (site (x_Service r)) reading _ _ Hv)|by intros res o' [??]].
  unfold previewerFor in Ep. destruct (adapter_of (registry e) (x_Service r)); [|done]. cbn in Ep.
  destruct (Previewer (executors e (x_Service r))) as [[source' run']|] eqn:Ex; [|done]. injection Ep as -> ->.
  eapply wp_mono; [by eapply (preview_law _ _ (lawful (x_Service r)))|].
  intros res o' [[Hb (hops & Hw & Hh)] [_ (hops' & Hw' & Hr)]]. split; [done|]. exists hops. split_and!; [done|done|].
  rewrite Hw in Hw'. by apply app_inv_head in Hw' as <-.
Qed.

(** Looking before the decision changes nothing anywhere. Whatever preview is
    asked for, everything it sends has the method GET and no body; the database is
    untouched and every plaintext is emptied; and when there is nothing to read
    before the operation, or the operation that would read is not a declared one
    or is a write, the credential is not even fetched. *)
Theorem preview_reads_only r d :
  wp (Preview e r) (fun res d' =>
    tables d' = tables d /\ dealt (site (x_Service r)) (outside d) (outside d') /\
    (exists hops, wire (outside d') = wire (outside d) ++ hops /\ forall h, h ∈ hops -> h_Method h = "GET" /\ h_Body h = "") /\
    (forall source run, previewerFor e (x_Service r) = Ok (source, run) ->
       source (x_Operation r) = "" \/ is_Ok (readOnlySource e (x_Service r) (source (x_Operation r))) = false ->
       d' = d)) d.
Proof. exact (wp_exchange_Preview r d). Qed.
End exchanging.

(** The input of a call has no budget, and a model adapter refuses to spend
    without one: through the exchange no model call is ever made. *)
Theorem model_send_refused `{Unicode} `{Addresses} `{Floats} `{Network} `{CredentialsLaws}
    (e : Exchange) r provider client d :
  executors e (x_Service r) = model_executor provider client ->
  wp (Send e r) (fun res d' => is_Ok res = false /\ wire (outside d') = wire (outside d)) d.
Proof.
  intros Hx. unfold Send. apply wp_bind, wp_of_result. unfold executorFor. rewrite Hx.
  destruct (adapter_of (registry e) (x_Service r)); [|done]. cbn [result_bind ExecuteCapability model_executor mbind].
  apply wp_bind, wp_of_result. destruct (capability_of _ _ _); [|done]. apply wp_bind, wp_in_tables.
  eapply wp_mono; [apply ReferenceFor_law|]. intros [referenceID|c] t ->; [|done].
  apply wp_bind. eapply wp_mono; [apply Fetch_law|]. intros [v|c] d' [_ Ho]; [|by split; [|destruct Ho]].
  apply wp_in_outside, wp_deferred. unfold Model_Execute, input_of, withinBudget. cbn [in_Budget no_budget MaxRequests].
  destruct Ho as [Ho _]. wp_steps. destruct (model_capability _ _); [|by wp_steps; apply wp_Zero]. wp_steps.
  destruct (Estimate _ _); [|by wp_steps; apply wp_Zero]. wp_steps. by apply wp_Zero.
Qed.
