(* ===== verification/AgentAuth.v ===== *)
(** * core/agentauth: registration and sessions (service.go, session.go)

    A registration is normalised, its device and workspace are found or created,
    and the agent of that identity is rebound or created with a fresh session
    key, of which the table keeps a hash. A session is recognised by that hash
    alone. *)
From S2P Require Import Prelude GoStr Apperr Json GoTime Encoding FilePath World Agent.
From S2P Require Import Store IdentityStore.
Open Scope Z_scope.

Definition DefaultSessionTTL : Z := Hour.

(** ** Session keys (session.go) *)

Definition sessionKeyBytes : nat := 32.
Definition SessionKeyHashPrefix : string := "sha256:".
Definition redacted : string := "[redacted]".

(** The box behind the pointer; nil is the empty session. *)
Record keyBox := { value : string }.
Record SessionKey := { box : option keyBox }.

Definition NewSessionKey (v : string) : SessionKey :=
  {| box := if v ==? "" then None else Some {| value := v |} |}.

Definition Reveal (k : SessionKey) : string :=
  match box k with None => "" | Some b => value b end.

Definition IsEmpty (k : SessionKey) : bool := Reveal k ==? "".

(** Every way a key is printed: [String], [Format] for any verb, [MarshalJSON],
    [LogValue]. *)
Definition String_ (k : SessionKey) : string := redacted.
Definition Format (k : SessionKey) (verb : Z) : string := redacted.
Definition MarshalJSON (k : SessionKey) : string := quote redacted.
Definition LogValue (k : SessionKey) : string := redacted.

(** What [io.ReadFull] makes of the entropy source: the bytes, or its failure. *)
Definition generateSessionKey (entropy : option (list Z)) : result Code SessionKey :=
  match entropy with
  | None => Err CodeInternal
  | Some raw => Ok (NewSessionKey (raw_url_encode raw))
  end.

Definition HashSessionKey (k : SessionKey) : string :=
  SessionKeyHashPrefix +:+ hex_encode (sum256 (bytes_of (Reveal k))).

(** [subtle.ConstantTimeCompare(left, right) == 1]. *)
Definition sameHash (left right : string) : bool := left ==? right.

(** ** Registrations *)

Record Registration := {
  r_Name : string;
  r_Type : string;
  r_Version : string;
  r_ExecutableHash : string;
  r_ExecutablePath : string;
  r_PID : Z;
  r_ParentPID : Z;
  r_OSUser : string;
  DeviceFingerprint : string;
  DeviceName : string;
  WorkspacePath : string;
  r_ProjectFingerprint : string;
  r_StartedAt : Z;
}.

Record Registered := {
  reg_Agent : Agent;
  reg_SessionKey : SessionKey;
  IsRebind : bool;
  ProjectFingerprintChanged : bool;
}.

Definition type_valid (t : string) : bool := one_of t agentTypes.

Definition absolutePath (raw : string) : result Code string :=
  let cleaned := Clean raw in
  if negb (IsAbs cleaned) then Err CodeAgentIdentityUnverifiable else Ok cleaned.

Definition with_paths (r : Registration) (executablePath workspacePath : string) : Registration :=
  {| r_Name := r_Name r; r_Type := r_Type r; r_Version := r_Version r;
     r_ExecutableHash := r_ExecutableHash r; r_ExecutablePath := executablePath; r_PID := r_PID r;
     r_ParentPID := r_ParentPID r; r_OSUser := r_OSUser r; DeviceFingerprint := DeviceFingerprint r;
     DeviceName := DeviceName r; WorkspacePath := workspacePath;
     r_ProjectFingerprint := r_ProjectFingerprint r; r_StartedAt := r_StartedAt r |}.

(** What identifies the process comes first, what is only shown second. *)
Definition normalize (r : Registration) : result Code Registration :=
  _ ← refuse_if (r_ExecutableHash r ==? "") CodeAgentIdentityUnverifiable;
  _ ← refuse_if (r_ExecutablePath r ==? "") CodeAgentIdentityUnverifiable;
  _ ← refuse_if (r_PID r <=? 0) CodeAgentIdentityUnverifiable;
  _ ← refuse_if (r_ParentPID r <? 0) CodeAgentIdentityUnverifiable;
  _ ← refuse_if (r_OSUser r ==? "") CodeAgentIdentityUnverifiable;
  _ ← refuse_if (DeviceFingerprint r ==? "") CodeAgentIdentityUnverifiable;
  _ ← refuse_if (WorkspacePath r ==? "") CodeAgentIdentityUnverifiable;
  _ ← refuse_if (r_ProjectFingerprint r ==? "") CodeAgentIdentityUnverifiable;
  _ ← refuse_if (IsZero (r_StartedAt r)) CodeAgentIdentityUnverifiable;
  _ ← refuse_if (r_Name r ==? "") CodeInvalidRequest;
  _ ← refuse_if (negb (type_valid (r_Type r))) CodeInvalidRequest;
  _ ← refuse_if (DeviceName r ==? "") CodeInvalidRequest;
  executablePath ← absolutePath (r_ExecutablePath r);
  workspacePath ← absolutePath (WorkspacePath r);
  mret (with_paths r executablePath workspacePath).

(** What a caller may show of the process a request comes from; zero values
    mean it is not known. *)
Record Presented := {
  p_PID : Z;
  p_ExecutableHash : string;
}.

Section service.
Context `{Env} (sessionTTL : Z).

(** [NewService]: a lifetime that is not positive is the default one. *)
Definition ttl : Z := if sessionTTL <=? 0 then DefaultSessionTTL else sessionTTL.

Definition resolveDevice (r : Registration) (now : Z) : M DB Code Device :=
  found ← try_ (DeviceByFingerprint (DeviceFingerprint r));
  match found with
  | Ok device => mret device
  | Err e =>
      _ ← refuse (e !=? CodeNotFound) e;
      id ← NewID;
      CreateDevice {| dev_ID := id; Fingerprint := DeviceFingerprint r; dev_Name := DeviceName r;
        TrustStatus := DeviceUntrusted; dev_CreatedAt := now; dev_UpdatedAt := now |}
  end.

Definition resolveWorkspace (r : Registration) (now : Z) : M DB Code (Workspace * bool) :=
  found ← try_ (WorkspaceByPath (WorkspacePath r));
  match found with
  | Ok workspace =>
      if ProjectFingerprint workspace ==? r_ProjectFingerprint r then mret (workspace, false)
      else
        updated ← SetWorkspaceFingerprint (ws_ID workspace) (r_ProjectFingerprint r) now;
        mret (updated, true)
  | Err e =>
      _ ← refuse (e !=? CodeNotFound) e;
      id ← NewID;
      created ← CreateWorkspace {| ws_ID := id; ws_Path := WorkspacePath r;
        ProjectFingerprint := r_ProjectFingerprint r; ws_CreatedAt := now; ws_UpdatedAt := now |};
      mret (created, false)
  end.

Definition new_agent (r : Registration) (id deviceID workspaceID keyHash : string) (expiresAt now : Z) : Agent :=
  {| ID := id; Name := r_Name r; Type_ := r_Type r; Version := r_Version r;
     ExecutableHash := r_ExecutableHash r; ExecutablePath := r_ExecutablePath r; PID := r_PID r;
     ParentPID := r_ParentPID r; OSUser := r_OSUser r; DeviceID := deviceID;
     WorkspaceID := workspaceID; StartedAt := r_StartedAt r; SessionKeyHash := keyHash;
     SessionExpiresAt := expiresAt; TrustLevel := TrustUnverified; Status := StatusActive;
     LastSeenAt := now; CreatedAt := now; UpdatedAt := now |}.

Definition createAgent (r : Registration) (deviceID workspaceID keyHash : string) (expiresAt now : Z)
    : M DB Code Agent :=
  id ← NewID;
  CreateAgent (new_agent r id deviceID workspaceID keyHash expiresAt now).

Definition binding_of (r : Registration) (deviceID workspaceID : string) : Binding :=
  {| bind_DeviceID := deviceID; bind_WorkspaceID := workspaceID;
     bind_ExecutablePath := r_ExecutablePath r; bind_OSUser := r_OSUser r;
     bind_ExecutableHash := r_ExecutableHash r |}.

Definition rebind_of (r : Registration) (keyHash : string) (expiresAt now : Z) : Rebind :=
  {| b_PID := r_PID r; b_ParentPID := r_ParentPID r; b_StartedAt := r_StartedAt r;
     b_SessionKeyHash := keyHash; b_SessionExpiresAt := expiresAt; b_At := now |}.

Definition Register (entropy : option (list Z)) (registration : Registration)
    : M DB Code Registered :=
  normalized ← of_result (normalize registration);
  now ← Now;
  device ← resolveDevice normalized now;
  found ← resolveWorkspace normalized now;
  let workspace := found.1 in
  key ← of_result (generateSessionKey entropy);
  let keyHash := HashSessionKey key in
  let expiresAt := now + ttl in
  existing ← try_ (AgentByBinding (binding_of normalized (dev_ID device) (ws_ID workspace)));
  match existing with
  | Ok a =>
      rebound ← RebindAgent (ID a) (rebind_of normalized keyHash expiresAt now);
      mret {| reg_Agent := rebound; reg_SessionKey := key; IsRebind := true;
              ProjectFingerprintChanged := found.2 |}
  | Err e =>
      _ ← refuse (e !=? CodeNotFound) e;
      created ← createAgent normalized (dev_ID device) (ws_ID workspace) keyHash expiresAt now;
      mret {| reg_Agent := created; reg_SessionKey := key; IsRebind := false;
              ProjectFingerprintChanged := found.2 |}
  end.

Definition Authenticate (key : SessionKey) (presented : Presented) : M DB Code Agent :=
  _ ← refuse (IsEmpty key) CodeUnauthenticated;
  let keyHash := HashSessionKey key in
  agent ← map_err (fun e => if e ==? CodeNotFound then CodeUnauthenticated else e)
    (AgentBySessionKeyHash keyHash);
  _ ← refuse (negb (sameHash (SessionKeyHash agent) keyHash)) CodeUnauthenticated;
  _ ← refuse (Status agent !=? StatusActive) CodeUnauthenticated;
  now ← Now;
  _ ← refuse (negb (After (SessionExpiresAt agent) now)) CodeSessionExpired;
  _ ← refuse (negb (p_PID presented =? 0) && negb (p_PID presented =? PID agent)) CodeUnauthenticated;
  _ ← refuse ((p_ExecutableHash presented !=? "") &&
              (p_ExecutableHash presented !=? ExecutableHash agent)) CodeAgentIdentityUnverifiable;
  seenAt ← Now;
  TouchAgent (ID agent) seenAt.

Definition ConfirmTrust (agentID : string) : M DB Code Agent :=
  agent ← AgentByID agentID;
  if TrustLevel agent ==? TrustKnown then mret agent
  else if TrustLevel agent ==? TrustUnverified then
    now ← Now; SetAgentTrustLevel agentID TrustKnown now
  else if TrustLevel agent ==? TrustTrusted then throw CodeConflict
  else throw CodeInternal.

Definition Disconnect (agentID : string) : M DB Code Agent :=
  now ← Now; SetAgentStatus agentID StatusDisconnected now.
End service.

(** ** Session keys *)

Lemma Reveal_new v : Reveal (NewSessionKey v) = v.
Proof. unfold Reveal, NewSessionKey. simpl. destruct (v ==? "") eqn:E; [by bools|done]. Qed.

(** Keys drawn from different bytes are different, and none is empty. *)
Lemma generated_inj raw raw' k :
  bytes raw -> bytes raw' -> length raw = sessionKeyBytes -> length raw' = sessionKeyBytes ->
  generateSessionKey (Some raw) = Ok k -> generateSessionKey (Some raw') = Ok k -> raw = raw'.
Proof.
  intros H H' Hl Hl' [= E] [= E']. rewrite <- E in E'. apply (f_equal Reveal) in E'.
  rewrite !Reveal_new in E'. symmetry. eapply raw_url_encode_inj; [done..|congruence|done].
Qed.

Lemma generated_present raw k :
  length raw = sessionKeyBytes -> generateSessionKey (Some raw) = Ok k -> IsEmpty k = false.
Proof.
  intros Hl [= <-]. unfold IsEmpty. rewrite Reveal_new. apply bool_decide_eq_false.
  destruct raw; [done|]. apply raw_url_encode_nonempty.
Qed.

(** ** Normalising *)

Lemma absolutePath_clean raw path :
  absolutePath raw = Ok path ->
  path = Clean raw /\ absolutePath path = Ok path /\
  exists names, path = "/" +:+ join "/" names /\ forallb name names = true.
Proof.
  unfold absolutePath. destruct (negb _) eqn:E; [done|]. intros [= <-]. bools.
  rewrite Clean_idem, E. split_and!; [done|done|]. apply Clean_absolute. by rewrite <- Clean_IsAbs.
Qed.

(** What a registration that is accepted had. *)
Record complete (r : Registration) : Prop := {
  has_hash : r_ExecutableHash r <> "";
  has_executable : r_ExecutablePath r <> "";
  has_pid : 0 < r_PID r;
  has_parent : 0 <= r_ParentPID r;
  has_user : r_OSUser r <> "";
  has_device : DeviceFingerprint r <> "";
  has_workspace : WorkspacePath r <> "";
  has_project : r_ProjectFingerprint r <> "";
  has_start : r_StartedAt r <> 0;
  has_name : r_Name r <> "";
  has_type : r_Type r ∈ agentTypes;
  has_device_name : DeviceName r <> "";
}.

Lemma normalize_Ok r nr :
  normalize r = Ok nr ->
  complete r /\ absolutePath (r_ExecutablePath r) = Ok (r_ExecutablePath nr) /\
  absolutePath (WorkspacePath r) = Ok (WorkspacePath nr) /\
  nr = with_paths r (r_ExecutablePath nr) (WorkspacePath nr).
Proof.
  unfold normalize, IsZero. pose proof (one_of_spec (r_Type r) agentTypes) as Ht.
  fold (type_valid (r_Type r)) in Ht. revert Ht. generalize (type_valid (r_Type r)). intros tv Ht H.
  repeat (apply bind_Ok in H as (? & Hg & H); try apply refuse_if_Ok in Hg; revert Hg).
  injection H as <-. intros. bools. split_and!; try done. split; try done; try lia. by apply Ht.
Qed.

Lemma normalize_complete r executable workspace :
  complete r -> absolutePath (r_ExecutablePath r) = Ok executable ->
  absolutePath (WorkspacePath r) = Ok workspace ->
  normalize r = Ok (with_paths r executable workspace).
Proof.
  intros [] He Hw. unfold normalize, type_valid, IsZero.
  rewrite !bool_decide_eq_false_2 by done. rewrite (proj2 (one_of_spec _ _)) by done.
  destruct (Z.leb_spec (r_PID r) 0); [lia|]. destruct (Z.ltb_spec (r_ParentPID r) 0); [lia|].
  destruct (Z.eqb_spec (r_StartedAt r) 0); [done|]. by rewrite He, Hw.
Qed.

Lemma normalize_complete_ids r nr : normalize r = Ok nr -> complete nr.
Proof.
  intros (Hc & He & Hw & E)%normalize_Ok. apply absolutePath_clean in He as (_ & _ & ex & He & _).
  apply absolutePath_clean in Hw as (_ & _ & ws & Hw & _). destruct Hc. rewrite E.
  split; cbn; try done; [rewrite He|rewrite Hw]; by rewrite str_app_cons.
Qed.

(** What says which process this is, and what is only shown. *)
Definition identified r : Prop :=
  r_ExecutableHash r <> "" /\ r_ExecutablePath r <> "" /\ 0 < r_PID r /\ 0 <= r_ParentPID r /\
  r_OSUser r <> "" /\ DeviceFingerprint r <> "" /\ WorkspacePath r <> "" /\
  r_ProjectFingerprint r <> "" /\ r_StartedAt r <> 0.

Definition shown r : Prop := r_Name r <> "" /\ r_Type r ∈ agentTypes /\ DeviceName r <> "".

Lemma type_valid_spec t : type_valid t = true <-> t ∈ agentTypes.
Proof. apply one_of_spec. Qed.

(** The next guard of a chain: the branch that stops there, then the rest. *)
Lemma guard_cases {A} (b : bool) (e : Code) (f : unit -> result Code A) r (P : Prop) :
  (b = true -> Err e = r -> P) -> (b = false -> f () = r -> P) -> (refuse_if b e ≫= f) = r -> P.
Proof. destruct b; intros H1 H2; [exact (H1 eq_refl)|exact (H2 eq_refl)]. Qed.

(** Normalising a registration. It is accepted exactly when everything that
    identifies the process is there, what is shown is valid and both paths are
    absolute; the paths are then clean, and normalising again changes nothing.
    What identifies is examined first: a registration is told that a shown field
    is wrong only when its process is identified. *)
Theorem normalize_exact r :
  match normalize r with
  | Ok nr => identified r /\ shown r /\ IsAbs (r_ExecutablePath r) = true /\ IsAbs (WorkspacePath r) = true /\
      nr = with_paths r (Clean (r_ExecutablePath r)) (Clean (WorkspacePath r)) /\ normalize nr = Ok nr
  | Err e =>
      (e = CodeInvalidRequest /\ identified r /\ ~ shown r) \/
      (e = CodeAgentIdentityUnverifiable /\
       (~ identified r \/ (shown r /\ (IsAbs (r_ExecutablePath r) = false \/ IsAbs (WorkspacePath r) = false))))
  end.
Proof.
  destruct (normalize r) as [nr|e] eqn:Hn.
  - pose proof (normalize_Ok _ _ Hn) as (Hc & He & Hw & E).
    destruct (absolutePath_clean _ _ He) as (Ee & He' & _), (absolutePath_clean _ _ Hw) as (Ew & Hw' & _).
    assert (IsAbs (r_ExecutablePath r) = true /\ IsAbs (WorkspacePath r) = true) as [Ha Hb].
    { unfold absolutePath in He, Hw. rewrite Clean_IsAbs in He, Hw.
      split; [destruct (IsAbs (r_ExecutablePath r))|destruct (IsAbs (WorkspacePath r))]; done. }
    pose proof (normalize_complete_ids _ _ Hn) as Hc'. rewrite Ee, Ew in E.
    pose proof (normalize_complete nr _ _ Hc' He' Hw') as Hnn. destruct Hc.
    split_and!; try done. rewrite Hnn. f_equal. rewrite E. by destruct r.
  - revert Hn. unfold normalize, IsZero, identified, shown. rewrite <- type_valid_spec.
    repeat (apply guard_cases; intros ?; [intros [= <-]; bools; first
      [ right; split; [done|]; left; intros Hp; decompose [and] Hp; (done || lia)
      | left; split_and!; try done; try lia; intros Hp; decompose [and] Hp; congruence ]|]).
    unfold absolutePath. rewrite !Clean_IsAbs.
    destruct (IsAbs (r_ExecutablePath r)), (IsAbs (WorkspacePath r)); cbn; intros [= <-];
      bools; right; (split; [done|right; split_and!; auto]).
Qed.

(** ** The tables of identities *)

(** Rows are under their primary keys, and a unique column is unique. *)
Record indexed {A} (key column : A -> string) (t : gmap string A) : Prop := {
  indexed_key id x : t !! id = Some x -> key x = id;
  indexed_unique id id' x x' :
    t !! id = Some x -> t !! id' = Some x' -> column x = column x' -> id = id';
}.

Lemma indexed_insert {A} (key column : A -> string) t id x :
  indexed key column t -> key x = id ->
  (forall id' y, id' <> id -> t !! id' = Some y -> column y <> column x) ->
  indexed key column (<[id := x]> t).
Proof.
  intros [Hk Hu] <- Hx. split.
  - intros id y [[<- <-]|[_ Hy]]%lookup_insert_Some; [done|by apply Hk].
  - intros id id' y y' Hy Hy' E. apply lookup_insert_Some in Hy, Hy'.
    destruct Hy as [[<- <-]|[? Hy]], Hy' as [[<- <-]|[? Hy']]; [done|..|by eapply Hu].
    + exfalso. by eapply (Hx id' y').
    + exfalso. by eapply (Hx id y).
Qed.

Lemma indexed_insert_absent {A} (key column : A -> string) t id x :
  indexed key column t -> key x = id -> absent column (column x) t = true ->
  indexed key column (<[id := x]> t).
Proof.
  intros H Hk Ha. apply indexed_insert; [done..|]. intros id' y _. rewrite absent_spec in Ha. apply Ha.
Qed.

Record sessions_ok (d : DB) : Prop := {
  agents_indexed : indexed ID SessionKeyHash (agents d);
  devices_indexed : indexed dev_ID Fingerprint (devices d);
  workspaces_indexed : indexed ws_ID ws_Path (workspaces d);
}.

(** Only the three tables differ. *)
Definition elsewhere_same (d d' : DB) : Prop :=
  d' = put (agents d') (put (devices d') (put (workspaces d') d)).

Lemma elsewhere_refl d : elsewhere_same d d.
Proof. by destruct d. Qed.

Lemma elsewhere_trans d d1 d2 : elsewhere_same d d1 -> elsewhere_same d1 d2 -> elsewhere_same d d2.
Proof. unfold elsewhere_same. intros E1 E2. rewrite E2, E1. by destruct d, d1, d2. Qed.

(** A registration keeps what was known of other places, and a device it sees
    for the first time is not trusted. *)
Record places_grow (fingerprint path : string) (d d' : DB) : Prop := {
  pg_agents : agents d' = agents d;
  pg_else : elsewhere_same d d';
  pg_ok : sessions_ok d -> sessions_ok d';
  pg_devices id x : devices d' !! id = Some x ->
    devices d !! id = Some x \/
    (devices d !! id = None /\ Fingerprint x = fingerprint /\ TrustStatus x = DeviceUntrusted);
  pg_devices_kept : devices d ⊆ devices d';
  pg_workspaces id x : workspaces d' !! id = Some x -> workspaces d !! id = Some x \/ ws_Path x = path;
  pg_workspaces_kept id x : workspaces d !! id = Some x -> ws_Path x <> path -> workspaces d' !! id = Some x;
}.

Lemma places_grow_refl fingerprint path d : places_grow fingerprint path d d.
Proof. split; auto. apply elsewhere_refl. Qed.

Section proofs.
Context `{Env} (sessionTTL : Z).
Implicit Types (d : DB) (r : Registration).

Lemma wp_resolveDevice r now d :
  wp (resolveDevice r now) (fun res d' =>
    places_grow (DeviceFingerprint r) (WorkspacePath r) d d' /\ workspaces d' = workspaces d /\
    match res with
    | Ok device => exists id, devices d' !! id = Some device /\ Fingerprint device = DeviceFingerprint r
    | Err _ => True
    end) d.
Proof.
  unfold resolveDevice. wp_steps. pose proof (places_grow_refl (DeviceFingerprint r) (WorkspacePath r) d) as Hr.
  apply wp_DeviceByFingerprint.
  - wp_steps. by cbn.
  - intros id x Hx Hf. wp_steps. split_and!; [done|done|by exists id].
  - wp_steps. change (CodeNotFound !=? CodeNotFound) with false. cbn beta iota. wp_steps; [|done]. apply wp_CreateDevice; [done|]. cbn. intros Hnew Ha.
    split_and!; [|done|eexists; by rewrite lookup_insert_eq].
    destruct d; split; cbn in *; try done.
    + intros [? ? ?]. split; [done| |done]. by apply indexed_insert_absent.
    + intros id' x [[<- <-]|[_ Hx]]%lookup_insert_Some; [by right|by left].
    + by apply insert_subseteq.
    + auto.
Qed.

Lemma wp_resolveWorkspace r now d :
  sessions_ok d ->
  wp (resolveWorkspace r now) (fun res d' =>
    places_grow (DeviceFingerprint r) (WorkspacePath r) d d' /\ devices d' = devices d /\
    match res with
    | Ok (workspace, changed) => exists id, workspaces d' !! id = Some workspace /\
        ws_Path workspace = WorkspacePath r /\ ProjectFingerprint workspace = r_ProjectFingerprint r /\
        (changed = true <-> exists id before, workspaces d !! id = Some before /\
          ws_Path before = WorkspacePath r /\ ProjectFingerprint before <> r_ProjectFingerprint r)
    | Err _ => True
    end) d.
Proof.
  intros Hok. unfold resolveWorkspace. wp_steps.
  pose proof (places_grow_refl (DeviceFingerprint r) (WorkspacePath r) d) as Hr.
  apply wp_WorkspaceByPath.
  - wp_steps. by cbn.
  - intros id x Hx Hp. destruct (ProjectFingerprint x ==? r_ProjectFingerprint r) eqn:E; bools.
    { wp_steps. split_and!; [done|done|]. exists id. split_and!; try done. split; [done|].
      intros (id' & y & Hy & Hpy & Hne).
      rewrite <- Hp in Hpy. pose proof (indexed_unique _ _ _ (workspaces_indexed _ Hok) _ _ _ _ Hy Hx Hpy).
      congruence. }
    pose proof (indexed_key _ _ _ (workspaces_indexed _ Hok) _ _ Hx) as Hid.
    wp_steps. apply wp_SetWorkspaceFingerprint; [by intros|]. rewrite Hid. intros y Hy. wp_steps.
    assert (y = x) as -> by congruence. split_and!; [|done|].
    + destruct d; split; cbn in *; try done.
      * intros [? ? Hi]. split; [done..|]. apply indexed_insert; [done..|]. intros id' z Hne Hz Hc.
        apply Hne. by eapply (indexed_unique _ _ _ Hi).
      * auto.
      * intros id' z [[<- <-]|[_ Hz]]%lookup_insert_Some; [by right|by left].
      * intros id' z Hz Hne. rewrite lookup_insert_ne; [done|]. intros <-. congruence.
    + exists id. cbn. rewrite lookup_insert_eq. split_and!; try done. split; [|done]. intros _. eauto.
  - wp_steps. change (CodeNotFound !=? CodeNotFound) with false. cbn beta iota. wp_steps; [|done]. apply wp_CreateWorkspace; [done|]. cbn. intros Hnew Ha. wp_steps.
    split_and!; [|done|].
    + destruct d; split; cbn in *; try done.
      * intros [? ? ?]. split; [done..|]. by apply indexed_insert_absent.
      * auto.
      * intros id' x [[<- <-]|[_ Hx]]%lookup_insert_Some; [by right|by left].
      * intros id' x Hx Hne. rewrite lookup_insert_ne; [done|congruence].
    + eexists. cbn. rewrite lookup_insert_eq. split_and!; try done. split; [done|].
      intros (id' & y & Hy & Hpy & _). rewrite absent_spec in Ha. by destruct (Ha id' y Hy).
Qed.

(** The row a registration leaves, of the device and workspace it names. *)
Record session_row (nr : Registration) (key : SessionKey) (n : nat) (d d' : DB) (a : Agent)
    (device : Device) (workspace : Workspace) : Prop := {
  sr_device : exists id, devices d' !! id = Some device /\ Fingerprint device = DeviceFingerprint nr;
  sr_workspace : exists id, workspaces d' !! id = Some workspace /\
    ws_Path workspace = WorkspacePath nr /\ ProjectFingerprint workspace = r_ProjectFingerprint nr;
  sr_bound : bound (binding_of nr (dev_ID device) (ws_ID workspace)) a = true;
  sr_process : PID a = r_PID nr /\ ParentPID a = r_ParentPID nr;
  sr_hash : SessionKeyHash a = HashSessionKey key;
  sr_expiry : SessionExpiresAt a = column (clock_at n + ttl sessionTTL);
  sr_active : Status a = StatusActive;
  sr_agents : agents d' = <[ID a := a]> (agents d);
  sr_fresh id x : id <> ID a -> agents d !! id = Some x -> SessionKeyHash x <> SessionKeyHash a;
}.

Lemma toAgent_Ok a b : toAgent a = Ok b -> b = a /\ readable a = true.
Proof. unfold toAgent. destruct (readable a); [by intros [= ->]|done]. Qed.

Lemma toAgent_Err a e : toAgent a = Err e -> e = CodeInternal /\ readable a = false.
Proof. unfold toAgent. destruct (readable a); [done|by intros [= ->]]. Qed.

Lemma readable_ids a nr :
  readable a = false -> complete nr -> PID a = r_PID nr -> ParentPID a = r_ParentPID nr ->
  MaxInt32 < r_PID nr \/ MaxInt32 < r_ParentPID nr.
Proof.
  unfold readable, validProcessID. intros E [] Hp Hpp. rewrite Hp, Hpp in E. apply andb_false_iff in E as [E|E];
    apply andb_false_iff in E as [E|E]; bools; lia.
Qed.

Lemma toAgent_cases nr a (Q : result Code Agent -> Prop) :
  complete nr -> PID a = r_PID nr -> ParentPID a = r_ParentPID nr ->
  Q (Ok a) -> (MaxInt32 < r_PID nr \/ MaxInt32 < r_ParentPID nr -> Q (Err CodeInternal)) ->
  Q (toAgent a).
Proof.
  intros Hc Hp Hpp Hok Herr. unfold toAgent. destruct (readable a) eqn:E; [done|].
  apply Herr. exact (readable_ids _ _ E Hc Hp Hpp).
Qed.

Lemma places_grow_trans fingerprint path d d1 d2 :
  places_grow fingerprint path d d1 -> places_grow fingerprint path d1 d2 ->
  places_grow fingerprint path d d2.
Proof.
  intros [A E O D Dk W Wk] [A' E' O' D' Dk' W' Wk']. split.
  - congruence.
  - by eapply elsewhere_trans.
  - auto.
  - intros id x Hx. destruct (D' id x Hx) as [Hx'|(Hn & Hf & Ht)]; [auto|right]. split_and!; [|done..].
    destruct (devices d !! id) eqn:Hd; [|done]. eapply lookup_weaken in Hd; [|exact Dk]. congruence.
  - by etrans.
  - intros id x Hx. destruct (W' id x Hx); auto.
  - intros id x Hx Hne. auto.
Qed.

(** The agent [a'] takes the place under its id, its key nobody else's. *)
Lemma agent_written d a' :
  sessions_ok d ->
  (forall id x, id <> ID a' -> agents d !! id = Some x -> SessionKeyHash x <> SessionKeyHash a') ->
  sessions_ok (put (<[ID a' := a']> (agents d)) d) /\
  elsewhere_same d (put (<[ID a' := a']> (agents d)) d).
Proof.
  intros [Ha ? ?] Hf. split; [|by destruct d]. split; [|done..]. by apply indexed_insert.
Qed.

(** The last step of a registration, on the tables its places are in. *)
Definition session_written (nr : Registration) (key : SessionKey) (n : nat) (d : DB) (a' : Agent) (d' : DB) : Prop :=
  sessions_ok d' /\ elsewhere_same d d' /\ devices d' = devices d /\ workspaces d' = workspaces d /\
  agents d' = <[ID a' := a']> (agents d) /\
  (forall id x, id <> ID a' -> agents d !! id = Some x -> SessionKeyHash x <> SessionKeyHash a').

Lemma wp_rebind nr key n old device workspace d Q :
  sessions_ok d -> agents d !! ID old = Some old ->
  bound (binding_of nr (dev_ID device) (ws_ID workspace)) old = true ->
  let rebind := rebind_of nr (HashSessionKey key) (clock_at n + ttl sessionTTL) (clock_at n) in
  complete nr -> (forall e, Q (Err e) d) ->
  (forall d', session_written nr key n d (rebound old rebind) d' ->
    Q (Ok (rebound old rebind)) d' /\
    (MaxInt32 < r_PID nr \/ MaxInt32 < r_ParentPID nr -> Q (Err CodeInternal) d')) ->
  wp (RebindAgent (ID old) rebind) Q d.
Proof.
  intros Hok Hold Hb rebind Hc Herr HQ. apply wp_RebindAgent; [done|]. intros a Ha Hfresh.
  assert (a = old) as -> by congruence.
  assert (forall id x, id <> ID old -> agents d !! id = Some x -> SessionKeyHash x <> HashSessionKey key) as Hf.
  { intros id x Hne Hx. rewrite absent_spec in Hfresh. apply (Hfresh id). by rewrite lookup_delete_ne. }
  destruct (agent_written d (rebound old rebind) Hok Hf).
  destruct (HQ (put (<[ID old := rebound old rebind]> (agents d)) d)) as [Q1 Q2]; [by split_and!|].
  by apply (toAgent_cases nr (rebound old rebind) (fun res => Q res _)).
Qed.

Lemma wp_createAgent nr key n deviceID workspaceID d Q :
  sessions_ok d -> complete nr -> (forall e, Q (Err e) d) ->
  (forall id d', agents d !! id = None ->
    let a' := stored_agent (new_agent nr id deviceID workspaceID (HashSessionKey key)
      (clock_at n + ttl sessionTTL) (clock_at n)) in
    session_written nr key n d a' d' ->
    Q (Ok a') d' /\ (MaxInt32 < r_PID nr \/ MaxInt32 < r_ParentPID nr -> Q (Err CodeInternal) d')) ->
  wp (createAgent nr deviceID workspaceID (HashSessionKey key) (clock_at n + ttl sessionTTL) (clock_at n)) Q d.
Proof.
  intros Hok Hc Herr HQ. unfold createAgent. wp_steps; [|done]. apply wp_CreateAgent; [done|]. cbn [ID new_agent].
  set (a' := stored_agent _). intros Hnew Hfresh.
  assert (forall id' x, id' <> id -> agents d !! id' = Some x -> SessionKeyHash x <> HashSessionKey key) as Hf.
  { intros id' x _ Hx. rewrite absent_spec in Hfresh. by apply (Hfresh id'). }
  destruct (agent_written d a' Hok Hf).
  destruct (HQ id (put (<[id := a']> (agents d)) d) Hnew) as [Q1 Q2]; [by split_and!|].
  by apply (toAgent_cases nr a' (fun res => Q res _)).
Qed.

Lemma session_row_written nr key n d d1 d' a' device workspace :
  agents d1 = agents d -> session_written nr key n d1 a' d' ->
  (exists id, devices d1 !! id = Some device /\ Fingerprint device = DeviceFingerprint nr) ->
  (exists id, workspaces d1 !! id = Some workspace /\
    ws_Path workspace = WorkspacePath nr /\ ProjectFingerprint workspace = r_ProjectFingerprint nr) ->
  bound (binding_of nr (dev_ID device) (ws_ID workspace)) a' = true ->
  PID a' = r_PID nr /\ ParentPID a' = r_ParentPID nr -> SessionKeyHash a' = HashSessionKey key ->
  SessionExpiresAt a' = column (clock_at n + ttl sessionTTL) -> Status a' = StatusActive ->
  session_row nr key n d d' a' device workspace.
Proof.
  intros Ha (_ & _ & Hd & Hw & Hag & Hf) Hdev Hws Hb Hp Hh He Hs.
  rewrite <- Hd in Hdev. rewrite <- Hw in Hws. rewrite Ha in Hag, Hf. by split.
Qed.

(** Both places of a registration, before anything is made of them. *)
Lemma wp_places {A} nr now d (k : Device -> Workspace * bool -> M DB Code A) Q :
  sessions_ok d ->
  (forall e d', places_grow (DeviceFingerprint nr) (WorkspacePath nr) d d' -> Q (Err e) d') ->
  (forall device workspace changed d',
    places_grow (DeviceFingerprint nr) (WorkspacePath nr) d d' ->
    (exists id, devices d' !! id = Some device /\ Fingerprint device = DeviceFingerprint nr) ->
    (exists id, workspaces d' !! id = Some workspace /\ ws_Path workspace = WorkspacePath nr /\
       ProjectFingerprint workspace = r_ProjectFingerprint nr) ->
    (changed = true <-> exists id before, workspaces d !! id = Some before /\
       ws_Path before = WorkspacePath nr /\ ProjectFingerprint before <> r_ProjectFingerprint nr) ->
    wp (k device (workspace, changed)) Q d') ->
  wp (device ← resolveDevice nr now; found ← resolveWorkspace nr now; k device found) Q d.
Proof.
  intros Hok Herr Hk. wp_steps. eapply wp_mono; [apply wp_resolveDevice|].
  intros [device|e] d1 (Hg1 & Hw1 & Hdev); [|by apply Herr].
  pose proof (pg_ok _ _ _ _ Hg1 Hok) as Hok1. wp_steps.
  eapply wp_mono; [by apply wp_resolveWorkspace|]. intros res d2 (Hg2 & Hd2 & Hws).
  pose proof (places_grow_trans _ _ _ _ _ Hg1 Hg2) as Hg.
  destruct res as [[workspace changed]|e]; [|by apply Herr]. rewrite <- Hd2 in Hdev. rewrite Hw1 in Hws.
  destruct Hws as (id & ? & ? & ? & Hch). apply Hk; eauto.
Qed.

(** What a registration hands out. *)
Definition handed_out entropy r d d' (out : Registered) : Prop :=
  exists nr raw n device workspace,
    normalize r = Ok nr /\ entropy = Some raw /\
    reg_SessionKey out = NewSessionKey (raw_url_encode raw) /\
    session_row nr (reg_SessionKey out) n d d' (reg_Agent out) device workspace /\
    (ProjectFingerprintChanged out = true <-> exists id before, workspaces d !! id = Some before /\
       ws_Path before = WorkspacePath nr /\ ProjectFingerprint before <> r_ProjectFingerprint nr) /\
    if IsRebind out then
      exists old, agents d !! ID (reg_Agent out) = Some old /\
        reg_Agent out = rebound old (rebind_of nr (HashSessionKey (reg_SessionKey out))
          (clock_at n + ttl sessionTTL) (clock_at n)) /\
        forall id x, agents d !! id = Some x ->
          bound (binding_of nr (dev_ID device) (ws_ID workspace)) x = true ->
          String.le (ID x) (ID old)
    else
      agents d !! ID (reg_Agent out) = None /\ TrustLevel (reg_Agent out) = TrustUnverified /\
      forall id x, agents d !! id = Some x ->
        bound (binding_of nr (dev_ID device) (ws_ID workspace)) x = false.

(** One row with the key drawn took its place; trust is inherited or none. *)
Definition issued (entropy : option (list Z)) (d d' : DB) : Prop :=
  exists raw a', entropy = Some raw /\ agents d' = <[ID a' := a']> (agents d) /\
    SessionKeyHash a' = HashSessionKey (NewSessionKey (raw_url_encode raw)) /\
    TrustLevel a' = match agents d !! ID a' with Some old => TrustLevel old | None => TrustUnverified end.

Lemma wp_Register entropy r d :
  sessions_ok d ->
  wp (Register sessionTTL entropy r) (fun res d' =>
    elsewhere_same d d' /\ sessions_ok d' /\
    (forall id x, devices d' !! id = Some x -> devices d !! id = Some x \/ TrustStatus x = DeviceUntrusted) /\
    match res with
    | Err e => agents d' = agents d \/
        (e = CodeInternal /\ (MaxInt32 < r_PID r \/ MaxInt32 < r_ParentPID r) /\ issued entropy d d')
    | Ok out => issued entropy d d' /\ handed_out entropy r d d' out
    end) d.
Proof.
  intros Hok. unfold Register. wp_steps. destruct (normalize r) as [nr|e] eqn:Hn; cycle 1.
  { split_and!; [apply elsewhere_refl|done|by left|by left]. }
  pose proof (normalize_complete_ids _ _ Hn) as Hc.
  assert (r_PID nr = r_PID r /\ r_ParentPID nr = r_ParentPID r) as [Ep Epp].
  { apply normalize_Ok in Hn as (_ & _ & _ & ->). done. }
  apply wp_bind, wp_Now. intros n. cbn beta iota. apply wp_places; [done|intros e d2 []; split_and!; [done|auto|naive_solver|by left]|].
  intros device workspace changed d2 Hg Hpl Hwl Hchanged. pose proof (pg_ok _ _ _ _ Hg Hok) as Hok2.
  assert (forall id x, devices d2 !! id = Some x -> devices d !! id = Some x \/ TrustStatus x = DeviceUntrusted)
    as Hdt by (intros id x Hx; destruct (pg_devices _ _ _ _ Hg _ _ Hx); naive_solver).
  assert (Hsame : forall e, elsewhere_same d d2 /\ sessions_ok d2 /\
    (forall id x, devices d2 !! id = Some x -> devices d !! id = Some x \/ TrustStatus x = DeviceUntrusted) /\
    (agents d2 = agents d \/ (e = CodeInternal /\ (MaxInt32 < r_PID r \/ MaxInt32 < r_ParentPID r) /\
       issued entropy d d2))).
  { intros e. destruct Hg. split_and!; auto. }
  wp_steps. cbn [fst snd]. destruct entropy as [raw|]; [|apply Hsame]. cbn [generateSessionKey]. wp_steps.
  set (key := NewSessionKey (raw_url_encode raw)).
  pose proof (pg_agents _ _ _ _ Hg) as Hag.
  assert (Hwritten : forall a' d', session_written nr key n d2 a' d' -> sessions_ok d' /\ elsewhere_same d d' /\
    forall id x, devices d' !! id = Some x -> devices d !! id = Some x \/ TrustStatus x = DeviceUntrusted).
  { intros a' d' (Hok' & Hel & Hdd & _). split_and!; [done| |by rewrite Hdd].
    eapply elsewhere_trans; [apply Hg|done]. }
  apply wp_AgentByBinding.
  - wp_steps. apply Hsame.
  - intros id old Hold Hb Hread Hlast. wp_steps.
    assert (agents d2 !! ID old = Some old) as Hold'
      by (by rewrite (indexed_key _ _ _ (agents_indexed _ Hok2) _ _ Hold)).
    apply wp_rebind with (device := device) (workspace := workspace); [done..|intros; apply Hsame|].
    intros d' Hw. destruct (Hwritten _ _ Hw) as (Hok' & He & Hdt'). rewrite Hag in Hold', Hlast.
    assert (issued (Some raw) d d') as Hi.
    { exists raw, (rebound old (rebind_of nr (HashSessionKey key) (clock_at n + ttl sessionTTL) (clock_at n))).
      destruct Hw as (_ & _ & _ & _ & Ha & _). rewrite Hag in Ha. split_and!; [done..|]. cbn. by rewrite Hold'. }
    split; [|intros Hbig; split_and!; [done..|right; by rewrite <- Ep, <- Epp]]. wp_steps. split_and!; [done..|].
    exists nr, raw, n, device, workspace. split_and!; try done; [by eapply session_row_written|].
    exists old. split_and!; [exact Hold'|done|exact Hlast].
  - intros Hnone. wp_steps. change (CodeNotFound !=? CodeNotFound) with false. cbn beta iota. wp_steps.
    apply wp_createAgent; [done..|intros; apply Hsame|]. intros id d' Hnew a' Hw.
    destruct (Hwritten _ _ Hw) as (Hok' & He & Hdt'). rewrite Hag in Hnew, Hnone.
    assert (issued (Some raw) d d') as Hi.
    { exists raw, a'. destruct Hw as (_ & _ & _ & _ & Ha & _). rewrite Hag in Ha.
      split_and!; [done..|]. cbn. by rewrite Hnew. }
    split; [|intros Hbig; split_and!; [done..|right; by rewrite <- Ep, <- Epp]]. wp_steps. split_and!; [done..|].
    exists nr, raw, n, device, workspace. split_and!; try done.
    eapply session_row_written; try done. unfold bound. cbn. by rewrite !bool_decide_eq_true_2.
Qed.

(** Registering a process. What comes back is the one agent of that device,
    workspace, executable, user and hash, active, with the process ids given, a
    key drawn from the entropy and a session that ends one lifetime after the
    clock reading: the same agent with its id and trust level when one was known
    (the latest), a new and unverified one when none was. Every other agent is
    left as it was and has another key; no device becomes trusted. A
    registration that fails leaves the agents alone, unless a process id is
    beyond 32 bits: then its row is written and cannot be read. *)
Theorem register_outcome entropy r d :
  sessions_ok d ->
  wp (Register sessionTTL entropy r) (fun res d' =>
    elsewhere_same d d' /\ sessions_ok d' /\
    (forall id x, devices d' !! id = Some x -> devices d !! id = Some x \/ TrustStatus x = DeviceUntrusted) /\
    match res with
    | Err e => agents d' = agents d \/
        (e = CodeInternal /\ (MaxInt32 < r_PID r \/ MaxInt32 < r_ParentPID r))
    | Ok out => exists nr raw n device workspace,
        normalize r = Ok nr /\ entropy = Some raw /\
        reg_SessionKey out = NewSessionKey (raw_url_encode raw) /\
        session_row nr (reg_SessionKey out) n d d' (reg_Agent out) device workspace /\
        (ProjectFingerprintChanged out = true <-> exists id before, workspaces d !! id = Some before /\
           ws_Path before = WorkspacePath nr /\ ProjectFingerprint before <> r_ProjectFingerprint nr) /\
        if IsRebind out then
          exists old, agents d !! ID (reg_Agent out) = Some old /\
            reg_Agent out = rebound old (rebind_of nr (HashSessionKey (reg_SessionKey out))
              (clock_at n + ttl sessionTTL) (clock_at n)) /\
            forall id x, agents d !! id = Some x ->
              bound (binding_of nr (dev_ID device) (ws_ID workspace)) x = true ->
              String.le (ID x) (ID old)
        else
          agents d !! ID (reg_Agent out) = None /\ TrustLevel (reg_Agent out) = TrustUnverified /\
          forall id x, agents d !! id = Some x ->
            bound (binding_of nr (dev_ID device) (ws_ID workspace)) x = false
    end) d.
Proof.
  intros Hok. eapply wp_mono; [by apply wp_Register|]. intros [out|e] d' Hp; naive_solver.
Qed.

(** ** Recognising a session *)

Lemma readable_seen a at_ : readable (seen a at_) = readable a.
Proof. done. Qed.

(** The row a key is of. *)
Definition session_of (d : DB) (key : SessionKey) (a : Agent) : Prop :=
  agents d !! ID a = Some a /\ SessionKeyHash a = HashSessionKey key.

(** What a caller shows of its process does not contradict the row. *)
Definition matches (presented : Presented) (a : Agent) : Prop :=
  (p_PID presented = 0 \/ p_PID presented = PID a) /\
  (p_ExecutableHash presented = "" \/ p_ExecutableHash presented = ExecutableHash a).

Lemma wp_Authenticate key presented d :
  sessions_ok d ->
  wp (Authenticate key presented) (fun res d' =>
    match res with
    | Ok a => exists old n m, session_of d key old /\ Reveal key <> "" /\ Status old = StatusActive /\
        clock_at n < SessionExpiresAt old /\ matches presented old /\
        a = seen old (clock_at m) /\ d' = put (<[ID old := a]> (agents d)) d
    | Err e => d' = d /\
        (e = CodeInternal \/
         (e = CodeUnauthenticated /\
           (Reveal key = "" \/ (forall a, ~ session_of d key a) \/
            exists a, session_of d key a /\
              (Status a <> StatusActive \/ (p_PID presented <> 0 /\ p_PID presented <> PID a)))) \/
         (e = CodeSessionExpired /\ exists a n, session_of d key a /\ SessionExpiresAt a <= clock_at n) \/
         (e = CodeAgentIdentityUnverifiable /\ exists a, session_of d key a /\
           p_ExecutableHash presented <> "" /\ p_ExecutableHash presented <> ExecutableHash a))
    end) d.
Proof.
  intros [Ha _ _]. unfold Authenticate. wp_steps. unfold IsEmpty. destruct (Reveal key ==? "") eqn:Hk; bools.
  { split; [done|]. right; left. auto. }
  wp_steps. apply wp_AgentBySessionKeyHash; [by auto| |].
  2: { intros Hnone. split; [done|]. right; left. split; [done|]. right; left. intros a [Hx Hh]. by eapply Hnone. }
  intros id a Hx Hh Hr. rewrite <- (indexed_key _ _ _ Ha _ _ Hx) in Hx.
  assert (session_of d key a) as Hs by done. wp_steps. unfold sameHash.
  rewrite (bool_decide_eq_true_2 _ Hh). cbn [negb]. wp_steps.
  destruct (Status a !=? StatusActive) eqn:Hst; bools.
  { split; [done|]. right; left. split; [done|]. do 2 right. eauto. }
  wp_steps. unfold After. destruct (negb (clock_at n <? SessionExpiresAt a)) eqn:He; bools.
  { split; [done|]. do 2 right; left. eauto 10. }
  wp_steps. destruct (negb (p_PID presented =? 0) && _) eqn:Hp.
  { bools. split; [done|]. right; left. split; [done|]. do 2 right. eauto. }
  wp_steps. destruct ((p_ExecutableHash presented !=? "") && _) eqn:Hx'.
  { bools. split; [done|]. do 3 right. split; [done|]. exists a. done. }
  wp_steps. apply wp_TouchAgent; [by auto|congruence|]. intros a' Ha'. assert (a' = a) as -> by congruence.
  unfold toAgent. rewrite readable_seen, Hr. exists a, n, n0. split_and!; try done.
  split; [apply andb_false_iff in Hp as [Hp|Hp]|apply andb_false_iff in Hx' as [Hp'|Hp']]; bools; auto.
Qed.

(** A row is found by its key's hash when nothing fails. *)
Lemma AgentBySessionKeyHash_found key a w :
  sessions_ok (db w) -> io_fails (stmts w) = false -> session_of (db w) key a -> readable a = true ->
  AgentBySessionKeyHash (HashSessionKey key) w = (Ok a, mkWorld (db w) (ticks w) (ids w) (S (stmts w))).
Proof.
  intros [[_ Hu] _ _] Hio [Ha Hh] Hr. unfold AgentBySessionKeyHash, read_agent, map_err, query, stmt, mbind, M_bind.
  rewrite Hio. unfold select_where. destruct (find_first _ _) as [b|] eqn:E.
  - apply find_first_Some in E as [[id Hb]%elem_of_rows Hbh]. bools.
    assert (id = ID a) as -> by (eapply Hu; [done..|congruence]).
    assert (b = a) as -> by congruence. unfold of_result, toAgent. by rewrite Hr.
  - rewrite find_first_None in E. specialize (E a). rewrite elem_of_rows in E.
    specialize (E (ex_intro _ (ID a) Ha)). by bools.
Qed.

Lemma TouchAgent_found a at_ w :
  io_fails (stmts w) = false -> agents (db w) !! ID a = Some a -> readable a = true ->
  (TouchAgent (ID a) at_ w).1 = Ok (seen a at_).
Proof.
  intros Hio Ha Hr. unfold TouchAgent, read_agent, map_err, stmt, mbind, M_bind, on, update_row.
  rewrite Hio. change (view (db w)) with (agents (db w)). rewrite Ha. unfold of_result, toAgent.
  by rewrite readable_seen, Hr.
Qed.

(** What becomes of a request whose key is in the table. *)
Lemma Authenticate_found key presented a w :
  sessions_ok (db w) -> io_fails (stmts w) = false -> io_fails (S (stmts w)) = false ->
  session_of (db w) key a -> readable a = true ->
  (Authenticate key presented w).1 =
    (_ ← refuse_if (IsEmpty key) CodeUnauthenticated;
     _ ← refuse_if (Status a !=? StatusActive) CodeUnauthenticated;
     _ ← refuse_if (negb (After (SessionExpiresAt a) (clock_at (ticks w)))) CodeSessionExpired;
     _ ← refuse_if (negb (p_PID presented =? 0) && negb (p_PID presented =? PID a)) CodeUnauthenticated;
     _ ← refuse_if ((p_ExecutableHash presented !=? "") &&
           (p_ExecutableHash presented !=? ExecutableHash a)) CodeAgentIdentityUnverifiable;
     Ok (seen a (clock_at (S (ticks w))))).
Proof.
  intros Hok Hio Hio' Hs Hr. unfold Authenticate, mbind at 1, M_bind at 1, refuse, of_result.
  destruct (refuse_if (IsEmpty key) _) as [[]|]; [|done]. unfold mbind at 1, M_bind at 1, map_err.
  rewrite (AgentBySessionKeyHash_found key a w) by done. destruct Hs as [Ha Hh].
  unfold sameHash. rewrite (bool_decide_eq_true_2 _ Hh).
  unfold mbind, M_bind, result_bind, Now. cbn.
  destruct (refuse_if (Status a !=? _) _) as [[]|]; [|done].
  destruct (refuse_if (negb (After _ _)) _) as [[]|]; [|done].
  destruct (refuse_if (negb (p_PID presented =? 0) && _) _) as [[]|]; [|done].
  destruct (refuse_if ((p_ExecutableHash presented !=? "") && _) _) as [[]|]; [|done].
  by apply TouchAgent_found.
Qed.

(** C30. When the database answers, a request is recognised exactly when it
    carries a key whose hash is in the table, of an agent that is active, whose
    session has not reached its end by the clock, and whose process id and
    executable hash, where the caller shows them, are the ones registered. *)
Theorem authenticate_exact key presented w :
  sessions_ok (db w) -> io_fails (stmts w) = false -> io_fails (S (stmts w)) = false ->
  (forall id a, agents (db w) !! id = Some a -> readable a = true) ->
  is_Ok (Authenticate key presented w).1 = true <->
  Reveal key <> "" /\ exists a, session_of (db w) key a /\ Status a = StatusActive /\
    clock_at (ticks w) < SessionExpiresAt a /\ matches presented a.
Proof.
  intros Hok Hio Hio' Hread.
  assert (Hrow : is_Ok (Authenticate key presented w).1 = true -> exists a, session_of (db w) key a).
  { pose proof (wp_Authenticate key presented _ Hok w eq_refl) as Hp.
    destruct (Authenticate key presented w).1; [|done]. naive_solver. }
  split.
  - intros H'. destruct (Hrow H') as [a Hs]. revert H'.
    rewrite (Authenticate_found _ _ a) by (try done; eapply Hread, Hs).
    rewrite is_Ok_true. intros [b Hb]. unfold IsEmpty, After in Hb.
    repeat (apply bind_Ok in Hb as (? & Hg & Hb); apply refuse_if_Ok in Hg; revert Hg).
    intros Hx Hp He Hst Hk. bools. split; [done|]. exists a. split_and!; try done.
    apply andb_false_iff in Hp, Hx. split; [destruct Hp|destruct Hx]; bools; auto.
  - intros (Hk & a & Hs & Hst & He & Hp & Hx).
    rewrite (Authenticate_found _ _ a) by (try done; eapply Hread, Hs). unfold IsEmpty, After.
    rewrite (bool_decide_eq_false_2 _ Hk), (bool_decide_eq_true_2 _ Hst), (proj2 (Z.ltb_lt _ _) He). cbn.
    assert (negb (p_PID presented =? 0) && negb (p_PID presented =? PID a) = false) as ->.
    { destruct Hp as [->| ->]; [done|]. apply andb_false_iff. right. by rewrite Z.eqb_refl. }
    assert ((p_ExecutableHash presented !=? "") && (p_ExecutableHash presented !=? ExecutableHash a) = false) as ->.
    { destruct Hx as [->| ->]; [done|]. apply andb_false_iff. right. by rewrite bool_decide_eq_true_2. }
    done.
Qed.


(** ** Trust and the end of a session *)

Lemma wp_Disconnect id d :
  wp (Disconnect id) (fun res d' =>
    match res with
    | Ok a => exists n old, agents d !! id = Some old /\ a = with_status old StatusDisconnected (clock_at n) /\
        d' = put (<[id := a]> (agents d)) d
    | Err _ => d' = d \/ exists n old, agents d !! id = Some old /\
        d' = put (<[id := with_status old StatusDisconnected (clock_at n)]> (agents d)) d
    end) d.
Proof.
  unfold Disconnect. wp_steps. apply wp_SetAgentStatus; [by left|]. intros a Ha. unfold toAgent.
  destruct (readable _); [by exists n, a|right; by exists n, a].
Qed.

Lemma wp_ConfirmTrust id d :
  wp (ConfirmTrust id) (fun res d' =>
    match res with
    | Ok a => exists old, agents d !! id = Some old /\
        ((TrustLevel old = TrustKnown /\ a = old /\ d' = d) \/
         exists n, TrustLevel old = TrustUnverified /\ a = with_trust old TrustKnown (clock_at n) /\
           d' = put (<[id := a]> (agents d)) d)
    | Err e => d' = d /\
        (e = CodeConflict -> exists old, agents d !! id = Some old /\ TrustLevel old = TrustTrusted) /\
        (e = CodeNotFound -> agents d !! id = None)
    end) d.
Proof.
  unfold ConfirmTrust. wp_steps. apply wp_AgentByID; [done| |done].
  intros a Ha Hr. destruct (TrustLevel a ==? TrustKnown) eqn:Ek; bools; [wp_steps; exists a; auto|].
  destruct (TrustLevel a ==? TrustUnverified) eqn:Eu; bools.
  - wp_steps. apply wp_SetAgentTrustLevel; [done|done|done|]. intros a' Ha'.
    assert (a' = a) as -> by congruence. unfold toAgent.
    change (readable (with_trust a TrustKnown (clock_at n))) with (readable a). rewrite Hr. exists a. eauto 10.
  - destruct (TrustLevel a ==? TrustTrusted) eqn:Et; bools; wp_steps; [|done]. by split_and!; [|exists a|].
Qed.

(** ** Sequences of calls *)

Inductive call :=
| CallRegister (entropy : option (list Z)) (registration : Registration)
| CallAuthenticate (key : SessionKey) (presented : Presented)
| CallConfirmTrust (agentID : string)
| CallDisconnect (agentID : string).

Definition perform (c : call) : M DB Code unit :=
  match c with
  | CallRegister entropy r => _ ← Register sessionTTL entropy r; mret ()
  | CallAuthenticate key presented => _ ← Authenticate key presented; mret ()
  | CallConfirmTrust id => _ ← ConfirmTrust id; mret ()
  | CallDisconnect id => _ ← Disconnect id; mret ()
  end.

(** The world after calls, whether they succeed or not. *)
Definition run (l : list call) (w : World DB) : World DB := foldl (fun w c => (perform c w).2) w l.

(** The hash of the key a call draws. *)
Definition draws (c : call) (hash : string) : Prop :=
  match c with
  | CallRegister (Some raw) _ => HashSessionKey (NewSessionKey (raw_url_encode raw)) = hash
  | _ => False
  end.

(** What a call does to the agents: at most one row is written. *)
Definition agent_step (c : call) (t t' : gmap string Agent) : Prop :=
  t' = t \/ exists a', t' = <[ID a' := a']> t /\
    match t !! ID a' with
    | None => draws c (SessionKeyHash a') /\ TrustLevel a' = TrustUnverified
    | Some a =>
        (draws c (SessionKeyHash a') /\ TrustLevel a' = TrustLevel a) \/
        (SessionKeyHash a' = SessionKeyHash a /\
         (TrustLevel a' = TrustLevel a \/ c = CallConfirmTrust (ID a')) /\
         (Status a' = Status a \/ Status a' = StatusDisconnected))
    end.

Lemma one_row_written d a' :
  sessions_ok d ->
  (forall a, agents d !! ID a' = Some a -> SessionKeyHash a' = SessionKeyHash a) ->
  is_Some (agents d !! ID a') ->
  sessions_ok (put (<[ID a' := a']> (agents d)) d).
Proof.
  intros Hok Hh [a Ha]. apply agent_written; [done|]. intros id x Hne Hx.
  rewrite (Hh a Ha). intros E. apply Hne. by eapply (indexed_unique _ _ _ (agents_indexed _ Hok)).
Qed.

Lemma wp_perform c d :
  sessions_ok d ->
  wp (perform c) (fun _ d' => sessions_ok d' /\ agent_step c (agents d) (agents d')) d.
Proof.
  intros Hok. assert (Hkey : forall id a, agents d !! id = Some a -> ID a = id) by apply (agents_indexed _ Hok).
  assert (Hone : forall id a a', agents d !! id = Some a -> ID a' = ID a ->
    SessionKeyHash a' = SessionKeyHash a -> (TrustLevel a' = TrustLevel a \/ c = CallConfirmTrust (ID a')) ->
    (Status a' = Status a \/ Status a' = StatusDisconnected) ->
    let d' := put (<[id := a']> (agents d)) d in sessions_ok d' /\ agent_step c (agents d) (agents d')).
  { intros id a a' Ha Hid Hh Ht Hs. rewrite <- (Hkey _ _ Ha), <- Hid. rewrite <- (Hkey _ _ Ha), <- Hid in Ha.
    split; [apply one_row_written; [done|intros; congruence|eauto]|].
    right. exists a'. split; [done|]. rewrite Ha. auto. }
  destruct c as [entropy r|key presented|id|id]; unfold perform; apply wp_bind.
  - eapply wp_mono; [by apply wp_Register|].
    assert (forall d', issued entropy d d' -> agent_step (CallRegister entropy r) (agents d) (agents d')) as Hi.
    { intros d' (raw & a' & -> & Ha & Hh & Ht). right. exists a'. split; [done|].
      destruct (agents d !! ID a'); [left|]; split; done. }
    intros [out|e] d' (_ & Hok' & _ & Hout); [apply wp_ret|]; (split; [done|]); [by apply Hi, Hout|].
    destruct Hout as [->|(_ & _ & ?)]; [by left|by apply Hi].
  - eapply wp_mono; [by apply wp_Authenticate|]. intros [a|e] d'.
    + intros (old & n & m & [Ho _] & _ & _ & _ & _ & -> & ->). apply wp_ret.
      eapply Hone; [done|done|done|by left|by left].
    + intros [-> _]. split; [done|by left].
  - eapply wp_mono; [apply wp_ConfirmTrust|]. intros [a|e] d'.
    + intros (old & Ho & [(_ & _ & ->)|(n & _ & -> & ->)]); apply wp_ret; [split; [done|by left]|].
      eapply Hone; [done|done|done|right|by left]. cbn. by rewrite (Hkey _ _ Ho).
    + intros [-> _]. split; [done|by left].
  - eapply wp_mono; [apply wp_Disconnect|]. intros [a|e] d'.
    + intros (n & old & Ho & -> & ->). apply wp_ret. eapply Hone; [done|done|done|by left|by right].
    + intros [->|(n & old & Ho & ->)]; [split; [done|by left]|].
      eapply Hone; [done|done|done|by left|by right].
Qed.

(** One induction over runs, for any property of the agents calls keep. *)
Lemma run_invariant (P : gmap string Agent -> Prop) (ok : call -> Prop) l w :
  (forall c t t', ok c -> agent_step c t t' -> P t -> P t') ->
  Forall ok l -> sessions_ok (db w) -> P (agents (db w)) ->
  sessions_ok (db (run l w)) /\ P (agents (db (run l w))).
Proof.
  intros Hstep. revert w. induction l as [|c l IH]; intros w Hl Hok HP; [done|].
  apply Forall_cons in Hl as [Hc Hl]. destruct (wp_perform c _ Hok w eq_refl) as [Hok' Hs].
  apply (IH (perform c w).2); [done..|]. by eapply Hstep.
Qed.

(** No active row has this key's hash. *)
Definition dead (hash : string) (t : gmap string Agent) : Prop :=
  forall id a, t !! id = Some a -> SessionKeyHash a = hash -> Status a <> StatusActive.

Lemma dead_step hash c t t' : ~ draws c hash -> agent_step c t t' -> dead hash t -> dead hash t'.
Proof.
  intros Hc [->|(a' & -> & Ha)] Hd; [done|]. intros id a [[<- <-]|[_ Hx]]%lookup_insert_Some Hh; [|by eapply Hd].
  destruct (t !! ID a') as [old|] eqn:E.
  - destruct Ha as [[Hdr _]|(Hh' & _ & Hst)]; [by rewrite Hh in Hdr|].
    assert (Status old <> StatusActive) by (eapply Hd; [exact E|congruence]).
    destruct Hst as [->| ->]; done.
  - destruct Ha as [Hdr _]. by rewrite Hh in Hdr.
Qed.

Lemma dead_refused key presented w :
  sessions_ok (db w) -> dead (HashSessionKey key) (agents (db w)) ->
  is_Ok (Authenticate key presented w).1 = false.
Proof.
  intros Hok Hd. pose proof (wp_Authenticate key presented _ Hok w eq_refl) as Hp.
  destruct (Authenticate key presented w).1; [|done].
  destruct Hp as (old & n & m & [Ho Hh] & _ & Hst & _). by destruct (Hd _ _ Ho Hh).
Qed.

(** A session ends when its agent is disconnected or registers again. *)
Inductive ends (id : string) (key : SessionKey) (w : World DB) : World DB -> Prop :=
| ends_disconnect a w' : Disconnect id w = (Ok a, w') -> ends id key w w'
| ends_register entropy r out w' :
    Register sessionTTL entropy r w = (Ok out, w') -> IsRebind out = true -> ID (reg_Agent out) = id ->
    HashSessionKey (reg_SessionKey out) <> HashSessionKey key -> ends id key w w'.

Lemma ends_dead id key w w' a :
  sessions_ok (db w) -> agents (db w) !! id = Some a -> SessionKeyHash a = HashSessionKey key ->
  ends id key w w' -> sessions_ok (db w') /\ dead (HashSessionKey key) (agents (db w')).
Proof.
  intros Hok Ha Hh Hends.
  assert (Hu : forall id' x, agents (db w) !! id' = Some x -> SessionKeyHash x = HashSessionKey key -> id' = id)
    by (intros id' x Hx Hxh; eapply (indexed_unique _ _ _ (agents_indexed _ Hok)); [exact Hx|exact Ha|congruence]).
  destruct Hends as [b w' Hd|entropy r out w' Hr Hb Hid Hne].
  - destruct (wp_use _ _ _ _ _ (wp_Disconnect id (db w)) Hd) as (n & old & Ho & -> & E).
    pose proof (wp_perform (CallDisconnect id) _ Hok w eq_refl) as [Hok' _].
    unfold perform, mbind, M_bind in Hok'. rewrite Hd in Hok'. split; [done|]. rewrite E. cbn [agents put agents_lens].
    intros id' x [[<- <-]|[Hne Hx]]%lookup_insert_Some Hxh; [done|]. by destruct Hne; eapply eq_sym, Hu.
  - destruct (wp_use _ _ _ _ _ (wp_Register entropy r _ Hok) Hr) as (_ & Hok' & _ & _ & Hout).
    destruct Hout as (nr & raw & n & dev & ws & _ & _ & _ & Hrow & _). split; [done|].
    rewrite (sr_agents _ _ _ _ _ _ _ _ Hrow), Hid.
    intros id' x [[<- <-]|[Hne' Hx]]%lookup_insert_Some Hxh.
    + exfalso. rewrite (sr_hash _ _ _ _ _ _ _ _ Hrow) in Hxh. done.
    + by destruct Hne'; eapply eq_sym, Hu.
Qed.

(** C31. A session that ended stays ended. Once an agent has been disconnected, or
    has registered again under a key of another hash, the old key is refused after
    any calls whatever, failing ones included, unless a registration draws a key
    of that very hash. *)
Theorem ended_session_stays_ended id key presented a w w1 l :
  sessions_ok (db w) -> agents (db w) !! id = Some a -> SessionKeyHash a = HashSessionKey key ->
  ends id key w w1 -> Forall (fun c => ~ draws c (HashSessionKey key)) l ->
  is_Ok (Authenticate key presented (run l w1)).1 = false.
Proof.
  intros Hok Ha Hh He Hl. destruct (ends_dead _ _ _ _ _ Hok Ha Hh He) as [Hok1 Hd].
  destruct (run_invariant (dead (HashSessionKey key)) (fun c => ~ draws c (HashSessionKey key)) l w1)
    as [Hok2 Hd2]; [intros; by eapply dead_step|done..|by apply dead_refused].
Qed.

(** Trust comes from confirmation alone. After any calls an agent that none of
    them confirmed has the trust level it had before, or is unverified if it is
    new; registering again keeps what was confirmed. *)
Theorem trust_by_confirmation id a w l :
  sessions_ok (db w) -> Forall (fun c => c <> CallConfirmTrust id) l ->
  agents (db (run l w)) !! id = Some a ->
  TrustLevel a = match agents (db w) !! id with Some old => TrustLevel old | None => TrustUnverified end.
Proof.
  intros Hok Hl Ha.
  destruct (run_invariant (fun t => (is_Some (agents (db w) !! id) -> is_Some (t !! id)) /\
    forall x, t !! id = Some x -> TrustLevel x =
      match agents (db w) !! id with Some old => TrustLevel old | None => TrustUnverified end)
    (fun c => c <> CallConfirmTrust id) l w) as (_ & _ & Hx); [|done|done|split; [done|]|by apply Hx].
  - intros c t t' Hc [->|(a' & -> & Hw)] [Hs Ht]; [done|]. split.
    { intros H'%Hs. destruct (decide (ID a' = id)) as [->|]; [rewrite lookup_insert_eq|rewrite lookup_insert_ne]; eauto. }
    intros x [[<- <-]|[_ Hx]]%lookup_insert_Some; [|by apply Ht].
    destruct (t !! ID a') as [old|] eqn:E.
    + rewrite <- (Ht _ eq_refl). naive_solver.
    + destruct (agents (db w) !! ID a'); [|by destruct Hw]. destruct Hs as [? ?]; [eauto|done].
  - intros x ->. done.
Qed.
End proofs.
