(* ===== verification/Pipeline.v ===== *)
(** * core/pipeline: the whole chain

    One capability request from intent to outcome (pipeline.go), a person's
    confirmation put into effect (settle.go), approvals nobody answered
    (expire.go), and the cascades of a disconnected identity (identity.go) and
    agent (agent.go). Every operation is composed of the components' own, over
    the database of [Store]. The deferred recovery of [Handle] is not modelled:
    nothing here panics, and the engine's own recovery is in [Decision]. *)
From S2P Require Import Prelude GoStr Apperr GoTime World Store.
From S2P Require Redact.
From S2P Require Json Registry Agent Risk Matcher Intent Scope Decision.
From S2P Require Lease Trust Approval Ledger Request.
From S2P Require LeaseStore ApprovalStore TrustStore LedgerStore AgentAuth.
From S2P Require Import RequestStore IdentityStore.
Open Scope Z_scope.

(** What a pipeline is built with. *)
Record Options := {
  intents : Intent.Resolver;
  mode : string;
  timeout : Z;
}.

(** [New]: the mode it ends up with. *)
Definition defaultMode (mode : string) : string := if mode ==? "" then Decision.ModeBalanced else mode.

Record OperationFacts := {
  Destructive : bool;
  PermissionChange : bool;
  SecretAccess : bool;
  Billing : bool;
  ExternalCommunication : bool;
  ResourceCount : Z;
}.

Record Inputs := {
  in_Request : Request.CapabilityRequest;
  in_Call : Intent.Call;
  in_Catalog : option Intent.Catalog;
  in_Identities : list Matcher.Identity;
  WorkspaceBindings : list Matcher.Binding;
  ResourceBindings : list Matcher.Binding;
  ManualSelection : string;
  AgentTrust : string;
  DeviceTrust : string;
  Facts : OperationFacts;
  ReadOnlyAutoAllow : bool;
  NewService : bool;
  IdentityChanged : bool;
  NewIdentity : bool;
  NewResource : bool;
  in_Blockers : list string;
}.

Record Result := {
  res_Request : Request.CapabilityRequest;
  res_Decision : option Decision.Decision;
  res_Outcome : Decision.Outcome;
  res_Approval : option Approval.Approval;
  res_Lease : option Lease.Lease;
}.

Record resolved := {
  match_ : Matcher.Result;
  scope : Scope.Result;
  risk : Risk.Assessment;
  input : Decision.Input;
  grants : list Trust.Memory;
}.

Definition leaseLimit : Z := 100.
Definition memoryLimit : Z := 100.
Definition cascadeLimit : Z := 1000.

(** ** Pure parts *)

Definition identitiesOf (memories : list Trust.Memory) : list string := map Trust.IdentityID memories.

Definition toGrants `{Unicode} (memories : list Trust.Memory) : list Decision.Grant :=
  omap (fun memory => match Trust.ScopeOf memory with
    | Ok learned =>
        Some {| Decision.MemoryID := Trust.ID memory; Decision.g_Scope := learned;
                Decision.AlwaysAsk := Trust.Behavior memory ==? Trust.BehaviorAlwaysAsk |}
    | Err _ => None
    end) memories.

Definition beyondHistory `{Unicode} (memories : list Trust.Memory) (converged : Scope.Scope) : bool :=
  match memories with
  | [] => false
  | _ => negb (existsb (fun memory => match Trust.ScopeOf memory with
           | Ok learned => Scope.CoversIgnoringWindow learned converged
           | Err _ => false
           end) memories)
  end.

Definition factors `{Unicode} (inputs : Inputs) (parsed : Intent.Intent) (converged : Scope.Scope)
    (grants : list Trust.Memory) : Risk.Factors :=
  let facts := Facts inputs in
  {| Risk.Write := Intent.DesiredChange parsed !=? "";
     Risk.Production := Scope.Environment converged ==? Matcher.EnvironmentProduction;
     Risk.Reversible := Intent.Reversible parsed;
     Risk.ResourceCount :=
       if (ResourceCount facts =? 0) && negb (Intent.ResourceAmbiguous parsed) then 1
       else ResourceCount facts;
     Risk.Destructive := Destructive facts;
     Risk.PermissionChange := PermissionChange facts;
     Risk.SecretAccess := SecretAccess facts || Intent.SensitiveData parsed;
     Risk.Billing := Billing facts;
     Risk.ExternalCommunication := ExternalCommunication facts;
     Risk.FirstSeen := match grants with [] => true | _ => false end;
     Risk.BeyondHistory := beyondHistory grants converged;
     Risk.AgentTrust := AgentTrust inputs;
     Risk.DeviceTrust := DeviceTrust inputs;
     Risk.DeclaredLabel := Intent.RiskLabel parsed |}.

(** The leases [standing] keeps: this agent, this service, alive, readable. *)
Definition covering `{Unicode} (agentID service : string) (now : Z) (active : list Lease.Lease)
    : list Decision.ActiveLease :=
  omap (fun candidate =>
    if (Lease.AgentID candidate !=? agentID) || (Lease.Service candidate !=? service) then None
    else if negb (After (Lease.ExpiresAt candidate) now) then None
    else match Lease.ScopeOf candidate with
         | Ok granted => Some {| Decision.LeaseID := Lease.ID candidate; Decision.l_Scope := granted |}
         | Err _ => None
         end) active.

Definition resourceOf (request : Request.CapabilityRequest) : string :=
  if Request.Resource request ==? "" then "{}" else Request.Resource request.

Definition decodeScope `{Unicode} (text : string) : result Code Scope.Scope :=
  match Scope.unmarshal text with
  | None => Err CodeInternal
  | Some granted => _ ← Scope.Validate granted; mret granted
  end.

(** ** The events the pipeline writes *)

Definition decision_event (operationID eventType agentID workspaceID identityID service operation
    resource : string) (record : Decision.Decision) (approvalID outcome : string) : Ledger.Event :=
  {| Ledger.ID := ""; Ledger.OperationID := operationID; Ledger.Type_ := eventType;
     Ledger.AgentID := agentID; Ledger.DeviceID := ""; Ledger.WorkspaceID := workspaceID;
     Ledger.IdentityID := identityID; Ledger.CredentialProviderID := ""; Ledger.Service := service;
     Ledger.Operation := operation; Ledger.Resource := resource;
     Ledger.ResolvedScope := Decision.ResolvedScope record; Ledger.Verdict := Decision.d_Verdict record;
     Ledger.RiskLevel := Decision.RiskLevel record; Ledger.DecisionID := Decision.ID record;
     Ledger.ApprovalID := approvalID; Ledger.LeaseID := ""; Ledger.LeaseStatus := "";
     Ledger.Outcome := outcome; Ledger.ResponseStatus := 0; Ledger.Duration := 0;
     Ledger.IsRedacted := false; Ledger.Metadata := Ledger.object1 "reason" (Decision.ReasonCode record);
     Ledger.CreatedAt := 0 |}.

Definition plain_event (operationID eventType agentID workspaceID identityID service operation
    resource resolvedScope verdict riskLevel leaseID leaseStatus outcome metadata : string)
    : Ledger.Event :=
  {| Ledger.ID := ""; Ledger.OperationID := operationID; Ledger.Type_ := eventType;
     Ledger.AgentID := agentID; Ledger.DeviceID := ""; Ledger.WorkspaceID := workspaceID;
     Ledger.IdentityID := identityID; Ledger.CredentialProviderID := ""; Ledger.Service := service;
     Ledger.Operation := operation; Ledger.Resource := resource;
     Ledger.ResolvedScope := resolvedScope; Ledger.Verdict := verdict; Ledger.RiskLevel := riskLevel;
     Ledger.DecisionID := ""; Ledger.ApprovalID := ""; Ledger.LeaseID := leaseID;
     Ledger.LeaseStatus := leaseStatus; Ledger.Outcome := outcome; Ledger.ResponseStatus := 0;
     Ledger.Duration := 0; Ledger.IsRedacted := false; Ledger.Metadata := metadata;
     Ledger.CreatedAt := 0 |}.

Definition empty_object : string := "{}".

(** [failClosed]'s event. *)
Definition error_event (request : Request.CapabilityRequest) (blocker : string) : Ledger.Event :=
  plain_event (Request.OperationID request) Ledger.EventError (Request.AgentID request)
    (Request.WorkspaceID request) "" (Request.Service request) (Request.Operation request)
    (resourceOf request) empty_object Decision.VerdictDeny "" "" "" Ledger.OutcomeBlocked
    (Ledger.object1 "blocker" blocker).

(** [write]'s event. *)
Definition concluded_event (request : Request.CapabilityRequest) (out : resolved)
    (record : Decision.Decision) (eventType outcome : string) : Ledger.Event :=
  decision_event (Request.OperationID request) eventType (Request.AgentID request)
    (Request.WorkspaceID request) (Matcher.ID (Matcher.r_Identity (match_ out)))
    (Scope.Service (Scope.r_Scope (scope out))) (Scope.Operation (Scope.r_Scope (scope out)))
    (resourceOf request) record "" outcome.

(** [recordSettlement]'s event. *)
Definition settled_event (request : Request.CapabilityRequest) (record : Decision.Decision)
    (granted : Scope.Scope) (approvalID eventType outcome : string) : Ledger.Event :=
  decision_event (Request.OperationID request) eventType (Request.AgentID request)
    (Request.WorkspaceID request) (Decision.d_IdentityID record) (Scope.Service granted)
    (Scope.Operation granted) (resourceOf request) record approvalID outcome.

(** The events of the two cascades. *)
Definition revoked_event (operationID identityID reason : string) (granted : Lease.Lease) : Ledger.Event :=
  plain_event operationID Ledger.EventLeaseRevoked (Lease.AgentID granted) "" identityID
    (Lease.Service granted) "" empty_object (Lease.ResourceScope granted) Decision.VerdictDeny ""
    (Lease.ID granted) Lease.StatusRevoked Ledger.OutcomeBlocked (Ledger.object1 "reason" reason).

Definition cleared_event (operationID : string) (cleared : Trust.Memory) : Ledger.Event :=
  plain_event operationID Ledger.EventTrustCleared (Trust.AgentID cleared) (Trust.WorkspaceID cleared)
    (Trust.IdentityID cleared) (Trust.Service cleared) "trust.clear" (Trust.ResourceScope cleared)
    empty_object "" (Trust.RiskCeiling cleared) "" "" Ledger.OutcomeSucceeded
    (Ledger.object1 "approval_behavior" (Trust.Behavior cleared)).

(** ** Handling a request (pipeline.go) *)

Section handle.
Context `{Env} `{Unicode} `{Intent.Floats} (p : Options).

Definition advance (request : Request.CapabilityRequest) (to : string)
    : M DB Code Request.CapabilityRequest :=
  now ← Now;
  AdvanceRequest (Request.ID request) (Request.Status request) to now.

(** A step of [resolve]: its error is a blocker. *)
Definition or_block {A} (blocker : string) (m : M DB Code A) : M DB string A :=
  map_err (fun _ => blocker) m.

Definition learned (agentID workspaceID service : string) : M DB string (list Trust.Memory) :=
  or_block Decision.BlockerPolicyEngineFailure
    (Trust.Manager.Match agentID workspaceID service memoryLimit).

Definition standing (agentID service : string) : M DB string (list Decision.ActiveLease) :=
  active ← or_block Decision.BlockerPolicyEngineFailure (Lease.Manager.Active leaseLimit);
  now ← Now;
  mret (covering agentID service now active).

(** [scope.Resolver.Resolve]: the clock is read after the input is checked. *)
Definition converge (input : Scope.Input) : M DB Code Scope.Result :=
  _ ← of_result (Scope.checkInput input);
  now ← Now;
  of_result (Scope.Resolve now input).

Definition decision_input (inputs : Inputs) (parsed : Intent.Intent) (matched : Matcher.Result)
    (converged : Scope.Result) (assessment : Risk.Assessment) (grants : list Trust.Memory)
    (standing : list Decision.ActiveLease) : Decision.Input :=
  {| Decision.Mode := mode p; Decision.AgentID := Request.AgentID (in_Request inputs);
     Decision.AgentTrust := AgentTrust inputs;
     Decision.Write := Intent.DesiredChange parsed !=? "";
     Decision.Match := matched; Decision.i_Scope := converged; Decision.i_Assessment := assessment;
     Decision.ReadOnlyAutoAllow := ReadOnlyAutoAllow inputs; Decision.NewService := NewService inputs;
     Decision.IdentityChanged := IdentityChanged inputs; Decision.NewIdentity := NewIdentity inputs;
     Decision.NewResource := NewResource inputs; Decision.Learned := toGrants grants;
     Decision.Active := standing; Decision.Blockers := in_Blockers inputs |}.

Definition matcher_inputs (inputs : Inputs) (grants : list Trust.Memory) : Matcher.Inputs :=
  {| Matcher.WorkspaceBindings := WorkspaceBindings inputs;
     Matcher.ResourceBindings := ResourceBindings inputs;
     Matcher.MemoryIdentityIDs := identitiesOf grants;
     Matcher.Identities := in_Identities inputs;
     Matcher.ManualSelection := ManualSelection inputs |}.

Definition resolve (inputs : Inputs) : M DB string resolved :=
  let request := in_Request inputs in
  parsed ← or_block Decision.BlockerCapabilityNotOffered
    (of_result (Intent.Resolve (intents p) (in_Catalog inputs) (in_Call inputs)));
  grants ← learned (Request.AgentID request) (Request.WorkspaceID request) (Intent.Service parsed);
  matched ← or_block Decision.BlockerIdentityAmbiguityUnresolvable
    (of_result (Matcher.Match
      {| Matcher.r_Service := Intent.Service parsed; Matcher.r_WorkspaceID := Request.WorkspaceID request;
         Matcher.r_ResourceKey := Intent.ResourceKey parsed |} (matcher_inputs inputs grants)));
  converged ← or_block Decision.BlockerScopeUndeterminable
    (converge {| Scope.in_Intent := parsed; Scope.in_AgentID := Request.AgentID request;
                 Scope.in_WorkspaceID := Request.WorkspaceID request;
                 Scope.in_Identity := Matcher.r_Identity matched;
                 Scope.in_Duration := 0; Scope.in_RequestLimit := 0 |});
  active ← standing (Request.AgentID request) (Intent.Service parsed);
  assessment ← or_block Decision.BlockerRiskUnknown
    (of_result (Risk.Evaluate (factors inputs parsed (Scope.r_Scope converged) grants)));
  mret {| match_ := matched; scope := converged; risk := assessment;
          input := decision_input inputs parsed matched converged assessment grants active;
          grants := grants |}.

Definition recordDecision (inputs : Inputs) (out : resolved) (outcome : Decision.Outcome)
    : M DB Code Decision.Decision :=
  id ← NewID;
  resolvedScope ← of_result (match Scope.marshal (Scope.r_Scope (scope out)) with
                             | Some text => Ok text | None => Err CodeInternal end);
  now ← Now;
  CreateDecision
    {| Decision.ID := id; Decision.CapabilityRequestID := Request.ID (in_Request inputs);
       Decision.d_Verdict := Decision.Verdict outcome; Decision.RiskLevel := Risk.Level (risk out);
       Decision.RiskFactors := Json.print (Json.of_strings (Some (Risk.Reasons (risk out))));
       Decision.d_IdentityID := Matcher.ID (Matcher.r_Identity (match_ out));
       Decision.d_MatchLevel := Matcher.Level (match_ out); Decision.ResolvedScope := resolvedScope;
       Decision.d_ApprovalRequirement := Decision.ApprovalRequirement outcome;
       Decision.ReasonCode := Decision.Reason outcome;
       Decision.TrustMemoryID := Decision.MatchedMemoryID outcome; Decision.CreatedAt := now |}.

Definition write (inputs : Inputs) (out : resolved) (record : Decision.Decision)
    (eventType outcome : string) : M DB Code unit :=
  _ ← Ledger.Record_ (concluded_event (in_Request inputs) out record eventType outcome);
  mret ().

Definition issueLease (request : Lease.IssueRequest) : M DB Code Lease.Lease :=
  Lease.Manager.Issue request.

Definition issue (inputs : Inputs) (out : resolved) (record : Decision.Decision)
    (outcome : Decision.Outcome) : M DB Code Lease.Lease :=
  _ ← write inputs out record Ledger.EventAutoAllowed Ledger.OutcomeSucceeded;
  if Decision.MatchedLeaseID outcome !=? "" then
    Lease.Manager.ByID (Decision.MatchedLeaseID outcome)
  else
    issueLease {| Lease.Granted := Scope.r_Scope (scope out); Lease.i_ApprovalID := "";
                  Lease.i_SourceMemoryID := Decision.TrustMemoryID record;
                  Lease.i_IsSessionBound := false |}.

Definition conclude (inputs : Inputs) (out : resolved) (outcome : Decision.Outcome)
    : M DB Code Result :=
  record ← recordDecision inputs out outcome;
  step ← (if Decision.Verdict outcome ==? Decision.VerdictDeny then
            _ ← write inputs out record Ledger.EventDenied Ledger.OutcomeBlocked;
            mret (None, None, Request.StatusDenied)
          else if Decision.Verdict outcome ==? Decision.VerdictRequireApproval then
            _ ← write inputs out record Ledger.EventDenied Ledger.OutcomeBlocked;
            item ← Approval.Manager.Open (timeout p) (Decision.ID record);
            mret (Some item, None, Request.StatusAwaitingApproval)
          else
            issued ← issue inputs out record outcome;
            mret (None, Some issued, Request.StatusAutoAllowed));
  let '(item, issued, next) := step in
  advanced ← advance (in_Request inputs) next;
  mret {| res_Request := advanced; res_Decision := Some record; res_Outcome := outcome;
          res_Approval := item; res_Lease := issued |}.

Definition failClosed (inputs : Inputs) (blocker : string) : M DB Code Result :=
  _ ← Ledger.Record_ (error_event (in_Request inputs) blocker);
  request ← advance (in_Request inputs) Request.StatusDenied;
  mret {| res_Request := request; res_Decision := None;
          res_Outcome := Decision.failClosed blocker; res_Approval := None; res_Lease := None |}.

Definition Handle (inputs : Inputs) : M DB Code Result :=
  _ ← refuse ((Request.ID (in_Request inputs) ==? "") ||
              (Request.OperationID (in_Request inputs) ==? "")) CodeInvalidRequest;
  attempt ← try_ (resolve inputs);
  match attempt with
  | Err blocker => failClosed inputs blocker
  | Ok out => conclude inputs out (Decision.Decide (input out))
  end.
End handle.

(** ** A person's answer (settle.go) *)

Record SettleInput := {
  si_ApprovalID : string;
  si_Action : string;
  StrongAuthCompleted : bool;
  si_Confirmations : Z;
}.

Record SettleResult := {
  sr_Approval : Approval.Approval;
  sr_Decision : Decision.Decision;
  sr_Request : Request.CapabilityRequest;
  sr_Lease : option Lease.Lease;
  sr_Memory : option Trust.Memory;
  sr_Replayed : bool;
}.

(** [granted.RequestLimit = settlement.RequestLimit]. *)
Definition with_limit (s : Scope.Scope) (limit : Z) : Scope.Scope :=
  {| Scope.AgentID := Scope.AgentID s; Scope.WorkspaceID := Scope.WorkspaceID s;
     Scope.Service := Scope.Service s; Scope.IdentityID := Scope.IdentityID s;
     Scope.Account := Scope.Account s; Scope.Resource := Scope.Resource s;
     Scope.ResourceKey := Scope.ResourceKey s; Scope.Operation := Scope.Operation s;
     Scope.NotBefore := Scope.NotBefore s; Scope.ExpiresAt := Scope.ExpiresAt s;
     Scope.RequestLimit := limit; Scope.Environment := Scope.Environment s;
     Scope.RiskCeiling := Scope.RiskCeiling s |}.

Section settle.
Context `{Env} `{Unicode} `{Intent.Floats} (p : Options).

Definition recordSettlement (request : Request.CapabilityRequest) (record : Decision.Decision)
    (granted : Scope.Scope) (approvalID eventType outcome : string) : M DB Code unit :=
  _ ← Ledger.Record_ (settled_event request record granted approvalID eventType outcome);
  mret ().

Definition grant (request : Request.CapabilityRequest) (record : Decision.Decision)
    (granted : Scope.Scope) (settlement : Approval.Settlement) : M DB Code Lease.Lease :=
  let approvalID := Approval.ID (Approval.s_Approval settlement) in
  let consequence := Approval.s_Consequence settlement in
  _ ← recordSettlement request record granted approvalID Ledger.EventUserAllowed
        Ledger.OutcomeSucceeded;
  issueLease
    {| Lease.Granted := if 0 <? Approval.RequestLimit consequence
                        then with_limit granted (Approval.RequestLimit consequence) else granted;
       Lease.i_ApprovalID := approvalID; Lease.i_SourceMemoryID := Decision.TrustMemoryID record;
       Lease.i_IsSessionBound := Approval.SessionBound consequence |}.

Definition learn (record : Decision.Decision) (granted : Scope.Scope)
    (settlement : Approval.Settlement) : M DB Code (option Trust.Memory) :=
  let behavior := Approval.Learn (Approval.s_Consequence settlement) in
  if behavior ==? "" then mret None
  else
    memory ← Trust.Manager.Generate
      {| Trust.Approved := granted; Trust.Learned := granted;
         Trust.g_ApprovalID := Approval.ID (Approval.s_Approval settlement);
         Trust.g_RiskLevel := Decision.RiskLevel record; Trust.g_Behavior := behavior;
         Trust.TTL := 0 |};
    mret (Some memory).

Definition replayed (record : Decision.Decision) (request : Request.CapabilityRequest)
    (settlement : Approval.Settlement) : M DB Code SettleResult :=
  let item := Approval.s_Approval settlement in
  let result issued :=
    {| sr_Approval := item; sr_Decision := record; sr_Request := request; sr_Lease := issued;
       sr_Memory := None; sr_Replayed := true |} in
  if negb (Approval.Allowed (Approval.s_Consequence settlement)) then mret (result None)
  else
    issued ← map_err (fun e => if e ==? CodeNotFound then CodeConflict else e)
               (Lease.Manager.IssuedFor (Approval.ID item));
    mret (result (Some issued)).

Definition applySettlement (record : Decision.Decision) (request : Request.CapabilityRequest)
    (settlement : Approval.Settlement) : M DB Code SettleResult :=
  let item := Approval.s_Approval settlement in
  granted ← of_result (decodeScope (Decision.ResolvedScope record));
  if negb (Approval.Allowed (Approval.s_Consequence settlement)) then
    _ ← recordSettlement request record granted (Approval.ID item) Ledger.EventDenied
          Ledger.OutcomeBlocked;
    advanced ← advance request Request.StatusRejected;
    mret {| sr_Approval := item; sr_Decision := record; sr_Request := advanced; sr_Lease := None;
            sr_Memory := None; sr_Replayed := false |}
  else
    issued ← grant request record granted settlement;
    memory ← learn record granted settlement;
    advanced ← advance request Request.StatusApproved;
    mret {| sr_Approval := item; sr_Decision := record; sr_Request := advanced;
            sr_Lease := Some issued; sr_Memory := memory; sr_Replayed := false |}.

(** The window of the decision's scope, checked before anything is consumed. *)
Definition checkWindow (action : string) (record : Decision.Decision) : M DB Code unit :=
  if Approval.Allows action then
    granted ← of_result (decodeScope (Decision.ResolvedScope record));
    now ← Now;
    refuse (negb (After (Scope.ExpiresAt granted) now)) CodeApprovalTimeout
  else mret ().

Definition SettleApproval (input : SettleInput) : M DB Code SettleResult :=
  item ← Approval.Manager.ByID (si_ApprovalID input);
  record ← DecisionByID (Approval.DecisionID item);
  request ← RequestByID (Decision.CapabilityRequestID record);
  _ ← checkWindow (si_Action input) record;
  settlement ← Approval.Manager.Settle
    {| Approval.s_ApprovalID := si_ApprovalID input; Approval.s_Action := si_Action input;
       Approval.s_RiskLevel := Decision.RiskLevel record;
       Approval.StrongAuthCompleted := StrongAuthCompleted input;
       Approval.Requirement := Decision.d_ApprovalRequirement record;
       Approval.RequiredConfirmations :=
         Decision.RequiredConfirmations (mode p) (Decision.RiskLevel record);
       Approval.s_Confirmations := si_Confirmations input |};
  if Approval.Replayed settlement then replayed record request settlement
  else applySettlement record request settlement.

(** ** Events without a decision *)

Definition RecordSecretRequestBlocked
    (operationID agentID workspaceID service operation : string) : M DB Code unit :=
  _ ← Ledger.Record_ (plain_event operationID Ledger.EventSecretRequestBlocked agentID workspaceID ""
        service operation empty_object empty_object Decision.VerdictDeny "" "" ""
        Ledger.OutcomeBlocked (Ledger.object1 "blocker" Decision.BlockerCapabilityNotOffered));
  mret ().

Definition RecordStrongAuthLocked (operationID : string) (lockoutSeconds : Z) : M DB Code unit :=
  _ ← Ledger.Record_ (plain_event operationID Ledger.EventStrongAuthLocked "" "" ""
        "opendelo" "vault.unlock" empty_object empty_object "" "" "" "" Ledger.OutcomeBlocked
        ("{" +:+ Ledger.quoted "lockout_seconds" +:+ ":" +:+ itoa lockoutSeconds +:+ "}"));
  mret ().

Definition RecordAgentTrusted (agentID operationID : string) : M DB Code unit :=
  _ ← Ledger.Record_ (plain_event operationID Ledger.EventAgentTrusted agentID "" ""
        "opendelo" "agent.trust" empty_object empty_object "" "" "" "" Ledger.OutcomeSucceeded
        (Ledger.object1 "trust_level" "known"));
  mret ().

Definition ClearTrustMemory (id operationID : string) : M DB Code unit :=
  cleared ← Trust.Manager.ByID id;
  _ ← Ledger.Record_ (cleared_event operationID cleared);
  Trust.Manager.Delete id.

(** ** Approvals nobody answered (expire.go) *)

(** One expired item: its error carries nothing, the count is the loop's. *)
Definition expireOne (item : Approval.Approval) : M DB Code unit :=
  record ← DecisionByID (Approval.DecisionID item);
  request ← RequestByID (Decision.CapabilityRequestID record);
  granted ← of_result (decodeScope (Decision.ResolvedScope record));
  _ ← recordSettlement request record granted (Approval.ID item) Ledger.EventApprovalExpired
        Ledger.OutcomeBlocked;
  _ ← advance request Request.StatusRejected;
  mret ().

(** The count of closed items, also next to an error. *)
Definition ExpireApprovals (limit : Z) : M DB (Z * Code) Z :=
  expired ← map_err (fun e => (0, snd e)) (Approval.Manager.Expire limit);
  done ← map_err (fun e => (Z.of_nat (length (fst e)), snd e)) (each expireOne expired);
  mret (Z.of_nat (length done)).

(** ** Disconnecting (identity.go, agent.go) *)

Record IdentityRevocation := {
  ir_Identity : Matcher.Identity;
  RevokedLeases : list Lease.Lease;
  InvalidatedMemories : list Trust.Memory;
}.

Definition revoke_each (identityOf : Lease.Lease -> string) (operationID reason : string)
    (active : list Lease.Lease) : M DB Code (list Lease.Lease) :=
  map_err snd (each (fun granted =>
    _ ← Ledger.Record_ (revoked_event operationID (identityOf granted) reason granted);
    Lease.Manager.Revoke (Lease.ID granted)) active).

Definition revokeLeasesOf (identity : Matcher.Identity) (operationID : string)
    : M DB Code (list Lease.Lease) :=
  active ← Lease.Manager.IssuedTo (Matcher.ID identity) cascadeLimit;
  revoke_each (fun _ => Matcher.ID identity) operationID "identity_disconnected" active.

Definition DisconnectIdentity (identityID operationID : string) : M DB Code IdentityRevocation :=
  _ ← refuse ((identityID ==? "") || (operationID ==? "")) CodeInvalidRequest;
  identity ← IdentityByID identityID;
  revoked ← revokeLeasesOf identity operationID;
  invalidated ← map_err snd (Trust.Manager.InvalidateForIdentity identityID
                  Trust.ReasonIdentityScopeChanged cascadeLimit);
  now ← Now;
  updated ← SetIdentityStatus identityID Matcher.StatusNeedsReview now;
  mret {| ir_Identity := updated; RevokedLeases := revoked; InvalidatedMemories := invalidated |}.

Definition revokeSessionLeasesOf (agentID operationID : string) : M DB Code (list Lease.Lease) :=
  active ← Lease.Manager.BoundToSessionOf agentID cascadeLimit;
  revoke_each Lease.IdentityID operationID "agent_session_ended" active.

Definition DisconnectAgent (agentID operationID : string)
    : M DB Code (Agent.Agent * list Lease.Lease) :=
  _ ← refuse ((agentID ==? "") || (operationID ==? "")) CodeInvalidRequest;
  disconnected ← AgentAuth.Disconnect agentID;
  revoked ← revokeSessionLeasesOf agentID operationID;
  mret (disconnected, revoked).
End settle.
