(* ===== verification/PipelineSpec.v ===== *)
(** * core/pipeline: what it guarantees

    The guarantees of [Pipeline], over the database of [Store] and every outside
    world: whichever statement fails, whatever the clock reads and whatever
    identifiers are drawn. The lemmas [wp_*] give each step its effect on the
    tables; a theorem runs a handler through them. *)
From S2P Require Import Prelude GoStr Apperr GoTime World Store.
From S2P Require Redact.
From S2P Require Json Agent Risk Matcher Intent Scope Forbidden Decision.
From S2P Require Lease Trust Approval Ledger Request.
From S2P Require LeaseStore ApprovalStore TrustStore LedgerStore.
From S2P Require Import RequestStore IdentityStore Pipeline.
Open Scope Z_scope.

(** ** Steps *)

(** The event in the ledger for an event handed to the recorder: all that
    identifies and classifies it is as given. *)
Record audit_of (event e : Ledger.Event) : Prop := {
  au_operation : Ledger.OperationID e = Ledger.OperationID event;
  au_type : Ledger.Type_ e = Ledger.Type_ event;
  au_agent : Ledger.AgentID e = Ledger.AgentID event;
  au_identity : Ledger.IdentityID e = Ledger.IdentityID event;
  au_verdict : Ledger.Verdict e = Ledger.Verdict event;
  au_decision : Ledger.DecisionID e = Ledger.DecisionID event;
  au_approval : Ledger.ApprovalID e = Ledger.ApprovalID event;
  au_lease : Ledger.LeaseID e = Ledger.LeaseID event;
  au_outcome : Ledger.Outcome e = Ledger.Outcome event;
}.

(** The table gained this one row. *)
Definition gained {A} (t t' : gmap string A) (id : string) (x : A) : Prop :=
  t !! id = None /\ t' = <[id := x]> t.

Section steps.
Context `{Env} `{Unicode} `{Intent.Floats}.
Implicit Types d : DB.

Lemma wp_audit event (Q : result Code Ledger.Event -> DB -> Prop) d :
  Ledger.ResponseStatus event = 0 -> Ledger.Duration event = 0 ->
  (forall c, Q (Err c) d) ->
  (forall e, audit_of event e -> events d !! Ledger.ID e = None ->
    Q (Ok e) (put (<[Ledger.ID e := e]> (events d)) d)) ->
  wp (Ledger.Record_ event) Q d.
Proof.
  intros Hr Hd Herr Hok. apply Ledger.wp_Record; [done|].
  intros e (id & n & k & rs & sc & md & _ & _ & _ & _ & ->) _ _ Hn.
  assert (Ledger.toEvent (Ledger.stored (Ledger.refill event id rs sc md
    (Ledger.ResponseStatus event) (Ledger.Duration event) (clock_at n))) =
    Ok (Ledger.stored (Ledger.refill event id rs sc md
    (Ledger.ResponseStatus event) (Ledger.Duration event) (clock_at n)))) as ->.
  { unfold Ledger.toEvent, Ledger.readable. simpl. by rewrite Hr, Hd. }
  by apply (Hok (Ledger.stored (Ledger.refill event id rs sc md
    (Ledger.ResponseStatus event) (Ledger.Duration event) (clock_at n)))).
Qed.

Lemma wp_advance request to Q d :
  (forall c, Q (Err c) d) ->
  (forall r n, requests d !! Request.ID request = Some r -> Request.Status r = Request.Status request ->
    Q (Ok (Request.advanced r to (clock_at n)))
      (put (<[Request.ID request := Request.advanced r to (clock_at n)]> (requests d)) d)) ->
  wp (advance request to) Q d.
Proof. intros Herr Hok. unfold advance. wp_steps. apply wp_AdvanceRequest; auto. Qed.

(** An approval item for a decision: the one there is, or a new pending one. *)
Lemma wp_Open timeout id Q d :
  (forall c, Q (Err c) d) ->
  (forall i a, approvals d !! i = Some a -> Approval.DecisionID a = id -> Q (Ok a) d) ->
  (forall a, gained (approvals d) (<[Approval.ID a := a]> (approvals d)) (Approval.ID a) a ->
    Approval.DecisionID a = id -> Approval.Status a = Approval.StatusPending ->
    Q (Ok a) (put (<[Approval.ID a := a]> (approvals d)) d)) ->
  wp (Approval.Manager.Open timeout id) Q d.
Proof.
  intros Herr Hold Hnew. unfold Approval.Manager.Open. wp_steps.
  case_bool_decide; [apply Herr|]. wp_steps.
  eapply wp_mono; [apply Approval.ApprovalByDecisionID_law|]. intros r d' [-> Hr]. wp_steps.
  destruct r as [a|e].
  { destruct Hr as [[i Hi] Ha]. wp_steps. by eapply Hold. }
  wp_steps. destruct (negb _); [apply Herr|]. wp_steps; [|apply Herr].
  eapply wp_mono; [apply Approval.CreateApproval_law|].
  intros r d' [[-> (c & -> & _)]|(Hn & _ & -> & ->)]; [apply Herr|].
  by match goal with |- Q (Ok ?a) _ => apply (Hnew a) end.
Qed.
End steps.

(** ** Handling a request *)

(** What the first half of the chain hands to the second. *)
Record resolved_for (p : Options) (inputs : Inputs) (out : resolved) : Prop := {
  rf_scope : Decision.i_Scope (input out) = scope out;
  rf_risk : Decision.i_Assessment (input out) = risk out;
  rf_match : Decision.Match (input out) = match_ out;
  rf_mode : Decision.Mode (input out) = mode p;
  rf_blockers : Decision.Blockers (input out) = in_Blockers inputs;
  rf_agent : Scope.AgentID (Scope.r_Scope (scope out)) = Request.AgentID (in_Request inputs);
  rf_workspace : Scope.WorkspaceID (Scope.r_Scope (scope out)) = Request.WorkspaceID (in_Request inputs);
  rf_identity : Scope.IdentityID (Scope.r_Scope (scope out)) = Matcher.ID (Matcher.r_Identity (match_ out));
}.

(** And where it comes from: what the call was understood as, and the leases of
    the table that are for the same agent and service. *)
Record resolved_in `{Unicode} `{Intent.Floats} (p : Options) (inputs : Inputs) (d : DB) (out : resolved) : Prop := {
  ri_for : resolved_for p inputs out;
  ri_meant : exists parsed, Intent.Resolve (intents p) (in_Catalog inputs) (in_Call inputs) = Ok parsed /\
    Scope.Service (Scope.r_Scope (scope out)) = Intent.Service parsed /\
    Scope.Operation (Scope.r_Scope (scope out)) = Intent.Operation parsed;
  ri_active l : l ∈ Decision.Active (input out) -> exists i x,
    leases d !! i = Some x /\ Lease.ID x = Decision.LeaseID l /\ Lease.ScopeOf x = Ok (Decision.l_Scope l) /\
    Lease.AgentID x = Request.AgentID (in_Request inputs);
}.

(** The decision record of an outcome. *)
Record decision_for (inputs : Inputs) (out : resolved) (outcome : Decision.Outcome)
    (rec : Decision.Decision) : Prop := {
  de_request : Decision.CapabilityRequestID rec = Request.ID (in_Request inputs);
  de_verdict : Decision.d_Verdict rec = Decision.Verdict outcome;
  de_level : Decision.RiskLevel rec = Risk.Level (risk out);
  de_reason : Decision.ReasonCode rec = Decision.Reason outcome;
  de_memory : Decision.TrustMemoryID rec = Decision.MatchedMemoryID outcome;
  de_requirement : Decision.d_ApprovalRequirement rec = Decision.ApprovalRequirement outcome;
  de_scope : Scope.marshal (Scope.r_Scope (scope out)) = Some (Decision.ResolvedScope rec);
}.

(** The status a verdict moves the request to. *)
Definition next_status (verdict : string) : string :=
  if verdict ==? Decision.VerdictDeny then Request.StatusDenied
  else if verdict ==? Decision.VerdictRequireApproval then Request.StatusAwaitingApproval
  else Request.StatusAutoAllowed.

Section handle.
Context `{Env} `{Unicode} `{Intent.Floats} (p : Options).
Implicit Types d : DB.

Lemma wp_or_block {A} blocker (m : M DB Code A) Q d :
  wp m (fun r d' => match r with Ok a => Q (Ok a) d' | Err _ => Q (Err blocker) d' end) d ->
  wp (or_block blocker m) Q d.
Proof. intros Hm. apply wp_map_err. eapply wp_mono; [exact Hm|]. by intros []. Qed.

Lemma Resolve_subject `{Unicode} now input out :
  Scope.Resolve now input = Ok out ->
  Scope.AgentID (Scope.r_Scope out) = Scope.in_AgentID input /\
  Scope.WorkspaceID (Scope.r_Scope out) = Scope.in_WorkspaceID input /\
  Scope.IdentityID (Scope.r_Scope out) = Matcher.ID (Scope.in_Identity input) /\
  Scope.Service (Scope.r_Scope out) = Intent.Service (Scope.in_Intent input) /\
  Scope.Operation (Scope.r_Scope out) = Intent.Operation (Scope.in_Intent input).
Proof.
  unfold Scope.Resolve. destruct (Scope.checkInput input); [|done]. cbn [mbind result_bind].
  destruct (Scope.Validate _); [|done]. cbn [mbind result_bind]. intros [= <-]. done.
Qed.

Lemma covering_elem agentID service now active l :
  l ∈ covering agentID service now active -> exists x, x ∈ active /\ After (Lease.ExpiresAt x) now = true /\
    Lease.ID x = Decision.LeaseID l /\ Lease.ScopeOf x = Ok (Decision.l_Scope l) /\ Lease.AgentID x = agentID.
Proof.
  unfold covering. rewrite list_elem_of_omap. intros (x & Hx & Hl). exists x.
  destruct (_ || _) eqn:E; [done|]. destruct (After (Lease.ExpiresAt x) now) eqn:Ea; [|done]. cbn in Hl.
  destruct (Lease.ScopeOf x) as [granted|] eqn:Es; [|done]. injection Hl as <-. bools. by split_and!.
Qed.

(** The first half only reads. *)
Lemma wp_resolve inputs (Q : result string resolved -> DB -> Prop) d :
  (forall blocker, Q (Err blocker) d) ->
  (forall out, resolved_in p inputs d out -> Q (Ok out) d) ->
  wp (resolve p inputs) Q d.
Proof.
  intros Herr Hok. unfold resolve. wp_steps. apply wp_or_block. wp_steps.
  destruct (Intent.Resolve _ _ _) as [parsed|] eqn:Hp; [|apply Herr].
  unfold learned. wp_steps. apply wp_or_block. unfold Trust.Manager.Match. wp_steps.
  eapply wp_mono; [apply Trust.MatchMemories_law|]. intros [found|e] d' [-> _]; [|apply Herr].
  wp_steps. set (grants := filter _ found).
  wp_steps. apply wp_or_block. wp_steps. destruct (Matcher.Match _ _) as [matched|]; [|apply Herr].
  wp_steps. apply wp_or_block. unfold converge. wp_steps.
  destruct (Scope.checkInput _); [|apply Herr]. wp_steps.
  destruct (Scope.Resolve _ _) as [converged|] eqn:Hs; [|apply Herr].
  unfold standing. wp_steps. apply wp_or_block. unfold Lease.Manager.Active.
  eapply wp_mono; [apply Lease.LeasesByStatus_law|]. intros [active|e] d' [-> Hl]; [|apply Herr].
  wp_steps. apply wp_or_block. wp_steps. destruct (Risk.Evaluate _); [|apply Herr].
  wp_steps. apply Hok. apply Resolve_subject in Hs as (Ha & Hw & Hi & Hsv & Hop). split; [by split|by exists parsed|].
  cbn [input decision_input Decision.Active]. intros l (x & Hin & Hx & Hid & Hsc & Hag)%covering_elem.
  apply (listing_sound _ _ _ _ _ Hl) in Hin as [_ [i Hi']]. by exists i, x.
Qed.

Lemma wp_recordDecision inputs out outcome (Q : result Code Decision.Decision -> DB -> Prop) d :
  (forall c, Q (Err c) d) ->
  (forall rec, decision_for inputs out outcome rec ->
    decisions d !! Decision.ID rec = None ->
    (forall id r, decisions d !! id = Some r ->
      Decision.CapabilityRequestID r <> Request.ID (in_Request inputs)) ->
    Q (Ok rec) (put (<[Decision.ID rec := rec]> (decisions d)) d)) ->
  wp (recordDecision inputs out outcome) Q d.
Proof.
  intros Herr Hok. unfold recordDecision. wp_steps; [|apply Herr].
  destruct (Scope.marshal _) as [text|] eqn:Hm; [|apply Herr]. wp_steps.
  apply wp_CreateDecision; [apply Herr|]. intros _ _ Hn Hu.
  match goal with |- Q (Ok ?a) _ => apply (Hok a); [by split| |]; done end.
Qed.

(** Writing the event of a conclusion. *)
Lemma wp_write inputs out rec type_ outcome (Q : result Code unit -> DB -> Prop) d :
  (forall c, Q (Err c) d) ->
  (forall e, audit_of (concluded_event (in_Request inputs) out rec type_ outcome) e ->
    events d !! Ledger.ID e = None ->
    Q (Ok ()) (put (<[Ledger.ID e := e]> (events d)) d)) ->
  wp (write inputs out rec type_ outcome) Q d.
Proof.
  intros Herr Hok. unfold write. wp_steps. apply wp_audit; [done..|].
  intros e He Hn. wp_steps. by apply Hok.
Qed.
End handle.

(** The lease table gained one lease, after the ledger gained the event that says
    it was allowed, for a decision recorded in the same run; the lease is for the
    agent of the request and for the scope of that decision. *)
Definition lease_after_audit (inputs : Inputs) (d d' : DB) : Prop :=
  exists e rec id l,
    gained (events d) (events d') (Ledger.ID e) e /\
    Ledger.Type_ e = Ledger.EventAutoAllowed /\
    Ledger.OperationID e = Request.OperationID (in_Request inputs) /\
    Ledger.DecisionID e = Decision.ID rec /\
    gained (decisions d) (decisions d') (Decision.ID rec) rec /\
    Decision.CapabilityRequestID rec = Request.ID (in_Request inputs) /\
    Decision.d_Verdict rec = Decision.VerdictAutoAllow /\
    gained (leases d) (leases d') id l /\
    Lease.AgentID l = Request.AgentID (in_Request inputs) /\
    Lease.ResourceScope l = Decision.ResolvedScope rec /\
    Lease.ApprovalID l = "" /\ Lease.Status l = Lease.StatusActive /\ Lease.UsedRequests l = 0.

(** Where an outcome comes from: the engine decided on what the first half resolved
    for this request, and the one new row of the decisions records it; or the run
    was closed with a blocker, and no decision was recorded. *)
Definition decided `{Unicode} `{Intent.Floats} (p : Options) (inputs : Inputs) (d d' : DB) (res : Result) : Prop :=
  (exists out rec, resolved_in p inputs d out /\ res_Outcome res = Decision.Decide (input out) /\
     res_Decision res = Some rec /\ decision_for inputs out (res_Outcome res) rec /\
     gained (decisions d) (decisions d') (Decision.ID rec) rec) \/
  (exists blocker, res_Outcome res = Decision.failClosed blocker /\
     res_Decision res = None /\ decisions d' = decisions d).

(** The lease of an allowance: the standing lease the outcome matched, and then no
    lease was added; or the one lease that was added, for the recorded decision. *)
Definition leased (inputs : Inputs) (d d' : DB) (res : Result) (l : Lease.Lease) : Prop :=
  if Decision.MatchedLeaseID (res_Outcome res) ==? "" then
    exists rec id, res_Decision res = Some rec /\ gained (leases d) (leases d') id l /\
      Lease.AgentID l = Request.AgentID (in_Request inputs) /\
      Lease.ResourceScope l = Decision.ResolvedScope rec /\
      Lease.SourceMemoryID l = Decision.TrustMemoryID rec /\ Lease.ApprovalID l = "" /\
      Lease.IsSessionBound l = false /\ Lease.Status l = Lease.StatusActive /\ Lease.UsedRequests l = 0
  else leases d' = leases d /\ leases d !! Decision.MatchedLeaseID (res_Outcome res) = Some l.

(** The item of a question is for the recorded decision: it was there, or it is the
    one item that was added, and waits. *)
Definition asked (d d' : DB) (res : Result) (a : Approval.Approval) : Prop :=
  (exists rec, res_Decision res = Some rec /\ Approval.DecisionID a = Decision.ID rec) /\
  ((approvals d' = approvals d /\ exists i, approvals d !! i = Some a) \/
   (gained (approvals d) (approvals d') (Approval.ID a) a /\ Approval.Status a = Approval.StatusPending)).

(** A request that was handled: one new event, the request moved as the verdict
    says, and the approval or lease of the verdict - no other row of those tables
    is touched. *)
Definition handled `{Env} `{Unicode} `{Intent.Floats} (p : Options) (inputs : Inputs) (d d' : DB) (res : Result) : Prop :=
  let verdict := Decision.Verdict (res_Outcome res) in
  decided p inputs d d' res /\
  exists e r0 n,
    gained (events d) (events d') (Ledger.ID e) e /\
    Ledger.OperationID e = Request.OperationID (in_Request inputs) /\
    Ledger.AgentID e = Request.AgentID (in_Request inputs) /\
    Ledger.Verdict e = verdict /\
    (forall rec, res_Decision res = Some rec ->
       Decision.d_Verdict rec = verdict /\ Ledger.DecisionID e = Decision.ID rec) /\
    requests d !! Request.ID (in_Request inputs) = Some r0 /\
    Request.Status r0 = Request.Status (in_Request inputs) /\
    res_Request res = Request.advanced r0 (next_status verdict) (clock_at n) /\
    requests d' = <[Request.ID (in_Request inputs) := res_Request res]> (requests d) /\
    memories d' = memories d /\
    if verdict ==? Decision.VerdictDeny then
      leases d' = leases d /\ approvals d' = approvals d /\
      res_Lease res = None /\ res_Approval res = None /\ Ledger.Outcome e = Ledger.OutcomeBlocked
    else if verdict ==? Decision.VerdictRequireApproval then
      leases d' = leases d /\ res_Lease res = None /\ Ledger.Outcome e = Ledger.OutcomeBlocked /\
      exists a, res_Approval res = Some a /\ asked d d' res a
    else
      approvals d' = approvals d /\ res_Approval res = None /\
      Ledger.Type_ e = Ledger.EventAutoAllowed /\ Ledger.Outcome e = Ledger.OutcomeSucceeded /\
      exists l, res_Lease res = Some l /\ leased inputs d d' res l.

Lemma Decide_verdicts `{Unicode} i :
  Decision.Verdict (Decision.Decide i) = Decision.VerdictDeny \/
  Decision.Verdict (Decision.Decide i) = Decision.VerdictRequireApproval \/
  Decision.Verdict (Decision.Decide i) = Decision.VerdictAutoAllow.
Proof.
  rewrite Decision.Decide_eq. destruct (Decision.blocked i); [by left|].
  destruct (Forbidden.classifyForbidden _ _); [by left|].
  destruct (Decision.asked_first i); [by right; left|].
  destruct (Decision.allowed_by i); [by right; right|by right; left].
Qed.

Section run.
Context `{Env} `{Unicode} `{Intent.Floats} (p : Options).
Implicit Types d : DB.

(** What a run of [Handle] does to the database, however it ends. *)
Definition handle_post (inputs : Inputs) (d : DB) (r : result Code Result) (d' : DB) : Prop :=
  (leases d' = leases d \/ lease_after_audit inputs d d') /\
  match r with Ok res => handled p inputs d d' res | Err _ => True end.

Lemma handle_err inputs d c d' : leases d' = leases d -> handle_post inputs d (Err c) d'.
Proof. by split; [left|]. Qed.

Lemma failClosed_run inputs blocker d :
  wp (failClosed inputs blocker) (handle_post inputs d) d.
Proof.
  unfold failClosed. wp_steps. apply wp_audit; [done..|by intros; apply handle_err|].
  intros e He Hn. wp_steps. apply wp_advance; [by intros; apply handle_err|].
  intros r n Hr Hs. wp_steps. split; [by left|]. split; [by right; exists blocker|]. exists e, r, n. simpl.
  rewrite (au_operation _ _ He), (au_agent _ _ He), (au_verdict _ _ He), (au_outcome _ _ He).
  by split_and!.
Qed.

(** The end of [conclude]: the request moves, and the answer is [handled] when the
    event and the row of the verdict are. *)
Lemma concluded_run inputs out rec e item issued next type_ outcome d d2 :
  let result := Decision.Decide (input out) in
  resolved_in p inputs d out -> decision_for inputs out result rec ->
  gained (decisions d) (decisions d2) (Decision.ID rec) rec ->
  audit_of (concluded_event (in_Request inputs) out rec type_ outcome) e ->
  gained (events d) (events d2) (Ledger.ID e) e ->
  requests d2 = requests d -> memories d2 = memories d ->
  next = next_status (Decision.Verdict result) ->
  (leases d2 = leases d \/ lease_after_audit inputs d d2) ->
  (forall r d', leases d' = leases d2 -> approvals d' = approvals d2 ->
     let res := {| res_Request := r; res_Decision := Some rec; res_Outcome := result;
                   res_Approval := item; res_Lease := issued |} in
     if Decision.Verdict result ==? Decision.VerdictDeny then
       leases d' = leases d /\ approvals d' = approvals d /\ issued = None /\ item = None /\ outcome = Ledger.OutcomeBlocked
     else if Decision.Verdict result ==? Decision.VerdictRequireApproval then
       leases d' = leases d /\ issued = None /\ outcome = Ledger.OutcomeBlocked /\
       exists a, item = Some a /\ asked d d' res a
     else approvals d' = approvals d /\ item = None /\ type_ = Ledger.EventAutoAllowed /\
       outcome = Ledger.OutcomeSucceeded /\ exists l, issued = Some l /\ leased inputs d d' res l) ->
  wp (advance (in_Request inputs) next) (fun r d' => match r with
    | Ok advanced => wp (mret {| res_Request := advanced; res_Decision := Some rec; res_Outcome := result;
                                 res_Approval := item; res_Lease := issued |}) (handle_post inputs d) d'
    | Err c => handle_post inputs d (Err c) d'
    end) d2.
Proof.
  intros result Hout Hrec Hgd He Hge Hrq Hmm -> Hla Hrow.
  apply wp_advance; [by intros; split; [|done]|]. intros r n Hr Hs. wp_steps.
  split; [exact Hla|]. split; [by left; exists out, rec|]. exists e, r, n. cbn [res_Outcome res_Decision res_Request].
  rewrite (au_operation _ _ He), (au_agent _ _ He), (au_verdict _ _ He), (au_outcome _ _ He), (au_type _ _ He),
    (au_decision _ _ He). simpl. rewrite (de_verdict _ _ _ _ Hrec), <- Hrq. split_and!; try done.
  { intros ? [= <-]. by split; [apply (de_verdict _ _ _ _ Hrec)|]. }
  exact (Hrow (Request.advanced r _ (clock_at n)) (put (<[_ := _]> (requests d2)) d2) eq_refl eq_refl).
Qed.

Lemma conclude_run inputs out d :
  resolved_in p inputs d out ->
  wp (conclude p inputs out (Decision.Decide (input out))) (handle_post inputs d) d.
Proof.
  intros Hout. unfold conclude. wp_steps. apply wp_recordDecision; [by intros; apply handle_err|].
  intros rec Hrec Hnew Huniq. wp_steps.
  destruct (_ ==? Decision.VerdictDeny) eqn:Hd; [|destruct (_ ==? Decision.VerdictRequireApproval) eqn:Hq].
  - wp_steps. apply wp_write; [by intros; apply handle_err|]. intros e He Hn. wp_steps.
    eapply concluded_run; try done; [by unfold next_status; rewrite Hd|by left|].
    intros r d' Hl Ha. cbv zeta. rewrite Hd. by split_and!.
  - wp_steps. apply wp_write; [by intros; apply handle_err|]. intros e He Hn. wp_steps.
    apply wp_Open; [by intros; apply handle_err|..].
    + intros i a Ha Had. wp_steps.
      eapply concluded_run; try done; [by unfold next_status; rewrite Hd, Hq|by left|].
      intros r d' Hl Hap. cbv zeta. rewrite Hd, Hq. split_and!; try done. exists a. split; [done|].
      split; [by exists rec|]. left. split; [done|by exists i].
    + intros a Ha Had Hst. wp_steps.
      eapply concluded_run; try done; [by unfold next_status; rewrite Hd, Hq|by left|].
      intros r d' Hl Hap. cbv zeta. rewrite Hd, Hq. split_and!; try done. exists a. split; [done|].
      split; [by exists rec|]. right. by rewrite Hap.
  - assert (Hv : Decision.Verdict (Decision.Decide (input out)) = Decision.VerdictAutoAllow).
    { destruct (Decide_verdicts (input out)) as [Hv|[Hv|Hv]]; rewrite Hv in *; done. }
    unfold issue. wp_steps. apply wp_write; [by intros; apply handle_err|]. intros e He Hn. wp_steps.
    destruct (_ !=? "") eqn:Em.
    + unfold Lease.Manager.ByID. eapply wp_mono; [apply Lease.LeaseByID_law|].
      intros [l|c] d' [-> Hl]; [|by apply handle_err]. wp_steps.
      eapply concluded_run; try done; [by unfold next_status; rewrite Hd, Hq|by left|].
      intros r d' Hl' Hap. cbv zeta. rewrite Hd, Hq. split_and!; try done. exists l. split; [done|].
      unfold leased. cbn [res_Outcome]. apply negb_true_iff in Em. by rewrite Em.
    + unfold issueLease. apply Lease.wp_Issue; [by intros; apply handle_err|].
      intros id n encoded l Hval Hexp Henc Hln _. cbn [Lease.Granted] in Hval, Hexp, Henc.
      unfold Lease.encodeGrant in Henc. rewrite (de_scope _ _ _ _ Hrec) in Henc. injection Henc as <-.
      set (d2 := put _ _). assert (Hla : lease_after_audit inputs d d2).
      { exists e, rec, id, (Lease.stored l). simpl.
        rewrite (au_operation _ _ He), (au_type _ _ He), (au_decision _ _ He).
        rewrite (de_verdict _ _ _ _ Hrec), Hv, (de_request _ _ _ _ Hrec).
        rewrite (rf_agent _ _ _ (ri_for _ _ _ _ Hout)). by split_and!. }
      destruct (Lease.toLease (Lease.stored l)) as [l'|c] eqn:Hto; [|by split; [right|]].
      assert (l' = Lease.stored l) as ->.
      { rewrite Lease.toLease_readable in Hto. destruct (Lease.readable _); by simplify_eq. }
      wp_steps. eapply concluded_run; try done; [by unfold next_status; rewrite Hd, Hq|by right|].
      intros r d' Hl' Hap. cbv zeta. rewrite Hd, Hq. split_and!; try done. eexists. split; [done|].
      unfold leased. cbn [res_Outcome res_Decision]. apply negb_false_iff in Em. rewrite Em, Hl'.
      exists rec, id. simpl. rewrite (rf_agent _ _ _ (ri_for _ _ _ _ Hout)). by split_and!.
Qed.

Lemma handle_run inputs d : wp (Handle p inputs) (handle_post inputs d) d.
Proof.
  unfold Handle. wp_steps. destruct (_ || _); [by apply handle_err|]. wp_steps.
  apply wp_resolve.
  - intros blocker. apply failClosed_run.
  - intros out Hout. apply conclude_run, Hout.
Qed.

(** The lease of an allowance is the agent's own and reaches as far as what the
    call was understood as: it is for exactly that scope, or covers it. *)
Definition lease_for (inputs : Inputs) (l : Lease.Lease) : Prop :=
  Lease.AgentID l = Request.AgentID (in_Request inputs) /\
  exists parsed s, Intent.Resolve (intents p) (in_Catalog inputs) (in_Call inputs) = Ok parsed /\
    Scope.AgentID s = Request.AgentID (in_Request inputs) /\
    Scope.WorkspaceID s = Request.WorkspaceID (in_Request inputs) /\
    Scope.Service s = Intent.Service parsed /\ Scope.Operation s = Intent.Operation parsed /\
    (Scope.marshal s = Some (Lease.ResourceScope l) \/
     exists granted, Lease.ScopeOf l = Ok granted /\ Scope.CoversIgnoringWindow granted s = true).

Lemma matched_lease_covers i :
  Decision.MatchedLeaseID (Decision.Decide i) <> "" -> exists l, l ∈ Decision.Active i /\
    Decision.LeaseID l = Decision.MatchedLeaseID (Decision.Decide i) /\
    Scope.CoversIgnoringWindow (Decision.l_Scope l) (Scope.r_Scope (Decision.i_Scope i)) = true.
Proof.
  rewrite Decision.Decide_eq. destruct (Decision.blocked i); [done|].
  destruct (Forbidden.classifyForbidden _ _); [done|].
  assert (forall verdict reason, Decision.MatchedLeaseID (Decision.conclude i verdict reason) <> "" -> exists l,
    l ∈ Decision.Active i /\ Decision.LeaseID l = Decision.MatchedLeaseID (Decision.conclude i verdict reason) /\
    Scope.CoversIgnoringWindow (Decision.l_Scope l) (Scope.r_Scope (Decision.i_Scope i)) = true) as Hc.
  { intros verdict reason. unfold Decision.conclude. cbn [Decision.MatchedLeaseID].
    destruct (reason ==? _); [|done]. unfold Decision.matchedLease.
    destruct (find_first _ (Decision.Active i)) as [l|] eqn:El; [|done]. intros _.
    apply find_first_Some in El as [Hin Hcov]. by exists l. }
  destruct (Decision.asked_first i); [apply Hc|]. destruct (Decision.allowed_by i); apply Hc.
Qed.

Lemma conclude_lease inputs out d :
  resolved_in p inputs d out -> (forall id l, leases d !! id = Some l -> Lease.ID l = id) ->
  wp (conclude p inputs out (Decision.Decide (input out))) (fun r _ => forall res l,
    r = Ok res -> res_Lease res = Some l -> lease_for inputs l) d.
Proof.
  intros [Hf (parsed & Hp & Hsv & Hop) Hact] Hk. unfold conclude. wp_steps. apply wp_recordDecision; [done|].
  intros rec Hrec _ _. wp_steps. destruct (_ ==? Decision.VerdictDeny); [|destruct (_ ==? Decision.VerdictRequireApproval)].
  - wp_steps. apply wp_write; [done|]. intros e _ _. wp_steps. apply wp_advance; [done|]. intros r n _ _. wp_steps.
    by intros res l [= <-].
  - wp_steps. apply wp_write; [done|]. intros e _ _. wp_steps.
    apply wp_Open; [done|..]; intros; wp_steps; (apply wp_advance; [done|]; intros r n _ _; wp_steps; by intros res l [= <-]).
  - unfold issue. wp_steps. apply wp_write; [done|]. intros e _ _. wp_steps.
    destruct (_ !=? "") eqn:Em.
    + unfold Lease.Manager.ByID. eapply wp_mono; [apply Lease.LeaseByID_law|].
      intros [l|c] d' [-> Hl]; [|done]. wp_steps. apply wp_advance; [done|]. intros r n _ _. wp_steps.
      intros res l' [= <-] [= <-]. bools. destruct (matched_lease_covers _ Em) as (a & Hin & Hid & Hcov).
      destruct (Hact a Hin) as (i & x & Hx & Hxid & Hsc & Hag). pose proof (Hk _ _ Hx) as Hi. cbn in Hl.
      assert (x = l) as -> by congruence. split; [done|]. exists parsed, (Scope.r_Scope (scope out)).
      rewrite (rf_agent _ _ _ Hf), (rf_workspace _ _ _ Hf). rewrite (rf_scope _ _ _ Hf) in Hcov.
      split_and!; try done. right. by exists (Decision.l_Scope a).
    + unfold issueLease. apply Lease.wp_Issue; [done|]. intros id n encoded l _ _ Henc _ _.
      rewrite Lease.toLease_readable. destruct (Lease.readable _); [|done]. wp_steps. apply wp_advance; [done|].
      intros r k _ _. wp_steps. intros res l' [= <-] [= <-]. split; [apply (rf_agent _ _ _ Hf)|].
      exists parsed, (Scope.r_Scope (scope out)). rewrite (rf_agent _ _ _ Hf), (rf_workspace _ _ _ Hf).
      split_and!; try done. left. unfold Lease.encodeGrant in Henc. cbn [Lease.Granted] in Henc. cbn.
      destruct (Scope.marshal _); by simplify_eq.
Qed.

Lemma handle_lease inputs d :
  (forall id l, leases d !! id = Some l -> Lease.ID l = id) ->
  wp (Handle p inputs) (fun r _ => forall res l, r = Ok res -> res_Lease res = Some l -> lease_for inputs l) d.
Proof.
  intros Hk. unfold Handle. wp_steps. destruct (_ || _); [done|]. wp_steps. apply wp_resolve.
  - intros blocker. unfold failClosed. wp_steps. apply wp_audit; [done..|]. intros e _ _. wp_steps.
    apply wp_advance; [done|]. intros r n _ _. wp_steps. by intros res l [= <-].
  - intros out Hout. by apply conclude_lease.
Qed.
End run.

(** ** A person's answer *)

(** The checks of a settlement, with the level and the requirement the decision
    recorded. *)
Definition settle_request (p : Options) (input : SettleInput) (rec : Decision.Decision)
    : Approval.SettleRequest :=
  {| Approval.s_ApprovalID := si_ApprovalID input; Approval.s_Action := si_Action input;
     Approval.s_RiskLevel := Decision.RiskLevel rec;
     Approval.StrongAuthCompleted := StrongAuthCompleted input;
     Approval.Requirement := Decision.d_ApprovalRequirement rec;
     Approval.RequiredConfirmations :=
       Decision.RequiredConfirmations (mode p) (Decision.RiskLevel rec);
     Approval.s_Confirmations := si_Confirmations input |}.

(** The lease table gained one lease: a pending item was approved by an action
    that allows, with what the decision's level requires, the ledger gained the
    event that says so, no other lease is for that item, and the lease is the
    decision's scope. *)
Definition lease_after_confirmation `{Unicode} (p : Options) (input : SettleInput) (d d' : DB) : Prop :=
  exists e rec a c granted id l,
    approvals d !! si_ApprovalID input = Some a /\ Approval.Status a = Approval.StatusPending /\
    decisions d !! Approval.DecisionID a = Some rec /\
    Approval.permitted (settle_request p input rec) c /\ Approval.Allowed c = true /\
    gained (events d) (events d') (Ledger.ID e) e /\
    Ledger.Type_ e = Ledger.EventUserAllowed /\ Ledger.ApprovalID e = Approval.ID a /\
    Ledger.DecisionID e = Decision.ID rec /\
    gained (leases d) (leases d') id l /\
    Lease.ApprovalID l = Approval.ID a /\ Lease.IsSessionBound l = Approval.SessionBound c /\
    (forall i l', leases d !! i = Some l' -> Lease.ApprovalID l' = Approval.ID a -> Approval.ID a = "") /\
    decodeScope (Decision.ResolvedScope rec) = Ok granted /\
    Lease.AgentID l = Scope.AgentID granted /\ Lease.IdentityID l = Scope.IdentityID granted /\
    Lease.ExpiresAt l = column (Scope.ExpiresAt granted) /\ Lease.Status l = Lease.StatusActive /\
    Lease.RequestLimit l = optionalCount (if 0 <? Approval.RequestLimit c then Approval.RequestLimit c
                                          else Scope.RequestLimit granted).

(** A repeated answer: the item was settled by this very action before, nothing
    changes, and an action that allows returns the lease issued for the item. *)
Definition repeated (input : SettleInput) (d d' : DB) (a : Approval.Approval)
    (request : Request.CapabilityRequest) (res : SettleResult) : Prop :=
  d' = d /\ sr_Approval res = a /\ Approval.Action a = si_Action input /\
  Approval.Status a <> Approval.StatusPending /\ Approval.Status a <> Approval.StatusExpired /\
  sr_Request res = request /\ sr_Memory res = None /\
  if Approval.Allows (si_Action input) then exists i l, sr_Lease res = Some l /\
    leases d !! i = Some l /\ Lease.ApprovalID l = Approval.ID a
  else sr_Lease res = None.

(** A first answer: the pending item is settled by the action, the ledger gains the
    event of it, the stored request moves, and an action that allows adds the one
    lease of the item; a memory comes of an action that says so only. *)
Definition answered `{Env} (input : SettleInput) (d d' : DB) (a : Approval.Approval)
    (rec : Decision.Decision) (request : Request.CapabilityRequest) (c : Approval.Consequence)
    (res : SettleResult) : Prop :=
  let allows := Approval.Allows (si_Action input) in
  exists e r n k,
    Approval.Status a = Approval.StatusPending /\
    sr_Approval res = Approval.settled a (si_Action input)
      (if allows then Approval.StatusApproved else Approval.StatusRejected) (clock_at n) /\
    approvals d' = <[si_ApprovalID input := sr_Approval res]> (approvals d) /\
    gained (events d) (events d') (Ledger.ID e) e /\
    Ledger.OperationID e = Request.OperationID request /\
    Ledger.ApprovalID e = Approval.ID a /\ Ledger.DecisionID e = Decision.ID rec /\
    Ledger.Type_ e = (if allows then Ledger.EventUserAllowed else Ledger.EventDenied) /\
    Ledger.Outcome e = (if allows then Ledger.OutcomeSucceeded else Ledger.OutcomeBlocked) /\
    requests d !! Request.ID request = Some r /\ Request.Status r = Request.Status request /\
    sr_Request res = Request.advanced r
      (if allows then Request.StatusApproved else Request.StatusRejected) (clock_at k) /\
    requests d' = <[Request.ID request := sr_Request res]> (requests d) /\
    decisions d' = decisions d /\
    if allows then exists id l, sr_Lease res = Some l /\ gained (leases d) (leases d') id l /\
                     Lease.ApprovalID l = Approval.ID a /\ Lease.Status l = Lease.StatusActive /\
                     if Approval.Learn c ==? "" then sr_Memory res = None /\ memories d' = memories d
                     else is_Some (sr_Memory res)
    else sr_Lease res = None /\ sr_Memory res = None /\ leases d' = leases d /\ memories d' = memories d.

(** A settlement that went through: of the item that was asked for, with the
    decision and the request the item belongs to, by an action that decision's
    level offers to somebody who gave what it requires. *)
Definition settled_ok `{Env} (p : Options) (input : SettleInput) (d d' : DB) (res : SettleResult) : Prop :=
  exists a rec request c,
    approvals d !! si_ApprovalID input = Some a /\
    decisions d !! Approval.DecisionID a = Some rec /\ sr_Decision res = rec /\
    requests d !! Decision.CapabilityRequestID rec = Some request /\
    Approval.permitted (settle_request p input rec) c /\
    if sr_Replayed res then repeated input d d' a request res
    else answered input d d' a rec request c res.

Section settle_run.
Context `{Env} `{Unicode} `{Intent.Floats} (p : Options).
Implicit Types d : DB.

Definition settle_post (input : SettleInput) (d : DB) (r : result Code SettleResult) (d' : DB) : Prop :=
  (leases d' = leases d \/ lease_after_confirmation p input d d') /\
  match r with Ok res => settled_ok p input d d' res | Err _ => True end.

Lemma settle_err input d c d' : leases d' = leases d -> settle_post input d (Err c) d'.
Proof. by split; [left|]. Qed.

Lemma wp_recordSettlement request rec granted approvalID type_ outcome
    (Q : result Code unit -> DB -> Prop) d :
  (forall c, Q (Err c) d) ->
  (forall e, audit_of (settled_event request rec granted approvalID type_ outcome) e ->
    events d !! Ledger.ID e = None ->
    Q (Ok ()) (put (<[Ledger.ID e := e]> (events d)) d)) ->
  wp (recordSettlement request rec granted approvalID type_ outcome) Q d.
Proof.
  intros Herr Hok. unfold recordSettlement. wp_steps. apply wp_audit; [done..|].
  intros e He Hn. wp_steps. by apply Hok.
Qed.

(** Learning touches the memories only, and only for an action that learns. *)
Lemma wp_learn rec granted s (Q : result Code (option Trust.Memory) -> DB -> Prop) d :
  (forall x (t : Trust.table), Q (Err x) (put t d)) ->
  (Approval.Learn (Approval.s_Consequence s) = "" -> Q (Ok None) d) ->
  (Approval.Learn (Approval.s_Consequence s) <> "" -> forall m (t : Trust.table), Q (Ok (Some m)) (put t d)) ->
  wp (learn rec granted s) Q d.
Proof.
  intros Herr Hnone Hsome. unfold learn. case_bool_decide; [by wp_steps; apply Hnone|].
  wp_steps. eapply wp_mono; [apply Trust.Generate_moves|].
  intros [m|c] d' (t & _ & ->); [wp_steps; by apply Hsome|apply Herr].
Qed.

Lemma wp_checkWindow action rec (Q : result Code unit -> DB -> Prop) d :
  (forall c, Q (Err c) d) -> Q (Ok ()) d -> wp (checkWindow action rec) Q d.
Proof.
  intros Herr Hok. unfold checkWindow. destruct (Approval.Allows action); [|by wp_steps].
  wp_steps. destruct (decodeScope _); [|apply Herr]. wp_steps. destruct (negb _); [apply Herr|done].
Qed.

Lemma wp_replayed input rec request a c d :
  approvals d !! si_ApprovalID input = Some a -> decisions d !! Approval.DecisionID a = Some rec ->
  requests d !! Decision.CapabilityRequestID rec = Some request ->
  Approval.permitted (settle_request p input rec) c -> Approval.Action a = si_Action input ->
  Approval.Status a <> Approval.StatusPending -> Approval.Status a <> Approval.StatusExpired ->
  wp (replayed rec request
        {| Approval.s_Approval := a; Approval.s_Consequence := c; Approval.Replayed := true |})
     (settle_post input d) d.
Proof.
  intros Ha Hrec Hreq Hc Hact Hp Hx.
  assert (Hal : Approval.Allows (si_Action input) = Approval.Allowed c).
  { unfold Approval.Allows. by rewrite (Approval.pe_known _ _ Hc : Approval.consequence_of (si_Action input) = Some c). }
  assert (Hrow : forall issued,
    (if Approval.Allows (si_Action input) then exists i l, issued = Some l /\ leases d !! i = Some l /\
        Lease.ApprovalID l = Approval.ID a else issued = None) ->
    settle_post input d (Ok {| sr_Approval := a; sr_Decision := rec; sr_Request := request;
      sr_Lease := issued; sr_Memory := None; sr_Replayed := true |}) d).
  { intros issued Hi. split; [by left|]. exists a, rec, request, c. by split_and!. }
  unfold replayed. cbn [Approval.s_Approval Approval.s_Consequence].
  destruct (Approval.Allowed c) eqn:Hac; cbn [negb].
  - wp_steps. eapply wp_mono; [apply Lease.LeaseByApprovalID_law|]. intros [l|x] d' [-> Hl]; [|by apply settle_err].
    wp_steps. apply Hrow. rewrite Hal. destruct Hl as ([i Hi] & Hla & _). by exists i, l.
  - wp_steps. apply Hrow. by rewrite Hal.
Qed.

Lemma applySettlement_run input rec request a c n d :
  let item := Approval.settled a (si_Action input)
    (if Approval.Allowed c then Approval.StatusApproved else Approval.StatusRejected) (clock_at n) in
  approvals d !! si_ApprovalID input = Some a -> Approval.Status a = Approval.StatusPending ->
  decisions d !! Approval.DecisionID a = Some rec ->
  requests d !! Decision.CapabilityRequestID rec = Some request ->
  Approval.permitted (settle_request p input rec) c ->
  wp (applySettlement rec request
        {| Approval.s_Approval := item; Approval.s_Consequence := c; Approval.Replayed := false |})
     (settle_post input d) (put (<[si_ApprovalID input := item]> (approvals d)) d).
Proof.
  intros item Ha Hp Hrec Hreq Hc. unfold applySettlement. wp_steps. cbn [Approval.s_Approval Approval.s_Consequence].
  assert (Hal : Approval.Allows (si_Action input) = Approval.Allowed c).
  { unfold Approval.Allows. by rewrite (Approval.pe_known _ _ Hc : Approval.consequence_of (si_Action input) = Some c). }
  destruct (decodeScope _) as [granted|] eqn:Hg; [|by apply settle_err]. wp_steps.
  destruct (Approval.Allowed c) eqn:Hac; cbn [negb].
  - unfold grant. wp_steps. apply wp_recordSettlement; [by intros; apply settle_err|].
    intros e He Hn. wp_steps. unfold issueLease. apply Lease.wp_Issue; [by intros; apply settle_err|].
    intros id k encoded l Hval Hexp Henc Hln Hun. cbn [Lease.i_ApprovalID Approval.s_Approval] in Hun.
    set (d2 := put _ _). assert (Hla : lease_after_confirmation p input d d2).
    { exists e, rec, a, c, granted, id, (Lease.stored l). simpl in Hln.
      assert (Hsub : Lease.AgentID l = Scope.AgentID granted /\ Lease.IdentityID l = Scope.IdentityID granted /\
        Lease.ExpiresAt l = Scope.ExpiresAt granted /\
        Lease.RequestLimit l = (if 0 <? Approval.RequestLimit c then Approval.RequestLimit c
                                else Scope.RequestLimit granted) /\
        Lease.ApprovalID l = Approval.ID a /\ Lease.IsSessionBound l = Approval.SessionBound c /\
        Lease.Status l = Lease.StatusActive)
        by (subst l; simpl; by destruct (0 <? _)).
      subst d2. clearbody l. destruct Hsub as (Hs1 & Hs2 & Hs3 & Hs4 & Hs5 & Hs6 & Hs7).
      rewrite (au_type _ _ He), (au_approval _ _ He), (au_decision _ _ He). simpl.
      rewrite Hs1, Hs2, Hs3, Hs4, Hs5, Hs6, Hs7. split_and!; try done. }
    destruct (Lease.toLease (Lease.stored l)) as [l'|x] eqn:Hto; [|by split; [right|]].
    assert (l' = Lease.stored l) as ->.
    { rewrite Lease.toLease_readable in Hto. destruct (Lease.readable _); by simplify_eq. }
    assert (Hend : forall memory (t : Trust.table) r j,
      (if Approval.Learn c ==? "" then memory = None /\ t = memories d else is_Some memory) ->
      requests d !! Request.ID request = Some r -> Request.Status r = Request.Status request ->
      let r' := Request.advanced r Request.StatusApproved (clock_at j) in
      settle_post input d (Ok {| sr_Approval := item; sr_Decision := rec; sr_Request := r';
        sr_Lease := Some (Lease.stored l); sr_Memory := memory; sr_Replayed := false |})
        (put (<[Request.ID request := r']> (requests d)) (put t d2))).
    { intros memory t r j Hm Hr Hs r'. split; [by right|]. exists a, rec, request, c. split_and!; try done.
      exists e, r, n, j. rewrite Hal.
      rewrite (au_type _ _ He), (au_approval _ _ He), (au_operation _ _ He), (au_decision _ _ He), (au_outcome _ _ He).
      split_and!; try done. by exists id, (Lease.stored l). }
    wp_steps. apply wp_learn; [by intros; split; [right|]|..].
    + intros Hl. wp_steps. apply wp_advance; [by intros; split; [right|]|]. intros r j Hr Hs. wp_steps.
      apply (Hend None (memories d)); [|done..]. by cbn in Hl; rewrite Hl.
    + intros Hl m t. wp_steps. apply wp_advance; [by intros; split; [right|]|]. intros r j Hr Hs. wp_steps.
      apply (Hend (Some m) t); [|done..]. cbn in Hl. by rewrite bool_decide_eq_false_2.
  - wp_steps. apply wp_recordSettlement; [by intros; apply settle_err|].
    intros e He Hn. wp_steps. apply wp_advance; [by intros; apply settle_err|]. intros r j Hr Hs.
    wp_steps. split; [by left|]. exists a, rec, request, c. split_and!; try done. exists e, r, n, j. rewrite Hal.
    rewrite (au_type _ _ He), (au_approval _ _ He), (au_operation _ _ He), (au_decision _ _ He), (au_outcome _ _ He).
    by split_and!.
Qed.

Lemma settle_run input d : wp (SettleApproval p input) (settle_post input d) d.
Proof.
  unfold SettleApproval, Approval.Manager.ByID. wp_steps.
  eapply wp_mono; [apply Approval.ApprovalByID_law|]. intros [item|c] d' [-> Hitem]; [|by apply settle_err].
  wp_steps. apply wp_DecisionByID; [by intros; apply settle_err..|]. intros rec Hrec. wp_steps.
  apply wp_RequestByID; [by intros; apply settle_err..|]. intros request Hreq. wp_steps.
  apply wp_checkWindow; [by intros; apply settle_err|]. wp_steps.
  apply Approval.wp_Settle; [by intros; apply settle_err|..].
  - intros c a Hc Ha Hact Hx Hp. wp_steps. cbn [Approval.Replayed].
    assert (a = item) as -> by (simpl in *; congruence).
    by apply wp_replayed.
  - intros c a n Hc Ha Hp. wp_steps. cbn [Approval.Replayed].
    assert (a = item) as -> by (simpl in *; congruence).
    by apply applySettlement_run.
Qed.
End settle_run.

(** ** Properties *)

(** C2. Handling a request, on every branch. The outcome is the engine's on what
    the first half resolved for this very request from this database, and the
    decisions gained the one row that records it; or it is a fail-closed refusal,
    and no decision was recorded. The ledger gains exactly one event, which carries
    the request's operation identifier, its agent, the verdict and the decision
    that was recorded; the stored request moves from the status the caller saw to
    the one the verdict says; no memory changes. A refusal leaves the leases and
    the approvals as they are. A question issues nothing and returns an item of the
    recorded decision, the one there was or the only one added, which then waits. An
    allowance asks nobody and returns the standing lease the outcome matched, the
    table of leases unchanged; or, when none matched, the only lease added, unused,
    for the agent of the request and the scope of the recorded decision. When every
    lease of the table is stored under its own identifier, the lease returned is
    the agent's own, and is for exactly what the call was understood as, or covers it. *)
Theorem handle_outcome `{Env} `{Unicode} `{Intent.Floats} (p : Options) inputs (d : DB) :
  wp (Handle p inputs) (fun r d' =>
    match r with
    | Ok res => handled p inputs d d' res /\
        ((forall id l, leases d !! id = Some l -> Lease.ID l = id) ->
         forall l, res_Lease res = Some l -> lease_for p inputs l)
    | Err _ => leases d' = leases d \/ lease_after_audit inputs d d'
    end) d.
Proof.
  intros w Hw. pose proof (handle_run p inputs d w Hw) as Hr.
  assert (forall Hk, _) as Hl by (intros Hk; exact (handle_lease p inputs d Hk w Hw)).
  destruct (Handle p inputs w) as [[res|c] w']; destruct Hr as [Hla Hh]; [|done].
  split; [done|]. intros Hk l. by apply (Hl Hk).
Qed.

(** C3. Audit comes first: however a run of [Handle] ends - with an answer, with
    an error, half way through because a statement failed - the lease table is as
    it was, or it gained one lease, and then the ledger already holds the event
    that allowed it, for a decision of this run whose verdict is to allow and
    whose scope is the lease's, for the agent of the request. *)
Theorem handle_audits_first `{Env} `{Unicode} `{Intent.Floats} (p : Options) inputs (w : World DB) :
  let w' := (Handle p inputs w).2 in
  leases (db w') = leases (db w) \/ lease_after_audit inputs (db w) (db w').
Proof. cbv zeta. by destruct (handle_run p inputs (db w) w eq_refl). Qed.

(** C24. A confirmation put into effect. If it goes through, it is of the stored
    item that was asked for, with the decision and the request the item belongs to,
    and by an action that the decision's level offers, given what the decision
    requires. Either it repeats: the item was settled by the very same action
    before, nothing changes, and the answer has the lease issued for the item, or
    none if the action refuses. Or the item was pending: it becomes settled by this
    action, and no other item changes; the ledger gains one event, of this item and
    this decision; the stored request moves from the status it had to approved or
    rejected, and no other request changes; and the table of leases gains one active
    lease for the item, the one returned, a memory being learned only by an
    action that says so - or, if the action refuses, leases and memories stay as
    they are. *)
Theorem settle_approval_outcome `{Env} `{Unicode} `{Intent.Floats} (p : Options) input (d : DB) :
  wp (SettleApproval p input) (fun r d' =>
    match r with
    | Ok res => settled_ok p input d d' res
    | Err _ => leases d' = leases d \/ lease_after_confirmation p input d d'
    end) d.
Proof. eapply wp_mono; [apply settle_run|]. intros [res|c] d' [Hl Hr]; done. Qed.

(** C4. No lease without a person: however a run of [SettleApproval] ends, the
    lease table is as it was, or it gained one lease, and then the item was
    pending, the action is one that allows and that the decision's risk level
    offers, the strong authentication and the confirmations the decision asked
    for were given, the ledger holds the event that says the user allowed it, no
    other lease is for this item, and the lease is the scope of the decision
    under the limit of the action. *)
Theorem settle_needs_confirmation `{Env} `{Unicode} `{Intent.Floats} (p : Options) input (w : World DB) :
  let w' := (SettleApproval p input w).2 in
  leases (db w') = leases (db w) \/ lease_after_confirmation p input (db w) (db w').
Proof. cbv zeta. by destruct (settle_run p input (db w) w eq_refl). Qed.
