(* ===== verification/Orchestration.v ===== *)
(** * orchestration: from a stored request to the decision (declare.go, submissions.go)

    [EnsureDeclared] writes the compiled declaration of a service into the table
    when the user connects it. [Decide] collects what the chain needs - the
    declarations, the identities, the agent and its device - runs it, and then,
    only for a request that waits for a person, looks up the values it would
    change. Announcements to an open console and log lines are left out: neither
    returns anything. *)
From S2P Require Import Prelude GoStr Apperr.
From S2P Require Json.
From S2P Require Import World Store Machine.
From S2P Require Registry Agent Matcher Intent Declare Scope Decision Adapters Request Approval Lease.
From S2P Require Import Outbound Response Execute Exchange.
From S2P Require AdapterStore IdentityStore RequestStore.
From S2P Require Import Pipeline PipelineSpec.
Open Scope Z_scope.

Definition maxServiceIdentities : Z := 200.
Definition maxDeclarations : Z := 200.

(** ** Connecting a service *)

Section declarer.
Context `{Env} `{Unicode} (registry : Adapters.Registry).

Definition declare (service : string) : M DB Code Registry.Declaration :=
  adapter ← of_result (Adapters.adapter_of registry service);
  let declared := Adapters.Capabilities adapter in
  capabilities ← of_result (Declare.EncodeCapabilities service declared);
  id ← NewID;
  now ← Now;
  mret {| Registry.d_ID := id; Registry.d_Service := service; Registry.d_Kind := Adapters.Kind adapter;
          Registry.d_DisplayName := service; Registry.d_BaseURL := Adapters.BaseURL adapter;
          Registry.d_AuthScheme := Adapters.AuthScheme adapter; Registry.d_Capabilities := capabilities;
          Registry.d_AllowedPaths := Declare.EncodePaths declared;
          Registry.d_AllowedMethods := Declare.EncodeMethods declared;
          Registry.d_RedactionRules := Declare.EncodeRedactionRules declared;
          Registry.d_DefaultRiskLevel := Declare.DefaultRiskOf declared;
          Registry.d_Status := Registry.StatusEnabled; Registry.d_CreatedAt := now; Registry.d_UpdatedAt := now |}.

Definition EnsureDeclared (service : string) : M DB Code unit :=
  stored ← try_ (AdapterStore.DeclarationByService service);
  match stored with
  | Ok _ => mret tt
  | Err e =>
      _ ← refuse (e !=? CodeNotFound) e;
      declaration ← declare service;
      created ← try_ (AdapterStore.CreateDeclaration declaration);
      match created with
      | Ok _ => mret tt
      | Err e => refuse (e !=? CodeConflict) e
      end
  end.
End declarer.

(** ** Deciding *)

(** The resource of a stored scope; nothing when it cannot be read. *)
Definition scopeResource `{Unicode} (resolved : string) : gmap string string :=
  default ∅ (v ← Json.parse resolved; Json.decode_struct [("resource", fun v m => Scope.as_resource m v)] v ∅).

Definition soleEnvironment (identities : list Matcher.Identity) : string :=
  match identities with [identity] => Matcher.Environment identity | _ => "" end.

Definition factsOf (capability : option Registry.Capability) : OperationFacts :=
  match capability with
  | None => {| Destructive := false; PermissionChange := false; SecretAccess := false; Billing := false;
               ExternalCommunication := false; ResourceCount := 0 |}
  | Some c =>
      let nature := Registry.c_Nature c in
      {| Destructive := Registry.Destructive nature; PermissionChange := Registry.PermissionChange nature;
         SecretAccess := Registry.SecretAccess nature; Billing := Registry.Billing nature;
         ExternalCommunication := Registry.ExternalCommunication nature; ResourceCount := 0 |}
  end.

Section submissions.
Context `{Env} `{Unicode} `{Intent.Floats} `{Credentials} (p : Options) (e : Exchange).

(** The zero value of a capability has the zero nature. *)
Definition declared_capability (request : Request.CapabilityRequest) : option Registry.Capability :=
  match Adapters.capability_of (registry e) (Request.Service request) (Request.Operation request) with
  | Ok c => Some c | Err _ => None end.

Definition inputsFor (request : Request.CapabilityRequest) : M DB Code Inputs :=
  let capability := declared_capability request in
  agent ← IdentityStore.AgentByID (Request.AgentID request);
  device ← IdentityStore.DeviceByID (Agent.DeviceID agent);
  declarations ← AdapterStore.EnabledDeclarations maxDeclarations;
  catalog ← of_result (Intent.NewCatalog declarations);
  identities ← IdentityStore.IdentitiesForService (Request.Service request) maxServiceIdentities;
  let tool := default "" (Intent.ToolFor catalog (Request.Service request) (Request.Operation request)) in
  mret {| in_Request := request;
          in_Call := {| Intent.call_Tool := tool; Intent.call_Method := ""; Intent.call_Path := "";
                        Intent.call_Resource := Request.Resource request;
                        Intent.call_DesiredChange := Request.DesiredChange request;
                        Intent.IdentityEnvironment := soleEnvironment identities |};
          in_Catalog := Some catalog; in_Identities := identities; WorkspaceBindings := [];
          ResourceBindings := []; ManualSelection := ""; AgentTrust := Agent.TrustLevel agent;
          DeviceTrust := Agent.TrustStatus device; Facts := factsOf capability; ReadOnlyAutoAllow := false;
          NewService := false; IdentityChanged := false; NewIdentity := false; NewResource := false;
          in_Blockers := match capability with Some _ => [] | None => [Decision.BlockerCapabilityNotOffered] end |}.

Definition preview_request (request : Request.CapabilityRequest) (record : Decision.Decision) : ExchangeRequest :=
  {| x_Service := Request.Service request; x_Operation := Request.Operation request;
     x_IdentityID := Decision.d_IdentityID record; x_Resource := scopeResource (Decision.ResolvedScope record);
     x_Query := []; x_Body := Request.DesiredChange request; x_OperationID := Request.OperationID request |}.

(** Every failure is logged and goes no further. *)
Definition previewChange (result : Result) : M Machine Code unit :=
  match res_Decision result with
  | None => mret tt
  | Some record =>
      if Decision.d_Verdict record !=? Decision.VerdictRequireApproval then mret tt
      else
        preview ← try_ (Preview e (preview_request (res_Request result) record));
        match preview with
        | Err _ | Ok {| pre_Changes := [] |} => mret tt
        | Ok shown =>
            now ← Now;
            _ ← try_ (in_tables (RequestStore.SaveChangePreview (Request.ID (res_Request result))
                  (Json.print (Json.JArr (map change_json (pre_Changes shown)))) Request.StatusAwaitingApproval now));
            mret tt
        end
  end.

Definition Decide (request : Request.CapabilityRequest) : M Machine Code Result :=
  inputs ← in_tables (inputsFor request);
  result ← in_tables (Handle p inputs);
  _ ← previewChange result;
  mret result.
End submissions.

(** ** What a decision sends *)

(** Nothing, or requests that read; and no plaintext stays. *)
Definition only_looks (o o' : Egress) : Prop :=
  (exists rest, boxes o' = boxes o ++ rest /\ emptied rest) /\
  exists hops, wire o' = wire o ++ hops /\ forall h, h ∈ hops -> h_Method h = "GET" /\ h_Body h = "".

Lemma only_looks_refl o : only_looks o o.
Proof.
  split; [exists []; split; [by rewrite app_nil_r|by constructor]|].
  exists []. split; [by rewrite app_nil_r|by intros h []%not_elem_of_nil].
Qed.

(** The stored preview of the request, or nothing. *)
Definition previewed_only (id : string) (t t' : DB) : Prop :=
  t' = t \/ exists x text now, requests t !! id = Some x /\ Request.Status x = Request.StatusAwaitingApproval /\
    t' = put (<[id := Request.previewed x text now]> (requests t)) t.

Section deciding.
Context `{Env} `{Unicode} `{Intent.Floats} `{CredentialsLaws} (p : Options) (e : Exchange) (site : string -> string).
Hypothesis lawful : forall service, ExecutorLaws (executors e service) (site service).

Lemma wp_SaveChangePreview id text now t :
  wp (RequestStore.SaveChangePreview id text Request.StatusAwaitingApproval now) (fun _ t' => previewed_only id t t') t.
Proof.
  unfold RequestStore.SaveChangePreview. wp_steps. apply wp_update; try by (intros; wp_steps; left).
  intros x Hx Hs _. wp_steps. right. exists x, text, now. bools. done.
Qed.

Lemma wp_previewChange result d :
  wp (previewChange e result) (fun res d' => res = Ok tt /\
    previewed_only (Request.ID (res_Request result)) (tables d) (tables d') /\
    only_looks (outside d) (outside d') /\
    (outside d' = outside d \/ exists record, res_Decision result = Some record /\
       Decision.d_Verdict record = Decision.VerdictRequireApproval)) d.
Proof.
  pose proof (only_looks_refl (outside d)) as Hrefl. assert (previewed_only (Request.ID (res_Request result)) (tables d) (tables d)) as Hkeep by by left.
  unfold previewChange. destruct (res_Decision result) as [record|]; [|by wp_steps; split_and!; auto].
  destruct (Decision.d_Verdict record !=? Decision.VerdictRequireApproval) eqn:Ev; [by wp_steps; split_and!; auto|]. bools.
  apply wp_bind, wp_try. eapply wp_mono; [by apply (wp_exchange_Preview e site lawful)|].
  intros res d1 (Ht & [Hb _] & Hh & _).
  assert (only_looks (outside d) (outside d1)) as Hlook by by split.
  assert (exists record', Some record = Some record' /\ Decision.d_Verdict record' = Decision.VerdictRequireApproval)
    as Hwait by by exists record.
  destruct res as [[[|change changes]]|c]; try (wp_steps; rewrite Ht; by split_and!; auto).
  wp_steps. apply wp_in_tables. eapply wp_mono; [apply wp_SaveChangePreview|]. intros res t' Hp. wp_steps.
  cbn. rewrite Ht in Hp. by split_and!; auto.
Qed.

(** What a resolved call is, when its tool was looked up by its operation. *)
Lemma resolved_operation r declarations catalog call service operation parsed :
  Intent.NewCatalog declarations = Ok catalog ->
  Intent.call_Tool call = default "" (Intent.ToolFor catalog service operation) -> Intent.call_Method call = "" ->
  Intent.Resolve r (Some catalog) call = Ok parsed ->
  Intent.operationKeyOf (Intent.Service parsed) (Intent.Operation parsed) = Intent.operationKeyOf service operation.
Proof.
  intros Hcat Htool Hmethod Hres. pose proof (Intent.NewCatalog_ok _ _ Hcat) as [Ht Ho Hr Hn].
  unfold Intent.Resolve in Hres. apply bind_Ok in Hres as (found & Hl & Hres).
  apply bind_Ok in Hres as ([[resource ignored] amb] & _ & Hres). destruct (Intent.resolveEnvironment _ _ _).
  apply bind_Ok in Hres as ([] & _ & Hres). injection Hres as <-. cbn [Intent.Service Intent.Operation].
  unfold Intent.lookup_call in Hl. rewrite Htool, Hmethod in Hl. unfold Intent.ToolFor in Hl.
  destruct (Intent.byOperation catalog !! Intent.operationKeyOf service operation) as [known|] eqn:Eo; cbn in Hl.
  2: { discriminate Hl. }
  destruct (Ho _ _ Eo) as [Hkey Hin]. destruct (Hr known Hin) as (Hby & _).
  destruct (_ !=? ""); [|discriminate Hl]. unfold Intent.lookupTool in Hl. rewrite Hby in Hl. by injection Hl as <-.
Qed.

(** The inputs of a request: its tool is that of its service and operation. *)
Record inputs_of (request : Request.CapabilityRequest) (inputs : Inputs) : Prop := {
  io_request : in_Request inputs = request;
  io_meant parsed : Intent.Resolve (intents p) (in_Catalog inputs) (in_Call inputs) = Ok parsed ->
    Intent.operationKeyOf (Intent.Service parsed) (Intent.Operation parsed) =
      Intent.operationKeyOf (Request.Service request) (Request.Operation request);
}.

Lemma wp_inputsFor request t :
  wp (inputsFor e request) (fun res t' => t' = t /\ forall inputs, res = Ok inputs -> inputs_of request inputs) t.
Proof.
  unfold inputsFor. wp_steps. apply IdentityStore.wp_AgentByID; [done| |done]. intros agent _ _. wp_steps.
  unfold IdentityStore.DeviceByID. wp_steps. apply wp_select; [by wp_steps| |by wp_steps]. intros device _. wp_steps.
  eapply wp_mono; [apply (wp_list_rows _ _)|]. intros [declarations|c] t' [-> _]; [|done]. wp_steps.
  destruct (Intent.NewCatalog declarations) as [catalog|] eqn:Ec; [|done]. wp_steps.
  eapply wp_mono; [apply (wp_list_rows _ _)|]. intros [identities|c] t' [-> _]; [|done]. wp_steps.
  split; [done|]. intros inputs [= <-]. split; [done|]. intros parsed. by apply (resolved_operation _ declarations).
Qed.

(** Everything a run of [Decide] does. *)
Lemma wp_Decide request d :
  wp (Decide p e request) (fun res d' => only_looks (outside d) (outside d') /\
    match res with
    | Err _ => outside d' = outside d
    | Ok result => exists inputs t,
        inputs_of request inputs /\ handled p inputs (tables d) t result /\
        ((forall id l, leases (tables d) !! id = Some l -> Lease.ID l = id) ->
         forall l, res_Lease result = Some l -> lease_for p inputs l) /\
        previewed_only (Request.ID (res_Request result)) t (tables d') /\
        (outside d' = outside d \/ exists record, res_Decision result = Some record /\
           Decision.d_Verdict record = Decision.VerdictRequireApproval)
    end) d.
Proof.
  pose proof (only_looks_refl (outside d)) as Hrefl. unfold Decide. wp_steps. apply wp_in_tables.
  eapply wp_mono; [apply wp_inputsFor|]. intros [inputs|c] t [-> Hin]; [|done]. specialize (Hin inputs eq_refl).
  wp_steps. apply wp_in_tables.
  eapply (wp_mono _ (fun r t' => handle_post p inputs (tables d) r t' /\
    ((forall id l, leases (tables d) !! id = Some l -> Lease.ID l = id) ->
     forall res l, r = Ok res -> res_Lease res = Some l -> lease_for p inputs l))).
  { apply wp_and; [apply handle_run|].
    intros w Hw. assert (forall Hk, wp (Handle p inputs) (fun r _ => forall res l, r = Ok res -> res_Lease res = Some l ->
      lease_for p inputs l) (tables d)) as Hl by (intros Hk; by apply handle_lease).
    specialize (fun Hk => Hl Hk w Hw). destruct (Handle p inputs w) as [r w']. intros Hk. exact (Hl Hk). }
  intros [result|c] t [[_ Hh] Hlease]; [|done].
  apply wp_bind. eapply wp_mono; [apply wp_previewChange|]. intros res d' (-> & Hp & Hl & Hw). apply wp_ret.
  cbn in Hp, Hl, Hw. split; [done|]. exists inputs, t. split_and!; try done. intros Hk l. by apply Hlease.
Qed.

(** What deciding does. A run that fails leaves nothing outside. One that
    succeeds returns what the chain returned and leaves its database, with at most
    the looked-up values added to the request, and only while it waits; nothing is
    sent unless the recorded decision asks a person; whatever is sent then has the
    method GET and no body, whether or not the look-up works; and every plaintext
    that was fetched for it is emptied. *)
Theorem decide_only_looks request d :
  wp (Decide p e request) (fun res d' => only_looks (outside d) (outside d') /\
    match res with
    | Err _ => outside d' = outside d
    | Ok result => exists inputs t,
        in_Request inputs = request /\ handled p inputs (tables d) t result /\
        previewed_only (Request.ID (res_Request result)) t (tables d') /\
        (outside d' = outside d \/ exists record, res_Decision result = Some record /\
           Decision.d_Verdict record = Decision.VerdictRequireApproval)
    end) d.
Proof.
  eapply wp_mono; [apply wp_Decide|]. intros [result|c] d' [Hl Hr]; [|done]. split; [done|].
  destruct Hr as (inputs & t & [Hin _] & Hh & _ & Hp & Ho). by exists inputs, t.
Qed.
End deciding.

(** ** What connecting a service writes *)

Section declaring.
Context `{Env} `{Unicode} (registry : Adapters.Registry).

(** The declaration of an adapter, as it is stored. *)
Record declares (service : string) (adapter : Adapters.Adapter) (x : Registry.Declaration) : Prop := {
  ds_service : Registry.d_Service x = service;
  ds_enabled : Registry.d_Status x = Registry.StatusEnabled;
  ds_base : Registry.d_BaseURL x = Adapters.BaseURL adapter;
  ds_kind : Registry.d_Kind x = Adapters.Kind adapter;
  ds_offers : Declare.EncodeCapabilities service (Adapters.Capabilities adapter) = Ok (Registry.d_Capabilities x);
  ds_risk : Registry.d_DefaultRiskLevel x = Declare.DefaultRiskOf (Adapters.Capabilities adapter);
}.

Lemma wp_declare service t :
  wp (declare registry service) (fun r t' => t' = t /\ forall x, r = Ok x ->
    exists adapter, Adapters.adapter_of registry service = Ok adapter /\
      declares service adapter (AdapterStore.stored_declaration x)) t.
Proof.
  unfold declare. wp_steps. destruct (Adapters.adapter_of registry service) as [adapter|] eqn:Ea; [|done]. wp_steps.
  destruct (Declare.EncodeCapabilities service (Adapters.Capabilities adapter)) as [text|] eqn:Ec; [|done]. wp_steps; [|done].
  split; [done|]. intros x [= <-]. exists adapter. split; [done|]. by split.
Qed.

(** Connecting a service writes its declaration once. A service that is
    declared already keeps the declaration it has, whatever the program now
    offers; for one that no adapter serves nothing is written and the call fails;
    otherwise at most one row is added, under a fresh identifier, for a service
    that had none, enabled, and saying exactly what the adapter offers. *)
Theorem ensure_declared service t :
  wp (EnsureDeclared registry service) (fun r t' =>
    ((exists i x, declarations t !! i = Some x /\ Registry.d_Service x = service) -> t' = t) /\
    (is_Ok (Adapters.adapter_of registry service) = false -> t' = t /\
       (r = Ok tt -> exists i x, declarations t !! i = Some x /\ Registry.d_Service x = service)) /\
    (t' = t \/ exists x adapter, Adapters.adapter_of registry service = Ok adapter /\ declares service adapter x /\
       (forall i y, declarations t !! i = Some y -> Registry.d_Service y <> service) /\
       declarations t !! Registry.d_ID x = None /\ t' = put (<[Registry.d_ID x := x]> (declarations t)) t)) t.
Proof.
  unfold EnsureDeclared, AdapterStore.DeclarationByService. wp_steps. apply wp_select_where.
  - wp_steps. split_and!; [done| |by left]. by split.
  - intros i x Hx Hs. wp_steps. bools. split_and!; [done| |by left]. split; [done|]. by exists i, x.
  - intros Hno. wp_steps.
    assert (forall i y, declarations t !! i = Some y -> Registry.d_Service y <> service) as Hnone.
    { intros i y Hy. specialize (Hno _ _ Hy). by bools. }
    assert ((exists i x, declarations t !! i = Some x /\ Registry.d_Service x = service) -> False) as Hfalse.
    { intros (i & x & Hx & Hs). by apply (Hnone i x). }
    apply wp_bind. eapply wp_mono; [apply wp_declare|]. intros [x|c] t' [-> Hx].
    2: { split_and!; [done| |by left]. by split. }
    destruct (Hx x eq_refl) as (adapter & Ha & Hd). wp_steps. unfold AdapterStore.CreateDeclaration. wp_steps.
    assert (forall r : result Code unit, ((exists i x, declarations t !! i = Some x /\ Registry.d_Service x = service) -> t = t) /\
      (is_Ok (Adapters.adapter_of registry service) = false -> t = t /\
       (r = Ok tt -> exists i x, declarations t !! i = Some x /\ Registry.d_Service x = service))) as Hkeep.
    { intros r. split; [done|]. by rewrite Ha. }
    apply (wp_insert (Registry.d_ID x) (fun _ => AdapterStore.stored_declaration x)
      (fun _ => AdapterStore.checked_declaration x)
      (fun d => absent Registry.d_Service (Registry.d_Service x) (declarations d)) (fun _ => true)).
    + intros c _ _. wp_steps. destruct (_ !=? CodeConflict); wp_steps; match goal with |- context [?r = Ok tt -> _] => destruct (Hkeep r) end;
        (split; [done|split; [done|by left]]).
    + intros _ Hn _ _. wp_steps. split_and!; [by intros []%Hfalse|by rewrite Ha|]. right.
      exists (AdapterStore.stored_declaration x), adapter. by split_and!.
Qed.
End declaring.
