(* ===== verification/ConsoleApi.v ===== *)
(** * transport/httpapi: the endpoints (capability.go, approvals.go, leases.go,
    identities.go, automation.go, ledger.go, agentsession.go, console_api.go,
    announce.go, routes.go, server.go)

    The handlers translate only: they read a request, call the core and write what
    it says. What a caller may see is decided here - an agent sees its own requests
    and leases, and none of what belongs to a person. *)
From S2P Require Import Prelude GoStr Apperr GoTime World Store Machine.
From S2P Require Json.
From S2P Require Registry Agent Intent Scope Decision Adapters Lease Trust Approval Matcher Ledger Request Settings Credential.
From S2P Require LeaseStore ApprovalStore TrustStore LedgerStore RequestStore IdentityStore SettingsStore.
From S2P Require Crypto Vault CredentialRegistry AgentAuth Exchange Pipeline Orchestration.
From S2P Require Import RawJson ConsoleViews LedgerExport Events Console.
Open Scope Z_scope.

(** ** What the endpoints work on *)

Record Backend := mkBackend {
  machine : Machine;
  safe : Vault.Safe;
  broker : Broker;
}.

#[export] Program Instance machine_lens : Lens Backend Machine := {
  view := machine;
  put m b := mkBackend m (safe b) (broker b);
}.
Next Obligation. done. Qed.
Next Obligation. by intros []. Qed.
Next Obligation. done. Qed.

#[export] Program Instance backend_tables_lens : Lens Backend DB := {
  view b := Machine.tables (machine b);
  put t b := mkBackend (mkMachine t (Machine.outside (machine b))) (safe b) (broker b);
}.
Next Obligation. done. Qed.
Next Obligation. by intros [[]]. Qed.
Next Obligation. done. Qed.

#[export] Program Instance safe_lens : Lens Backend Vault.Safe := {
  view := safe;
  put s b := mkBackend (machine b) s (broker b);
}.
Next Obligation. done. Qed.
Next Obligation. by intros []. Qed.
Next Obligation. done. Qed.

(** A call of the core, whose error is a code. *)
Definition in_db {A} (m : M DB Code A) : M Backend Refusal A := map_err because (within m).
Definition in_machine {A} (m : M Machine Code A) : M Backend Refusal A := map_err because (within m).
Definition in_safe {A} (m : M Vault.Safe Code A) : M Backend Refusal A := map_err because (within m).

Definition with_broker {E} (f : Broker -> Broker) : M Backend E unit := fun w =>
  (Ok tt, mkWorld (mkBackend (machine (db w)) (safe (db w)) (f (broker (db w)))) (ticks w) (ids w) (stmts w)).

(** [Services] and the options of the server. *)
Record Console := {
  options : Pipeline.Options;
  exchange : Exchange.Exchange;
  credentials : CredentialRegistry.Registry;
  vault : option Vault.Options;
  boot : BootConfig;
  sessionTTL : Z;
  token : string;
  version : string;
  started : Z;
}.

Definition StatusRunning : string := "running".

(** What [New] makes of its options for the status page. *)
Definition newStatus (c : Console) : view :=
  Fields [("status", Text StatusRunning); ("version", Text (version c)); ("listen_address", Text (ListenAddress (boot c)));
    ("web_api_port", Number (WebAPIPort (boot c))); ("started_at", Text (formatTime (started c)))].

Inductive Endpoint :=
| Submit | Show (id : string) | Cancel (id : string)
| ListApprovals | Settle (id action : string)
| ListLeases | Shorten (id : string) | Revoke (id : string)
| ListIdentities | ConnectIdentity | VerifyIdentity (id : string) | DisconnectIdentity (id : string)
| ListMemories | TightenMemory (id : string) | DeleteMemory (id : string)
| ListEvents | ExportEvents | ShowEvent (id : string)
| ListAgents | RegisterAgent | TrustAgent (id : string) | DisconnectAgent (id : string)
| ShowPreferences | PatchPreferences
| CreateVault | UnlockVault | LockVault
| Stream.

Definition settleActions : list (string * string) :=
  [("allow-once", Approval.ActionAllowOnce); ("allow-task", Approval.ActionAllowUntilTaskEnd);
   ("allow-project", Approval.ActionAutoAllowInProject); ("always-ask", Approval.ActionAlwaysAsk);
   ("deny", Approval.ActionDeny)].

Definition get : list string := ["GET"; "HEAD"].

(** A pattern of the mux: literal segments, and [None] for [{id}]. *)
Definition Pattern : Type := list (option string).

(** What a path gives for [{id}]; the empty segment after a last slash is none. *)
Fixpoint capture (pattern : Pattern) (path : list string) : option string :=
  match pattern, path with
  | [], [] => Some ""
  | Some literal :: pattern, segment :: path => if literal ==? segment then capture pattern path else None
  | None :: pattern, segment :: path => if segment ==? "" then None else _ ← capture pattern path; Some segment
  | _, _ => None
  end.

(** A row: the methods a pattern allows, and what each of them calls. *)
Record Route := {
  pattern : Pattern;
  methods : list string;
  endpoint : string -> string -> Endpoint;
}.

Definition handles (segments : list string) (methods : list string) (e : Endpoint) : Route :=
  {| pattern := Some "v1" :: map Some segments; methods := methods; endpoint := fun _ _ => e |}.

Definition handles_id (segments rest : list string) (methods : list string) (e : string -> Endpoint) : Route :=
  {| pattern := Some "v1" :: map Some segments ++ [None] ++ map Some rest; methods := methods; endpoint := fun id _ => e id |}.

(** [registerBusinessRoutes], with the fixed segments before [{id}] in their
    place: the mux prefers them. *)
Definition routes : list Route :=
  [handles ["capability-requests"] ["POST"] Submit;
   handles_id ["capability-requests"] [] get Show;
   handles_id ["capability-requests"] ["cancel"] ["POST"] Cancel;
   handles ["approvals"] get ListApprovals] ++
  map (fun row => handles_id ["approvals"] [row.1] ["POST"] (fun id => Settle id row.2)) settleActions ++
  [handles ["leases"] get ListLeases;
   handles_id ["leases"] ["shorten"] ["POST"] Shorten;
   handles_id ["leases"] [] ["DELETE"] Revoke;
   handles ["identities"] get ListIdentities;
   handles ["identities"; "connect"] ["POST"] ConnectIdentity;
   handles_id ["identities"] ["verify"] ["POST"] VerifyIdentity;
   handles_id ["identities"] [] ["DELETE"] DisconnectIdentity;
   handles ["trust-memories"] get ListMemories;
   {| pattern := [Some "v1"; Some "trust-memories"; None]; methods := ["PATCH"; "DELETE"];
      endpoint := fun id method => if method ==? "DELETE" then DeleteMemory id else TightenMemory id |};
   handles ["audit-events"] get ListEvents;
   handles ["audit-events"; "export"] get ExportEvents;
   handles_id ["audit-events"] [] get ShowEvent;
   handles ["agents"] get ListAgents;
   handles ["agents"; "register"] ["POST"] RegisterAgent;
   handles_id ["agents"] ["trust"] ["POST"] TrustAgent;
   handles_id ["agents"] ["disconnect"] ["POST"] DisconnectAgent;
   {| pattern := [Some "v1"; Some "preferences"]; methods := ["GET"; "HEAD"; "PATCH"];
      endpoint := fun _ method => if method ==? "PATCH" then PatchPreferences else ShowPreferences |};
   handles ["vault"] ["POST"] CreateVault;
   handles ["vault"; "unlock"] ["POST"] UnlockVault;
   handles ["vault"; "lock"] ["POST"] LockVault;
   handles ["events"] ["GET"] Stream].

Definition route (path : list string) : option (Route * string) :=
  row ← find_first (fun row => bool_decide (is_Some (capture (pattern row) path))) routes;
  id ← capture (pattern row) path;
  Some (row, id).

Example routed :
  (fun found => (methods found.1, endpoint found.1 found.2 "GET")) <$> route ["v1"; "identities"; "connect"] =
    Some (["POST"], ConnectIdentity) /\
  (fun found => endpoint found.1 found.2 "DELETE") <$> route ["v1"; "identities"; "i1"] = Some (DisconnectIdentity "i1") /\
  (fun found => endpoint found.1 found.2 "POST") <$> route ["v1"; "approvals"; "a1"; "deny"] = Some (Settle "a1" Approval.ActionDeny) /\
  route ["v1"; "approvals"; "a1"; "allow-all"] = None /\ route ["v1"; "leases"; ""] = None.
Proof. by split_and!; vm_compute. Qed.

(** ** Bodies *)

Definition submitRequest : list (Json.raw_setter (S := Form)) :=
  [text_field "agent_id"; text_field "workspace"; text_field "service"; text_field "operation"; raw_field "resource";
   raw_field "desired_change"; text_field "reason"].

Definition settleBody : list (Json.raw_setter (S := Form)) := [number_field "confirmations"].
Definition shortenBody : list (Json.raw_setter (S := Form)) := [text_field "expires_at"].

Definition connectBody : list (Json.raw_setter (S := Form)) :=
  [text_field "provider_kind"; text_field "provider_label"; text_field "provider_item_ref"; text_field "field";
   text_field "service"; text_field "account_label"; text_field "environment"; flag_field "is_default"].

Definition patchMemoryBody : list (Json.raw_setter (S := Form)) := [text_field "approval_behavior"].

Definition registerAgentBody : list (Json.raw_setter (S := Form)) :=
  [text_field "name"; text_field "type"; text_field "version"; text_field "executable_hash"; text_field "executable_path";
   number_field "pid"; number_field "parent_pid"; text_field "os_user"; text_field "device_fingerprint";
   text_field "device_name"; text_field "workspace_path"; text_field "project_fingerprint"; text_field "started_at"].

Definition trustBody : list (Json.raw_setter (S := Form)) := [flag_field "confirmed"].
Definition unlockBody : list (Json.raw_setter (S := Form)) := [text_field "master_password"].
Definition patchPreferencesBody : list (Json.raw_setter (S := Form)) := [table_field "preferences"].

Definition minMasterPasswordLength : Z := 12.

(** The first field that is not given. *)
Definition missingField (body : Form) : string :=
  match find_first (fun field => field.2)
          [("agent_id", trim_space (text body "agent_id") ==? ""); ("workspace", trim_space (text body "workspace") ==? "");
           ("service", trim_space (text body "service") ==? ""); ("operation", trim_space (text body "operation") ==? "");
           ("resource", raw body "resource" ==? ""); ("reason", trim_space (text body "reason") ==? "")] with
  | Some field => field.1
  | None => ""
  end.

Definition credentialOperations : list string := ["credential."; "secret."; "token."; "vault."].

Definition checkResourceObject `{Intent.Floats} (message : string) : result Refusal unit :=
  if message ==? "" then Ok tt
  else match Intent.unmarshal_object message with Some _ => Ok tt | None => Err (because CodeInvalidRequest) end.

(** [connectBody.validate]. *)
Definition validate (services : list string) (body : Form) : result Refusal string :=
  match find_first (fun name => trim_space (text body name) ==? "")
          ["provider_kind"; "provider_label"; "provider_item_ref"; "field"; "service"; "account_label"] with
  | Some name => Err (missingFields [name])
  | None =>
      _ ← refuse_if (negb (one_of (text body "provider_kind") Credential.implemented)) (invalidField ["provider_kind"]);
      _ ← refuse_if (negb (one_of (text body "service") services)) (invalidField ["service"]);
      let environment := text body "environment" in
      _ ← refuse_if (negb (one_of environment [Matcher.EnvironmentProduction; Matcher.EnvironmentNonProduction]))
            (invalidField ["environment"]);
      Ok environment
  end.

Definition startedAt (body : Form) : result Refusal Z :=
  let text := trim_space (text body "started_at") in
  if text ==? "" then Err (invalidField ["started_at"])
  else match ParseRFC3339 text with Some instant => Ok instant | None => Err (invalidField ["started_at"]) end.

Record ledgerFilter := { lf_AgentID : string; lf_Service : string; lf_Before : Z; lf_Limit : Z }.

(** No [before] is the zero instant. *)
Definition ledgerFilterFrom (q : HttpRequest) : result Refusal ledgerFilter :=
  limit ← limitFrom q;
  _ ← refuse_if ((query q "agent_id" !=? "") && (query q "service" !=? "")) (because CodeInvalidRequest);
  before ← (if query q "before" ==? "" then Ok 0
            else match ParseRFC3339 (query q "before") with
                 | Some before => Ok before
                 | None => Err (because CodeInvalidRequest)
                 end);
  Ok {| lf_AgentID := query q "agent_id"; lf_Service := query q "service"; lf_Before := before; lf_Limit := limit |}.

(** ** The handlers *)

Section handlers.
Context `{Env} `{Unicode} `{Intent.Floats} `{Vault.Device} `{Crypto.Primitives} `{CredentialRegistry.Unlocking}
  `{Exchange.Credentials} (c : Console) (caller : Caller) (operationID : string) (q : HttpRequest).

(** [Capabilities.Operations] and [Services] of the adapters' registry. *)
Definition declared (service : string) : list string := Adapters.Operations (Exchange.registry (exchange c)) service.
Definition connectable : list string := Adapters.Services (Exchange.registry (exchange c)).

Definition respond (status : Z) (body : view) : M Backend Refusal Answer := mret (writeJSON status body).

Definition refuseAgent : M Backend Refusal unit := refuse (IsAgent caller) (because CodeForbidden).

Definition pathID (id : string) : M Backend Refusal unit := refuse (id ==? "") (because CodeInvalidRequest).

Definition limit : M Backend Refusal Z := of_result (limitFrom q).

Definition decode (fields : list (Json.raw_setter (S := Form))) : M Backend Refusal Form := of_result (decodeBody fields no_form q).

Definition now : M Backend Refusal Z := Now.
Definition newID : M Backend Refusal string := map_err because NewID.

Definition publish (eventType : string) (v : view) : M Backend Refusal unit :=
  match marshal v with
  | None => mret tt
  | Some _ => at_ ← now; with_broker (publishView eventType v at_)
  end.

(** What is shown of a request, with what else its service could do. *)
Definition shown (request : Request.CapabilityRequest) (record : option Decision.Decision) : view :=
  requestView request record (withheldOperations (declared (Request.Service request)) (Request.Operation request)).

Definition levelOf (record : option Decision.Decision) : string :=
  match record with Some record => Decision.RiskLevel record | None => "" end.

(** [Announcer.Announce]: what waits for a person as its approval, all else as the
    request. *)
Definition Announce (result : Pipeline.Result) : M Backend Refusal unit :=
  let record := Pipeline.res_Decision result in
  let request := shown (Pipeline.res_Request result) record in
  publish EventArrival
    (match Pipeline.res_Approval result with
     | Some item => approvalView item (Approval.Actions (levelOf record)) request record
     | None => request
     end).

(** What an agent is shown of a decision does not say how it is confirmed. *)
Definition for_caller (record : option Decision.Decision) : option Decision.Decision :=
  if IsAgent caller then hideStrongAuth <$> record else record.

Definition decisionFor (requestID : string) : M Backend Refusal (option Decision.Decision) :=
  found ← try_ (in_db (RequestStore.DecisionByRequestID requestID));
  match found with
  | Ok record => mret (Some record)
  | Err e => if r_Code e ==? CodeNotFound then mret None else throw e
  end.

(** *** Requests *)

Definition refuseCredentialRequest (body : Form) : M Backend Refusal unit :=
  let operation := to_lower (trim_space (text body "operation")) in
  if existsb (fun pre => has_prefix operation pre) credentialOperations then
    _ ← in_db (Pipeline.RecordSecretRequestBlocked operationID (text body "agent_id") (text body "workspace")
          (text body "service") (text body "operation"));
    throw (because CodeCapabilityNotOffered)
  else mret tt.

Definition new_request (body : Form) (id : string) (at_ : Z) : Request.CapabilityRequest :=
  {| Request.ID := id; Request.OperationID := operationID; Request.AgentID := text body "agent_id";
     Request.WorkspaceID := text body "workspace"; Request.Service := text body "service";
     Request.Operation := text body "operation"; Request.Resource := raw body "resource";
     Request.DesiredChange := raw body "desired_change"; Request.Reason := text body "reason";
     Request.Status := Request.StatusReceived; Request.ChangePreview := ""; Request.CreatedAt := at_;
     Request.UpdatedAt := at_ |}.

Definition submit : M Backend Refusal Answer :=
  body ← decode submitRequest;
  _ ← refuse (missingField body !=? "") (invalidField [missingField body]);
  _ ← of_result (checkResourceObject (raw body "resource"));
  _ ← of_result (checkResourceObject (raw body "desired_change"));
  _ ← refuse (IsAgent caller && (c_AgentID caller !=? text body "agent_id")) (because CodeForbidden);
  _ ← refuseCredentialRequest body;
  id ← newID;
  at_ ← now;
  created ← in_db (RequestStore.CreateRequest (new_request body id at_));
  result ← in_machine (Orchestration.Decide (options c) (exchange c) created);
  _ ← Announce result;
  respond 202 (shown (Pipeline.res_Request result) (for_caller (Pipeline.res_Decision result))).

Definition visibleRequest (id : string) : M Backend Refusal Request.CapabilityRequest :=
  request ← in_db (RequestStore.RequestByID id);
  _ ← refuse (negb (maySee caller (Request.AgentID request))) (because CodeNotFound);
  mret request.

Definition show (id : string) : M Backend Refusal Answer :=
  _ ← pathID id;
  request ← visibleRequest id;
  record ← decisionFor (Request.ID request);
  respond 200 (shown request (for_caller record)).

(** The approval that waits for the request is left as it is. *)
Definition cancel (id : string) : M Backend Refusal Answer :=
  _ ← pathID id;
  request ← visibleRequest id;
  at_ ← now;
  cancelled ← in_db (RequestStore.AdvanceRequest (Request.ID request) Request.StatusAwaitingApproval
                       Request.StatusCancelled at_);
  record ← decisionFor (Request.ID cancelled);
  _ ← publish EventPassage (shown cancelled record);
  respond 200 (shown cancelled record).

(** *** Approvals *)

Definition expand (item : Approval.Approval) : M Backend Refusal view :=
  record ← in_db (RequestStore.DecisionByID (Approval.DecisionID item));
  request ← in_db (RequestStore.RequestByID (Decision.CapabilityRequestID record));
  mret (approvalView item (Approval.Actions (Decision.RiskLevel record)) (shown request (Some record)) (Some record)).

Fixpoint expand_each (items : list Approval.Approval) : M Backend Refusal (list view) :=
  match items with
  | [] => mret []
  | item :: items => v ← expand item; rest ← expand_each items; mret (v :: rest)
  end.

Definition listApprovals : M Backend Refusal Answer :=
  _ ← refuseAgent;
  n ← limit;
  pending ← in_db (Approval.Manager.Pending n);
  items ← expand_each pending;
  respond 200 (listEnvelope items "").

Definition strongAuthCompleted : M Backend Refusal bool :=
  match vault c with
  | None => mret false
  | Some o => in_safe (Vault.IsUnlocked o)
  end.

Definition settlementView (result : Pipeline.SettleResult) : view :=
  let record := Pipeline.sr_Decision result in
  Fields [("approval", approvalView (Pipeline.sr_Approval result) (Approval.Actions (Decision.RiskLevel record)) Null (Some record));
    ("request", shown (Pipeline.sr_Request result) (Some record));
    ("lease", or_null leaseView (Pipeline.sr_Lease result));
    ("trust_memory_id", Text (match Pipeline.sr_Memory result with Some memory => Trust.ID memory | None => "" end));
    ("replayed", Flag (Pipeline.sr_Replayed result))].

(** A body is read only when one is announced; without it one confirmation was made. *)
Definition confirmations : M Backend Refusal Z :=
  let once := mkForm ∅ {["confirmations" := 1]} ∅ ∅ ∅ in
  body ← (if 0 <? h_ContentLength q then of_result (decodeBody settleBody once q) else mret once);
  mret (number body "confirmations").

Definition settle (id action : string) : M Backend Refusal Answer :=
  _ ← refuseAgent;
  _ ← pathID id;
  confirmed ← confirmations;
  strong ← strongAuthCompleted;
  result ← in_db (Pipeline.SettleApproval (options c)
    {| Pipeline.si_ApprovalID := id; Pipeline.si_Action := action; Pipeline.StrongAuthCompleted := strong;
       Pipeline.si_Confirmations := confirmed |});
  let record := Pipeline.sr_Decision result in
  _ ← (if Pipeline.sr_Replayed result then mret tt
       else
         _ ← publish EventPassage (approvalView (Pipeline.sr_Approval result)
               (Approval.Actions (Decision.RiskLevel record)) Null (Some record));
         match Pipeline.sr_Lease result with
         | Some issued => publish EventLease (leaseView issued)
         | None => mret tt
         end);
  respond 200 (settlementView result).

(** *** Leases *)

Definition listLeases : M Backend Refusal Answer :=
  n ← limit;
  active ← in_db (Lease.Manager.Active n);
  respond 200 (listEnvelope (map leaseView (filter (fun issued => maySee caller (Lease.AgentID issued) = true) active)) "").

Definition visibleLease (id : string) : M Backend Refusal Lease.Lease :=
  issued ← in_db (Lease.Manager.ByID id);
  _ ← refuse (negb (maySee caller (Lease.AgentID issued))) (because CodeNotFound);
  mret issued.

Definition shorten (id : string) : M Backend Refusal Answer :=
  _ ← pathID id;
  body ← decode shortenBody;
  match ParseRFC3339 (text body "expires_at") with
  | None => throw (because CodeInvalidRequest)
  | Some expiresAt =>
      _ ← visibleLease id;
      shortened ← in_db (Lease.Manager.Shorten id expiresAt);
      _ ← publish EventLease (leaseView shortened);
      respond 200 (leaseView shortened)
  end.

Definition revoke (id : string) : M Backend Refusal Answer :=
  _ ← pathID id;
  _ ← visibleLease id;
  revoked ← in_db (Lease.Manager.Revoke id);
  _ ← publish EventLease (leaseView revoked);
  respond 200 (leaseView revoked).

(** *** Identities *)

Definition listIdentities : M Backend Refusal Answer :=
  _ ← refuseAgent;
  n ← limit;
  identities ← in_db (IdentityStore.Identities n);
  respond 200 (Fields [("items", Items (map identityView identities)); ("next_cursor", Text "");
    ("connectable_services", Texts (sort_strings connectable))]).

(** The service of an identity is the one its reference is registered for. *)
Definition connectIdentity : M Backend Refusal Answer :=
  _ ← refuseAgent;
  body ← decode connectBody;
  environment ← of_result (validate connectable body);
  providerID ← newID;
  referenceID ← newID;
  reference ← in_machine (CredentialRegistry.RegisterReference (credentials c)
    {| CredentialRegistry.rg_ProviderID := providerID; CredentialRegistry.rg_ReferenceID := referenceID;
       CredentialRegistry.rg_Kind := text body "provider_kind"; CredentialRegistry.rg_ProviderLabel := text body "provider_label";
       CredentialRegistry.rg_ItemRef := text body "provider_item_ref"; CredentialRegistry.rg_Field := text body "field";
       CredentialRegistry.rg_Service := text body "service"; CredentialRegistry.rg_AccountLabel := text body "account_label" |});
  _ ← in_db (Orchestration.EnsureDeclared (Exchange.registry (exchange c)) (Credential.Service reference));
  id ← newID;
  at_ ← now;
  created ← in_db (IdentityStore.CreateIdentity
    {| Matcher.ID := id; Matcher.Service := Credential.Service reference; Matcher.AccountLabel := text body "account_label";
       Matcher.Environment := environment; Matcher.IsDefault := flag body "is_default"; Matcher.Status := Matcher.StatusOK;
       Matcher.CredentialReferenceID := Credential.ID reference; Matcher.CreatedAt := at_; Matcher.UpdatedAt := at_ |});
  respond 201 (identityView created).

Definition verifyIdentity (id : string) : M Backend Refusal Answer :=
  _ ← refuseAgent;
  _ ← pathID id;
  identity ← in_db (IdentityStore.IdentityByID id);
  probed ← in_machine (CredentialRegistry.Probe (credentials c) (Matcher.CredentialReferenceID identity));
  at_ ← now;
  updated ← in_db (IdentityStore.SetIdentityStatus id
    (if Credential.HealthStatus probed ==? Credential.HealthOK then Matcher.StatusOK else Matcher.StatusNeedsReview) at_);
  respond 200 (Fields [("identity", identityView updated); ("health", Text (Credential.HealthStatus probed))]).

Definition disconnectIdentity (id : string) : M Backend Refusal Answer :=
  _ ← refuseAgent;
  _ ← pathID id;
  revocation ← in_db (Pipeline.DisconnectIdentity id operationID);
  respond 200 (Fields [("identity", identityView (Pipeline.ir_Identity revocation));
    ("revoked_leases", Number (Z.of_nat (length (Pipeline.RevokedLeases revocation))));
    ("invalidated_memories", Number (Z.of_nat (length (Pipeline.InvalidatedMemories revocation))))]).

(** *** Memories *)

Definition listMemories : M Backend Refusal Answer :=
  _ ← refuseAgent;
  n ← limit;
  memories ← in_db (Trust.Manager.ByStatus (if query q "status" ==? "" then Trust.StatusActive else query q "status") n);
  respond 200 (listEnvelope (map memoryView memories) "").

(** One value is accepted, the one that allows less. *)
Definition tightenMemory (id : string) : M Backend Refusal Answer :=
  _ ← refuseAgent;
  _ ← pathID id;
  body ← decode patchMemoryBody;
  _ ← refuse (text body "approval_behavior" !=? Trust.BehaviorAlwaysAsk) (invalidField ["approval_behavior"]);
  tightened ← in_db (Trust.Manager.TightenBehavior id);
  respond 200 (memoryView tightened).

Definition deleteMemory (id : string) : M Backend Refusal Answer :=
  _ ← refuseAgent;
  _ ← pathID id;
  _ ← in_db (Pipeline.ClearTrustMemory id operationID);
  mret (Reply 204 "" [] "").

(** *** The ledger *)

Definition ledgerEvents (filter : ledgerFilter) : M Backend Refusal (list Ledger.Event) :=
  in_db (if lf_AgentID filter !=? "" then LedgerStore.EventsByAgent (lf_AgentID filter) (lf_Before filter) (lf_Limit filter)
         else if lf_Service filter !=? "" then LedgerStore.EventsByService (lf_Service filter) (lf_Before filter) (lf_Limit filter)
         else LedgerStore.Events (lf_Before filter) (lf_Limit filter)).

Definition listEvents : M Backend Refusal Answer :=
  _ ← refuseAgent;
  filter ← of_result (ledgerFilterFrom q);
  found ← ledgerEvents filter;
  respond 200 (listEnvelope (map auditEventView found) (nextCursor found)).

Definition showEvent (id : string) : M Backend Refusal Answer :=
  _ ← refuseAgent;
  _ ← pathID id;
  event ← in_db (LedgerStore.EventByID id);
  respond 200 (auditEventView event).

Definition exportFormat : string :=
  let format := to_lower (query q "format") in if format ==? "" then FormatJSONL else format.

Definition exportEvents : M Backend Refusal Answer :=
  _ ← refuseAgent;
  _ ← refuse (negb (one_of exportFormat Formats)) (invalidField ["format"]);
  filter ← of_result (ledgerFilterFrom q);
  found ← ledgerEvents filter;
  mret (Reply 200 (exportContentType exportFormat)
    [("Content-Disposition", "attachment; filename=" +:+ Json.s_quote +:+ "opendelo-ledger." +:+ exportFormat +:+ Json.s_quote)]
    (writeExport exportFormat found)).

(** *** Agents *)

Definition listAgents : M Backend Refusal Answer :=
  _ ← refuseAgent;
  n ← limit;
  agents ← in_db (IdentityStore.Agents n);
  respond 200 (listEnvelope (map agentView agents) "").

(** The random bytes of a session key come from where those of the vault do. *)
Definition entropy : M Backend Refusal (option (list Z)) :=
  drawn ← in_safe (Vault.draw AgentAuth.sessionKeyBytes);
  mret (Encoding.bytes_of <$> drawn).

Definition registration (body : Form) (since : Z) : AgentAuth.Registration :=
  let trimmed name := trim_space (text body name) in
  {| AgentAuth.r_Name := trimmed "name"; AgentAuth.r_Type := trimmed "type"; AgentAuth.r_Version := trimmed "version";
     AgentAuth.r_ExecutableHash := trimmed "executable_hash"; AgentAuth.r_ExecutablePath := text body "executable_path";
     AgentAuth.r_PID := number body "pid"; AgentAuth.r_ParentPID := number body "parent_pid";
     AgentAuth.r_OSUser := trimmed "os_user"; AgentAuth.DeviceFingerprint := trimmed "device_fingerprint";
     AgentAuth.DeviceName := trimmed "device_name"; AgentAuth.WorkspacePath := text body "workspace_path";
     AgentAuth.r_ProjectFingerprint := trimmed "project_fingerprint"; AgentAuth.r_StartedAt := since |}.

Definition registerAgent : M Backend Refusal Answer :=
  _ ← refuseAgent;
  body ← decode registerAgentBody;
  since ← of_result (startedAt body);
  random ← entropy;
  registered ← in_db (AgentAuth.Register (sessionTTL c) random (registration body since));
  respond 201 (Fields [("agent", agentView (AgentAuth.reg_Agent registered));
    ("session_key", Text (AgentAuth.Reveal (AgentAuth.reg_SessionKey registered)));
    ("is_rebind", Flag (AgentAuth.IsRebind registered));
    ("project_fingerprint_changed", Flag (AgentAuth.ProjectFingerprintChanged registered))]).

(** The event is written before the trust is, and only when there is a change. *)
Definition trustAgent (id : string) : M Backend Refusal Answer :=
  _ ← refuseAgent;
  _ ← pathID id;
  body ← decode trustBody;
  _ ← refuse (negb (flag body "confirmed")) (invalidField ["confirmed"]);
  current ← in_db (IdentityStore.AgentByID id);
  _ ← (if Agent.TrustLevel current ==? Agent.TrustUnverified then in_db (Pipeline.RecordAgentTrusted id operationID) else mret tt);
  trusted ← in_db (AgentAuth.ConfirmTrust id);
  respond 200 (agentView trusted).

Definition disconnectAgent (id : string) : M Backend Refusal Answer :=
  _ ← refuseAgent;
  _ ← pathID id;
  revocation ← in_db (Pipeline.DisconnectAgent id operationID);
  respond 200 (Fields [("agent", agentView revocation.1); ("revoked_leases", Number (Z.of_nat (length revocation.2)))]).

(** *** Preferences *)

Definition showPreferences : M Backend Refusal Answer :=
  _ ← refuseAgent;
  current ← in_db Settings.Load;
  respond 200 (preferencesView current.1 (boot c) current.2).

Definition patchPreferences : M Backend Refusal Answer :=
  _ ← refuseAgent;
  body ← decode patchPreferencesBody;
  _ ← refuse (bool_decide (string_table body "preferences" = ∅)) (invalidField ["preferences"]);
  saved ← in_db (Settings.Save (string_table body "preferences"));
  respond 200 (preferencesView saved (boot c) []).

(** *** The vault *)

Definition configured : M Backend Refusal Vault.Options :=
  match vault c with Some o => mret o | None => throw (because CodeNotImplemented) end.

Definition createVault : M Backend Refusal Answer :=
  _ ← refuseAgent;
  o ← configured;
  body ← decode unlockBody;
  let password := text body "master_password" in
  _ ← refuse (Z.of_nat (String.length (trim_space password)) <? minMasterPasswordLength) (invalidField ["master_password"]);
  _ ← in_safe (Vault.CreateWith o password);
  respond 201 (vaultView true).

(** The outcome comes with or without an error; a lockout is in the ledger before
    either is told. *)
Definition unlockVault : M Backend Refusal Answer :=
  _ ← refuseAgent;
  o ← configured;
  body ← decode unlockBody;
  let password := text body "master_password" in
  _ ← refuse (trim_space password ==? "") (invalidField ["master_password"]);
  told ← in_safe (Vault.UnlockWith o password);
  _ ← (if Vault.LockoutBegan told.1
       then in_db (Pipeline.RecordStrongAuthLocked operationID (Z.quot Vault.LockoutDuration Second)) else mret tt);
  match told.2 with
  | Some e => throw (because e)
  | None => respond 200 (vaultView true)
  end.

Definition lockVault : M Backend Refusal Answer :=
  _ ← refuseAgent;
  _ ← configured;
  _ ← in_safe Vault.Lock;
  respond 200 (vaultView false).

(** *** The stream: subscribed before it is answered *)

Definition subscribe : M Backend Refusal (option nat) := fun w =>
  let '(id, b) := Subscribe (broker (db w)) in
  (Ok id, mkWorld (mkBackend (machine (db w)) (safe (db w)) b) (ticks w) (ids w) (stmts w)).

Definition stream : M Backend Refusal Answer :=
  _ ← refuseAgent;
  subscribed ← subscribe;
  mret (EventStream subscribed).

Definition call (e : Endpoint) : M Backend Refusal Answer :=
  match e with
  | Submit => submit
  | Show id => show id
  | Cancel id => cancel id
  | ListApprovals => listApprovals
  | Settle id action => settle id action
  | ListLeases => listLeases
  | Shorten id => shorten id
  | Revoke id => revoke id
  | ListIdentities => listIdentities
  | ConnectIdentity => connectIdentity
  | VerifyIdentity id => verifyIdentity id
  | DisconnectIdentity id => disconnectIdentity id
  | ListMemories => listMemories
  | TightenMemory id => tightenMemory id
  | DeleteMemory id => deleteMemory id
  | ListEvents => listEvents
  | ExportEvents => exportEvents
  | ShowEvent id => showEvent id
  | ListAgents => listAgents
  | RegisterAgent => registerAgent
  | TrustAgent id => trustAgent id
  | DisconnectAgent id => disconnectAgent id
  | ShowPreferences => showPreferences
  | PatchPreferences => patchPreferences
  | CreateVault => createVault
  | UnlockVault => unlockVault
  | LockVault => lockVault
  | Stream => stream
  end.

(** [e.fail] for whatever a handler refuses. *)
Definition serve (e : Endpoint) : M Backend Refusal Answer :=
  outcome ← try_ (call e);
  mret (match outcome with Ok answer => answer | Err r => fail operationID r end).

(** The response to HEAD has no body. *)
Definition headed (answer : Answer) : Answer :=
  match answer with
  | Reply status kind headers body => Reply status kind headers (if h_Method q ==? "HEAD" then "" else body)
  | EventStream id => EventStream id
  end.

(** The mux with its handlers, and [notFoundHandler]. *)
Definition dispatch : M Backend Refusal Answer :=
  match route (h_Path q) with
  | None => mret (headed (writeError 404 CodeNotFound operationID))
  | Some (row, id) =>
      match allowMethods (methods row) q operationID with
      | Some answer => mret (headed answer)
      | None => answer ← serve (endpoint row id (h_Method q)); mret (headed answer)
      end
  end.
End handlers.

(** [newStatusHandler]. *)
Definition statusHandler (c : Console) (operationID : string) (q : HttpRequest) : Answer :=
  match allowMethods get q operationID with
  | Some answer => headed q answer
  | None => headed q (writeJSON 200 (newStatus c))
  end.

(** [Server] for what is below [/v1/]: an identifier for the operation, the guard,
    and the console as the caller. The assets of the console are left out. *)
Definition Handler `{Env} `{Unicode} `{Intent.Floats} `{Vault.Device} `{Crypto.Primitives} `{CredentialRegistry.Unlocking}
    `{Exchange.Credentials} (c : Console) (q : HttpRequest) : M Backend Refusal Answer :=
  operationID ← try_ NewID;
  match operationID with
  | Err _ => mret (headed q (writeError 500 CodeInternal ""))
  | Ok operationID =>
      match guard (boot c) (token c) q with
      | Err (status, e) => mret (headed q (writeError status e operationID))
      | Ok _ =>
          if bool_decide (h_Path q = ["v1"; "gateway"; "status"]) then mret (statusHandler c operationID q)
          else dispatch c console_caller operationID q
      end
  end.

(** [NewBusinessHandler]: for a caller somebody else has authenticated. *)
Definition BusinessHandler `{Env} `{Unicode} `{Intent.Floats} `{Vault.Device} `{Crypto.Primitives} `{CredentialRegistry.Unlocking}
    `{Exchange.Credentials} (c : Console) (caller : Caller) (q : HttpRequest) : M Backend Refusal Answer :=
  operationID ← try_ NewID;
  match operationID with
  | Err _ => mret (headed q (writeError 500 CodeInternal ""))
  | Ok operationID => dispatch c caller operationID q
  end.
