(* ===== verification/ConsoleSpec.v ===== *)
(** * transport/httpapi: who may do what through the endpoints

    An agent is kept out of everything that belongs to a person, and cannot tell
    what belongs to another agent from what does not exist; reading changes
    nothing; and a lease comes out of a settlement only when a person is there. *)
From S2P Require Import Prelude GoStr Apperr GoTime World Store Machine.
From S2P Require Lease Trust Approval Ledger Request Settings Agent Matcher.
From S2P Require LeaseStore ApprovalStore TrustStore LedgerStore RequestStore IdentityStore SettingsStore.
From S2P Require Crypto Vault CredentialRegistry Exchange Pipeline PipelineSpec.
From S2P Require Import ConsoleViews Events Console ConsoleApi.
Open Scope Z_scope.

(** ** The guard *)

Lemma tokenMatches_spec token authorization :
  tokenMatches token authorization = true <-> authorization = bearerPrefix +:+ token.
Proof.
  unfold tokenMatches. destruct (has_prefix authorization bearerPrefix) eqn:E.
  - apply prefix_spec in E as (rest & ->). rewrite drop_str_app, bool_decide_eq_true. split; [by intros ->|].
    intros Heq. apply (f_equal (drop_str (String.length bearerPrefix))) in Heq. by rewrite !drop_str_app in Heq.
  - split; [done|]. intros ->. unfold has_prefix in E. by rewrite prefix_refl_app in E.
Qed.

(** C11. The guard of the console lets through exactly the requests that carry the
    session's token as a bearer, the header only a page of this origin can send
    without being asked for leave, and no origin or one of the origins of this very
    gateway; a request that fails is turned away as forbidden, and as
    unauthenticated when only the token is wrong. *)
Theorem guard_exact boot token q :
  let own := (h_Origin q = "" \/ h_Origin q ∈ allowedOrigins boot) /\ h_RequestedBy q = RequestedByConsole in
  (guard boot token q = Ok tt <-> own /\ h_Authorization q = bearerPrefix +:+ token) /\
  (guard boot token q = Err (401, CodeUnauthenticated) <-> own /\ h_Authorization q <> bearerPrefix +:+ token) /\
  (guard boot token q = Err (403, CodeForbidden) <-> ~ own).
Proof.
  cbv zeta. unfold guard.
  assert ((h_Origin q !=? "") && negb (one_of (h_Origin q) (allowedOrigins boot)) = true <->
    ~ (h_Origin q = "" \/ h_Origin q ∈ allowedOrigins boot)) as Ho.
  { rewrite andb_true_iff, !negb_true_iff, bool_decide_eq_false, <- not_true_iff_false, one_of_spec. tauto. }
  destruct ((h_Origin q !=? "") && _) eqn:E1; cbn [refuse_if mbind result_bind].
  { assert (~ (h_Origin q = "" \/ h_Origin q ∈ allowedOrigins boot)) by tauto. split_and!; split; (done || tauto || naive_solver). }
  assert (h_Origin q = "" \/ h_Origin q ∈ allowedOrigins boot) as Hor.
  { destruct (decide (h_Origin q = "" \/ h_Origin q ∈ allowedOrigins boot)) as [?|Hn]; [done|]. by apply Ho in Hn. }
  destruct (h_RequestedBy q !=? RequestedByConsole) eqn:E2; cbn [refuse_if mbind result_bind].
  { apply negb_true_iff, bool_decide_eq_false in E2. split_and!; split; (done || tauto || naive_solver). }
  apply negb_false_iff, bool_decide_eq_true in E2.
  destruct (tokenMatches token (h_Authorization q)) eqn:E3; cbn [negb refuse_if].
  - apply tokenMatches_spec in E3. split_and!; split; (done || tauto || naive_solver).
  - assert (h_Authorization q <> bearerPrefix +:+ token) by (intros ?%tokenMatches_spec; congruence).
    split_and!; split; (done || tauto || naive_solver).
Qed.

(** ** What an agent cannot reach *)

(** The endpoints an agent may call at all. *)
Definition for_agents (e : Endpoint) : bool :=
  match e with Submit | Show _ | Cancel _ | ListLeases | Shorten _ | Revoke _ => true | _ => false end.

(** A computation that changes nothing of the state. *)
Definition looks {D E A} (m : M D E A) : Prop := forall w, db (m w).2 = db w.

Section looking.
Context {D : Type}.

Lemma looks_ret {E A} (a : A) : looks (D := D) (E := E) (mret a).
Proof. done. Qed.

Lemma looks_throw {E A} (e : E) : looks (D := D) (A := A) (throw e).
Proof. done. Qed.

Lemma looks_of_result {E A} (r : result E A) : looks (D := D) (of_result r).
Proof. done. Qed.

Lemma looks_bind {E A B} (m : M D E A) (f : A -> M D E B) : looks m -> (forall a, looks (f a)) -> looks (m ≫= f).
Proof.
  intros Hm Hf w. specialize (Hm w). unfold mbind, M_bind. destruct (m w) as [[a|e] w1]; [|exact Hm].
  cbn in Hm. by rewrite Hf.
Qed.

Lemma looks_try {E E' A} (m : M D E A) : looks m -> looks (try_ (E' := E') m).
Proof. intros Hm w. specialize (Hm w). unfold try_. by destruct (m w). Qed.

Lemma looks_map_err {E E' A} (f : E -> E') (m : M D E A) : looks m -> looks (map_err f m).
Proof. intros Hm w. specialize (Hm w). unfold map_err. by destruct (m w). Qed.

Lemma looks_Now `{Env} {E} : looks (D := D) (E := E) Now.
Proof. done. Qed.

Lemma looks_query `{Env} {A} (f : D -> result sql_error A) : looks (World.query f).
Proof. intros w. unfold World.query, stmt. destruct (io_fails (stmts w)); [done|]. by destruct (f (db w)). Qed.

Lemma looks_within `{Lens D V} {E A} (m : M V E A) : looks m -> looks (within (D := D) m).
Proof.
  intros Hm w. unfold within. specialize (Hm (mkWorld (World.view (db w)) (ticks w) (ids w) (stmts w))).
  destruct (m _) as [r w']. cbn in *. by rewrite Hm, put_view.
Qed.
End looking.

Ltac looking :=
  repeat first
    [ apply looks_ret | apply looks_throw | apply looks_of_result | apply looks_Now | apply looks_query
    | apply looks_bind; [|intros ?] | apply looks_try | apply looks_map_err | apply looks_within ].

Lemma looks_list_rows `{Env} `{Lens DB (gmap string A)} p order `{!RelDecision order} n : looks (list_rows p order n).
Proof. unfold list_rows, refuse. looking. Qed.

Lemma looks_list_decoded `{Env} `{Lens DB (gmap string A)} p order `{!RelDecision order} readable n :
  looks (list_decoded p order readable n).
Proof. unfold list_decoded, refuse. by looking; apply looks_list_rows. Qed.

Section endpoints.
Context `{Env} `{Unicode} `{Intent.Floats} `{Vault.Device} `{Crypto.Primitives} `{CredentialRegistry.Unlocking}
  `{Exchange.Credentials} (c : Console) (caller : Caller) (operationID : string) (q : HttpRequest).

Lemma refuseAgent_agent (f : unit -> M Backend Refusal Answer) w :
  IsAgent caller = true -> (refuseAgent caller ≫= f) w = (Err (because CodeForbidden), w).
Proof. intros Ha. unfold refuseAgent. by rewrite Ha. Qed.

(** An agent is kept out. Whatever endpoint that belongs to a person it calls -
    approvals, identities, memories, the ledger, agents, preferences, the vault,
    the stream - with whatever body, the answer is the one refusal, and nothing at
    all has happened: no statement was made, no clock read, no event sent. *)
Theorem agents_kept_out e w :
  IsAgent caller = true -> for_agents e = false ->
  serve c caller operationID q e w = (Ok (fail operationID (because CodeForbidden)), w).
Proof.
  intros Ha He. unfold serve.
  assert (call c caller operationID q e w = (Err (because CodeForbidden), w)) as Hcall.
  { destruct e; try done; cbn [call]; by apply refuseAgent_agent. }
  unfold try_, mbind, M_bind. by rewrite Hcall.
Qed.

(** ** What does not exist for an agent *)

(** The state without these rows. *)
Definition forget (id : string) (b : Backend) : Backend :=
  let t := Machine.tables (machine b) in
  mkBackend (mkMachine (put (delete id (requests t)) (put (delete id (leases t)) t)) (Machine.outside (machine b)))
    (safe b) (broker b).

Definition forgetting (id : string) (w : World Backend) : World Backend :=
  mkWorld (forget id (db w)) (ticks w) (ids w) (stmts w).

Definition elsewhere (id : string) (t : DB) : Prop :=
  (forall r, requests t !! id = Some r -> Request.AgentID r <> c_AgentID caller) /\
  (forall l, leases t !! id = Some l -> Lease.AgentID l <> c_AgentID caller /\ Lease.readable l = true).

(** One look at a row that is not the caller's, and at none. *)
Definition missed {A} (w : World Backend) : result Refusal A * World Backend :=
  (Err (because (if io_fails (stmts w) then CodeInternal else CodeNotFound)),
   mkWorld (db w) (ticks w) (ids w) (S (stmts w))).

Lemma maySee_foreign owner : IsAgent caller = true -> owner <> c_AgentID caller -> maySee caller owner = false.
Proof. intros Ha Ho. unfold maySee. rewrite Ha. cbn. apply bool_decide_eq_false. congruence. Qed.

Lemma request_missed id w :
  IsAgent caller = true ->
  (forall r, requests (Machine.tables (machine (db w))) !! id = Some r -> Request.AgentID r <> c_AgentID caller) ->
  visibleRequest caller id w = missed w.
Proof.
  intros Ha Hr. unfold visibleRequest, in_db, RequestStore.RequestByID, World.query, map_err, within, missed, mbind, M_bind, stmt.
  cbn. destruct (io_fails (stmts w)); cbn; [by destruct w as [[[] ? ?] ? ? ?]|]. unfold select_row.
  destruct (requests _ !! id) as [r|] eqn:E; cbn.
  - rewrite (maySee_foreign _ Ha (Hr r eq_refl)). cbn. by destruct w as [[[] ? ?] ? ? ?].
  - by destruct w as [[[] ? ?] ? ? ?].
Qed.

Lemma lease_missed id w :
  IsAgent caller = true ->
  (forall l, leases (Machine.tables (machine (db w))) !! id = Some l -> Lease.AgentID l <> c_AgentID caller /\ Lease.readable l = true) ->
  visibleLease caller id w = missed w.
Proof.
  intros Ha Hl. unfold visibleLease, in_db. change (Lease.Manager.ByID id) with (LeaseStore.LeaseByID id).
  unfold LeaseStore.LeaseByID, LeaseStore.read_back, World.query, map_err, within, missed, mbind, M_bind, stmt.
  cbn. destruct (io_fails (stmts w)); cbn; [by destruct w as [[[] ? ?] ? ? ?]|]. unfold select_row.
  destruct (leases _ !! id) as [l|] eqn:E; cbn.
  - destruct (Hl l eq_refl) as [Hne Hread]. rewrite Lease.toLease_readable, Hread. cbn.
    rewrite (maySee_foreign _ Ha Hne). cbn. by destruct w as [[[] ? ?] ? ? ?].
  - by destruct w as [[[] ? ?] ? ? ?].
Qed.

(** C12. What is not an agent's own does not exist for it. Asking for a request or
    a lease of somebody else - to see it, to cancel, shorten or revoke it - gets
    to the letter the answer that is given when there is no such row, whatever the
    body of the call, and nothing is changed and nothing announced. *)
Theorem foreign_hidden e id w :
  IsAgent caller = true -> e ∈ [Show id; Cancel id; Shorten id; Revoke id] ->
  elsewhere id (Machine.tables (machine (db w))) ->
  (serve c caller operationID q e w).1 = (serve c caller operationID q e (forgetting id w)).1 /\
  db (serve c caller operationID q e w).2 = db w.
Proof.
  intros Ha He [Hreq Hlease].
  pose proof (request_missed id w Ha Hreq) as Hr. pose proof (lease_missed id w Ha Hlease) as Hl.
  assert (visibleRequest caller id (forgetting id w) = missed (forgetting id w)) as Hr'.
  { apply request_missed; [done|]. cbn. intros r. by rewrite lookup_delete_eq. }
  assert (visibleLease caller id (forgetting id w) = missed (forgetting id w)) as Hl'.
  { apply lease_missed; [done|]. cbn. intros l. by rewrite lookup_delete_eq. }
  unfold serve, try_, mbind, M_bind.
  rewrite !elem_of_cons, elem_of_nil in He. destruct He as [->|[->|[->|[->|[]]]]]; cbn [call];
    unfold show, cancel, shorten, revoke, pathID, refuse, decode, of_result, mbind, M_bind.
  - destruct (id ==? ""); cbn [refuse_if]; [done|]. rewrite Hr, Hr'. done.
  - destruct (id ==? ""); cbn [refuse_if]; [done|]. rewrite Hr, Hr'. done.
  - destruct (id ==? ""); cbn [refuse_if]; [done|]. destruct (decodeBody _ _ _) as [body|r]; [|done].
    destruct (ParseRFC3339 _); [|done]. rewrite Hl, Hl'. done.
  - destruct (id ==? ""); cbn [refuse_if]; [done|]. rewrite Hl, Hl'. done.
Qed.

(** ** Reading *)

Definition reading (e : Endpoint) : bool :=
  match e with
  | Show _ | ListApprovals | ListLeases | ListIdentities | ListMemories | ListEvents | ExportEvents | ShowEvent _
  | ListAgents | ShowPreferences => true
  | _ => false
  end.

Lemma looks_expand_each items : looks (expand_each c items).
Proof.
  induction items as [|item items IH]; cbn [expand_each]; looking. exact IH.
Qed.

Lemma call_looks e : reading e = true -> looks (call c caller operationID q e).
Proof.
  destruct e; try done; intros _; cbn [call];
    unfold show, listApprovals, listLeases, listIdentities, listMemories, listEvents, exportEvents, showEvent, listAgents,
      showPreferences, pathID, refuseAgent, limit, respond, refuse, in_db; looking.
  all: first [apply looks_expand_each | repeat case_match; looking].
Qed.

Lemma route_row path row id : route path = Some (row, id) -> row ∈ routes /\ capture (pattern row) path = Some id.
Proof.
  unfold route. intros (r & Hr & (i & Hi & [= <- <-])%bind_Some)%bind_Some. by apply find_first_Some in Hr as [Hin _].
Qed.

(** Of the rows that allow GET all but the stream only read. *)
Lemma get_rows : Forall (fun row => pattern row = [Some "v1"; Some "events"] \/
  forall id m, m ∈ get -> m ∈ methods row -> reading (endpoint row id m) = true) routes.
Proof.
  unfold routes, settleActions, handles, handles_id, get. cbn [map app].
  repeat (apply Forall_cons_2; [try (by left); right; cbn [methods endpoint]; intros id m; rewrite ?elem_of_cons, ?elem_of_nil|]);
    [..|constructor]; naive_solver.
Qed.

(** C13. Reading changes nothing: every endpoint that GET or HEAD reaches, but for
    the stream, leaves the database, what was sent outside, the vault and the
    channels of the open consoles as they are, whoever asks and whatever is asked,
    and however it ends. *)
Theorem reading_is_safe w :
  h_Method q ∈ get -> h_Path q <> ["v1"; "events"] -> db (dispatch c caller operationID q w).2 = db w.
Proof.
  intros Hm Hp. unfold dispatch. destruct (route (h_Path q)) as [[row id]|] eqn:Hroute; [|done].
  apply route_row in Hroute as [Hin Hcap].
  destruct (allowMethods (methods row) q operationID) as [answer|] eqn:Ea; [done|].
  apply looks_bind; [|intros answer; apply looks_ret]. unfold serve. apply looks_bind; [|intros; apply looks_ret].
  apply looks_try, call_looks. pose proof get_rows as Hrows. rewrite Forall_forall in Hrows.
  destruct (Hrows row Hin) as [He|Hread].
  - exfalso. rewrite He in Hcap. destruct (h_Path q) as [|s1 [|s2 [|s3 path]]]; cbn in Hcap; try done;
      repeat case_bool_decide; try done. by subst.
  - apply Hread; [done|]. apply one_of_spec. unfold allowMethods in Ea. by destruct (one_of _ (methods row)).
Qed.

(** ** Settling *)

Lemma wp_in_db {A} (m : M DB Code A) (Q : result Refusal A -> Backend -> Prop) b :
  wp m (fun r t => Q (match r with Ok a => Ok a | Err e => Err (because e) end) (put t b)) (World.view b) -> wp (in_db m) Q b.
Proof. intros Hm. unfold in_db. apply wp_map_err, wp_within. exact Hm. Qed.

Lemma wp_publish type_ v (Q : result Refusal unit -> Backend -> Prop) b :
  (forall br, Q (Ok tt) (mkBackend (machine b) (safe b) br)) -> wp (publish type_ v) Q b.
Proof.
  intros HQ. unfold publish. destruct (marshal v).
  - unfold now. wp_steps. intros w <-. cbn. apply HQ.
  - wp_steps. destruct b. apply HQ.
Qed.

(** Somebody is there at an instant: the console has a vault, it holds the password
    it was unlocked with, and it has not been idle for its time. *)
Definition present (b : Backend) (now : Z) : Prop :=
  exists o, vault c = Some o /\ Vault.password_of (safe b) <> "" /\ ~ Vault.idle o (safe b) now.

(** Whether strong authentication was given is whether somebody is there at the
    next reading of the clock; asking may lock the vault, and touches nothing else. *)
Lemma strongAuthCompleted_at w : exists strong w', strongAuthCompleted c w = (Ok strong, w') /\
  (strong = true <-> present (db w) (clock_at (ticks w))) /\ machine (db w') = machine (db w).
Proof.
  unfold strongAuthCompleted, present. destruct (vault c) as [o|].
  2: { exists false, w. split_and!; try done. split; [done|]. by intros (? & [=] & _). }
  unfold in_safe, map_err, within.
  destruct (Vault.IsUnlocked_at (E := Code) o (mkWorld (World.view (db w)) (ticks w) (ids w) (stmts w)))
    as (strong & w' & -> & Hs). cbn [db ticks] in Hs.
  eexists strong, _. split; [reflexivity|]. split; [|reflexivity]. rewrite Hs. split.
  - intros [Hp Hi]. exists o. by split_and!.
  - intros (o' & [= <-] & Hp & Hi). by split.
Qed.

(** The confirmations are what the body says; reading it touches nothing. *)
Lemma confirmations_at w : (confirmations q w).2 = w.
Proof.
  unfold confirmations. destruct (0 <? h_ContentLength q); [|done].
  unfold of_result, mbind, M_bind. by destruct (decodeBody _ _ _).
Qed.

(** What comes after the vault was asked. *)
Definition settle_rest (id action : string) (confirmed : Z) (strong : bool) : M Backend Refusal Answer :=
  result ← in_db (Pipeline.SettleApproval (options c)
    {| Pipeline.si_ApprovalID := id; Pipeline.si_Action := action; Pipeline.StrongAuthCompleted := strong;
       Pipeline.si_Confirmations := confirmed |});
  _ ← (if Pipeline.sr_Replayed result then mret tt
       else
         _ ← publish EventPassage (approvalView (Pipeline.sr_Approval result)
               (Approval.Actions (Decision.RiskLevel (Pipeline.sr_Decision result))) Null (Some (Pipeline.sr_Decision result)));
         match Pipeline.sr_Lease result with
         | Some issued => publish EventLease (leaseView issued)
         | None => mret tt
         end);
  respond 200 (settlementView c result).

(** A decision ends before the vault is asked, with nothing changed; or no agent
    sent it, and it goes on with the confirmations of its body and the answer of
    the vault at the next reading of the clock. *)
Lemma settle_runs id action w :
  (settle c caller q id action w).2 = w \/
  exists confirmed strong w', settle c caller q id action w = settle_rest id action confirmed strong w' /\
    IsAgent caller = false /\ confirmations q w = (Ok confirmed, w) /\
    (strong = true <-> present (db w) (clock_at (ticks w))) /\ machine (db w') = machine (db w).
Proof.
  unfold settle, refuseAgent, pathID, refuse, of_result, mbind, M_bind. destruct (IsAgent caller); [by left|].
  cbn [refuse_if]. destruct (id ==? ""); [by left|]. cbn [refuse_if]. pose proof (confirmations_at w) as Hc.
  destruct (confirmations q w) as [[confirmed|e] w1]; cbn in Hc; subst w1; [|by left]. right.
  destruct (strongAuthCompleted_at w) as (strong & w' & -> & Hs & Hm). by exists confirmed, strong, w'.
Qed.

(** A lease of this database that came from the person's answer [id], [action]: the
    confirmations are those of the body, and strong authentication counts as given
    exactly when somebody is there at the instant this call reads. *)
Definition settled_in_person (id action : string) (w : World Backend) (t' : DB) : Prop :=
  IsAgent caller = false /\
  exists strong confirmed,
    PipelineSpec.lease_after_confirmation (options c)
      {| Pipeline.si_ApprovalID := id; Pipeline.si_Action := action; Pipeline.StrongAuthCompleted := strong;
         Pipeline.si_Confirmations := confirmed |} (Machine.tables (machine (db w))) t' /\
    (strong = true <-> present (db w) (clock_at (ticks w))) /\ confirmations q w = (Ok confirmed, w).

Lemma wp_settle_rest id action confirmed strong b :
  wp (settle_rest id action confirmed strong) (fun _ b' =>
    leases (Machine.tables (machine b')) = leases (Machine.tables (machine b)) \/
    PipelineSpec.lease_after_confirmation (options c)
      {| Pipeline.si_ApprovalID := id; Pipeline.si_Action := action; Pipeline.StrongAuthCompleted := strong;
         Pipeline.si_Confirmations := confirmed |} (Machine.tables (machine b)) (Machine.tables (machine b'))) b.
Proof.
  unfold settle_rest, respond. wp_steps. apply wp_in_db.
  eapply wp_mono; [apply PipelineSpec.settle_run|]. intros r t [Hl _]. cbn in Hl.
  destruct r as [result|e]; [|exact Hl]. wp_steps.
  destruct (Pipeline.sr_Replayed result); wp_steps; [exact Hl|]. apply wp_publish. intros br. wp_steps.
  destruct (Pipeline.sr_Lease result); wp_steps; [|exact Hl]. apply wp_publish. intros br'. by wp_steps.
Qed.

(** C6. A lease out of a settlement takes a person who is there. However a call of
    one of the five decisions ends, the lease table is as it was, or the caller is
    no agent and the table gained the one lease of the confirmed decision, with the
    confirmations the body of this call makes. The strong authentication that
    decision may ask for counts as given exactly when, at the instant this very
    call reads from the clock - its first reading - the vault holds the password it
    was unlocked with and has not been idle for its time; nothing the body of the
    call claims, and no earlier reading, stands in for it. *)
Theorem settle_in_person id action w :
  let b' := db (serve c caller operationID q (Settle id action) w).2 in
  leases (Machine.tables (machine b')) = leases (Machine.tables (machine (db w))) \/
  settled_in_person id action w (Machine.tables (machine b')).
Proof.
  cbv zeta. assert ((serve c caller operationID q (Settle id action) w).2 = (settle c caller q id action w).2) as ->.
  { unfold serve, try_, mbind, M_bind. cbn [call]. by destruct (settle _ _ _ _ _ w). }
  destruct (settle_runs id action w) as [->|(confirmed & strong & w' & -> & Ha & Hc & Hs & Hm)]; [by left|].
  pose proof (wp_settle_rest id action confirmed strong (db w') w' eq_refl) as Hr. cbn beta in Hr. rewrite Hm in Hr.
  destruct Hr as [Hr|Hr]; [by left|right]. split; [done|]. by exists strong, confirmed.
Qed.
End endpoints.
