(* ===== verification/ProxyFace.v ===== *)
(** * transport/proxy and its ports: the HTTP proxy agents use (proxy.go, handler.go;
    proxyports.go, proxyservices.go, proxyexchange.go, authenticator.go of cli)

    A request goes through a fixed order - the gateway is serving, the agent is
    known, the host belongs to a declared service, a lease covers the operation
    and its use is counted - before anything is sent, and the ledger has the
    execution before the answer is given out. The access log is left out. *)
From S2P Require Import Prelude GoStr Apperr.
From S2P Require Json.
From S2P Require Import World Store Machine.
From S2P Require Gateway Registry Agent Intent Scope Decision Adapters Lease Ledger Url.
From S2P Require LeaseStore LedgerStore AdapterStore AgentAuth.
From S2P Require Import Outbound Execute Exchange.
Open Scope Z_scope.

Record Caller := { c_AgentID : string; c_WorkspaceID : string }.

(** The query of a target is left out: nothing reads it. *)
Record Target := { t_Host : string; t_Method : string; t_Path : string }.

Record Route := { rt_Service : string; rt_Operation : string; rt_Resource : gmap string string }.

Record Grant := { g_LeaseID : string; g_IdentityID : string }.

Record Reply := { rp_StatusCode : Z; rp_ContentType : string; rp_Body : string; rp_UpstreamStatus : Z }.

Definition no_caller : Caller := {| c_AgentID := ""; c_WorkspaceID := "" |}.
Definition no_route : Route := {| rt_Service := ""; rt_Operation := ""; rt_Resource := ∅ |}.

Record Blocked := { b_Caller : Caller; b_Target : Target; b_Route : Route; b_Reason : string }.

Record Executed := {
  x_Caller : Caller;
  x_Target : Target;
  x_Route : Route;
  x_Grant : Grant;
  x_UpstreamStatus : Z;
  x_Succeeded : bool;
  x_Duration : Z;
}.

(** A request as net/http hands it over: the request line, the Host header, the
    session header, and the body, [None] when reading it fails. *)
Record ProxyRequest := {
  q_Method : string;
  q_URL : option Url.URL;
  q_Host : string;
  q_SessionKey : string;
  q_Body : option string;
}.

(** What goes back. *)
Record Answer := {
  a_Status : Z;
  a_ContentType : string;
  a_Challenge : bool;
  a_Body : string;
}.

Definition DefaultMaxRequestBytes : Z := Z.shiftl 4 20.
Definition maxDeclarations : Z := 200.
Definition maxActiveLeases : Z := 200.

(** ** The handler's helpers *)

Definition targetOf `{Unicode} (q : ProxyRequest) : result Code Target :=
  match q_URL q with
  | None => Err CodeInvalidRequest
  | Some u =>
      _ ← refuse_if (Url.Host u ==? "") CodeInvalidRequest;
      _ ← refuse_if (negb (one_of (to_lower (Url.Scheme u)) ["http"; "https"])) CodeInvalidRequest;
      Ok {| t_Host := to_lower (Url.Host u); t_Method := q_Method q; t_Path := Url.Path u |}
  end.

Definition hostOf `{Unicode} (q : ProxyRequest) : string :=
  match q_URL q with
  | Some u => if Url.Host u ==? "" then (Url.cut ":" (q_Host q)).1.1 else to_lower (Url.Host u)
  | None => (Url.cut ":" (q_Host q)).1.1
  end.

Definition pathOf (q : ProxyRequest) : string :=
  match q_URL q with Some u => Url.Path u | None => "" end.

Definition readBody (maxBytes : Z) (q : ProxyRequest) : result Code string :=
  match q_Body q with
  | None => Err CodeInvalidRequest
  | Some body => if maxBytes <? Z.of_nat (String.length body) then Err CodeInvalidRequest else Ok body
  end.

Definition statusFor (e : Code) : Z :=
  if bool_decide (e ∈ [CodeUnauthenticated; CodeSessionExpired; CodeAgentIdentityUnverifiable]) then 407
  else if bool_decide (e ∈ [CodeForbidden; CodeCredentialNotAuthorized; CodeCapabilityNotOffered; CodePathNotAllowed]) then 403
  else if e ==? CodeInvalidRequest then 400
  else if e ==? CodeAdapterTimeout then 504
  else if bool_decide (e ∈ [CodeGatewayUnavailable; CodeProviderUnavailable; CodeVaultLocked; CodeProviderLockedTimeout]) then 502
  else 500.

Definition error_body (e : Code) (operationID : string) : string :=
  Json.print (Json.JObj [("error", Json.JObj [("code", Json.of_string (code_name e));
    ("message", Json.of_string (message_of e)); ("operation_id", Json.of_string operationID)])]).

(** [writeError], with the challenge [refuse] adds for a 407. *)
Definition writeError (e : Code) (operationID : string) (challenge : bool) : Answer :=
  {| a_Status := statusFor e; a_ContentType := "application/json"; a_Challenge := challenge;
     a_Body := error_body e operationID |}.

Definition writeReply (reply : Reply) : Answer :=
  {| a_Status := rp_StatusCode reply;
     a_ContentType := if rp_ContentType reply ==? "" then "application/json" else rp_ContentType reply;
     a_Challenge := false; a_Body := rp_Body reply |}.

(** ** The ports (cli) *)

Definition resourceText (resource : gmap string string) : string := Json.print (Json.of_string_map (Some resource)).

Definition string_object (l : list (string * string)) : string := resourceText (list_to_map l).

Definition blockedMetadata (blocked : Blocked) : string :=
  string_object [("method", t_Method (b_Target blocked)); ("host", t_Host (b_Target blocked));
                 ("path", t_Path (b_Target blocked)); ("reason", b_Reason blocked)].

Definition executedMetadata (executed : Executed) : string :=
  string_object [("method", t_Method (x_Target executed)); ("host", t_Host (x_Target executed));
                 ("path", t_Path (x_Target executed)); ("face", "proxy")].

Definition blocked_event (operationID : string) (blocked : Blocked) : Ledger.Event :=
  let route := b_Route blocked in
  {| Ledger.ID := ""; Ledger.OperationID := operationID; Ledger.Type_ := Ledger.EventDenied;
     Ledger.AgentID := c_AgentID (b_Caller blocked); Ledger.DeviceID := "";
     Ledger.WorkspaceID := c_WorkspaceID (b_Caller blocked); Ledger.IdentityID := "";
     Ledger.CredentialProviderID := ""; Ledger.Service := rt_Service route; Ledger.Operation := rt_Operation route;
     Ledger.Resource := resourceText (rt_Resource route); Ledger.ResolvedScope := "{}";
     Ledger.Verdict := Decision.VerdictDeny; Ledger.RiskLevel := ""; Ledger.DecisionID := "";
     Ledger.ApprovalID := ""; Ledger.LeaseID := ""; Ledger.LeaseStatus := "";
     Ledger.Outcome := Ledger.OutcomeBlocked; Ledger.ResponseStatus := 0; Ledger.Duration := 0;
     Ledger.IsRedacted := false; Ledger.Metadata := blockedMetadata blocked; Ledger.CreatedAt := 0 |}.

Definition executed_event (operationID : string) (executed : Executed) : Ledger.Event :=
  let route := x_Route executed in
  {| Ledger.ID := ""; Ledger.OperationID := operationID; Ledger.Type_ := Ledger.EventAdapterExecuted;
     Ledger.AgentID := c_AgentID (x_Caller executed); Ledger.DeviceID := "";
     Ledger.WorkspaceID := c_WorkspaceID (x_Caller executed);
     Ledger.IdentityID := g_IdentityID (x_Grant executed); Ledger.CredentialProviderID := "";
     Ledger.Service := rt_Service route; Ledger.Operation := rt_Operation route;
     Ledger.Resource := resourceText (rt_Resource route); Ledger.ResolvedScope := "{}";
     Ledger.Verdict := Decision.VerdictAutoAllow; Ledger.RiskLevel := ""; Ledger.DecisionID := "";
     Ledger.ApprovalID := ""; Ledger.LeaseID := g_LeaseID (x_Grant executed); Ledger.LeaseStatus := "";
     Ledger.Outcome := if x_Succeeded executed then Ledger.OutcomeSucceeded else Ledger.OutcomeFailed;
     Ledger.ResponseStatus := x_UpstreamStatus executed; Ledger.Duration := x_Duration executed;
     Ledger.IsRedacted := true; Ledger.Metadata := executedMetadata executed; Ledger.CreatedAt := 0 |}.

(** The order a Go map is walked in. *)
Class Walk := { walk : gmap string Registry.Capability -> list Registry.Capability }.

Section ports.
Context `{Env} `{Unicode} `{Intent.Floats} `{Url.Addresses} `{Walk}.

Definition RecordBlocked (operationID : string) (blocked : Blocked) : M DB Code unit :=
  _ ← Ledger.Record_ (blocked_event operationID blocked); mret tt.

Definition RecordExecuted (operationID : string) (executed : Executed) : M DB Code unit :=
  _ ← Ledger.Record_ (executed_event operationID executed); mret tt.

(** [agentIdentifier]: a request over the network shows no process. *)
Definition identify (sessionKey : string) : M DB Code Agent.Agent :=
  AgentAuth.Authenticate (AgentAuth.NewSessionKey sessionKey) {| AgentAuth.p_PID := 0; AgentAuth.p_ExecutableHash := "" |}.

(** [proxyAuthenticator]. *)
Definition Authenticate (sessionKey : string) : M DB Code Caller :=
  agent ← identify sessionKey;
  mret {| c_AgentID := Agent.ID agent; c_WorkspaceID := Agent.WorkspaceID agent |}.

Definition hostOfBaseURL (baseURL : string) : option string :=
  match Url.Parse baseURL with
  | Some u => if Url.Host u ==? "" then None else Some (Url.Host u)
  | None => None
  end.

Definition serves_host (host : string) (x : Registry.Declaration) : bool :=
  match hostOfBaseURL (Registry.d_BaseURL x) with Some declared => equal_fold declared host | None => false end.

Definition serviceFor (host : string) : M DB Code string :=
  _ ← refuse (host ==? "") CodeCapabilityNotOffered;
  enabled ← AdapterStore.EnabledDeclarations maxDeclarations;
  match find_first (serves_host host) enabled with
  | Some x => mret (Registry.d_Service x)
  | None => throw CodeCapabilityNotOffered
  end.

(** [Registry.Resolve]. *)
Definition Resolve (registry : Adapters.Registry) (service method path : string)
    : result Code (Registry.Capability * gmap string string) :=
  match Adapters.capabilities registry !! service with
  | None => Err CodeCapabilityNotOffered
  | Some operations =>
      '(capability, captured) ← Registry.Resolve (walk operations) method path;
      Ok (capability, list_to_map captured)
  end.

Definition Lookup (registry : Adapters.Registry) (target : Target) : M DB Code Route :=
  service ← serviceFor (t_Host target);
  '(capability, resource) ← of_result (Resolve registry service (t_Method target) (t_Path target));
  mret {| rt_Service := service; rt_Operation := Registry.Operation capability; rt_Resource := resource |}.

Definition requestedScope (granted : Lease.Lease) (caller : Caller) (route : Route) : result Code Scope.Scope :=
  match Scope.unmarshal (Lease.ResourceScope granted) with
  | None => Err CodeInternal
  | Some issued =>
      Ok {| Scope.AgentID := c_AgentID caller; Scope.WorkspaceID := c_WorkspaceID caller;
            Scope.Service := rt_Service route; Scope.IdentityID := Scope.IdentityID issued;
            Scope.Account := Scope.Account issued; Scope.Resource := rt_Resource route;
            Scope.ResourceKey := Intent.ResourceKeyOf (rt_Resource route); Scope.Operation := rt_Operation route;
            Scope.NotBefore := Scope.NotBefore issued; Scope.ExpiresAt := Scope.ExpiresAt issued;
            Scope.RequestLimit := Scope.RequestLimit issued; Scope.Environment := Scope.Environment issued;
            Scope.RiskCeiling := Scope.RiskCeiling issued |}
  end.

(** The loop of [Authorize]: the first candidate a use of which succeeds. *)
Fixpoint authorize_each (caller : Caller) (route : Route) (active : list Lease.Lease) : M DB Code Grant :=
  match active with
  | [] => throw CodeCredentialNotAuthorized
  | candidate :: active =>
      if (Lease.AgentID candidate !=? c_AgentID caller) || (Lease.Service candidate !=? rt_Service route)
      then authorize_each caller route active
      else
        match requestedScope candidate caller route with
        | Err _ => authorize_each caller route active
        | Ok requested =>
            used ← try_ (Lease.Manager.Use (Lease.ID candidate) requested);
            match used with
            | Err _ => authorize_each caller route active
            | Ok used => mret {| g_LeaseID := Lease.ID used; g_IdentityID := Lease.IdentityID used |}
            end
        end
  end.

Definition Authorize (caller : Caller) (route : Route) : M DB Code Grant :=
  active ← Lease.Manager.Active maxActiveLeases; authorize_each caller route active.
End ports.

(** ** The handler *)

Section proxy.
Context `{Env} `{Unicode} `{Intent.Floats} `{Url.Addresses} `{Walk} `{Credentials} (e : Exchange) (maxBytes : Z).

(** [proxyExchange]: the query of the request does not go along. *)
Definition exchange_Send (operationID : string) (grant : Grant) (route : Route) (body : string) : M Machine Code Reply :=
  reply ← Send e {| x_Service := rt_Service route; x_Operation := rt_Operation route;
                    x_IdentityID := g_IdentityID grant; x_Resource := rt_Resource route; x_Query := [];
                    x_Body := body; x_OperationID := operationID |};
  mret {| rp_StatusCode := y_StatusCode reply; rp_ContentType := "application/json"; rp_Body := y_Body reply;
          rp_UpstreamStatus := y_UpstreamStatus reply |}.

(** [audit]: the caller is not filled in. *)
Definition audit (operationID : string) (q : ProxyRequest) (host : string) (route : Route) (reason : Code) : M DB Code unit :=
  RecordBlocked operationID
    {| b_Caller := no_caller; b_Target := {| t_Host := host; t_Method := q_Method q; t_Path := pathOf q |};
       b_Route := route; b_Reason := code_name reason |}.

Definition refuse_ (operationID : string) (q : ProxyRequest) (host : string) (route : Route) (reason : Code)
    : M Machine Code Answer :=
  _ ← try_ (in_tables (audit operationID q host route reason));
  mret (writeError reason operationID (statusFor reason =? 407)).

(** [x, err := m; if err != nil { p.refuse(...); return }]. *)
Definition or_refuse {A} (operationID : string) (q : ProxyRequest) (host : string) (route : Route)
    (m : M Machine Code A) (k : A -> M Machine Code Answer) : M Machine Code Answer :=
  r ← try_ m;
  match r with
  | Ok a => k a
  | Err reason => refuse_ operationID q host route reason
  end.

(** [serve]; [availability] is what its check sees. *)
Definition serve (availability : Gateway.Availability) (operationID : string) (q : ProxyRequest) : M Machine Code Answer :=
  or_refuse operationID q (hostOf q) no_route (of_result (Gateway.Check availability)) (fun _ =>
  or_refuse operationID q "" no_route (of_result (targetOf q)) (fun target =>
  or_refuse operationID q (t_Host target) no_route (in_tables (Authenticate (q_SessionKey q))) (fun caller =>
  or_refuse operationID q (t_Host target) no_route (in_tables (Lookup (registry e) target)) (fun route =>
  or_refuse operationID q (t_Host target) route (of_result (readBody maxBytes q)) (fun body =>
  or_refuse operationID q (t_Host target) route (in_tables (Authorize caller route)) (fun grant =>
  started ← Now;
  or_refuse operationID q (t_Host target) route (exchange_Send operationID grant route body) (fun reply =>
  finished ← Now;
  recorded ← try_ (in_tables (RecordExecuted operationID
    {| x_Caller := caller; x_Target := target; x_Route := route; x_Grant := grant;
       x_UpstreamStatus := rp_UpstreamStatus reply; x_Succeeded := rp_StatusCode reply =? 200;
       x_Duration := finished - started |}));
  match recorded with
  | Ok _ => mret (writeReply reply)
  | Err reason => mret (writeError reason operationID false)
  end))))))).

(** [NewHandler]: an operation identifier first, and no tunnels. *)
Definition Handler (availability : Gateway.Availability) (q : ProxyRequest) : M Machine Code Answer :=
  operationID ← try_ NewID;
  match operationID with
  | Err _ => mret (writeError CodeInternal "" false)
  | Ok operationID =>
      if q_Method q ==? "CONNECT" then mret (writeError CodeForbidden operationID false)
      else serve availability operationID q
  end.
End proxy.

(** ** The ports *)

Section port_facts.
Context `{Env} `{Unicode} `{Intent.Floats} `{Url.Addresses} `{Walk}.
Implicit Types t : DB.

(** A key of an active session of this agent, alive at some reading of the clock. *)
Definition recognised t (sessionKey : string) (agent : Agent.Agent) : Prop :=
  sessionKey <> "" /\ AgentAuth.session_of t (AgentAuth.NewSessionKey sessionKey) agent /\
  Agent.Status agent = Agent.StatusActive /\ exists n, clock_at n < Agent.SessionExpiresAt agent.

Lemma wp_identify sessionKey t :
  AgentAuth.sessions_ok t ->
  wp (identify sessionKey) (fun r t' => t' = put (agents t') t /\ forall agent, r = Ok agent ->
    exists known, recognised t sessionKey known /\ Agent.ID agent = Agent.ID known /\
      Agent.WorkspaceID agent = Agent.WorkspaceID known) t.
Proof.
  intros Hok. unfold identify. eapply wp_mono; [by apply AgentAuth.wp_Authenticate|].
  intros [a|e] t'; [|intros [-> _]; split; [by destruct t|done]].
  intros (old & n & m & Hs & Hk & Hst & Hexp & _ & -> & ->). split; [done|]. intros agent [= <-].
  exists old. rewrite AgentAuth.Reveal_new in Hk. split_and!; [|done|done]. split_and!; [done|done|done|by exists n].
Qed.

Lemma wp_Authenticate_port sessionKey t :
  AgentAuth.sessions_ok t ->
  wp (Authenticate sessionKey) (fun r t' => t' = put (agents t') t /\ forall caller, r = Ok caller ->
    exists agent, recognised t sessionKey agent /\ c_AgentID caller = Agent.ID agent /\
      c_WorkspaceID caller = Agent.WorkspaceID agent) t.
Proof.
  intros Hok. unfold Authenticate. wp_steps. eapply wp_mono; [by apply wp_identify|].
  intros [a|e] t' [Ht Ha]; [|done]. wp_steps. split; [done|]. intros caller [= <-]. by apply Ha.
Qed.

(** The operation of a declared, enabled service at the host of the target. *)
Definition declared_route t (registry : Adapters.Registry) (target : Target) (route : Route) : Prop :=
  exists i x capability,
    declarations t !! i = Some x /\ Registry.d_Status x = Registry.StatusEnabled /\
    serves_host (t_Host target) x = true /\ rt_Service route = Registry.d_Service x /\
    Resolve registry (rt_Service route) (t_Method target) (t_Path target) = Ok (capability, rt_Resource route) /\
    Registry.Operation capability = rt_Operation route.

Lemma wp_Lookup registry target t :
  wp (Lookup registry target) (fun r t' => t' = t /\ forall route, r = Ok route -> declared_route t registry target route) t.
Proof.
  unfold Lookup, serviceFor. wp_steps. destruct (t_Host target ==? ""); [done|]. wp_steps.
  eapply wp_mono; [apply (wp_list_rows _ _)|]. intros [enabled|c] t' [-> Hl]; [|done]. wp_steps.
  destruct (find_first _ enabled) as [x|] eqn:Ex; [|by apply wp_throw]. wp_steps.
  apply find_first_Some in Ex as [Hin Hhost]. apply (listing_sound _ _ _ _ _ Hl) in Hin as [Hst [i Hi]]. bools.
  destruct (Resolve registry _ _ _) as [[capability resource]|c] eqn:Er; [|done]. wp_steps.
  split; [done|]. intros route [= <-]. by exists i, x, capability.
Qed.

(** A lease of the table covers the route for the caller, and has one use more. *)
Definition counted t t' (caller : Caller) (route : Route) (grant : Grant) : Prop :=
  exists l l' granted n,
    leases t !! g_LeaseID grant = Some l /\ Lease.isActive l = true /\ Lease.IdentityID l = g_IdentityID grant /\
    Lease.ScopeOf l = Ok granted /\ Scope.AgentID granted = c_AgentID caller /\
    Scope.WorkspaceID granted = c_WorkspaceID caller /\ Scope.Service granted = rt_Service route /\
    Scope.Operation granted = rt_Operation route /\
    Scope.sameResource (Scope.Resource granted) (rt_Resource route) = true /\
    column (clock_at n) < Lease.ExpiresAt l /\
    (Lease.RequestLimit l = Lease.Unlimited \/ Lease.UsedRequests l < Lease.RequestLimit l) /\
    leases t' !! g_LeaseID grant = Some l' /\ Lease.grant_of l' = Lease.grant_of l /\
    Lease.UsedRequests l + 1 <= Lease.UsedRequests l'.

Definition keyed_leases t : Prop := forall id l, leases t !! id = Some l -> Lease.ID l = id.

(** Moves keep rows under their identifiers, and only count up. *)
Lemma moved_back n t t1 id l1 :
  Lease.moved n t t1 -> keyed_leases t -> leases t1 !! id = Some l1 -> is_Some (leases t !! id) ->
  exists l k, leases t !! id = Some l /\ Lease.evolved k l l1 /\ 0 <= k.
Proof.
  intros (ls & t' & Hs & -> & _) _ Hl1 [l Hl]. destruct (Lease.steps_evolved _ _ _ _ _ Hs Hl) as (l' & Hl' & He).
  cbn in Hl1. simplify_eq. exists l, (Lease.uses id ls). split_and!; [done|done|apply Lease.uses_nonneg].
Qed.

Lemma requestedScope_Ok candidate caller route requested :
  requestedScope candidate caller route = Ok requested ->
  Scope.AgentID requested = c_AgentID caller /\ Scope.WorkspaceID requested = c_WorkspaceID caller /\
  Scope.Service requested = rt_Service route /\ Scope.Operation requested = rt_Operation route /\
  Scope.Resource requested = rt_Resource route.
Proof. unfold requestedScope. destruct (Scope.unmarshal _); [|done]. by intros [= <-]. Qed.

(** What a use that succeeds after such moves says about the table before them. *)
Lemma counted_use t t1 t2 candidate caller route requested used l granted n :
  keyed_leases t -> Lease.moved (fun _ => 0) t t1 -> is_Some (leases t !! Lease.ID candidate) ->
  requestedScope candidate caller route = Ok requested ->
  leases t1 !! Lease.ID candidate = Some l -> Lease.ScopeOf l = Ok granted ->
  Scope.CoversIgnoringWindow granted requested = true -> Lease.isActive l = true ->
  column (clock_at n) < Lease.ExpiresAt l ->
  (Lease.RequestLimit l = Lease.Unlimited \/ Lease.UsedRequests l < Lease.RequestLimit l) ->
  Lease.grant_of used = Lease.grant_of l -> Lease.UsedRequests used = Lease.UsedRequests l + 1 ->
  leases t2 = <[Lease.ID candidate := used]> (leases t1) ->
  counted t t2 caller route {| g_LeaseID := Lease.ID used; g_IdentityID := Lease.IdentityID used |}.
Proof.
  intros Hk Hm Hin Hreq Hl1 Hg Hc Ha He Hlim Hgr Hu Ht2.
  destruct (moved_back _ _ _ _ _ Hm Hk Hl1 Hin) as (l0 & k & Hl0 & [Hev Hexp Hused Hfin _] & Hk0).
  pose proof (Hk _ _ Hl0) as Hid. pose proof Hgr as Hgr'. unfold Lease.grant_of in Hev, Hgr'. simplify_eq.
  apply requestedScope_Ok in Hreq as (Hra & Hrw & Hrs & Hro & Hrr).
  apply Scope.Covers_spec in Hc as (_ & _ & _ & _ & [Ta Tw Ts _ _ To _ Tr] & _).
  cbn in Ta, Tw, Ts, To, Tr.
  exists l0, used, granted, n. cbn [g_LeaseID g_IdentityID].
  assert (Lease.ID used = Lease.ID candidate) as -> by congruence.
  split_and!; try congruence.
  - destruct (Lease.isActive l0) eqn:E; [done|]. rewrite (Hfin eq_refl) in Ha. congruence.
  - unfold Lease.ScopeOf in *. congruence.
  - lia.
  - destruct Hlim as [Hlim|Hlim]; [left; congruence|right; lia].
  - by rewrite Ht2, lookup_insert_eq.
  - unfold Lease.grant_of. congruence.
  - lia.
Qed.

Lemma wp_authorize_each caller route active t t1 :
  keyed_leases t -> Lease.moved (fun _ => 0) t t1 -> (forall x, x ∈ active -> is_Some (leases t !! Lease.ID x)) ->
  wp (authorize_each caller route active) (fun r t2 => Lease.moved (fun _ => 0) t t2 /\
    forall grant, r = Ok grant -> counted t t2 caller route grant) t1.
Proof.
  intros Hk. revert t1. induction active as [|x active IH]; intros t1 Hm Hin; cbn [authorize_each]; [by apply wp_throw|].
  assert (forall t2, Lease.moved (fun _ => 0) t t2 -> wp (authorize_each caller route active) (fun r t2 =>
    Lease.moved (fun _ => 0) t t2 /\ forall grant, r = Ok grant -> counted t t2 caller route grant) t2) as Hnext.
  { intros t2 Hm2. apply IH; [done|]. intros y Hy. apply Hin. by right. }
  destruct (_ || _); [by apply Hnext|]. destruct (requestedScope x caller route) as [requested|] eqn:Er; [|by apply Hnext].
  apply wp_bind, wp_try.
  eapply wp_mono; [exact (wp_and _ _ _ _ (Lease.Use_moves (Lease.ID x) requested t1)
    (Lease.wp_Manager_Use (Lease.ID x) requested t1))|].
  intros r t2 [Hm2 Hr].
  assert (Lease.moved (fun _ => 0) t t2) as Hm3.
  { eapply Lease.moved_weaken; [|eapply Lease.moved_trans; [exact Hm|exact Hm2]]. intros id. cbn.
    destruct (is_Ok r && _); lia. }
  destruct r as [used|c]; [|by apply Hnext]. wp_steps. split; [done|]. intros grant [= <-].
  destruct Hr as (l & granted & n & Hl & Hg & Hc & _ & Ha & He & Hlim & Hgr & Hu & _ & Ht2).
  eapply (counted_use t t1 t2 x); try done; [by apply Hin; left|]. unfold Lease.isActive. by rewrite Ha.
Qed.

Lemma wp_Authorize caller route t :
  keyed_leases t ->
  wp (Authorize caller route) (fun r t' => t' = put (leases t') t /\
    forall grant, r = Ok grant -> counted t t' caller route grant) t.
Proof.
  intros Hk. unfold Authorize. wp_steps. eapply wp_mono; [apply Lease.LeasesByStatus_law|].
  intros [active|c] t' [-> Hl]; [|by split; [destruct t|]]. wp_steps.
  eapply wp_mono; [apply (wp_authorize_each _ _ _ t t); [done|apply Lease.moved_refl|]|].
  - intros x Hx. apply (listing_sound _ _ _ _ _ Hl) in Hx as [_ [i Hi]]. rewrite (Hk _ _ Hi). by exists x.
  - intros r t2 [(ls & tb & _ & -> & _) Hr]. split; [done|exact Hr].
Qed.

(** The event of an execution. *)
Record executed_as (operationID : string) (executed : Executed) (ev : Ledger.Event) : Prop := {
  xe_type : Ledger.Type_ ev = Ledger.EventAdapterExecuted;
  xe_operation_id : Ledger.OperationID ev = operationID;
  xe_agent : Ledger.AgentID ev = c_AgentID (x_Caller executed);
  xe_lease : Ledger.LeaseID ev = g_LeaseID (x_Grant executed);
  xe_identity : Ledger.IdentityID ev = g_IdentityID (x_Grant executed);
  xe_service : Ledger.Service ev = rt_Service (x_Route executed);
  xe_operation : Ledger.Operation ev = rt_Operation (x_Route executed);
  xe_status : Ledger.ResponseStatus ev = optionalCount (x_UpstreamStatus executed);
  xe_outcome : Ledger.Outcome ev = if x_Succeeded executed then Ledger.OutcomeSucceeded else Ledger.OutcomeFailed;
}.

Lemma wp_recorded event t :
  wp (Ledger.Record_ event) (fun r t' => t' = put (events t') t /\ (is_Ok r = true ->
    exists e, Ledger.prepared event e /\ events t !! Ledger.ID e = None /\
      events t' = <[Ledger.ID e := Ledger.stored e]> (events t))) t.
Proof.
  apply Ledger.wp_Record.
  - intros c. split; [by destruct t|done].
  - intros e He _ _ Hn. split; [done|]. intros _. by exists e.
Qed.

Lemma wp_RecordExecuted operationID executed t :
  wp (RecordExecuted operationID executed) (fun r t' => t' = put (events t') t /\ (is_Ok r = true ->
    exists ev, executed_as operationID executed ev /\ events t !! Ledger.ID ev = None /\
      events t' = <[Ledger.ID ev := ev]> (events t))) t.
Proof.
  unfold RecordExecuted. wp_steps. eapply wp_mono; [apply wp_recorded|]. intros [ev|c] t' [Hf Hr]; [|done]. wp_steps.
  split; [done|]. intros _. destruct (Hr eq_refl) as (e & (id & n & k & rs & sc & md & _ & _ & _ & _ & ->) & Hn & Ht).
  exists (Ledger.stored (Ledger.refill (executed_event operationID executed) id rs sc md
    (Ledger.ResponseStatus (executed_event operationID executed)) (Ledger.Duration (executed_event operationID executed))
    (clock_at n))). split_and!; [by split|exact Hn|exact Ht].
Qed.

Lemma wp_RecordBlocked operationID blocked t :
  wp (RecordBlocked operationID blocked) (fun _ t' => t' = put (events t') t) t.
Proof. unfold RecordBlocked. wp_steps. eapply wp_mono; [apply wp_recorded|]. intros [ev|c] t' [Hf _]; [|done]. by wp_steps. Qed.
End port_facts.

(** ** The whole request *)

(** The three tables a request may change. *)
Definition touches t t' : Prop := t' = put (agents t') (put (leases t') (put (events t') t)).

(** Everything that was checked before a request was sent, on the tables at its
    start; and what was sent. *)
Record admitted `{Env} `{Unicode} `{Url.Addresses} `{Walk} (registry : Adapters.Registry) (site : string -> string)
    (availability : Gateway.Availability) (q : ProxyRequest) (target : Target) (caller : Caller) (route : Route)
    (grant : Grant) (t t' : DB) (hops : list Hop) : Prop := {
  ad_serving : Gateway.Serving availability = true;
  ad_target : targetOf q = Ok target;
  ad_agent : exists agent, recognised t (q_SessionKey q) agent /\ c_AgentID caller = Agent.ID agent /\
    c_WorkspaceID caller = Agent.WorkspaceID agent;
  ad_route : declared_route t registry target route;
  ad_lease : counted t t' caller route grant;
  ad_hops : forall h, h ∈ hops -> Url.Host (h_URL h) = site (rt_Service route);
}.

(** The answer of an admitted request: with the event of the ledger, or an error. *)
Definition answered (operationID : string) (caller : Caller) (route : Route) (grant : Grant) (t t' : DB) (answer : Answer) : Prop :=
  (exists reason, answer = writeError reason operationID false) \/
  exists reply executed ev, answer = writeReply reply /\ executed_as operationID executed ev /\
    x_Caller executed = caller /\ x_Route executed = route /\ x_Grant executed = grant /\
    x_UpstreamStatus executed = rp_UpstreamStatus reply /\
    events t !! Ledger.ID ev = None /\ events t' !! Ledger.ID ev = Some ev.

Section serving.
Context `{Env} `{Unicode} `{Intent.Floats} `{Url.Addresses} `{Walk} `{CredentialsLaws} (e : Exchange) (maxBytes : Z)
  (site : string -> string).
Hypothesis lawful : forall service, ExecutorLaws (executors e service) (site service).
Implicit Types d : Machine.

(** A refusal leaves at most an event. *)
Lemma wp_refuse_ operationID q host route reason (Q : result Code Answer -> Machine -> Prop) d :
  (forall ev, Q (Ok (writeError reason operationID (statusFor reason =? 407))) (mkMachine (put (ev : Ledger.table) (tables d)) (outside d))) ->
  wp (refuse_ operationID q host route reason) Q d.
Proof.
  intros HQ. unfold refuse_, audit. wp_steps. apply wp_in_tables. eapply wp_mono; [apply wp_RecordBlocked|].
  intros r t' ->. wp_steps. apply HQ.
Qed.

Lemma wp_or_refuse {A} operationID q host route (m : M Machine Code A) k (Q : result Code Answer -> Machine -> Prop) d :
  wp m (fun r d1 => match r with
    | Ok a => wp (k a) Q d1
    | Err reason => forall ev, Q (Ok (writeError reason operationID (statusFor reason =? 407)))
                                 (mkMachine (put (ev : Ledger.table) (tables d1)) (outside d1)) end) d ->
  wp (or_refuse operationID q host route m k) Q d.
Proof.
  intros Hm. unfold or_refuse. apply wp_bind, wp_try. eapply wp_mono; [exact Hm|].
  intros [a|c] d1 Hr; [done|by apply wp_refuse_].
Qed.

Lemma touches_leases t t' l : touches t t' -> touches t (put (l : Lease.table) t').
Proof. unfold touches. intros ->. by destruct t. Qed.

Lemma touches_events t t' ev : touches t t' -> touches t (put (ev : Ledger.table) t').
Proof. unfold touches. intros ->. by destruct t. Qed.

(** Sending, and the record of it. *)
Lemma wp_execute operationID q target caller route grant body (Q : result Code Answer -> Machine -> Prop) d :
  (forall answer d', tables d' = put (events (tables d')) (tables d) ->
    dealt (site (rt_Service route)) (outside d) (outside d') ->
    answered operationID caller route grant (tables d) (tables d') answer -> Q (Ok answer) d') ->
  (forall reason ev o, dealt (site (rt_Service route)) (outside d) o -> wire o = wire (outside d) ->
    Q (Ok (writeError reason operationID (statusFor reason =? 407))) (mkMachine (put (ev : Ledger.table) (tables d)) o)) ->
  wp (started ← Now;
      or_refuse operationID q (t_Host target) route (exchange_Send e operationID grant route body) (fun reply =>
      finished ← Now;
      recorded ← try_ (in_tables (RecordExecuted operationID
        {| x_Caller := caller; x_Target := target; x_Route := route; x_Grant := grant;
           x_UpstreamStatus := rp_UpstreamStatus reply; x_Succeeded := rp_StatusCode reply =? 200;
           x_Duration := finished - started |}));
      match recorded with
      | Ok _ => mret (writeReply reply)
      | Err reason => mret (writeError reason operationID false)
      end)) Q d.
Proof.
  intros Hdone Hrefused. apply wp_bind, wp_Now. intros n. apply wp_or_refuse.
  unfold exchange_Send. apply wp_bind. eapply wp_mono; [by apply (wp_exchange_Send e site)|].
  intros [sent|c] d1 (Ht & Hd & Hw & _). 2: { intros ev. rewrite Ht. apply Hrefused; [done|by apply Hw]. }
  apply wp_ret. cbn beta iota. apply wp_bind, wp_Now. intros m. apply wp_bind, wp_try, wp_in_tables.
  eapply wp_mono; [apply wp_RecordExecuted|]. intros r t' [Hf Hr].
  destruct r as [[]|c]; apply wp_ret, Hdone; cbn; rewrite ?Ht in *; try done.
  - destruct (Hr eq_refl) as (ev & Hx & Hn & Hev). right. do 3 eexists. split_and!; try done.
    by rewrite Hev, lookup_insert_eq.
  - left. by eexists.
Qed.

(** What a request through the proxy leaves. *)
Definition proxied (availability : Gateway.Availability) (operationID : string) (q : ProxyRequest) d
    (r : result Code Answer) d' : Prop :=
  touches (tables d) (tables d') /\
  (exists rest, boxes (outside d') = boxes (outside d) ++ rest /\ emptied rest) /\
  exists answer, r = Ok answer /\
    ((exists reason, answer = writeError reason operationID (statusFor reason =? 407) /\
        wire (outside d') = wire (outside d)) \/
     exists target caller route grant hops,
       wire (outside d') = wire (outside d) ++ hops /\
       admitted (registry e) site availability q target caller route grant (tables d) (tables d') hops /\
       answered operationID caller route grant (tables d) (tables d') answer).

Lemma refused_proxied availability operationID q d t o reason ev :
  touches (tables d) t -> wire o = wire (outside d) ->
  (exists rest, boxes o = boxes (outside d) ++ rest /\ emptied rest) ->
  proxied availability operationID q d (Ok (writeError reason operationID (statusFor reason =? 407)))
    (mkMachine (put (ev : Ledger.table) t) o).
Proof.
  intros Ht Hw Hb. split; [by apply touches_events|]. split; [done|]. eexists. split; [done|]. left. by eexists.
Qed.

Lemma wp_serve availability operationID q d :
  AgentAuth.sessions_ok (tables d) -> keyed_leases (tables d) ->
  wp (serve e maxBytes availability operationID q) (proxied availability operationID q d) d.
Proof.
  intros Hs Hk. assert (Hnone : exists rest, boxes (outside d) = boxes (outside d) ++ rest /\ emptied rest).
  { exists []. split; [by rewrite app_nil_r|by constructor]. }
  assert (Ht0 : touches (tables d) (tables d)) by (by destruct (tables d)).
  unfold serve. apply wp_or_refuse, wp_of_result. unfold Gateway.Check.
  destruct (Gateway.Serving availability) eqn:Hserving; [|intros ev; by apply refused_proxied].
  apply wp_or_refuse, wp_of_result. destruct (targetOf q) as [target|c] eqn:Htarget; [|intros ev; by apply refused_proxied].
  apply wp_or_refuse, wp_in_tables. eapply wp_mono; [by apply wp_Authenticate_port|]. intros [caller|c] t1 [Ht1 Hcaller].
  2: { intros ev. apply refused_proxied; [|done..]. cbn. rewrite Ht1. by destruct (tables d). }
  destruct (Hcaller caller eq_refl) as (agent & Hagent). clear Hcaller.
  assert (Hd1 : declarations t1 = declarations (tables d)) by (by rewrite Ht1).
  assert (Hl1 : leases t1 = leases (tables d)) by (by rewrite Ht1).
  assert (He1 : events t1 = events (tables d)) by (by rewrite Ht1).
  assert (Htouch1 : touches (tables d) t1) by (rewrite Ht1; by destruct (tables d)).
  apply wp_or_refuse, wp_in_tables. cbn [tables outside]. eapply wp_mono; [apply wp_Lookup|]. intros [route|c] t2 [-> Hroute].
  2: { intros ev. by apply refused_proxied. }
  specialize (Hroute route eq_refl).
  apply wp_or_refuse, wp_of_result. destruct (readBody maxBytes q) as [body|c]; [|intros ev; by apply refused_proxied].
  apply wp_or_refuse, wp_in_tables. cbn [tables outside].
  eapply wp_mono; [apply wp_Authorize; unfold keyed_leases; by rewrite Hl1|]. intros [grant|c] t2 [Ht2 Hgrant].
  2: { intros ev. apply refused_proxied; [|done..]. cbn. rewrite Ht2. by apply touches_leases. }
  specialize (Hgrant grant eq_refl).
  assert (Htouch2 : touches (tables d) t2) by (rewrite Ht2; by apply touches_leases).
  assert (He2 : events t2 = events (tables d)) by (rewrite Ht2; cbn; done).
  apply wp_execute; cbn [tables outside].
  - intros answer d' Ht' [Hb (hops & Hw & Hh)] Ha. split; [rewrite Ht'; by apply touches_events|]. split; [done|].
    exists answer. split; [done|]. right. exists target, caller, route, grant, hops. split; [done|]. split.
    + split; try done.
      * by exists agent.
      * unfold declared_route in *. by rewrite <- Hd1.
      * unfold counted in *. rewrite <- Hl1. rewrite Ht'. exact Hgrant.
    + unfold answered in *. by rewrite <- He2.
  - intros reason ev o [Hb _] Hw. by apply refused_proxied.
Qed.

(** C10. Nothing leaves through the proxy without a lease. Whatever a request to
    the proxy asks, either it is refused - the answer is the error, and nothing was
    sent - or the gateway was serving, the session key was that of an active agent,
    the host is that of a declared, enabled service of which the method and path
    are an operation, and an active lease of that agent, workspace, service,
    operation and resource, not expired and not used up, has had one more use
    counted against it before the request; what is sent goes to the host of the
    service only; and the answer is either the reply, with its execution in the
    ledger, or an error. In every case the plaintext of the credential is gone and
    only the agents' last activity, the leases and the ledger have changed. *)
Theorem proxy_sends_under_lease availability operationID q d :
  AgentAuth.sessions_ok (tables d) -> keyed_leases (tables d) ->
  wp (serve e maxBytes availability operationID q) (proxied availability operationID q d) d.
Proof. intros Hs Hk. by apply wp_serve. Qed.

(** A tunnel is never opened: a CONNECT is refused with nothing sent and nothing written. *)
Theorem no_tunnels availability q d :
  q_Method q = "CONNECT" ->
  wp (Handler e maxBytes availability q) (fun r d' => d' = d /\ exists reason operationID,
    r = Ok (writeError reason operationID false)) d.
Proof.
  intros Hq. unfold Handler. rewrite Hq. wp_steps; split; try done; by do 2 eexists.
Qed.
End serving.
