(* ===== verification/McpCalls.v ===== *)
(** * cli/mcpcalls.go: a tool call from its arguments to its answer

    [Call] stores the request, decides it and, when it is allowed, executes it
    under the lease it was given: the use is counted first, then the request is
    sent, then the ledger has it. Refusals by policy are answers, not errors. *)
From S2P Require Import Prelude GoStr Apperr.
From S2P Require Json.
From S2P Require Import RawJson World Store Machine.
From S2P Require Registry Agent Intent Scope Decision Adapters Lease Ledger Request.
From S2P Require LeaseStore LedgerStore RequestStore.
From S2P Require Import Pipeline PipelineSpec Outbound Execute Exchange Orchestration.
From S2P Require ProxyFace.
Open Scope Z_scope.

(** ** The contract with the transport (mcpsrv/server.go) *)

Record Caller := { AgentID : string; WorkspaceID : string }.

Record Call_ := {
  call_Caller : Caller;
  Tool : string;
  Service : string;
  Operation : string;
  Arguments : string;
}.

Record CallOutcome := { Refused : bool; Text : string }.

Definition refusal (text : string) : CallOutcome := {| Refused := true; Text := text |}.

(** ** Arguments *)

(** One declared resource field, moved from the fields to the resource. *)
Definition take_field (parts : gmap string string * option (gmap string string)) (key : string)
    : gmap string string * option (gmap string string) :=
  match parts.2 with
  | None => parts
  | Some fields =>
      match fields !! key with
      | Some value => (<[key := value]> parts.1, Some (delete key fields))
      | None => parts
      end
  end.

Definition argument_fields (arguments : string) : option (option (gmap string string)) :=
  if arguments ==? "" then Some (Some ∅) else unmarshal_raw_map arguments.

Definition or_invalid {A} (o : option A) : result Code A :=
  match o with Some a => Ok a | None => Err CodeInvalidRequest end.

Definition splitArguments `{Unicode} (arguments : string) (capability : Registry.Capability) : result Code (string * string) :=
  fields ← or_invalid (argument_fields arguments);
  let parts := foldl take_field (∅, fields) (Registry.ResourceKeys (Registry.c_MinimumScope capability)) in
  resource ← or_invalid (marshal_raw_map (Some parts.1));
  if negb (Registry.Write capability) then Ok (resource, "")
  else change ← or_invalid (marshal_raw_map parts.2); Ok (resource, change).

(** [None]: the stored scope is not readable. *)
Definition scopeOfLease `{Unicode} (granted : Lease.Lease) : result Code Scope.Scope :=
  match Scope.unmarshal (Lease.ResourceScope granted) with Some s => Ok s | None => Err CodeInternal end.

Definition mcp_metadata : string := Json.print (Json.JObj [("face", Json.of_string "mcp")]).

Definition mcp_event (request : Request.CapabilityRequest) (granted : Lease.Lease) (authorized : Scope.Scope)
    (resolvedScope outcome : string) (status elapsed : Z) : Ledger.Event :=
  {| Ledger.ID := ""; Ledger.OperationID := Request.OperationID request; Ledger.Type_ := Ledger.EventAdapterExecuted;
     Ledger.AgentID := Request.AgentID request; Ledger.DeviceID := ""; Ledger.WorkspaceID := Request.WorkspaceID request;
     Ledger.IdentityID := Scope.IdentityID authorized; Ledger.CredentialProviderID := "";
     Ledger.Service := Scope.Service authorized; Ledger.Operation := Scope.Operation authorized;
     Ledger.Resource := ProxyFace.resourceText (Scope.Resource authorized); Ledger.ResolvedScope := resolvedScope;
     Ledger.Verdict := Decision.VerdictAutoAllow; Ledger.RiskLevel := ""; Ledger.DecisionID := "";
     Ledger.ApprovalID := ""; Ledger.LeaseID := Lease.ID granted; Ledger.LeaseStatus := "";
     Ledger.Outcome := outcome; Ledger.ResponseStatus := status; Ledger.Duration := elapsed;
     Ledger.IsRedacted := true; Ledger.Metadata := mcp_metadata; Ledger.CreatedAt := 0 |}.

Section calls.
Context `{Env} `{Unicode} `{Intent.Floats} `{Credentials} (p : Options) (e : Exchange).

(** [open]; the operation identifier is that of the transport's request. *)
Definition open (operationID : string) (call : Call_) : M DB Code Request.CapabilityRequest :=
  capability ← of_result (Adapters.capability_of (registry e) (Service call) (Operation call));
  '(resource, change) ← of_result (splitArguments (Arguments call) capability);
  id ← NewID;
  now ← Now;
  RequestStore.CreateRequest
    {| Request.ID := id; Request.OperationID := operationID; Request.AgentID := AgentID (call_Caller call);
       Request.WorkspaceID := WorkspaceID (call_Caller call); Request.Service := Service call;
       Request.Operation := Operation call; Request.Resource := resource; Request.DesiredChange := change;
       Request.Reason := "MCP tool call: " +:+ Tool call; Request.Status := Request.StatusReceived;
       Request.ChangePreview := ""; Request.CreatedAt := now; Request.UpdatedAt := now |}.

Definition record (request : Request.CapabilityRequest) (granted : Lease.Lease) (authorized : Scope.Scope)
    (outcome : string) (status elapsed : Z) : M DB Code unit :=
  resolvedScope ← of_result (match Scope.marshal authorized with Some t => Ok t | None => Err CodeInternal end);
  _ ← Ledger.Record_ (mcp_event request granted authorized resolvedScope outcome status elapsed);
  mret tt.

Definition move (request : Request.CapabilityRequest) (from to : string) : M DB Code Request.CapabilityRequest :=
  now ← Now; RequestStore.AdvanceRequest (Request.ID request) from to now.

(** [errors.Join] has the code of its first part. *)
Definition failed {A} (request : Request.CapabilityRequest) (granted : Lease.Lease) (authorized : Scope.Scope)
    (elapsed : Z) (cause : Code) : M DB Code A :=
  _ ← try_ (record request granted authorized Ledger.OutcomeFailed 0 elapsed) : M DB Code (result Code unit);
  _ ← try_ (move request Request.StatusExecuting Request.StatusFailed) : M DB Code (result Code Request.CapabilityRequest);
  throw cause.

Definition request_of (request running : Request.CapabilityRequest) (authorized : Scope.Scope) : ExchangeRequest :=
  {| x_Service := Scope.Service authorized; x_Operation := Scope.Operation authorized;
     x_IdentityID := Scope.IdentityID authorized; x_Resource := Scope.Resource authorized; x_Query := [];
     x_Body := Request.DesiredChange running; x_OperationID := Request.OperationID request |}.

Definition execute (request : Request.CapabilityRequest) (granted : Lease.Lease) : M Machine Code CallOutcome :=
  authorized ← of_result (scopeOfLease granted);
  running ← in_tables (move request Request.StatusAutoAllowed Request.StatusExecuting);
  used ← try_ (in_tables (Lease.Manager.Use (Lease.ID granted) authorized));
  match used with
  | Err cause => in_tables (failed running granted authorized 0 cause)
  | Ok _ =>
      started ← Now;
      sent ← try_ (Send e (request_of request running authorized));
      match sent with
      | Err cause => finished ← Now; in_tables (failed running granted authorized (finished - started) cause)
      | Ok reply =>
          let ok := y_StatusCode reply =? 200 in
          finished ← Now;
          _ ← in_tables (record running granted authorized (if ok then Ledger.OutcomeSucceeded else Ledger.OutcomeFailed)
                (y_UpstreamStatus reply) (finished - started));
          _ ← in_tables (move running Request.StatusExecuting (if ok then Request.StatusSucceeded else Request.StatusFailed));
          mret {| Refused := false; Text := y_Body reply |}
      end
  end.

Definition Call (operationID : string) (call : Call_) : M Machine Code CallOutcome :=
  request ← in_tables (open operationID call);
  result ← Decide p e request;
  let verdict := Decision.Verdict (res_Outcome result) in
  if verdict ==? Decision.VerdictAutoAllow then
    match res_Lease result with
    | None => throw CodeInternal
    | Some granted => execute (res_Request result) granted
    end
  else if verdict ==? Decision.VerdictRequireApproval then
    mret (refusal ("This call is waiting for a person to approve it in OpenDelo. Nothing was sent to " +:+ Service call +:+ "."))
  else if verdict ==? Decision.VerdictDeny then
    mret (refusal ("Refused by policy (" +:+ Decision.Reason (res_Outcome result) +:+ "). Nothing was sent to " +:+ Service call +:+ "."))
  else mret (refusal "Refused: the gateway could not reach a decision.").
End calls.

(** ** Arguments, taken apart *)

(** Each argument goes to exactly one side: to the resource when the capability
    declares it, else to the change. *)
Lemma take_fields_spec keys resource fields resource' rest :
  foldl take_field (resource, Some fields) keys = (resource', rest) -> resource ##ₘ fields ->
  exists fields', rest = Some fields' /\ resource' ##ₘ fields' /\ resource' ∪ fields' = resource ∪ fields /\
    (forall key, is_Some (fields' !! key) <-> is_Some (fields !! key) /\ key ∉ keys).
Proof.
  revert resource fields. induction keys as [|key keys IH]; intros resource fields; cbn.
  - intros [= <- <-] Hd. exists fields. split_and!; [done..|]. set_solver.
  - cbn [take_field snd fst]. destruct (fields !! key) as [value|] eqn:Ek; intros Hf Hd.
    + assert (resource !! key = None) as Hn by (by apply (map_disjoint_Some_l fields resource key value)).
      destruct (IH _ _ Hf) as (fields' & -> & Hd' & Hu & Hin).
      { apply map_disjoint_insert_l. split; [apply lookup_delete_eq|by apply map_disjoint_delete_r]. }
      exists fields'. split_and!; [done|done| |].
      * rewrite Hu. by apply union_insert_delete.
      * intros other. rewrite Hin, elem_of_cons. destruct (decide (other = key)) as [->|Hne].
        -- rewrite lookup_delete_eq. split; [by intros [[? [=]] _]|]. intros [_ Hnot]. exfalso. apply Hnot. by left.
        -- rewrite lookup_delete_ne by done. naive_solver.
    + destruct (IH _ _ Hf Hd) as (fields' & -> & Hd' & Hu & Hin). exists fields'. split_and!; [done..|].
      intros other. rewrite Hin, elem_of_cons. destruct (decide (other = key)) as [->|Hne]; [|naive_solver].
      rewrite Ek. split; [by intros [[? [=]] _]|by intros [[? [=]] _]].
Qed.

(** Arguments are taken apart and nothing is lost. When the split succeeds - they
    are an object, null or absent - the resource and the change are the texts of two disjoint maps that together are the arguments, the
    resource having the keys the capability declares and the change all others; a
    capability that only reads has no change. *)
Theorem split_arguments `{Unicode} arguments capability resource change :
  splitArguments arguments capability = Ok (resource, change) ->
  exists fields named others,
    argument_fields arguments = Some fields /\ marshal_raw_map (Some named) = Some resource /\
    (if Registry.Write capability then marshal_raw_map others = Some change else change = "") /\
    named ##ₘ default ∅ others /\ named ∪ default ∅ others = default ∅ fields /\
    (fields = None <-> others = None) /\
    (forall key, is_Some (default ∅ others !! key) <->
       is_Some (default ∅ fields !! key) /\ key ∉ Registry.ResourceKeys (Registry.c_MinimumScope capability)).
Proof.
  unfold splitArguments. destruct (argument_fields arguments) as [fields|]; [|done]. cbn [or_invalid mbind result_bind].
  set (keys := Registry.ResourceKeys _).
  assert (exists named others, foldl take_field (∅, fields) keys = (named, others) /\
    named ##ₘ default ∅ others /\ named ∪ default ∅ others = default ∅ fields /\ (fields = None <-> others = None) /\
    (forall key, is_Some (default ∅ others !! key) <-> is_Some (default ∅ fields !! key) /\ key ∉ keys))
    as (named & others & -> & Hd & Hu & Hnone & Hin).
  { destruct fields as [fields|].
    - destruct (foldl take_field (∅, Some fields) keys) as [named others] eqn:Ef.
      destruct (take_fields_spec _ _ _ _ _ Ef) as (fields' & -> & Hd & Hu & Hin); [apply map_disjoint_empty_l|].
      exists named, (Some fields'). rewrite map_empty_union in Hu. by split_and!.
    - exists ∅, None. assert (forall l, foldl take_field (∅, None) l = (∅, None)) as -> by (by induction l).
      cbn. split_and!; [done|apply map_disjoint_empty_l|by rewrite map_empty_union|done|].
      intros key. rewrite lookup_empty. split; [by intros [? [=]]|by intros [[? [=]] _]]. }
  cbn [fst snd]. destruct (marshal_raw_map (Some named)) as [text|] eqn:Et; [|done]. cbn [or_invalid mbind result_bind].
  destruct (Registry.Write capability) eqn:Ew; cbn [negb].
  - destruct (marshal_raw_map others) as [rest|] eqn:Er; [|done]. cbn. intros [= <- <-].
    exists fields, named, others. by split_and!.
  - intros [= <- <-]. exists fields, named, others. by split_and!.
Qed.

(** ** Executing under a lease *)

(** One use of a lease more: it was active, alive, not used up, and its scope
    covers what is sent. *)
Definition used_under `{Env} `{Unicode} (t t' : DB) (granted : Lease.Lease) (authorized : Scope.Scope) : Prop :=
  exists l l' reach n,
    leases t !! Lease.ID granted = Some l /\ Lease.isActive l = true /\ column (clock_at n) < Lease.ExpiresAt l /\
    (Lease.RequestLimit l = Lease.Unlimited \/ Lease.UsedRequests l < Lease.RequestLimit l) /\
    Lease.ScopeOf l = Ok reach /\ Scope.CoversIgnoringWindow reach authorized = true /\
    leases t' !! Lease.ID granted = Some l' /\ Lease.grant_of l' = Lease.grant_of l /\
    Lease.UsedRequests l' = Lease.UsedRequests l + 1.

(** The event of an execution. *)
Record executed_as (request : Request.CapabilityRequest) (granted : Lease.Lease) (authorized : Scope.Scope)
    (outcome : string) (status : Z) (ev : Ledger.Event) : Prop := {
  xe_type : Ledger.Type_ ev = Ledger.EventAdapterExecuted;
  xe_operation_id : Ledger.OperationID ev = Request.OperationID request;
  xe_agent : Ledger.AgentID ev = Request.AgentID request;
  xe_lease : Ledger.LeaseID ev = Lease.ID granted;
  xe_identity : Ledger.IdentityID ev = Scope.IdentityID authorized;
  xe_service : Ledger.Service ev = Scope.Service authorized;
  xe_operation : Ledger.Operation ev = Scope.Operation authorized;
  xe_outcome : Ledger.Outcome ev = outcome;
  xe_status : Ledger.ResponseStatus ev = optionalCount status;
}.

Section executing.
Context `{Env} `{Unicode} `{Intent.Floats} `{CredentialsLaws} (p : Options) (e : Exchange) (site : string -> string).
Hypothesis lawful : forall service, ExecutorLaws (executors e service) (site service).

Lemma wp_record request granted authorized outcome status elapsed t :
  wp (record request granted authorized outcome status elapsed) (fun r t' => t' = put (events t') t /\ (r = Ok tt ->
    exists ev, executed_as request granted authorized outcome status ev /\ events t' !! Ledger.ID ev = Some ev)) t.
Proof.
  unfold record. wp_steps. destruct (Scope.marshal authorized) as [text|]; [|by split; [destruct t|]]. wp_steps.
  eapply wp_mono; [apply ProxyFace.wp_recorded|]. intros [ev|c] t' [Hf Hr]; [|done]. wp_steps. split; [done|]. intros _.
  destruct (Hr eq_refl) as (event & (id & n & k & rs & sc & md & _ & _ & _ & _ & ->) & _ & Ht).
  eexists. split; [|by rewrite Ht; apply lookup_insert_eq]. by split.
Qed.

Lemma wp_move request from to t :
  wp (move request from to) (fun r t' => t' = put (requests t') t /\ match r with
    | Ok x => exists r0 n, requests t !! Request.ID request = Some r0 /\ Request.Status r0 = from /\
        x = Request.advanced r0 to (clock_at n) /\ requests t' = <[Request.ID request := x]> (requests t)
    | Err _ => requests t' = requests t
    end) t.
Proof.
  unfold move. wp_steps. apply RequestStore.wp_AdvanceRequest.
  - intros c. by split; [destruct t|].
  - intros r0 Hr Hs. split; [done|]. by exists r0, n.
Qed.

(** A failure changes the ledger and the request, and keeps its cause. *)
Lemma wp_failed {A} request granted authorized elapsed cause t :
  wp (failed (A := A) request granted authorized elapsed cause) (fun r t' => r = Err cause /\ leases t' = leases t) t.
Proof.
  unfold failed. apply wp_bind, wp_try. eapply wp_mono; [apply wp_record|]. intros r1 t1 [Hf1 _].
  apply wp_bind, wp_try. eapply wp_mono; [apply wp_move|]. intros r2 t2 [Hf2 _]. apply wp_throw. split; [done|].
  by rewrite Hf2, Hf1.
Qed.

(** The end of an execution: its event, and the request closed in the same way. *)
Definition closed_as (request : Request.CapabilityRequest) (granted : Lease.Lease) (authorized : Scope.Scope) (t : DB) : Prop :=
  exists (ok : bool) status ev x,
    executed_as request granted authorized (if ok then Ledger.OutcomeSucceeded else Ledger.OutcomeFailed) status ev /\
    events t !! Ledger.ID ev = Some ev /\ requests t !! Request.ID request = Some x /\
    Request.Status x = if ok then Request.StatusSucceeded else Request.StatusFailed.

(** What executing under a lease leaves. *)
Definition execution (request : Request.CapabilityRequest) (granted : Lease.Lease) (d : Machine)
    (r : result Code CallOutcome) (d' : Machine) : Prop :=
  (exists rest, boxes (outside d') = boxes (outside d) ++ rest /\ emptied rest) /\
  ((wire (outside d') = wire (outside d) /\ is_Ok r = false) \/
   exists authorized hops, scopeOfLease granted = Ok authorized /\ used_under (tables d) (tables d') granted authorized /\
     wire (outside d') = wire (outside d) ++ hops /\
     (forall h, h ∈ hops -> Url.Host (h_URL h) = site (Scope.Service authorized)) /\
     forall out, r = Ok out -> Refused out = false /\ closed_as request granted authorized (tables d')).

Lemma execution_stopped request granted d r d' :
  tidy (outside d) (outside d') -> is_Ok r = false -> execution request granted d r d'.
Proof. intros [Hw Hb] Hr. split; [done|]. by left. Qed.

Lemma wp_mcp_execute request granted d :
  (forall x, requests (tables d) !! Request.ID request = Some x -> Request.ID x = Request.ID request /\
     Request.OperationID x = Request.OperationID request /\ Request.AgentID x = Request.AgentID request) ->
  wp (execute e request granted) (execution request granted d) d.
Proof.
  intros Hrow. pose proof (tidy_refl (outside d)) as Hrefl. unfold execute. apply wp_bind, wp_of_result.
  destruct (scopeOfLease granted) as [authorized|c] eqn:Ea; [|by apply execution_stopped].
  apply wp_bind, wp_in_tables. eapply wp_mono; [apply wp_move|]. intros [running|c] t1 [Hf1 Hr1]; [|by apply execution_stopped].
  destruct Hr1 as (r0 & n0 & Hr0 & _ & -> & Hreq1). destruct (Hrow _ Hr0) as (Hid & Hop & Hag).
  set (running := Request.advanced r0 Request.StatusExecuting (clock_at n0)).
  assert (Hrid : Request.ID running = Request.ID request) by done.
  assert (Hl1 : leases t1 = leases (tables d)) by (by rewrite Hf1).
  apply wp_bind, wp_try, wp_in_tables. cbn [tables outside].
  eapply wp_mono; [apply (Lease.wp_Manager_Use (D := DB) (Lease.ID granted) authorized t1)|].
  intros [used|c] t2 Hu.
  2: { apply wp_in_tables. eapply wp_mono; [apply wp_failed|]. intros r t3 [-> _]. by apply execution_stopped. }
  destruct Hu as (l & reach & n & Hl & Hreach & Hcov & _ & Hact & Hexp & Hlim & Hgr & Hused & _ & Ht2). cbn in Hl, Ht2.
  assert (Huse : forall t3, leases t3 = leases t2 -> used_under (tables d) t3 granted authorized).
  { intros t3 Hf3. exists l, used, reach, n. rewrite <- Hl1, Hf3, Ht2, lookup_insert_eq. unfold Lease.isActive.
    rewrite Hact. by split_and!. }
  apply wp_bind, wp_Now. intros started. apply wp_bind, wp_try.
  eapply wp_mono; [by apply (wp_exchange_Send e site)|]. intros [reply|c] d3 (Ht3 & [Hb (hops & Hw & Hh)] & Hsent & _).
  2: { apply wp_bind, wp_Now. intros m. apply wp_in_tables. eapply wp_mono; [apply wp_failed|]. intros r t4 [-> _].
       apply execution_stopped; [|done]. split; [by apply Hsent|done]. }
  cbn [tables] in Ht3. cbn [x_Service request_of] in Hh.
  set (ok := y_StatusCode reply =? 200). apply wp_bind, wp_Now. intros m.
  assert (Hend : forall r t4, leases t4 = leases t2 -> (forall out, r = Ok out -> Refused out = false /\
    closed_as request granted authorized t4) -> execution request granted d r (mkMachine t4 (outside d3))).
  { intros r t4 Hf4 Hr. split; [done|]. right. exists authorized, hops. split_and!; try done. by apply Huse. }
  apply wp_bind, wp_in_tables. eapply wp_mono; [apply wp_record|]. intros r t4 [Hf4 Hev]. rewrite Ht3 in Hf4.
  destruct r as [[]|c]; [|apply Hend; [by rewrite Hf4|done]].
  destruct (Hev eq_refl) as (ev & Hx & Hin). apply wp_bind, wp_in_tables. cbn [tables outside].
  eapply wp_mono; [apply wp_move|]. intros r t5 [Hf5 Hr5].
  assert (Hl5 : leases t5 = leases t2) by (by rewrite Hf5, Hf4).
  destruct r as [x|c]; [|by apply Hend]. apply wp_ret, Hend; [done|]. intros out [= <-]. split; [done|].
  destruct Hr5 as (r1 & n1 & _ & _ & -> & Hreq5). eexists ok, _, ev, _. split_and!.
  - destruct Hx. split; try done; cbn in *; congruence.
  - rewrite Hf5. cbn. exact Hin.
  - rewrite Hreq5. rewrite Hrid. apply lookup_insert_eq.
  - by destruct ok.
Qed.

(** ** The whole call *)

(** The request a call is stored as. *)
Record opened (operationID : string) (call : Call_) (request : Request.CapabilityRequest) : Prop := {
  op_operation_id : Request.OperationID request = operationID;
  op_agent : Request.AgentID request = AgentID (call_Caller call);
  op_workspace : Request.WorkspaceID request = WorkspaceID (call_Caller call);
  op_service : Request.Service request = Service call;
  op_operation : Request.Operation request = Operation call;
  op_status : Request.Status request = Request.StatusReceived;
}.

Definition with_request (request : Request.CapabilityRequest) (t : DB) : DB :=
  put (<[Request.ID request := request]> (requests t)) t.

Lemma wp_open operationID call t :
  wp (open e operationID call) (fun r t' => match r with
    | Ok request => opened operationID call request /\ requests t !! Request.ID request = None /\ t' = with_request request t
    | Err _ => t' = t
    end) t.
Proof.
  unfold open. wp_steps. destruct (Adapters.capability_of _ _ _) as [capability|]; [|done]. wp_steps.
  destruct (splitArguments _ _) as [[resource change]|]; [|done]. wp_steps; [|done].
  unfold RequestStore.CreateRequest. apply wp_map_err.
  match goal with |- wp (stmt (fun d => on (insert_row _ (Request.stored ?q) _ _ _) d)) _ _ => set (request := q) end.
  apply (wp_insert (Request.ID request) (fun _ => Request.stored request) (fun _ => RequestStore.checked_request (Request.stored request))
    (fun _ => true) (fun d => RequestStore.referring_request d request)); [done|]. intros _ Hn _ _.
  split_and!; [by split|exact Hn|done].
Qed.

(** The lease is the caller's, and reaches as far as what the call asks for: it is
    for exactly that scope, or covers it. *)
Definition allowed_to (call : Call_) (granted : Lease.Lease) : Prop :=
  Lease.AgentID granted = AgentID (call_Caller call) /\
  exists s, Scope.AgentID s = AgentID (call_Caller call) /\ Scope.WorkspaceID s = WorkspaceID (call_Caller call) /\
    Intent.operationKeyOf (Scope.Service s) (Scope.Operation s) = Intent.operationKeyOf (Service call) (Operation call) /\
    (Scope.marshal s = Some (Lease.ResourceScope granted) \/
     exists reach, Lease.ScopeOf granted = Ok reach /\ Scope.CoversIgnoringWindow reach s = true).

Lemma lease_allowed operationID call request inputs granted :
  opened operationID call request -> inputs_of p request inputs -> lease_for p inputs granted -> allowed_to call granted.
Proof.
  intros [Hop Hag Hws Hsv Ho _] [Hin Hmeant] (Hl & parsed & s & Hp & Ha & Hw & Hs & Hop' & Hreach). rewrite Hin in *.
  split; [congruence|]. exists s. rewrite Hs, Hop'. rewrite (Hmeant _ Hp), Hsv, Ho. split_and!; congruence || done.
Qed.

(** What a call leaves: nothing was executed, and at most values were looked up;
    or it was executed under the lease its decision gave. *)
Definition called (operationID : string) (call : Call_) (d : Machine) (r : result Code CallOutcome) (d' : Machine) : Prop :=
  (exists rest, boxes (outside d') = boxes (outside d) ++ rest /\ emptied rest) /\
  ((only_looks (outside d) (outside d') /\ (forall out, r = Ok out -> Refused out = true)) \/
   exists request inputs t result granted authorized hops,
     opened operationID call request /\ requests (tables d) !! Request.ID request = None /\
     inputs_of p request inputs /\ handled p inputs (with_request request (tables d)) t result /\
     Decision.Verdict (res_Outcome result) = Decision.VerdictAutoAllow /\ res_Lease result = Some granted /\
     allowed_to call granted /\ scopeOfLease granted = Ok authorized /\ used_under t (tables d') granted authorized /\
     wire (outside d') = wire (outside d) ++ hops /\
     (forall h, h ∈ hops -> Url.Host (h_URL h) = site (Scope.Service authorized)) /\
     forall out, r = Ok out -> Refused out = false /\ closed_as request granted authorized (tables d')).

Lemma stopped_called operationID call d r d' :
  only_looks (outside d) (outside d') -> (forall out, r = Ok out -> Refused out = true) -> called operationID call d r d'.
Proof. intros [Hb Hw] Hr. split; [done|]. left. by split. Qed.

(** The stored request keeps its identifiers through the chain. *)
Lemma handled_request inputs request t0 t t' result :
  inputs_of p request inputs -> handled p inputs (with_request request t0) t result ->
  previewed_only (Request.ID (res_Request result)) t t' ->
  Request.ID (res_Request result) = Request.ID request /\
  Request.OperationID (res_Request result) = Request.OperationID request /\
  Request.AgentID (res_Request result) = Request.AgentID request /\ leases t' = leases t /\
  (forall x, requests t' !! Request.ID request = Some x -> Request.ID x = Request.ID request /\
     Request.OperationID x = Request.OperationID request /\ Request.AgentID x = Request.AgentID request).
Proof.
  intros [Hin _] (_ & ev & r0 & n & _ & _ & _ & _ & _ & Hr0 & _ & Hres & Hreq & _) Hp. rewrite Hin in *.
  unfold with_request in Hr0. cbn in Hr0. rewrite lookup_insert_eq in Hr0. injection Hr0 as <-.
  assert (Hid : Request.ID (res_Request result) = Request.ID request) by (by rewrite Hres).
  assert (Hrow : requests t !! Request.ID request = Some (res_Request result)) by (by rewrite Hreq, lookup_insert_eq).
  split; [done|]. split; [by rewrite Hres|]. split; [by rewrite Hres|]. destruct Hp as [->|(x & text & now & Hx & _ & ->)].
  - split; [done|]. intros x Hx. rewrite Hrow in Hx. injection Hx as <-. by rewrite Hres.
  - split; [done|]. intros y. cbn. rewrite Hid, lookup_insert_eq. intros [= <-]. rewrite Hid, Hrow in Hx.
    injection Hx as <-. by rewrite Hres.
Qed.

Lemma wp_Call operationID call d :
  ProxyFace.keyed_leases (tables d) -> wp (Call p e operationID call) (called operationID call d) d.
Proof.
  intros Hk. pose proof (only_looks_refl (outside d)) as Hrefl. unfold Call. apply wp_bind, wp_in_tables.
  eapply wp_mono; [apply wp_open|]. intros [request|c] t1 Ho; [|by apply stopped_called].
  destruct Ho as (Hopened & Hfresh & ->). apply wp_bind. eapply wp_mono; [apply (wp_Decide p e site lawful)|].
  intros [result|c] d2 [Hlook Hd]; [|by apply stopped_called]. cbn [tables outside] in Hlook, Hd.
  destruct Hd as (inputs & t & Hin & Hh & Hlease & Hp & Hout). cbn zeta.
  destruct (_ ==? Decision.VerdictAutoAllow) eqn:Ev.
  2: { repeat case_match; apply wp_ret, stopped_called; try done; by intros out [= <-]. }
  apply bool_decide_eq_true in Ev.
  assert (Hsame : outside d2 = outside d).
  { destruct Hout as [Hout|(rec & Hrec & Hv)]; [done|]. exfalso.
    destruct Hh as (_ & ev & r0 & n & _ & _ & _ & _ & Hverdict & _). rewrite (proj1 (Hverdict _ Hrec)), Ev in Hv. discriminate Hv. }
  destruct (res_Lease result) as [granted|] eqn:Eg; [|by apply wp_throw, stopped_called].
  destruct (handled_request _ _ _ _ _ _ Hin Hh Hp) as (Hid & Hop & Hag & Hl2 & Hrows).
  eapply wp_mono; [apply wp_mcp_execute; rewrite Hid, Hop, Hag; exact Hrows|]. intros r d' [Hb Hx]. rewrite Hsame in Hb, Hx. split; [done|].
  destruct Hx as [[Hw Hr]|(authorized & hops & Hs & Hu & Hw & Hh' & Hok)].
  - left. split; [split; [done|exists []; rewrite app_nil_r; split; [done|by intros h []%not_elem_of_nil]]|].
    intros out ->. discriminate Hr.
  - right. exists request, inputs, t, result, granted, authorized, hops. split_and!; try done.
    + eapply lease_allowed; [done..|]. by apply Hlease.
    + destruct Hu as (l & l' & reach & n & Hu). exists l, l', reach, n. by rewrite <- Hl2.
    + intros out Hr. destruct (Hok out Hr) as [Href (ok & status & ev & x & Hev & Hin' & Hq & Hst)]. split; [done|].
      exists ok, status, ev, x. destruct (Hh) as (_ & ? & r0 & n & _ & _ & _ & _ & _ & Hr0 & _ & Hres & _).
      rewrite (io_request _ _ _ Hin) in Hr0. unfold with_request in Hr0. cbn in Hr0. rewrite lookup_insert_eq in Hr0.
      injection Hr0 as <-. rewrite Hid in Hq. split_and!; try done. destruct Hev. rewrite Hres in *. by split.
Qed.

(** C8. A tool call is executed only under a lease that lets it. Whatever is
    called, with whatever arguments, either nothing was executed - what was sent,
    if anything, are look-ups with the method GET and no body, and an answer is a
    refusal - or the call was stored as a new request of the caller, the chain
    decided on it, allowed it and gave it a lease; that lease is the caller's, for
    the service and operation of the call, issued for the decided scope or
    covering it; it was active, alive and not used up, and one use was counted
    before anything was sent; everything went to the host of the service; and an
    answer that is not a refusal is given only when the ledger has the execution
    and the request is closed with the same outcome. No plaintext of a credential
    is left in any case. *)
Theorem mcp_call_under_lease operationID call d :
  ProxyFace.keyed_leases (tables d) -> wp (Call p e operationID call) (called operationID call d) d.
Proof. intros Hk. by apply wp_Call. Qed.

(** Without an operation identifier no call ever succeeds, and nothing is sent. *)
Theorem untraced_calls_fail call d :
  wp (Call p e "" call) (fun r d' => is_Ok r = false /\ outside d' = outside d) d.
Proof.
  unfold Call. apply wp_bind, wp_in_tables. eapply wp_mono; [apply wp_open|]. intros [request|c] t Ho; [|done].
  destruct Ho as ([Hop _ _ _ _ _] & _ & _). unfold Decide. apply wp_bind, wp_bind, wp_in_tables.
  eapply wp_mono; [apply (wp_inputsFor p)|]. intros [inputs|c] t' [_ Hin]; [|done].
  destruct (Hin inputs eq_refl) as [Hreq _]. apply wp_bind, wp_in_tables. unfold Handle. rewrite Hreq, Hop, orb_true_r.
  by apply wp_bind, wp_refuse.
Qed.
End executing.
