(* ===== verification/McpServer.v ===== *)
(** * transport/mcpsrv: the tools an agent sees, and its calls (protocol.go, tools.go,
    server.go, http.go, stdio.go)

    The list of tools is generated from the declared capabilities; a message is
    dispatched by its method, and only a call by a known agent of a listed tool
    reaches [McpCalls.Call]. HTTP and standard input share the dispatcher. Log
    lines are left out. *)
From S2P Require Import Prelude GoStr Apperr.
From S2P Require Json.
From S2P Require Import RawJson World Store Machine.
From S2P Require Gateway Registry Agent Intent Declare Forbidden Adapters AgentAuth Lease.
From S2P Require Import Pipeline Outbound Execute Exchange Orchestration.
From S2P Require ProxyFace McpCalls.
Open Scope Z_scope.
Set Warnings "-register-all".

(** ** Frames (protocol.go) *)

Definition ProtocolVersion : string := "2025-06-18".
Definition serverName : string := "opendelo".
Definition serverVersion : string := "0.1.0".

Definition codeParseError : Z := -32700.
Definition codeInvalidRequest : Z := -32600.
Definition codeMethodNotFound : Z := -32601.
Definition codeInternalError : Z := -32603.
Definition codeApplicationError : Z := -32000.

Definition methodInitialize : string := "initialize".
Definition methodToolsList : string := "tools/list".
Definition methodToolsCall : string := "tools/call".
Definition methodPing : string := "ping".

(** Raw fields are texts, empty where the field is absent. *)
Record frame := { JSONRPC : string; f_ID : string; Method : string; Params : string }.

Definition isNotification (f : frame) : bool := f_ID f ==? "".

(** The result of a response is the text it is encoded as, [None] where that fails. *)
Inductive payload := Result_ (text : option string) | Error_ (code : Z) (message : string).
Record response := { r_ID : string; r_Body : payload }.

Definition newResult (id text : string) : response := {| r_ID := id; r_Body := Result_ (Some text) |}.
Definition newError (id : string) (code : Z) (message : string) : response :=
  {| r_ID := id; r_Body := Error_ code message |}.

(** Members of an object whose values are texts already. *)
Definition object_text (members : list (string * string)) : string :=
  "{" +:+ join "," (map (fun m => Json.quote m.1 +:+ ":" +:+ m.2) members) +:+ "}".

Definition array_text (items : list string) : string := "[" +:+ join "," items +:+ "]".

Definition response_text (r : response) : option string :=
  id ← marshal_raw (r_ID r);
  body ← (match r_Body r with
          | Result_ text => text ← text; Some ("result", text)
          | Error_ code message => Some ("error", object_text [("code", itoa code); ("message", Json.quote message)])
          end);
  Some (object_text [("jsonrpc", Json.quote "2.0"); ("id", id); body]).

Definition newInitializeResult : string :=
  object_text [("protocolVersion", Json.quote ProtocolVersion);
    ("capabilities", object_text [("tools", object_text [("listChanged", "false")])]);
    ("serverInfo", object_text [("name", Json.quote serverName); ("version", Json.quote serverVersion)])].

Definition callResult_text (text : string) (isError : bool) : string :=
  object_text [("content", array_text [object_text [("type", Json.quote "text"); ("text", Json.quote text)]]);
               ("isError", if isError then "true" else "false")].

Definition textResult (text : string) : string := callResult_text text false.
Definition refusalResult (text : string) : string := callResult_text text true.

Definition raw_string (raw old : string) : option string := v ← Json.parse raw; Json.as_string old v.

Definition frame_setters : list (Json.raw_setter (S := frame)) :=
  [ ("jsonrpc", fun raw f => s ← raw_string raw (JSONRPC f);
      Some {| JSONRPC := s; f_ID := f_ID f; Method := Method f; Params := Params f |});
    ("id", fun raw f => Some {| JSONRPC := JSONRPC f; f_ID := raw; Method := Method f; Params := Params f |});
    ("method", fun raw f => s ← raw_string raw (Method f);
      Some {| JSONRPC := JSONRPC f; f_ID := f_ID f; Method := s; Params := Params f |});
    ("params", fun raw f => Some {| JSONRPC := JSONRPC f; f_ID := f_ID f; Method := Method f; Params := raw |}) ].

Definition decodeFrame `{Unicode} (line : string) : option frame :=
  let trimmed := trim_space line in
  if trimmed ==? "" then None
  else Json.unmarshal_raw frame_setters trimmed {| JSONRPC := ""; f_ID := ""; Method := ""; Params := "" |}.

Definition callParams_setters : list (Json.raw_setter (S := string * string)) :=
  [ ("name", fun raw p => s ← raw_string raw p.1; Some (s, p.2)); ("arguments", fun raw p => Some (p.1, raw)) ].

(** The name and the arguments of a call. *)
Definition callParams `{Unicode} (params : string) : option (string * string) :=
  Json.unmarshal_raw callParams_setters params ("", "").

(** ** Tools (tools.go) *)

Record Tool_ := { t_Name : string; t_Description : string; t_InputSchema : string }.

Record Catalog := { tools : list Tool_; byName : gmap string (string * string) }.

Definition by_name : relation Tool_ := fun a b => String.le (t_Name a) (t_Name b).

#[export] Instance by_name_dec : RelDecision by_name := fun a b => decide (String.le (t_Name a) (t_Name b)).

(** What a client makes of a name. *)
Fixpoint normalize (name : string) : string :=
  match name with "" => "" | String c r => String (if byte_of c =? 46 then of_byte 95 else c) (normalize r) end.

Section catalog.
Context `{Unicode}.

Definition describe (capability : Registry.Capability) : string :=
  "Risk: " +:+ Registry.RiskLabel capability +:+
  (if Registry.Write capability then ". Changes external state" else ". Read-only") +:+
  ". Rollback: " +:+ Registry.Rollback capability +:+
  ". Every call is authorized individually and may require human approval.".

Definition newTool (service : string) (capability : Registry.Capability) : result Code Tool_ :=
  _ ← Registry.Validate capability;
  name ← Declare.ToolName service (Registry.Operation capability);
  match Forbidden.Classify service (Registry.Operation capability) with
  | Some _ => Err CodeInvalidConfiguration
  | None =>
      match unmarshal_message (Registry.InputSchema capability) with
      | None => Err CodeInvalidConfiguration
      | Some schema => Ok {| t_Name := name; t_Description := describe capability; t_InputSchema := schema |}
      end
  end.

(** The tools so far, and the names as clients see them. *)
Definition add_tool (service : string) (state : Catalog * gset string) (capability : Registry.Capability)
    : result Code (Catalog * gset string) :=
  tool ← newTool service capability;
  _ ← refuse_if (bool_decide (is_Some (byName state.1 !! t_Name tool))) CodeInvalidConfiguration;
  _ ← refuse_if (bool_decide (normalize (t_Name tool) ∈ state.2)) CodeInvalidConfiguration;
  Ok ({| tools := tools state.1 ++ [tool];
         byName := <[t_Name tool := (service, Registry.Operation capability)]> (byName state.1) |},
      {[normalize (t_Name tool)]} ∪ state.2).

Definition add_service (registry : Adapters.Registry) (state : Catalog * gset string) (service : string)
    : result Code (Catalog * gset string) :=
  adapter ← Adapters.adapter_of registry service;
  Intent.fold_result (add_tool service) state (Adapters.Capabilities adapter).

Definition NewCatalog (registry : Adapters.Registry) : result Code Catalog :=
  '(catalog, _) ← Intent.fold_result (add_service registry) ({| tools := []; byName := ∅ |}, ∅) (Adapters.Services registry);
  Ok {| tools := merge_sort by_name (tools catalog); byName := byName catalog |}.

Definition Target (c : Catalog) (name : string) : option (string * string) := byName c !! name.
End catalog.

Definition tool_text (tool : Tool_) : option string :=
  schema ← marshal_raw (t_InputSchema tool);
  Some (object_text [("name", Json.quote (t_Name tool)); ("description", Json.quote (t_Description tool)); ("inputSchema", schema)]).

Definition tools_text (c : Catalog) : option string :=
  items ← mapM tool_text (tools c); Some (object_text [("tools", array_text items)]).

(** ** The dispatcher (server.go) *)

Section server.
Context `{Env} `{Unicode} `{Intent.Floats} `{Credentials} (p : Options) (e : Exchange) (catalog : Catalog).

(** [mcpAuthenticator]. *)
Definition Authenticate (sessionKey : string) : M DB Code McpCalls.Caller :=
  agent ← ProxyFace.identify sessionKey;
  mret {| McpCalls.AgentID := Agent.ID agent; McpCalls.WorkspaceID := Agent.WorkspaceID agent |}.

Definition authenticate (sessionKey : string) : M DB Code McpCalls.Caller :=
  _ ← refuse (blank sessionKey) CodeUnauthenticated; Authenticate sessionKey.

Definition errorFrom (operationID id : string) (err : Code) : response :=
  newError id codeApplicationError
    (message_of err +:+ if operationID ==? "" then "" else " (operation_id=" +:+ operationID +:+ ")").

Definition list_ (operationID : string) (incoming : frame) (sessionKey : string) : M Machine Code response :=
  caller ← try_ (in_tables (authenticate sessionKey));
  mret (match caller with
        | Ok _ => {| r_ID := f_ID incoming; r_Body := Result_ (tools_text catalog) |}
        | Err err => errorFrom operationID (f_ID incoming) err
        end).

Definition call_ (operationID : string) (incoming : frame) (sessionKey : string) : M Machine Code response :=
  caller ← try_ (in_tables (authenticate sessionKey));
  match caller with
  | Err err => mret (errorFrom operationID (f_ID incoming) err)
  | Ok caller =>
      match callParams (Params incoming) with
      | None => mret (newError (f_ID incoming) codeInvalidRequest "tools/call params are not valid")
      | Some (given, arguments) =>
          let name := trim_space given in
          match Target catalog name with
          | None => mret (newResult (f_ID incoming) (refusalResult "No such tool. Call tools/list for what this gateway offers."))
          | Some (service, operation) =>
              outcome ← try_ (McpCalls.Call p e operationID
                {| McpCalls.call_Caller := caller; McpCalls.Tool := name; McpCalls.Service := service;
                   McpCalls.Operation := operation; McpCalls.Arguments := arguments |});
              mret (match outcome with
                    | Err err => errorFrom operationID (f_ID incoming) err
                    | Ok outcome => newResult (f_ID incoming) (callResult_text (McpCalls.Text outcome) (McpCalls.Refused outcome))
                    end)
          end
      end
  end.

(** [None]: a notification, which nobody answers. *)
Definition Dispatch (availability : Gateway.Availability) (operationID : string) (incoming : frame) (sessionKey : string)
    : M Machine Code (option response) :=
  let id := f_ID incoming in
  if isNotification incoming then mret None
  else if Method incoming ==? methodInitialize then mret (Some (newResult id newInitializeResult))
  else if Method incoming ==? methodPing then mret (Some (newResult id (object_text [])))
  else if one_of (Method incoming) [methodToolsList; methodToolsCall] then
    match Gateway.Check availability with
    | Err err => mret (Some (errorFrom operationID id err))
    | Ok _ =>
        reply ← (if Method incoming ==? methodToolsList then list_ operationID incoming sessionKey
                 else call_ operationID incoming sessionKey);
        mret (Some reply)
    end
  else mret (Some (newError id codeMethodNotFound ("method not found: " +:+ Method incoming))).

(** What a text is answered with: nothing for a notification. *)
Definition answer (availability : Gateway.Availability) (operationID line sessionKey : string)
    : M Machine Code (option response) :=
  match decodeFrame line with
  | None => mret (Some (newError "" codeParseError "request is not valid JSON"))
  | Some incoming => Dispatch availability operationID incoming sessionKey
  end.

(** ** HTTP (http.go) *)

Definition maxBody : Z := Z.shiftl 1 20.

(** [io.LimitReader]. *)
Definition limited (body : string) : string :=
  if Z.of_nat (String.length body) <=? maxBody then body else take_str (Z.to_nat maxBody) body.

(** A request; the body is [None] when reading it fails. *)
Record HttpRequest := { Origin : string; hq_Method : string; SessionID : string; Body : option string }.

Record HttpAnswer := { Status : Z; OperationID : string; Session : string; Content : string }.

Definition bare (operationID : string) (status : Z) : HttpAnswer :=
  {| Status := status; OperationID := operationID; Session := ""; Content := "" |}.

(** [http.Error] with an empty text. *)
Definition http_error (operationID : string) (status : Z) : HttpAnswer :=
  {| Status := status; OperationID := operationID; Session := ""; Content := String (of_byte 10) "" |}.

Definition writeRPC (operationID : string) (q : HttpRequest) (reply : response) : HttpAnswer :=
  match response_text reply with
  | None => http_error operationID 500
  | Some text => {| Status := 200; OperationID := operationID; Session := SessionID q; Content := text |}
  end.

Definition serveRPC (availability : Gateway.Availability) (operationID : string) (q : HttpRequest) : M Machine Code HttpAnswer :=
  match Body q with
  | None => mret (http_error operationID 400)
  | Some body =>
      reply ← answer availability operationID (limited body) (SessionID q);
      mret (match reply with None => bare operationID 202 | Some reply => writeRPC operationID q reply end)
  end.

Definition HTTPHandler (availability : Gateway.Availability) (q : HttpRequest) : M Machine Code HttpAnswer :=
  operationID ← try_ NewID;
  match operationID with
  | Err _ => mret (writeRPC "" q (newError "" codeInternalError "the gateway could not start this request"))
  | Ok operationID =>
      if Origin q !=? "" then mret (http_error operationID 403)
      else if hq_Method q ==? "POST" then serveRPC availability operationID q
      else if hq_Method q ==? "DELETE" then mret (bare operationID 204)
      else mret (bare operationID 405)
  end.

(** ** Standard input (stdio.go) *)

Definition stdioBuffer : Z := Z.shiftl 1 20.

(** The lines of the scanner. *)
Definition lines_of (input : string) : list string :=
  let l := split_on (of_byte 10) input in
  match reverse l with "" :: rest => reverse rest | _ => l end.

(** What was written, and whether the input was read to its end. The operation
    identifier is the one of the context, the same for the whole session. *)
Fixpoint serve_lines (availability : Gateway.Availability) (operationID sessionKey : string) (lines : list string)
    : M Machine Code (list string * bool) :=
  match lines with
  | [] => mret ([], true)
  | line :: lines =>
      if stdioBuffer <=? Z.of_nat (String.length line) then mret ([], false)
      else
        reply ← answer availability operationID (trim_suffix line (String (of_byte 13) "")) sessionKey;
        match reply with
        | None => serve_lines availability operationID sessionKey lines
        | Some reply =>
            match response_text reply with
            | None => mret ([], false)
            | Some text =>
                '(written, finished) ← serve_lines availability operationID sessionKey lines;
                mret (text :: written, finished)
            end
        end
  end.

Definition ServeStdio (availability : Gateway.Availability) (operationID sessionKey input : string)
    : M Machine Code (list string * bool) :=
  serve_lines availability operationID sessionKey (lines_of input).
End server.

(** ** The list of tools *)

(** A tool for an operation of a service. *)
Definition offered `{Unicode} (registry : Adapters.Registry) (service operation : string) (tool : Tool_) : Prop :=
  exists adapter capability, Adapters.adapter_of registry service = Ok adapter /\
    capability ∈ Adapters.Capabilities adapter /\ Registry.Operation capability = operation /\
    newTool service capability = Ok tool.

Record listing_ok `{Unicode} (registry : Adapters.Registry) (state : Catalog * gset string) : Prop := {
  lo_distinct : NoDup (map (fun t => normalize (t_Name t)) (tools state.1));
  lo_seen t : t ∈ tools state.1 -> normalize (t_Name t) ∈ state.2;
  lo_tools t : t ∈ tools state.1 -> exists service operation,
    byName state.1 !! t_Name t = Some (service, operation) /\ offered registry service operation t;
  lo_names name service operation : byName state.1 !! name = Some (service, operation) ->
    exists t, t ∈ tools state.1 /\ t_Name t = name /\ offered registry service operation t;
}.

(** Later states keep what earlier ones have. *)
Definition extends (state state' : Catalog * gset string) : Prop :=
  byName state.1 ⊆ byName state'.1.

#[export] Instance extends_preorder : PreOrder extends.
Proof. split; [intros state; unfold extends; reflexivity|intros s1 s2 s3; unfold extends; by etrans]. Qed.

Section listing.
Context `{Unicode} (registry : Adapters.Registry).

Lemma add_tool_ok service adapter capability state state' :
  Adapters.adapter_of registry service = Ok adapter -> capability ∈ Adapters.Capabilities adapter ->
  listing_ok registry state -> add_tool service state capability = Ok state' ->
  listing_ok registry state' /\ extends state state' /\
  exists name, byName state'.1 !! name = Some (service, Registry.Operation capability).
Proof.
  intros Ha Hc [Hd Hs Ht Hn] Hadd. unfold add_tool in Hadd.
  apply bind_Ok in Hadd as (tool & Htool & Hadd). apply bind_Ok in Hadd as ([] & Hfree & Hadd).
  apply bind_Ok in Hadd as ([] & Hclear & Hadd). injection Hadd as <-.
  apply refuse_if_Ok in Hfree, Hclear. apply bool_decide_eq_false in Hfree, Hclear.
  assert (Hnone : byName state.1 !! t_Name tool = None) by (by apply eq_None_not_Some).
  assert (Hoff : offered registry service (Registry.Operation capability) tool) by (by exists adapter, capability).
  split; [split; cbn [fst snd tools byName]|split].
  - rewrite map_app. apply NoDup_app. split_and!; [done| |by apply NoDup_singleton].
    intros n (t & -> & Hin)%list_elem_of_fmap Hn'%list_elem_of_singleton. apply Hclear. rewrite <- Hn'. by apply Hs.
  - intros t [Hin| ->%list_elem_of_singleton]%elem_of_app; [|set_solver]. specialize (Hs t Hin). set_solver.
  - intros t [Hin| ->%list_elem_of_singleton]%elem_of_app.
    + destruct (Ht t Hin) as (sv & o & Hl & Ho). exists sv, o. split; [|done]. rewrite lookup_insert_ne; [done|congruence].
    + exists service, (Registry.Operation capability). by rewrite lookup_insert_eq.
  - intros name sv o. rewrite lookup_insert_Some. intros [[<- [= <- <-]]|[_ Hl]].
    + exists tool. split_and!; [|done..]. apply elem_of_app. right. by apply list_elem_of_singleton.
    + destruct (Hn _ _ _ Hl) as (t & Hin & Hname & Ho). exists t. split_and!; [|done..]. apply elem_of_app. by left.
  - unfold extends. cbn. by apply insert_subseteq.
  - exists (t_Name tool). cbn. apply lookup_insert_eq.
Qed.

Lemma add_tools_ok service adapter l state state' :
  Adapters.adapter_of registry service = Ok adapter -> (forall c, c ∈ l -> c ∈ Adapters.Capabilities adapter) ->
  listing_ok registry state -> Intent.fold_result (add_tool service) state l = Ok state' ->
  listing_ok registry state' /\ extends state state' /\
  forall c, c ∈ l -> exists name, byName state'.1 !! name = Some (service, Registry.Operation c).
Proof.
  intros Ha. revert state. induction l as [|c l IH]; intros state Hl Hok; cbn.
  - intros [= <-]. split_and!; [done|reflexivity|]. by intros c ?%not_elem_of_nil.
  - intros (s1 & H1 & H2)%bind_Ok.
    destruct (add_tool_ok _ _ _ _ _ Ha (Hl c ltac:(by left)) Hok H1) as (Hok1 & He1 & name & Hname).
    destruct (IH s1) as (Hok' & He' & Hall); [intros; apply Hl; by right|done|done|].
    split_and!; [done|by etrans|]. intros c' [ ->|Hin]%elem_of_cons; [|by apply Hall].
    exists name. by eapply lookup_weaken.
Qed.

Lemma add_services_ok services state state' :
  listing_ok registry state -> Intent.fold_result (add_service registry) state services = Ok state' ->
  listing_ok registry state' /\ extends state state' /\
  forall service adapter c, service ∈ services -> Adapters.adapter_of registry service = Ok adapter ->
    c ∈ Adapters.Capabilities adapter -> exists name, byName state'.1 !! name = Some (service, Registry.Operation c).
Proof.
  revert state. induction services as [|service services IH]; intros state Hok; cbn.
  - intros [= <-]. split_and!; [done|reflexivity|]. by intros service adapter c ?%not_elem_of_nil.
  - intros (s1 & H1 & H2)%bind_Ok. unfold add_service in H1. apply bind_Ok in H1 as (adapter & Ha & H1).
    destruct (add_tools_ok _ _ _ _ _ Ha (fun c Hc => Hc) Hok H1) as (Hok1 & He1 & Hall1).
    destruct (IH s1 Hok1 H2) as (Hok' & He' & Hall). split_and!; [done|by etrans|].
    intros service' adapter' c [ ->|Hin]%elem_of_cons Ha' Hc; [|by eapply Hall].
    rewrite Ha in Ha'. injection Ha' as <-. destruct (Hall1 c Hc) as [name Hname]. exists name. by eapply lookup_weaken.
Qed.

Lemma newTool_facts service capability tool :
  newTool service capability = Ok tool ->
  Registry.Validate capability = Ok tt /\ Declare.ToolName service (Registry.Operation capability) = Ok (t_Name tool) /\
  Forbidden.Classify service (Registry.Operation capability) = None /\ t_Description tool = describe capability.
Proof.
  unfold newTool. intros ([] & Hv & H1)%bind_Ok. apply bind_Ok in H1 as (name & Hname & H1).
  destruct (Forbidden.Classify _ _); [done|]. destruct (unmarshal_message _); [|done]. by injection H1 as <-.
Qed.
End listing.

#[export] Instance by_name_total : Total by_name.
Proof. intros a b. unfold by_name. apply (total String.le). Qed.

(** The tools are the declared capabilities, no more and no less. A list is
    only built when every capability of every registered service is well formed,
    spells a tool name and is not of a forbidden kind, such as handing out a
    secret; then the list is sorted by name, no two of its names are the same even
    after a client has replaced the dots, the names that can be called are those of
    the list, each for an operation its service declares, and every declared
    operation can be called. *)
Theorem tools_declared `{Unicode} registry c :
  NewCatalog registry = Ok c ->
  Sorted by_name (tools c) /\ NoDup (map (fun t => normalize (t_Name t)) (tools c)) /\
  (forall t, t ∈ tools c -> is_Some (Target c (t_Name t))) /\
  (forall name service operation, Target c name = Some (service, operation) ->
     Forbidden.Classify service operation = None /\
     exists t, t ∈ tools c /\ t_Name t = name /\ offered registry service operation t) /\
  (forall service adapter capability, Adapters.adapter_of registry service = Ok adapter ->
     capability ∈ Adapters.Capabilities adapter ->
     exists name, Target c name = Some (service, Registry.Operation capability)).
Proof.
  unfold NewCatalog. intros ([catalog seen] & Hf & Hc)%bind_Ok. injection Hc as <-.
  assert (listing_ok registry ({| tools := []; byName := ∅ |}, ∅)) as H0.
  { split; cbn; [constructor|by intros t ?%not_elem_of_nil..|]. intros name sv o. by rewrite lookup_empty. }
  destruct (add_services_ok _ _ _ _ H0 Hf) as ([Hd Hs Ht Hn] & _ & Hall). cbn [fst tools byName] in *. unfold Target. cbn.
  split; [apply Sorted_merge_sort, _|]. split; [by rewrite merge_sort_Permutation|]. split; [|split].
  - intros t Hin. rewrite merge_sort_Permutation in Hin. destruct (Ht t Hin) as (sv & o & Hl & _). by rewrite Hl.
  - intros name sv o Hl. destruct (Hn _ _ _ Hl) as (t & Hin & Hname & Ho). split.
    + destruct Ho as (adapter & capability & _ & _ & <- & Htool). by apply newTool_facts in Htool as (_ & _ & Hc & _).
    + exists t. by rewrite merge_sort_Permutation.
  - intros sv adapter capability Ha Hin. eapply Hall; [|done|done]. unfold Adapters.Services.
    rewrite sort_strings_perm. unfold Adapters.adapter_of in Ha.
    destruct (Adapters.adapters registry !! sv) as [a|] eqn:E; [|done]. apply list_elem_of_fmap.
    exists (sv, a). split; [done|]. by apply elem_of_map_to_list.
Qed.

(** ** What a message does *)

Section dispatching.
Context `{Env} `{Unicode} `{Intent.Floats} `{CredentialsLaws} (p : Options) (e : Exchange) (site : string -> string)
  (catalog : Catalog).
Hypothesis lawful : forall service, ExecutorLaws (executors e service) (site service).
Implicit Types d : Machine.

Lemma wp_authenticate sessionKey t :
  AgentAuth.sessions_ok t ->
  wp (authenticate sessionKey) (fun r t' => t' = put (agents t') t /\ forall caller, r = Ok caller ->
    exists agent, ProxyFace.recognised t sessionKey agent /\ McpCalls.AgentID caller = Agent.ID agent /\
      McpCalls.WorkspaceID caller = Agent.WorkspaceID agent) t.
Proof.
  intros Hok. unfold authenticate. apply wp_bind, wp_refuse. destruct (blank sessionKey); [by split; [destruct t|]|].
  unfold Authenticate. apply wp_bind. eapply wp_mono; [by apply ProxyFace.wp_identify|].
  intros [a|c] t' [Ht Ha]; [|done]. apply wp_ret. split; [done|]. intros caller [= <-]. by apply Ha.
Qed.

(** The run of a message that did not reach a tool: at most the agent's last
    activity is new. *)
Definition untouched d d' : Prop := outside d' = outside d /\ tables d' = put (agents (tables d')) (tables d).

Lemma untouched_refl d : untouched d d.
Proof. split; [done|]. by destruct d as [[] ?]. Qed.

(** A tool call that reached its tool: the agent is known, the tool is listed, and
    what happened is what [McpCalls.Call] does. *)
Definition reached (operationID sessionKey : string) (incoming : frame) d (reply : response) d' : Prop :=
  exists agent given arguments service operation caller t outcome,
    ProxyFace.recognised (tables d) sessionKey agent /\ McpCalls.AgentID caller = Agent.ID agent /\
    McpCalls.WorkspaceID caller = Agent.WorkspaceID agent /\
    callParams (Params incoming) = Some (given, arguments) /\
    Target catalog (trim_space given) = Some (service, operation) /\ t = put (agents t) (tables d) /\
    McpCalls.called p site operationID
      {| McpCalls.call_Caller := caller; McpCalls.Tool := trim_space given; McpCalls.Service := service;
         McpCalls.Operation := operation; McpCalls.Arguments := arguments |}
      (mkMachine t (outside d)) outcome d' /\
    reply = match outcome with
            | Err err => errorFrom operationID (f_ID incoming) err
            | Ok outcome => newResult (f_ID incoming) (callResult_text (McpCalls.Text outcome) (McpCalls.Refused outcome))
            end.

Lemma wp_call_ operationID incoming sessionKey d :
  AgentAuth.sessions_ok (tables d) -> ProxyFace.keyed_leases (tables d) ->
  wp (call_ p e catalog operationID incoming sessionKey) (fun r d' => exists reply, r = Ok reply /\
    (untouched d d' \/ reached operationID sessionKey incoming d reply d')) d.
Proof.
  intros Hs Hk. unfold call_. apply wp_bind, wp_try, wp_in_tables. eapply wp_mono; [by apply wp_authenticate|].
  intros r t [Ht Hr]. assert (Hu : untouched d (mkMachine t (outside d))) by done.
  destruct r as [caller|c]; [|apply wp_ret; eexists; split; [done|by left]].
  destruct (Hr caller eq_refl) as (agent & Hknown & Ha & Hw).
  destruct (callParams _) as [[given arguments]|] eqn:Ep; [|apply wp_ret; eexists; split; [done|by left]].
  cbn zeta. destruct (Target catalog (trim_space given)) as [[service operation]|] eqn:Et;
    [|apply wp_ret; eexists; split; [done|by left]].
  apply wp_bind, wp_try. eapply wp_mono; [apply (McpCalls.wp_Call p e site lawful); cbn; by rewrite Ht|].
  intros outcome d' Hc. apply wp_ret. eexists. split; [done|]. right.
  by exists agent, given, arguments, service, operation, caller, t, outcome.
Qed.

(** What a message that is answered [reply] may have done. *)
Definition dispatched (availability : Gateway.Availability) (operationID : string) (incoming : frame) (sessionKey : string)
    d (reply : option response) d' : Prop :=
  (reply = None <-> isNotification incoming = true) /\
  (untouched d d' \/ exists answer, reply = Some answer /\ Gateway.Serving availability = true /\
     Method incoming = methodToolsCall /\ reached operationID sessionKey incoming d answer d') /\
  (Gateway.Serving availability = false \/ one_of (Method incoming) [methodToolsList; methodToolsCall] = false \/
   isNotification incoming = true -> d' = d) /\
  (Method incoming = methodToolsList -> forall answer text, reply = Some answer -> r_Body answer = Result_ text ->
     text = tools_text catalog /\ exists agent, ProxyFace.recognised (tables d) sessionKey agent).

Lemma quiet_dispatched availability operationID incoming sessionKey d reply :
  (reply = None <-> isNotification incoming = true) ->
  (Method incoming = methodToolsList -> forall answer text, reply = Some answer -> r_Body answer = Result_ text -> False) ->
  dispatched availability operationID incoming sessionKey d reply d.
Proof.
  intros Hn Hl. split; [done|]. split; [left; apply untouched_refl|]. split; [done|].
  intros Hm answer text Hr Hb. destruct (Hl Hm _ _ Hr Hb).
Qed.

Lemma wp_Dispatch availability operationID incoming sessionKey d :
  AgentAuth.sessions_ok (tables d) -> ProxyFace.keyed_leases (tables d) ->
  wp (Dispatch p e catalog availability operationID incoming sessionKey)
    (fun r d' => exists reply, r = Ok reply /\ dispatched availability operationID incoming sessionKey d reply d') d.
Proof.
  intros Hs Hk. unfold Dispatch. cbn zeta.
  destruct (isNotification incoming) eqn:En.
  { apply wp_ret. eexists. split; [done|]. apply quiet_dispatched; [by rewrite En|]. by intros _ answer text [=]. }
  destruct (Method incoming ==? methodInitialize) eqn:E1.
  { apply wp_ret. eexists. split; [done|]. bools. apply quiet_dispatched; [by rewrite En|]. rewrite E1. by intros [=]. }
  destruct (Method incoming ==? methodPing) eqn:E2.
  { apply wp_ret. eexists. split; [done|]. bools. apply quiet_dispatched; [by rewrite En|]. rewrite E2. by intros [=]. }
  destruct (one_of (Method incoming) _) eqn:E3.
  2: { apply wp_ret. eexists. split; [done|]. apply quiet_dispatched; [by rewrite En|].
       by intros _ answer text [= <-] [=]. }
  unfold Gateway.Check. destruct (Gateway.Serving availability) eqn:Hserving.
  2: { apply wp_ret. eexists. split; [done|]. apply quiet_dispatched; [by rewrite En|].
       by intros _ answer text [= <-] [=]. }
  apply wp_bind. destruct (Method incoming ==? methodToolsList) eqn:E4.
  - unfold list_. apply wp_bind, wp_try, wp_in_tables. eapply wp_mono; [by apply wp_authenticate|].
    intros r t [Ht Hr]. apply wp_ret, wp_ret. eexists. split; [done|]. split; [by rewrite En|].
    split; [by left|]. split; [rewrite Hserving, E3, En; naive_solver|]. intros _ answer text [= <-].
    destruct r as [caller|c]; [|done]. intros [= <-]. split; [done|].
    destruct (Hr caller eq_refl) as (agent & Hknown & _). by exists agent.
  - eapply wp_mono; [by apply wp_call_|]. intros r d' (reply & -> & Hreply). apply wp_ret. eexists. split; [done|].
    split; [by rewrite En|]. split; [|split; [rewrite Hserving, E3, En; naive_solver|]].
    + destruct Hreply as [Hu|Hc]; [by left|]. right. exists reply. split_and!; try done.
      apply one_of_spec in E3. rewrite !elem_of_cons, elem_of_nil in E3. bools. naive_solver.
    + intros Hm. rewrite Hm in E4. discriminate E4.
Qed.

(** C9. Only a known agent of a serving gateway reaches a tool. Every message is
    answered, notifications excepted. Greeting, ping and unknown methods change
    nothing, and neither does any message while the gateway does not serve; the
    list of tools is given to a known agent only; and whatever happens beyond the
    note of the agent's activity - rows written, requests sent - is a call of a
    listed tool by the agent whose session key was shown, and is what [Call] does
    for that agent, service and operation. *)
Theorem dispatch_guarded availability operationID incoming sessionKey d :
  AgentAuth.sessions_ok (tables d) -> ProxyFace.keyed_leases (tables d) ->
  wp (Dispatch p e catalog availability operationID incoming sessionKey)
    (fun r d' => exists reply, r = Ok reply /\ dispatched availability operationID incoming sessionKey d reply d') d.
Proof. intros Hs Hk. by apply wp_Dispatch. Qed.
End dispatching.

(** ** Two transports *)

Section transports.
Context `{Env} `{Unicode} `{Intent.Floats} `{Credentials} (p : Options) (e : Exchange) (catalog : Catalog).

(** Both transports give the same answers. A text of less than a mebibyte
    without a line end that is posted by HTTP, and written as the only line of the
    standard input, runs the same and leaves the same; what is written back is the
    body, byte for byte. *)
Theorem transports_agree availability operationID q text w :
  Body q = Some text -> Z.of_nat (String.length text) < maxBody ->
  trim_suffix text (String (of_byte 13) "") = text ->
  let r := answer p e catalog availability operationID text (SessionID q) w in
  serveRPC p e catalog availability operationID q w =
    (match r.1 with
     | Ok reply => Ok (match reply with None => bare operationID 202 | Some reply => writeRPC operationID q reply end)
     | Err c => Err c end, r.2) /\
  serve_lines p e catalog availability operationID (SessionID q) [text] w =
    (match r.1 with
     | Ok reply => Ok (match reply with
                       | None => ([], true)
                       | Some reply => match response_text reply with Some t => ([t], true) | None => ([], false) end
                       end)
     | Err c => Err c end, r.2).
Proof.
  intros Hb Hlen Hcr. cbn zeta. unfold serveRPC. rewrite Hb. unfold limited.
  assert ((Z.of_nat (String.length text) <=? maxBody) = true) as -> by lia. split.
  - unfold mbind, M_bind. destruct (answer _ _ _ _ _ text _ w) as [[reply|c] w']; done.
  - cbn [serve_lines]. assert ((stdioBuffer <=? Z.of_nat (String.length text)) = false) as -> by (unfold stdioBuffer, maxBody in *; lia).
    rewrite Hcr. unfold mbind, M_bind. destruct (answer _ _ _ _ _ text _ w) as [[[reply|]|c] w']; [|done|done].
    cbn. by destruct (response_text reply).
Qed.
End transports.
