(* ===== verification/Cascade.v ===== *)
(** * core/pipeline: what disconnecting takes back

    The cascades of identity.go and agent.go: leases are revoked one by one, each
    after its own event, memories are invalidated, and only then is the identity
    put under review; an agent's session is closed first. Both are stated for
    every outside world, so also for a run that stops half way. *)
From S2P Require Import Prelude GoStr Apperr World Store.
From S2P Require Redact.
From S2P Require Intent Agent Matcher Lease Trust Ledger.
From S2P Require LeaseStore TrustStore LedgerStore AgentAuth.
From S2P Require Import IdentityStore Pipeline PipelineSpec.
Open Scope Z_scope.

(** Rows are kept under their primary keys. *)
Record keyed (d : DB) : Prop := {
  lease_key id l : leases d !! id = Some l -> Lease.ID l = id;
  memory_key : Trust.keyed (memories d);
  identity_key id i : identities d !! id = Some i -> Matcher.ID i = id;
}.

(** Only leases [sel] picks have changed, and only by being revoked after the
    ledger gained an event of this operation that names the lease. *)
Record revoking `{Env} (sel : Lease.Lease -> bool) (operationID : string) (d d' : DB) : Prop := {
  rv_events : events d ⊆ events d';
  rv_lease id l : leases d !! id = Some l ->
    leases d' !! id = Some l \/
    exists n e, sel l = true /\ leases d' !! id = Some (Lease.closed l Lease.StatusRevoked (clock_at n)) /\
      events d !! Ledger.ID e = None /\ events d' !! Ledger.ID e = Some e /\
      Ledger.Type_ e = Ledger.EventLeaseRevoked /\ Ledger.LeaseID e = id /\
      Ledger.OperationID e = operationID;
  rv_new id : leases d !! id = None -> leases d' !! id = None;
}.

(** None of the leases [sel] picks is left. *)
Definition none_left (sel : Lease.Lease -> bool) (d : DB) : Prop :=
  forall id l, leases d !! id = Some l -> sel l = false.

(** Nothing but leases and events changed. *)
Definition framed (d d' : DB) : Prop := d' = put (leases d') (put (events d') d).

Section revoke.
Context `{Env} `{Unicode} `{Intent.Floats}.
Context (sel : Lease.Lease -> bool) (operationID reason : string).
Implicit Types d : DB.
Hypothesis sel_active : forall l, sel l = true -> Lease.isActive l = true.

Lemma revoking_refl d : revoking sel operationID d d.
Proof. split; [done|by left|done]. Qed.

(** An event of its own, then the lease. *)
Lemma revoking_step d d1 d2 d3 e l n :
  revoking sel operationID d d1 ->
  leases d1 !! Lease.ID l = Some l -> leases d !! Lease.ID l = Some l -> sel l = true ->
  events d1 !! Ledger.ID e = None -> Ledger.Type_ e = Ledger.EventLeaseRevoked ->
  Ledger.LeaseID e = Lease.ID l -> Ledger.OperationID e = operationID ->
  d2 = put (<[Ledger.ID e := e]> (events d1)) d1 ->
  d3 = put (<[Lease.ID l := Lease.closed l Lease.StatusRevoked (clock_at n)]> (leases d2)) d2 ->
  revoking sel operationID d d3.
Proof.
  intros [He Hl Hn] Hl1 Hl0 Hs Hfresh Ht Hle Ho -> ->.
  assert (events d !! Ledger.ID e = None) as Hold.
  { destruct (events d !! Ledger.ID e) eqn:E; [|done]. eapply lookup_weaken in E; [|exact He]. congruence. }
  split; simpl.
  - etrans; [exact He|]. by apply insert_subseteq.
  - intros id l0 Hid0. destruct (decide (id = Lease.ID l)) as [->|Hne].
    + right. assert (l0 = l) as -> by congruence. exists n, e. rewrite !lookup_insert_eq. by split_and!.
    + rewrite lookup_insert_ne by done. destruct (Hl id l0 Hid0) as [?|(k & x & ? & ? & ? & Hx & ? & ? & ?)];
        [by left|right]. exists k, x. split_and!; try done. rewrite lookup_insert_ne; [done|congruence].
  - intros id Hid. rewrite lookup_insert_ne by congruence. by apply Hn.
Qed.

(** An event alone. *)
Lemma revoking_event d d1 e :
  revoking sel operationID d d1 -> events d1 !! Ledger.ID e = None ->
  revoking sel operationID d (put (<[Ledger.ID e := e]> (events d1)) d1).
Proof.
  intros [He Hl Hn] Hfresh. split; simpl; [etrans; [exact He|by apply insert_subseteq]| |done].
  intros id l Hid. destruct (Hl id l Hid) as [?|(k & x & ? & ? & ? & Hx & ? & ? & ?)]; [by left|right].
  exists k, x. split_and!; try done. rewrite lookup_insert_ne; [done|congruence].
Qed.

(** A lease still active was never touched. *)
Lemma revoking_active d d' id l :
  revoking sel operationID d d' -> leases d' !! id = Some l -> Lease.isActive l = true ->
  leases d !! id = Some l.
Proof.
  intros [_ Hl Hn] Hl' Ha. destruct (leases d !! id) as [l0|] eqn:E; [|by rewrite Hn in Hl'].
  destruct (Hl id l0 E) as [?|(n & e & _ & Hc & _)]; [congruence|].
  rewrite Hc in Hl'. injection Hl' as <-. done.
Qed.

Lemma wp_revoke_each identityOf page limit d :
  keyed d -> listing sel (World.by_key Lease.ExpiresAt) limit (leases d) page ->
  wp (revoke_each identityOf operationID reason page) (fun r d' =>
    framed d d' /\ revoking sel operationID d d' /\
    match r with
    | Ok revoked => Z.of_nat (length revoked) < limit -> none_left sel d'
    | Err _ => True
    end) d.
Proof.
  intros Hk [Hs _ _ Hc]. unfold revoke_each. wp_steps.
  apply (wp_each _ (fun acc rest d' =>
    (forall x, x ∈ rest -> x ∈ page) /\ (length acc + length rest = length page)%nat /\
    framed d d' /\ revoking sel operationID d d' /\
    (Z.of_nat (length page) < limit -> forall id l, leases d' !! id = Some l -> sel l = true -> l ∈ rest))).
  - split_and!; [done|done|by destruct d|apply revoking_refl|]. intros Hlen id l Hl Hsel. by apply (Hc l id).
  - intros acc d' (_ & Hlen & Hf & Hr & Hrest). split_and!; [done..|]. intros Hl id l Hid.
    apply not_true_iff_false. intros Hsel. simpl in Hlen.
    apply (not_elem_of_nil l). by apply (Hrest ltac:(lia) id).
  - intros acc x rest d' (Hsub & Hlen & Hf & Hr & Hrest). wp_steps.
    apply wp_audit; [done..|by intros c; split_and!|]. intros e He Hfresh. wp_steps.
    destruct (Hs x (Hsub x ltac:(left))) as [Hsel [idx Hx]].
    pose proof (lease_key _ Hk _ _ Hx) as <-.
    pose proof (revoking_event _ _ _ Hr Hfresh) as Hr2. set (d2 := put (<[Ledger.ID e := e]> _) d') in *.
    assert (framed d d2) as Hf2 by (unfold framed in *; subst d2; rewrite Hf; by destruct d, d').
    unfold Lease.Manager.Revoke. wp_steps. eapply wp_mono; [apply Lease.Close_law|].
    intros r d3 [[-> (c & -> & _)]|(l & Hl & Ha & _ & -> & Hread)]; [by split_and!|].
    assert (l = x) as -> by (pose proof (revoking_active _ _ _ _ Hr2 Hl Ha); congruence).
    assert (leases d' = leases d2) as Hsame by done.
    assert (framed d (put (<[Lease.ID x := Lease.closed x Lease.StatusRevoked (clock_at n)]> (leases d2)) d2)) as Hf3
      by (unfold framed in *; rewrite Hf2; by destruct d, d2).
    assert (revoking sel operationID d
      (put (<[Lease.ID x := Lease.closed x Lease.StatusRevoked (clock_at n)]> (leases d2)) d2)) as Hr3.
    { eapply (revoking_step d d' d2 _ e x n); try done.
      - by rewrite (au_type _ _ He).
      - by rewrite (au_lease _ _ He).
      - by rewrite (au_operation _ _ He). }
    destruct r as [l'|c]; [|by split_and!]. split_and!; try done.
    + intros y Hy. apply Hsub. by right.
    + rewrite length_app. simpl in *. lia.
    + intros Hlim id y. simpl. rewrite lookup_insert_Some. intros [[<- <-]|[Hne Hy]] Hysel.
      { apply sel_active in Hysel. done. }
      specialize (Hrest Hlim id y Hy Hysel). apply elem_of_cons in Hrest as [->|?]; [|done].
      apply (revoking_active _ _ _ _ Hr) in Hy; [|by apply sel_active].
      by rewrite (lease_key _ Hk _ _ Hy) in Hne.
Qed.
End revoke.

(** The active leases of an identity; the active leases bound to the session of
    an agent. *)
Definition of_identity (identityID : string) (l : Lease.Lease) : bool :=
  Lease.isActive l && (Lease.IdentityID l ==? identityID).

Definition of_session (agentID : string) (l : Lease.Lease) : bool :=
  Lease.isActive l && Lease.IsSessionBound l && (Lease.AgentID l ==? agentID).

(** Nothing of the identity is usable any more: neither lease nor memory, as far
    as the two pages of the cascade reach. *)
Definition taken_back (identityID : string) (res : IdentityRevocation) (d' : DB) : Prop :=
  (Z.of_nat (length (RevokedLeases res)) < cascadeLimit -> none_left (of_identity identityID) d') /\
  (Z.of_nat (length (InvalidatedMemories res)) < cascadeLimit ->
    forall id m, memories d' !! id = Some m -> Trust.IdentityID m = identityID ->
      Trust.Status m <> Trust.StatusActive).

Section properties.
Context `{Env} `{Unicode} `{Intent.Floats}.
Implicit Types d : DB.

Lemma of_identity_active identityID l : of_identity identityID l = true -> Lease.isActive l = true.
Proof. unfold of_identity. intros. by bools. Qed.

Lemma of_session_active agentID l : of_session agentID l = true -> Lease.isActive l = true.
Proof. unfold of_session. intros. by bools. Qed.

Lemma framed_memories d d' : framed d d' -> memories d' = memories d /\ identities d' = identities d.
Proof. unfold framed. intros ->. done. Qed.

(** Invalidating memories touches nothing else. *)
Lemma wp_invalidate identityID reason limit d :
  Trust.keyed (memories d) ->
  wp (Trust.Manager.InvalidateForIdentity identityID reason limit) (fun r d' =>
    Trust.cascaded identityID reason limit d r d' /\ exists t : Trust.table, d' = put t d) d.
Proof.
  intros Hk. apply wp_and; [by apply Trust.InvalidateForIdentity_cascades|].
  eapply wp_mono; [apply (Trust.InvalidateForIdentity_moves (fun _ => False))|]. intros r d' (t & _ & ->). by exists t.
Qed.

(** C25. Disconnecting an identity takes back what it gave, in this order: the
    active leases of the identity, one page of at most [cascadeLimit], a thousand,
    are revoked, each only after an event of this operation that names it; then one
    such page of its active memories is invalidated; then it is put under review.
    However the run ends, no lease of another identity and no memory of another
    identity has changed, and every revocation is in the ledger; if it fails the
    identity's own row is as it was. If it succeeds and revoked fewer than a
    thousand leases, no active lease of the identity is left; and if it invalidated
    fewer than a thousand memories, no active memory is. Beyond a page it succeeds
    all the same, and what the page did not reach stays active. *)
Theorem disconnect_identity_outcome identityID operationID d :
  keyed d ->
  wp (DisconnectIdentity identityID operationID) (fun r d' =>
    revoking (of_identity identityID) operationID d d' /\
    (forall id m, memories d !! id = Some m ->
      Trust.IdentityID m <> identityID \/ Trust.Status m <> Trust.StatusActive ->
      memories d' !! id = Some m) /\
    match r with
    | Err _ => identities d' = identities d
    | Ok res => taken_back identityID res d' /\
        exists i n, identities d !! identityID = Some i /\
          ir_Identity res = identity_with_status i Matcher.StatusNeedsReview (clock_at n) /\
          identities d' = <[identityID := ir_Identity res]> (identities d)
    end) d.
Proof.
  intros Hk. unfold DisconnectIdentity. wp_steps.
  destruct (_ || _); [split_and!; [apply revoking_refl|done|done]|]. wp_steps.
  apply wp_IdentityByID; [|intros _|]; [split_and!; [apply revoking_refl|done|done]..|]. intros i Hi. wp_steps.
  rewrite <- (identity_key _ Hk _ _ Hi). unfold revokeLeasesOf, Lease.Manager.IssuedTo. wp_steps.
  eapply wp_mono; [apply Lease.ActiveLeasesByIdentity_law|]. intros r d0 [-> Hr].
  destruct r as [page|e]; [|split_and!; [apply revoking_refl|done|done]]. wp_steps.
  eapply wp_mono; [apply (wp_revoke_each (of_identity (Matcher.ID i)) operationID
    "identity_disconnected" (of_identity_active (Matcher.ID i)) _ page cascadeLimit d Hk Hr)|].
  intros r d1 (Hf & Hrv & Hleft). apply framed_memories in Hf as [Hm Hid].
  destruct r as [revoked|e]; [|split_and!; [done|by rewrite Hm|done]]. wp_steps.
  eapply wp_mono; [apply wp_invalidate; rewrite Hm; apply Hk|].
  intros r d2 [(Hothers & _ & Hnone) [t ->]].
  assert (revoking (of_identity (Matcher.ID i)) operationID d (put t d1)) as Hrv2
    by (destruct Hrv; by split).
  assert (forall id m, memories d !! id = Some m ->
    Trust.IdentityID m <> Matcher.ID i \/ Trust.Status m <> Trust.StatusActive -> t !! id = Some m) as Hmem.
  { intros id m Hl Hor. rewrite <- Hm in Hl. exact (Hothers id m Hl Hor). }
  destruct r as [invalidated|e]; simpl; [|by split_and!]. wp_steps.
  apply wp_SetIdentityStatus; [by intros c; split_and!|].
  intros i2 Hi2. wp_steps. cbn [identities] in Hi2. simpl. rewrite Hid in *.
  split_and!; [destruct Hrv2; by split|exact Hmem|split; [done|exact Hnone]|].
  exists i2, n. by split_and!.
Qed.

(** Ending an agent's session closes the session first: if anything was
    revoked or reported, the agent's row is disconnected. Every active lease
    bound to that session is revoked, each only after its own event; no other
    lease changes; and if it succeeds none is left (unless there were a
    thousand). *)
Theorem disconnect_agent_outcome agentID operationID d :
  keyed d ->
  wp (DisconnectAgent agentID operationID) (fun r d' =>
    revoking (of_session agentID) operationID d d' /\
    (leases d' = leases d \/ exists a, agents d' !! agentID = Some a /\ Agent.Status a = Agent.StatusDisconnected) /\
    match r with
    | Err _ => True
    | Ok (a, revoked) =>
        agents d' !! agentID = Some a /\ Agent.Status a = Agent.StatusDisconnected /\
        (Z.of_nat (length revoked) < cascadeLimit -> none_left (of_session agentID) d')
    end) d.
Proof.
  intros Hk. unfold DisconnectAgent. wp_steps.
  destruct (_ || _); [split_and!; [apply revoking_refl|by left|done]|]. unfold AgentAuth.Disconnect. wp_steps.
  apply wp_SetAgentStatus; [intros c; split_and!; [apply revoking_refl|by left|done]|].
  intros a Ha. set (row := Agent.with_status a _ _). set (d1 := put _ d).
  assert (revoking (of_session agentID) operationID d d1) as Hr1 by (split; [done|by left|done]).
  assert (agents d1 !! agentID = Some row) as Hrow by (simpl; by rewrite lookup_insert_eq).
  assert (keyed d1) as Hk1 by (destruct Hk; by split).
  destruct (toAgent row) as [x|c] eqn:Hx; [|split_and!; [done|by left|done]].
  assert (x = row) as -> by (unfold toAgent in Hx; by repeat case_match; simplify_eq).
  wp_steps. unfold revokeSessionLeasesOf, Lease.Manager.BoundToSessionOf. wp_steps.
  eapply wp_mono; [apply Lease.ActiveSessionBoundLeasesByAgent_law|]. intros r d0 [-> Hr].
  destruct r as [page|e]; [|split_and!; [done|by left|done]]. wp_steps.
  eapply wp_mono; [apply (wp_revoke_each (of_session agentID) operationID
    "agent_session_ended" (of_session_active agentID) _ page cascadeLimit d1 Hk1 Hr)|].
  intros r d2 (Hf & Hrv & Hleft).
  assert (revoking (of_session agentID) operationID d d2) as Hr2 by (destruct Hrv; by split).
  assert (agents d2 !! agentID = Some row) as Hrow2 by (unfold framed in Hf; rewrite Hf; done).
  destruct r as [revoked|e]; [|split_and!; [done|right; by exists row|done]]. wp_steps.
  split_and!; [done|right; by exists row|done|done|done].
Qed.
End properties.
