(* ===== verification/GatewayClient.v ===== *)
(** * cli/gatewayclient: the commands as clients of the console's API

    A command speaks to the gateway as the console does: the token in a header, a
    body the endpoint has to know, an answer it reads back. *)
From S2P Require Import Prelude GoStr Apperr World Store Machine.
From S2P Require Json Intent Crypto Vault CredentialRegistry AgentAuth Exchange.
From S2P Require Import Url ConsoleViews Console ConsoleApi.
Open Scope Z_scope.

(** [gatewayclient.RegisterRequest]. *)
Record RegisterRequest := {
  rq_Name : string; rq_Type : string; rq_Version : string;
  rq_ExecutableHash : string; rq_ExecutablePath : string; rq_PID : Z; rq_ParentPID : Z; rq_OSUser : string;
  rq_DeviceFingerprint : string; rq_DeviceName : string;
  rq_WorkspacePath : string; rq_ProjectFingerprint : string;
  rq_StartedAt : string;
}.

Record ConnectRequest := {
  cr_CredentialReferenceID : string;
  cr_AccountLabel : string;
  cr_Environment : string;
  cr_IsDefault : bool;
}.

Definition connectView (connect : ConnectRequest) : view :=
  Fields [("credential_reference_id", Text (cr_CredentialReferenceID connect)); ("account_label", Text (cr_AccountLabel connect));
    ("environment", Text (cr_Environment connect)); ("is_default", Flag (cr_IsDefault connect))].

Definition registerView (r : RegisterRequest) : view :=
  Fields [("name", Text (rq_Name r)); ("type", Text (rq_Type r)); ("version", Text (rq_Version r));
    ("executable_hash", Text (rq_ExecutableHash r)); ("executable_path", Text (rq_ExecutablePath r));
    ("pid", Number (rq_PID r)); ("parent_pid", Number (rq_ParentPID r)); ("os_user", Text (rq_OSUser r));
    ("device_fingerprint", Text (rq_DeviceFingerprint r)); ("device_name", Text (rq_DeviceName r));
    ("workspace_path", Text (rq_WorkspacePath r)); ("project_fingerprint", Text (rq_ProjectFingerprint r));
    ("started_at", Text (rq_StartedAt r))].

(** The request [call] makes: the token in a header, and the header of the console. *)
Definition asConsole (sessionToken method : string) (path : list string) (query : list (string * string)) (body : string) : HttpRequest :=
  {| h_Method := method; h_Path := path; h_Query := query; h_Body := body; h_ContentLength := Z.of_nat (String.length body);
     h_Origin := ""; h_RequestedBy := RequestedByConsole; h_Authorization := bearerPrefix +:+ sessionToken |}.

(** ** Reading an answer

    [json.Unmarshal] into the views of the API, as forms; the fields of a view in a
    view go by both names, and a pointer that is nil is not there. *)

Definition field_at (name : string) (f : Json.raw_setter (S := Form)) : Json.raw_setter (S := Form) := (name, f.2).

Section views.
Context `{Unicode}.

Definition object_field (name : string) (fields : list (Json.raw_setter (S := Form))) : Json.raw_setter (S := Form) :=
  (name, fun s f => Json.unmarshal_raw fields s f).

Definition optional_number_field (name : string) : Json.raw_setter (S := Form) :=
  (name, fun s f => v ← Json.parse s;
     match v with
     | Json.JNull => Some (mkForm (texts f) (delete name (numbers f)) (flags f) (raws f) (maps f))
     | _ => n ← Json.as_int 0 v; Some (mkForm (texts f) (<[name := n]> (numbers f)) (flags f) (raws f) (maps f))
     end).

Definition identityFields : list (Json.raw_setter (S := Form)) :=
  [text_field "id"; text_field "service"; text_field "account_label"; text_field "environment"; flag_field "is_default";
   text_field "status"; text_field "credential_reference_id"; text_field "created_at"; text_field "updated_at"].

Definition leaseFields : list (Json.raw_setter (S := Form)) :=
  [text_field "id"; text_field "agent_id"; text_field "identity_id"; text_field "service"; raw_field "resource_scope";
   raw_field "capabilities"; text_field "expires_at"; optional_number_field "request_limit"; number_field "used_requests";
   text_field "status"; text_field "approval_id"; text_field "source_memory_id"; flag_field "is_session_bound";
   text_field "created_at"; text_field "updated_at"].

Definition auditEventFields : list (Json.raw_setter (S := Form)) :=
  [text_field "id"; text_field "operation_id"; text_field "type"; text_field "agent_id"; text_field "device_id";
   text_field "workspace_id"; text_field "identity_id"; text_field "service"; text_field "operation"; raw_field "resource";
   raw_field "resolved_scope"; text_field "verdict"; text_field "risk_level"; text_field "decision_id"; text_field "approval_id";
   text_field "lease_id"; text_field "lease_status"; text_field "outcome"; number_field "response_status";
   number_field "duration_ms"; flag_field "is_redacted"; raw_field "metadata"; text_field "created_at"].

Definition agentFields : list (Json.raw_setter (S := Form)) :=
  map (fun name => field_at name (text_field ("agent." +:+ name)))
    ["id"; "name"; "type"; "version"; "device_id"; "workspace_id"; "executable_path"; "executable_digest"; "os_user";
     "trust_level"; "status"; "started_at"; "session_expires_at"; "last_seen_at"; "created_at"].

Definition registeredAgentFields : list (Json.raw_setter (S := Form)) :=
  [object_field "agent" agentFields; text_field "session_key"; flag_field "is_rebind"; flag_field "project_fingerprint_changed"].

Definition sessionRevocationFields : list (Json.raw_setter (S := Form)) :=
  [object_field "agent" agentFields; number_field "revoked_leases"].

Definition statusFields : list (Json.raw_setter (S := Form)) :=
  [text_field "status"; text_field "version"; text_field "listen_address"; number_field "web_api_port"; text_field "started_at"].

Record ListOf := { lo_Items : list Form; NextCursor : string }.

Definition listFields (fields : list (Json.raw_setter (S := Form))) : list (Json.raw_setter (S := ListOf)) :=
  [("items", fun s l => texts ← Json.raw_elements s; items ← mapM (fun text => Json.unmarshal_raw fields text no_form) texts;
      Some {| lo_Items := items; NextCursor := NextCursor l |});
   ("next_cursor", fun s l => v ← Json.parse s; cursor ← Json.as_string (NextCursor l) v;
      Some {| lo_Items := lo_Items l; NextCursor := cursor |})].

Definition viewOf (fields : list (Json.raw_setter (S := Form))) (body : string) : option Form :=
  Json.unmarshal_raw fields body no_form.
Definition listOf (fields : list (Json.raw_setter (S := Form))) (body : string) : option ListOf :=
  Json.unmarshal_raw (listFields fields) body {| lo_Items := []; NextCursor := "" |}.
End views.

Definition DefaultLimit : Z := 50.
Definition pageSize (limit : Z) : Z := if limit <=? 0 then DefaultLimit else limit.

(** 256 KiB and 64 KiB. *)
Definition maxBody : Z := Z.shiftl 256 10.
Definition maxStatusBody : Z := Z.shiftl 64 10.

(** [io.LimitReader]. *)
Definition first_bytes (n : Z) (s : string) : string :=
  if Z.of_nat (String.length s) <=? n then s else take_str (Z.to_nat n) s.

Section client.
Context `{Env} `{Unicode} `{Intent.Floats} `{Vault.Device} `{Crypto.Primitives} `{CredentialRegistry.Unlocking}
  `{Exchange.Credentials} (c : Console).

(** [call] against a gateway that runs: what is read of the body of a 2xx, and of
    no other. *)
Definition call {A} (read : string -> option A) (q : HttpRequest) : M Backend Code A :=
  answer ← try_ (Handler c q);
  match answer with
  | Ok (Reply status _ _ body) =>
      let decoded := first_bytes maxBody body in
      _ ← refuse ((status <? 200) || (300 <=? status)) CodeGatewayUnavailable;
      match read decoded with Some result => mret result | None => throw CodeGatewayUnavailable end
  | _ => throw CodeGatewayUnavailable
  end.

Definition ConnectIdentity (sessionToken : string) (connect : ConnectRequest) : M Backend Code Form :=
  match marshal (connectView connect) with
  | None => throw CodeInternal
  | Some body => call (viewOf identityFields) (asConsole sessionToken "POST" ["v1"; "identities"; "connect"] [] body)
  end.

(** The path escapes the identifier, and the mux takes the escapes back. *)
Definition RevokeLease (sessionToken leaseID : string) : M Backend Code Form :=
  _ ← refuse (leaseID ==? "") CodeInvalidRequest;
  call (viewOf leaseFields) (asConsole sessionToken "DELETE" ["v1"; "leases"; leaseID] [] "").

Definition RegisterAgent (sessionToken : string) (registration : RegisterRequest) : M Backend Code Form :=
  match marshal (registerView registration) with
  | None => throw CodeInternal
  | Some body => call (viewOf registeredAgentFields) (asConsole sessionToken "POST" ["v1"; "agents"; "register"] [] body)
  end.

Definition DisconnectAgent (sessionToken agentID : string) : M Backend Code Form :=
  _ ← refuse (agentID ==? "") CodeInvalidRequest;
  call (viewOf sessionRevocationFields) (asConsole sessionToken "POST" ["v1"; "agents"; agentID; "disconnect"] [] "").

Definition Identities (sessionToken : string) (limit : Z) : M Backend Code ListOf :=
  call (listOf identityFields) (asConsole sessionToken "GET" ["v1"; "identities"] [("limit", itoa (pageSize limit))] "").

Definition Leases (sessionToken : string) (limit : Z) : M Backend Code ListOf :=
  call (listOf leaseFields) (asConsole sessionToken "GET" ["v1"; "leases"] [("limit", itoa (pageSize limit))] "").

Definition AuditEvents (sessionToken agentID service : string) (limit : Z) : M Backend Code ListOf :=
  _ ← refuse ((agentID !=? "") && (service !=? "")) CodeInvalidRequest;
  call (listOf auditEventFields) (asConsole sessionToken "GET" ["v1"; "audit-events"]
    ((if agentID !=? "" then [("agent_id", agentID)] else []) ++ [("limit", itoa (pageSize limit))] ++
     (if service !=? "" then [("service", service)] else [])) "").

(** [Probe]: the decoder reads one value. *)
Definition Probe (sessionToken : string) : M Backend Code Form :=
  answer ← try_ (Handler c (asConsole sessionToken "GET" ["v1"; "gateway"; "status"] [] ""));
  match answer with
  | Ok (Reply status _ _ body) =>
      _ ← refuse (negb (status =? 200)) CodeGatewayUnavailable;
      match value ← first_value (first_bytes maxStatusBody body); viewOf statusFields value with
      | Some seen =>
          _ ← refuse (text seen "status" ==? "") CodeGatewayUnavailable;
          mret seen
      | None => throw CodeGatewayUnavailable
      end
  | _ => throw CodeGatewayUnavailable
  end.
End client.

(** ** The gateway does not know the field the command sends *)

Lemma take_str_take n m s : take_str n (take_str m s) = take_str (min n m) s.
Proof. revert n m. induction s as [|c s IH]; intros [|n] [|m]; cbn; try done. by rewrite IH. Qed.

Lemma take_str_over n s t : (String.length s <= n)%nat -> take_str n (s +:+ t) = s +:+ take_str (n - String.length s) t.
Proof.
  revert n. induction s as [|c s IH]; intros n Hn; [by rewrite Nat.sub_0_r|]. cbn in Hn. destruct n as [|n]; [lia|].
  rewrite !str_app_cons. cbn [take_str String.length Nat.sub]. f_equal. apply IH. lia.
Qed.

Lemma take_str_under n s t : (n <= String.length s)%nat -> take_str n (s +:+ t) = take_str n s.
Proof.
  revert n. induction s as [|c s IH]; intros n Hn; [cbn in Hn; assert (n = 0%nat) as -> by lia; by destruct t|].
  destruct n as [|n]; [done|]. rewrite str_app_cons. cbn in *. f_equal. apply IH. lia.
Qed.

(** A text that begins like this has the field as the first of its members. *)
Definition reference_head : string := "{" +:+ Json.quote "credential_reference_id".

Lemma parse_fields_nonempty n depth s l rest : Json.parse_fields n depth s = Some (l, rest) -> l <> [].
Proof. destruct n as [|n]; [done|]. cbn [Json.parse_fields]. repeat case_match; intros; simplify_eq; done. Qed.

(** The scanner on a text that begins like this. *)
Lemma head_text t : reference_head +:+ t = String "{" (String Json.c_quote ("credential_reference_id" +:+ Json.s_quote +:+ t)).
Proof. reflexivity. Qed.

Lemma head_parsed t v : Json.parse (reference_head +:+ t) = Some v -> exists kv l, v = Json.JObj (kv :: l).
Proof.
  rewrite head_text. generalize ("credential_reference_id" +:+ Json.s_quote +:+ t). intros s Hp. unfold Json.parse in Hp.
  destruct (Json.parse_value _ _ _) as [[v' rest]|] eqn:Hv; [|done]. destruct (Json.skip_ws rest ==? ""); [|done]. injection Hp as ->.
  revert Hv. generalize (Json.parse_fuel (String "{" (String Json.c_quote s))). intros [|n] Hv; [done|]. cbn [Json.parse_value] in Hv.
  rewrite Json.skip_ws_cons in Hv by reflexivity. change (byte_of "{" =? 34) with false in Hv. change (byte_of "{" =? 91) with false in Hv.
  change (byte_of "{" =? 123) with true in Hv. cbv beta iota zeta in Hv. destruct (Json.max_nesting <=? 0); [done|].
  rewrite Json.skip_ws_cons in Hv by reflexivity. change (byte_of Json.c_quote =? 125) with false in Hv. cbv beta iota in Hv.
  destruct (Json.parse_fields _ _ _) as [[[|kv l] rest']|] eqn:Hf; [by apply parse_fields_nonempty in Hf| |done].
  injection Hv as <- _. by exists kv, l.
Qed.

Lemma head_members t members :
  Json.raw_members (reference_head +:+ t) = Some members -> exists raw rest, members = ("credential_reference_id", raw) :: rest.
Proof.
  unfold Json.raw_members. destruct (Json.parse _) as [v|] eqn:Hp; [|done]. apply head_parsed in Hp as (kv & l & ->). cbn [mbind option_bind].
  assert (Json.lex_str ("credential_reference_id" +:+ Json.s_quote +:+ t) = Some ("credential_reference_id", t)) as Hlex by reflexivity.
  rewrite head_text. revert Hlex. generalize ("credential_reference_id" +:+ Json.s_quote +:+ t). intros s Hlex.
  rewrite Json.skip_ws_cons by reflexivity. generalize (Json.parse_fuel (String "{" (String Json.c_quote s))). intros [|n]; [done|].
  cbn [Json.raw_fields]. rewrite Json.skip_ws_cons by reflexivity. rewrite Hlex. cbn [mbind option_bind].
  destruct (Json.skip_ws t) as [|c s']; [done|]. destruct (Json.raw_value _ s') as [[raw rest]|]; [|done]. cbn [mbind option_bind].
  destruct (Json.skip_ws rest) as [|c' s'']; [done|]. destruct (byte_of c' =? 125); [by intros [= <-]; eexists _, _|].
  destruct (Json.raw_fields _ s''); [|done]. intros [= <-]. by eexists _, _.
Qed.

Lemma head_unknown `{Unicode} rest : decodeForm connectBody no_form (reference_head +:+ rest) = None.
Proof.
  unfold decodeForm, first_value. set (body := reference_head +:+ rest).
  assert (exists k, limited body = take_str k body) as [k ->].
  { unfold limited. destruct (_ <=? _); [exists (String.length body)|by eexists]. clear. induction body; cbn; congruence. }
  assert (Json.skip_ws (take_str k body) = take_str k body) as -> by (by destruct k).
  destruct (Json.parse_value _ _ _) as [[v r]|]; [|done]. cbn [mbind option_bind].
  rewrite take_str_take. generalize (String.length (take_str k body) - String.length r)%nat. intros n.
  generalize (min n k). clear k n v r. intros k. subst body.
  destruct (decide (String.length reference_head <= k)%nat) as [Hk|Hk].
  - rewrite take_str_over by done. destruct (Json.raw_members _) as [members|] eqn:Hm; [|done].
    apply head_members in Hm as (raw & l & ->). reflexivity.
  - rewrite take_str_under by lia.
    assert (forallb (fun k => bool_decide (Json.raw_members (take_str k reference_head) = None)) (seq 0 (String.length reference_head)) = true)
      as Hall by (by vm_compute).
    rewrite forallb_forall in Hall. specialize (Hall k ltac:(apply in_seq; lia)). apply bool_decide_eq_true in Hall. by rewrite Hall.
Qed.

Section connecting.
Context `{Env} `{Unicode} `{Intent.Floats} `{Vault.Device} `{Crypto.Primitives} `{CredentialRegistry.Unlocking}
  `{Exchange.Credentials} (c : Console).

Lemma connect_turned_away operationID rest q w :
  h_Method q = "POST" -> h_Path q = ["v1"; "identities"; "connect"] -> h_Body q = reference_head +:+ rest ->
  dispatch c console_caller operationID q w = (Ok (writeError 400 CodeInvalidRequest operationID), w).
Proof.
  intros Hm Hp Hb. unfold dispatch. rewrite Hp.
  change (route ["v1"; "identities"; "connect"]) with (Some (handles ["identities"; "connect"] ["POST"] ConsoleApi.ConnectIdentity, "")).
  cbn [handles methods endpoint]. unfold allowMethods. rewrite Hm. change (one_of "POST" ["POST"]) with true. cbv beta iota.
  unfold serve, ConsoleApi.call, connectIdentity, refuseAgent, decode, decodeBody. rewrite Hb, head_unknown.
  unfold try_, mbind, M_bind, refuse, of_result. cbn [refuse_if]. unfold mret, M_ret, headed. by rewrite Hm.
Qed.

Lemma guard_refusal boot token q e : guard boot token q = Err e -> e.1 ∈ [401; 403].
Proof. unfold guard. repeat (destruct (refuse_if _ _) eqn:?; cbn [mbind result_bind]; unfold refuse_if in *); repeat case_match; intros; simplify_eq; set_solver. Qed.

Lemma connect_body connect : exists rest, marshal (connectView connect) = Some (reference_head +:+ rest).
Proof. eexists. reflexivity. Qed.

(** The command that connects an identity cannot. Whatever reference it is
    given and whatever state the gateway is in, its request has a field that the
    endpoint does not know - and none of those it asks for - so the answer is never
    a success, and nothing of the gateway's state changes. *)
Theorem connect_never_connects sessionToken connect w :
  let '(r, w') := ConnectIdentity c sessionToken connect w in r = Err CodeGatewayUnavailable /\ db w' = db w.
Proof.
  assert (wp (ConnectIdentity c sessionToken connect) (fun r d' => r = Err CodeGatewayUnavailable /\ d' = db w) (db w)) as Hc.
  { unfold ConnectIdentity. destruct (connect_body connect) as [rest ->]. unfold call. set (q := asConsole _ _ _ _ _).
    apply wp_bind, wp_try.
    assert (wp (Handler c q) (fun r d' => d' = db w /\ forall status kind headers body,
      r = Ok (Reply status kind headers body) -> 400 <= status) (db w)) as Hh.
    { unfold Handler. apply wp_bind, wp_try, wp_NewID.
      - intros operationID ? ?. cbv beta iota. destruct (guard (boot c) (token c) q) as [u|[status e]] eqn:Hg.
        + rewrite (bool_decide_false (h_Path q = _)) by done. intros w' <-. rewrite (connect_turned_away _ rest) by done.
          split; [done|]. intros status kind headers body [= <- _ _ _]. lia.
        + apply guard_refusal in Hg. apply wp_ret. split; [done|]. intros status' kind headers body [= <- _ _ _]. cbn in Hg. set_solver by lia.
      - apply wp_ret. split; [done|]. intros status kind headers body [= <- _ _ _]. lia. }
    eapply wp_mono; [exact Hh|]. cbv beta. intros r d' [-> Hr]. destruct r as [[status kind headers body|id]|e]; try (by apply wp_throw).
    specialize (Hr _ _ _ _ eq_refl). assert ((status <? 200) || (300 <=? status) = true) as -> by lia. by apply wp_bind, wp_refuse. }
  destruct (ConnectIdentity c sessionToken connect w) as [r w'] eqn:Hw. exact (wp_use _ _ _ _ _ Hc Hw).
Qed.
End connecting.

(** ** What a person's machine tells arrives

    The members of a printed object, as texts. *)

Lemma raw_value_print v n rest :
  Json.wf v -> (Json.jsize v <= n)%nat -> 1 + Json.jdepth v <= Json.max_nesting -> Json.num_end rest = true ->
  Json.raw_value n (Json.print v +:+ rest) = Some (Json.print v, rest).
Proof.
  intros Hwf Hn Hd Hr. unfold Json.raw_value. destruct (Json.skip_ws_print v rest Hwf) as (c & s & Hc & Hws & _).
  rewrite Hc, Json.skip_ws_cons by done. rewrite <- Hc, (Json.reads_back_all v Hwf n 1 rest Hn Hd Hr). cbn [mbind option_bind].
  rewrite str_length_app, Nat.add_sub. by rewrite Crypto.take_str_app.
Qed.

Lemma raw_fields_print l n rest :
  l <> [] -> foldr and True (map (fun kv => Json.raw_ok kv.1 /\ Json.wf kv.2) l) ->
  (list_sum (map (fun kv => S (Json.jsize kv.2)) l) <= n)%nat ->
  Forall (fun kv => 1 + Json.jdepth kv.2 <= Json.max_nesting) l ->
  Json.raw_fields n (Json.fields_text l +:+ "}" +:+ rest) = Some (map (fun kv => (kv.1, Json.print kv.2)) l).
Proof.
  revert n. induction l as [|[key v] l IH]; [done|]. intros [|n] _ [[Hk Hwf] Hwfs] Hn Hd; [cbn in Hn; lia|].
  apply Forall_cons in Hd as [Hd Hds]. cbn [map list_sum fst snd foldr] in Hn, Hk, Hwf, Hd |- *.
  assert (forall tail, Json.num_end tail = true ->
    Json.raw_fields (S n) (Json.field_text (key, v) +:+ tail) =
      match Json.skip_ws tail with
      | String c r => if byte_of c =? 125 then Some [(key, Json.print v)]
                      else l ← Json.raw_fields n r; Some ((key, Json.print v) :: l)
      | "" => None
      end) as Hone.
  { intros tail Ht. unfold Json.field_text. cbn [fst snd]. rewrite <- !str_app_assoc. unfold Json.s_quote at 1. rewrite str_app_cons, str_app_nil_l.
    cbn [Json.raw_fields]. rewrite Json.skip_ws_cons by reflexivity. rewrite Json.lex_raw_quote by done. cbn [mbind option_bind].
    rewrite str_app_cons, Json.skip_ws_cons by reflexivity. rewrite str_app_nil_l, raw_value_print by (done || lia). done. }
  destruct l as [|w l].
  - unfold Json.fields_text. cbn [map join]. by rewrite Hone.
  - rewrite Json.fields_cons, <- !str_app_assoc, Hone by done. rewrite str_app_cons, Json.skip_ws_cons by reflexivity.
    change (byte_of "," =? 125) with false. cbv iota. rewrite str_app_nil_l, IH by (done || (cbn in *; lia)). done.
Qed.

(** The body of an object, as [decodeForm] takes it apart. *)
Lemma decodeForm_print `{Unicode} fields zero l :
  l <> [] -> Json.wf (Json.JObj l) -> Json.jdepth (Json.JObj l) <= Json.max_nesting ->
  Z.of_nat (String.length (Json.print (Json.JObj l))) <= maxBodyBytes ->
  decodeForm fields zero (Json.print (Json.JObj l)) =
    let members := map (fun kv => (kv.1, Json.print kv.2)) l in
    if all_known fields members then Json.decode_raw fields members zero else None.
Proof.
  intros Hl Hwf Hd Hsize. unfold decodeForm, limited. rewrite (proj2 (Z.leb_le _ _) Hsize). unfold first_value.
  pose proof (Json.skip_ws_print (Json.JObj l) "" Hwf) as (c & s & Hc & Hws & _). rewrite str_app_nil_r in Hc.
  assert (Json.skip_ws (Json.print (Json.JObj l)) = Json.print (Json.JObj l)) as Hskip by (by rewrite Hc, Json.skip_ws_cons).
  rewrite Hskip. pose proof (Json.jsize_print _ Hwf) as Hfuel.
  pose proof (Json.reads_back_all (Json.JObj l) Hwf (Json.parse_fuel (Json.print (Json.JObj l))) 0 "" ltac:(unfold Json.parse_fuel; lia)
    ltac:(lia) eq_refl) as Hv. rewrite str_app_nil_r in Hv. rewrite Hv. cbn [mbind option_bind]. rewrite Nat.sub_0_r.
  assert (take_str (String.length (Json.print (Json.JObj l))) (Json.print (Json.JObj l)) = Json.print (Json.JObj l)) as ->
    by (rewrite <- (str_app_nil_r (Json.print (Json.JObj l))) at 2; apply Crypto.take_str_app).
  unfold Json.raw_members. rewrite Json.parse_print by done. cbn [mbind option_bind]. rewrite Hskip.
  assert (Json.print (Json.JObj l) = String "{" (Json.fields_text l +:+ "}" +:+ "")) as Hp.
  { change (Json.print (Json.JObj l)) with ("{" +:+ Json.fields_text l +:+ "}"). by rewrite str_app_cons, str_app_nil_l, str_app_nil_r. }
  destruct l as [|kv l]; [done|]. rewrite Hp at 1. rewrite raw_fields_print; [done|done|exact Hwf| |].
  - cbn [Json.jsize] in Hfuel. unfold Json.parse_fuel. lia.
  - apply Forall_forall. intros x Hx. cbn [Json.jdepth] in Hd.
    assert (Json.jdepth x.2 <= foldr Z.max 0 (map (fun kv : string * Json.json => Json.jdepth kv.2) (kv :: l))) as Hmax; [|cbn in *; lia].
    revert Hx. generalize (kv :: l). intros k. induction k as [|y k IH]; [by intros ?%not_elem_of_nil|].
    intros [->|Hx]%elem_of_cons; cbn; [lia|]. specialize (IH Hx). lia.
Qed.

Section registering.
Context `{Unicode}.

Lemma parse_of_string t : Json.parse (Json.print (Json.of_string t)) = Some (Json.of_string t).
Proof. apply Json.parse_print; [apply Json.wf_of_string|]. cbn. unfold Json.max_nesting. lia. Qed.

Lemma parse_of_int n : Json.parse (Json.print (Json.of_int n)) = Some (Json.of_int n).
Proof. apply Json.parse_print; [apply Json.wf_of_int|]. cbn. unfold Json.max_nesting. lia. Qed.

Lemma decode_text fields name t rest ts ns fs rs ms :
  Json.unquote (Json.quote_body name) = Some name -> Json.raw_field_for fields name = Some (text_field name) -> valid_utf8 t = true ->
  Json.decode_raw fields ((Json.quote_body name, Json.print (Json.of_string t)) :: rest) (mkForm ts ns fs rs ms) =
    Json.decode_raw fields rest (mkForm (<[name := t]> ts) ns fs rs ms).
Proof.
  intros Hname Hfield Ht. cbn [Json.decode_raw]. rewrite Hname. cbn [mbind option_bind]. rewrite Hfield. cbn [text_field fst snd].
  rewrite parse_of_string. cbn [mbind option_bind]. by rewrite Json.as_of_string.
Qed.

Lemma decode_number fields name n rest ts ns fs rs ms :
  Json.unquote (Json.quote_body name) = Some name -> Json.raw_field_for fields name = Some (number_field name) -> Json.int64_ok n = true ->
  Json.decode_raw fields ((Json.quote_body name, Json.print (Json.of_int n)) :: rest) (mkForm ts ns fs rs ms) =
    Json.decode_raw fields rest (mkForm ts (<[name := n]> ns) fs rs ms).
Proof.
  intros Hname Hfield Ht. cbn [Json.decode_raw]. rewrite Hname. cbn [mbind option_bind]. rewrite Hfield. cbn [number_field fst snd].
  rewrite parse_of_int. cbn [mbind option_bind]. by rewrite Json.as_of_int.
Qed.

Lemma all_known_field fields name t rest f :
  Json.unquote (Json.quote_body name) = Some name -> Json.raw_field_for fields name = Some f ->
  all_known fields ((Json.quote_body name, t) :: rest) = all_known fields rest.
Proof. intros Hname Hfield. cbn [all_known]. by rewrite Hname, Hfield. Qed.

Definition registerJson (r : RegisterRequest) : list (string * Json.json) :=
  map (fun kv => (Json.quote_body kv.1, kv.2))
    [("name", Json.of_string (rq_Name r)); ("type", Json.of_string (rq_Type r)); ("version", Json.of_string (rq_Version r));
     ("executable_hash", Json.of_string (rq_ExecutableHash r)); ("executable_path", Json.of_string (rq_ExecutablePath r));
     ("pid", Json.of_int (rq_PID r)); ("parent_pid", Json.of_int (rq_ParentPID r)); ("os_user", Json.of_string (rq_OSUser r));
     ("device_fingerprint", Json.of_string (rq_DeviceFingerprint r)); ("device_name", Json.of_string (rq_DeviceName r));
     ("workspace_path", Json.of_string (rq_WorkspacePath r)); ("project_fingerprint", Json.of_string (rq_ProjectFingerprint r));
     ("started_at", Json.of_string (rq_StartedAt r))].

Lemma marshal_register r : marshal (registerView r) = Some (Json.print (Json.JObj (registerJson r))).
Proof. reflexivity. Qed.

Lemma register_wf r : Json.wf (Json.JObj (registerJson r)) /\ Json.jdepth (Json.JObj (registerJson r)) <= Json.max_nesting.
Proof.
  split; [|cbn; unfold Json.max_nesting; lia]. apply Json.wf_obj. intros k v Hin. unfold registerJson in Hin.
  apply list_elem_of_fmap in Hin as ([name t] & [-> ->]%pair_equal_spec & Hin). split; [apply Json.wf_of_string|]. cbn [snd].
  rewrite !elem_of_cons, elem_of_nil in Hin.
  repeat (destruct Hin as [[-> ->]%pair_equal_spec|Hin]; [apply Json.wf_of_string || apply Json.wf_of_int|]). done.
Qed.

(** The texts of a registration are text, its numbers machine integers. *)
Definition sendable (r : RegisterRequest) : Prop :=
  Forall (fun t => valid_utf8 t = true)
    [rq_Name r; rq_Type r; rq_Version r; rq_ExecutableHash r; rq_ExecutablePath r; rq_OSUser r; rq_DeviceFingerprint r;
     rq_DeviceName r; rq_WorkspacePath r; rq_ProjectFingerprint r; rq_StartedAt r] /\
  Json.int64_ok (rq_PID r) = true /\ Json.int64_ok (rq_ParentPID r) = true.

(** C37. What the command sees of an agent is what the gateway registers. The body
    it sends is read by the endpoint without a field unknown to it or missing: of
    every binding of the identity - program, hash, path, processes, user, machine,
    directory, project - the registration has exactly the value that was sent,
    without the space around the names, and the instant's text arrives. *)
Theorem register_understood r since body :
  sendable r -> marshal (registerView r) = Some body -> Z.of_nat (String.length body) <= maxBodyBytes ->
  exists form, decodeForm registerAgentBody no_form body = Some form /\ text form "started_at" = rq_StartedAt r /\
    registration form since =
      {| AgentAuth.r_Name := trim_space (rq_Name r); AgentAuth.r_Type := trim_space (rq_Type r);
         AgentAuth.r_Version := trim_space (rq_Version r); AgentAuth.r_ExecutableHash := trim_space (rq_ExecutableHash r);
         AgentAuth.r_ExecutablePath := rq_ExecutablePath r; AgentAuth.r_PID := rq_PID r; AgentAuth.r_ParentPID := rq_ParentPID r;
         AgentAuth.r_OSUser := trim_space (rq_OSUser r); AgentAuth.DeviceFingerprint := trim_space (rq_DeviceFingerprint r);
         AgentAuth.DeviceName := trim_space (rq_DeviceName r); AgentAuth.WorkspacePath := rq_WorkspacePath r;
         AgentAuth.r_ProjectFingerprint := trim_space (rq_ProjectFingerprint r); AgentAuth.r_StartedAt := since |}.
Proof.
  intros (Ht & Hpid & Hppid) Hb Hsize. rewrite marshal_register in Hb. apply (inj Some) in Hb as <-.
  destruct (register_wf r) as [Hwf Hd]. rewrite decodeForm_print by done. cbv zeta. rewrite !Forall_cons in Ht.
  destruct Ht as (H1 & H2 & H3 & H4 & H5 & H6 & H7 & H8 & H9 & H10 & H11 & _).
  assert (forall A B (l : list (string * A)) (f : A -> B), map (fun kv => (kv.1, f kv.2)) (map (fun kv => (Json.quote_body kv.1, kv.2)) l) =
    map (fun kv => (Json.quote_body kv.1, f kv.2)) l) as Hmap by (intros; by rewrite map_map).
  unfold registerJson. rewrite Hmap. cbn [map fst snd].
  repeat (erewrite all_known_field; [|reflexivity|reflexivity]). change (all_known registerAgentBody []) with true. cbv iota.
  unfold no_form. do 5 (rewrite decode_text; [|reflexivity|reflexivity|assumption]). do 2 (rewrite decode_number; [|reflexivity|reflexivity|assumption]).
  do 6 (rewrite decode_text; [|reflexivity|reflexivity|assumption]). cbn [Json.decode_raw].
  eexists. split; [reflexivity|]. unfold registration, text, number. cbn [texts numbers].
  repeat (rewrite lookup_insert_ne by discriminate || rewrite lookup_insert_eq). cbn [default from_option]. done.
Qed.
End registering.

Definition sample_request : RegisterRequest :=
  {| rq_Name := "codex"; rq_Type := "codex"; rq_Version := "1.0"; rq_ExecutableHash := "sha256:00";
     rq_ExecutablePath := "/usr/bin/codex"; rq_PID := 41; rq_ParentPID := 40; rq_OSUser := "ada"; rq_DeviceFingerprint := "d";
     rq_DeviceName := "desk"; rq_WorkspacePath := "/home/ada/p"; rq_ProjectFingerprint := "p"; rq_StartedAt := "" |}.

#[local] Existing Instance ascii_only.

Lemma register_understood_witness :
  exists body form, marshal (registerView sample_request) = Some body /\ decodeForm registerAgentBody no_form body = Some form.
Proof.
  destruct (register_understood sample_request 0 (Json.print (Json.JObj (registerJson sample_request)))) as (form & Hform & _).
  - split; [|split; by vm_compute]. repeat (constructor; [by vm_compute|]). constructor.
  - apply marshal_register.
  - by vm_compute.
  - exists (Json.print (Json.JObj (registerJson sample_request))), form. split; [apply marshal_register | exact Hform].
Defined.

Example answers_read :
  (let registered := Fields [("agent", Fields [("id", Text "01A"); ("name", Text "codex")]); ("session_key", Text "od_key"); ("is_rebind", Flag true)] in
   f ← marshal registered; f ← viewOf registeredAgentFields f;
   Some (text f "agent.id", text f "session_key", flag f "is_rebind")) = Some ("01A", "od_key", true) /\
  (let leases := listEnvelope [Fields [("id", Text "01L"); ("request_limit", Null); ("used_requests", Number 3)]] "next" in
   l ← marshal leases; l ← listOf leaseFields l;
   Some (map (fun f => (text f "id", numbers f !! "request_limit", number f "used_requests")) (lo_Items l), NextCursor l)) =
    Some ([("01L", None, 3)], "next").
Proof. split; by vm_compute. Qed.
