(* ===== verification/CommandLine.v ===== *)
(** * cli: running an agent (environ.go, run.go, agentsession.go)

    [opendelo run] registers the agent with what it sees of it, takes the
    credentials out of the environment, puts the places of the gateway in, starts
    the agent, and ends the session when the agent has ended. *)
From S2P Require Import Prelude GoStr Apperr World Store Machine.
From S2P Require Json GoTime Encoding Intent Crypto Vault CredentialRegistry AgentAuth Exchange Config Pipeline Cascade ConsoleSpec.
From S2P Require Import Url ConsoleViews Console ConsoleApi GatewayClient.
Open Scope Z_scope.

(** ** The environment of the agent (environ.go) *)

Definition credentialVariables : list string :=
  ["ANTHROPIC_API_KEY"; "AWS_ACCESS_KEY_ID"; "AWS_SECRET_ACCESS_KEY"; "AWS_SESSION_TOKEN"; "CLOUDFLARE_API_TOKEN";
   "CLOUDFLARE_EMAIL"; "CLOUDFLARE_GLOBAL_API_KEY"; "GH_TOKEN"; "GITHUB_TOKEN"; "GOOGLE_API_KEY"; "OPENAI_API_KEY";
   "VERCEL_TOKEN"].

Definition credentialSuffixes : list string :=
  ["_API_KEY"; "_APIKEY"; "_CREDENTIALS"; "_PASSWORD"; "_PRIVATE_KEY"; "_SECRET"; "_SECRET_KEY"; "_TOKEN"].

Definition proxyEnvironment (settings : Config.Config) : gmap string string :=
  let address port := "http://" +:+ JoinHostPort (Config.ListenAddress settings) (itoa port) in
  let proxy := address (Config.AgentProxyPort settings) in
  let mcp := address (Config.MCPPort settings) +:+ "/mcp" in
  let loopback := "localhost,127.0.0.1,::1" in
  list_to_map [("HTTP_PROXY", proxy); ("http_proxy", proxy); ("HTTPS_PROXY", proxy); ("https_proxy", proxy);
    ("NO_PROXY", loopback); ("no_proxy", loopback); ("OPENDELO_MCP_ENDPOINT", mcp)].

Definition sessionKeyVariable : string := "OPENDELO_SESSION_KEY".

Definition injected (settings : Config.Config) (sessionKey : string) : gmap string string :=
  <[sessionKeyVariable := sessionKey]> (proxyEnvironment settings).

Record environPlan := { Environ : list string; Removed : list string }.

Definition sortedKeys (values : gmap string string) : list string := sort_strings (map fst (map_to_list values)).

(** [strings.Cut] at the equals sign; an entry without one has no name. *)
Definition nameOf (entry : string) : option string :=
  let '(name, _, found) := cut "=" entry in if found : bool then Some name else None.

Section environ.
Context `{Unicode}.

(** The names given on the command line, without the space around them. *)
Definition given (names : list string) : list string :=
  filter (fun name => name <> "") (map trim_space names).

Definition carriesCredential (name : string) (clear : list string) : bool :=
  one_of name clear || existsb (has_suffix (to_upper name)) credentialSuffixes.

Inductive fate := Dropped | Cleared (name : string) | Passed.

(** What becomes of one entry of the parent's environment. *)
Definition entryFate (settings : Config.Config) (own : gmap string string) (clear kept : list string) (entry : string) : fate :=
  match nameOf entry with
  | None => Dropped
  | Some name =>
      if bool_decide (is_Some (own !! name)) then Dropped
      else if Config.Enforced settings && negb (one_of name kept) && carriesCredential name clear then Cleared name
      else Passed
  end.

Definition planEnviron (parent : list string) (settings : Config.Config) (extra keep : list string) (sessionKey : string)
    : environPlan :=
  let clear := credentialVariables ++ given extra in
  let kept := given keep in
  let fates := map (fun entry => (entry, entryFate settings (injected settings sessionKey) clear kept entry)) parent in
  {| Environ := omap (fun kv => match kv.2 with Passed => Some kv.1 | _ => None end) fates ++
                map (fun name => name +:+ "=" +:+ default "" (injected settings sessionKey !! name)) (sortedKeys (injected settings sessionKey));
     Removed := sort_strings (omap (fun kv => match kv.2 with Cleared name => Some name | _ => None end) fates) |}.
End environ.

(** ** run.go *)

(** [splitCommand]: what stands before the two dashes, and what after. *)
Fixpoint splitCommand (args : list string) : list string * list string :=
  match args with
  | [] => ([], [])
  | arg :: args =>
      if arg ==? "--" then ([], args) else let '(own, forwarded) := splitCommand args in (arg :: own, forwarded)
  end.

(** [listFlag.Set]. *)
Definition listFlag_Set `{Unicode} (l : list string) (value : string) : list string :=
  l ++ filter (fun part => part <> "") (map trim_space (split_on "," value)).

(** ** agentsession.go *)

Definition hashPrefix : string := "sha256:".

Definition digest (content : string) : string :=
  hashPrefix +:+ Encoding.hex_encode (Encoding.sum256 (Encoding.bytes_of content)).

Definition NUL : string := String (of_byte 0) "".

Definition digestOf (parts : list string) : string := digest (join NUL parts).

(** What the process sees: a command on the path, the bytes of a file, the user,
    the directory it is in, the name of the machine, its number and its parent's. *)
Class Surroundings := {
  located : string -> option string;
  readable_bytes : string -> option string;
  osUser : option string;
  workingDirectory : option string;
  hostname : option string;
  pid : Z;
  parentPid : Z;
  GOOS : string;
  GOARCH : string;
}.

(** 512 MiB. *)
Definition maxExecutableBytes : Z := Z.shiftl 512 20.

Definition typeClaudeCode : string := "claude-code".
Definition typeCodex : string := "codex".
Definition typeGeminiCLI : string := "gemini-cli".
Definition typeOpenCode : string := "opencode".
Definition typeGeneric : string := "generic".

Definition agentTypeOf `{Unicode} (name : string) : string :=
  let program := to_lower (trim_suffix name ".exe") in
  if program ==? "claude" then typeClaudeCode
  else if program ==? "codex" then typeCodex
  else if program ==? "gemini" then typeGeminiCLI
  else if program ==? "opencode" then typeOpenCode
  else typeGeneric.

(** [filepath.Base] of a clean absolute path. *)
Definition lastSegment (path : string) : string :=
  match last (split_on "/" path) with Some "" => "/" | Some name => name | None => "." end.

Section describe.
Context `{Unicode} `{Surroundings}.

Definition fileDigest (path : string) : result Code string :=
  match readable_bytes path with
  | Some content => Ok (digest (first_bytes maxExecutableBytes content))
  | None => Err CodeInvalidRequest
  end.

Definition deviceFingerprint (hostname : string) : string := digestOf ["opendelo-device"; hostname; GOOS; GOARCH].

Definition projectFingerprint (workspace : string) : string :=
  match readable_bytes (Config.Join (Config.Join workspace ".git") "config") with
  | Some gitConfig => digestOf ["opendelo-project"; workspace; gitConfig]
  | None => digestOf ["opendelo-project"; workspace]
  end.

(** [describeAgent]; the instant is given as RFC 3339 text. *)
Definition describeAgent (command startedAt : string) : result Code RegisterRequest :=
  match located command with
  | None => Err CodeInvalidRequest
  | Some executable =>
      hash ← fileDigest executable;
      match osUser, workingDirectory, hostname with
      | Some user, Some workspace, Some host =>
          let workspace := FilePath.Clean workspace in
          let name := lastSegment executable in
          Ok {| rq_Name := name; rq_Type := agentTypeOf name; rq_Version := ""; rq_ExecutableHash := hash;
                rq_ExecutablePath := executable; rq_PID := pid; rq_ParentPID := parentPid; rq_OSUser := user;
                rq_DeviceFingerprint := deviceFingerprint host; rq_DeviceName := host; rq_WorkspacePath := workspace;
                rq_ProjectFingerprint := projectFingerprint workspace; rq_StartedAt := startedAt |}
      | _, _, _ => Err CodeInternal
      end
  end.
End describe.

(** ** The session around the agent *)

Record agentSession := { agentID : string; key : string }.

(** How a run can fail once the agent was to be started. *)
Inductive Failure := NotStarted | ExitCode (n : Z) | NotClosed (e : Code).

(** What the command returns, and the session of which it says that it still
    lives. *)
Record RunOutcome := { failure : option Failure; told_open : option agentSession }.

Section session.
Context `{Env} `{Unicode} `{Intent.Floats} `{Vault.Device} `{Crypto.Primitives} `{CredentialRegistry.Unlocking}
  `{Exchange.Credentials} `{Surroundings} (c : Console) (settings : Config.Config) (sessionToken : string).

(** The agent with its arguments and environment: whatever it does, its exit code,
    or that it could not be started. *)
Context (child : list string -> list string -> M Backend Code Z).

Definition openSession (command : string) : M Backend Code agentSession :=
  now ← Now;
  registration ← of_result (describeAgent command (GoTime.seconds_text now +:+ "Z"));
  registered ← RegisterAgent c sessionToken registration;
  _ ← refuse (text registered "session_key" ==? "") CodeGatewayUnavailable;
  mret {| agentID := text registered "agent.id"; key := text registered "session_key" |}.

Definition closeSession (session : agentSession) : M Backend Code Z :=
  revocation ← DisconnectAgent c sessionToken (agentID session);
  mret (number revocation "revoked_leases").

Definition spawn (forwarded environ : list string) : M Backend Code (option Failure) :=
  ended ← try_ (child forwarded environ);
  mret (match ended with
        | Ok code => if code =? 0 then None else Some (ExitCode code)
        | Err _ => Some NotStarted
        end).

Definition endSession (session : agentSession) (spawnErr : option Failure) : M Backend Code RunOutcome :=
  closed ← try_ (closeSession session);
  mret (match closed, spawnErr with
        | Err e, None => {| failure := Some (NotClosed e); told_open := None |}
        | Err _, Some _ => {| failure := spawnErr; told_open := Some session |}
        | Ok _, _ => {| failure := spawnErr; told_open := None |}
        end).

(** [runRun] once the arguments, the configuration and the token are read. *)
Definition runRun (parent clearExtra keep args : list string) : M Backend Code RunOutcome :=
  match (splitCommand args).2 with
  | [] => throw CodeInvalidRequest
  | (command :: _) as forwarded =>
      session ← openSession command;
      let plan := planEnviron parent settings clearExtra keep (key session) in
      spawnErr ← spawn forwarded (Environ plan);
      endSession session spawnErr
  end.
End session.

(** ** The agent gets no credential *)

Section environ_spec.
Context `{Unicode}.

Definition injectedNames : list string :=
  [sessionKeyVariable; "HTTP_PROXY"; "http_proxy"; "HTTPS_PROXY"; "https_proxy"; "NO_PROXY"; "no_proxy"; "OPENDELO_MCP_ENDPOINT"].

Lemma injected_name settings key name value : injected settings key !! name = Some value -> name ∈ injectedNames.
Proof.
  unfold injected, injectedNames, proxyEnvironment. rewrite lookup_insert_Some. intros [[<- _]|[_ Hl]]; [by left|right].
  apply elem_of_list_to_map_2 in Hl. apply (list_elem_of_fmap_2 fst) in Hl. exact Hl.
Qed.

Lemma nameOf_injected settings key name value :
  injected settings key !! name = Some value -> nameOf (name +:+ "=" +:+ value) = Some name.
Proof.
  intros Hin%injected_name. unfold injectedNames in Hin. rewrite !elem_of_cons, elem_of_nil in Hin.
  destruct Hin as [->|[->|[->|[->|[->|[->|[->|[->|[]]]]]]]]]; reflexivity.
Qed.

(** Whether the agent may have a variable of this name. *)
Definition spared (settings : Config.Config) (extra keep : list string) (name : string) : Prop :=
  Config.Enforced settings = false \/ name ∈ given keep \/ carriesCredential name (credentialVariables ++ given extra) = false.

Lemma entryFate_spec settings key extra keep entry :
  let fate := entryFate settings (injected settings key) (credentialVariables ++ given extra) (given keep) entry in
  match nameOf entry with
  | None => fate = Dropped
  | Some name => (is_Some (injected settings key !! name) /\ fate = Dropped) \/
      injected settings key !! name = None /\ ((spared settings extra keep name /\ fate = Passed) \/
        (~ spared settings extra keep name /\ fate = Cleared name))
  end.
Proof.
  cbv zeta. unfold entryFate, spared. destruct (nameOf entry) as [name|]; [|done].
  case_bool_decide as Hi; [by left|right]. apply eq_None_not_Some in Hi. split; [done|].
  destruct (Config.Enforced settings); [|left; auto]. destruct (one_of name (given keep)) eqn:Hk.
  { apply one_of_spec in Hk. left. auto. }
  assert (name ∉ given keep) by (intros Hin%one_of_spec; congruence). cbn [andb negb].
  destruct (carriesCredential name _); [right|left]; split; auto. intros [?|[?|?]]; done.
Qed.

Lemma elem_of_sortedKeys m name : name ∈ sortedKeys m <-> is_Some (m !! name).
Proof. apply Json.elem_of_sorted_keys. Qed.

(** C23. No credential reaches the agent, and nobody else's gateway. Under the
    enforced level an entry the agent gets is one of the parent's whose name no
    rule takes for a credential or that the user wanted kept, or one of the
    gateway's own - the proxy, the tools, the session's key, in every spelling -
    whose value is the gateway's, and no other entry has their names. Nothing else
    is taken away, under the other level nothing at all; and what is said to have
    been removed are the names, exactly and without a value. *)
Theorem environ_clean parent settings extra keep key :
  let plan := planEnviron parent settings extra keep key in
  (forall entry, entry ∈ Environ plan <->
     exists name, nameOf entry = Some name /\
       match injected settings key !! name with
       | Some value => entry = name +:+ "=" +:+ value
       | None => entry ∈ parent /\ spared settings extra keep name
       end) /\
  (forall name, name ∈ Removed plan <->
     exists entry, entry ∈ parent /\ nameOf entry = Some name /\ injected settings key !! name = None /\
       ~ spared settings extra keep name).
Proof.
  cbv zeta. unfold planEnviron. cbn [Environ Removed]. split.
  - intros entry. rewrite elem_of_app, list_elem_of_omap, list_elem_of_fmap. split.
    + intros [([e f] & Hin & Hf)|(name & -> & Hin)].
      * apply list_elem_of_fmap in Hin as (e' & [-> ->]%pair_equal_spec & Hin). cbn [fst snd] in Hf.
        pose proof (entryFate_spec settings key extra keep e') as Hs. cbv zeta in Hs.
        destruct (nameOf e') as [name|] eqn:Hname; [|by rewrite Hs in Hf].
        destruct Hs as [[_ Hs]|[Hn [[Hsp Hs]|[_ Hs]]]]; rewrite Hs in Hf; try done. injection Hf as <-. exists name. split; [done|]. by rewrite Hn.
      * apply elem_of_sortedKeys in Hin as [value Hv]. exists name. rewrite Hv. split; [by eapply nameOf_injected|done].
    + intros (name & Hn & Hm). destruct (injected settings key !! name) as [value|] eqn:Hv.
      * right. exists name. rewrite Hv. split; [done|]. apply elem_of_sortedKeys. by exists value.
      * left. destruct Hm as [Hin Hsp]. eexists. split; [apply list_elem_of_fmap; by exists entry|]. cbn [fst snd].
        pose proof (entryFate_spec settings key extra keep entry) as Hs. cbv zeta in Hs. rewrite Hn in Hs.
        destruct Hs as [[[? Hi] _]|[_ [[_ ->]|[Hns _]]]]; [congruence|done|done].
  - intros name. rewrite sort_strings_perm, list_elem_of_omap. split.
    + intros ([e f] & Hin & Hf). apply list_elem_of_fmap in Hin as (e' & [-> ->]%pair_equal_spec & Hin). cbn [fst snd] in Hf. exists e'. split; [done|].
      pose proof (entryFate_spec settings key extra keep e') as Hs. cbv zeta in Hs.
      destruct (nameOf e') as [n|] eqn:Hname; [|by rewrite Hs in Hf].
      destruct Hs as [[_ Hs]|[Hn [[Hsp Hs]|[Hns Hs]]]]; rewrite Hs in Hf; try done. by injection Hf as <-.
    + intros (entry & Hin & Hn & Hi & Hns). eexists. split; [apply list_elem_of_fmap; by exists entry|]. cbn [fst snd].
      pose proof (entryFate_spec settings key extra keep entry) as Hs. cbv zeta in Hs. rewrite Hn in Hs.
      destruct Hs as [[[? Hi'] _]|[_ [[? _]|[_ ->]]]]; [congruence|done|done].
Qed.
End environ_spec.

Example planned :
  let plan := planEnviron (H := ascii_only) ["PATH=/bin"; "GH_TOKEN=ghp_x"; "my_db_password=x"; "AWS_ACCESS_KEY_ID=y"; "CI_TOKEN=z";
                "HTTP_PROXY=http://elsewhere"; "TOKENS=1"] Config.Default ["PRIVATE"] [" CI_TOKEN "] "key" in
  take 3 (Environ plan) = ["PATH=/bin"; "CI_TOKEN=z"; "TOKENS=1"] /\ length (Environ plan) = 11%nat /\
  "HTTP_PROXY=http://127.0.0.1:8788" ∈ Environ plan /\ Removed plan = ["AWS_ACCESS_KEY_ID"; "GH_TOKEN"; "my_db_password"].
Proof. split_and!; [by vm_compute..| |by vm_compute]. apply one_of_spec. by vm_compute. Qed.

(** ** The session ends with the agent *)

Section session_spec.
Context `{Env} `{Unicode} `{Intent.Floats} `{Vault.Device} `{Crypto.Primitives} `{CredentialRegistry.Unlocking}
  `{Exchange.Credentials} `{Surroundings} (c : Console) (settings : Config.Config) (sessionToken : string).

Lemma wp_ran {D E A} (m : M D E A) d : wp m (fun r d' => exists w w', db w = d /\ m w = (r, w') /\ db w' = d') d.
Proof. intros w Hw. exists w, (m w).2. by destruct (m w). Qed.

Definition answered (answer : Answer) : Prop :=
  match answer with Reply status _ _ _ => 200 <= status < 300 | EventStream _ => False end.

Lemma answered_headed q answer : answered (headed q answer) <-> answered answer.
Proof. by destruct answer. Qed.

Lemma statusFor_refusal e : 400 <= statusFor e.
Proof.
  unfold statusFor, StatusForCode. destruct (assoc e statuses) as [status|] eqn:Ha; [|cbn; lia].
  assert (Forall (fun row => 400 <= row.2) statuses) as Hall by (repeat constructor; done).
  rewrite Forall_forall in Hall. assert (exists e', (e', status) ∈ statuses) as [e' Hin]; [|exact (Hall _ Hin)].
  revert Ha. generalize statuses. clear. intros l. induction l as [|[e' n] l IH]; cbn; [done|].
  case_match; [intros [= ->]; exists e'; by left|]. intros [e'' Hin]%IH. exists e''. by right.
Qed.

Lemma fail_refusal operationID r : ~ answered (fail operationID r).
Proof. unfold fail. pose proof (statusFor_refusal (r_Code r)). destruct (r_Fields r); unfold writeError, writeValidationError, writeJSON, answered; lia. Qed.

(** The console was asked to end the session of this agent, and did: the row says
    so, and of its leases until the end of the task none is left, unless there were
    as many as one page. *)
Definition session_ended (id : string) (b : Backend) : Prop :=
  exists operationID w w' a revoked,
    Pipeline.DisconnectAgent id operationID w = (Ok (a, revoked), w') /\ db w' = Machine.tables (machine b) /\
    agents (Machine.tables (machine b)) !! id = Some a /\ Agent.Status a = Agent.StatusDisconnected /\
    (Z.of_nat (length revoked) < Pipeline.cascadeLimit ->
     Cascade.none_left (Cascade.of_session id) (Machine.tables (machine b))).

Definition tidy_tables (b : Backend) : Prop := Cascade.keyed (Machine.tables (machine b)).

Lemma wp_disconnect_endpoint caller operationID id b :
  tidy_tables b ->
  wp (serve c caller operationID (asConsole sessionToken "POST" ["v1"; "agents"; id; "disconnect"] [] "") (ConsoleApi.DisconnectAgent id))
    (fun r b' => forall answer, r = Ok answer -> answered answer -> session_ended id b') b.
Proof.
  intros Hk. unfold serve, ConsoleApi.call, disconnectAgent, refuseAgent, pathID. apply wp_bind, wp_try. wp_steps.
  assert (forall r b', wp (mret (fail operationID r) : M Backend Refusal Answer)
    (fun r b'' => forall answer, r = Ok answer -> answered answer -> session_ended id b'') b') as Hfail.
  { intros r b'. apply wp_ret. intros answer [= <-] Ha. by apply fail_refusal in Ha. }
  destruct (IsAgent caller); [apply Hfail|]. wp_steps. destruct (id ==? ""); [apply Hfail|]. wp_steps.
  apply ConsoleSpec.wp_in_db. eapply wp_mono; [apply wp_and; [apply wp_ran|by apply Cascade.disconnect_agent_outcome]|].
  intros [[a revoked]|e] t [(w & w' & Hw & Hrun & Ht) (_ & _ & Hout)]; [|apply Hfail].
  destruct Hout as (Ha & Hs & Hl). unfold respond. wp_steps. intros answer _ _. by exists operationID, w, w', a, revoked.
Qed.

Lemma wp_Handler_guarded q (Q : result Refusal Answer -> Backend -> Prop) b :
  h_Path q <> ["v1"; "gateway"; "status"] ->
  (forall answer, ~ answered answer -> Q (Ok answer) b) ->
  (forall operationID, wp (dispatch c console_caller operationID q) Q b) ->
  wp (Handler c q) Q b.
Proof.
  intros Hp Hno Hd. unfold Handler. apply wp_bind, wp_try, wp_NewID.
  - intros operationID ? ?. cbv beta iota. destruct (guard (boot c) (token c) q) as [u|[status e]] eqn:Hg.
    + rewrite bool_decide_false by done. apply Hd.
    + apply GatewayClient.guard_refusal in Hg. apply wp_ret, Hno. rewrite answered_headed. cbn [fst] in Hg.
      unfold writeError, writeJSON, answered. set_solver by lia.
  - apply wp_ret, Hno. rewrite answered_headed. unfold writeError, writeJSON, answered. lia.
Qed.

Lemma wp_dispatch_row row id operationID q (Q : result Refusal Answer -> Backend -> Prop) b :
  route (h_Path q) = Some (row, id) -> one_of (h_Method q) (methods row) = true ->
  wp (serve c console_caller operationID q (endpoint row id (h_Method q)))
    (fun r => Q (match r with Ok answer => Ok (headed q answer) | Err e => Err e end)) b ->
  wp (dispatch c console_caller operationID q) Q b.
Proof.
  intros Hr Hm Hs. unfold dispatch. rewrite Hr. unfold allowMethods. rewrite Hm. apply wp_bind.
  eapply wp_mono; [exact Hs|]. intros [answer|e] b' HQ; [by apply wp_ret|exact HQ].
Qed.

(** A call that is given an answer was answered. *)
Lemma wp_answered_call {A} (read : string -> option A) q (Q : result Code A -> Backend -> Prop) b :
  wp (Handler c q) (fun r b' => (forall e, Q (Err e) b') /\
    forall answer result, r = Ok answer -> answered answer -> Q (Ok result) b') b ->
  wp (call c read q) Q b.
Proof.
  intros Hh. unfold call. apply wp_bind, wp_try. eapply wp_mono; [exact Hh|]. cbv beta.
  intros [[status kind headers body|id]|e] b' [Herr Hok]; try (by apply wp_throw). apply wp_bind, wp_refuse.
  destruct ((status <? 200) || (300 <=? status)) eqn:Hs; [apply Herr|].
  destruct (read _) as [result|]; [|by apply wp_throw]. apply wp_ret. eapply Hok; [done|]. unfold answered. lia.
Qed.

Lemma route_disconnect id :
  id <> "" -> route ["v1"; "agents"; id; "disconnect"] =
    Some (handles_id ["agents"] ["disconnect"] ["POST"] ConsoleApi.DisconnectAgent, id).
Proof.
  intros Hid. destruct (decide (id = "register")) as [->|Hne]; [reflexivity|]. destruct id as [|a id]; [done|].
  assert (capture [Some "v1"; Some "agents"; Some "register"] ["v1"; "agents"; String a id; "disconnect"] = None) as Hno
    by (change ((if "register" ==? String a id then None else None : option string) = None); by case_match).
  unfold route, routes. rewrite !find_first_app. cbn [find_first handles pattern map].
  rewrite Hno. reflexivity.
Qed.

Lemma wp_closeSession session b :
  tidy_tables b ->
  wp (closeSession c sessionToken session) (fun r b' => is_Ok r = true -> session_ended (agentID session) b') b.
Proof.
  intros Hk. unfold closeSession, DisconnectAgent. apply wp_bind, wp_bind, wp_refuse.
  destruct (agentID session ==? "") eqn:Hid; [done|]. apply bool_decide_eq_false in Hid.
  apply wp_answered_call. set (q := asConsole _ _ _ _ _).
  assert (wp (Handler c q) (fun r b' => forall answer, r = Ok answer -> answered answer -> session_ended (agentID session) b') b) as Hh.
  { apply wp_Handler_guarded; [done|by intros answer Hno ? [= <-]|]. intros operationID.
    eapply wp_dispatch_row; [exact (route_disconnect _ Hid)|reflexivity|].
    eapply wp_mono; [by apply wp_disconnect_endpoint|]. cbv beta. intros [answer|e] b' Hr answer' [= <-]. rewrite answered_headed. by apply Hr. }
  eapply wp_mono; [exact Hh|]. cbv beta. intros r b' Hr. split; [by intros e|]. intros answer result Hok Ha.
  apply wp_ret. intros _. by eapply Hr.
Qed.

Definition coherent_tables (b : Backend) : Prop := tidy_tables b /\ AgentAuth.sessions_ok (Machine.tables (machine b)).

Lemma keyed_elsewhere d d' : AgentAuth.elsewhere_same d d' -> Cascade.keyed d -> Cascade.keyed d'.
Proof. intros -> [Hl Hm Hi]. by split. Qed.

Lemma wp_entropy (Q : result Refusal (option (list Z)) -> Backend -> Prop) b : (forall r, Q (Ok r) b) -> wp entropy Q b.
Proof.
  intros HQ. unfold entropy. apply wp_bind, wp_map_err, wp_within. intros w Hw. cbn. rewrite Hw.
  apply wp_ret. destruct b. apply HQ.
Qed.

Lemma wp_register_endpoint caller operationID q b :
  coherent_tables b -> wp (serve c caller operationID q ConsoleApi.RegisterAgent) (fun _ b' => coherent_tables b') b.
Proof.
  intros [Hk Hs]. unfold serve, ConsoleApi.call, registerAgent, refuseAgent, decode, respond. wp_steps.
  destruct (IsAgent caller); [by wp_steps|]. wp_steps. destruct (decodeBody _ _ _) as [body|]; [|by wp_steps]. wp_steps.
  destruct (startedAt body) as [since|]; [|by wp_steps]. wp_steps.
  apply wp_entropy. intros random. wp_steps. apply ConsoleSpec.wp_in_db.
  eapply wp_mono; [by apply AgentAuth.wp_Register|]. cbv beta. intros r d' (He & Hs' & _).
  assert (coherent_tables (mkBackend (mkMachine d' (Machine.outside (machine b))) (safe b) (broker b))) as Hb
    by (split; [by eapply keyed_elsewhere|done]).
  destruct r; wp_steps; exact Hb.
Qed.

Lemma wp_openSession command b :
  coherent_tables b -> wp (openSession c sessionToken command) (fun _ b' => coherent_tables b') b.
Proof.
  intros Hb. unfold openSession, RegisterAgent. apply wp_bind, wp_Now. intros n. cbv beta iota. apply wp_bind, wp_of_result.
  destruct (describeAgent _ _) as [r|]; [|done]. apply wp_bind. rewrite marshal_register. set (q := asConsole _ _ _ _ _).
  assert (wp (Handler c q) (fun _ b' => coherent_tables b') b) as Hh.
  { apply wp_Handler_guarded; [done|done|]. intros operationID.
    eapply wp_dispatch_row; [reflexivity|reflexivity|]. by apply wp_register_endpoint. }
  apply wp_answered_call. eapply wp_mono; [exact Hh|]. cbv beta. intros r' b' Hb'. split; [done|]. intros answer registered _ _.
  apply wp_bind, wp_refuse. destruct (_ ==? ""); [done|]. by apply wp_ret.
Qed.

(** How the agent ended, as the command's failure. *)
Definition ending (ended : result Code Z) : option Failure :=
  match ended with
  | Ok code => if code =? 0 then None else Some (ExitCode code)
  | Err _ => Some NotStarted
  end.

(** A run that got as far as an outcome, step by step: the session was opened, the
    agent ran with its key, and that session was closed in the world it left. *)
Lemma runRun_steps child parent clearExtra keep args w outcome w' :
  runRun c settings sessionToken child parent clearExtra keep args w = (Ok outcome, w') ->
  exists command rest session w1 ended w2 closed,
    (splitCommand args).2 = command :: rest /\
    openSession c sessionToken command w = (Ok session, w1) /\
    child (command :: rest) (Environ (planEnviron parent settings clearExtra keep (key session))) w1 = (ended, w2) /\
    closeSession c sessionToken session w2 = (closed, w') /\
    outcome = match closed, ending ended with
              | Err e, None => {| failure := Some (NotClosed e); told_open := None |}
              | Err _, Some spawnErr => {| failure := Some spawnErr; told_open := Some session |}
              | Ok _, spawnErr => {| failure := spawnErr; told_open := None |}
              end.
Proof.
  unfold runRun. destruct (splitCommand args).2 as [|command rest]; [done|].
  unfold mbind, M_bind. destruct (openSession _ _ _ w) as [[session|e] w1] eqn:Ho; [|done].
  unfold spawn, endSession, try_, mbind, M_bind. destruct (child _ _ w1) as [ended w2] eqn:Hc.
  change (match ended with Ok code => if code =? 0 then None else Some (ExitCode code) | Err _ => Some NotStarted end)
    with (ending ended). cbn [mret M_ret]. unfold mret, M_ret.
  destruct (closeSession _ _ _ w2) as [closed w3] eqn:Hcl. intros [= <- <-].
  exists command, rest, session, w1, ended, w2, closed. split_and!; try done. by destruct closed, (ending ended).
Qed.

End session_spec.
