(* ===== verification/Samples.v ===== *)
(** * A concrete outside world and database

    A clock that only moves forward, identifiers that never repeat, statements
    that do not fail, and a database with one agent, one workspace, one identity
    and one request that was just received. The chain is run on it by evaluation,
    and the theorems about every world are applied to it where they have
    hypotheses. *)
From S2P Require Import Prelude GoStr Apperr GoTime World Store.
From S2P Require Redact.
From S2P Require Json Agent Credential Risk Matcher Intent Declare Scope Decision.
From S2P Require Lease Trust Approval Ledger Request.
From S2P Require LeaseStore ApprovalStore TrustStore LedgerStore CredentialStore Encoding AgentAuth.
From S2P Require Import RequestStore IdentityStore Pipeline PipelineSpec Cascade.
Open Scope Z_scope.

#[local] Existing Instance ascii_only.
#[local] Existing Instance Redact.plain_floats.

(** A tick is a second, and after a thousand ticks a day. *)
Definition sample_clock (n : nat) : Z :=
  Scope.sample_now + if Z.of_nat n <? 1000 then Z.of_nat n * Second else (Z.of_nat n - 999) * Day.

#[local] Instance sample_env : Env := {
  clock_at := sample_clock;
  id_at n := Some ("id-" +:+ itoa (Z.of_nat n));
  io_fails _ := false;
  json_valid := Json.Valid;
}.

Definition sample_agent : Agent.Agent :=
  {| Agent.ID := "agent"; Agent.Name := "claude"; Agent.Type_ := Agent.TypeClaudeCode;
     Agent.Version := "1"; Agent.ExecutableHash := "h"; Agent.ExecutablePath := "/bin/claude";
     Agent.PID := 10; Agent.ParentPID := 1; Agent.OSUser := "u"; Agent.DeviceID := "device";
     Agent.WorkspaceID := "work"; Agent.StartedAt := Scope.sample_now; Agent.SessionKeyHash := "k";
     Agent.SessionExpiresAt := Scope.sample_now + Day; Agent.TrustLevel := Agent.TrustKnown;
     Agent.Status := Agent.StatusActive; Agent.LastSeenAt := Scope.sample_now;
     Agent.CreatedAt := Scope.sample_now; Agent.UpdatedAt := Scope.sample_now |}.

Definition sample_identity : Matcher.Identity :=
  {| Matcher.ID := "id"; Matcher.Service := "github"; Matcher.AccountLabel := "acme";
     Matcher.Environment := Matcher.EnvironmentNonProduction; Matcher.IsDefault := true;
     Matcher.Status := Matcher.StatusOK;
     Matcher.CredentialReferenceID := "ref"; Matcher.CreatedAt := Scope.sample_now;
     Matcher.UpdatedAt := Scope.sample_now |}.

Definition sample_request : Request.CapabilityRequest :=
  {| Request.ID := "request"; Request.OperationID := "op"; Request.AgentID := "agent";
     Request.WorkspaceID := "work"; Request.Service := "github"; Request.Operation := "create_issue";
     Request.Resource := "{}"; Request.DesiredChange := "open"; Request.Reason := "";
     Request.Status := Request.StatusDeciding; Request.ChangePreview := "";
     Request.CreatedAt := Scope.sample_now; Request.UpdatedAt := Scope.sample_now |}.

Definition sample_provider : Credential.Provider :=
  {| Credential.p_ID := "provider"; Credential.Kind := Credential.KindLocalVault;
     Credential.Label := "vault"; Credential.p_CreatedAt := Scope.sample_now;
     Credential.p_UpdatedAt := Scope.sample_now |}.

Definition sample_reference : Credential.Reference :=
  {| Credential.ID := "ref"; Credential.ProviderID := "provider"; Credential.ItemRef := "item";
     Credential.Field := "token"; Credential.Service := "github"; Credential.AccountLabel := "acme";
     Credential.Metadata := "{}"; Credential.Capabilities := "[]";
     Credential.HealthStatus := Credential.HealthOK; Credential.LastVerifiedAt := Scope.sample_now;
     Credential.CreatedAt := Scope.sample_now; Credential.UpdatedAt := Scope.sample_now |}.

Definition sample_db : DB :=
  {| agents := {["agent" := sample_agent]};
     devices := {["device" := {| Agent.dev_ID := "device"; Agent.Fingerprint := "f"; Agent.dev_Name := "d";
       Agent.TrustStatus := Agent.DeviceTrusted; Agent.dev_CreatedAt := Scope.sample_now;
       Agent.dev_UpdatedAt := Scope.sample_now |}]};
     workspaces := {["work" := {| Agent.ws_ID := "work"; Agent.ws_Path := "/w"; Agent.ProjectFingerprint := "p";
       Agent.ws_CreatedAt := Scope.sample_now; Agent.ws_UpdatedAt := Scope.sample_now |}]};
     providers := {["provider" := sample_provider]}; references := {["ref" := sample_reference]};
     identities := {["id" := sample_identity]}; declarations := ∅; requests := {["request" := sample_request]};
     decisions := ∅; approvals := ∅; leases := ∅; memories := ∅; events := ∅; settings := ∅ |}.

Definition sample_world : World DB := mkWorld sample_db 0 0 0.

Definition sample_options : Options :=
  {| intents := Declare.sample_resolver; mode := Decision.ModeBalanced; timeout := 5 * Minute |}.

(** The agent asks to open an issue: a medium write nobody has answered before. *)
Definition sample_inputs : Inputs :=
  {| in_Request := sample_request; in_Call := Declare.sample_call;
     in_Catalog := Some Declare.sample_catalog; in_Identities := [sample_identity];
     WorkspaceBindings := []; ResourceBindings := []; ManualSelection := "";
     AgentTrust := Agent.TrustKnown; DeviceTrust := Agent.DeviceTrusted;
     Facts := {| Destructive := false; PermissionChange := false; SecretAccess := false;
                 Billing := false; ExternalCommunication := false; ResourceCount := 1 |};
     ReadOnlyAutoAllow := false; NewService := false; IdentityChanged := false;
     NewIdentity := false; NewResource := false; in_Blockers := [] |}.

Definition sample_handled := Handle sample_options sample_inputs sample_world.

(** ** The chain, run *)

(** The answer of a run, or the code it failed with. *)
Definition answer {E A} (r : result E A * World DB) : option A :=
  match r.1 with Ok a => Some a | Err _ => None end.

Definition sample_settle (id action : string) : SettleInput :=
  {| si_ApprovalID := id; si_Action := action; StrongAuthCompleted := false; si_Confirmations := 1 |}.

Definition item_id : string := Eval vm_compute in match answer sample_handled with
  | Some r => match res_Approval r with Some a => Approval.ID a | None => "" end | None => "" end.

Definition sample_settled :=
  SettleApproval sample_options (sample_settle item_id Approval.ActionAutoAllowInProject) sample_handled.2.

(** The request is put to the user; the answer issues a lease and a memory; the
    ledger has an event for each, and the request is approved. *)
Example sample_confirmed :
  (exists r, answer sample_handled = Some r /\
     Decision.Verdict (res_Outcome r) = Decision.VerdictRequireApproval /\
     Decision.Reason (res_Outcome r) = Decision.ReasonRequiresConfirmation) /\
  (exists r l m, answer sample_settled = Some r /\ sr_Lease r = Some l /\ sr_Memory r = Some m /\
     Lease.RequestLimit l = 1 /\ Trust.Behavior m = Trust.BehaviorAutoAllow /\
     Request.Status (sr_Request r) = Request.StatusApproved) /\
  size (events (db sample_settled.2)) = 2%nat /\ size (leases (db sample_settled.2)) = 1%nat.
Proof.
  split; [|split].
  - eexists. split; [vm_compute; reflexivity|]. by split.
  - do 3 eexists. split; [vm_compute; reflexivity|]. by split_and!.
  - by vm_compute.
Qed.

(** ** Witnesses

    The database after the confirmation has a decision, a settled item, an active
    lease and a learned memory. *)
Definition settled_world : World DB := Eval vm_compute in sample_settled.2.
Definition settled_db : DB := db settled_world.

Definition lease_id : string := "id-4".
Definition memory_id : string := "id-5".

(** The scope the lease was issued for. *)
Definition granted : Scope.Scope := Eval vm_compute in match leases settled_db !! lease_id with
  | Some l => match Lease.ScopeOf l with Ok s => s | Err _ => Scope.zero_scope end
  | None => Scope.zero_scope end.

(** Evaluate a closed run. *)
Ltac evaluate := vm_compute; reflexivity.

Lemma settled_lease : exists l, leases settled_db !! lease_id = Some l /\ Lease.isActive l = true /\
  Lease.RequestLimit l = 1 /\ Lease.UsedRequests l = 0 /\ Lease.consumable l Scope.sample_now = true.
Proof. eexists. split; [evaluate|]. split_and!; evaluate. Qed.

Lemma uses_within_limit_witness :
  let run := Lease.run_calls [Lease.CUse lease_id granted; Lease.CUse lease_id granted] settled_world in
  run.1 = [lease_id] /\ Lease.count lease_id run.1 <= 1.
Proof.
  cbv zeta. split; [evaluate|]. destruct settled_lease as (l & Hl & _ & Hlim & Hu & _).
  pose proof (Lease.uses_within_limit [Lease.CUse lease_id granted; Lease.CUse lease_id granted]
    settled_world _ _ lease_id l (surjective_pairing _) Hl) as H.
  rewrite Hlim, Hu in H. apply H; [done|lia].
Defined.

Lemma use_checked_witness : exists l' l,
  (Lease.Manager.Use lease_id granted settled_world).1 = Ok l' /\
  leases settled_db !! lease_id = Some l /\ Lease.UsedRequests l' = Lease.UsedRequests l + 1 /\
  Lease.Status l' = Lease.StatusExhausted.
Proof.
  pose proof (Lease.use_checked lease_id granted settled_db settled_world eq_refl) as H.
  assert (exists l', (Lease.Manager.Use lease_id granted settled_world).1 = Ok l' /\
    Lease.Status l' = Lease.StatusExhausted) as (l' & Hr & Hs) by (eexists; split; evaluate).
  rewrite Hr in H. destruct H as (l & g & n & Hl & _ & _ & _ & _ & _ & _ & _ & Hu & _).
  exists l', l. by split_and!.
Defined.

Lemma lifecycle_witness : exists l l',
  leases settled_db !! lease_id = Some l /\
  Lease.grant_of l' = Lease.grant_of l /\ Lease.UsedRequests l' = Lease.UsedRequests l + 1.
Proof.
  destruct settled_lease as (l & Hl & Ha & _ & _ & Hc).
  assert (Hs : Lease.steps [Lease.LConsume lease_id; Lease.LClose lease_id] (leases settled_db)
    (<[lease_id := Lease.closed (Lease.consumed l Scope.sample_now) Lease.StatusExhausted Scope.sample_now]>
      (<[lease_id := Lease.consumed l Scope.sample_now]> (leases settled_db)))).
  { eapply Lease.steps_cons; [apply Lease.step_consume; [exact Hl|exact Hc]|].
    eapply Lease.steps_cons; [|apply Lease.steps_nil].
    apply Lease.step_close; [apply lookup_insert_eq|exact Ha|discriminate]. }
  destruct (Lease.lifecycle _ _ _ _ _ Hs Hl) as (l' & _ & Hg & _ & Hu & _).
  exists l, l'. split_and!; [exact Hl|exact Hg|rewrite Hu; reflexivity].
Defined.

Lemma utf8_map_check (m : gmap string string) :
  forallb (fun kv => valid_utf8 kv.1 && valid_utf8 kv.2) (map_to_list m) = true -> Json.utf8_map m.
Proof.
  intros Hall k v Hk%elem_of_map_to_list. rewrite forallb_forall in Hall.
  specialize (Hall (k, v) ltac:(by apply list_elem_of_In)). by bools.
Qed.

Lemma granted_storable :
  Scope.utf8_scope granted /\ Scope.storable_time (Scope.NotBefore granted) /\
  Scope.storable_time (Scope.ExpiresAt granted) /\ Json.int64_ok (Scope.RequestLimit granted) = true.
Proof.
  assert (Json.utf8_map (Scope.Resource granted)) by (apply utf8_map_check; evaluate).
  unfold Scope.utf8_scope, Scope.storable_time.
  split_and!; first [assumption | evaluate | vm_compute; discriminate].
Qed.

Lemma issue_grants_witness :
  let request := {| Lease.Granted := granted; Lease.i_ApprovalID := ""; Lease.i_SourceMemoryID := "";
                    Lease.i_IsSessionBound := false |} in
  exists l, (Lease.Manager.Issue request settled_world).1 = Ok l /\
    exists l0, Lease.ScopeOf l0 = Ok granted /\ Lease.Status l0 = Lease.StatusActive.
Proof.
  cbv zeta. set (request := {| Lease.Granted := granted; Lease.i_ApprovalID := "";
    Lease.i_SourceMemoryID := ""; Lease.i_IsSessionBound := false |}).
  pose proof (Lease.issue_grants request settled_db) as H.
  assert (exists l, (Lease.Manager.Issue request settled_world).1 = Ok l) as [l Hr]
    by (eexists; evaluate).
  exists l. split; [exact Hr|].
  destruct granted_storable as (Hu & Hn & He & Hi).
  destruct (H Hu Hn He Hi settled_world eq_refl)
    as [[_ Hf]|(l0 & n & _ & _ & Hs & _ & _ & _ & _ & Hst & _)].
  - rewrite Hr in Hf. discriminate.
  - exists l0. by split.
Defined.

Lemma generate_within_witness :
  let request := {| Trust.Approved := granted; Trust.Learned := granted; Trust.g_ApprovalID := item_id;
                    Trust.g_RiskLevel := Risk.LevelMedium; Trust.g_Behavior := Trust.BehaviorAlwaysAsk;
                    Trust.TTL := Hour |} in
  let before := mkWorld (put (∅ : Trust.table) settled_db) 0 100 0 in
  exists m, (Trust.Manager.Generate request before).1 = Ok m /\ Trust.ScopeOf m = Ok granted /\
    Trust.Status m = Trust.StatusActive.
Proof.
  cbv zeta. set (request := {| Trust.Approved := granted; Trust.Learned := granted;
    Trust.g_ApprovalID := item_id; Trust.g_RiskLevel := Risk.LevelMedium;
    Trust.g_Behavior := Trust.BehaviorAlwaysAsk; Trust.TTL := Hour |}).
  set (before := mkWorld (put (∅ : Trust.table) settled_db) 0 100 0).
  destruct granted_storable as (Hu & Hn & He & Hi).
  pose proof (Trust.generate_within request (db before) Hu Hn He Hi before eq_refl) as H.
  assert (exists m, (Trust.Manager.Generate request before).1 = Ok m) as [m Hr] by (eexists; evaluate).
  exists m. split; [exact Hr|]. rewrite Hr in H.
  destruct H as (n & _ & _ & Hs & _ & _ & _ & _ & _ & Hst & _). by split.
Defined.

Lemma settled_memory : exists m, memories settled_db !! memory_id = Some m /\
  Trust.isActive m = true /\ Trust.Behavior m = Trust.BehaviorAutoAllow.
Proof. eexists. split; [evaluate|]. split; evaluate. Qed.

Lemma never_widened_witness :
  exists m', memories (db (Trust.run_calls [Trust.CTighten memory_id] settled_world)) !! memory_id = Some m' /\
  exists m, Trust.coverage m' = Trust.coverage m /\
    (Trust.Behavior m' = Trust.Behavior m \/ Trust.Behavior m' = Trust.BehaviorAlwaysAsk).
Proof.
  assert (exists m', memories (db (Trust.run_calls [Trust.CTighten memory_id] settled_world))
    !! memory_id = Some m') as [m' Hm] by (eexists; evaluate).
  exists m'. split; [exact Hm|].
  pose proof (Trust.never_widened (D := DB) [Trust.CTighten memory_id] settled_world memory_id m') as H.
  destruct (H Hm) as (m & Hc & Hb & _). exists m. by split.
Defined.

Lemma match_usable_witness : exists l, (Trust.Manager.Match "agent" "work" "github" memoryLimit settled_world).1 = Ok l /\
  length l = 1%nat /\ forall m, m ∈ l -> Trust.Status m = Trust.StatusActive.
Proof.
  pose proof (Trust.match_usable "agent" "work" "github" memoryLimit settled_db settled_world eq_refl) as [_ H].
  assert (exists l, (Trust.Manager.Match "agent" "work" "github" memoryLimit settled_world).1 = Ok l /\
    length l = 1%nat) as (l & Hr & Hl) by (eexists; split; evaluate).
  exists l. split_and!; [exact Hr|exact Hl|]. rewrite Hr in H. destruct H as (n & page & Hin & Hp & _).
  intros m Hm. apply Hin in Hm as [Hm _]. by apply Hp in Hm as (_ & _ & _ & _ & Hs).
Defined.

(** A table with one row keeps it under its key. *)
Lemma one_row {A} (key : A -> string) (t : gmap string A) k x :
  map_to_list t = [(k, x)] -> key x = k -> forall id y, t !! id = Some y -> key y = id.
Proof.
  intros Hl Hk id y Hy%elem_of_map_to_list. rewrite Hl in Hy.
  apply list_elem_of_singleton in Hy. by injection Hy as -> ->.
Qed.

Lemma settled_keyed : keyed settled_db.
Proof.
  split; [eapply (one_row Lease.ID)|unfold Trust.keyed; eapply (one_row Trust.ID)|eapply (one_row Matcher.ID)]; evaluate.
Qed.

Lemma cascade_complete_witness :
  exists l, (Trust.Manager.InvalidateForIdentity "id" Trust.ReasonIdentityScopeChanged cascadeLimit settled_world).1 = Ok l /\
    length l = 1%nat /\ forall m, m ∈ l -> Trust.Status m = Trust.StatusInvalidated.
Proof.
  pose proof (Trust.cascade_complete "id" Trust.ReasonIdentityScopeChanged cascadeLimit settled_db
    (memory_key _ settled_keyed) settled_world eq_refl) as (_ & H & _).
  assert (exists l, (Trust.Manager.InvalidateForIdentity "id" Trust.ReasonIdentityScopeChanged cascadeLimit
    settled_world).1 = Ok l /\ length l = 1%nat) as (l & Hr & Hl) by (eexists; split; evaluate).
  exists l. split_and!; [exact Hr|exact Hl|]. rewrite Hr in H. intros m Hm. by apply H in Hm as (_ & ? & _).
Defined.

Lemma disconnect_identity_outcome_witness :
  exists res, (DisconnectIdentity "id" "op-2" settled_world).1 = Ok res /\
    length (RevokedLeases res) = 1%nat /\
    none_left (of_identity "id") (db (DisconnectIdentity "id" "op-2" settled_world).2).
Proof.
  pose proof (disconnect_identity_outcome "id" "op-2" settled_db settled_keyed settled_world eq_refl)
    as (_ & _ & H).
  assert (exists res, (DisconnectIdentity "id" "op-2" settled_world).1 = Ok res /\
    length (RevokedLeases res) = 1%nat) as (res & Hr & Hl) by (eexists; split; evaluate).
  exists res. split_and!; [exact Hr|exact Hl|]. rewrite Hr in H. destruct H as [[H _] _].
  apply H. rewrite Hl. reflexivity.
Defined.

(** The same database when the user allowed the whole task: the lease is bound to
    the session. *)
Definition task_world : World DB := Eval vm_compute in
  (SettleApproval sample_options (sample_settle item_id Approval.ActionAllowUntilTaskEnd) sample_handled.2).2.

Lemma task_keyed : keyed (db task_world).
Proof.
  split; [eapply (one_row Lease.ID); evaluate| |eapply (one_row Matcher.ID); evaluate].
  intros id m Hm. vm_compute in Hm. by destruct id.
Qed.

Lemma disconnect_agent_outcome_witness :
  exists a revoked, (DisconnectAgent "agent" "op-2" task_world).1 = Ok (a, revoked) /\
    length revoked = 1%nat /\ Agent.Status a = Agent.StatusDisconnected /\
    none_left (of_session "agent") (db (DisconnectAgent "agent" "op-2" task_world).2).
Proof.
  pose proof (disconnect_agent_outcome "agent" "op-2" (db task_world) task_keyed task_world eq_refl)
    as (_ & _ & H).
  assert (exists a revoked, (DisconnectAgent "agent" "op-2" task_world).1 = Ok (a, revoked) /\
    length revoked = 1%nat) as (a & revoked & Hr & Hl) by (do 2 eexists; split; evaluate).
  exists a, revoked. rewrite Hr in H. destruct H as (_ & Hs & H).
  split_and!; [exact Hr|exact Hl|exact Hs|]. apply H. rewrite Hl. reflexivity.
Defined.

(** Before the answer: one pending item. *)
Definition asked_world : World DB := Eval vm_compute in sample_handled.2.

Definition item_request (action : string) : Approval.SettleRequest :=
  {| Approval.s_ApprovalID := item_id; Approval.s_Action := action;
     Approval.s_RiskLevel := Risk.LevelMedium; Approval.StrongAuthCompleted := false;
     Approval.Requirement := Decision.ApprovalStandard; Approval.RequiredConfirmations := 1;
     Approval.s_Confirmations := 1 |}.

Lemma settle_outcome_witness :
  exists s, (Approval.Manager.Settle (item_request Approval.ActionAllowOnce) asked_world).1 = Ok s /\
    Approval.permitted (item_request Approval.ActionAllowOnce) (Approval.s_Consequence s) /\
    Approval.Replayed s = false.
Proof.
  pose proof (Approval.settle_outcome (item_request Approval.ActionAllowOnce) (db asked_world)
    asked_world eq_refl) as H.
  assert (exists s, (Approval.Manager.Settle (item_request Approval.ActionAllowOnce) asked_world).1 = Ok s /\
    Approval.Replayed s = false) as (s & Hr & Hn) by (eexists; split; evaluate).
  exists s. rewrite Hr in H. destruct H as [H _]. by split_and!.
Defined.

Lemma settled_once_witness :
  exists a a', approvals (db asked_world) !! item_id = Some a /\
    Approval.Status a = Approval.StatusPending /\ Approval.DecisionID a' = Approval.DecisionID a.
Proof.
  assert (exists a, approvals (db asked_world) !! item_id = Some a /\ Approval.isPending a = true /\
    Approval.Status a = Approval.StatusPending) as (a & Ha & Hp & Hs) by (eexists; split_and!; evaluate).
  destruct (Approval.settled_once _ _ item_id a (rtc_once (R := Approval.step) _ _
    (Approval.step_settle _ _ _ Approval.ActionDeny Approval.StatusRejected 0 Ha Hp ltac:(discriminate))) Ha)
    as (a' & _ & _ & Hd & _).
  exists a, a'. by split_and!.
Defined.

Lemma asked_one_per_decision : Approval.one_per_decision (approvals (db asked_world)).
Proof.
  intros i j a b Ha Hb _.
  assert (forall id y, approvals (db asked_world) !! id = Some y -> id = item_id) as H; [|by rewrite (H i a), (H j b)].
  intros id y Hy%elem_of_map_to_list. revert Hy.
  assert (exists x, map_to_list (approvals (db asked_world)) = [(item_id, x)]) as [x ->] by (eexists; evaluate).
  intros Hy%list_elem_of_singleton. by injection Hy as -> _.
Qed.

Lemma open_idempotent_witness :
  let twice := first ← Approval.Manager.Open (5 * Minute) "d"; second ← Approval.Manager.Open (5 * Minute) "d";
               mret (first, second) in
  Approval.one_per_decision (approvals (db (twice asked_world).2)).
Proof.
  cbv zeta.
  pose proof (Approval.open_idempotent (D := DB) (5 * Minute) "d" (db asked_world)) as H.
  destruct (H asked_one_per_decision asked_world eq_refl) as [Hone _]. exact Hone.
Defined.

(** Ten minutes later the item is past its deadline. *)
Definition late_world : World DB := mkWorld (db asked_world) 600 100 0.

Lemma asked_keyed : Approval.keyed (approvals (db late_world)).
Proof. unfold Approval.keyed. eapply (one_row Approval.ID); evaluate. Qed.

Lemma expire_outcome_witness :
  exists l, (Approval.Manager.Expire 10 late_world).1 = Ok l /\ length l = 1%nat /\
    forall a, a ∈ l -> Approval.Status a = Approval.StatusExpired /\ Approval.Action a = Approval.ActionDeny.
Proof.
  pose proof (Approval.expire_outcome (D := DB) 10 (db late_world)) as Hexp.
  destruct (Hexp asked_keyed late_world eq_refl) as (n & H & _).
  assert (exists l, (Approval.Manager.Expire 10 late_world).1 = Ok l /\ length l = 1%nat)
    as (l & Hr & Hl) by (eexists; split; evaluate).
  exists l. rewrite Hr in H. split_and!; [exact Hr|exact Hl|].
  intros a Ha. apply H in Ha as (_ & ? & ? & _). by split.
Defined.

Definition sample_event : Ledger.Event :=
  plain_event "op" Ledger.EventError "agent" "work" "" "github" "create_issue" "{}" "{}"
    Decision.VerdictDeny "" "" "" Ledger.OutcomeBlocked (Ledger.object1 "token" "hunter2").

Lemma record_outcome_witness :
  exists e, (Ledger.Record_ sample_event sample_world).1 = Ok e /\
    Redact.redactMetadata (Ledger.Metadata sample_event) = Ok (Ledger.Metadata e) /\
    Ledger.Metadata e = Ledger.object1 "token" Redact.Redacted.
Proof.
  pose proof (Ledger.record_outcome sample_event sample_db sample_world eq_refl) as H.
  assert (exists e, (Ledger.Record_ sample_event sample_world).1 = Ok e /\
    Ledger.Metadata e = Ledger.object1 "token" Redact.Redacted) as (e & Hr & Hm) by (eexists; split; evaluate).
  exists e. rewrite Hr in H. destruct H as (n & k & _ & _ & _ & _ & _ & _ & _ & _ & Hmd & _). by split_and!.
Defined.

(** A year later everything in the ledger is past the retention. *)
Definition old_world : World DB := mkWorld (db asked_world) 1365 100 0.

Lemma asked_event : exists id e, events (db old_world) !! id = Some e.
Proof. exists "id-1". eexists. evaluate. Qed.

Lemma append_only_witness :
  exists id e, events (db old_world) !! id = Some e /\
    exists n, Ledger.CreatedAt e < column (clock_at n - 8 * Day).
Proof.
  destruct asked_event as (id & e & He). exists id, e. split; [exact He|].
  pose proof (Ledger.append_only (D := DB) (Ledger.CPrune (8 * Day)) old_world id e) as Happ.
  destruct (Happ He) as [Hk|(retention & n & p & [= <-] & _ & Hlt & _)]; [|by exists n].
  exfalso. assert (id = "id-1") as ->.
  { assert (exists x, map_to_list (events (db old_world)) = [("id-1", x)]) as [x Hx] by (eexists; evaluate).
    apply elem_of_map_to_list in He. rewrite Hx in He. apply list_elem_of_singleton in He. by injection He as -> _. }
  assert (events (db (Ledger.run_call (Ledger.CPrune (8 * Day)) old_world)) !! "id-1" = None) as Hn by evaluate.
  change (events (db (Ledger.run_call (Ledger.CPrune (8 * Day)) old_world)) !! "id-1" = Some e) in Hk. congruence.
Defined.

Lemma prune_outcome_witness :
  exists p, (Ledger.Prune (8 * Day) old_world).1 = Ok p /\ Ledger.PrunedCount p = 1 /\
    Ledger.Type_ (Ledger.p_Event p) = Ledger.EventPruned.
Proof.
  pose proof (Ledger.prune_outcome (8 * Day) (db old_world) old_world eq_refl) as H.
  assert (exists p, (Ledger.Prune (8 * Day) old_world).1 = Ok p /\ Ledger.PrunedCount p = 1)
    as (p & Hr & Hc) by (eexists; split; evaluate).
  exists p. rewrite Hr in H. destruct H as (_ & _ & Ht & _). by split_and!.
Defined.

Lemma sample_indexed : CredentialStore.indexed sample_db.
Proof.
  assert (forall i p, providers sample_db !! i = Some p -> i = "provider" /\ p = sample_provider) as Hp.
  { intros i p H. unfold sample_db in H. cbn [providers] in H. apply lookup_singleton_Some in H as [<- <-]. by split. }
  assert (forall i r, references sample_db !! i = Some r -> i = "ref" /\ r = sample_reference) as Hr.
  { intros i r H. unfold sample_db in H. cbn [references] in H. apply lookup_singleton_Some in H as [<- <-]. by split. }
  split.
  - by intros i p [-> ->]%Hp.
  - by intros i r [-> ->]%Hr.
  - by intros i j p q [-> ->]%Hp [-> ->]%Hp.
  - by intros i j r s [-> ->]%Hr [-> ->]%Hr.
  - intros i r [-> ->]%Hr. by exists sample_provider.
Qed.

(** Registering the same item under other labels. *)
Lemma registration_outcome_witness :
  exists x, (CredentialStore.CreateRegistration sample_provider sample_reference sample_world).1 = Ok x /\
    Credential.ItemRef x = "item" /\
    references (db (CredentialStore.CreateRegistration sample_provider sample_reference sample_world).2) !!
      Credential.ID x = Some x.
Proof.
  pose proof (CredentialStore.registration_outcome sample_provider sample_reference sample_db
    sample_indexed sample_world eq_refl) as H.
  assert (exists x, (CredentialStore.CreateRegistration sample_provider sample_reference sample_world).1 = Ok x)
    as [x Hr] by (eexists; evaluate).
  exists x. rewrite Hr in H. destruct H as (p & _ & _ & _ & Hx & Hi & _). by split_and!.
Defined.

Lemma registration_reuses_witness :
  (CredentialStore.CreateRegistration sample_provider sample_reference sample_world).1 = Ok sample_reference.
Proof.
  destruct (CredentialStore.registration_reuses sample_provider sample_reference sample_db "provider"
    sample_provider "ref" sample_reference sample_indexed eq_refl eq_refl eq_refl eq_refl eq_refl eq_refl eq_refl
    sample_world eq_refl) as [_ [Hr|Hf]]; [exact Hr|].
  assert (is_Ok (CredentialStore.CreateRegistration sample_provider sample_reference sample_world).1 = true) as Ht
    by evaluate. congruence.
Defined.

(** A JSON object with secrets at two depths. *)
Definition secret_text : string := Json.print (Json.JObj
  [("a", Json.JObj [("Access-Token", Json.of_string "t"); ("x", Json.of_int 1)]); ("password", Json.of_int 2)]).

Lemma redactJSONObject_spec_witness :
  exists out b, Redact.redactJSONObject secret_text = Ok out /\ Redact.unmarshal_any out = Some b /\
    Redact.clean b /\ Redact.at_path ["a"; "x"] b = Some (Redact.ANum "1").
Proof.
  assert (exists out, Redact.redactJSONObject secret_text = Ok out) as [out Ho] by (eexists; evaluate).
  pose proof Redact.plain_floats_laws as Hlaws.
  destruct (Redact.redactJSONObject_spec secret_text out Ho) as (a & b & Ha & Hb & _ & Hc & Hp & _).
  exists out, b. split_and!; [done|done|done|].
  rewrite (Hp ["a"; "x"] ltac:(evaluate) (Redact.ANum "1")); [evaluate|].
  revert Ha. vm_compute. intros [= <-]. reflexivity.
Defined.

Lemma redactMetadata_spec_witness :
  exists out, Redact.redactMetadata (Ledger.object1 "token" "hunter2") = Ok out /\
    exists redacted, out = Redact.marshal_any (Redact.AObj redacted) /\
      forall k v, (k, v) ∈ redacted -> Redact.scalar_ok v.
Proof.
  assert (exists out, Redact.redactMetadata (Ledger.object1 "token" "hunter2") = Ok out) as [out Ho]
    by (eexists; evaluate).
  pose proof Redact.plain_floats_laws as Hlaws. exists out. split; [exact Ho|].
  destruct (Redact.redactMetadata_spec _ _ Ho) as (members & redacted & _ & -> & _ & H).
  exists redacted. split; [done|]. intros k v Hkv. by apply (H k v Hkv).
Defined.

(** ** Sessions *)

(** The agent of the sample database starts again, from a path written otherwise. *)
Definition sample_registration : AgentAuth.Registration :=
  {| AgentAuth.r_Name := "claude"; AgentAuth.r_Type := Agent.TypeClaudeCode; AgentAuth.r_Version := "2";
     AgentAuth.r_ExecutableHash := "h"; AgentAuth.r_ExecutablePath := "/bin/./claude";
     AgentAuth.r_PID := 11; AgentAuth.r_ParentPID := 0; AgentAuth.r_OSUser := "u";
     AgentAuth.DeviceFingerprint := "f"; AgentAuth.DeviceName := "d";
     AgentAuth.WorkspacePath := "/x/../w/"; AgentAuth.r_ProjectFingerprint := "p";
     AgentAuth.r_StartedAt := Scope.sample_now |}.

Definition sample_entropy : option (list Z) := Some (map Z.of_nat (seq 0 32)).

Definition sample_registered := AgentAuth.Register 0 sample_entropy sample_registration sample_world.

Definition registered_world : World DB := Eval vm_compute in sample_registered.2.

Definition registered_key : AgentAuth.SessionKey := Eval vm_compute in
  match answer sample_registered with Some r => AgentAuth.reg_SessionKey r | None => AgentAuth.NewSessionKey "" end.

Definition registered_agent : Agent.Agent := Eval vm_compute in
  match answer sample_registered with Some r => AgentAuth.reg_Agent r | None => sample_agent end.

(** The registration finds the agent again and gives it a new key. *)
Example sample_rebound :
  match answer sample_registered with
  | Some r => AgentAuth.IsRebind r = true /\ Agent.ID (AgentAuth.reg_Agent r) = "agent" /\
      AgentAuth.Reveal (AgentAuth.reg_SessionKey r) = "AAECAwQFBgcICQoLDA0ODxAREhMUFRYXGBkaGxwdHh8"
  | None => False
  end.
Proof. vm_compute. by repeat split. Qed.

Lemma singleton_indexed {A} (key column : A -> string) (id : string) (x : A) :
  key x = id -> AgentAuth.indexed key column {[id := x]}.
Proof.
  intros Hk. split.
  - intros i y [<- <-]%lookup_singleton_Some. done.
  - intros i j y z [<- <-]%lookup_singleton_Some [<- <-]%lookup_singleton_Some. done.
Qed.

Lemma sample_sessions : AgentAuth.sessions_ok (db sample_world).
Proof. split; by apply singleton_indexed. Qed.

Lemma registered_sessions : AgentAuth.sessions_ok (db registered_world).
Proof.
  assert (H : exists a d w, db registered_world = {| agents := {["agent" := a]}; devices := {["device" := d]};
    workspaces := {["work" := w]}; providers := {["provider" := sample_provider]};
    references := {["ref" := sample_reference]};
    identities := {["id" := sample_identity]}; declarations := ∅; requests := {["request" := sample_request]};
    decisions := ∅; approvals := ∅; leases := ∅; memories := ∅; events := ∅; settings := ∅ |} /\
    Agent.ID a = "agent" /\ Agent.dev_ID d = "device" /\ Agent.ws_ID w = "work").
  { do 3 eexists. split; [vm_compute; reflexivity|]. by split_and!. }
  destruct H as (a & d & w & -> & Ha & Hd & Hw). split; by apply singleton_indexed.
Qed.

Lemma register_outcome_witness :
  AgentAuth.sessions_ok (db sample_world) /\
  exists out, sample_registered.1 = Ok out /\ AgentAuth.IsRebind out = true /\
    AgentAuth.sessions_ok (db sample_registered.2).
Proof.
  split; [exact sample_sessions|].
  pose proof (AgentAuth.register_outcome 0 sample_entropy sample_registration _ sample_sessions
    sample_world eq_refl) as (_ & Hok & _ & _).
  assert (match sample_registered.1 with Ok out => AgentAuth.IsRebind out = true | Err _ => False end) as Hr
    by (vm_compute; reflexivity).
  revert Hr Hok. unfold sample_registered. destruct (AgentAuth.Register _ _ _ _) as [[out|e] w]; [|by intros []].
  intros Hr Hok. by exists out.
Defined.

Definition shown_process : AgentAuth.Presented :=
  {| AgentAuth.p_PID := 11; AgentAuth.p_ExecutableHash := "" |}.

Lemma authenticate_exact_witness :
  is_Ok (AgentAuth.Authenticate registered_key shown_process registered_world).1 = true.
Proof.
  apply AgentAuth.authenticate_exact; [exact registered_sessions|reflexivity|reflexivity| |].
  - intros id a. assert (agents (db registered_world) = {["agent" := registered_agent]}) as ->
      by (vm_compute; reflexivity).
    intros [<- <-]%lookup_singleton_Some. reflexivity.
  - split; [by vm_compute|]. exists registered_agent. split; [|split; [|split]].
    + split; vm_compute; reflexivity.
    + vm_compute. reflexivity.
    + vm_compute. reflexivity.
    + split; [by right|by left].
Defined.

(** The key of before the registration, after a disconnection and a confirmation. *)
Lemma ended_session_stays_ended_witness :
  is_Ok (AgentAuth.Authenticate registered_key shown_process
    (AgentAuth.run 0 [AgentAuth.CallConfirmTrust "agent"; AgentAuth.CallAuthenticate registered_key shown_process]
       (AgentAuth.Disconnect "agent" registered_world).2)).1 = false.
Proof.
  apply (AgentAuth.ended_session_stays_ended 0 "agent" _ _ registered_agent registered_world);
    [exact registered_sessions|vm_compute; reflexivity|vm_compute; reflexivity|
    |rewrite !Forall_cons; split_and!; [by intros []|by intros []|by apply Forall_nil]].
  eapply AgentAuth.ends_disconnect. vm_compute. reflexivity.
Defined.

Lemma trust_by_confirmation_witness :
  exists a, agents (db (AgentAuth.run 0 [AgentAuth.CallDisconnect "agent"] sample_world)) !! "agent" = Some a /\
    Agent.TrustLevel a = Agent.TrustKnown.
Proof.
  destruct (agents (db (AgentAuth.run 0 [AgentAuth.CallDisconnect "agent"] sample_world)) !! "agent") as [a|] eqn:E;
    [|by vm_compute in E].
  exists a. split; [done|].
  rewrite (AgentAuth.trust_by_confirmation 0 "agent" a sample_world [AgentAuth.CallDisconnect "agent"]);
    [reflexivity|exact sample_sessions|by rewrite Forall_singleton|exact E].
Defined.
