(* ===== verification/OutsideSamples.v ===== *)
(** * A concrete outside: a vault, two services, preferences

    The theorems about credentials, the exchange and the preferences have
    hypotheses on the sources, the adapters and the tables; here they meet a vault
    with one token, the adapters of GitHub and Cloudflare, a transport that
    answers, and the sample database. *)
From S2P Require Import Prelude GoStr Apperr GoTime World Url Intent Redact Registry.
From S2P Require McpCalls McpServer Forbidden Json Matcher Request Approval Ledger Adapters Credential Lease LeaseStore UnlockWait AgentAuth Gateway Orchestration.
From S2P Require Import Outbound Execute Store Machine Settings SettingsStore CredentialRegistry Exchange ProxyFace Samples.
Open Scope Z_scope.

#[local] Existing Instance ascii_only.
#[local] Existing Instance literal_floats.
#[local] Existing Instance no_addresses.
#[local] Existing Instance sample_env.

(** The vault is locked at first and unlocked while the run waits. *)
#[local] Instance sample_unlocking : Unlocking := { wait_ends := fun _ => UnlockWait.Signalled }.

Definition vault_Fetch (reference : Credential.Reference) : M Egress Code Secret.Value := fun w =>
  let d := db w in
  match waits d with
  | [] => (Err CodeVaultLocked, w)
  | _ => (Ok (Some (length (boxes d))),
          mkWorld (mkEgress (wire d) (waits d) (boxes d ++ ["ghp_token"])) (ticks w) (ids w) (stmts w))
  end.

Definition vault : Source :=
  {| source_Kind := Credential.KindLocalVault; Available := mret tt; source_Fetch := vault_Fetch |}.

Lemma vault_laws : SourceLaws vault.
Proof.
  split.
  - intros d. by apply wp_ret.
  - intros reference d w <-. cbn. unfold vault_Fetch. destruct (waits (db w)); [apply tidy_refl|].
    split; [done|]. exists [], "ghp_token". cbn. rewrite Nat.add_0_r. split_and!; [done|by constructor|done].
Qed.

Definition vault_registry : CredentialRegistry.Registry :=
  {| sources := {[Credential.KindLocalVault := vault]}; unlock_timeout := UnlockWait.DefaultUnlockTimeout |}.

Example vault_registered : Register (CredentialRegistry.New None) vault = Ok vault_registry.
Proof. reflexivity. Qed.

Lemma vault_lawful kind s : sources vault_registry !! kind = Some s -> SourceLaws s.
Proof. cbn. intros [_ <-]%lookup_singleton_Some. exact vault_laws. Qed.

Definition sample_machine : Machine := mkMachine sample_db (mkEgress [] [] []).
Definition machine_world (d : Machine) : World Machine := mkWorld d 0 0 0.

(** ** Credentials *)

Lemma fetch_outcome_witness :
  exists v w', CredentialRegistry.Fetch vault_registry "ref" (machine_world sample_machine) = (Ok v, w') /\
    tables (db w') = sample_db /\ fetched (mkEgress [] [] []) (outside (db w')) v.
Proof.
  pose proof (fetch_outcome vault_registry vault_lawful "ref" sample_machine) as Hf.
  destruct (CredentialRegistry.Fetch vault_registry "ref" (machine_world sample_machine)) as [res w'] eqn:Hw.
  pose proof (wp_use _ _ (machine_world sample_machine) _ _ Hf Hw) as [Ht Hr].
  assert (is_Ok res = true) as Hok.
  { change (is_Ok (res, w').1 = true). rewrite <- Hw. vm_compute. reflexivity. }
  destruct res as [v|e]; [|discriminate Hok]. exists v, w'. split; [reflexivity|]. split; [exact Ht|exact (proj1 Hr)].
Defined.

(** The same item again, under the label and for the service it has: the row is
    used, and its plaintext is gone. *)
Definition same_item : CredentialRegistry.Registration :=
  {| rg_ProviderID := "p2"; rg_ReferenceID := "r2"; rg_Kind := Credential.KindLocalVault; rg_ProviderLabel := "vault";
     rg_ItemRef := "item"; rg_Field := "token"; rg_Service := "github"; rg_AccountLabel := "other" |}.

(** The vault is unlocked: something waited before. *)
Definition open_machine : Machine := mkMachine sample_db (mkEgress [] [UnlockWait.DefaultUnlockTimeout] []).

Lemma registered_resolves_witness :
  exists x w', RegisterReference vault_registry same_item (machine_world open_machine) = (Ok x, w') /\
    as_asked same_item (tables (db w')) x /\ tidy (outside open_machine) (outside (db w')).
Proof.
  pose proof (registered_resolves vault_registry vault_lawful same_item open_machine sample_indexed) as Hf.
  destruct (RegisterReference vault_registry same_item (machine_world open_machine)) as [res w'] eqn:Hw.
  pose proof (wp_use _ _ (machine_world open_machine) _ _ Hf Hw) as (Ho & _ & _ & Hr).
  assert (is_Ok res = true) as Hok.
  { change (is_Ok (res, w').1 = true). rewrite <- Hw. vm_compute. reflexivity. }
  destruct res as [x|e]; [|discriminate Hok]. exists x, w'. split; [reflexivity|]. split; [exact (Hr x eq_refl)|exact Ho].
Defined.

Lemma settled_leases id l : leases settled_db !! id = Some l -> Lease.ID l = id.
Proof.
  assert (map_Forall (fun i l => Lease.ID l = i) (leases settled_db)) as H by (apply (bool_decide_unpack _); by vm_compute).
  apply H.
Qed.

(** The lease of the settled database depends on the credential. *)
Lemma disconnect_outcome_witness :
  exists revoked w', Disconnect "ref" settled_world = (Ok revoked, w') /\ revoked = [lease_id] /\
    forall id l, leases (db w') !! id = Some l -> LeaseStore.dependsOn (db w') "ref" l = false.
Proof.
  pose proof (disconnect_outcome "ref" settled_db settled_leases) as Hf.
  destruct (Disconnect "ref" settled_world) as [res w'] eqn:Hw.
  pose proof (wp_use _ _ settled_world _ _ Hf Hw) as (n & _ & Hr).
  assert (res = Ok [lease_id]) as ->.
  { change ((res, w').1 = Ok [lease_id]). rewrite <- Hw. vm_compute. reflexivity. }
  exists [lease_id], w'. split; [reflexivity|]. split; [reflexivity|]. apply Hr. vm_compute. reflexivity.
Defined.

(** ** The exchange *)

(** Every request is answered by the record of a zone. *)
#[local] Instance answering : Network := {
  reply_to := fun _ _ => Answered 200 NoLocation (BodyRead
    (Json.print (Json.JObj [("result", Json.JObj [("id", Json.of_string "r1"); ("content", Json.of_string "1.2.3.4")])])) true);
  wait_cut := fun _ => false;
}.

Definition client_of (base : string) : Client :=
  {| baseURL := url_of base; timeout := DefaultTimeout; maxBytes := DefaultMaxResponseBytes; backoff := DefaultBackoff |}.

Definition github_client : Client := client_of "https://api.github.com".
Definition cloudflare_client : Client := client_of "https://api.cloudflare.com/client/v4".

Definition builtin_registry : Adapters.Registry := Eval vm_compute in
  match Adapters.New Adapters.builtins with Ok r => r | Err _ => {| Adapters.adapters := ∅; Adapters.capabilities := ∅ |} end.

Definition sample_exchange : Exchange :=
  {| registry := builtin_registry;
     executors := fun service => if service ==? "cloudflare" then cloudflare_executor cloudflare_client
                                 else github_executor github_client |}.

Definition sample_site (service : string) : string :=
  if service ==? "cloudflare" then "api.cloudflare.com" else "api.github.com".

#[local] Instance sample_credentials : Credentials := stored_credentials vault_registry.
#[local] Instance sample_credentials_laws : CredentialsLaws := stored_credentials_laws vault_registry vault_lawful.

Lemma sample_lawful service : ExecutorLaws (executors sample_exchange service) (sample_site service).
Proof.
  unfold sample_exchange, sample_site. cbn. destruct (service ==? "cloudflare").
  - exact (cloudflare_lawful cloudflare_client).
  - exact (github_lawful github_client).
Qed.

Definition asked (service operation : string) (resource : gmap string string) (body : string) : ExchangeRequest :=
  {| x_Service := service; x_Operation := operation; x_IdentityID := "id"; x_Resource := resource; x_Query := [];
     x_Body := body; x_OperationID := "op" |}.

Definition asked_issue : ExchangeRequest :=
  asked "github" "create_issue" {["owner" := "acme"; "repo" := "site"]} "{}".

(** One request, and the box of the token is empty. *)
Lemma send_leaves_nothing_witness :
  exists reply w', Send sample_exchange asked_issue (machine_world open_machine) = (Ok reply, w') /\
    length (wire (outside (db w'))) = 1%nat /\ boxes (outside (db w')) = [""] /\
    dealt "api.github.com" (outside open_machine) (outside (db w')).
Proof.
  pose proof (send_leaves_nothing sample_exchange sample_site sample_lawful asked_issue open_machine) as Hf.
  destruct (Send sample_exchange asked_issue (machine_world open_machine)) as [res w'] eqn:Hw.
  pose proof (wp_use _ _ (machine_world open_machine) _ _ Hf Hw) as (_ & Hd & _ & _).
  assert (is_Ok res = true /\ length (wire (outside (db w'))) = 1%nat /\ boxes (outside (db w')) = [""]) as (Hok & H1 & H2).
  { change (is_Ok (res, w').1 = true /\ length (wire (outside (db (res, w').2))) = 1%nat /\ boxes (outside (db (res, w').2)) = [""]).
    rewrite <- Hw. vm_compute. split; [|split]; reflexivity. }
  destruct res as [reply|e]; [|discriminate Hok]. exists reply, w'. split; [reflexivity|]. split; [exact H1|].
  split; [exact H2|exact Hd].
Defined.

Definition asked_record : ExchangeRequest :=
  asked "cloudflare" "update_dns_record" {["zone_id" := "z1"; "record_id" := "r1"]}
    (Json.print (Json.JObj [("content", Json.of_string "5.6.7.8")])).

(** The record is read, and nothing else. *)
Lemma preview_reads_only_witness :
  exists shown w', Preview sample_exchange asked_record (machine_world open_machine) = (Ok shown, w') /\
    length (wire (outside (db w'))) = 1%nat /\ tables (db w') = sample_db /\
    forall h, h ∈ wire (outside (db w')) -> h_Method h = "GET" /\ h_Body h = "".
Proof.
  pose proof (preview_reads_only sample_exchange sample_site sample_lawful asked_record open_machine) as Hf.
  destruct (Preview sample_exchange asked_record (machine_world open_machine)) as [res w'] eqn:Hw.
  pose proof (wp_use _ _ (machine_world open_machine) _ _ Hf Hw) as (Ht & _ & (hops & Hh & Hr) & _).
  assert (is_Ok res = true /\ length (wire (outside (db w'))) = 1%nat) as (Hok & H1).
  { change (is_Ok (res, w').1 = true /\ length (wire (outside (db (res, w').2))) = 1%nat).
    rewrite <- Hw. vm_compute. split; reflexivity. }
  destruct res as [shown|e]; [|discriminate Hok]. exists shown, w'. split; [reflexivity|]. split; [exact H1|].
  split; [exact Ht|]. intros h Hin. apply Hr. rewrite Hh in Hin. exact Hin.
Defined.

(** ** Preferences *)

Definition saved (id name value : string) : Setting :=
  {| Settings.ID := id; Name := name; Value := value; Settings.CreatedAt := Scope.sample_now;
     Settings.UpdatedAt := Scope.sample_now |}.

Definition saved_db : DB :=
  put ({["s1" := saved "s1" KeyTheme ThemeDark; "s2" := saved "s2" KeyLanguage "klingon"]} : Settings.table) sample_db.

Lemma saved_unique : unique_names (view saved_db).
Proof.
  intros i j x y. unfold saved_db. rewrite view_put, !lookup_insert_Some, !lookup_singleton_Some.
  intros [[<- <-]|[_ [<- <-]]] [[<- <-]|[_ [<- <-]]]; first [done|by intros H; discriminate H].
Qed.

(** The theme is the saved one; the language cannot be read and is the default. *)
Lemma load_effective_witness :
  exists p warnings w', Settings.Load (mkWorld saved_db 0 0 0) = (Ok (p, warnings), w') /\
    Theme p = ThemeDark /\ Language p = LanguageChinese /\ well_formed p.
Proof.
  pose proof (load_effective saved_db saved_unique) as Hf.
  destruct (Settings.Load (mkWorld saved_db 0 0 0)) as [res w'] eqn:Hw.
  pose proof (wp_use _ _ (mkWorld saved_db 0 0 0) _ _ Hf Hw) as [_ Hr].
  destruct res as [[p warnings]|e].
  2: { exfalso. assert (is_Ok (@Err Code (Preferences * list string) e, w').1 = true) as H; [|discriminate H].
       rewrite <- Hw. vm_compute. reflexivity. }
  destruct Hr as (-> & Hwf & _). eexists _, warnings, w'. split; [reflexivity|].
  split; [vm_compute; reflexivity|]. split; [vm_compute; reflexivity|exact Hwf].
Defined.

Lemma save_outcome_witness :
  exists p w', Settings.Save {[KeyTheme := ThemeLight]} (mkWorld saved_db 0 0 0) = (Ok p, w') /\ Theme p = ThemeLight.
Proof.
  pose proof (save_outcome {[KeyTheme := ThemeLight]} saved_db saved_unique) as Hf.
  destruct (Settings.Save {[KeyTheme := ThemeLight]} (mkWorld saved_db 0 0 0)) as [res w'] eqn:Hw.
  pose proof (wp_use _ _ (mkWorld saved_db 0 0 0) _ _ Hf Hw) as Hr.
  assert (is_Ok res = true) as Hok.
  { change (is_Ok (res, w').1 = true). rewrite <- Hw. vm_compute. reflexivity. }
  destruct res as [p|e]; [|discriminate Hok]. exists p, w'. split; [reflexivity|].
  destruct Hr as (_ & -> & _). vm_compute. reflexivity.
Defined.

(** ** Through the proxy *)

#[local] Instance sorted_walk : Walk := { walk m := rows_of m }.

(** The agent that registered, the lease of the confirmation, and GitHub connected. *)
Definition connected_db : DB :=
  let r := db registered_world in put (agents r) (put (devices r) (put (workspaces r) settled_db)).

Definition proxy_db : DB := Eval vm_compute in
  db (Orchestration.EnsureDeclared builtin_registry "github" (mkWorld connected_db 20 20 0)).2.

Definition asked_through : ProxyRequest :=
  {| q_Method := "POST"; q_URL := Some (url_of "http://api.github.com/repos/acme/app/issues"); q_Host := "api.github.com";
     q_SessionKey := AgentAuth.Reveal registered_key; q_Body := Some "{}" |}.

Definition proxy_machine : Machine := mkMachine proxy_db (mkEgress [] [UnlockWait.DefaultUnlockTimeout] []).
Definition up : Gateway.Availability := {| Gateway.serving := true; Gateway.stopped := false |}.


Lemma proxy_keyed : keyed_leases proxy_db.
Proof.
  assert (map_Forall (fun i l => Lease.ID l = i) (leases proxy_db)) as H by (apply (bool_decide_unpack _); by vm_compute).
  intros id l. apply H.
Qed.

Lemma proxy_sessions : AgentAuth.sessions_ok proxy_db.
Proof. destruct registered_sessions as [Ha Hd Hw]. split; [exact Ha|exact Hd|exact Hw]. Qed.

Definition proxied_run :=
  serve sample_exchange DefaultMaxRequestBytes up "op" asked_through (mkWorld proxy_machine 20 60 0).

(** The issue is opened under the lease, which is used up now, and the ledger has it. *)
Lemma proxy_sends_under_lease_witness :
  exists answer w', proxied_run = (Ok answer, w') /\ a_Status answer = 200 /\ length (wire (outside (db w'))) = 1%nat /\
    exists target caller route grant hops,
      admitted builtin_registry sample_site up asked_through target caller route grant proxy_db (tables (db w')) hops.
Proof.
  pose proof (proxy_sends_under_lease sample_exchange DefaultMaxRequestBytes sample_site sample_lawful up "op" asked_through
    proxy_machine proxy_sessions proxy_keyed) as Hf.
  destruct proxied_run as [res w'] eqn:Hw.
  pose proof (wp_use _ _ (mkWorld proxy_machine 20 60 0) _ _ Hf Hw) as (_ & _ & answer & -> & Hr).
  assert (match (@Ok Code Answer answer, w').1 with Ok a => a_Status a = 200 | Err _ => False end /\
    length (wire (outside (db (@Ok Code Answer answer, w').2))) = 1%nat) as [Hok Hone].
  { rewrite <- Hw. vm_compute. split; reflexivity. }
  exists answer, w'. split; [reflexivity|]. split; [exact Hok|]. split; [exact Hone|].
  destruct Hr as [(reason & _ & Hwire)|(target & caller & route & grant & hops & _ & Ha & _)].
  - cbn in Hone. rewrite Hwire in Hone. discriminate Hone.
  - exists target, caller, route, grant, hops. exact Ha.
Defined.

(** ** Deciding, with a look at what would change *)

Definition zone_request : Request.CapabilityRequest :=
  {| Request.ID := "zr"; Request.OperationID := "op"; Request.AgentID := "agent"; Request.WorkspaceID := "work";
     Request.Service := "cloudflare"; Request.Operation := "update_dns_record";
     Request.Resource := Json.print (Json.JObj [("zone_id", Json.of_string "z1"); ("record_id", Json.of_string "r1")]);
     Request.DesiredChange := Json.print (Json.JObj [("content", Json.of_string "5.6.7.8")]);
     Request.Reason := ""; Request.Status := Request.StatusDeciding; Request.ChangePreview := "";
     Request.CreatedAt := Scope.sample_now; Request.UpdatedAt := Scope.sample_now |}.

Definition zone_identity : Matcher.Identity :=
  {| Matcher.ID := "zone"; Matcher.Service := "cloudflare"; Matcher.AccountLabel := "acme";
     Matcher.Environment := Matcher.EnvironmentNonProduction; Matcher.IsDefault := true;
     Matcher.Status := Matcher.StatusOK; Matcher.CredentialReferenceID := "ref";
     Matcher.CreatedAt := Scope.sample_now; Matcher.UpdatedAt := Scope.sample_now |}.

Definition zone_db : DB := Eval vm_compute in
  let d := put (<["zr" := zone_request]> (requests sample_db)) (put (<["zone" := zone_identity]> (identities sample_db)) sample_db) in
  db (Orchestration.EnsureDeclared builtin_registry "cloudflare" (mkWorld d 20 20 0)).2.

Definition zone_machine : Machine := mkMachine zone_db (mkEgress [] [UnlockWait.DefaultUnlockTimeout] []).

Definition decided_run := Orchestration.Decide sample_options sample_exchange zone_request (mkWorld zone_machine 20 60 0).

(** The request waits for a person, who is shown what the record says now. *)
Lemma decide_only_looks_witness :
  exists result w', decided_run = (Ok result, w') /\ length (wire (outside (db w'))) = 1%nat /\
    Request.ChangePreview <$> requests (tables (db w')) !! "zr" =
      Some (Json.print (Json.JArr [Json.JObj [("resource", Json.of_string ""); ("field", Json.of_string "content");
        ("before", Json.of_string "1.2.3.4"); ("after", Json.of_string "5.6.7.8")]])) /\
    Orchestration.only_looks (outside zone_machine) (outside (db w')).
Proof.
  pose proof (Orchestration.decide_only_looks sample_options sample_exchange sample_site sample_lawful zone_request
    zone_machine) as Hf.
  destruct decided_run as [res w'] eqn:Hw.
  pose proof (wp_use _ _ (mkWorld zone_machine 20 60 0) _ _ Hf Hw) as [Hl _].
  assert (is_Ok (res, w').1 = true /\ length (wire (outside (db (res, w').2))) = 1%nat /\
    Request.ChangePreview <$> requests (tables (db (res, w').2)) !! "zr" =
      Some (Json.print (Json.JArr [Json.JObj [("resource", Json.of_string ""); ("field", Json.of_string "content");
        ("before", Json.of_string "1.2.3.4"); ("after", Json.of_string "5.6.7.8")]]))) as (Hok & Hone & Hshown).
  { rewrite <- Hw. vm_compute. split; [|split]; reflexivity. }
  destruct res as [result|e]; [|discriminate Hok]. exists result, w'.
  split; [reflexivity|]. split; [exact Hone|]. split; [exact Hshown|exact Hl].
Defined.

(** ** A tool call *)

Definition tool_call : McpCalls.Call_ :=
  {| McpCalls.call_Caller := {| McpCalls.AgentID := "agent"; McpCalls.WorkspaceID := "work" |};
     McpCalls.Tool := "github.issue.create"; McpCalls.Service := "github"; McpCalls.Operation := "create_issue";
     McpCalls.Arguments := Json.print (Json.JObj [("owner", Json.of_string "acme"); ("repo", Json.of_string "app");
       ("title", Json.of_string "something else")]) |}.

Definition call_run := McpCalls.Call sample_options sample_exchange "op-2" tool_call (mkWorld proxy_machine 20 60 0).

(** The lease of the confirmation allows the call: the issue is opened, and the
    execution is in the ledger under that lease. *)
Lemma mcp_call_under_lease_witness :
  exists out w', call_run = (Ok out, w') /\ McpCalls.Refused out = false /\ length (wire (outside (db w'))) = 1%nat /\
    exists request granted authorized, Lease.ID granted = lease_id /\
      McpCalls.closed_as request granted authorized (tables (db w')).
Proof.
  pose proof (McpCalls.mcp_call_under_lease sample_options sample_exchange sample_site sample_lawful "op-2" tool_call
    proxy_machine proxy_keyed) as Hf.
  destruct call_run as [res w'] eqn:Hw.
  pose proof (wp_use _ _ (mkWorld proxy_machine 20 60 0) _ _ Hf Hw) as [_ Hr].
  assert (match (res, w').1 with Ok out => McpCalls.Refused out = false | Err _ => False end /\
    length (wire (outside (db (res, w').2))) = 1%nat /\
    map_Forall (fun _ e => Ledger.Type_ e = Ledger.EventAdapterExecuted -> Ledger.LeaseID e = lease_id)
      (events (tables (db (res, w').2)))) as (Hok & Hone & Hev).
  { rewrite <- Hw. split; [vm_compute; reflexivity|]. split; [vm_compute; reflexivity|].
    apply (bool_decide_unpack _); vm_compute; exact I. }
  destruct res as [out|e]; [|destruct Hok]. exists out, w'. split; [reflexivity|]. split; [exact Hok|]. split; [exact Hone|].
  destruct Hr as [[_ Hr]|(request & inputs & t & result & l & authorized & hops & _ & _ & _ & _ & _ & _ & _ & _ & _ & _ & _ & Hc)].
  - pose proof (Hr out eq_refl) as Hr'. cbn in Hok. rewrite Hr' in Hok. discriminate Hok.
  - destruct (Hc out eq_refl) as [_ Hclosed]. exists request, l, authorized. split; [|exact Hclosed].
    destruct Hclosed as (ok & status & ev & x & Hx & Hin & _). rewrite <- (McpCalls.xe_lease _ _ _ _ _ _ Hx).
    apply (Hev _ _ Hin), (McpCalls.xe_type _ _ _ _ _ _ Hx).
Defined.

(** The person confirmed the change of [sample_request]; what was sent under the
    lease is another one, without being asked again. *)
Theorem another_change_under_lease :
  (exists a, approvals proxy_db !! item_id = Some a /\ Approval.Status a = Approval.StatusApproved) /\
  Request.DesiredChange sample_request = "open" /\
  map h_Body (wire (outside (db call_run.2))) = [Json.print (Json.JObj [("title", Json.of_string "something else")])].
Proof. split; [eexists; split; vm_compute; reflexivity|]. split; vm_compute; reflexivity. Qed.

(** ** A message *)

Definition tool_catalog : McpServer.Catalog := Eval vm_compute in
  match McpServer.NewCatalog builtin_registry with
  | Ok c => c | Err _ => {| McpServer.tools := []; McpServer.byName := ∅ |} end.

Lemma tools_declared_witness :
  McpServer.NewCatalog builtin_registry = Ok tool_catalog /\ (0 < length (McpServer.tools tool_catalog))%nat /\
  forall name service operation, McpServer.Target tool_catalog name = Some (service, operation) ->
    Forbidden.Classify service operation = None.
Proof.
  assert (McpServer.NewCatalog builtin_registry = Ok tool_catalog) as Hc by (vm_compute; reflexivity).
  split; [exact Hc|]. split; [vm_compute; lia|]. intros name service operation Ht.
  destruct (McpServer.tools_declared builtin_registry tool_catalog Hc) as (_ & _ & _ & Hn & _). exact (proj1 (Hn _ _ _ Ht)).
Defined.

Definition call_message : McpServer.frame :=
  {| McpServer.JSONRPC := "2.0"; McpServer.f_ID := "0"; McpServer.Method := McpServer.methodToolsCall;
     McpServer.Params := Json.print (Json.JObj [("name", Json.of_string "github.issue.create");
       ("arguments", Json.JObj [("owner", Json.of_string "acme"); ("repo", Json.of_string "app"); ("title", Json.of_string "t")])]) |}.

Definition message_run := McpServer.Dispatch sample_options sample_exchange tool_catalog up "op-3" call_message
  (AgentAuth.Reveal registered_key) (mkWorld proxy_machine 20 60 0).

(** The agent is known, the tool is listed, the lease allows the call. *)
Lemma dispatch_guarded_witness :
  exists reply w', message_run = (Ok (Some reply), w') /\ length (wire (outside (db w'))) = 1%nat /\
    exists agent, ProxyFace.recognised proxy_db (AgentAuth.Reveal registered_key) agent.
Proof.
  pose proof (McpServer.dispatch_guarded sample_options sample_exchange sample_site tool_catalog sample_lawful up "op-3"
    call_message (AgentAuth.Reveal registered_key) proxy_machine proxy_sessions proxy_keyed) as Hf.
  destruct message_run as [res w'] eqn:Hw.
  pose proof (wp_use _ _ (mkWorld proxy_machine 20 60 0) _ _ Hf Hw) as (reply & -> & _ & Hr & _).
  assert (length (wire (outside (db (@Ok Code (option McpServer.response) reply, w').2))) = 1%nat) as Hone
    by (rewrite <- Hw; vm_compute; reflexivity).
  destruct Hr as [[Hout _]|(answer & -> & _ & _ & agent & _ & _ & _ & _ & _ & _ & _ & Hknown & _)].
  - cbn in Hone. rewrite Hout in Hone. discriminate Hone.
  - exists answer, w'. split; [reflexivity|]. split; [exact Hone|]. exists agent. exact Hknown.
Defined.
