(* ===== verification/VaultSamples.v ===== *)
(** * A vault on which the theorems about it are run

    A cipher and a key derivation that keep the laws and hide nothing, a clock
    that moves half a minute with every reading, and a disk that does not fail. *)
From S2P Require Import Prelude GoStr Apperr GoTime Encoding.
From S2P Require Crypto.
From S2P Require Import World Outbound Vault.
Open Scope Z_scope.

Definition padding : string := "0123456789abcdef0123456789abcdef".

Definition fitted (n : nat) (s : string) : string :=
  take_str n (s +:+ padding +:+ String.string_of_list_ascii (replicate n "0"%char)).

Lemma fitted_length n s : String.length (fitted n s) = n.
Proof.
  unfold fitted. assert (n <= String.length (s +:+ padding +:+ String.string_of_list_ascii (replicate n "0"%char)))%nat as Hle.
  { rewrite !str_length_app. assert (String.length (String.string_of_list_ascii (replicate n "0"%char)) = n) as ->; [|lia].
    induction n; cbn; congruence. }
  revert Hle. generalize (s +:+ padding +:+ String.string_of_list_ascii (replicate n "0"%char)). intros t. revert n.
  induction t as [|c t IH]; intros [|n] Hle; cbn in *; try lia. rewrite IH; lia.
Qed.

#[export] Instance open_primitives : Crypto.Primitives := {
  Crypto.IDKey password _ _ _ _ n := fitted n password;
  Crypto.aead_Seal key _ plaintext _ := plaintext +:+ fitted Crypto.Overhead key;
  Crypto.aead_Open key _ ciphertext _ :=
    let n := (String.length ciphertext - Crypto.Overhead)%nat in
    if drop_str n ciphertext ==? fitted Crypto.Overhead key then Some (take_str n ciphertext) else None;
}.

#[export] Instance open_primitives_laws : Crypto.PrimitivesLaws.
Proof.
  constructor.
  - intros. apply fitted_length.
  - intros key nonce plaintext associated. unfold Crypto.aead_Seal, open_primitives. by rewrite str_length_app, fitted_length.
  - intros key nonce plaintext associated _ _. unfold Crypto.aead_Open, Crypto.aead_Seal, open_primitives.
    rewrite str_length_app, fitted_length, Nat.add_sub, drop_str_app.
    rewrite bool_decide_true by done. by rewrite Crypto.take_str_app.
Qed.

#[export] Instance quiet : Env := {
  clock_at n := (1 + Z.of_nat n) * (30 * Second);
  id_at n := Some (utoa (Z.of_nat n));
  io_fails _ := false;
  json_valid _ := true;
}.

#[export] Instance zeros : Device := { torn _ := None; drawn _ n := Some (fitted n "") }.

#[export] Instance zeros_laws : DeviceLaws.
Proof. constructor. intros i n s [= <-]. apply fitted_length. Qed.

Definition options : Options := {| Path := "/data/vault.enc"; IdleTimeout := DefaultIdleTimeout |}.

Definition nothing : World Safe :=
  mkWorld (mkSafe (mkEgress [] [] []) ∅ new_vault) 0 0 0.

Definition the_password : string := "correct horse battery".

(** After the vault was made. *)
Definition made : World Safe := (CreateWith options the_password nothing).2.

Definition sealed_text : string := default "" (files (db made) !! Path options).

Definition session : list action :=
  [Storing "github/token" "ghp_secret"; Fetching "github/token"; Fetching "other"; Listing; Locking; Listing;
   Unlocking; Storing "" "x"; Dropping "github/token"; Listing].

Example session_replies :
  (perform_all options the_password session made).1 =
    [Ok Done; Ok (Plain "ghp_secret"); Err CodeNotFound; Ok (Names ["github/token"]); Ok Done; Err CodeVaultLocked;
     Ok Done; Err CodeInvalidRequest; Ok Done; Ok (Names [])].
Proof. by vm_compute. Qed.

Lemma made_sound : sound options the_password None (db made) ∅.
Proof.
  constructor; [|by right; vm_compute| |done].
  - exists sealed_text, "{}". by split_and!; vm_compute.
  - intros i Hi. cut ((match master (vault (db made)) with Some i => Nat.ltb i (length (boxes (memory (db made)))) | None => true end) = true);
      [rewrite Hi; apply Nat.ltb_lt|by vm_compute].
Qed.

Lemma vault_is_map_witness :
  exists m', explained ∅ session (perform_all options the_password session made).1 m' /\
    sound options the_password None (db (perform_all options the_password session made).2) m'.
Proof. apply (vault_is_map options the_password session made ∅ made_sound); [by repeat constructor|done]. Defined.

Lemma open_seal_witness :
  Crypto.Open the_password sealed_text = Ok "{}".
Proof.
  apply (Crypto.open_seal (Some (fitted Crypto.saltLength "")) (fitted Crypto.NonceSizeX "") _ _ Crypto.Default).
  - by repeat split.
  - by vm_compute.
  - by vm_compute.
Defined.

Definition guesses : list string := ["wrong one"; "wrong two"; "wrong three"; "wrong four"; "wrong five"; "wrong six"].

Lemma no_enumeration_witness :
  (guess_all options guesses nothing).1 =
  (guess_all options guesses (mkWorld (set_files {[Path options := sealed_text]} (db nothing)) 0 0 0)).1.
Proof.
  apply (no_enumeration options guesses); [done..|].
  apply Forall_forall. intros guess Hin. split; [by intros m (s & p & Hs & _)|]. intros m (s & p & Hs & Hp & _).
  cbn [db files set_files] in Hs. rewrite lookup_singleton_eq in Hs. apply Some_inj in Hs. rewrite <- Hs in Hp. clear Hs m.
  revert Hp.
  assert (Crypto.Open guess sealed_text = Err CodeUnauthenticated) as ->; [|done].
  revert guess Hin. apply Forall_forall. by repeat constructor; vm_compute.
Defined.

Example lockout :
  map (fun r => r.2.2) (guess_all options guesses nothing).1 =
    [Some CodeUnauthenticated; Some CodeUnauthenticated; Some CodeProviderLockedTimeout; Some CodeProviderLockedTimeout;
     Some CodeUnauthenticated; Some CodeUnauthenticated].
Proof. by vm_compute. Qed.

Lemma clock_forward i j : (i <= j)%nat -> clock_at i <= clock_at j.
Proof. intros Hij. change (clock_at ?n) with ((1 + Z.of_nat n) * (30 * Second)). unfold Second, Millisecond. lia. Qed.

Definition shut_down : World Safe := (guess_all options (take 3 guesses) made).2.

(** Five of the six guesses are compared; and after three, during the lockout, the
    right password is told what a wrong one is told. *)
Lemma guesses_bounded_witness :
  (exists a b c d, comparisons options guesses nothing !! 0%nat = Some (a, false) /\
     comparisons options guesses nothing !! 1%nat = Some (b, false) /\
     comparisons options guesses nothing !! 2%nat = Some (c, false) /\
     comparisons options guesses nothing !! 3%nat = Some (d, false) /\ a + LockoutDuration <= d) /\
  exists w', UnlockWith (E := Code) options the_password shut_down =
      (Ok ({| LockoutBegan := false; LockedUntil := lockedUntil (vault (db shut_down)) |}, Some lockedOut), w') /\
    stmts w' = stmts shut_down /\ vault (db w') = vault (db shut_down) /\ files (db w') = files (db shut_down).
Proof.
  split.
  - eexists _, _, _, _. do 4 (split; [by vm_compute|]).
    eapply (proj1 (guesses_bounded options guesses nothing clock_forward ltac:(by vm_compute)) 0%nat); by vm_compute.
  - assert ((failures (vault (db shut_down)) =? 0) = true) as Hk by (vm_compute; reflexivity).
    assert ((clock_at (ticks shut_down) <? lockedUntil (vault (db shut_down))) = true) as Hl by (vm_compute; reflexivity).
    apply Z.eqb_eq in Hk. apply Z.ltb_lt in Hl.
    destruct (guesses_bounded options [] shut_down clock_forward ltac:(rewrite Hk; unfold MaxUnlockFailures; lia)) as [_ H].
    exact (H the_password Hl).
Defined.

(** Unlocking a vault that is unlocked takes a second copy of the master password,
    and locking empties that one only: the first stays in memory. *)
Example unlocked_twice :
  let w := (Lock (E := Code) (UnlockWith (E := Code) options the_password made).2).2 in
  password_of (db w) = "" /\ In the_password (boxes (memory (db w))).
Proof. by split; [vm_compute|vm_compute; tauto]. Qed.

(** Restoring a backup compares a password during a lockout, and uncounted. *)
Example restored_while_locked_out :
  let w := (guess_all options (take 3 guesses) made).2 in
  let told v w := (UnlockWith (E := Code) options v w).1 in
  told the_password w = Ok ({| LockoutBegan := false; LockedUntil := lockedUntil (vault (db w)) |}, Some CodeProviderLockedTimeout) /\
  let value := Some (length (boxes (memory (db w)))) in
  (RestoreBackup options sealed_text value (mkWorld (boxed "wrong" (db w)) (ticks w) 0 0)).1 = Err CodeUnauthenticated /\
  (RestoreBackup options sealed_text value (mkWorld (boxed the_password (db w)) (ticks w) 0 0)).1 = Ok tt.
Proof. by split_and!; vm_compute. Qed.

Lemma shut_vault_witness :
  (Get options "github/token" nothing).1 = Err CodeVaultLocked /\
  (References options (mkWorld (locked_down (db made)) 0 0 0)).1 = Err CodeVaultLocked.
Proof.
  split.
  - apply (proj1 (shut_vault options (db nothing)) (or_introl eq_refl) "github/token" None). reflexivity.
  - apply (proj1 (shut_vault options (locked_down (db made))) (or_introl eq_refl) "" None). reflexivity.
Defined.
