(* ===== verification/ConsoleSamples.v ===== *)
(** * The console, run

    A console over the sample database with one approval that waits, a vault that
    was never made, and one open stream. Requests are whole HTTP requests; the
    theorems about the endpoints are applied where they have hypotheses. The run
    command runs an agent against it. *)
From S2P Require Import Prelude GoStr Apperr GoTime World Store Machine.
From S2P Require Json Redact Lease Approval Request Decision Ledger Intent.
From S2P Require Outbound UnlockWait CredentialRegistry Exchange Crypto Vault Samples OutsideSamples VaultSamples.
From S2P Require Import RawJson ConsoleViews LedgerExport Events Console ConsoleApi ConsoleSpec.
Open Scope Z_scope.

#[local] Existing Instance ascii_only.
#[local] Existing Instance Redact.plain_floats.
#[local] Existing Instance Samples.sample_env.
#[local] Existing Instance OutsideSamples.sample_unlocking.
#[local] Existing Instance OutsideSamples.sample_credentials.
#[local] Existing Instance VaultSamples.zeros.
#[local] Existing Instance VaultSamples.open_primitives.

Definition sample_boot : BootConfig :=
  {| ListenAddress := "127.0.0.1"; WebAPIPort := 8787; AgentProxyPort := 8788; MCPPort := 8789; LogLevel := "info" |}.

Definition sample_console : Console :=
  {| options := Samples.sample_options; exchange := OutsideSamples.sample_exchange;
     credentials := OutsideSamples.vault_registry; vault := Some VaultSamples.options; boot := sample_boot; sessionTTL := 0;
     token := "secret-token"; version := "0.1.0"; started := Scope.sample_now |}.

(** What the page of this console sends. *)
Definition sent (method : string) (path : list string) (query : list (string * string)) (body : string) : HttpRequest :=
  {| h_Method := method; h_Path := "v1" :: path; h_Query := query; h_Body := quoted body;
     h_ContentLength := Z.of_nat (String.length body); h_Origin := "http://127.0.0.1:8787";
     h_RequestedBy := RequestedByConsole; h_Authorization := "Bearer secret-token" |}.

Definition asked_backend : Backend :=
  mkBackend (mkMachine (db Samples.asked_world) (Outbound.mkEgress [] [] [])) (db VaultSamples.nothing) (Subscribe NewBroker).2.

Definition asked : World Backend := mkWorld asked_backend 20 60 0.

Definition status (answer : result Refusal Answer) : Z :=
  match answer with Ok (Reply status _ _ _) => status | _ => 0 end.

Definition body_of (answer : result Refusal Answer) : string :=
  match answer with Ok (Reply _ _ _ body) => body | _ => "" end.

(** Requests one after the other: the statuses, and the state they leave. *)
Fixpoint session (l : list HttpRequest) (w : World Backend) : list Z * World Backend :=
  match l with
  | [] => ([], w)
  | q :: l =>
      let '(answer, w) := Handler sample_console q w in
      let '(rest, w) := session l w in (status answer :: rest, w)
  end.

Definition approval_path (action : string) : list string := ["approvals"; Samples.item_id; action].

Definition request_path : list string := ["capability-requests"; "request"].

Definition backend_tables (w : World Backend) : DB := Machine.tables (machine (db w)).

Definition request_status (w : World Backend) : option string :=
  Request.Status <$> requests (backend_tables w) !! "request".

Example turned_away :
  (session [{| h_Method := "GET"; h_Path := ["v1"; "leases"]; h_Query := []; h_Body := ""; h_ContentLength := 0;
               h_Origin := "http://evil.example"; h_RequestedBy := RequestedByConsole; h_Authorization := "Bearer secret-token" |};
            {| h_Method := "GET"; h_Path := ["v1"; "leases"]; h_Query := []; h_Body := ""; h_ContentLength := 0;
               h_Origin := ""; h_RequestedBy := RequestedByConsole; h_Authorization := "Bearer guess" |};
            sent "GET" ["leases"] [] ""; sent "PUT" ["leases"] [] ""; sent "GET" ["nothing"] [] "";
            sent "GET" ["leases"] [("limit", "201")] ""; sent "POST" (approval_path "allow-once") [] "{'strong_auth_completed':true}"] asked).1 =
    [403; 401; 200; 405; 404; 400; 400].
Proof. by vm_compute. Qed.

(** The types of the events that wait on the first stream. *)
Definition told (w : World Backend) : list string :=
  match streams (broker (db w)) !! 0%nat with Some s => map e_Type (waiting s) | None => [] end.

(** A person's answer is told to the open stream, and once only. *)
Example answered_once :
  let run := session [sent "POST" (approval_path "allow-once") [] ""; sent "POST" (approval_path "allow-once") [] ""] asked in
  run.1 = [200; 200] /\ size (leases (backend_tables run.2)) = 1%nat /\ request_status run.2 = Some Request.StatusApproved /\
  told run.2 = [EventPassage; EventLease].
Proof. by vm_compute. Qed.

(** A request that was cancelled, and allowed afterwards: the item that waits for
    the answer outlives the cancellation, so the answer issues an active lease and
    moves the cancelled request to approved. *)
Example cancelled_then_allowed :
  let cancelled := session [sent "POST" (request_path ++ ["cancel"]) [] ""] asked in
  let run := session [sent "POST" (approval_path "allow-once") [] ""] cancelled.2 in
  cancelled.1 = [200] /\ request_status cancelled.2 = Some Request.StatusCancelled /\
  run.1 = [200] /\ request_status run.2 = Some Request.StatusApproved /\
  map (fun kv => Lease.Status kv.2) (map_to_list (leases (backend_tables run.2))) = [Lease.StatusActive].
Proof. by vm_compute. Qed.

(** [null] passes for the object a resource has to be. *)
Example null_resource :
  checkResourceObject "null" = Ok tt /\ checkResourceObject "[]" = Err (because CodeInvalidRequest) /\
  missingField (default no_form (decodeForm submitRequest no_form (quoted
    "{'agent_id':'a','workspace':'w','service':'s','operation':'o','resource':null,'reason':'r'} and more"))) = "".
Proof. by split_and!; vm_compute. Qed.

(** Text after the first value of a body is not read. *)
Example trailing_text :
  is_Some (decodeForm settleBody no_form (quoted "{'confirmations':2} {'confirmations':1} x")) /\
  decodeForm settleBody no_form (quoted "{'confirmations':2,'strong_auth_completed':true}") = None.
Proof. split; [by eexists; vm_compute|by vm_compute]. Qed.

(** ** The theorems about the endpoints, applied *)

Definition stranger : Caller := {| c_AgentID := "stranger" |}.

Lemma agents_kept_out_witness :
  serve sample_console stranger "op" (sent "POST" (approval_path "allow-once") [] "") (Settle Samples.item_id Approval.ActionAllowOnce) asked =
    (Ok (fail "op" (because CodeForbidden)), asked).
Proof. apply (agents_kept_out sample_console stranger "op"); reflexivity. Defined.

(** The request is the sample agent's: the stranger cannot cancel it, nor tell that it is there. *)
Lemma foreign_hidden_witness :
  (serve sample_console stranger "op" (sent "POST" (request_path ++ ["cancel"]) [] "") (Cancel "request") asked).1 =
    (serve sample_console stranger "op" (sent "POST" (request_path ++ ["cancel"]) [] "") (Cancel "request") (forgetting "request" asked)).1 /\
  db (serve sample_console stranger "op" (sent "POST" (request_path ++ ["cancel"]) [] "") (Cancel "request") asked).2 = db asked.
Proof.
  apply (foreign_hidden sample_console stranger "op"); [reflexivity|set_solver|].
  split; intros x Hx; vm_compute in Hx; [injection Hx as <-; discriminate|discriminate].
Defined.

Lemma reading_is_safe_witness :
  db (dispatch sample_console console_caller "op" (sent "GET" ["ledger"; "events"] [] "") asked).2 = db asked.
Proof. apply (reading_is_safe sample_console console_caller "op"); [apply list_elem_of_here|discriminate]. Defined.

(** ** Two events, exported *)

Definition exported_events : list Ledger.Event := rows_of (Store.events (db Samples.asked_world)).

Definition export_text : string := Eval vm_compute in
  match Export FormatCSV exported_events with Ok text => text | Err _ => "" end.

(** The export of the ledger reads back as a table with the columns and a row for each event. *)
Lemma exports_agree_witness :
  (length exported_events, option_map (length (A := list string)) (Csv.read export_text)) = (1%nat, Some 2%nat) /\
  exists rows, Csv.read export_text = Some (ExportColumns :: map (fun row : list (string * view) => map (fun kv => csvValue kv.2) row) rows).
Proof.
  split; [by vm_compute|].
  destruct (exports_agree FormatCSV exported_events) as [_ H].
  destruct (H export_text ltac:(by vm_compute)) as (rows & _ & _ & Hcsv & _). exists rows. by apply Hcsv.
Defined.

(** ** The run command

    An agent that ends well and one that does not, in an environment with a
    credential. *)
From S2P Require Import FilePath Config GatewayClient CommandLine.

#[local] Instance desk : Surroundings := {|
  located := fun command => if command ==? "codex" then Some "/usr/bin/codex" else None;
  readable_bytes := fun path => if path ==? "/usr/bin/codex" then Some "ELF" else None;
  osUser := Some "ada"; workingDirectory := Some "/home/ada/p"; hostname := Some "desk"; pid := 41; parentPid := 40;
  GOOS := "linux"; GOARCH := "amd64";
|}.

Notation agent_run child :=
  (runRun sample_console Config.Default "secret-token" child ["PATH=/bin"; "GH_TOKEN=x"] [] [] ["--verbose"; "--"; "codex"; "-q"]).

Definition quiet_child (code : Z) : list string -> list string -> M Backend Code Z := fun _ _ => mret code.

(** An agent that looks at what it was given: no credential, a key. *)
Definition careful_child : list string -> list string -> M Backend Code Z := fun forwarded environ =>
  mret (if bool_decide (forwarded = ["codex"; "-q"]) && one_of "PATH=/bin" environ &&
           negb (existsb (fun entry => has_prefix entry "GH_TOKEN") environ) &&
           existsb (fun entry => has_prefix entry "OPENDELO_SESSION_KEY=") environ then 0 else 9).

(** An agent that takes the table of agents with it. *)
Definition rude_child : list string -> list string -> M Backend Code Z := fun _ _ w =>
  (Ok 3, mkWorld (World.put (World.put (∅ : gmap string Agent.Agent) (World.view (db w) : DB)) (db w)) (ticks w) (ids w) (stmts w)).

Definition sessions_of (w : World Backend) : list (string * string) :=
  map (fun row => (Agent.Name row.2, Agent.Status row.2)) (map_to_list (agents (backend_tables w))).

Example agents_run :
  (let r := agent_run careful_child asked in
   r.1 = Ok {| failure := None; told_open := None |} /\ sessions_of r.2 = [("codex", Agent.StatusDisconnected); ("claude", Agent.StatusActive)]) /\
  (let r := agent_run (quiet_child 3) asked in
   r.1 = Ok {| failure := Some (ExitCode 3); told_open := None |}) /\
  (let r := agent_run rude_child asked in
   failure <$> (match r.1 with Ok outcome => Some outcome | Err _ => None end) = Some (Some (ExitCode 3)) /\
   (match r.1 with Ok outcome => bool_decide (told_open outcome = None) | Err _ => true end) = false).
Proof. split; [split|split; [|split]]; vm_compute; reflexivity. Qed.

Lemma asked_coherent : coherent_tables asked_backend.
Proof.
  split.
  - split; [intros id l Hl; vm_compute in Hl; by destruct id|intros id m Hm; vm_compute in Hm; by destruct id|].
    eapply (Samples.one_row Matcher.ID); by vm_compute.
  - destruct Samples.sample_sessions as [Ha Hd Hw].
    by split; [replace (agents _) with (agents (db Samples.sample_world))|replace (devices _) with (devices (db Samples.sample_world))|
      replace (workspaces _) with (workspaces (db Samples.sample_world))]; try (by vm_compute).
Qed.

